(* ===== verification/_CoqProject ===== *)
-Q . S2P
Prelude.v
UInt.v
BigNum.v
ScriptOps.v
Serialize.v
Crypto.v
Keys.v
Core.v
SigHash.v
Interp.v
InterpFacts.v
InterpSame.v
InterpFlags.v
InterpLimits.v
Standard.v
Spending.v
Der.v
Signing.v
SigningFacts.v
SigningCheck.v
CombineFacts.v
Block.v
Mempool.v
Orphans.v
Chain.v
Locator.v
TxCheck.v
Connect.v
Kernel.v
BlockCheck.v
Base58.v
BlockConnect.v
BlockConnectFacts.v
Accept.v
Checkpoints.v
Activate.v
ActivateFacts.v
AcceptBlock.v
OrphanBlocks.v
ProcessBlock.v
ActivateExamples.v
ProcessExamples.v
Catalog.v
CatalogFa1.v
CatalogFa2.v
CatalogFa3.v
Format.v
FormatFacts.v
Translate.v
Money.v
Hex.v
Base64.v
NetAddr.v
AddrMan.v
AddrManFacts.v
AddrManCheck.v
Wallet.v
WalletFacts.v
CoinSelect.v
CoinSelectFacts.v
KeyPool.v
KeyPoolFacts.v
Payment.v
CreateTx.v
CreateTxFacts.v
PaymentCheck.v
SigOps.v
Mining.v
MiningFacts.v
MiningReturns.v
MiningConnect.v
MiningBlock.v
MiningCheck.v
MinerWork.v
Staking.v
StakeSign.v
StakingFacts.v
StakingCheck.v
