(* ===== verification/Prelude.v ===== *)
(** * A verification development of the BWS node

    BWS is a proof-of-stake Bitcoin node in C++ ([src/src]), with a Qt
    interface. This library models its consensus core, its script interpreter and
    signer, its transaction pool, the coins of its wallet, its table of peers, its
    text formats and its Farsi message catalogue, and proves what makes each of
    them correct. All paths below are relative
    to [src/src].

    ** The parts of the program, and the files that model them

    The node keeps a block tree ([mapBlockIndex]), a transaction index
    (LevelDB), a memory pool ([CTxMemPool]) and the orphan transactions. A
    transaction enters by [AcceptToMemoryPool]: it is checked alone
    ([CheckTransaction], [IsStandardTx]), its inputs are fetched and connected
    ([FetchInputs], [ConnectInputs]), and each input's script is run
    ([VerifyScript]) against the signature hash ([SignatureHash], [CheckSig]).
    A block is checked ([CheckBlock]: proof of work or stake, size, Merkle
    root), its transactions connected ([ConnectBlock]), and the best chain moved
    ([SetBestChain]); a block whose parent is missing waits ([ProcessBlock]). The
    wallet finds its outputs ([IsMine]), offers them ([AvailableCoins]), chooses
    among them ([SelectCoins]) and signs ([SignSignature]). A miner's block is made
    from the pool ([CreateNewBlock]) and comes back as a block that arrives
    ([CheckWork]); a staker's carries a coinstake ([CreateCoinStake]) and its
    signature ([SignBlock]).

    - [Prelude]: machine integers ([Width]: wrap-around written out), bytes,
      little-endian words, the reader monad of streams, shared tactics.
    - [BigNum] ([bignum.h]): [CBigNum]'s conversions, over OpenSSL's [BN_*].
    - [ScriptOps] ([script.h], [script.cpp]): opcodes, pushes, [GetOp2],
      [FindAndDelete], signature-operation counts.
    - [Serialize] ([serialize.h]): compact sizes, variable-length integers,
      strings and vectors, as writers and checked readers.
    - [Crypto] ([hash.h]), [Keys] ([key.h], [key.cpp]): hashing and keys. The
      digests and the elliptic-curve library are classes ([Digests], [ECLib])
      whose laws are the documented behaviour of OpenSSL.
    - [Core] ([core.h], [main.h]): outpoints, inputs, outputs, transactions and
      their wire format.
    - [SigHash] ([script.cpp]): [SignatureHash], the signature cache, [CheckSig].
    - [Interp], [InterpFacts], [InterpSame], [InterpFlags], [InterpLimits]
      ([script.cpp]): [EvalScript] with a handler per opcode and
      [VerifyScript]; its step relation; its independence of the scripts of the
      inputs and of the flag for the cache; the limits every reachable state
      respects.
    - [Standard], [Spending] ([script.cpp]): [Solver] and the standard forms,
      destinations, script compression; spending each standard form.
    - [Block] ([main.h]): blocks, their wire format and Merkle trees.
    - [Mempool] ([txmempool.cpp]), [Orphans] ([main.cpp]): the two stores of
      unconfirmed transactions.
    - [Chain], [Locator] ([main.h], [main.cpp]): the block index, difficulty,
      rewards, block locators. A pointer into the index is the list of the
      entries from the one pointed to back to the genesis block.
    - [TxCheck], [Connect] ([main.cpp]): the checks of a transaction, and
      fetching, connecting and disconnecting its inputs.
    - [Kernel] ([kernel.cpp]): the stake modifier and the kernel test.
    - [UInt] ([uint256.h]): the word loops of [base_uint].
    - [BlockCheck] ([main.cpp]): [CheckBlock] and [CheckBlockSignature].
    - [BlockConnect], [BlockConnectFacts] ([main.cpp]): [ConnectBlock] and
      [DisconnectBlock]; the class [NodeEnv] holds what they read from the node.
    - [Accept] ([main.cpp]): [AcceptToMemoryPool].
    - [Checkpoints] ([checkpoints.cpp]), [Activate], [ActivateFacts],
      [AcceptBlock] ([main.cpp]): the store of index objects, [SetBestChain],
      [Reorganize], [AddToBlockIndex] and [AcceptBlock].
    - [OrphanBlocks], [ProcessBlock] ([main.cpp]): blocks without a parent and
      the arrival of a block. [ActivateExamples] and [ProcessExamples] run all
      this on a small block tree.
    - [Der], [Signing], [SigningFacts], [SigningCheck], [CombineFacts]
      ([keystore.cpp], [script.cpp]): the key store, [IsMine], [SignSignature]
      and [CombineSignatures]. The class [SignerOk] states the laws of OpenSSL's
      signer.
    - [Wallet], [WalletFacts], [CoinSelect], [CoinSelectFacts], [Payment],
      [PaymentCheck] ([wallet.h], [wallet.cpp]): the wallet's transactions,
      balances and coins, and the choice of the coins of a payment.
    - [KeyPool], [KeyPoolFacts] ([wallet.cpp]): the reserve of unused keys.
    - [CreateTx], [CreateTxFacts] ([wallet.cpp]): [CreateTransaction] and the
      supporting transactions it attaches.
    - [SigOps], [Mining], [MiningFacts], [MiningReturns], [MiningConnect],
      [MiningBlock], [MiningCheck], [MinerWork] ([miner.cpp]): block templates, the
      work for a miner, and the blocks it finds; how many signature operations
      fit a transaction; the simulation of a template's transactions by those of
      the connected block; examples on a small pool.
    - [Staking], [StakeSign], [StakingFacts], [StakingCheck] ([wallet.cpp],
      [main.cpp], [miner.cpp]): [CreateCoinStake], [SignBlock] and a round of
      [ThreadStake]; the signatures of a coinstake and of its block; a small wallet
      that stakes.
    - [Base58] ([base58.h]), [Money], [Hex], [Base64] ([util.cpp]): addresses,
      amounts and binary data as text.
    - [NetAddr] ([netbase.cpp]), [AddrMan], [AddrManFacts], [AddrManCheck]
      ([addrman.cpp]): network addresses and the table of known peers.
    - [Format], [FormatFacts] ([tinyformat.h]): [strprintf].
    - [Catalog], [CatalogFa1] to [CatalogFa3], [Translate]
      ([qt/locale/bitcoin_fa.ts], [ui_interface.h], [qt/bitcoin.cpp]): the
      Farsi catalogue as data, one definition per context, the translation
      function [_], and every call that formats a translated message. Qt's
      translator is a class ([Translator]) with the documented law of
      [QCoreApplication::translate]; an instance shows it can hold.

    ** How state and failure are modelled

    Objects with their own state are records, and an operation maps a record
    to a record. A C++ container with unique keys is a [gmap]; vectors are
    lists, and an index out of range is [None] or [Crash], never a default.
    Exceptions and error returns are values: the interpreter is a state monad
    with failure ([Eval]), [ConnectInputs] returns an [outcome] ([Ok], [Fail]
    with the punishment of the peer, [Crash] for an assertion or a read out of
    range), [CheckTransaction] a [verdict], [strprintf] a sum. Integers are [Z]
    with the wrap-around of their width written at the operations that can
    overflow. Pointers into a map are its keys.
    What a database transaction has written is apart from what is on disk
    ([TxnBegin], [TxnCommit], [TxnAbort] of [Activate]).

    Random choices (cache eviction, orphan eviction) are an arbitrary function
    of the number of the call, and so is the layout of a heap, which decides
    between equal priorities. A fee rate, a [double], is an IEEE number of the
    Standard Library's [SpecFloat]. Locks are left out: each operation holds its
    lock throughout and is one step.

    ** What the theorems show

    - Scripts: what it takes to spend each standard form ([VerifyScript_p2pkh],
      [VerifyScript_p2sh], [VerifyScript_multisig]); the interpreter is its
      step relation ([EvalScript_steps]) and respects its limits
      ([reachable_limits]); [Solver] decides the standard forms
      ([Solver_classify]); deleting a signature deletes exactly its
      instructions ([FindAndDelete_instrs]).
    - Signatures: what a signature commits to and leaves open
      ([SignatureHash_all_commits], [SignatureHash_leaves_open]); the cache
      changes no verdict ([CheckSig_transparent],
      [VerifyScript_cache_independent]).
    - Wallet: what is counted as owned can be signed ([IsMine_signs]), and
      signing gives scripts that verify ([SignSignature_succeeds],
      [CombineSignatures_verifies]); [AvailableCoins] offers exactly the
      spendable outputs ([AvailableCoins_spec]), and [SelectCoins] pays whenever
      they reach the target ([SelectCoins_pays]); a transaction the wallet
      creates pays its recipients, leaves the fee it reports and verifies
      ([CreateTransaction_pays]), and the search for the fee ends
      ([CreateTransaction_terminates]); the key pool of an unlocked wallet
      never hands out a key twice ([keypool_hands_out_once]).
    - Transactions: accepted transactions spend existing mature unspent outputs
      and create no value ([ConnectInputs_sound]); no input crashes the node
      after a successful fetch ([ConnectInputs_no_crash]); disconnecting undoes
      connecting ([DisconnectInputs_undoes]); [CheckTransaction] accepts
      exactly the transactions of its specification ([CheckTransaction_spec]).
    - Pools: recursive removal removes a transaction and its descendants
      ([remove_descendants]); the maps stay consistent ([addUnchecked_ok],
      [removeConflicts_exact], [orphans_consistent]).
    - Chain: Merkle roots commit to their leaves ([merkle_root_commits],
      [merkle_branch_verifies]); difficulty stays in its bounds
      ([next_target_bounded]); locators find the fork ([locator_finds_fork]);
      the stake modifier takes one bit from each selected block
      ([ComputeNextStakeModifier_bits]).
    - Blocks: [CheckBlock] accepts exactly the blocks of its specification
      ([CheckBlock_spec]); a connected block mints no more than its reward, unless
      it is a mined block with a coinstake ([ConnectBlock_mint]), and disconnecting it restores the state
      ([DisconnectBlock_undoes]); an accepted block fits its place in the tree
      ([AcceptBlock_fits]).
    - Best chain: the fork of two branches is found ([find_fork_meet]); a refused
      block leaves the chain and the database as they were, but for the record of
      the best invalid trust ([SetBestChain_atomic]); a good one on top
      of it is adopted ([SetBestChain_extends]); the best block stays the one
      with the most trust ([AddToBlockIndex_best]); a block is stored, held, refused
      or, an orphan that no peer sent, dropped ([ProcessBlock_settles]), and one that arrives frees the orphans
      above it ([process_queue_resolves]).
    - Mining: the block that [CreateNewBlock] makes passes the rules of its place
      and connects ([CreateNewBlock_connects]), so the template's loop keeps what
      [ConnectBlock] asks; it is made whenever the pool is closed under its
      inputs ([CreateNewBlock_returns]); the work given to a miner is padded as
      SHA-256 asks ([FormatHashBlocks_padding]).
    - Staking: a block that [SignBlock] signs passes the checks of a
      proof-of-stake block ([SignBlock_stakes]); on the test network, which the
      fund's address is not of, its reward fails them above height 25
      ([testnet_stake_refused]).
    - Pool entry: what is accepted is final, standard, spends standard inputs
      within the limit of signature operations and pays its fee
      ([AcceptToMemoryPool_sound]), and the pool stays free of conflicts
      ([AcceptToMemoryPool_invariant]).
    - Peers: the tables of addresses stay consistent ([addrman_consistent]), a
      request gets a bounded share of them ([GetAddr_selects]), and groups are
      prefixes of addresses ([GetGroup_prefix]).
    - Numbers and text: word arithmetic is arithmetic modulo a power of two
      ([base_uint_refines]); amounts, base-58, Tor names are read back
      ([money_roundtrip], [base58check_exact], [special_names]).
    - Messages: tinyformat's state machine is its one-conversion-at-a-time
      reference ([strprintf_reference]) and plain formats fail exactly when the
      number of values is wrong ([strprintf_plain]); the Farsi catalogue is
      well formed ([fa_well_formed]), what is shown of it keeps the place markers
      of the sources ([fa_keeps_markers]), and every formatted message survives translation
      ([fa_calls_format]) but one ([fa_client_password_throws]).
    - Round trips of the encodings: transactions, blocks, keys, compact
      targets, script numbers, compressed scripts, sizes.

    ** Fuel

    Loops that are not structural take fuel, and theorems say that the fuel
    given is enough: the interpreter runs on the length of the script
    ([EvalScript_steps] is an equivalence with the unbounded relation); the
    recursive removal from the pool on the number of its entries
    ([remove_descendants]); the Merkle loops on the number of leaves, whose
    level halves each round; cache and orphan eviction on the number of
    entries, which falls each round; walks over the block store on its size; the
    work queue of arriving blocks on two more than the number of orphans
    ([process_queue_resolves]); the pruning of orphans on their number
    ([PruneOrphanBlocks_limit]); [IsMine] on one more than the number of redeem
    scripts, and it returns exactly when no redeem script leads back to itself
    ([IsMine_terminates]); the trust of an unconfirmed transaction on a power of
    its inputs ([IsTrusted_terminates]), which the theorems keep as an argument;
    the search for the fee of a payment on the rounds its measure allows
    ([CreateTransaction_terminates]); the top-up of the key pool on one more
    than its target; the loop of a block template on the number of transactions
    of the pool ([CreateNewBlock_returns]);
    the printing of integers on 64 digits,
    more than any 64-bit value has in base 8, 10 or 16.

    ** Not modelled, and why

    Networking, message dispatch, threads and locks; the databases (the
    transaction index appears as a map, reads from the block files as a
    parameter); RPC and the command line; the Qt widgets; the hand-written scrypt assembly. Digests, elliptic
    curves, big-number arithmetic and Qt's translator are third-party code and
    stand as classes with documented laws. Floating-point conversions of
    tinyformat are left out with the type [double]. Loading and storing (the block index, [wallet.dat], [peers.dat]),
    the stake weights shown to the user, committing and resending the wallet's
    transactions, encrypted key stores and the choice of a peer
    with its floating-point chances are not modelled; a database write never
    fails, except where the code tests it. The other
    translation files hold the same kind of data as the Farsi one. *)

From stdpp Require Export base gmap sets list strings.
From coqutil Require Export Byte.
From coqutil.Word Require LittleEndianList.
From Stdlib Require Export ZArith Lia.

#[export] Set Default Goal Selector "!".
Open Scope Z_scope.

Declare Scope bws_scope.
Delimit Scope bws_scope with bws.

(** ** Machine integers

    A C++ integer of width [w] is a [Z]; the wrap-around of an assignment or
    of an unsigned operation is written out with these functions. *)
Module Width.
Definition u8 (z : Z) : Z := z mod 2 ^ 8.
Definition u16 (z : Z) : Z := z mod 2 ^ 16.
Definition u32 (z : Z) : Z := z mod 2 ^ 32.
Definition u64 (z : Z) : Z := z mod 2 ^ 64.
Definition swrap (w z : Z) : Z := (z + 2 ^ (w - 1)) mod 2 ^ w - 2 ^ (w - 1).
Definition i32 (z : Z) : Z := swrap 32 z.
Definition i64 (z : Z) : Z := swrap 64 z.

Definition in_u (w z : Z) : Prop := 0 <= z < 2 ^ w.
Definition in_s (w z : Z) : Prop := - 2 ^ (w - 1) <= z < 2 ^ (w - 1).

Lemma swrap_id w z : 0 < w -> in_s w z -> swrap w z = z.
Proof.
  unfold swrap, in_s. intros Hw Hz.
  assert (2 ^ w = 2 * 2 ^ (w - 1)) by (rewrite <- Z.pow_succ_r by lia; f_equal; lia).
  rewrite Z.mod_small; lia.
Qed.

Lemma swrap_range w z : 0 < w -> in_s w (swrap w z).
Proof.
  unfold swrap, in_s. intros Hw.
  assert (2 ^ w = 2 * 2 ^ (w - 1)) by (rewrite <- Z.pow_succ_r by lia; f_equal; lia).
  pose proof (Z.mod_pos_bound (z + 2 ^ (w - 1)) (2 ^ w) ltac:(lia)). lia.
Qed.

Lemma swrap_of_mod w z : 0 < w -> swrap w (z mod 2 ^ w) = swrap w z.
Proof. intros Hw. unfold swrap. by rewrite Zplus_mod_idemp_l. Qed.
End Width.
Export Width.

(** ** Bytes *)
Abbreviation bytes := (list byte).

#[export] Instance byte_eq_dec : EqDecision byte := Strings.Byte.byte_eq_dec.
#[export] Instance byte_inhabited : Inhabited byte := populate Byte.x00.

#[export] Instance byte_countable : Countable byte.
Proof.
  refine (inj_countable' Strings.Byte.to_N (fun n => default Byte.x00 (Strings.Byte.of_N n)) _).
  intros b. by rewrite Strings.Byte.of_to_N.
Defined.

(** ** Literals

    A string literal of the source is a [text], which holds the bytes between
    the quotes; [raw] takes them out. A character is a byte. *)
Record text := Text { raw : bytes }.

Delimit Scope byte_scope with byte.
Declare Scope text_scope.
Delimit Scope text_scope with text.
Bind Scope text_scope with text.
String Notation text Text raw : text_scope.

Definition no_text : text := Text [].

#[export] Instance text_eq_dec : EqDecision text.
Proof. solve_decision. Defined.

(** [unsigned char] value of a byte and back (with the conversion's wrap). *)
Abbreviation uchar := byte.unsigned.
Abbreviation to_byte := byte.of_Z.
Abbreviation le_bytes := LittleEndianList.le_split.
Abbreviation le_val := LittleEndianList.le_combine.

Notation "'B#' z" := (byte.of_Z z) (at level 1, format "'B#' z") : bws_scope.
Open Scope bws_scope.

Module Bytes.
Lemma uchar_range b : 0 <= uchar b < 256.
Proof. apply byte.unsigned_range. Qed.

Lemma uchar_to_byte z : uchar (to_byte z) = z mod 256.
Proof. apply byte.unsigned_of_Z. Qed.

Lemma uchar_to_byte_small z : 0 <= z < 256 -> uchar (to_byte z) = z.
Proof. intros. rewrite uchar_to_byte. by apply Z.mod_small. Qed.

Lemma to_byte_uchar b : to_byte (uchar b) = b.
Proof. apply byte.of_Z_unsigned. Qed.

Lemma uchar_inj a b : uchar a = uchar b -> a = b.
Proof. intros H. by rewrite <- (to_byte_uchar a), H, to_byte_uchar. Qed.

Lemma length_le_bytes n z : length (le_bytes n z) = n.
Proof. apply LittleEndianList.length_le_split. Qed.

Lemma le_val_bytes n z : 0 <= z < 2 ^ (Z.of_nat n * 8) -> le_val (le_bytes n z) = z.
Proof. intros. rewrite LittleEndianList.le_combine_split. by apply Z.mod_small. Qed.

Lemma le_val_bytes_mod n z : le_val (le_bytes n z) = z mod 2 ^ (Z.of_nat n * 8).
Proof. apply LittleEndianList.le_combine_split. Qed.

Lemma le_bytes_val n bs : length bs = n -> le_bytes n (le_val bs) = bs.
Proof. intros <-. apply LittleEndianList.split_le_combine. Qed.

Lemma le_val_range bs : 0 <= le_val bs < 2 ^ (Z.of_nat (length bs) * 8).
Proof. rewrite Z.mul_comm. apply LittleEndianList.le_combine_bound. Qed.

(** A boolean fact about every value below a small bound, by computation. *)
Lemma check_below (n : nat) (P : Z -> bool) :
  forallb P (map Z.of_nat (seq 0 n)) = true -> forall z, 0 <= z < Z.of_nat n -> P z = true.
Proof.
  intros H z Hz. rewrite forallb_forall in H. apply H.
  apply in_map_iff. exists (Z.to_nat z). split; [lia|]. apply in_seq. lia.
Qed.

Lemma to_byte_mod z : to_byte (z mod 256) = to_byte z.
Proof. apply uchar_inj. rewrite !uchar_to_byte. apply Z.mod_mod. lia. Qed.

Lemma land_255 z : Z.land z 255 = z mod 256.
Proof. change 255 with (Z.ones 8). by rewrite Z.land_ones by lia. Qed.

Lemma to_byte_land z : to_byte (Z.land z 255) = to_byte z.
Proof. by rewrite land_255, to_byte_mod. Qed.

Lemma le_val_cons b bs : le_val (b :: bs) = uchar b + 256 * le_val bs.
Proof.
  change (le_val (b :: bs)) with (Z.lor (uchar b) (Z.shiftl (le_val bs) 8)).
  pose proof (uchar_range b).
  rewrite Z.shiftl_mul_pow2 by lia. change (2 ^ 8) with 256.
  rewrite (Z.mul_comm 256), <- Z.add_lor_land.
  enough (Z.land (uchar b) (le_val bs * 256) = 0) by lia.
  apply Z.bits_inj'. intros n Hn. rewrite Z.land_spec, Z.bits_0.
  replace 256 with (2 ^ 8) by done. rewrite Z.mul_pow2_bits by lia.
  destruct (Z.ltb_spec n 8).
  { rewrite (Z.testbit_neg_r _ (n - 8)) by lia. apply andb_false_r. }
  replace (uchar b) with (uchar b mod 2 ^ 8) by (apply Z.mod_small; lia).
  rewrite Z.mod_pow2_bits_high by lia. done.
Qed.

(** Bits that do not overlap add up. *)
Lemma lor_mul_add a b k : 0 <= k -> 0 <= b < 2 ^ k -> Z.lor (a * 2 ^ k) b = a * 2 ^ k + b.
Proof.
  intros Hk Hb. rewrite <- Z.add_lor_land.
  enough (Z.land (a * 2 ^ k) b = 0) by lia.
  apply Z.bits_inj'. intros n Hn. rewrite Z.land_spec, Z.bits_0, Z.mul_pow2_bits by lia.
  destruct (Z.ltb_spec n k).
  - by rewrite Z.testbit_neg_r by lia.
  - rewrite <- (Z.mod_small b (2 ^ k)) by done.
    rewrite Z.mod_pow2_bits_high by lia. apply andb_false_r.
Qed.

(** The continuation bit of a base-128 digit. *)
Lemma high_bit_test b : (Z.land (uchar b) 0x80 =? 0) = (uchar b <? 128).
Proof.
  pose proof (uchar_range b).
  apply (Bool.eqb_true_iff (Z.land (uchar b) 0x80 =? 0)).
  apply (check_below 256 (fun c => Bool.eqb (Z.land c 0x80 =? 0) (c <? 128))); [by vm_compute|lia].
Qed.
End Bytes.
Export Bytes.

Create HintDb bws discriminated.
#[export] Hint Constants Opaque : bws.
#[export] Hint Resolve uchar_range le_val_range : bws.
Create Rewrite HintDb blen.
#[export] Hint Rewrite length_le_bytes @length_app @length_cons @length_nil : blen.

(** Bounds of every byte value and little-endian value in sight. *)
Ltac byte_bounds :=
  repeat match goal with
  | |- context [uchar ?b] =>
    lazymatch goal with
    | _ : 0 <= uchar b < 256 |- _ => fail
    | _ => pose proof (uchar_range b)
    end
  | _ : context [uchar ?b] |- _ =>
    lazymatch goal with
    | _ : 0 <= uchar b < 256 |- _ => fail
    | _ => pose proof (uchar_range b)
    end
  end.

(** An equation between functions of one byte, by computation. *)
Ltac byte_check b :=
  match goal with
  | |- ?e = true =>
    let f := eval pattern (uchar b) in e in
    match f with ?P _ => refine (Bytes.check_below 256 P _ _ (Bytes.uchar_range b)); vm_compute; reflexivity end
  end.
Ltac byte_eq b := apply Z.eqb_eq; byte_check b.

(** ** Lists as [std::vector] *)
Module Vec.
Section vec.
Context {A : Type}.
Implicit Types v : list A.

(** [v.at(i)] with a signed index; [None] is the exception. *)
Definition at_ (v : list A) (i : Z) : option A :=
  if i <? 0 then None else v !! Z.to_nat i.

(** [v.back()] of a non-empty vector. *)
Definition back (v : list A) : option A := last v.

(** [v.pop_back()]. *)
Definition pop_back (v : list A) : list A := removelast v.

(** Size as the [size_t] it is. *)
Definition zlen (v : list A) : Z := Z.of_nat (length v).

(** [v.erase(first, last)] and [v.insert(pos, x)], positions from the front. *)
Definition erase (v : list A) (first last : nat) : list A := take first v ++ drop last v.
Definition insert_at (v : list A) (pos : nat) (x : A) : list A := take pos v ++ x :: drop pos v.

Lemma zlen_app v1 v2 : zlen (v1 ++ v2) = zlen v1 + zlen v2.
Proof. unfold zlen. rewrite length_app. lia. Qed.
Lemma zlen_cons x v : zlen (x :: v) = 1 + zlen v.
Proof. unfold zlen. simpl. lia. Qed.
Lemma zlen_nil : zlen (@nil A) = 0.
Proof. done. Qed.
Lemma zlen_nonneg v : 0 <= zlen v.
Proof. unfold zlen. lia. Qed.

Lemma pop_back_app v x : pop_back (v ++ [x]) = v.
Proof. apply removelast_last. Qed.
Lemma back_app v x : back (v ++ [x]) = Some x.
Proof. apply last_snoc. Qed.
Lemma snoc_inv v : v ≠ [] -> exists v' x, v = v' ++ [x].
Proof. intros H. destruct (exists_last H) as (v' & x & ->). eauto. Qed.
Lemma length_pop_back v : length (pop_back v) = (length v - 1)%nat.
Proof.
  destruct (decide (v = [])) as [->|H]; [done|].
  destruct (snoc_inv v H) as (v' & x & ->). rewrite pop_back_app, length_app. simpl. lia.
Qed.
Lemma Forall_pop_back (P : A -> Prop) v : Forall P v -> Forall P (pop_back v).
Proof.
  intros H. destruct (decide (v = [])) as [->|Hn]; [done|].
  destruct (snoc_inv v Hn) as (v' & x & ->). rewrite pop_back_app.
  by apply Forall_app in H as [? _].
Qed.
Lemma Forall_at (P : A -> Prop) v i x : Forall P v -> at_ v i = Some x -> P x.
Proof.
  intros H. unfold at_. case_match; [done|]. intros Hx.
  by eapply Forall_lookup_1 in Hx.
Qed.
End vec.
End Vec.
Export Vec.

#[export] Hint Rewrite @zlen_app @zlen_cons @zlen_nil : blen.

Lemma forallb_elem {A} (f : A -> bool) l x : forallb f l = true -> x ∈ l -> f x = true.
Proof. intros Hf Hx. apply (proj1 (forallb_forall f l) Hf). by apply list_elem_of_In. Qed.

(** ** The state-and-failure monad

    A C++ routine that mutates an object and may leave by [return false] or by
    an exception is a function from the state to an optional result and the
    state it leaves behind: the state is kept on failure, because callers can
    observe it. *)
Definition SM (S A : Type) : Type := S -> option A * S.

#[export] Instance SM_ret {S} : MRet (SM S) := fun A a s => (Some a, s).
#[export] Instance SM_bind {S} : MBind (SM S) := fun A B f m s =>
  match m s with
  | (Some a, s') => f a s'
  | (None, s') => (None, s')
  end.

Module Monad.
Section monad.
Context {S : Type}.

Definition fail {A} : SM S A := fun s => (None, s).
Definition gets {A} (f : S -> A) : SM S A := fun s => (Some (f s), s).
Definition modify (f : S -> S) : SM S unit := fun s => (Some tt, f s).
(** [if (!b) return false;] *)
Definition require (b : bool) : SM S unit := if b then mret tt else fail.
Definition of_option {A} (o : option A) : SM S A :=
  match o with Some a => mret a | None => fail end.

(** Partial-correctness triple that also constrains the state left by a failure. *)
Definition triple {A} (P : S -> Prop) (m : SM S A) (Q : A -> S -> Prop) (E : S -> Prop) : Prop :=
  forall s, P s -> match m s with (Some a, s') => Q a s' | (None, s') => E s' end.

Lemma triple_ret {A} P (a : A) (Q : A -> S -> Prop) E :
  (forall s, P s -> Q a s) -> triple P (mret a) Q E.
Proof. intros H s Hs. by apply H. Qed.

Lemma triple_fail {A} P (Q : A -> S -> Prop) (E : S -> Prop) :
  (forall s, P s -> E s) -> triple P fail Q E.
Proof. intros H s Hs. by apply H. Qed.

Lemma triple_bind {A B} P (m : SM S A) (f : A -> SM S B) R Q E :
  triple P m R E -> (forall a, triple (R a) (f a) Q E) -> triple P (m ≫= f) Q E.
Proof.
  intros Hm Hf s Hs. unfold mbind, SM_bind. specialize (Hm s Hs).
  destruct (m s) as [[a|] s']; [by apply Hf|done].
Qed.

Lemma triple_weaken {A} P P' (m : SM S A) Q Q' (E E' : S -> Prop) :
  triple P m Q E -> (forall s, P' s -> P s) -> (forall a s, Q a s -> Q' a s) ->
  (forall s, E s -> E' s) -> triple P' m Q' E'.
Proof.
  intros Hm HP HQ HE s Hs. specialize (Hm s (HP s Hs)).
  destruct (m s) as [[a|] s']; eauto.
Qed.

(** Invariants: kept by success and by failure alike. *)
Definition keeps {A} (I : S -> Prop) (m : SM S A) : Prop := forall s, I s -> I (m s).2.

Lemma keeps_ret {A} I (a : A) : keeps I (mret a).
Proof. by intros s Hs. Qed.
Lemma keeps_fail {A} I : keeps I (@fail A).
Proof. by intros s Hs. Qed.
Lemma keeps_gets {A} I (f : S -> A) : keeps I (gets f).
Proof. by intros s Hs. Qed.
Lemma keeps_require I b : keeps I (require b).
Proof. destruct b; [apply keeps_ret|apply keeps_fail]. Qed.
Lemma keeps_of_option {A} I (o : option A) : keeps I (of_option o).
Proof. destruct o; [apply keeps_ret|apply keeps_fail]. Qed.
Lemma keeps_bind {A B} I (m : SM S A) (f : A -> SM S B) :
  keeps I m -> (forall a, keeps I (f a)) -> keeps I (m ≫= f).
Proof.
  intros Hm Hf s Hs. unfold mbind, SM_bind. specialize (Hm s Hs).
  destruct (m s) as [[a|] s']; [by apply Hf|done].
Qed.
Lemma keeps_modify I f : (forall s, I s -> I (f s)) -> keeps I (modify f).
Proof. intros H s Hs. by apply H. Qed.
End monad.
End Monad.
Export Monad.

#[export] Hint Resolve keeps_ret keeps_fail keeps_gets keeps_require keeps_of_option : bws.

(** Runs one concrete step of a monadic computation in the goal. *)
Ltac sm_run := unfold mbind, SM_bind, mret, SM_ret, gets, modify, require, of_option, fail; simpl.

(** ** Streams: the reader of [CDataStream] *)
Abbreviation Reader := (SM bytes).

Module Stream.
(** [s.read(pch, n)]: throws at the end of data. *)
Definition read_bytes (n : nat) : Reader bytes := fun s =>
  if (n <=? length s)%nat then (Some (take n s), drop n s) else (None, s).

(** [READDATA] of an unsigned integer of [n] bytes. *)
Definition read_le (n : nat) : Reader Z := bs ← read_bytes n; mret (le_val bs).

Lemma read_bytes_app bs rest : read_bytes (length bs) (bs ++ rest) = (Some bs, rest).
Proof.
  unfold read_bytes. rewrite length_app.
  destruct (Nat.leb_spec (length bs) (length bs + length rest)); [|lia].
  by rewrite take_app_length, drop_app_length.
Qed.

Lemma read_le_app n z rest : 0 <= z < 2 ^ (Z.of_nat n * 8) ->
  read_le n (le_bytes n z ++ rest) = (Some z, rest).
Proof.
  intros Hz. unfold read_le, mbind, SM_bind.
  rewrite <- (length_le_bytes n z) at 1. rewrite read_bytes_app.
  unfold mret, SM_ret. by rewrite le_val_bytes.
Qed.

(** A reader [r] undoes a writer [w] on the values [P] admits. *)
Definition reads_back {A} (P : A -> Prop) (w : A -> bytes) (r : Reader A) : Prop :=
  forall a rest, P a -> r (w a ++ rest) = (Some a, rest).

(** A reader never gives back more than it was given. *)
Definition shrinks {A} (r : Reader A) : Prop :=
  forall s, (length (r s).2 <= length s)%nat.

Lemma shrinks_read_bytes n : shrinks (read_bytes n).
Proof. intros s. unfold read_bytes. case_match; simpl; [|lia]. rewrite length_drop. lia. Qed.
Lemma shrinks_ret {A} (a : A) : shrinks (mret a).
Proof. intros s. simpl. lia. Qed.
Lemma shrinks_fail {A} : shrinks (@fail _ A).
Proof. intros s. simpl. lia. Qed.
Lemma shrinks_bind {A B} (m : Reader A) (f : A -> Reader B) :
  shrinks m -> (forall a, shrinks (f a)) -> shrinks (m ≫= f).
Proof.
  intros Hm Hf s. unfold mbind, SM_bind. specialize (Hm s).
  destruct (m s) as [[a|] s'] eqn:E; simpl in *; [|done].
  specialize (Hf a s'). lia.
Qed.
End Stream.
Export Stream.
