(* ===== verification/UInt.v ===== *)
(** * UInt: 160- and 256-bit integers (class base_uint of src/src/uint256.h)

    A [base_uint<BITS>] is the list of its 32-bit words, the least first; the other
    files represent such an integer by its value.  The theorems show that the words
    compute the operations on the values, modulo [2^BITS]. *)

From S2P Require Import Prelude.

Module UInt.
(** [pn], of [WIDTH] words. *)
Definition base_uint : Type := list Z.

Definition is_zero (a : base_uint) : bool := forallb (fun x => x =? 0) a.
Definition complement (a : base_uint) : base_uint := map (fun x => u32 (Z.lnot x)) a.

(** [operator++] and [operator--]: the loop goes on while the word wraps, up to the last one. *)
Fixpoint increment (a : base_uint) : base_uint :=
  match a with
  | [] => []
  | x :: a =>
    let x := u32 (x + 1) in
    if (x =? 0) && negb (bool_decide (a = [])) then x :: increment a else x :: a
  end.
Fixpoint decrement (a : base_uint) : base_uint :=
  match a with
  | [] => []
  | x :: a =>
    let x := u32 (x - 1) in
    if (x =? 2 ^ 32 - 1) && negb (bool_decide (a = [])) then x :: decrement a else x :: a
  end.
Definition negate (a : base_uint) : base_uint := increment (complement a).

(** [operator=] of a 64-bit number. *)
Definition of_u64 (width : nat) (b : Z) : base_uint := u32 b :: u32 (Z.shiftr b 32) :: replicate (width - 2) 0.

Definition word_xor (a b : base_uint) : base_uint := zip_with Z.lxor a b.
Definition word_and (a b : base_uint) : base_uint := zip_with Z.land a b.
Definition word_or (a b : base_uint) : base_uint := zip_with Z.lor a b.

Fixpoint add_loop (carry : Z) (a b : base_uint) : base_uint :=
  match a, b with
  | x :: a, y :: b =>
    let n := u64 (carry + x + y) in
    Z.land n 0xffffffff :: add_loop (Z.shiftr n 32) a b
  | _, _ => []
  end.
Definition add (a b : base_uint) : base_uint := add_loop 0 a b.
Definition sub (a b : base_uint) : base_uint := add a (negate b).

(** [operator<<=] and [operator>>=]: word [i] of the copy goes to two words of the result. *)
Definition shl_step (a : base_uint) (k : nat) (shift : Z) (pn : base_uint) (i : nat) : base_uint :=
  let x := nth i a 0 in
  let pn := if (i + k + 1 <? length a)%nat && negb (shift =? 0)
            then alter (fun w => Z.lor w (Z.shiftr x (32 - shift))) (i + k + 1)%nat pn else pn in
  if (i + k <? length a)%nat then alter (fun w => Z.lor w (u32 (Z.shiftl x shift))) (i + k)%nat pn else pn.
Definition shl (a : base_uint) (shift : Z) : base_uint :=
  foldl (shl_step a (Z.to_nat (shift / 32)) (shift mod 32)) (replicate (length a) 0) (seq 0 (length a)).

Definition shr_step (a : base_uint) (k : nat) (shift : Z) (pn : base_uint) (i : nat) : base_uint :=
  let x := nth i a 0 in
  let pn := if (k + 1 <=? i)%nat && negb (shift =? 0)
            then alter (fun w => Z.lor w (u32 (Z.shiftl x (32 - shift)))) (i - k - 1)%nat pn else pn in
  if (k <=? i)%nat then alter (fun w => Z.lor w (Z.shiftr x shift)) (i - k)%nat pn else pn.
Definition shr (a : base_uint) (shift : Z) : base_uint :=
  foldl (shr_step a (Z.to_nat (shift / 32)) (shift mod 32)) (replicate (length a) 0) (seq 0 (length a)).

(** The comparisons, from the last word down: the lists are given in that order. *)
Fixpoint compare_down (equal : bool) (a b : list Z) : bool :=
  match a, b with
  | x :: a, y :: b => if x <? y then true else if y <? x then false else compare_down equal a b
  | _, _ => equal
  end.
Definition less (a b : base_uint) : bool := compare_down false (rev a) (rev b).
Definition less_equal (a b : base_uint) : bool := compare_down true (rev a) (rev b).
Definition equal (a b : base_uint) : bool := forallb (fun xy => xy.1 =? xy.2) (zip a b).

Definition GetLow64 (a : base_uint) : Z := Z.lor (nth 0 a 0) (Z.shiftl (nth 1 a 0) 32).
End UInt.
Export UInt.

(** ** Facts *)
Module UIntFacts.
Fixpoint value (a : base_uint) : Z := match a with [] => 0 | x :: a => x + 2 ^ 32 * value a end.
Definition words (a : base_uint) : Prop := Forall (in_u 32) a.
Definition modulus (a : base_uint) : Z := 2 ^ (32 * Z.of_nat (length a)).

Lemma modulus_cons x a : modulus (x :: a) = 2 ^ 32 * modulus a.
Proof. unfold modulus. cbn [length]. rewrite <- Z.pow_add_r by lia. f_equal. lia. Qed.
Lemma modulus_pos a : 0 < modulus a.
Proof. unfold modulus. lia. Qed.
Lemma modulus_length a b : length a = length b -> modulus a = modulus b.
Proof. unfold modulus. by intros ->. Qed.

Lemma value_range a : words a -> 0 <= value a < modulus a.
Proof.
  induction 1 as [|x a Hx Ha IH]; [done|]. rewrite modulus_cons. cbn [value]. unfold in_u in Hx. lia.
Qed.
Lemma value_inj a b : words a -> words b -> length a = length b -> value a = value b -> a = b.
Proof.
  intros Ha. revert b. induction Ha as [|x a Hx Ha IH]; intros [|y b] Hb Hl E; try done.
  apply Forall_cons in Hb as [Hy Hb]. cbn [value] in E. unfold in_u in *. injection Hl as Hl.
  assert (x = y) as -> by lia. f_equal. apply IH; [done|done|lia].
Qed.

Lemma u32_word x : in_u 32 (u32 x).
Proof. unfold in_u, u32. by apply Z.mod_pos_bound. Qed.

(** *** Addition *)
Lemma add_loop_value c a b : words a -> words b -> length a = length b -> 0 <= c <= 1 ->
  words (add_loop c a b) /\ length (add_loop c a b) = length a /\
  exists c', value (add_loop c a b) + c' * modulus a = c + value a + value b /\ 0 <= c' <= 1.
Proof.
  intros Ha. revert b c. induction Ha as [|x a Hx Ha IH]; intros [|y b] c Hb Hl Hc; try done.
  { split; [constructor|]. split; [done|]. exists c. change (modulus []) with 1. cbn [add_loop value]. lia. }
  apply Forall_cons in Hb as [Hy Hb]. injection Hl as Hl. unfold in_u in Hx, Hy. cbn [add_loop].
  assert (u64 (c + x + y) = c + x + y) as -> by (unfold u64; rewrite Z.mod_small; lia).
  change 0xffffffff with (Z.ones 32). rewrite Z.land_ones, Z.shiftr_div_pow2 by done.
  set (n := c + x + y). pose proof (Z.div_mod n (2 ^ 32)) as Hd. pose proof (Z.mod_pos_bound n (2 ^ 32)) as Hm.
  destruct (IH b (n / 2 ^ 32) Hb Hl) as (Hw & Hlen & c' & E & Hc'); [unfold n in *; lia|].
  split; [constructor; [unfold in_u; lia|done]|]. split; [cbn; lia|]. exists c'. split; [|done].
  rewrite modulus_cons. cbn [value]. unfold n in *. lia.
Qed.

Lemma add_value a b : words a -> words b -> length a = length b ->
  words (add a b) /\ length (add a b) = length a /\ value (add a b) = (value a + value b) mod modulus a.
Proof.
  intros Ha Hb Hl. destruct (add_loop_value 0 a b Ha Hb Hl) as (Hw & Hlen & c & E & Hc); [lia|].
  split; [done|]. split; [done|]. pose proof (value_range _ Hw) as Hr. rewrite (modulus_length _ a) in Hr by done.
  unfold add. apply (Z.mod_unique_pos _ _ c); [done|]. lia.
Qed.

(** *** Complement, increment and decrement *)
Lemma u32_lnot x : in_u 32 x -> u32 (Z.lnot x) = 2 ^ 32 - 1 - x.
Proof.
  unfold in_u, u32, Z.lnot. intros Hx. replace (Z.pred (- x)) with (2 ^ 32 - 1 - x + (-1) * 2 ^ 32) by lia.
  rewrite Z_mod_plus_full. apply Z.mod_small. lia.
Qed.
Lemma complement_value a : words a ->
  words (complement a) /\ length (complement a) = length a /\ value (complement a) = modulus a - 1 - value a.
Proof.
  induction 1 as [|x a Hx Ha (IHw & IHl & IHv)]; [by split; [constructor|]|]. split; [constructor; [apply u32_word|done]|].
  split; [cbn; by rewrite length_map|]. rewrite modulus_cons. cbn [complement map value]. rewrite u32_lnot by done.
  fold (complement a). rewrite IHv. lia.
Qed.

Lemma increment_value a : words a -> words (increment a) /\ length (increment a) = length a /\
  (a <> [] -> value (increment a) = (value a + 1) mod modulus a).
Proof.
  induction 1 as [|x a Hx Ha (IHw & IHl & IHv)]; [by split; [constructor|]|]. cbn [increment].
  pose proof (value_range a Ha) as Hr. pose proof (modulus_pos a) as Hp.
  assert (forall r, words r -> words (u32 (x + 1) :: r)) as Hcons by (intros r Hr'; constructor; [apply u32_word|done]).
  assert (u32 (x + 1) = if x =? 2 ^ 32 - 1 then 0 else x + 1) as Eu.
  { unfold u32, in_u in *. destruct (Z.eqb_spec x (2 ^ 32 - 1)) as [->|?]; [done|]. apply Z.mod_small. lia. }
  destruct (Z.eqb_spec (u32 (x + 1)) 0) as [E0|E0]; cbn [andb].
  - case_bool_decide as Ha0; cbn [negb].
    + split; [by apply Hcons|]. split; [done|]. intros _. subst a. rewrite modulus_cons. cbn [value].
      unfold in_u in Hx. destruct (Z.eqb_spec x (2 ^ 32 - 1)) as [->|?]; [done|]. lia.
    + split; [by apply Hcons|]. split; [cbn; lia|]. intros _. rewrite modulus_cons. cbn [value]. rewrite IHv, E0 by done.
      unfold in_u in Hx. destruct (Z.eqb_spec x (2 ^ 32 - 1)) as [->|?]; [|lia].
      rewrite Z.add_0_l, <- Z.mul_mod_distr_l by lia. f_equal. lia.
  - split; [by apply Hcons|]. split; [done|]. intros _. rewrite modulus_cons. cbn [value].
    unfold in_u in Hx. destruct (Z.eqb_spec x (2 ^ 32 - 1)) as [->|?]; [done|]. rewrite Eu, Z.mod_small; nia.
Qed.

Lemma decrement_value a : words a -> words (decrement a) /\ length (decrement a) = length a /\
  (a <> [] -> value (decrement a) = (value a - 1) mod modulus a).
Proof.
  induction 1 as [|x a Hx Ha (IHw & IHl & IHv)]; [by split; [constructor|]|]. cbn [decrement].
  pose proof (value_range a Ha) as Hr. pose proof (modulus_pos a) as Hp.
  assert (forall r, words r -> words (u32 (x - 1) :: r)) as Hcons by (intros r Hr'; constructor; [apply u32_word|done]).
  assert (u32 (x - 1) = if x =? 0 then 2 ^ 32 - 1 else x - 1) as Eu.
  { unfold u32, in_u in *. destruct (Z.eqb_spec x 0) as [->|?]; [done|]. apply Z.mod_small. lia. }
  unfold in_u in Hx. destruct (Z.eqb_spec x 0) as [->|Hne].
  - rewrite Eu, Z.eqb_refl. cbn [andb]. rewrite Eu in Hcons. case_bool_decide as Ha0; cbn [negb].
    + split; [by apply Hcons|]. split; [done|]. intros _. by subst a.
    + split; [by apply Hcons|]. split; [cbn; lia|]. intros _. rewrite modulus_cons. cbn [value]. rewrite IHv by done.
      replace (0 + 2 ^ 32 * value a - 1) with (2 ^ 32 - 1 + 2 ^ 32 * (value a - 1)) by lia.
      apply (Z.mod_unique_pos _ _ ((value a - 1) / modulus a)).
      * pose proof (Z.mod_pos_bound (value a - 1) (modulus a)). lia.
      * pose proof (Z.div_mod (value a - 1) (modulus a)). lia.
  - assert ((u32 (x - 1) =? 2 ^ 32 - 1) = false) as E1 by (rewrite Eu; lia). rewrite E1. cbn [andb].
    split; [by apply Hcons|]. split; [done|]. intros _. rewrite modulus_cons. cbn [value].
    rewrite Eu, Z.mod_small; nia.
Qed.

(** *** Bits *)
Lemma word_high x i : in_u 32 x -> 32 <= i -> Z.testbit x i = false.
Proof.
  unfold in_u. intros Hx Hi. destruct (Z.eqb_spec x 0) as [->|]; [apply Z.bits_0|].
  apply Z.bits_above_log2; [lia|]. assert (Z.log2 x < 32); [|lia]. apply Z.log2_lt_pow2; lia.
Qed.

Lemma word_lor x v : in_u 32 x -> x + 2 ^ 32 * v = Z.lor x (Z.shiftl v 32).
Proof.
  intros Hx. assert (Z.land x (Z.shiftl v 32) = 0) as Hd.
  { apply Z.bits_inj'. intros n Hn. rewrite Z.land_spec, Z.bits_0, Z.shiftl_spec by lia.
    destruct (Z.ltb_spec n 32); [rewrite (Z.testbit_neg_r v) by lia; apply andb_false_r|by rewrite word_high]. }
  rewrite <- Z.lxor_lor, <- Z.add_nocarry_lxor by done. rewrite Z.shiftl_mul_pow2 by lia. lia.
Qed.

Lemma value_testbit a j i : words a -> 0 <= i < 32 ->
  Z.testbit (value a) (32 * Z.of_nat j + i) = Z.testbit (nth j a 0) i.
Proof.
  intros Ha Hi. revert j. induction Ha as [|x a Hx Ha IH]; intros j.
  { cbn [value]. by destruct j; cbn [nth]; rewrite !Z.bits_0. }
  cbn [value]. rewrite word_lor by done.
  rewrite Z.lor_spec, Z.shiftl_spec by lia. destruct j as [|j]; cbn [nth].
  - change (32 * Z.of_nat 0) with 0. rewrite Z.add_0_l, (Z.testbit_neg_r (value a)) by lia. apply orb_false_r.
  - rewrite word_high by (done || lia). replace (32 * Z.of_nat (S j) + i - 32) with (32 * Z.of_nat j + i) by lia. apply IH.
Qed.

(** Two integers of the same words are equal, so values are compared bit by bit within a word. *)
Lemma bits_words v w : (forall j i, 0 <= i < 32 -> Z.testbit v (32 * Z.of_nat j + i) = Z.testbit w (32 * Z.of_nat j + i)) -> v = w.
Proof.
  intros Hb. apply Z.bits_inj'. intros n Hn. pose proof (Z.div_mod n 32). pose proof (Z.mod_pos_bound n 32).
  specialize (Hb (Z.to_nat (n / 32)) (n mod 32)). rewrite Z2Nat.id in Hb by (apply Z.div_pos; lia).
  replace (32 * (n / 32) + n mod 32) with n in Hb by lia. apply Hb. lia.
Qed.

Lemma zip_words (f : Z -> Z -> Z) a b : (forall x y, in_u 32 x -> in_u 32 y -> in_u 32 (f x y)) ->
  words a -> words b -> words (zip_with f a b).
Proof.
  intros Hf Ha. revert b. induction Ha as [|x a Hx Ha IH]; intros [|y b] Hb; cbn [zip_with]; try constructor;
    apply Forall_cons in Hb as [Hy Hb]; [by apply Hf|by apply IH].
Qed.

Lemma nth_zip (f : Z -> Z -> Z) a b j : length a = length b -> f 0 0 = 0 ->
  nth j (zip_with f a b) 0 = f (nth j a 0) (nth j b 0).
Proof.
  intros Hl H0. revert b j Hl. induction a as [|x a IH]; intros [|y b] j Hl; try done.
  - by destruct j; cbn.
  - injection Hl as Hl. destruct j; [done|]. cbn. by apply IH.
Qed.

(** A word-wise operation is the operation on the values. *)
Lemma zip_value (f : Z -> Z -> Z) (g : bool -> bool -> bool) a b :
  (forall x y i, Z.testbit (f x y) i = g (Z.testbit x i) (Z.testbit y i)) ->
  (forall x y, in_u 32 x -> in_u 32 y -> in_u 32 (f x y)) -> f 0 0 = 0 ->
  words a -> words b -> length a = length b ->
  words (zip_with f a b) /\ length (zip_with f a b) = length a /\ value (zip_with f a b) = f (value a) (value b).
Proof.
  intros Hg Hw H0 Ha Hb Hl. pose proof (zip_words f a b Hw Ha Hb) as Hz. split; [done|].
  split; [rewrite length_zip_with_l_eq; done|]. apply bits_words. intros j i Hi.
  rewrite value_testbit, Hg, !value_testbit, nth_zip, Hg by done. done.
Qed.

Lemma word_bits x : 0 <= x -> (forall i, 32 <= i -> Z.testbit x i = false) -> in_u 32 x.
Proof.
  intros Hx Hb. unfold in_u. split; [done|]. destruct (Z.ltb_spec x (2 ^ 32)) as [|Hge]; [done|]. exfalso.
  assert (32 <= Z.log2 x) as Hlog by (apply Z.log2_le_pow2; lia).
  specialize (Hb _ Hlog). rewrite Z.bit_log2 in Hb by lia. done.
Qed.

Lemma logic_words x y : in_u 32 x -> in_u 32 y ->
  in_u 32 (Z.lxor x y) /\ in_u 32 (Z.land x y) /\ in_u 32 (Z.lor x y).
Proof.
  intros Hx Hy. pose proof Hx as [Hx0 _]. pose proof Hy as [Hy0 _].
  split; [|split]; (apply word_bits; [|intros i Hi]).
  - apply Z.lxor_nonneg. lia.
  - by rewrite Z.lxor_spec, !word_high.
  - apply Z.land_nonneg. lia.
  - by rewrite Z.land_spec, !word_high.
  - apply Z.lor_nonneg. lia.
  - by rewrite Z.lor_spec, !word_high.
Qed.

(** *** Shifts *)
Lemma alter_length f i (l : base_uint) : length (alter f i l) = length l.
Proof. apply length_alter. Qed.
Lemma nth_alter f i (l : base_uint) j : nth j (alter f i l) 0 =
  if bool_decide (j = i) && (j <? length l)%nat then f (nth j l 0) else nth j l 0.
Proof.
  revert i j. induction l as [|x l IH]; intros i j.
  { rewrite andb_false_r. by destruct i. }
  destruct i as [|i], j as [|j]; cbn [alter list_alter nth length]; try done.
  rewrite IH. change (S j <? S (length l))%nat with (j <? length l)%nat.
  destruct (decide (j = i)) as [->|Hne]; [by rewrite !bool_decide_eq_true_2|by rewrite !bool_decide_eq_false_2 by lia].
Qed.
Lemma alter_words f i l : words l -> (forall x, in_u 32 x -> in_u 32 (f x)) -> words (alter f i l).
Proof.
  intros Hl Hf. revert i. induction Hl as [|x l Hx Hl IH]; intros i; [destruct i; constructor|].
  destruct i; constructor; auto. apply IH.
Qed.
Lemma nth_word a j : words a -> in_u 32 (nth j a 0).
Proof.
  intros Ha. revert j. induction Ha as [|x a Hx Ha IH]; intros [|j]; try done; cbn [nth]; [by unfold in_u..|apply IH].
Qed.
Lemma zeros_words n : words (replicate n 0).
Proof. by apply Forall_replicate. Qed.
Lemma nth_zeros n j : nth j (replicate n 0) 0 = 0.
Proof. revert j. induction n as [|n IH]; intros [|j]; try done. apply IH. Qed.

Lemma shiftr_word x n : in_u 32 x -> 0 <= n -> in_u 32 (Z.shiftr x n).
Proof.
  intros Hx Hn. apply word_bits; [apply Z.shiftr_nonneg, Hx|]. intros i Hi. rewrite Z.shiftr_spec by lia. apply word_high; [done|lia].
Qed.
Lemma testbit_u32 x i : 0 <= i < 32 -> Z.testbit (u32 x) i = Z.testbit x i.
Proof. intros Hi. unfold u32. rewrite Z.mod_pow2_bits_low; [done|lia]. Qed.

(** A word that is shifted in two pieces. *)
Lemma lor_shifted w x n i : 0 <= i < 32 -> 0 <= n ->
  Z.testbit (Z.lor w (u32 (Z.shiftl x n))) i = Z.testbit w i || Z.testbit x (i - n).
Proof. intros Hi Hn. by rewrite Z.lor_spec, testbit_u32, Z.shiftl_spec by lia. Qed.
Lemma lor_shifted_right w x n i : 0 <= i -> 0 <= n ->
  Z.testbit (Z.lor w (Z.shiftr x n)) i = Z.testbit w i || Z.testbit x (i + n).
Proof. intros Hi Hn. by rewrite Z.lor_spec, Z.shiftr_spec by lia. Qed.

(** What the first [n] rounds of the left shift have put into word [j]. *)
Definition shl_bit (a : base_uint) (k : nat) (s : Z) (n j : nat) (i : Z) : bool :=
  ((k + 1 <=? j)%nat && (j - k - 1 <? n)%nat && Z.testbit (nth (j - k - 1) a 0) (i + (32 - s)))
  || ((k <=? j)%nat && (j - k <? n)%nat && Z.testbit (nth (j - k) a 0) (i - s)).

Lemma shl_rounds a k s n : words a -> 0 <= s < 32 -> (n <= length a)%nat ->
  let pn := foldl (shl_step a k s) (replicate (length a) 0) (seq 0 n) in
  words pn /\ length pn = length a /\
  forall j i, (j < length a)%nat -> 0 <= i < 32 -> Z.testbit (nth j pn 0) i = shl_bit a k s n j i.
Proof.
  intros Ha Hs. induction n as [|n IH]; intros Hn.
  { cbn [seq foldl]. split; [apply zeros_words|]. split; [apply length_replicate|]. intros j i Hj Hi.
    rewrite nth_zeros, Z.bits_0. unfold shl_bit. assert (forall m, (m <? 0)%nat = false) as Hz by (intros m; apply Nat.ltb_ge; lia). rewrite !Hz. by rewrite !andb_false_r. }
  rewrite seq_S, foldl_app. cbn [foldl Nat.add]. destruct IH as (Hw & Hl & Hb); [lia|].
  set (pn := foldl _ _ _) in *. unfold shl_step. set (x := nth n a 0).
  pose proof (nth_word a n Ha) as Hx. fold x in Hx.
  set (p1 := if _ && negb (s =? 0) then _ else pn).
  assert (words p1 /\ length p1 = length a /\ forall j i, (j < length a)%nat -> 0 <= i < 32 ->
    Z.testbit (nth j p1 0) i = Z.testbit (nth j pn 0) i || (bool_decide (j = (n + k + 1)%nat) && Z.testbit x (i + (32 - s))))
    as (Hw1 & Hl1 & Hb1).
  { unfold p1. destruct (Nat.ltb_spec (n + k + 1) (length a)), (Z.eqb_spec s 0) as [->|]; cbn [andb negb].
    2: { split; [apply alter_words; [done|]; intros w Hww; apply logic_words; [done|apply shiftr_word; [done|lia]]|].
      split; [by rewrite alter_length|]. intros j i Hj Hi. rewrite nth_alter, Hl, (proj2 (Nat.ltb_lt _ _) Hj), andb_true_r.
      case_bool_decide; cbn [andb]; [by rewrite lor_shifted_right by lia|by rewrite orb_false_r]. }
    all: split; [done|]; split; [done|]; intros j i Hj Hi; case_bool_decide; cbn [andb]; rewrite ?orb_false_r; try done; try lia.
    by rewrite (word_high x), orb_false_r by (done || lia). }
  set (p2 := if (n + k <? length a)%nat then _ else p1).
  assert (words p2 /\ length p2 = length a /\ forall j i, (j < length a)%nat -> 0 <= i < 32 ->
    Z.testbit (nth j p2 0) i = Z.testbit (nth j p1 0) i || (bool_decide (j = (n + k)%nat) && Z.testbit x (i - s)))
    as (Hw2 & Hl2 & Hb2).
  { unfold p2. destruct (Nat.ltb_spec (n + k) (length a)).
    - split; [apply alter_words; [done|]; intros w Hww; apply logic_words; [done|apply u32_word]|].
      split; [by rewrite alter_length|]. intros j i Hj Hi. rewrite nth_alter, Hl1, (proj2 (Nat.ltb_lt _ _) Hj), andb_true_r.
      case_bool_decide; cbn [andb]; [by rewrite lor_shifted by lia|by rewrite orb_false_r].
    - split; [done|]. split; [done|]. intros j i Hj Hi. rewrite bool_decide_eq_false_2 by lia. by rewrite orb_false_r. }
  split; [done|]. split; [done|]. intros j i Hj Hi. rewrite Hb2, Hb1, Hb by done. unfold shl_bit, x.
  destruct (Nat.leb_spec (k + 1) j), (Nat.leb_spec k j), (Nat.ltb_spec (j - k - 1) n), (Nat.ltb_spec (j - k - 1) (S n)),
    (Nat.ltb_spec (j - k) n), (Nat.ltb_spec (j - k) (S n)); try lia; cbn [andb orb];
    repeat case_bool_decide; subst; try lia; cbn [andb orb]; rewrite ?orb_false_r; try done;
    try (replace (n + k + 1 - k - 1)%nat with n by lia); try (replace (n + k - k)%nat with n by lia);
    try (replace (j - k - 1)%nat with n by lia); try (replace (j - k)%nat with n by lia);
    rewrite ?orb_assoc; try done; try (by rewrite orb_comm).
Qed.

Lemma nth_beyond (a : base_uint) j : (length a <= j)%nat -> nth j a 0 = 0.
Proof. apply nth_overflow. Qed.
Lemma modulus_testbit a v j i : 0 <= i < 32 ->
  Z.testbit (v mod modulus a) (32 * Z.of_nat j + i) = (j <? length a)%nat && Z.testbit v (32 * Z.of_nat j + i).
Proof.
  intros Hi. unfold modulus. destruct (Nat.ltb_spec j (length a)).
  - apply Z.mod_pow2_bits_low. lia.
  - apply Z.mod_pow2_bits_high. lia.
Qed.

Lemma shl_value a shift : words a -> 0 <= shift ->
  words (shl a shift) /\ length (shl a shift) = length a /\ value (shl a shift) = (value a * 2 ^ shift) mod modulus a.
Proof.
  intros Ha Hshift. pose proof (Z.mod_pos_bound shift 32). pose proof (Z.div_mod shift 32).
  assert (0 <= shift / 32) by (apply Z.div_pos; lia).
  destruct (shl_rounds a (Z.to_nat (shift / 32)) (shift mod 32) (length a) Ha) as (Hw & Hl & Hb); [lia|lia|].
  split; [done|]. split; [done|]. apply bits_words. intros j i Hi. rewrite modulus_testbit, value_testbit by done.
  destruct (Nat.ltb_spec j (length a)) as [Hj|Hj]; [|by rewrite nth_beyond, Z.bits_0 by (unfold shl; lia)].
  unfold shl. rewrite Hb by done. cbn [andb]. rewrite Z.mul_pow2_bits by lia. unfold shl_bit.
  set (k := Z.to_nat (shift / 32)) in *. set (s := shift mod 32) in *.
  assert (shift = 32 * Z.of_nat k + s) as Es by (unfold k, s; lia). rewrite Es. clear Es.
  destruct (Nat.ltb_spec (j - k) (length a)); [|lia]. rewrite andb_true_r.
  destruct (Nat.ltb_spec (j - k - 1) (length a)); [|lia]. rewrite andb_true_r.
  destruct (Nat.leb_spec k j) as [Hk|Hk]; cbn [andb].
  - destruct (Z.leb_spec s i) as [Hsi|Hsi].
    + rewrite (word_high (nth (j - k - 1) a 0)), andb_false_r by (apply nth_word, Ha || lia). cbn [orb].
      replace (32 * Z.of_nat j + i - (32 * Z.of_nat k + s)) with (32 * Z.of_nat (j - k) + (i - s)) by lia.
      by rewrite value_testbit by (done || lia).
    + rewrite (Z.testbit_neg_r (nth (j - k) a 0)), orb_false_r by lia. destruct (Nat.leb_spec (k + 1) j) as [Hk1|Hk1]; cbn [andb].
      * replace (32 * Z.of_nat j + i - (32 * Z.of_nat k + s)) with (32 * Z.of_nat (j - k - 1) + (i + (32 - s))) by lia.
        by rewrite value_testbit by (done || lia).
      * by rewrite Z.testbit_neg_r by lia.
  - destruct (Nat.leb_spec (k + 1) j); [lia|]. cbn [andb orb]. by rewrite Z.testbit_neg_r by lia.
Qed.

(** What the first [n] rounds of the right shift have put into word [j]. *)
Definition shr_bit (a : base_uint) (k : nat) (s : Z) (n j : nat) (i : Z) : bool :=
  ((j + k + 1 <? n)%nat && Z.testbit (nth (j + k + 1) a 0) (i - (32 - s)))
  || ((j + k <? n)%nat && Z.testbit (nth (j + k) a 0) (i + s)).

Lemma shr_rounds a k s n : words a -> 0 <= s < 32 -> (n <= length a)%nat ->
  let pn := foldl (shr_step a k s) (replicate (length a) 0) (seq 0 n) in
  words pn /\ length pn = length a /\
  forall j i, (j < length a)%nat -> 0 <= i < 32 -> Z.testbit (nth j pn 0) i = shr_bit a k s n j i.
Proof.
  intros Ha Hs. induction n as [|n IH]; intros Hn.
  { cbn [seq foldl]. split; [apply zeros_words|]. split; [apply length_replicate|]. intros j i Hj Hi.
    rewrite nth_zeros, Z.bits_0. unfold shr_bit. assert (forall m, (m <? 0)%nat = false) as Hz by (intros m; apply Nat.ltb_ge; lia).
    by rewrite !Hz. }
  rewrite seq_S, foldl_app. cbn [foldl Nat.add]. destruct IH as (Hw & Hl & Hb); [lia|].
  set (pn := foldl _ _ _) in *. unfold shr_step. set (x := nth n a 0).
  pose proof (nth_word a n Ha) as Hx. fold x in Hx.
  set (p1 := if _ && negb (s =? 0) then _ else pn).
  assert (words p1 /\ length p1 = length a /\ forall j i, (j < length a)%nat -> 0 <= i < 32 ->
    Z.testbit (nth j p1 0) i = Z.testbit (nth j pn 0) i || (bool_decide ((j + k + 1)%nat = n) && Z.testbit x (i - (32 - s))))
    as (Hw1 & Hl1 & Hb1).
  { unfold p1. destruct (Nat.leb_spec (k + 1) n), (Z.eqb_spec s 0) as [->|]; cbn [andb negb].
    2: { split; [apply alter_words; [done|]; intros w Hww; apply logic_words; [done|apply u32_word]|].
      split; [by rewrite alter_length|]. intros j i Hj Hi. rewrite nth_alter, Hl, (proj2 (Nat.ltb_lt _ _) Hj), andb_true_r.
      destruct (decide (j = n - k - 1)%nat) as [->|Hne].
      - rewrite !bool_decide_eq_true_2 by lia. cbn [andb]. by rewrite lor_shifted by lia.
      - rewrite !bool_decide_eq_false_2 by lia. cbn [andb]. by rewrite orb_false_r. }
    all: split; [done|]; split; [done|]; intros j i Hj Hi; case_bool_decide; cbn [andb]; rewrite ?orb_false_r; try done; try lia.
    by rewrite (Z.testbit_neg_r x), orb_false_r by lia. }
  set (p2 := if (k <=? n)%nat then _ else p1).
  assert (words p2 /\ length p2 = length a /\ forall j i, (j < length a)%nat -> 0 <= i < 32 ->
    Z.testbit (nth j p2 0) i = Z.testbit (nth j p1 0) i || (bool_decide ((j + k)%nat = n) && Z.testbit x (i + s)))
    as (Hw2 & Hl2 & Hb2).
  { unfold p2. destruct (Nat.leb_spec k n).
    - split; [apply alter_words; [done|]; intros w Hww; apply logic_words; [done|apply shiftr_word; [done|lia]]|].
      split; [by rewrite alter_length|]. intros j i Hj Hi. rewrite nth_alter, Hl1, (proj2 (Nat.ltb_lt _ _) Hj), andb_true_r.
      destruct (decide (j = n - k)%nat) as [->|Hne].
      + rewrite !bool_decide_eq_true_2 by lia. cbn [andb]. by rewrite lor_shifted_right by lia.
      + rewrite !bool_decide_eq_false_2 by lia. cbn [andb]. by rewrite orb_false_r.
    - split; [done|]. split; [done|]. intros j i Hj Hi. rewrite bool_decide_eq_false_2 by lia. by rewrite orb_false_r. }
  split; [done|]. split; [done|]. intros j i Hj Hi. rewrite Hb2, Hb1, Hb by done. unfold shr_bit, x.
  destruct (Nat.ltb_spec (j + k + 1) n), (Nat.ltb_spec (j + k + 1) (S n)), (Nat.ltb_spec (j + k) n), (Nat.ltb_spec (j + k) (S n));
    try lia; cbn [andb orb]; repeat case_bool_decide; subst; try lia; cbn [andb orb]; rewrite ?orb_false_r; try done;
    by rewrite orb_comm.
Qed.

Lemma shr_value a shift : words a -> 0 <= shift ->
  words (shr a shift) /\ length (shr a shift) = length a /\ value (shr a shift) = value a / 2 ^ shift.
Proof.
  intros Ha Hshift. pose proof (Z.mod_pos_bound shift 32). pose proof (Z.div_mod shift 32).
  assert (0 <= shift / 32) by (apply Z.div_pos; lia).
  destruct (shr_rounds a (Z.to_nat (shift / 32)) (shift mod 32) (length a) Ha) as (Hw & Hl & Hb); [lia|lia|].
  split; [done|]. split; [done|]. apply bits_words. intros j i Hi. rewrite Z.div_pow2_bits, value_testbit by (done || lia).
  unfold shr in *.
  set (k := Z.to_nat (shift / 32)) in *. set (s := shift mod 32) in *.
  assert (shift = 32 * Z.of_nat k + s) as Es by (unfold k, s; lia). rewrite Es. clear Es.
  assert (Z.testbit (value a) (32 * Z.of_nat j + i + (32 * Z.of_nat k + s)) =
    if i + s <? 32 then Z.testbit (nth (j + k) a 0) (i + s) else Z.testbit (nth (j + k + 1) a 0) (i - (32 - s))) as ->.
  { destruct (Z.ltb_spec (i + s) 32).
    - replace (32 * Z.of_nat j + i + (32 * Z.of_nat k + s)) with (32 * Z.of_nat (j + k) + (i + s)) by lia.
      by apply value_testbit; [done|lia].
    - replace (32 * Z.of_nat j + i + (32 * Z.of_nat k + s)) with (32 * Z.of_nat (j + k + 1) + (i - (32 - s))) by lia.
      by apply value_testbit; [done|lia]. }
  destruct (Nat.ltb_spec j (length a)) as [Hj|Hj].
  - rewrite Hb by done. unfold shr_bit.
    destruct (Nat.ltb_spec (j + k + 1) (length a)), (Nat.ltb_spec (j + k) (length a)); try lia; cbn [andb orb];
      rewrite ?(nth_beyond a (j + k + 1)), ?(nth_beyond a (j + k)), ?Z.bits_0, ?orb_false_r by lia;
      destruct (Z.ltb_spec (i + s) 32); try done;
      rewrite ?(Z.testbit_neg_r (nth (j + k + 1) a 0)), ?(word_high (nth (j + k) a 0)), ?orb_false_r by (lia || apply nth_word, Ha); done.
  - rewrite nth_beyond, Z.bits_0 by lia.
    rewrite !(nth_beyond a) by lia. rewrite !Z.bits_0. by destruct (_ <? _).
Qed.

(** *** Comparisons *)
Lemma value_app a b : value (a ++ b) = value a + modulus a * value b.
Proof.
  induction a as [|x a IH]; [change (modulus []) with 1; cbn [app value]; lia|].
  rewrite modulus_cons. cbn [app value]. rewrite IH. lia.
Qed.

Lemma compare_down_value e a b : words a -> words b -> length a = length b ->
  compare_down e (rev a) (rev b) = if e then value a <=? value b else value a <? value b.
Proof.
  intros Ha. revert b. induction a as [|x a IH] using rev_ind; intros b Hb Hl.
  { destruct b; [|done]. by destruct e. }
  destruct b as [|y b _] using rev_ind; [by rewrite length_app in Hl; cbn in Hl; lia|].
  apply Forall_app in Ha as [Ha Hx%Forall_singleton]. apply Forall_app in Hb as [Hb Hy%Forall_singleton].
  rewrite !length_app in Hl. cbn [length] in Hl. assert (length a = length b) as Hl' by lia.
  rewrite !rev_unit. cbn [compare_down]. rewrite IH by done. rewrite !value_app, (modulus_length b a) by done. cbn [value].
  pose proof (value_range a Ha). pose proof (value_range b Hb) as Hrb. rewrite (modulus_length b a) in Hrb by done.
  unfold in_u in *. destruct (Z.ltb_spec x y), (Z.ltb_spec y x); try lia.
  - destruct e; symmetry; [apply Z.leb_le|apply Z.ltb_lt]; nia.
  - destruct e; symmetry; [apply Z.leb_gt|apply Z.ltb_ge]; nia.
  - assert (x = y) as -> by lia. destruct e; [destruct (Z.leb_spec (value a) (value b))|destruct (Z.ltb_spec (value a) (value b))];
      symmetry; [apply Z.leb_le|apply Z.leb_gt|apply Z.ltb_lt|apply Z.ltb_ge]; lia.
Qed.

Lemma equal_value a b : words a -> words b -> length a = length b -> equal a b = (value a =? value b).
Proof.
  intros Ha. revert b. induction Ha as [|x a Hx Ha IH]; intros [|y b] Hb Hl; try done.
  apply Forall_cons in Hb as [Hy Hb]. injection Hl as Hl. unfold equal in *. cbn [zip_with forallb fst snd value].
  rewrite IH by done. unfold in_u in *. destruct (Z.eqb_spec x y), (Z.eqb_spec (value a) (value b)); cbn [andb]; symmetry;
    [apply Z.eqb_eq|apply Z.eqb_neq..]; lia.
Qed.
End UIntFacts.

(** ** The refinement *)
Module UIntTheorems.
Import UIntFacts.

Lemma negate_value a : words a -> a <> [] ->
  words (negate a) /\ length (negate a) = length a /\ value (negate a) = (- value a) mod modulus a.
Proof.
  intros Ha Hne. destruct (complement_value a Ha) as (Hw & Hl & Hv).
  destruct (increment_value _ Hw) as (Hw' & Hl' & Hv'). unfold negate. split; [done|]. split; [lia|].
  rewrite Hv', Hv, (modulus_length (complement a) a) by (done || intros E; by rewrite E in Hl; destruct a).
  replace (modulus a - 1 - value a + 1) with (- value a + 1 * modulus a) by lia. by rewrite Z_mod_plus_full.
Qed.

Lemma sub_value a b : words a -> words b -> a <> [] -> length a = length b ->
  words (sub a b) /\ length (sub a b) = length a /\ value (sub a b) = (value a - value b) mod modulus a.
Proof.
  intros Ha Hb Hne Hl. assert (b <> []) as Hb0 by (intros ->; by destruct a).
  destruct (negate_value b Hb Hb0) as (Hw & Hl' & Hv).
  destruct (add_value a (negate b) Ha Hw) as (Hw2 & Hl2 & Hv2); [lia|]. split; [done|]. split; [done|].
  unfold sub. rewrite Hv2, Hv, (modulus_length b a) by done. rewrite Zplus_mod_idemp_r. done.
Qed.

(** A result of the width of [a] that stands for [v] modulo the width. *)
Definition represents (a r : base_uint) (v : Z) : Prop := words r /\ length r = length a /\ value r = v mod modulus a.

Lemma represents_range a r v : words r -> length r = length a -> value r = v -> represents a r v.
Proof.
  intros Hw Hl <-. split; [done|]. split; [done|]. rewrite Z.mod_small; [done|]. rewrite <- (modulus_length r a) by done. by apply value_range.
Qed.

(** The words of [base_uint] compute: on integers of the same width, the 32-bit loops for
    addition, subtraction, negation, increment, decrement, complement, shifts by any distance and the
    bit-wise operators give the operation on the values modulo [2^BITS], and the comparisons
    compare the values. *)
Theorem base_uint_refines a b shift : words a -> words b -> a <> [] -> length a = length b -> 0 <= shift ->
  represents a (add a b) (value a + value b) /\ represents a (sub a b) (value a - value b) /\
  represents a (negate a) (- value a) /\
  represents a (increment a) (value a + 1) /\ represents a (decrement a) (value a - 1) /\
  represents a (complement a) (Z.lnot (value a)) /\
  represents a (shl a shift) (Z.shiftl (value a) shift) /\ represents a (shr a shift) (Z.shiftr (value a) shift) /\
  represents a (word_and a b) (Z.land (value a) (value b)) /\ represents a (word_or a b) (Z.lor (value a) (value b)) /\
  represents a (word_xor a b) (Z.lxor (value a) (value b)) /\
  less a b = (value a <? value b) /\ less_equal a b = (value a <=? value b) /\ equal a b = (value a =? value b).
Proof.
  intros Ha Hb Hne Hl Hs.
  split; [by apply add_value|]. split; [by apply sub_value|]. split; [by apply negate_value|].
  split; [destruct (increment_value a Ha) as (? & ? & Hv); split; [done|]; split; [done|by apply Hv]|].
  split; [destruct (decrement_value a Ha) as (? & ? & Hv); split; [done|]; split; [done|by apply Hv]|].
  split.
  { destruct (complement_value a Ha) as (Hw & Hlen & Hv). split; [done|]. split; [done|]. rewrite Hv. unfold Z.lnot.
    pose proof (value_range a Ha). apply (Z.mod_unique_pos _ _ (-1)); lia. }
  split; [rewrite Z.shiftl_mul_pow2 by done; by apply shl_value|].
  split; [destruct (shr_value a shift Ha Hs) as (? & ? & ?); apply represents_range; [done|done|]; by rewrite Z.shiftr_div_pow2|].
  assert (forall x y, in_u 32 x -> in_u 32 y -> in_u 32 (Z.land x y)) as Hand by (intros; by apply logic_words).
  assert (forall x y, in_u 32 x -> in_u 32 y -> in_u 32 (Z.lor x y)) as Hor by (intros; by apply logic_words).
  assert (forall x y, in_u 32 x -> in_u 32 y -> in_u 32 (Z.lxor x y)) as Hxor by (intros; by apply logic_words).
  split; [destruct (zip_value Z.land andb a b) as (? & ? & ?); try done; [intros; apply Z.land_spec|by apply represents_range]|].
  split; [destruct (zip_value Z.lor orb a b) as (? & ? & ?); try done; [intros; apply Z.lor_spec|by apply represents_range]|].
  split; [destruct (zip_value Z.lxor xorb a b) as (? & ? & ?); try done; [intros; apply Z.lxor_spec|by apply represents_range]|].
  split; [by apply (compare_down_value false)|]. split; [by apply (compare_down_value true)|]. by apply equal_value.
Qed.

Lemma base_uint_refines_witness :
  value (add [2 ^ 32 - 1; 2 ^ 32 - 1; 7] [1; 0; 2]) = 10 * 2 ^ 64 /\
  value (shl [2 ^ 31; 0; 1] 33) = 2 ^ 64 /\ less [5; 0; 1] [4; 0; 2] = true.
Proof.
  destruct (base_uint_refines [2 ^ 32 - 1; 2 ^ 32 - 1; 7] [1; 0; 2] 0) as ((_ & _ & Ea) & _);
    [by repeat constructor|by repeat constructor|discriminate|reflexivity|lia|].
  destruct (base_uint_refines [2 ^ 31; 0; 1] [1; 0; 2] 33) as (_ & _ & _ & _ & _ & _ & (_ & _ & Es) & _);
    [by repeat constructor|by repeat constructor|discriminate|reflexivity|lia|].
  destruct (base_uint_refines [5; 0; 1] [4; 0; 2] 0) as (_ & _ & _ & _ & _ & _ & _ & _ & _ & _ & _ & El & _);
    [by repeat constructor|by repeat constructor|discriminate|reflexivity|lia|].
  split; [rewrite Ea; vm_compute; reflexivity|]. split; [rewrite Es; vm_compute; reflexivity|]. rewrite El. vm_compute. reflexivity.
Defined.
End UIntTheorems.
