(* ===== verification/BigNum.v ===== *)
(** * BigNum: [CBigNum] of src/src/bignum.h over the OpenSSL [BN_*] interface

    [CBigNum] is a class around OpenSSL's [BIGNUM], an arbitrary-precision
    integer: its value is a [Z].  The conversions to and from byte strings go
    through [BN_bn2mpi] and [BN_mpi2bn], whose code is not in the repository;
    they are the operations of the class [BNLib], and [BNLibOk] states their
    documented format.  Everything the wrapper itself does (building the byte
    strings, the compact form of difficulty targets, the clamping of [getint])
    is translated here. *)

From S2P Require Import Prelude.

(** ** Big-endian values *)
Definition be_bytes (n : nat) (z : Z) : bytes := rev (le_bytes n z).
Definition be_val (d : bytes) : Z := le_val (rev d).

Module BigEndian.
Lemma le_val_app l1 l2 : le_val (l1 ++ l2) = le_val l1 + 256 ^ zlen l1 * le_val l2.
Proof.
  induction l1 as [|b l1 IH].
  { change (le_val []) with 0. change (zlen []) with 0. simpl app. lia. }
  simpl app. rewrite !le_val_cons, IH, zlen_cons, Z.pow_add_r by (try apply zlen_nonneg; lia).
  lia.
Qed.

Lemma be_val_cons b d : be_val (b :: d) = uchar b * 256 ^ zlen d + be_val d.
Proof.
  unfold be_val. simpl. rewrite le_val_app, le_val_cons.
  change (le_val []) with 0. unfold zlen. rewrite length_rev. lia.
Qed.

Lemma pow_256_8 n : 0 <= n -> 256 ^ n = 2 ^ (8 * n).
Proof. intros. change 256 with (2 ^ 8). by rewrite <- Z.pow_mul_r by lia. Qed.

Lemma be_val_range d : 0 <= be_val d < 256 ^ zlen d.
Proof.
  unfold be_val. pose proof (le_val_range (rev d)) as H. rewrite length_rev in H.
  rewrite pow_256_8 by apply zlen_nonneg. unfold zlen.
  by replace (8 * Z.of_nat (length d)) with (Z.of_nat (length d) * 8) by lia.
Qed.

Lemma be_val_be_bytes n z : 0 <= z < 256 ^ Z.of_nat n -> be_val (be_bytes n z) = z.
Proof.
  intros Hz. unfold be_val, be_bytes. rewrite rev_involutive. apply le_val_bytes.
  rewrite pow_256_8 in Hz by lia. by rewrite Z.mul_comm.
Qed.

Lemma length_be_bytes n z : length (be_bytes n z) = n.
Proof. unfold be_bytes. by rewrite length_rev, length_le_bytes. Qed.

Lemma be_val_inj d1 d2 : length d1 = length d2 -> be_val d1 = be_val d2 -> d1 = d2.
Proof.
  intros Hl Hv. apply (f_equal (le_bytes (length d1))) in Hv. unfold be_val in Hv.
  rewrite Hl in Hv at 2.
  rewrite <- (length_rev d1), <- (length_rev d2), !le_bytes_val in Hv by done.
  by apply rev_inj in Hv.
Qed.
End BigEndian.
Export BigEndian.
#[export] Hint Rewrite length_be_bytes : blen.

(** ** The documented MPI body: big-endian magnitude, sign in the top bit *)
Definition mpi_value (d : bytes) : Z :=
  match d with
  | [] => 0
  | b :: r =>
    let mag := uchar b mod 128 * 256 ^ zlen r + be_val r in
    if 128 <=? uchar b then - mag else mag
  end.

(** The body [BN_bn2mpi] produces: no superfluous leading byte. *)
Definition mpi_minimal (d : bytes) : Prop :=
  match d with
  | [] => True
  | b :: r => uchar b mod 128 <> 0 \/ (exists c r', r = c :: r' /\ 128 <= uchar c)
  end.

(** Reference encoder, used to state what the wrapper returns. *)
Definition mpi_encode (n : Z) : bytes :=
  if n =? 0 then [] else
  match be_bytes (Z.to_nat ((Z.log2 (Z.abs n) + 1) / 8 + 1)) (Z.abs n) with
  | [] => []
  | b :: r => (if n <? 0 then B#(uchar b + 128) else b) :: r
  end.

(** OpenSSL's interface: the functions of [bn_mpi.c] and [BN_get_word]. *)
Class BNLib := {
  BN_bn2mpi : Z -> bytes;
  BN_mpi2bn : bytes -> Z;
  BN_get_word : Z -> Z
}.

(** Its documented behaviour (BN_bn2bin(3), BN_zero(3)): the MPI form is a
    4-byte big-endian length followed by the body; a number whose top bit is
    set is prefixed by a null byte; [BN_get_word] is the magnitude, or all ones
    when it does not fit. *)
Class BNLibOk `{!BNLib} : Prop := {
  bn2mpi_doc d : mpi_minimal d -> zlen d < 2 ^ 31 ->
    BN_bn2mpi (mpi_value d) = be_bytes 4 (zlen d) ++ d;
  mpi2bn_doc d : zlen d < 2 ^ 31 ->
    BN_mpi2bn (be_bytes 4 (zlen d) ++ d) = mpi_value d;
  get_word_doc n : BN_get_word n = if Z.abs n <? 2 ^ 64 then Z.abs n else 2 ^ 64 - 1
}.

(** ** [CBigNum] *)
Module CBigNum.
Section cbignum.
Context `{BNLib}.

Definition bn_is_negative (n : Z) : bool := n <? 0.

Definition getulong (n : Z) : Z := BN_get_word n.
Definition getuint (n : Z) : Z := u32 (BN_get_word n).

Definition INT_MAX : Z := 2 ^ 31 - 1.
Definition INT_MIN : Z := - 2 ^ 31.

Definition getint (this : Z) : Z :=
  let n := BN_get_word this in
  if negb (bn_is_negative this)
  then (if INT_MAX <? n then INT_MAX else n)
  else (if INT_MAX <? n then INT_MIN else - n).

(** The digit loop of [setint64]: most significant byte first,
    [c = (n >> 56) & 0xff; n <<= 8]. *)
Fixpoint shift_out (i : nat) (n : Z) : list Z :=
  match i with
  | O => []
  | S i => Z.land (Z.shiftr n 56) 0xff :: shift_out i (u64 (Z.shiftl n 8))
  end.

(** What the loop stores through [p]: leading zeroes skipped, and the sign
    put into the first stored byte, or into an extra byte before it. *)
Fixpoint store_digits (fNegative fLeadingZeroes : bool) (cs : list Z) : bytes :=
  match cs with
  | [] => []
  | c :: cs =>
    if fLeadingZeroes then
      if c =? 0 then store_digits fNegative true cs
      else if negb (Z.land c 0x80 =? 0)
      then B#(if fNegative then 0x80 else 0) :: B#c :: store_digits fNegative false cs
      else B#(if fNegative then Z.lor c 0x80 else c) :: store_digits fNegative false cs
    else B#c :: store_digits fNegative false cs
  end.

(** [pch[0..3] = nSize >> 24, 16, 8, 0] followed by the stored bytes. *)
Definition with_size (d : bytes) : bytes :=
  let nSize := u32 (zlen d) in
  [B#(Z.land (Z.shiftr nSize 24) 0xff); B#(Z.land (Z.shiftr nSize 16) 0xff);
   B#(Z.land (Z.shiftr nSize 8) 0xff); B#(Z.land nSize 0xff)] ++ d.

Definition setint64 (sn : Z) : Z :=
  let '(n, fNegative) :=
    if sn <? 0 then (u64 (u64 (- (sn + 1)) + 1), true) else (u64 sn, false) in
  BN_mpi2bn (with_size (store_digits fNegative true (shift_out 8 n))).

Definition setuint64 (n : Z) : Z :=
  BN_mpi2bn (with_size (store_digits false true (shift_out 8 n))).

(** [n] is given by its 32 bytes in memory order; the loop reads them backwards. *)
Definition setuint256 (n : bytes) : Z :=
  BN_mpi2bn (with_size (store_digits false true (map uchar (rev n)))).

(** Integer constructors: [setulong] for non-negative arguments, [setint64] otherwise. *)
Definition of_int (n : Z) : Z := if 0 <=? n then n else setint64 n.

Definition setvch (vch : bytes) : Z := BN_mpi2bn (with_size (rev vch)).

Definition getvch (this : Z) : bytes :=
  let out := BN_bn2mpi this in
  if zlen out <=? 4 then [] else rev (drop 4 out).

(** [vch[4] &= 0x7f] and the copy loop of [getuint64] / [getuint256]. *)
Definition clear_sign (d : bytes) : bytes :=
  match d with [] => [] | b :: r => B#(Z.land (uchar b) 0x7f) :: r end.
Definition get_unsigned (width : nat) (this : Z) : bytes :=
  let out := BN_bn2mpi this in
  if zlen out <? 4 then replicate width B#0
  else let low := take width (rev (clear_sign (drop 4 out))) in
       low ++ replicate (width - length low) B#0.
Definition getuint64 (this : Z) : Z := le_val (get_unsigned 8 this).
Definition getuint256 (this : Z) : bytes := get_unsigned 32 this.

(** [vch[4..]]: up to three mantissa bytes, then zeroes, [nSize] bytes in all. *)
Definition compact_body (nCompact : Z) : bytes :=
  let nSize := Z.shiftr nCompact 24 in
  take (Z.to_nat nSize)
    ([B#(Z.land (Z.shiftr nCompact 16) 0xff); B#(Z.land (Z.shiftr nCompact 8) 0xff);
      B#(Z.land nCompact 0xff)] ++ replicate (Z.to_nat (nSize - 3)) B#0).

Definition SetCompact (nCompact : Z) : Z :=
  BN_mpi2bn ([B#0; B#0; B#0; B#(Z.shiftr nCompact 24)] ++ compact_body nCompact).

Definition GetCompact (this : Z) : Z :=
  let out := BN_bn2mpi this in
  let nSize := zlen out - 4 in
  let vch i := match out !! i with Some b => uchar b | None => 0 end in
  let nCompact := u32 (Z.shiftl nSize 24) in
  let nCompact := if 1 <=? nSize then Z.lor nCompact (Z.shiftl (vch 4%nat) 16) else nCompact in
  let nCompact := if 2 <=? nSize then Z.lor nCompact (Z.shiftl (vch 5%nat) 8) else nCompact in
  if 3 <=? nSize then Z.lor nCompact (vch 6%nat) else nCompact.
End cbignum.
End CBigNum.

(** ** The MPI body format *)
Module MpiFacts.
Definition mpi_mag (d : bytes) : Z :=
  match d with [] => 0 | b :: r => uchar b mod 128 * 256 ^ zlen r + be_val r end.
Definition mpi_neg (d : bytes) : bool :=
  match d with [] => false | b :: r => 128 <=? uchar b end.

Lemma mpi_value_mag d : mpi_value d = if mpi_neg d then - mpi_mag d else mpi_mag d.
Proof. by destruct d. Qed.

Lemma mpi_mag_upper b r : mpi_mag (b :: r) < 128 * 256 ^ zlen r.
Proof.
  simpl. pose proof (be_val_range r). pose proof (Z.mod_pos_bound (uchar b) 128 ltac:(lia)).
  nia.
Qed.

Lemma be_val_lower c r : 128 <= uchar c -> 128 * 256 ^ zlen r <= be_val (c :: r).
Proof. intros. rewrite be_val_cons. pose proof (be_val_range r). nia. Qed.

Lemma mpi_mag_nonneg d : 0 <= mpi_mag d.
Proof.
  destruct d as [|b r]; simpl; [lia|]. pose proof (be_val_range r).
  pose proof (Z.mod_pos_bound (uchar b) 128 ltac:(lia)). nia.
Qed.

(** A minimal body of length [1 + k] has a magnitude of at least [2^(8k-1)]. *)
Lemma mpi_mag_lower b r : mpi_minimal (b :: r) ->
  0 < mpi_mag (b :: r) /\ (forall c r', r = c :: r' -> 128 * 256 ^ zlen r' <= mpi_mag (b :: r)).
Proof.
  pose proof (Z.mod_pos_bound (uchar b) 128 ltac:(lia)) as Hm.
  pose proof (be_val_range r) as Hr. simpl. intros [Hb|(c & r' & -> & Hc)].
  - split; [nia|]. intros c r' ->. rewrite zlen_cons, Z.pow_add_r in * by (try apply zlen_nonneg; lia).
    pose proof (be_val_range r'). nia.
  - pose proof (be_val_lower c r' Hc). pose proof (be_val_range r').
    pose proof (zlen_nonneg r'). split; [|intros ? ? [= <- <-]]; nia.
Qed.

Lemma minimal_length_unique d1 d2 :
  mpi_minimal d1 -> mpi_minimal d2 -> mpi_mag d1 = mpi_mag d2 -> (length d1 <= length d2)%nat.
Proof.
  intros H1 H2 E. destruct d1 as [|b1 r1]; [simpl; lia|].
  destruct (mpi_mag_lower b1 r1 H1) as [Hpos Hlow].
  destruct d2 as [|b2 r2]; [simpl mpi_mag in E at 2; lia|].
  pose proof (mpi_mag_upper b2 r2) as Hup.
  destruct r1 as [|c1 r1']; [simpl; lia|].
  specialize (Hlow _ _ eq_refl).
  assert (256 ^ zlen r1' < 256 ^ zlen r2) as Hlt by lia.
  apply Z.pow_lt_mono_r_iff in Hlt; [|lia|apply zlen_nonneg]. unfold zlen in Hlt. simpl. lia.
Qed.

Lemma mpi_minimal_unique d1 d2 :
  mpi_minimal d1 -> mpi_minimal d2 -> mpi_value d1 = mpi_value d2 -> d1 = d2.
Proof.
  intros H1 H2 E.
  pose proof (mpi_mag_nonneg d1). pose proof (mpi_mag_nonneg d2).
  rewrite !mpi_value_mag in E.
  assert (mpi_mag d1 = mpi_mag d2) as Em by (repeat case_match; lia).
  assert (length d1 = length d2) as El
    by (apply Nat.le_antisymm; by apply minimal_length_unique).
  destruct d1 as [|b1 r1], d2 as [|b2 r2]; try done.
  assert (zlen r1 = zlen r2) as Ez by (unfold zlen; simpl in El; lia).
  assert (mpi_neg (b1 :: r1) = mpi_neg (b2 :: r2)) as En.
  { pose proof (proj1 (mpi_mag_lower _ _ H1)). repeat case_match; congruence || lia. }
  simpl in Em, En. pose proof (be_val_range r1) as Hr1. pose proof (be_val_range r2) as Hr2.
  pose proof (uchar_range b1). pose proof (uchar_range b2).
  pose proof (Z.mod_pos_bound (uchar b1) 128 ltac:(lia)).
  pose proof (Z.mod_pos_bound (uchar b2) 128 ltac:(lia)).
  rewrite Ez in *.
  assert (uchar b1 mod 128 = uchar b2 mod 128) by nia.
  assert (be_val r1 = be_val r2) by nia.
  f_equal; [|apply be_val_inj; [simpl in El; lia|done]].
  apply uchar_inj. Z.div_mod_to_equations. destruct (128 <=? uchar b1) eqn:E1; lia.
Qed.

Lemma be_bytes_cons k z : 0 <= z < 256 ^ Z.of_nat (S k) ->
  be_bytes (S k) z = B#(z / 256 ^ Z.of_nat k) :: be_bytes k (z mod 256 ^ Z.of_nat k).
Proof.
  intros Hz. assert (0 < 256 ^ Z.of_nat k) by lia.
  rewrite Nat2Z.inj_succ, Z.pow_succ_r in Hz by lia.
  assert (0 <= z / 256 ^ Z.of_nat k < 256).
  { split; [apply Z.div_pos; lia|apply Z.div_lt_upper_bound; lia]. }
  apply be_val_inj; [by rewrite length_cons, !length_be_bytes|].
  rewrite be_val_be_bytes by (rewrite Nat2Z.inj_succ, Z.pow_succ_r; lia).
  rewrite be_val_cons, uchar_to_byte_small by done.
  unfold zlen. rewrite length_be_bytes, be_val_be_bytes by (apply Z.mod_pos_bound; lia).
  rewrite (Z.div_mod z (256 ^ Z.of_nat k)) at 1 by lia. lia.
Qed.

(** Length of the reference encoding. *)
Definition enc_extra (m : Z) : nat := Z.to_nat ((Z.log2 m + 1) / 8).

Lemma enc_extra_spec m : 0 < m ->
  m < 128 * 256 ^ Z.of_nat (enc_extra m) /\
  (forall k, enc_extra m = S k -> 128 * 256 ^ Z.of_nat k <= m).
Proof.
  intros Hm. pose proof (Z.log2_spec m Hm) as [Hlo Hhi]. pose proof (Z.log2_nonneg m).
  assert (0 <= (Z.log2 m + 1) / 8) by (apply Z.div_pos; lia).
  unfold enc_extra. change 128 with (2 ^ 7). split.
  - rewrite Z2Nat.id, pow_256_8, <- Z.pow_add_r by lia.
    eapply Z.lt_le_trans; [exact Hhi|]. apply Z.pow_le_mono_r; [lia|].
    Z.div_mod_to_equations; lia.
  - intros k Hk. rewrite pow_256_8, <- Z.pow_add_r by lia.
    etrans; [|exact Hlo]. apply Z.pow_le_mono_r; [lia|].
    assert ((Z.log2 m + 1) / 8 = Z.of_nat k + 1) by lia. Z.div_mod_to_equations; lia.
Qed.

Lemma mpi_encode_eq n : n <> 0 ->
  let m := Z.abs n in let k := enc_extra m in
  let h := m / 256 ^ Z.of_nat k in
  0 <= h < 128 /\
  mpi_encode n = B#(if n <? 0 then h + 128 else h) :: be_bytes k (m mod 256 ^ Z.of_nat k).
Proof.
  intros Hn m k h. assert (0 < m) as Hm by lia.
  destruct (enc_extra_spec m Hm) as [Hup _]. fold k in Hup.
  assert (0 < 256 ^ Z.of_nat k) by lia.
  assert (0 <= h < 128) as Hh.
  { split; [apply Z.div_pos; lia|apply Z.div_lt_upper_bound; lia]. }
  split; [done|]. unfold mpi_encode. destruct (Z.eqb_spec n 0) as [?|_]; [done|].
  assert (0 <= (Z.log2 m + 1) / 8) by (apply Z.div_pos; [pose proof (Z.log2_nonneg m)|]; lia).
  replace (Z.to_nat ((Z.log2 (Z.abs n) + 1) / 8 + 1)) with (S k) by (unfold k, enc_extra; fold m; lia).
  fold m. rewrite be_bytes_cons by (rewrite Nat2Z.inj_succ, Z.pow_succ_r; lia).
  fold h. case_match; [|done]. by rewrite uchar_to_byte_small by lia.
Qed.

Lemma mpi_encode_spec n : mpi_minimal (mpi_encode n) /\ mpi_value (mpi_encode n) = n.
Proof.
  destruct (decide (n = 0)) as [->|Hn]; [done|].
  destruct (mpi_encode_eq n Hn) as [Hh ->].
  set (m := Z.abs n) in *. set (k := enc_extra m) in *. set (h := m / 256 ^ Z.of_nat k) in *.
  assert (0 < m) as Hm by lia.
  destruct (enc_extra_spec m Hm) as [_ Hlo]. fold k in Hlo.
  assert (0 < 256 ^ Z.of_nat k) by lia.
  pose proof (Z.mod_pos_bound m (256 ^ Z.of_nat k) ltac:(lia)) as Hmod.
  pose proof (Z.div_mod m (256 ^ Z.of_nat k) ltac:(lia)) as Hdm. fold h in Hdm.
  set (b := B#(if n <? 0 then h + 128 else h)).
  assert (uchar b = if n <? 0 then h + 128 else h) as Hb
    by (unfold b; apply uchar_to_byte_small; case_match; lia).
  assert (uchar b mod 128 = h) as Hb'.
  { rewrite Hb. destruct (n <? 0); [rewrite <- (Z.mul_1_l 128), Z.mod_add by lia|];
    by apply Z.mod_small. }
  split.
  - simpl. rewrite Hb'. destruct (decide (h = 0)) as [H0|]; [right|by left].
    destruct k as [|k'] eqn:Ek; [simpl in *; nia|]. specialize (Hlo k' eq_refl).
    rewrite be_bytes_cons by lia. do 2 eexists. split; [done|].
    assert (0 < 256 ^ Z.of_nat k') by lia.
    assert (m mod 256 ^ Z.of_nat (S k') = m) as Em by lia. rewrite Em in *.
    rewrite Nat2Z.inj_succ, Z.pow_succ_r in Hmod by lia.
    rewrite uchar_to_byte_small.
    + apply Z.div_le_lower_bound; lia.
    + split; [apply Z.div_pos; lia|apply Z.div_lt_upper_bound; lia].
  - rewrite mpi_value_mag. simpl. rewrite Hb'.
    unfold zlen. rewrite length_be_bytes, be_val_be_bytes by done.
    rewrite Hb. destruct (Z.ltb_spec n 0); case_match; lia.
Qed.

Lemma mpi_encode_value d : mpi_minimal d -> mpi_encode (mpi_value d) = d.
Proof.
  intros. destruct (mpi_encode_spec (mpi_value d)). by apply mpi_minimal_unique.
Qed.

Lemma length_mpi_encode n : n <> 0 -> length (mpi_encode n) = S (enc_extra (Z.abs n)).
Proof.
  intros Hn. destruct (mpi_encode_eq n Hn) as [_ ->]. by rewrite length_cons, length_be_bytes.
Qed.

Lemma length_mpi_encode_le n k : Z.abs n < 128 * 256 ^ Z.of_nat k -> (length (mpi_encode n) <= S k)%nat.
Proof.
  intros Hk. destruct (decide (n = 0)) as [->|Hn]; [simpl; lia|].
  rewrite length_mpi_encode by done.
  destruct (enc_extra_spec (Z.abs n) ltac:(lia)) as [_ Hlo].
  destruct (enc_extra (Z.abs n)) as [|j]; [lia|]. specialize (Hlo j eq_refl).
  assert (256 ^ Z.of_nat j < 256 ^ Z.of_nat k) as Hlt by lia.
  apply Z.pow_lt_mono_r_iff in Hlt; lia.
Qed.
End MpiFacts.
Export MpiFacts.

(** ** What the wrapper computes *)
Module CBigNumFacts.
Import CBigNum.

Lemma with_size_eq d : zlen d < 2 ^ 32 -> with_size d = be_bytes 4 (zlen d) ++ d.
Proof.
  intros Hd. pose proof (zlen_nonneg d). unfold with_size, u32. rewrite Z.mod_small by lia.
  rewrite !to_byte_land. unfold be_bytes.
  cbv [LittleEndianList.le_split rev app]. by rewrite !Z.shiftr_shiftr by lia.
Qed.

Lemma sign_bit_test c : 0 <= c < 256 -> (Z.land c 0x80 =? 0) = (c <? 128).
Proof.
  intros Hc. apply Bool.eqb_prop.
  revert c Hc. apply (check_below 256 (fun c => Bool.eqb (Z.land c 0x80 =? 0) (c <? 128))).
  by vm_compute.
Qed.

Lemma sign_bit_set c : 0 <= c < 128 -> Z.lor c 0x80 = c + 128.
Proof.
  intros Hc. apply Z.eqb_eq.
  revert c Hc. apply (check_below 128 (fun c => Z.lor c 0x80 =? c + 128)). by vm_compute.
Qed.

Lemma store_digits_false neg cs : store_digits neg false cs = map to_byte cs.
Proof. induction cs as [|c cs IH]; [done|]. simpl. by rewrite IH. Qed.

Lemma store_digits_value neg cs : Forall (fun c => 0 <= c < 256) cs ->
  mpi_value (store_digits neg true cs) =
    let v := be_val (map to_byte cs) in if neg then - v else v.
Proof.
  induction 1 as [|c cs Hc _ IH]; [by destruct neg|].
  assert (uchar B#c = c) as Uc by by apply uchar_to_byte_small.
  simpl store_digits. simpl map. rewrite be_val_cons, Uc.
  destruct (Z.eqb_spec c 0) as [->|Hc0]; [by rewrite IH|].
  rewrite sign_bit_test by done. destruct (Z.ltb_spec c 128) as [Hlt|Hge]; simpl.
  - rewrite store_digits_false. destruct neg.
    + rewrite sign_bit_set, uchar_to_byte_small by lia.
      replace ((c + 128) mod 128) with c by (rewrite <- (Z.mul_1_l 128) at 1;
        rewrite Z.mod_add, Z.mod_small by lia; done).
      destruct (Z.leb_spec 128 (c + 128)); lia.
    + rewrite Uc, Z.mod_small by lia. by destruct (Z.leb_spec 128 c); [lia|].
  - rewrite store_digits_false, be_val_cons, Uc.
    destruct neg; rewrite uchar_to_byte_small by lia.
    + change (128 mod 128) with 0. change (128 <=? 128) with true. cbv iota. lia.
    + change (0 mod 128) with 0. change (128 <=? 0) with false. cbv iota. lia.
Qed.

Lemma length_store_digits neg lead cs : (length (store_digits neg lead cs) <= S (length cs))%nat.
Proof.
  revert lead. induction cs as [|c cs IH]; intros lead; simpl; [lia|].
  repeat case_match; simpl; rewrite ?store_digits_false, ?length_map; try lia.
  specialize (IH true). lia.
Qed.

Lemma shift_out_bytes i n : map to_byte (shift_out (S i) n) = B#(Z.shiftr n 56) :: map to_byte (shift_out i (u64 (Z.shiftl n 8))).
Proof. simpl. by rewrite to_byte_land. Qed.

Lemma shift_out_range i n : Forall (fun c => 0 <= c < 256) (shift_out i n).
Proof.
  revert n. induction i as [|i IH]; intros n; simpl; constructor; [|done].
  rewrite land_255. apply Z.mod_pos_bound. lia.
Qed.

Lemma length_shift_out i n : length (shift_out i n) = i.
Proof. revert n. induction i; intros; simpl; auto. Qed.

(** [i] rounds of the loop deliver the top [i] bytes. *)
Lemma shift_out_value i n : (i <= 8)%nat -> 0 <= n < 2 ^ 64 -> 
  be_val (map to_byte (shift_out i n)) = n / 2 ^ (64 - 8 * Z.of_nat i).
Proof.
  revert n. induction i as [|i IH]; intros n Hi Hn.
  { change (be_val (map to_byte (shift_out 0 n))) with 0. rewrite Z.div_small; [done|].
    change (64 - 8 * Z.of_nat 0) with 64. done. }
  rewrite shift_out_bytes, be_val_cons.
  assert (u64 (Z.shiftl n 8) = (n mod 2 ^ 56) * 2 ^ 8) as E8.
  { unfold u64. rewrite Z.shiftl_mul_pow2 by lia. change (2 ^ 64) with (2 ^ 56 * 2 ^ 8).
    by rewrite Z.mul_mod_distr_r by lia. }
  pose proof (Z.mod_pos_bound n (2 ^ 56) ltac:(lia)).
  rewrite IH by (rewrite ?E8; lia). rewrite E8.
  rewrite Z.shiftr_div_pow2 by lia.
  assert (0 <= n / 2 ^ 56 < 256) as Hq.
  { split; [apply Z.div_pos; lia|apply Z.div_lt_upper_bound; lia]. }
  rewrite uchar_to_byte_small by done.
  unfold zlen. rewrite length_map, length_shift_out.
  replace (2 ^ (64 - 8 * Z.of_nat i)) with (2 ^ (56 - 8 * Z.of_nat i) * 2 ^ 8)
    by (rewrite <- Z.pow_add_r by lia; f_equal; lia).
  rewrite Z.div_mul_cancel_r by lia.
  replace (64 - 8 * Z.of_nat (S i)) with (56 - 8 * Z.of_nat i) by lia.
  rewrite pow_256_8 by lia.
  rewrite (Z.div_mod n (2 ^ 56)) at 3 by lia.
  replace (2 ^ 56) with (2 ^ (8 * Z.of_nat i) * 2 ^ (56 - 8 * Z.of_nat i)) at 3
    by (rewrite <- Z.pow_add_r by lia; f_equal; lia).
  rewrite <- Z.mul_assoc, (Z.mul_comm (2 ^ (56 - 8 * Z.of_nat i))), Z.mul_assoc, Z.div_add_l by lia.
  lia.
Qed.

Section with_lib.
Context `{BNLibOk}.

Lemma mpi2bn_with_size d : zlen d < 2 ^ 31 -> BN_mpi2bn (with_size d) = mpi_value d.
Proof. intros. rewrite with_size_eq by lia. by apply mpi2bn_doc. Qed.

Lemma bn2mpi_encode n : zlen (mpi_encode n) < 2 ^ 31 ->
  BN_bn2mpi n = be_bytes 4 (zlen (mpi_encode n)) ++ mpi_encode n.
Proof.
  intros Hl. destruct (mpi_encode_spec n) as [Hm Hv].
  rewrite <- Hv at 1. by apply bn2mpi_doc.
Qed.

Lemma setuint64_exact n : in_u 64 n -> setuint64 n = n.
Proof.
  unfold in_u. intros Hn. unfold setuint64. rewrite mpi2bn_with_size.
  - rewrite store_digits_value by apply shift_out_range. cbv zeta iota.
    rewrite shift_out_value by lia. apply Z.div_1_r.
  - pose proof (length_store_digits false true (shift_out 8 n)) as Hl.
    rewrite length_shift_out in Hl. unfold zlen. lia.
Qed.

Lemma setint64_exact n : in_s 64 n -> setint64 n = n.
Proof.
  unfold in_s. intros Hn. unfold setint64.
  set (p := if n <? 0 then _ else _).
  assert (p = (Z.abs n, n <? 0) /\ 0 <= Z.abs n < 2 ^ 64) as [-> Hr].
  { unfold p, u64. destruct (Z.ltb_spec n 0); rewrite ?Z.mod_small; try (split; [f_equal|]; lia); try lia.
    - rewrite !Z.mod_small by lia. split; [f_equal|]; lia. }
  rewrite mpi2bn_with_size.
  - rewrite store_digits_value by apply shift_out_range. cbv zeta iota.
    rewrite shift_out_value by lia. rewrite Z.div_1_r. destruct (Z.ltb_spec n 0); lia.
  - pose proof (length_store_digits (n <? 0) true (shift_out 8 (Z.abs n))) as Hl.
    rewrite length_shift_out in Hl. unfold zlen. lia.
Qed.

Lemma of_int_exact n : in_s 64 n -> of_int n = n.
Proof. intros. unfold of_int. case_match; [done|]. by apply setint64_exact. Qed.

Lemma setuint256_exact n : length n = 32%nat -> setuint256 n = le_val n.
Proof.
  intros Hn. unfold setuint256. rewrite mpi2bn_with_size.
  - rewrite store_digits_value; simpl.
    + rewrite map_map. rewrite (map_ext _ id) by apply to_byte_uchar. rewrite map_id.
      unfold be_val. by rewrite rev_involutive.
    + apply Forall_forall. intros c. rewrite list_elem_of_In, in_map_iff. intros (b & <- & _).
      apply uchar_range.
  - pose proof (length_store_digits false true (map uchar (rev n))) as Hl.
    rewrite length_map, length_rev, Hn in Hl. unfold zlen. lia.
Qed.

Lemma setvch_value vch : zlen vch < 2 ^ 31 -> setvch vch = mpi_value (rev vch).
Proof.
  intros. apply mpi2bn_with_size. unfold zlen in *. by rewrite length_rev.
Qed.

Lemma getvch_encode n : zlen (mpi_encode n) < 2 ^ 31 -> getvch n = rev (mpi_encode n).
Proof.
  intros Hl. unfold getvch. rewrite bn2mpi_encode by done.
  rewrite zlen_app. unfold zlen at 1. rewrite length_be_bytes.
  rewrite drop_app_length' by by rewrite length_be_bytes.
  destruct (mpi_encode n) as [|b r]; [done|].
  rewrite zlen_cons. pose proof (zlen_nonneg r). by destruct (Z.leb_spec (Z.of_nat 4 + (1 + zlen r)) 4); [lia|].
Qed.

Lemma setvch_getvch n : zlen (mpi_encode n) < 2 ^ 31 -> setvch (getvch n) = n.
Proof.
  intros Hl. rewrite getvch_encode by done.
  rewrite setvch_value by (unfold zlen in *; by rewrite length_rev).
  rewrite rev_involutive. apply mpi_encode_spec.
Qed.

(** *** [getuint64] and [getuint256] *)
Lemma be_val_clear_sign d : be_val (clear_sign d) = mpi_mag d.
Proof.
  destruct d as [|b r]; [done|]. simpl clear_sign. rewrite be_val_cons. simpl mpi_mag.
  change 127 with (Z.ones 7). rewrite Z.land_ones by lia. change (2 ^ 7) with 128.
  pose proof (Z.mod_pos_bound (uchar b) 128 ltac:(lia)).
  by rewrite uchar_to_byte_small by lia.
Qed.

Lemma le_val_take w l : le_val (take w l) = le_val l mod 256 ^ Z.of_nat w.
Proof.
  rewrite <- (take_drop w l) at 2. rewrite le_val_app.
  destruct (Nat.le_gt_cases w (length l)) as [Hw|Hw].
  - assert (zlen (take w l) = Z.of_nat w) as Ez by (unfold zlen; rewrite length_take; lia).
    rewrite Ez, (Z.mul_comm (256 ^ _)), Z_mod_plus_full. symmetry. apply Z.mod_small.
    pose proof (le_val_range (take w l)) as Hr. fold (zlen (take w l)) in Hr. rewrite Ez in Hr.
    rewrite pow_256_8 by lia. by rewrite Z.mul_comm.
  - rewrite drop_ge by lia. change (le_val []) with 0. rewrite Z.mul_0_r, Z.add_0_r, take_ge by lia.
    symmetry. apply Z.mod_small. pose proof (le_val_range l) as Hr.
    rewrite pow_256_8 by lia.
    pose proof (Z.pow_le_mono_r 2 (Z.of_nat (length l) * 8) (8 * Z.of_nat w)). lia.
Qed.

Lemma le_val_pad l k : le_val (l ++ replicate k B#0) = le_val l.
Proof.
  rewrite le_val_app. enough (le_val (replicate k B#0) = 0) by nia.
  induction k as [|k IH]; [done|]. simpl replicate. rewrite le_val_cons, IH. done.
Qed.

(** Both conversions give the magnitude modulo the width, sign dropped. *)
Lemma get_unsigned_value w n : zlen (mpi_encode n) < 2 ^ 31 ->
  le_val (get_unsigned w n) = Z.abs n mod 256 ^ Z.of_nat w.
Proof.
  intros Hl. unfold get_unsigned. rewrite bn2mpi_encode by done.
  pose proof (zlen_nonneg (mpi_encode n)).
  rewrite zlen_app. unfold zlen at 1. rewrite length_be_bytes.
  destruct (Z.ltb_spec (Z.of_nat 4 + zlen (mpi_encode n)) 4); [lia|].
  rewrite drop_app_length' by by rewrite length_be_bytes.
  cbv zeta. rewrite le_val_pad, le_val_take. f_equal.
  change (be_val (clear_sign (mpi_encode n)) = Z.abs n). rewrite be_val_clear_sign.
  pose proof (mpi_mag_nonneg (mpi_encode n)).
  destruct (mpi_encode_spec n) as [_ Hv]. rewrite mpi_value_mag in Hv.
  destruct (mpi_neg _); lia.
Qed.

Lemma getint_clamp n : getint n = if 2 ^ 31 <=? n then 2 ^ 31 - 1 else if n <? - 2 ^ 31 then - 2 ^ 31
                                  else n.
Proof.
  unfold getint, bn_is_negative, INT_MAX, INT_MIN. rewrite get_word_doc.
  repeat (case_match; simpl in *); lia.
Qed.
End with_lib.
End CBigNumFacts.
Export CBigNumFacts.

(** ** Compact difficulty targets ([nBits]) *)
Module CompactFacts.
Import CBigNum.

(** A compact form [GetCompact] can produce: a minimal body whose unused
    mantissa bytes are zero. *)
Definition canonical (c : Z) : Prop :=
  in_u 32 c /\ mpi_minimal (compact_body c) /\
  (c / 2 ^ 24 < 3 -> c mod 256 ^ (3 - c / 2 ^ 24) = 0).

Lemma length_compact_body c : in_u 32 c -> zlen (compact_body c) = Z.shiftr c 24.
Proof.
  unfold in_u. intros Hc. assert (0 <= Z.shiftr c 24) by (apply Z.shiftr_nonneg; lia).
  unfold compact_body, zlen. rewrite length_take, length_app, length_replicate. simpl length. lia.
Qed.

Definition byte_at (d : bytes) (i : nat) : Z := match d !! i with Some b => uchar b | None => 0 end.

Lemma byte_at_range d i : 0 <= byte_at d i < 256.
Proof. unfold byte_at. case_match; [apply uchar_range|lia]. Qed.

Lemma byte_at_ge d i : (length d <= i)%nat -> byte_at d i = 0.
Proof. intros. unfold byte_at. by rewrite lookup_ge_None_2. Qed.

(** The mantissa as a number. *)
Definition mantissa (d : bytes) : Z := byte_at d 0 * 2 ^ 16 + byte_at d 1 * 2 ^ 8 + byte_at d 2.

Lemma compact_body_eq s d0 d1 d2 : 0 <= s < 256 -> 0 <= d0 < 256 -> 0 <= d1 < 256 -> 0 <= d2 < 256 ->
  compact_body (s * 2 ^ 24 + d0 * 2 ^ 16 + d1 * 2 ^ 8 + d2) =
    take (Z.to_nat s) ([B#d0; B#d1; B#d2] ++ replicate (Z.to_nat (s - 3)) B#0).
Proof.
  intros Hs H0 H1 H2. unfold compact_body.
  assert (Z.shiftr (s * 2 ^ 24 + d0 * 2 ^ 16 + d1 * 2 ^ 8 + d2) 24 = s) as ->.
  { rewrite Z.shiftr_div_pow2 by lia. symmetry.
    apply Z.div_unique with (d0 * 2 ^ 16 + d1 * 2 ^ 8 + d2); lia. }
  do 2 f_equal. rewrite !to_byte_land, !Z.shiftr_div_pow2 by lia.
  rewrite <- (to_byte_mod (_ / 2 ^ 16)), <- (to_byte_mod (_ / 2 ^ 8)), <- (to_byte_mod (_ + d2)).
  repeat f_equal; Z.div_mod_to_equations; lia.
Qed.

Section with_lib.
Context `{BNLibOk}.

Lemma SetCompact_value c : in_u 32 c -> SetCompact c = mpi_value (compact_body c).
Proof.
  unfold in_u. intros Hc. pose proof (length_compact_body c Hc) as Hl.
  assert (0 <= Z.shiftr c 24 < 256) as Hs.
  { rewrite Z.shiftr_div_pow2 by lia. split; [apply Z.div_pos; lia|apply Z.div_lt_upper_bound; lia]. }
  unfold SetCompact.
  rewrite <- mpi2bn_doc by lia. f_equal. f_equal. rewrite Hl.
  unfold be_bytes. cbv [LittleEndianList.le_split rev app].
  rewrite !Z.shiftr_shiftr by lia.
  assert (forall k, 8 <= k -> Z.shiftr (Z.shiftr c 24) k = 0) as Hz.
  { intros k Hk. rewrite (Z.shiftr_div_pow2 _ k) by lia. apply Z.div_small.
    split; [lia|]. eapply Z.lt_le_trans; [apply Hs|]. change 256 with (2 ^ 8).
    apply Z.pow_le_mono_r; lia. }
  pose proof (Hz 8 ltac:(lia)) as E1. pose proof (Hz 16 ltac:(lia)) as E2.
  pose proof (Hz 24 ltac:(lia)) as E3.
  rewrite Z.shiftr_shiftr in E1, E2, E3 by lia.
  change (8 + (8 + 8)) with 24. change (8 + 8) with 16.
  by rewrite E1, E2, E3.
Qed.

Lemma GetCompact_value n : zlen (mpi_encode n) < 256 ->
  GetCompact n = zlen (mpi_encode n) * 2 ^ 24 + mantissa (mpi_encode n).
Proof.
  intros Hl. unfold GetCompact. rewrite bn2mpi_encode by lia.
  set (d := mpi_encode n) in *. set (h := be_bytes 4 (zlen d)).
  assert (length h = 4%nat) as Hh by apply length_be_bytes.
  assert (forall i, match (h ++ d) !! (4 + i)%nat with Some b => uchar b | None => 0 end
                    = byte_at d i) as Ei.
  { intros i. rewrite lookup_app_r by lia. by replace (4 + i - length h)%nat with i by lia. }
  pose proof (Ei 0%nat) as E0. pose proof (Ei 1%nat) as E1. pose proof (Ei 2%nat) as E2.
  cbv [Nat.add] in E0, E1, E2. cbv beta zeta. rewrite E0, E1, E2.
  replace (zlen (h ++ d) - 4) with (zlen d) by (rewrite zlen_app; unfold zlen; lia).
  pose proof (zlen_nonneg d).
  pose proof (byte_at_range d 0). pose proof (byte_at_range d 1). pose proof (byte_at_range d 2).
  unfold u32. rewrite (Z.shiftl_mul_pow2 (zlen d)), Z.mod_small by lia.
  assert (Z.lor (zlen d * 2 ^ 24) (Z.shiftl (byte_at d 0) 16) = (zlen d * 2 ^ 8 + byte_at d 0) * 2 ^ 16)
    as -> by (rewrite Z.shiftl_mul_pow2, lor_mul_add by lia; lia).
  assert (Z.lor ((zlen d * 2 ^ 8 + byte_at d 0) * 2 ^ 16) (Z.shiftl (byte_at d 1) 8) =
    (zlen d * 2 ^ 16 + byte_at d 0 * 2 ^ 8 + byte_at d 1) * 2 ^ 8) as Ea
    by (rewrite Z.shiftl_mul_pow2, lor_mul_add by lia; lia).
  unfold mantissa.
  destruct (Z.leb_spec 1 (zlen d)), (Z.leb_spec 2 (zlen d)), (Z.leb_spec 3 (zlen d));
    try lia; rewrite ?Ea, ?lor_mul_add by lia;
    rewrite ?(byte_at_ge d 0), ?(byte_at_ge d 1), ?(byte_at_ge d 2) by (unfold zlen in *; lia); lia.
Qed.
End with_lib.

Lemma mpi_value_nonneg d : (forall b r, d = b :: r -> uchar b < 128) -> mpi_value d = be_val d.
Proof.
  destruct d as [|b r]; intros Hb; [done|]. specialize (Hb _ _ eq_refl).
  pose proof (uchar_range b). rewrite be_val_cons. simpl. rewrite Z.mod_small by lia.
  by destruct (Z.leb_spec 128 (uchar b)); [lia|].
Qed.

Lemma be_val_app d1 d2 : be_val (d1 ++ d2) = be_val d1 * 256 ^ zlen d2 + be_val d2.
Proof.
  unfold be_val. rewrite rev_app_distr, le_val_app. unfold zlen. rewrite length_rev. lia.
Qed.

Lemma be_val_zeroes k : be_val (replicate k B#0) = 0.
Proof. induction k as [|k IH]; [done|]. simpl. rewrite be_val_cons, IH. by rewrite uchar_to_byte. Qed.

Lemma B_byte_at d i : (i < length d)%nat -> B#(byte_at d i) = d !!! i.
Proof.
  intros Hi. unfold byte_at. rewrite list_lookup_lookup_total_lt by done. apply to_byte_uchar.
Qed.

(** The body rebuilt from a mantissa: three bytes kept, the rest zeroed. *)
Lemma compact_body_truncates d : zlen d < 256 ->
  compact_body (zlen d * 2 ^ 24 + mantissa d) = take 3 d ++ replicate (length d - 3) B#0.
Proof.
  intros Hd. unfold mantissa.
  pose proof (byte_at_range d 0). pose proof (byte_at_range d 1). pose proof (byte_at_range d 2).
  rewrite !Z.add_assoc, compact_body_eq by (pose proof (zlen_nonneg d); lia).
  replace (Z.to_nat (zlen d)) with (length d) by (unfold zlen; lia).
  replace (Z.to_nat (zlen d - 3)) with (length d - 3)%nat by (unfold zlen; lia).
  destruct d as [|b0 [|b1 [|b2 d]]]; [done| | |];
    cbn [length take byte_at lookup list_lookup app replicate]; unfold byte_at; simpl;
    rewrite ?to_byte_uchar; try done.
  do 3 f_equal. rewrite take_ge; [done|]. rewrite length_replicate. lia.
Qed.

Section compact_theorems.
Context `{BNLibOk}.

(** [SetCompact] then [GetCompact] gives every canonical [nBits] back: a
    difficulty target read from a block header is written back unchanged. *)
Theorem compact_roundtrip c : canonical c -> GetCompact (SetCompact c) = c.
Proof.
  intros (Hc & Hmin & Hlow). pose proof (length_compact_body c Hc) as Hl.
  unfold in_u in Hc. rewrite Z.shiftr_div_pow2 in Hl by lia.
  set (s := c / 2 ^ 24) in *.
  assert (0 <= s < 256) as Hs.
  { split; [apply Z.div_pos; lia|apply Z.div_lt_upper_bound; lia]. }
  rewrite SetCompact_value by done. rewrite GetCompact_value, mpi_encode_value by
    (rewrite ?mpi_encode_value by done; lia || done).
  rewrite Hl. set (w := c mod 2 ^ 24).
  assert (c = s * 2 ^ 24 + w) as Ec by (unfold s, w; rewrite Z.mul_comm; apply Z.div_mod; lia).
  assert (0 <= w < 2 ^ 24) as Hw by (apply Z.mod_pos_bound; lia).
  set (d0 := w / 2 ^ 16). set (d1 := w / 2 ^ 8 mod 256). set (d2 := w mod 256).
  assert (w = d0 * 2 ^ 16 + d1 * 2 ^ 8 + d2 /\ 0 <= d0 < 256 /\ 0 <= d1 < 256 /\ 0 <= d2 < 256)
    as (Ew & H0' & H1' & H2').
  { clear -Hw. clearbody w. unfold d0, d1, d2. change (2 ^ 16) with (2 ^ 8 * 256). rewrite <- Z.div_div by lia.
    change (2 ^ 8) with 256. Z.div_mod_to_equations. lia. }
  assert (compact_body c = take (Z.to_nat s) ([B#d0; B#d1; B#d2] ++ replicate (Z.to_nat (s - 3)) B#0))
    as -> by (rewrite <- compact_body_eq by done; f_equal; lia).
  enough (mantissa (take (Z.to_nat s) ([B#d0; B#d1; B#d2] ++ replicate (Z.to_nat (s - 3)) B#0)) = w) by lia.
  unfold mantissa, byte_at.
  destruct (Z.ltb_spec s 3) as [Hs3|Hs3].
  - specialize (Hlow ltac:(lia)). rewrite Ec in Hlow.
    clearbody s w d0 d1 d2. clear -Hs Hs3 Hlow Hw Ew H0' H1' H2'.
    assert (s = 0 \/ s = 1 \/ s = 2) as [->|[->| ->]] by lia;
      [change (256 ^ (3 - 0)) with 16777216 in Hlow|change (256 ^ (3 - 1)) with 65536 in Hlow
      |change (256 ^ (3 - 2)) with 256 in Hlow]; simpl;
      rewrite ?uchar_to_byte_small by done; Z.div_mod_to_equations; lia.
  - destruct (Z.to_nat s) as [|[|[|n]]] eqn:Es; try lia.
    simpl. rewrite !uchar_to_byte_small by done. lia.
Qed.

Lemma SetCompact_GetCompact n : 0 <= n -> zlen (mpi_encode n) < 256 ->
  let unit := 256 ^ (zlen (mpi_encode n) - 3) in
  SetCompact (GetCompact n) = if 3 <? zlen (mpi_encode n) then n / unit * unit else n.
Proof.
  intros Hn Hl unit. set (d := mpi_encode n) in *.
  destruct (mpi_encode_spec n) as [Hmin Hv]. fold d in Hmin, Hv.
  pose proof (zlen_nonneg d).
  pose proof (byte_at_range d 0). pose proof (byte_at_range d 1). pose proof (byte_at_range d 2).
  rewrite GetCompact_value by done. fold d.
  rewrite SetCompact_value by (unfold in_u, mantissa; lia).
  rewrite compact_body_truncates by done.
  assert (forall b r, d = b :: r -> uchar b < 128) as Hpos.
  { intros b r Ed. destruct (mpi_mag_lower b r) as [Hp _]; [by rewrite <- Ed|].
    rewrite mpi_value_mag, Ed in Hv. simpl mpi_neg in Hv.
    destruct (Z.leb_spec 128 (uchar b)); lia. }
  assert (n = be_val d) as En by (rewrite <- mpi_value_nonneg by done; done).
  rewrite mpi_value_nonneg.
  2:{ intros b r E. destruct d as [|b' r']; [done|]. simpl in E. injection E as -> _. eauto. }
  rewrite be_val_app, be_val_zeroes, Z.add_0_r. unfold zlen at 1. rewrite length_replicate.
  destruct (Z.ltb_spec 3 (zlen d)) as [Hd3|Hd3].
  - replace (Z.of_nat (length d - 3)) with (zlen d - 3) by (unfold zlen in *; lia).
    fold unit. f_equal.
    assert (zlen (drop 3 d) = zlen d - 3) as Hdrop
      by (unfold zlen; rewrite length_drop; unfold zlen in Hd3; lia).
    pose proof (be_val_range (drop 3 d)) as Hr.
    pose proof (be_val_app (take 3 d) (drop 3 d)) as Happ.
    rewrite take_drop, Hdrop in Happ. rewrite Hdrop in Hr. fold unit in Happ, Hr.
    apply Z.div_unique with (be_val (drop 3 d)); lia.
  - replace (length d - 3)%nat with 0%nat by (unfold zlen in Hd3; lia).
    rewrite Z.mul_1_r, take_ge; [done|]. unfold zlen in Hd3. lia.
Qed.

(** [GetCompact] then [SetCompact] keeps the three leading bytes of a
    target and clears the others: the stored target is the largest
    representable one not above the computed one. *)
Theorem compact_truncates n : 0 <= n -> zlen (mpi_encode n) < 256 ->
  let unit := 256 ^ (zlen (mpi_encode n) - 3) in
  SetCompact (GetCompact n) = if 3 <? zlen (mpi_encode n) then n / unit * unit else n.
Proof. exact (SetCompact_GetCompact n). Qed.

(** The compact form of a positive target is positive and not above it. *)
Lemma GetCompact_floor n : 0 < n -> zlen (mpi_encode n) < 256 -> 0 < SetCompact (GetCompact n) <= n.
Proof.
  intros Hn Hl. rewrite SetCompact_GetCompact by lia. destruct (Z.ltb_spec 3 (zlen (mpi_encode n))) as [H3|]; [|lia].
  assert (256 ^ (zlen (mpi_encode n) - 3) <= n) as Hu.
  { destruct (enc_extra_spec n Hn) as [_ Hlow]. destruct (mpi_encode_eq n ltac:(lia)) as [_ E].
    assert (zlen (mpi_encode n) = Z.of_nat (enc_extra n) + 1) as Ez.
    { rewrite E. unfold zlen. rewrite length_cons, length_be_bytes, Z.abs_eq by lia. lia. }
    destruct (enc_extra n) as [|k]; [lia|]. specialize (Hlow k eq_refl).
    etrans; [|exact Hlow]. replace (zlen (mpi_encode n) - 3) with (Z.of_nat k - 1) by lia.
    transitivity (256 ^ Z.of_nat k); [apply Z.pow_le_mono_r; lia|]. pose proof (Z.pow_nonneg 256 (Z.of_nat k)). lia. }
  assert (0 < 256 ^ (zlen (mpi_encode n) - 3)) by (apply Z.pow_pos_nonneg; lia).
  pose proof (Z.mul_div_le n (256 ^ (zlen (mpi_encode n) - 3)) ltac:(lia)).
  pose proof (Z.div_str_pos n (256 ^ (zlen (mpi_encode n) - 3)) ltac:(lia)). nia.
Qed.

Lemma getuint256_exact n : 0 <= n < 2 ^ 256 -> le_val (getuint256 n) = n.
Proof.
  intros Hn. unfold getuint256. rewrite get_unsigned_value.
  - rewrite Z.abs_eq by lia. apply Z.mod_small. change (256 ^ Z.of_nat 32) with (2 ^ 256). lia.
  - assert (length (mpi_encode n) <= 33)%nat as Hle; [|unfold zlen; lia].
    apply length_mpi_encode_le. rewrite Z.abs_eq by lia.
    change (128 * 256 ^ Z.of_nat 32) with (2 ^ 263). lia.
Qed.
End compact_theorems.
End CompactFacts.

(** ** A reference library

    OpenSSL's functions written out for the documented format: it discharges
    [BNLibOk], so the hypotheses of this file can be met. *)
Definition ref_bn : BNLib := {|
  BN_bn2mpi n := be_bytes 4 (zlen (mpi_encode n)) ++ mpi_encode n;
  BN_mpi2bn d := mpi_value (drop 4 d);
  BN_get_word n := if Z.abs n <? 2 ^ 64 then Z.abs n else 2 ^ 64 - 1
|}.

Lemma ref_bn_ok : @BNLibOk ref_bn.
Proof.
  split; simpl; [|by intros|done].
  intros d Hd _. by rewrite mpi_encode_value.
Qed.

Lemma compact_roundtrip_witness : CompactFacts.canonical 0x1d00ffff /\
  @CBigNum.GetCompact ref_bn (@CBigNum.SetCompact ref_bn 0x1d00ffff) = 0x1d00ffff.
Proof.
  assert (CompactFacts.canonical 0x1d00ffff) as Hc.
  { split; [by unfold in_u|]. split; [|by vm_compute].
    right. exists B#0xff, (B#0xff :: replicate 26 B#0). by vm_compute. }
  split; [exact Hc|]. exact (@CompactFacts.compact_roundtrip ref_bn ref_bn_ok _ Hc).
Defined.

Lemma compact_truncates_witness :
  @CBigNum.SetCompact ref_bn (@CBigNum.GetCompact ref_bn 0x123456789a) = 0x1234560000.
Proof.
  rewrite (@CompactFacts.compact_truncates ref_bn ref_bn_ok 0x123456789a);
    [by vm_compute|lia|by vm_compute].
Defined.

(** ** Numbers on the script stack *)
Module ScriptNumber.
Import CBigNum.

Lemma mpi_value_upper d : Z.abs (mpi_value d) < 128 * 256 ^ (zlen d - 1) \/ d = [].
Proof.
  destruct d as [|b r]; [by right|]. left. rewrite mpi_value_mag, zlen_cons.
  pose proof (mpi_mag_upper b r). pose proof (mpi_mag_nonneg (b :: r)).
  replace (1 + zlen r - 1) with (zlen r) by lia. destruct (mpi_neg _); lia.
Qed.

Section with_lib.
Context `{BNLibOk}.

(** A 64-bit integer converted to a [CBigNum] and written to the stack
    reads back as itself, takes at most nine bytes, and no shorter byte
    string has that value. *)
Theorem script_number_roundtrip n : in_s 64 n ->
  setvch (getvch (of_int n)) = n /\ zlen (getvch (of_int n)) <= 9 /\
  forall v, zlen v < 2 ^ 31 -> setvch v = n -> zlen (getvch (of_int n)) <= zlen v.
Proof.
  intros Hn. rewrite of_int_exact by done. unfold in_s in Hn.
  assert ((length (mpi_encode n) <= 9)%nat) as Hl by (apply length_mpi_encode_le; lia).
  assert (zlen (mpi_encode n) <= 9) by (unfold zlen; lia).
  split; [apply setvch_getvch; lia|]. rewrite getvch_encode by lia.
  unfold zlen. rewrite length_rev. split; [lia|]. intros v Hv Ev. rewrite setvch_value in Ev by done.
  destruct (mpi_value_upper (rev v)) as [Hu|Hu].
  - rewrite Ev in Hu. destruct v as [|b v].
    { change (128 * 256 ^ (zlen (rev (@nil byte)) - 1)) with 0 in Hu. lia. }
    assert (zlen (rev (b :: v)) - 1 = Z.of_nat (length v)) as Ez
      by (unfold zlen; rewrite length_rev; simpl; lia).
    rewrite Ez in Hu. apply length_mpi_encode_le in Hu. simpl. lia.
  - rewrite Hu in Ev. simpl in Ev. subst n. simpl. lia.
Qed.
End with_lib.

Lemma script_number_roundtrip_witness :
  @setvch ref_bn (@getvch ref_bn (@of_int ref_bn (-255))) = -255 /\
  @getvch ref_bn (@of_int ref_bn (-255)) = [B#0xff; B#0x80].
Proof.
  split; [|by vm_compute].
  apply (@script_number_roundtrip ref_bn ref_bn_ok (-255)). unfold in_s. lia.
Defined.
End ScriptNumber.
