(* ===== verification/ScriptOps.v ===== *)
(** * ScriptOps: [CScript] of src/src/script.h, its opcodes and its parser

    A [CScript] is its byte vector.  An iterator [pc] is the suffix of the script
    it points at, so that [end() - pc] is the length of the suffix. *)

From S2P Require Import Prelude BigNum.

(** Script opcodes: the values of [enum opcodetype]. *)
Module Op.
Definition OP_0 : Z := 0x00.
Definition OP_FALSE : Z := OP_0.
Definition OP_PUSHDATA1 : Z := 0x4c.
Definition OP_PUSHDATA2 : Z := 0x4d.
Definition OP_PUSHDATA4 : Z := 0x4e.
Definition OP_1NEGATE : Z := 0x4f.
Definition OP_RESERVED : Z := 0x50.
Definition OP_1 : Z := 0x51.
Definition OP_TRUE : Z := OP_1.
Definition OP_2 : Z := 0x52.
Definition OP_3 : Z := 0x53.
Definition OP_4 : Z := 0x54.
Definition OP_5 : Z := 0x55.
Definition OP_6 : Z := 0x56.
Definition OP_7 : Z := 0x57.
Definition OP_8 : Z := 0x58.
Definition OP_9 : Z := 0x59.
Definition OP_10 : Z := 0x5a.
Definition OP_11 : Z := 0x5b.
Definition OP_12 : Z := 0x5c.
Definition OP_13 : Z := 0x5d.
Definition OP_14 : Z := 0x5e.
Definition OP_15 : Z := 0x5f.
Definition OP_16 : Z := 0x60.
Definition OP_NOP : Z := 0x61.
Definition OP_VER : Z := 0x62.
Definition OP_IF : Z := 0x63.
Definition OP_NOTIF : Z := 0x64.
Definition OP_VERIF : Z := 0x65.
Definition OP_VERNOTIF : Z := 0x66.
Definition OP_ELSE : Z := 0x67.
Definition OP_ENDIF : Z := 0x68.
Definition OP_VERIFY : Z := 0x69.
Definition OP_RETURN : Z := 0x6a.
Definition OP_TOALTSTACK : Z := 0x6b.
Definition OP_FROMALTSTACK : Z := 0x6c.
Definition OP_2DROP : Z := 0x6d.
Definition OP_2DUP : Z := 0x6e.
Definition OP_3DUP : Z := 0x6f.
Definition OP_2OVER : Z := 0x70.
Definition OP_2ROT : Z := 0x71.
Definition OP_2SWAP : Z := 0x72.
Definition OP_IFDUP : Z := 0x73.
Definition OP_DEPTH : Z := 0x74.
Definition OP_DROP : Z := 0x75.
Definition OP_DUP : Z := 0x76.
Definition OP_NIP : Z := 0x77.
Definition OP_OVER : Z := 0x78.
Definition OP_PICK : Z := 0x79.
Definition OP_ROLL : Z := 0x7a.
Definition OP_ROT : Z := 0x7b.
Definition OP_SWAP : Z := 0x7c.
Definition OP_TUCK : Z := 0x7d.
Definition OP_CAT : Z := 0x7e.
Definition OP_SUBSTR : Z := 0x7f.
Definition OP_LEFT : Z := 0x80.
Definition OP_RIGHT : Z := 0x81.
Definition OP_SIZE : Z := 0x82.
Definition OP_INVERT : Z := 0x83.
Definition OP_AND : Z := 0x84.
Definition OP_OR : Z := 0x85.
Definition OP_XOR : Z := 0x86.
Definition OP_EQUAL : Z := 0x87.
Definition OP_EQUALVERIFY : Z := 0x88.
Definition OP_RESERVED1 : Z := 0x89.
Definition OP_RESERVED2 : Z := 0x8a.
Definition OP_1ADD : Z := 0x8b.
Definition OP_1SUB : Z := 0x8c.
Definition OP_2MUL : Z := 0x8d.
Definition OP_2DIV : Z := 0x8e.
Definition OP_NEGATE : Z := 0x8f.
Definition OP_ABS : Z := 0x90.
Definition OP_NOT : Z := 0x91.
Definition OP_0NOTEQUAL : Z := 0x92.
Definition OP_ADD : Z := 0x93.
Definition OP_SUB : Z := 0x94.
Definition OP_MUL : Z := 0x95.
Definition OP_DIV : Z := 0x96.
Definition OP_MOD : Z := 0x97.
Definition OP_LSHIFT : Z := 0x98.
Definition OP_RSHIFT : Z := 0x99.
Definition OP_BOOLAND : Z := 0x9a.
Definition OP_BOOLOR : Z := 0x9b.
Definition OP_NUMEQUAL : Z := 0x9c.
Definition OP_NUMEQUALVERIFY : Z := 0x9d.
Definition OP_NUMNOTEQUAL : Z := 0x9e.
Definition OP_LESSTHAN : Z := 0x9f.
Definition OP_GREATERTHAN : Z := 0xa0.
Definition OP_LESSTHANOREQUAL : Z := 0xa1.
Definition OP_GREATERTHANOREQUAL : Z := 0xa2.
Definition OP_MIN : Z := 0xa3.
Definition OP_MAX : Z := 0xa4.
Definition OP_WITHIN : Z := 0xa5.
Definition OP_RIPEMD160 : Z := 0xa6.
Definition OP_SHA1 : Z := 0xa7.
Definition OP_SHA256 : Z := 0xa8.
Definition OP_HASH160 : Z := 0xa9.
Definition OP_HASH256 : Z := 0xaa.
Definition OP_CODESEPARATOR : Z := 0xab.
Definition OP_CHECKSIG : Z := 0xac.
Definition OP_CHECKSIGVERIFY : Z := 0xad.
Definition OP_CHECKMULTISIG : Z := 0xae.
Definition OP_CHECKMULTISIGVERIFY : Z := 0xaf.
Definition OP_NOP1 : Z := 0xb0.
Definition OP_CHECKLOCKTIMEVERIFY : Z := 0xb1.
Definition OP_NOP2 : Z := OP_CHECKLOCKTIMEVERIFY.
Definition OP_NOP3 : Z := 0xb2.
Definition OP_NOP4 : Z := 0xb3.
Definition OP_NOP5 : Z := 0xb4.
Definition OP_NOP6 : Z := 0xb5.
Definition OP_NOP7 : Z := 0xb6.
Definition OP_NOP8 : Z := 0xb7.
Definition OP_NOP9 : Z := 0xb8.
Definition OP_NOP10 : Z := 0xb9.
Definition OP_BURN : Z := 0xd0.
Definition OP_SMALLDATA : Z := 0xf9.
Definition OP_SMALLINTEGER : Z := 0xfa.
Definition OP_PUBKEYS : Z := 0xfb.
Definition OP_PUBKEYHASH : Z := 0xfd.
Definition OP_PUBKEY : Z := 0xfe.
Definition OP_INVALIDOPCODE : Z := 0xff.
End Op.
Export Op.

(** Limits and flags of script.h. *)
Definition MAX_SCRIPT_ELEMENT_SIZE : Z := 520.
Definition MAX_OP_RETURN_RELAY : Z := 15000.

Definition SIGHASH_ALL : Z := 1.
Definition SIGHASH_NONE : Z := 2.
Definition SIGHASH_SINGLE : Z := 3.
Definition SIGHASH_ANYONECANPAY : Z := 0x80.

Definition SCRIPT_VERIFY_NONE : Z := 0.
Definition SCRIPT_VERIFY_NOCACHE : Z := Z.shiftl 1 0.
Definition SCRIPT_VERIFY_NULLDUMMY : Z := Z.shiftl 1 1.
Definition SCRIPT_VERIFY_DISCOURAGE_UPGRADABLE_NOPS : Z := Z.shiftl 1 2.
Definition SCRIPT_VERIFY_STRICTENC : Z := Z.shiftl 1 3.
Definition SCRIPT_VERIFY_ALLOW_EMPTY_SIG : Z := Z.shiftl 1 4.
Definition SCRIPT_VERIFY_FIX_HASHTYPE : Z := Z.shiftl 1 5.
Definition SCRIPT_VERIFY_CHECKLOCKTIMEVERIFY : Z := Z.shiftl 1 6.

Definition MANDATORY_SCRIPT_VERIFY_FLAGS : Z :=
  Z.lor SCRIPT_VERIFY_NULLDUMMY (Z.lor SCRIPT_VERIFY_STRICTENC
    (Z.lor SCRIPT_VERIFY_ALLOW_EMPTY_SIG
      (Z.lor SCRIPT_VERIFY_FIX_HASHTYPE SCRIPT_VERIFY_CHECKLOCKTIMEVERIFY))).
Definition STANDARD_SCRIPT_VERIFY_FLAGS : Z :=
  Z.lor MANDATORY_SCRIPT_VERIFY_FLAGS SCRIPT_VERIFY_DISCOURAGE_UPGRADABLE_NOPS.

(** [flags & flag] as a condition. *)
Definition has_flag (flags flag : Z) : bool := negb (Z.land flags flag =? 0).

(** ** Building scripts *)
Module CScript.
(** [operator<<(opcodetype)] *)
Definition push_op (s : bytes) (opcode : Z) : bytes := s ++ [B#opcode].

(** The opcode and length bytes [operator<<(const std::vector<unsigned char>&)]
    puts before the data. *)
Definition push_header (n : Z) : bytes :=
  if n <? OP_PUSHDATA1 then [B#n]
  else if n <=? 0xff then [B#OP_PUSHDATA1; B#n]
  else if n <=? 0xffff then B#OP_PUSHDATA2 :: le_bytes 2 n
  else B#OP_PUSHDATA4 :: le_bytes 4 n.

(** [operator<<(const std::vector<unsigned char>&)] *)
Definition push_data (s : bytes) (b : bytes) : bytes := s ++ push_header (zlen b) ++ b.

(** [operator<<(const uint160&)], [operator<<(const uint256&)],
    [operator<<(const CPubKey&)]: one length byte, then the object's bytes. *)
Definition push_object (s : bytes) (b : bytes) : bytes := s ++ [B#(zlen b)] ++ b.

Section numbers.
Context `{BNLib}.

Definition push_int64 (s : bytes) (n : Z) : bytes :=
  if (n =? -1) || ((1 <=? n) && (n <=? 16)) then s ++ [B#(n + (OP_1 - 1))]
  else push_data s (CBigNum.getvch (CBigNum.of_int n)).

Definition push_uint64 (s : bytes) (n : Z) : bytes :=
  if (1 <=? n) && (n <=? 16) then s ++ [B#(n + (OP_1 - 1))]
  else push_data s (CBigNum.getvch n).
End numbers.

(** ** Reading scripts: [GetOp2] *)

(** Size of the immediate operand and the iterator after the size bytes;
    [None] when the size bytes are missing. *)
Definition operand_size (opcode : Z) (pc : bytes) : option Z * bytes :=
  if opcode <? OP_PUSHDATA1 then (Some opcode, pc)
  else if opcode =? OP_PUSHDATA1 then
    match pc with [] => (None, pc) | b :: pc => (Some (uchar b), pc) end
  else if opcode =? OP_PUSHDATA2 then
    if zlen pc <? 2 then (None, pc) else (Some (le_val (take 2 pc)), drop 2 pc)
  else
    if zlen pc <? 4 then (None, pc) else (Some (le_val (take 4 pc)), drop 4 pc).

(** Return value, [opcodeRet], [*pvchRet] and the iterator [GetOp2] leaves. *)
Record getop := mk_getop { g_ok : bool; g_opcode : Z; g_vch : bytes; g_pc : bytes }.

Definition GetOp2 (pc : bytes) : getop :=
  match pc with
  | [] => mk_getop false OP_INVALIDOPCODE [] pc
  | b :: pc =>
    let opcode := uchar b in
    if opcode <=? OP_PUSHDATA4 then
      match operand_size opcode pc with
      | (None, pc) => mk_getop false OP_INVALIDOPCODE [] pc
      | (Some nSize, pc) =>
        if u32 (zlen pc) <? nSize then mk_getop false OP_INVALIDOPCODE [] pc
        else mk_getop true opcode (take (Z.to_nat nSize) pc) (drop (Z.to_nat nSize) pc)
      end
    else mk_getop true opcode [] pc
  end.

(** A successful read, as an option. *)
Definition GetOp (pc : bytes) : option (Z * bytes * bytes) :=
  let r := GetOp2 pc in if g_ok r then Some (g_opcode r, g_vch r, g_pc r) else None.

Definition DecodeOP_N (opcode : Z) : option Z :=
  if opcode =? OP_0 then Some 0
  else if (OP_1 <=? opcode) && (opcode <=? OP_16) then Some (opcode - (OP_1 - 1))
  else None.

Definition EncodeOP_N (n : Z) : option Z :=
  if (0 <=? n) && (n <=? 16) then Some (if n =? 0 then OP_0 else OP_1 + n - 1) else None.

(** ** Walking a script, one instruction per round.  [fuel] bounds the rounds;
    every round consumes a byte, so [length pc] rounds always suffice
    (lemma [walk_fuel_enough] below). *)
Section walk.
Context {S R : Type}.
(** One round: either leave the loop with a result or go on. *)
Variable body : S -> Z -> bytes -> bytes -> R + S.
Variable on_end : S -> R.
Variable on_error : S -> R.

Fixpoint walk (fuel : nat) (st : S) (pc : bytes) : R :=
  match pc with
  | [] => on_end st
  | _ :: _ =>
    match fuel with
    | O => on_error st
    | Datatypes.S fuel =>
      match GetOp pc with
      | None => on_error st
      | Some (opcode, vch, pc') =>
        match body st opcode vch pc' with
        | inl r => r
        | inr st => walk fuel st pc'
        end
      end
    end
  end.
End walk.

Definition run_walk {S R} body on_end on_error (st : S) (pc : bytes) : R :=
  walk body on_end on_error (length pc) st pc.

(** [Find(op)]: occurrences of an opcode up to the first unreadable instruction. *)
Definition Find (op : Z) (s : bytes) : Z :=
  run_walk (fun nFound opcode _ _ => inr (if opcode =? op then nFound + 1 else nFound))
    id id 0 s.

Definition IsPushOnly (s : bytes) : bool :=
  run_walk (fun _ opcode _ _ => if OP_16 <? opcode then inl false else inr tt)
    (fun _ => true) (fun _ => false) tt s.

Definition canonical_push (opcode : Z) (data : bytes) : bool :=
  if OP_16 <? opcode then true
  else if (opcode <? OP_PUSHDATA1) && (OP_0 <? opcode) &&
          (match data with [b] => uchar b <=? 16 | _ => false end) then false
  else if (opcode =? OP_PUSHDATA1) && (zlen data <? OP_PUSHDATA1) then false
  else if (opcode =? OP_PUSHDATA2) && (zlen data <=? 0xff) then false
  else if (opcode =? OP_PUSHDATA4) && (zlen data <=? 0xffff) then false
  else true.

Definition HasCanonicalPushes (s : bytes) : bool :=
  run_walk (fun _ opcode data _ => if canonical_push opcode data then inr tt else inl false)
    (fun _ => true) (fun _ => false) tt s.

(** [IsPayToScriptHash]: [OP_HASH160 0x14 <20 bytes> OP_EQUAL], byte for byte. *)
Definition byte_is (s : bytes) (i : nat) (v : Z) : bool :=
  match s !! i with Some b => uchar b =? v | None => false end.
Definition IsPayToScriptHash (s : bytes) : bool :=
  (zlen s =? 23) && byte_is s 0 OP_HASH160 && byte_is s 1 0x14 && byte_is s 22 OP_EQUAL.

(** [GetSigOpCount(fAccurate)]; the state is [(n, lastOpcode)]. *)
Definition sigop_weight (fAccurate : bool) (lastOpcode opcode : Z) : Z :=
  if (opcode =? OP_CHECKSIG) || (opcode =? OP_CHECKSIGVERIFY) then 1
  else if (opcode =? OP_CHECKMULTISIG) || (opcode =? OP_CHECKMULTISIGVERIFY) then
    if fAccurate && (OP_1 <=? lastOpcode) && (lastOpcode <=? OP_16)
    then default 0 (DecodeOP_N lastOpcode) else 20
  else 0.

Definition GetSigOpCount (fAccurate : bool) (s : bytes) : Z :=
  run_walk (fun '(n, lastOpcode) opcode _ _ => inr (u32 (n + sigop_weight fAccurate lastOpcode opcode), opcode))
    fst fst (0, OP_INVALIDOPCODE) s.

(** [GetSigOpCount(scriptSig)]: the redeem script is the last item [scriptSig] pushes. *)
Definition last_push (scriptSig : bytes) : option bytes :=
  run_walk (fun _ opcode data _ => if OP_16 <? opcode then inl None else inr data)
    Some (fun _ => None) [] scriptSig.

Definition GetSigOpCount_p2sh (scriptPubKey scriptSig : bytes) : Z :=
  if negb (IsPayToScriptHash scriptPubKey) then GetSigOpCount true scriptPubKey
  else match last_push scriptSig with
       | None => 0
       | Some data => GetSigOpCount true data
       end.

(** [FindAndDelete(b)].  [done] is the part before [pc]; the inner [while]
    erases occurrences of [b] at [pc], then one instruction is skipped.
    Each round of either loop consumes at least one byte of [pc]. *)
Fixpoint erase_here (fuel : nat) (b pc : bytes) : Z * bytes :=
  match fuel with
  | O => (0, pc)
  | Datatypes.S fuel =>
    if (zlen b <=? zlen pc) && bool_decide (take (length b) pc = b)
    then let '(n, pc) := erase_here fuel b (drop (length b) pc) in (n + 1, pc)
    else (0, pc)
  end.

Fixpoint find_and_delete (fuel : nat) (b done pc : bytes) (nFound : Z) : Z * bytes :=
  let '(n, pc) := erase_here (length pc) b pc in
  let r := GetOp2 pc in
  match fuel with
  | O => (nFound + n, done ++ pc)
  | Datatypes.S fuel =>
    if g_ok r
    then find_and_delete fuel b (done ++ take (length pc - length (g_pc r)) pc) (g_pc r) (nFound + n)
    else (nFound + n, done ++ pc)
  end.

Definition FindAndDelete (s b : bytes) : Z * bytes :=
  match b with [] => (0, s) | _ => find_and_delete (length s) b [] s 0 end.

End CScript.

(** ** The parser *)
Module ParserFacts.
Import CScript.

Lemma operand_size_shape opcode pc n pc' : operand_size opcode pc = (Some n, pc') ->
  exists h, pc = h ++ pc' /\ (length h <= 4)%nat.
Proof.
  unfold operand_size. destruct (opcode <? OP_PUSHDATA1).
  { intros [= -> ->]. exists []. simpl. split; [done|lia]. }
  destruct (opcode =? OP_PUSHDATA1).
  { destruct pc as [|b pc]; [done|]. intros [= <- <-]. exists [b]. simpl. split; [done|lia]. }
  intros E. repeat case_match; simplify_eq.
  - exists (take 2 pc). rewrite take_drop, length_take. split; [done|lia].
  - exists (take 4 pc). rewrite take_drop, length_take. split; [done|lia].
Qed.

(** What a successful read tells about the script. *)
Lemma GetOp_shape pc opcode vch pc' : GetOp pc = Some (opcode, vch, pc') ->
  exists h, h <> [] /\ pc = h ++ vch ++ pc' /\ (length h <= 5)%nat /\
    hd_error h = Some B#opcode /\ 0 <= opcode < 256 /\ (OP_PUSHDATA4 < opcode -> vch = []).
Proof.
  unfold GetOp, GetOp2. destruct pc as [|b pc]; [done|].
  pose proof (uchar_range b) as Hb. destruct (Z.leb_spec (uchar b) OP_PUSHDATA4).
  - destruct (operand_size (uchar b) pc) as [[n|] pc0] eqn:E; [|done].
    destruct (Z.ltb_spec (u32 (zlen pc0)) n); [done|]. simpl. intros [= <- <- <-].
    apply operand_size_shape in E as (h & -> & Hh). exists (b :: h). simpl.
    rewrite take_drop, to_byte_uchar. repeat split; try done; lia.
  - simpl. intros [= <- <- <-]. exists [b]. simpl. rewrite to_byte_uchar. repeat split; try done; lia.
Qed.

Lemma GetOp_shrinks pc opcode vch pc' : GetOp pc = Some (opcode, vch, pc') ->
  (length pc' < length pc)%nat.
Proof.
  intros (h & Hh & -> & _)%GetOp_shape. destruct h; [done|]. simpl. rewrite !length_app. lia.
Qed.

Lemma GetOp_opcode_range pc opcode vch pc' : GetOp pc = Some (opcode, vch, pc') -> 0 <= opcode < 256.
Proof. by intros (h & _ & _ & _ & _ & ? & _)%GetOp_shape. Qed.

Lemma GetOp_data_empty pc opcode vch pc' :
  GetOp pc = Some (opcode, vch, pc') -> OP_PUSHDATA4 < opcode -> vch = [].
Proof. intros (h & _ & _ & _ & _ & _ & H)%GetOp_shape. done. Qed.

(** Reading does not look past the instruction. *)
Lemma operand_size_app opcode pc n pc' rest :
  operand_size opcode pc = (Some n, pc') -> operand_size opcode (pc ++ rest) = (Some n, pc' ++ rest).
Proof.
  unfold operand_size. pose proof (zlen_nonneg rest).
  destruct (opcode <? OP_PUSHDATA1); [by intros [= <- <-]|].
  destruct (opcode =? OP_PUSHDATA1); [destruct pc; [done|by intros [= <- <-]]|].
  destruct (opcode =? OP_PUSHDATA2).
  - destruct (Z.ltb_spec (zlen pc) 2); [done|]. intros [= <- <-].
    destruct (Z.ltb_spec (zlen (pc ++ rest)) 2); [rewrite zlen_app in *; lia|].
    by rewrite take_app_le, drop_app_le by (unfold zlen in *; lia).
  - destruct (Z.ltb_spec (zlen pc) 4); [done|]. intros [= <- <-].
    destruct (Z.ltb_spec (zlen (pc ++ rest)) 4); [rewrite zlen_app in *; lia|].
    by rewrite take_app_le, drop_app_le by (unfold zlen in *; lia).
Qed.

Lemma GetOp_app pc opcode vch pc' rest : zlen (pc ++ rest) < 2 ^ 32 ->
  GetOp pc = Some (opcode, vch, pc') -> GetOp (pc ++ rest) = Some (opcode, vch, pc' ++ rest).
Proof.
  intros Hlen. unfold GetOp, GetOp2. destruct pc as [|b pc]; [done|]. simpl app. cbv zeta iota.
  rewrite <- app_comm_cons, zlen_cons in Hlen.
  destruct (uchar b <=? OP_PUSHDATA4);
    [|cbn [g_ok g_opcode g_vch g_pc]; intros E; by simplify_eq].
  destruct (operand_size (uchar b) pc) as [[n|] pc0] eqn:E; [|done].
  rewrite (operand_size_app _ _ _ _ rest E).
  apply operand_size_shape in E as (h & -> & _).
  rewrite !zlen_app in *. pose proof (zlen_nonneg h). pose proof (zlen_nonneg pc0).
  pose proof (zlen_nonneg rest). unfold u32. rewrite !Z.mod_small by lia.
  destruct (Z.ltb_spec (zlen pc0) n); [done|]. cbn [g_ok g_opcode g_vch g_pc]. intros [= <- <- <-].
  destruct (Z.ltb_spec (zlen pc0 + zlen rest) n); [lia|]. cbn [g_ok g_opcode g_vch g_pc].
  by rewrite take_app_le, drop_app_le by (unfold zlen in *; lia).
Qed.

(** One whole instruction. *)
Definition is_instr (i : bytes) : Prop := exists opcode vch, GetOp i = Some (opcode, vch, []).

Lemma is_instr_nonempty i : is_instr i -> i <> [].
Proof. intros (? & ? & E) ->. done. Qed.

Lemma instr_read i rest : is_instr i -> zlen (i ++ rest) < 2 ^ 32 ->
  exists opcode vch, GetOp (i ++ rest) = Some (opcode, vch, rest).
Proof. intros (op & v & E) Hl. exists op, v. by rewrite (GetOp_app _ _ _ _ rest Hl E). Qed.

(** No instruction is a proper prefix of another. *)
Lemma instr_prefix_free i j r1 r2 : is_instr i -> is_instr j ->
  zlen (i ++ r1) < 2 ^ 32 -> i ++ r1 = j ++ r2 -> i = j /\ r1 = r2.
Proof.
  intros Hi Hj Hl E.
  destruct (instr_read i r1 Hi Hl) as (o1 & v1 & E1).
  destruct (instr_read j r2 Hj) as (o2 & v2 & E2); [by rewrite <- E|].
  rewrite E in E1. rewrite E1 in E2. simplify_eq. by apply app_inv_tail in E.
Qed.

(** What [operator<<] writes is one instruction, and [GetOp] gives the data back. *)
Definition push_opcode (n : Z) : Z :=
  if n <? OP_PUSHDATA1 then n else if n <=? 0xff then OP_PUSHDATA1
  else if n <=? 0xffff then OP_PUSHDATA2 else OP_PUSHDATA4.

(** A push instruction from its operand size. *)
Lemma GetOp_operand o pc d rest : 0 <= o <= OP_PUSHDATA4 ->
  operand_size o pc = (Some (zlen d), d ++ rest) -> zlen (d ++ rest) < 2 ^ 32 ->
  GetOp (B#o :: pc) = Some (o, d, rest).
Proof.
  intros Ho Eo Hl. unfold GetOp, GetOp2. cbv zeta.
  rewrite uchar_to_byte_small by (unfold OP_PUSHDATA4 in *; lia).
  destruct (Z.leb_spec o OP_PUSHDATA4); [|lia]. rewrite Eo.
  pose proof (zlen_nonneg d). pose proof (zlen_nonneg rest).
  assert ((u32 (zlen (d ++ rest)) <? zlen d) = false) as ->.
  { unfold u32. rewrite zlen_app in *. rewrite Z.mod_small by lia. lia. }
  cbn [g_ok g_opcode g_vch g_pc]. unfold zlen. rewrite Nat2Z.id.
  by rewrite take_app_length, drop_app_length.
Qed.

Lemma zlen_le_bytes n z r : zlen (le_bytes n z ++ r) = Z.of_nat n + zlen r.
Proof. rewrite zlen_app. unfold zlen at 1. by rewrite length_le_bytes. Qed.

Lemma operand_size_push b rest : zlen b < 2 ^ 32 ->
  exists h, push_header (zlen b) = B#(push_opcode (zlen b)) :: h /\
    operand_size (push_opcode (zlen b)) (h ++ b ++ rest) = (Some (zlen b), b ++ rest).
Proof.
  intros Hb. pose proof (zlen_nonneg b) as H0. pose proof (zlen_nonneg (b ++ rest)).
  assert (forall n bs, length (le_bytes n bs) = n) as Hll by apply length_le_bytes.
  unfold push_header, push_opcode.
  destruct (Z.ltb_spec (zlen b) OP_PUSHDATA1) as [H1|H1].
  { exists []. split; [done|]. unfold operand_size. by destruct (Z.ltb_spec (zlen b) OP_PUSHDATA1); [|lia]. }
  destruct (Z.leb_spec (zlen b) 0xff) as [H2|H2].
  { exists [B#(zlen b)]. split; [done|]. unfold operand_size.
    change (OP_PUSHDATA1 <? OP_PUSHDATA1) with false. change (OP_PUSHDATA1 =? OP_PUSHDATA1) with true.
    cbn [app]. by rewrite uchar_to_byte_small by lia. }
  destruct (Z.leb_spec (zlen b) 0xffff) as [H3|H3].
  - exists (le_bytes 2 (zlen b)). split; [done|]. unfold operand_size.
    change (OP_PUSHDATA2 <? OP_PUSHDATA1) with false. change (OP_PUSHDATA2 =? OP_PUSHDATA1) with false.
    change (OP_PUSHDATA2 =? OP_PUSHDATA2) with true. cbv iota.
    rewrite zlen_le_bytes. destruct (Z.ltb_spec (Z.of_nat 2 + zlen (b ++ rest)) 2); [lia|].
    rewrite take_app_length', drop_app_length' by (by rewrite Hll). by rewrite le_val_bytes by lia.
  - exists (le_bytes 4 (zlen b)). split; [done|]. unfold operand_size.
    change (OP_PUSHDATA4 <? OP_PUSHDATA1) with false. change (OP_PUSHDATA4 =? OP_PUSHDATA1) with false.
    change (OP_PUSHDATA4 =? OP_PUSHDATA2) with false. cbv iota.
    rewrite zlen_le_bytes. destruct (Z.ltb_spec (Z.of_nat 4 + zlen (b ++ rest)) 4); [lia|].
    rewrite take_app_length', drop_app_length' by (by rewrite Hll). by rewrite le_val_bytes by lia.
Qed.

Lemma push_opcode_range n : 0 <= n -> 0 <= push_opcode n <= OP_PUSHDATA4.
Proof. intros. unfold push_opcode, OP_PUSHDATA1, OP_PUSHDATA2, OP_PUSHDATA4. repeat case_match; lia. Qed.

Lemma GetOp_push_data b rest : zlen (b ++ rest) < 2 ^ 32 ->
  GetOp (push_header (zlen b) ++ b ++ rest) = Some (push_opcode (zlen b), b, rest).
Proof.
  intros Hr. pose proof (zlen_nonneg b). pose proof (zlen_nonneg rest).
  destruct (operand_size_push b rest) as (h & -> & Eo); [rewrite zlen_app in Hr; lia|].
  rewrite <- app_comm_cons. by apply GetOp_operand; [apply push_opcode_range| |].
Qed.

Lemma zlen_push_header n : zlen (push_header n) <= 5.
Proof.
  unfold push_header. destruct (n <? OP_PUSHDATA1); [done|]. destruct (n <=? 0xff); [done|].
  destruct (n <=? 0xffff); rewrite zlen_cons; unfold zlen; by rewrite length_le_bytes.
Qed.

Lemma push_is_instr b : zlen b < 2 ^ 32 -> is_instr (push_header (zlen b) ++ b).
Proof.
  intros Hb. eexists _, b.
  pose proof (GetOp_push_data b []) as H. rewrite !app_nil_r in H. by apply H.
Qed.

Lemma GetOp_plain op rest : OP_PUSHDATA4 < op < 256 -> GetOp (B#op :: rest) = Some (op, [], rest).
Proof.
  intros [Hop H256]. unfold GetOp, GetOp2.
  assert (0 <= op < 256) by (unfold OP_PUSHDATA4 in *; lia).
  rewrite uchar_to_byte_small by done. by destruct (Z.leb_spec op OP_PUSHDATA4); [lia|].
Qed.

Lemma op_is_instr op : OP_PUSHDATA4 < op < 256 -> is_instr [B#op].
Proof. intros. exists op, []. by apply GetOp_plain. Qed.

(** *** Loops over a script *)
Section walk_facts.
Context {S R : Type} (body : S -> Z -> bytes -> bytes -> R + S) (on_end on_error : S -> R).

(** [length pc] rounds suffice, and more change nothing. *)
Lemma walk_fuel_enough fuel st pc : (length pc <= fuel)%nat ->
  walk body on_end on_error fuel st pc = run_walk body on_end on_error st pc.
Proof.
  unfold run_walk. remember (length pc) as n eqn:En.
  assert (length pc <= n)%nat as Hn by lia. clear En.
  revert fuel st pc Hn. induction n as [|n IH]; intros fuel st pc Hn Hf.
  { destruct pc; [|simpl in Hn; lia]. by destruct fuel. }
  destruct pc as [|b pc]; [by destruct fuel|].
  destruct fuel as [|fuel]; [lia|]. simpl.
  destruct (GetOp (b :: pc)) as [[[op v] pc']|] eqn:E; [|done].
  apply GetOp_shrinks in E. simpl in E, Hn. destruct (body st op v pc') as [r|st']; [done|].
  apply IH; lia.
Qed.

Lemma run_walk_nil st : run_walk body on_end on_error st [] = on_end st.
Proof. done. Qed.

(** The unfolding equation of a loop over a script. *)
Lemma run_walk_step st pc : pc <> [] ->
  run_walk body on_end on_error st pc =
    match GetOp pc with
    | None => on_error st
    | Some (opcode, vch, pc') =>
      match body st opcode vch pc' with
      | inl r => r
      | inr st => run_walk body on_end on_error st pc'
      end
    end.
Proof.
  intros Hpc. unfold run_walk at 1. destruct pc as [|b pc]; [done|]. simpl.
  destruct (GetOp (b :: pc)) as [[[op v] pc']|] eqn:E; [|done].
  apply GetOp_shrinks in E. simpl in E. destruct (body st op v pc'); [done|].
  apply walk_fuel_enough. lia.
Qed.

(** Induction along a loop. *)
Lemma run_walk_ind (P : S -> bytes -> R -> Prop) :
  (forall st, P st [] (on_end st)) ->
  (forall st pc, pc <> [] -> GetOp pc = None -> P st pc (on_error st)) ->
  (forall st pc op v pc' r, GetOp pc = Some (op, v, pc') -> body st op v pc' = inl r -> P st pc r) ->
  (forall st pc op v pc' st' r, GetOp pc = Some (op, v, pc') -> body st op v pc' = inr st' ->
     P st' pc' r -> P st pc r) ->
  forall st pc, P st pc (run_walk body on_end on_error st pc).
Proof.
  intros Hend Herr Hret Hstep st pc. remember (length pc) as n eqn:En.
  revert st pc En. induction (lt_wf n) as [n _ IH]. intros st pc ->.
  destruct (decide (pc = [])) as [->|Hpc]; [by rewrite run_walk_nil|].
  rewrite run_walk_step by done.
  destruct (GetOp pc) as [[[op v] pc']|] eqn:E; [|by apply Herr].
  pose proof (GetOp_shrinks _ _ _ _ E). destruct (body st op v pc') as [r|st'] eqn:Eb.
  - by eapply Hret.
  - eapply Hstep; [done|done|]. by eapply IH.
Qed.
End walk_facts.
End ParserFacts.
Export ParserFacts.

(** ** Scripts as instruction sequences *)
Module ScriptFacts.
Import CScript.

Lemma GetOp_Some pc op v pc' : GetOp pc = Some (op, v, pc') ->
  GetOp2 pc = mk_getop true op v pc'.
Proof. unfold GetOp. destruct (GetOp2 pc) as [[|] o w p]; simpl; congruence. Qed.

Lemma GetOp_None pc : GetOp pc = None -> g_ok (GetOp2 pc) = false.
Proof. unfold GetOp. by destruct (GetOp2 pc) as [[|] o w p]. Qed.

(** A read takes one whole instruction off the front. *)
Lemma GetOp_split pc op v pc' : GetOp pc = Some (op, v, pc') -> zlen pc < 2 ^ 32 ->
  exists i, pc = i ++ pc' /\ GetOp i = Some (op, v, []).
Proof.
  unfold GetOp, GetOp2. destruct pc as [|b pc]; [done|]. cbv zeta. rewrite zlen_cons.
  destruct (uchar b <=? OP_PUSHDATA4) eqn:Hb.
  2:{ simpl. intros [= <- <- <-] _. exists [b]. by rewrite Hb. }
  destruct (operand_size (uchar b) pc) as [[n|] pc0] eqn:Eo; [|done].
  destruct (Z.ltb_spec (u32 (zlen pc0)) n) as [|Hn]; [done|]. simpl. intros [= <- <- <-] Hl.
  assert (exists h, pc = h ++ pc0 /\ forall r, operand_size (uchar b) (h ++ r) = (Some n, r))
    as (h & -> & Hh).
  { revert Eo. unfold operand_size. destruct (uchar b <? OP_PUSHDATA1).
    { intros [= <- <-]. by exists []. }
    destruct (uchar b =? OP_PUSHDATA1).
    { destruct pc as [|c pc]; [done|]. intros [= <- <-]. by exists [c]. }
    assert (forall k, (zlen pc <? Z.of_nat k) = false ->
      forall r, take k (take k pc ++ r) = take k pc /\ drop k (take k pc ++ r) = r /\
        (zlen (take k pc ++ r) <? Z.of_nat k) = false) as Hk.
    { intros k Hk r. apply Z.ltb_ge in Hk. unfold zlen in *.
      assert (length (take k pc) = k) by (rewrite length_take; lia).
      rewrite take_app_length', drop_app_length', length_app by done. split; [done|]. split; [done|]. apply Z.ltb_ge. lia. }
    destruct (uchar b =? OP_PUSHDATA2).
    - destruct (zlen pc <? 2) eqn:E; [done|]. intros [= <- <-]. exists (take 2 pc).
      rewrite take_drop. split; [done|]. intros r. destruct (Hk 2%nat E r) as (-> & -> & Hz).
      change (Z.of_nat 2) with 2 in Hz. by rewrite Hz.
    - destruct (zlen pc <? 4) eqn:E; [done|]. intros [= <- <-]. exists (take 4 pc).
      rewrite take_drop. split; [done|]. intros r. destruct (Hk 4%nat E r) as (-> & -> & Hz).
      change (Z.of_nat 4) with 4 in Hz. by rewrite Hz. }
  exists (b :: h ++ take (Z.to_nat n) pc0). rewrite <- app_comm_cons, <- app_assoc, take_drop.
  split; [done|]. rewrite Hb, Hh. rewrite zlen_app in Hl.
  pose proof (zlen_nonneg h). pose proof (zlen_nonneg pc0).
  unfold u32 in *. rewrite Z.mod_small in Hn by lia.
  assert (Z.of_nat (length (take (Z.to_nat n) pc0)) <= zlen pc0) by (unfold zlen; rewrite length_take; lia).
  rewrite Z.mod_small by (unfold zlen in *; lia).
  destruct (Z.ltb_spec (zlen (take (Z.to_nat n) pc0)) n).
  { unfold zlen in *. rewrite length_take in *. lia. }
  cbn [g_ok g_opcode g_vch g_pc]. by rewrite take_take, Nat.min_id, drop_ge by (rewrite length_take; lia).
Qed.

(** Every script is a sequence of instructions and an unreadable rest. *)
Lemma script_decompose s : zlen s < 2 ^ 32 ->
  exists l tail, s = concat l ++ tail /\ Forall is_instr l /\ GetOp tail = None.
Proof.
  remember (length s) as n eqn:En. revert s En.
  induction (lt_wf n) as [n _ IH]. intros s -> Hl.
  destruct (GetOp s) as [[[op v] s']|] eqn:E; [|by exists [], s].
  pose proof (GetOp_shrinks _ _ _ _ E).
  destruct (GetOp_split _ _ _ _ E Hl) as (i & -> & Ei).
  rewrite zlen_app in Hl. pose proof (zlen_nonneg i).
  destruct (IH (length s') ltac:(lia) s' eq_refl ltac:(lia)) as (l & tail & -> & Hfl & Ht).
  exists (i :: l), tail. split; [by rewrite concat_cons, app_assoc|]. split; [|done].
  constructor; [|done]. by exists op, v.
Qed.

(** *** [FindAndDelete] *)
Section find_and_delete.
Variables b tail : bytes.
Hypothesis Hb : is_instr b.
Hypothesis Htail : GetOp tail = None.

Lemma erase_here_step fuel pc : erase_here (S fuel) b (b ++ pc) =
  let '(n, pc') := erase_here fuel b pc in (n + 1, pc').
Proof.
  simpl. rewrite zlen_app. pose proof (zlen_nonneg pc).
  destruct (Z.leb_spec (zlen b) (zlen b + zlen pc)); [|lia].
  rewrite take_app_length, drop_app_length. by rewrite bool_decide_true.
Qed.

Lemma erase_here_stop fuel pc : (forall r, pc <> b ++ r) -> erase_here fuel b pc = (0, pc).
Proof.
  intros Hpc. destruct fuel; [done|]. simpl.
  destruct (bool_decide_reflect (take (length b) pc = b)) as [E|]; [|by rewrite andb_false_r].
  destruct (Hpc (drop (length b) pc)). rewrite <- E at 1. by rewrite take_drop.
Qed.

Lemma no_prefix_tail : zlen tail < 2 ^ 32 -> forall r, tail <> b ++ r.
Proof.
  intros Hl r E. rewrite E in Hl. destruct (instr_read b r Hb Hl) as (? & ? & E'). congruence.
Qed.

Lemma erase_here_instrs fuel l : (length l <= fuel)%nat -> Forall is_instr l ->
  zlen (concat l ++ tail) < 2 ^ 32 ->
  exists k l', l = replicate k b ++ l' /\ hd_error l' <> Some b /\
    erase_here fuel b (concat l ++ tail) = (Z.of_nat k, concat l' ++ tail).
Proof.
  revert fuel. induction l as [|i l IH]; intros fuel Hf Hl Hlen.
  - exists 0%nat, []. split; [done|]. split; [done|]. apply erase_here_stop.
    by apply no_prefix_tail.
  - apply Forall_cons in Hl as [Hi Hl]. destruct fuel as [|fuel]; [simpl in Hf; lia|].
    simpl concat in *. rewrite <- app_assoc in *.
    destruct (decide (i = b)) as [->|Hne].
    + rewrite erase_here_step.
      destruct (IH fuel) as (k & l' & -> & Hh & ->); [simpl in Hf; lia|done| |].
      { rewrite zlen_app in Hlen. pose proof (zlen_nonneg b). lia. }
      exists (S k), l'. split; [done|]. split; [done|]. f_equal. lia.
    + exists 0%nat, (i :: l). split; [done|]. split; [by intros [= ->]|].
      rewrite erase_here_stop; [by rewrite concat_cons, <- app_assoc|].
      intros r E. destruct (instr_prefix_free i b _ r Hi Hb Hlen E). done.
Qed.

Lemma length_concat_ge (l : list bytes) : Forall is_instr l -> (length l <= length (concat l ++ tail))%nat.
Proof.
  rewrite length_app. intros H. enough (length l <= length (concat l))%nat by lia.
  induction H as [|i l Hi _ IH]; [done|]. apply is_instr_nonempty in Hi.
  destruct i; [done|]. simpl. rewrite length_app. simpl in *. lia.
Qed.

Lemma find_and_delete_instrs fuel l done n : (length l <= fuel)%nat -> Forall is_instr l ->
  zlen (concat l ++ tail) < 2 ^ 32 ->
  find_and_delete fuel b done (concat l ++ tail) n =
    (n + Z.of_nat (length (filter (.= b) l)), done ++ concat (filter (.≠ b) l) ++ tail).
Proof.
  revert l done n. induction fuel as [|fuel IH]; intros l done n Hf Hl Hlen.
  { destruct l; [|simpl in Hf; lia]. simpl concat. simpl find_and_delete. simpl app.
    rewrite erase_here_stop by (by apply no_prefix_tail). simpl. f_equal; lia. }
  cbn [find_and_delete].
  destruct (erase_here_instrs (length (concat l ++ tail)) l) as (k & l' & -> & Hh & ->);
    [by apply length_concat_ge|done|done|].
  apply Forall_app in Hl as [_ Hl].
  assert (filter (.= b) (replicate k b) = replicate k b) as E1.
  { clear. induction k; [done|]. simpl. rewrite filter_cons_True by done. by f_equal. }
  assert (filter (.≠ b) (replicate k b) = []) as E2.
  { clear. induction k; [done|]. simpl. by rewrite filter_cons_False by (intros []; done). }
  rewrite !filter_app, E1, E2. rewrite (length_app (replicate k b) (filter _ _)), length_replicate. cbn [app].
  destruct l' as [|i l'].
  { simpl concat. simpl app. rewrite (GetOp_None _ Htail). simpl. f_equal. lia. }
  apply Forall_cons in Hl as [Hi Hl]. simpl in Hh.
  assert (i <> b) as Hne by congruence.
  simpl concat. rewrite <- app_assoc.
  rewrite concat_app, <- app_assoc in Hlen. simpl concat in Hlen.
  rewrite zlen_app in Hlen. pose proof (zlen_nonneg (concat (replicate k b))).
  rewrite <- app_assoc in Hlen.
  destruct (instr_read i (concat l' ++ tail) Hi ltac:(lia)) as (op & v & E).
  rewrite (GetOp_Some _ _ _ _ E). cbn [g_ok g_pc].
  rewrite (length_app i), Nat.add_sub, take_app_length.
  rewrite zlen_app in Hlen. pose proof (zlen_nonneg i). rewrite length_app in Hf. simpl in Hf.
  rewrite IH by (done || lia).
  rewrite (filter_cons_True _ i l' Hne), (filter_cons_False _ i l' Hne).
  f_equal; [lia|]. simpl. by rewrite !app_assoc.
Qed.
End find_and_delete.

(** Deleting never lengthens a script. *)
Lemma erase_here_length fuel b pc : (length (erase_here fuel b pc).2 <= length pc)%nat.
Proof.
  revert pc. induction fuel as [|fuel IH]; intros pc; simpl; [lia|].
  destruct ((zlen b <=? zlen pc) && _); [|simpl; lia].
  specialize (IH (drop (length b) pc)). rewrite length_drop in IH.
  destruct (erase_here fuel b (drop (length b) pc)). simpl in *. lia.
Qed.

Lemma find_and_delete_length fuel b d pc n :
  (length (find_and_delete fuel b d pc n).2 <= length d + length pc)%nat.
Proof.
  revert d pc n. induction fuel as [|fuel IH]; intros d pc n; cbn [find_and_delete];
    pose proof (erase_here_length (length pc) b pc) as He;
    destruct (erase_here (length pc) b pc) as [k pc1]; simpl in He.
  { simpl. rewrite length_app. lia. }
  destruct (g_ok (GetOp2 pc1)) eqn:E; [|simpl; rewrite length_app; lia].
  assert (length (g_pc (GetOp2 pc1)) <= length pc1)%nat as Hg.
  { destruct (GetOp2 pc1) as [ok o v p] eqn:E2. simpl in E. subst ok.
    pose proof (GetOp_shrinks pc1 o v p) as Hs. unfold GetOp in Hs. rewrite E2 in Hs.
    specialize (Hs eq_refl). simpl. lia. }
  etransitivity; [apply IH|]. rewrite length_app, length_take. lia.
Qed.

Lemma FindAndDelete_length s b : (length (FindAndDelete s b).2 <= length s)%nat.
Proof.
  unfold FindAndDelete. destruct b as [|c b]; [done|].
  pose proof (find_and_delete_length (length s) (c :: b) [] s 0). simpl in *. lia.
Qed.

(** [FindAndDelete] on a script given by its instructions. *)
Lemma FindAndDelete_spec l tail b :
  Forall is_instr l -> GetOp tail = None -> is_instr b -> zlen (concat l ++ tail) < 2 ^ 32 ->
  FindAndDelete (concat l ++ tail) b =
    (Z.of_nat (length (filter (.= b) l)), concat (filter (.≠ b) l) ++ tail).
Proof.
  intros Hl Ht Hb Hlen. unfold FindAndDelete.
  destruct b as [|c b]; [by apply is_instr_nonempty in Hb|].
  rewrite find_and_delete_instrs; try done. by apply length_concat_ge.
Qed.

(** Every script is a sequence of instructions and an unreadable rest, and
    [FindAndDelete] of one instruction removes exactly the instructions equal to
    it, counts them, and leaves the other instructions and the rest as they
    are. *)
Theorem FindAndDelete_instrs s b : zlen s < 2 ^ 32 -> is_instr b ->
  exists l tail, s = concat l ++ tail /\ Forall is_instr l /\ GetOp tail = None /\
    FindAndDelete s b = (Z.of_nat (length (filter (.= b) l)), concat (filter (.≠ b) l) ++ tail).
Proof.
  intros Hs Hb. destruct (script_decompose s Hs) as (l & tail & -> & Hl & Ht).
  exists l, tail. repeat (split; [done|]). by apply FindAndDelete_spec.
Qed.

Lemma FindAndDelete_instrs_witness :
  let s := [B#0xab; B#2; B#0xab; B#1; B#0xab; B#0x61; B#5] in
  FindAndDelete s [B#0xab] = (2, [B#2; B#0xab; B#1; B#0x61; B#5]) /\
  exists l tail, s = concat l ++ tail /\ Forall is_instr l /\ GetOp tail = None /\
    FindAndDelete s [B#0xab] = (Z.of_nat (length (filter (.= [B#0xab]) l)), concat (filter (.≠ [B#0xab]) l) ++ tail).
Proof.
  cbv zeta. split; [by vm_compute|]. apply FindAndDelete_instrs; [by vm_compute|].
  eexists _, _; by vm_compute.
Defined.
End ScriptFacts.
Export ScriptFacts.
