(* ===== verification/Serialize.v ===== *)
(** * Serialize: the stream format of src/src/serialize.h

    A writer gives the bytes it appends to the stream; a reader is a
    computation of [Reader], which throws at the end of the data or on a
    malformed field.  [Ser] is the interface ([Serialize], [Unserialize] and
    [GetSerializeSize] of a type) the other components implement, [SerOk] its
    law. *)

From S2P Require Import Prelude.

Definition MAX_SIZE : Z := 0x02000000.

(** ** Compact sizes *)
Definition GetSizeOfCompactSize (nSize : Z) : Z :=
  if nSize <? 253 then 1
  else if nSize <=? 2 ^ 16 - 1 then 1 + 2
  else if nSize <=? 2 ^ 32 - 1 then 1 + 4
  else 1 + 8.

Definition WriteCompactSize (nSize : Z) : bytes :=
  if nSize <? 253 then [B#nSize]
  else if nSize <=? 2 ^ 16 - 1 then B#253 :: le_bytes 2 nSize
  else if nSize <=? 2 ^ 32 - 1 then B#254 :: le_bytes 4 nSize
  else B#255 :: le_bytes 8 nSize.

Definition ReadCompactSize : Reader Z :=
  chSize ← read_le 1;
  nSizeRet ←
    (if chSize <? 253 then mret chSize
     else if chSize =? 253 then
       n ← read_le 2; if n <? 253 then fail else mret n
     else if chSize =? 254 then
       n ← read_le 4; if n <? 0x10000 then fail else mret n
     else
       n ← read_le 8; if n <? 0x100000000 then fail else mret n);
  if MAX_SIZE <? nSizeRet then fail else mret nSizeRet.

(** ** Variable-length integers of an unsigned type of [w] bits *)
Module VarInt.
(** [(sizeof(n)*8+6)/7] digits always suffice (lemma [max_digits_enough]). *)
Definition max_digits (w : Z) : nat := Z.to_nat ((w + 6) / 7).

Fixpoint size_loop (fuel : nat) (n nRet : Z) : Z :=
  match fuel with
  | O => nRet
  | S fuel => let nRet := nRet + 1 in
    if n <=? 0x7f then nRet else size_loop fuel (Z.shiftr n 7 - 1) nRet
  end.
Definition GetSizeOfVarInt (w n : Z) : Z := size_loop (max_digits w) n 0.

(** [tmp[0], tmp[1], ...]: least significant digit first, [len] counting up. *)
Fixpoint digits (fuel : nat) (len n : Z) : bytes :=
  match fuel with
  | O => []
  | S fuel =>
    B#(Z.lor (Z.land n 0x7f) (if len =? 0 then 0x00 else 0x80)) ::
      (if n <=? 0x7f then [] else digits fuel (len + 1) (Z.shiftr n 7 - 1))
  end.
(** The [do ... while (len--)] loop writes them backwards. *)
Definition WriteVarInt (w n : Z) : bytes := rev (digits (max_digits w) 0 n).

(** The loop of [ReadVarInt], one byte per round: it never runs longer than the stream. *)
Fixpoint read_loop (w n : Z) (s : bytes) : option Z * bytes :=
  match s with
  | [] => (None, [])
  | b :: s =>
    let chData := uchar b in
    let n := Z.lor (Z.shiftl n 7 mod 2 ^ w) (Z.land chData 0x7f) in
    if Z.land chData 0x80 =? 0 then (Some n, s) else read_loop w ((n + 1) mod 2 ^ w) s
  end.
Definition ReadVarInt (w : Z) : Reader Z := read_loop w 0.
End VarInt.
Export VarInt.

(** ** The interface *)
Class Ser (A : Type) := {
  put : A -> bytes;
  get : Reader A;
  GetSerializeSize : A -> Z
}.

(** A type whose values satisfying [fits] are read back as written, and whose
    announced size is the number of bytes written, modulo the 32 bits of its type. *)
Class SerOk (A : Type) `{Ser A} (fits : A -> Prop) : Prop := {
  get_put : reads_back fits put get;
  size_put a : fits a -> GetSerializeSize a = u32 (zlen (put a))
}.

(** An unsigned integer of [n] bytes; [FLATDATA] of an [uint160]/[uint256] is the
    same with 20 or 32 bytes. *)
Definition ser_uint (n : nat) : Ser Z := {|
  put z := le_bytes n z; get := read_le n; GetSerializeSize _ := Z.of_nat n |}.
(** A signed integer of [n] bytes, in two's complement. *)
Definition ser_sint (n : nat) : Ser Z := {|
  put z := le_bytes n z; get := z ← read_le n; mret (swrap (8 * Z.of_nat n) z);
  GetSerializeSize _ := Z.of_nat n |}.

(** A reader for [n] objects in a row.  The code resizes the vector in steps of
    about five megabytes before it reads the elements, which only bounds the
    allocation. *)
Fixpoint get_n {A} (get1 : Reader A) (n : nat) : Reader (list A) :=
  match n with
  | O => mret []
  | S n => a ← get1; l ← get_n get1 n; mret (a :: l)
  end.

(** [std::vector] of objects. *)
#[export] Instance ser_vector {A} `{Ser A} : Ser (list A) := {|
  put v := WriteCompactSize (zlen v) ++ concat (map put v);
  get := nSize ← ReadCompactSize; get_n get (Z.to_nat nSize);
  GetSerializeSize v :=
    fold_left (fun nSize a => u32 (nSize + GetSerializeSize a)) v (u32 (GetSizeOfCompactSize (zlen v))) |}.

(** [std::vector<unsigned char>] (and [CScript], [std::string]): read in blocks of
    at most five million bytes; seven blocks cover [MAX_SIZE]. *)
Definition BLOCK : Z := 1 + 4999999.
Fixpoint read_blocks (fuel : nat) (left_ : Z) : Reader bytes :=
  if left_ <=? 0 then mret [] else
  match fuel with
  | O => fail
  | S fuel =>
    let blk := Z.min left_ BLOCK in
    b ← read_bytes (Z.to_nat blk); r ← read_blocks fuel (left_ - blk); mret (b ++ r)
  end.
Definition ser_bytes : Ser bytes := {|
  put v := WriteCompactSize (zlen v) ++ v;
  get := nSize ← ReadCompactSize; read_blocks 7 nSize;
  GetSerializeSize v := u32 (GetSizeOfCompactSize (zlen v) + zlen v) |}.

(** [std::pair]. *)
#[export] Instance ser_pair {A B} `{Ser A} `{Ser B} : Ser (A * B) := {|
  put '(a, b) := put a ++ put b;
  get := a ← get; b ← get; mret (a, b);
  GetSerializeSize '(a, b) := u32 (GetSerializeSize a + GetSerializeSize b) |}.

(** ** Laws *)
Module SerializeFacts.
Lemma read_le_1 b s : read_le 1 (b :: s) = (Some (uchar b), s).
Proof.
  unfold read_le, mbind, SM_bind, mret, SM_ret, read_bytes. simpl.
  by rewrite le_val_cons, Z.mul_0_r, Z.add_0_r.
Qed.

Lemma bind_Some {A B} (m : Reader A) (f : A -> Reader B) s a s' :
  m s = (Some a, s') -> (m ≫= f) s = f a s'.
Proof. unfold mbind, SM_bind. by intros ->. Qed.

Lemma compact_size_roundtrip n rest : 0 <= n <= MAX_SIZE ->
  ReadCompactSize (WriteCompactSize n ++ rest) = (Some n, rest).
Proof.
  unfold MAX_SIZE. intros Hn. unfold ReadCompactSize, WriteCompactSize, MAX_SIZE.
  assert ((0x02000000 <? n) = false) as Hmax by lia.
  destruct (Z.ltb_spec n 253) as [H1|H1]; [|destruct (Z.leb_spec n (2 ^ 16 - 1)) as [H2|H2];
    [|destruct (Z.leb_spec n (2 ^ 32 - 1)) as [H3|H3]; [|lia]]]; rewrite <- ?app_comm_cons;
    rewrite (bind_Some _ _ _ _ _ (read_le_1 _ _)), uchar_to_byte_small by lia.
  - destruct (Z.ltb_spec n 253); [|lia]. unfold mbind, SM_bind, mret, SM_ret. by rewrite Hmax.
  - change (253 <? 253) with false. change (253 =? 253) with true. cbv iota.
    erewrite bind_Some.
    2:{ erewrite bind_Some by (apply read_le_app; lia). by destruct (Z.ltb_spec n 253); [lia|]. }
    by rewrite Hmax.
  - change (254 <? 253) with false. change (254 =? 253) with false. change (254 =? 254) with true. cbv iota.
    erewrite bind_Some.
    2:{ erewrite bind_Some by (apply read_le_app; lia). by destruct (Z.ltb_spec n 0x10000); [lia|]. }
    by rewrite Hmax.
Qed.

Lemma length_WriteCompactSize n : zlen (WriteCompactSize n) = GetSizeOfCompactSize n.
Proof.
  unfold WriteCompactSize, GetSizeOfCompactSize.
  destruct (n <? 253); [done|]. destruct (n <=? 2 ^ 16 - 1); [|destruct (n <=? 2 ^ 32 - 1)];
    rewrite zlen_cons; unfold zlen; by rewrite length_le_bytes.
Qed.

Lemma bind_inv {A B} (m : Reader A) (f : A -> Reader B) s b s' :
  (m ≫= f) s = (Some b, s') -> exists a s1, m s = (Some a, s1) /\ f a s1 = (Some b, s').
Proof. unfold mbind, SM_bind. destruct (m s) as [[a|] s1]; [eauto|done]. Qed.

Lemma read_bytes_inv n s bs rest : read_bytes n s = (Some bs, rest) -> s = bs ++ rest /\ length bs = n.
Proof.
  unfold read_bytes. destruct (Nat.leb_spec n (length s)); [|done].
  intros [= <- <-]. rewrite take_drop, length_take. split; [done|lia].
Qed.

Lemma read_le_inv k s n rest : read_le k s = (Some n, rest) ->
  s = le_bytes k n ++ rest /\ 0 <= n < 2 ^ (Z.of_nat k * 8).
Proof.
  intros (bs & s1 & Hb & [= <- <-])%bind_inv. apply read_bytes_inv in Hb as [-> Hl].
  rewrite le_bytes_val by done. split; [done|]. rewrite <- Hl. apply le_val_range.
Qed.

Lemma read_checked_inv k lo s n rest :
  (n ← read_le k; if n <? lo then fail else mret n) s = (Some n, rest) ->
  s = le_bytes k n ++ rest /\ lo <= n < 2 ^ (Z.of_nat k * 8).
Proof.
  intros (a & s1 & Hr & Hk)%bind_inv. apply read_le_inv in Hr as [-> Ha].
  destruct (Z.ltb_spec a lo); [done|]. injection Hk as <- <-. split; [done|lia].
Qed.

(** A size field is accepted in one form only: what [ReadCompactSize] reads is
    what [WriteCompactSize] writes for that size, and the size is within
    [MAX_SIZE]; every other encoding of it is refused. *)
Theorem compact_size_canonical s n rest : 
  ReadCompactSize s = (Some n, rest) <-> s = WriteCompactSize n ++ rest /\ 0 <= n <= MAX_SIZE.
Proof.
  split; [|intros [-> ?]; by apply compact_size_roundtrip].
  unfold ReadCompactSize. intros (c & s1 & Hc & (m & s2 & Hm & Hk)%bind_inv)%bind_inv.
  destruct (Z.ltb_spec MAX_SIZE m); [done|]. injection Hk as -> ->.
  apply read_le_inv in Hc as [-> Hc]. simpl in Hc.
  unfold WriteCompactSize, MAX_SIZE in *.
  destruct (Z.ltb_spec c 253).
  { injection Hm as <- <-. destruct (Z.ltb_spec c 253); [|lia]. split; [done|lia]. }
  destruct (Z.eqb_spec c 253) as [->|].
  { apply read_checked_inv in Hm as [-> Hn]. simpl in Hn.
    destruct (Z.ltb_spec n 253); [lia|]. destruct (Z.leb_spec n (2 ^ 16 - 1)); [|lia]. split; [done|lia]. }
  destruct (Z.eqb_spec c 254) as [->|].
  { apply read_checked_inv in Hm as [-> Hn]. simpl in Hn.
    destruct (Z.ltb_spec n 253); [lia|]. destruct (Z.leb_spec n (2 ^ 16 - 1)); [lia|].
    destruct (Z.leb_spec n (2 ^ 32 - 1)); [|lia]. split; [done|lia]. }
  apply read_checked_inv in Hm as [-> Hn]. lia.
Qed.

Lemma read_blocks_app fuel bs rest : zlen bs <= Z.of_nat fuel * BLOCK ->
  read_blocks fuel (zlen bs) (bs ++ rest) = (Some bs, rest).
Proof.
  revert bs. induction fuel as [|fuel IH]; intros bs Hl; simpl.
  { pose proof (zlen_nonneg bs). destruct (Z.leb_spec (zlen bs) 0); [|lia].
    by destruct bs; [|rewrite zlen_cons in *; pose proof (zlen_nonneg bs); lia]. }
  destruct (Z.leb_spec (zlen bs) 0).
  { by destruct bs; [|rewrite zlen_cons in *; pose proof (zlen_nonneg bs); lia]. }
  unfold BLOCK in *. set (blk := Z.min (zlen bs) (1 + 4999999)).
  assert (0 <= blk <= zlen bs) as Hblk by lia.
  assert (length (take (Z.to_nat blk) bs) = Z.to_nat blk) as Ht by (rewrite length_take; unfold zlen in *; lia).
  assert (zlen (drop (Z.to_nat blk) bs) = zlen bs - blk) as Hd
    by (unfold zlen in *; rewrite length_drop; lia).
  replace (bs ++ rest) with (take (Z.to_nat blk) bs ++ drop (Z.to_nat blk) bs ++ rest)
    by (by rewrite app_assoc, take_drop).
  assert (read_bytes (Z.to_nat blk) (take (Z.to_nat blk) bs ++ drop (Z.to_nat blk) bs ++ rest)
    = (Some (take (Z.to_nat blk) bs), drop (Z.to_nat blk) bs ++ rest)) as Hr
    by (rewrite <- Ht at 1; apply read_bytes_app).
  rewrite (bind_Some _ _ _ _ _ Hr), <- Hd.
  erewrite bind_Some by (apply IH; lia). unfold mret, SM_ret. by rewrite take_drop.
Qed.

Lemma get_n_put {A} `{Ser A} (fits : A -> Prop) : reads_back fits put get ->
  forall l rest, Forall fits l -> get_n get (length l) (concat (map put l) ++ rest) = (Some l, rest).
Proof.
  intros Hg l rest Hl. induction Hl as [|a l Ha Hl IH]; [done|]. cbn [length get_n map concat].
  rewrite <- app_assoc. erewrite bind_Some by by apply Hg. erewrite bind_Some by apply IH. done.
Qed.

(** *** Instances of the law *)
Lemma ser_uint_ok n : Z.of_nat n < 2 ^ 32 -> @SerOk Z (ser_uint n) (in_u (8 * Z.of_nat n)).
Proof.
  intros Hn. split.
  - intros z rest Hz. apply read_le_app. unfold in_u in Hz. by rewrite (Z.mul_comm _ 8).
  - intros z _. simpl. unfold zlen. rewrite length_le_bytes. unfold u32. by rewrite Z.mod_small by lia.
Qed.

Lemma le_bytes_mod n z : le_bytes n (z mod 2 ^ (Z.of_nat n * 8)) = le_bytes n z.
Proof.
  rewrite <- le_val_bytes_mod. apply le_bytes_val. apply length_le_bytes.
Qed.

Lemma ser_sint_ok n : 0 < Z.of_nat n < 2 ^ 32 -> @SerOk Z (ser_sint n) (in_s (8 * Z.of_nat n)).
Proof.
  intros Hn. split.
  - intros z rest Hz. cbn [get put ser_sint]. rewrite <- le_bytes_mod.
    erewrite bind_Some by (apply read_le_app, Z.mod_pos_bound; lia).
    unfold mret, SM_ret. rewrite (Z.mul_comm _ 8), swrap_of_mod, swrap_id by (done || lia). done.
  - intros z _. simpl. unfold zlen. rewrite length_le_bytes. unfold u32. by rewrite Z.mod_small by lia.
Qed.

Lemma ser_bytes_ok : @SerOk bytes ser_bytes (fun v => zlen v <= MAX_SIZE).
Proof.
  split.
  - intros v rest Hv. cbn [get put ser_bytes]. rewrite <- app_assoc. pose proof (zlen_nonneg v).
    erewrite bind_Some by (apply compact_size_roundtrip; lia).
    apply read_blocks_app. unfold MAX_SIZE, BLOCK in *. lia.
  - intros v _. cbn [put GetSerializeSize ser_bytes]. by rewrite zlen_app, length_WriteCompactSize.
Qed.

Lemma u32_add_l a b : u32 (u32 a + b) = u32 (a + b).
Proof. apply Zplus_mod_idemp_l. Qed.
Lemma u32_add_r a b : u32 (a + u32 b) = u32 (a + b).
Proof. apply Zplus_mod_idemp_r. Qed.

#[export] Instance ser_vector_ok {A} `{Ser A} (fits : A -> Prop) `{!SerOk A fits} :
  SerOk (list A) (fun v => zlen v <= MAX_SIZE /\ Forall fits v).
Proof.
  split.
  - intros v rest [Hv Hf]. cbn [get put ser_vector]. rewrite <- app_assoc. pose proof (zlen_nonneg v).
    erewrite bind_Some by (apply compact_size_roundtrip; lia).
    unfold zlen. rewrite Nat2Z.id. by apply get_n_put with fits; [apply get_put|].
  - intros v [_ Hf]. cbn [put GetSerializeSize ser_vector].
    rewrite zlen_app, length_WriteCompactSize. generalize (GetSizeOfCompactSize (zlen v)) as z.
    induction Hf as [|a l Ha _ IH]; intros z; simpl.
    { change (zlen []) with 0. by rewrite Z.add_0_r. }
    rewrite u32_add_l, (size_put a Ha), u32_add_r, IH, zlen_app, Z.add_assoc. done.
Qed.

#[export] Instance ser_pair_ok {A B} `{Ser A} `{Ser B} (fa : A -> Prop) (fb : B -> Prop)
  `{!SerOk A fa} `{!SerOk B fb} : SerOk (A * B) (fun p => fa p.1 /\ fb p.2).
Proof.
  split.
  - intros [a b] rest [Ha Hb]. cbn [get put ser_pair]. rewrite <- app_assoc.
    erewrite bind_Some by by apply get_put. by erewrite bind_Some by by apply get_put.
  - intros [a b] [Ha Hb]. cbn [put GetSerializeSize ser_pair].
    by rewrite zlen_app, (size_put a Ha), (size_put b Hb), u32_add_l, u32_add_r.
Qed.
End SerializeFacts.
Export SerializeFacts.

(** ** Variable-length integers *)
Module VarIntFacts.
Lemma land_7f n : Z.land n 0x7f = n mod 128.
Proof. change 0x7f with (Z.ones 7). by rewrite Z.land_ones by lia. Qed.

Lemma shiftr_7 n : Z.shiftr n 7 = n / 128.
Proof. by rewrite Z.shiftr_div_pow2 by lia. Qed.

(** A digit byte: seven bits of value, the top bit says that more follow. *)
Lemma digit_byte n (more : bool) : 
  uchar B#(Z.lor (Z.land n 0x7f) (if more then 0x80 else 0x00)) = n mod 128 + (if more then 128 else 0).
Proof.
  rewrite land_7f. pose proof (Z.mod_pos_bound n 128 ltac:(lia)).
  assert (Z.lor (n mod 128) (if more then 0x80 else 0) = n mod 128 + (if more then 128 else 0)) as ->.
  { destruct more; [|by rewrite Z.lor_0_r, Z.add_0_r].
    rewrite Z.lor_comm, Z.add_comm. by apply (lor_mul_add 1 (n mod 128) 7). }
  apply uchar_to_byte_small. destruct more; lia.
Qed.

(** One round of the reader when nothing overflows. *)
Lemma read_loop_step w acc b s : 0 <= acc ->
  acc * 128 + uchar b mod 128 + (if uchar b <? 128 then 0 else 1) < 2 ^ w ->
  read_loop w acc (b :: s) =
    if uchar b <? 128 then (Some (acc * 128 + uchar b mod 128), s)
    else read_loop w (acc * 128 + uchar b mod 128 + 1) s.
Proof.
  intros Hacc Hw. cbn [read_loop]. rewrite high_bit_test, land_7f, Z.shiftl_mul_pow2 by lia.
  pose proof (Z.mod_pos_bound (uchar b) 128 ltac:(lia)).
  assert (acc * 128 + uchar b mod 128 < 2 ^ w) by (destruct (uchar b <? 128); lia).
  change (2 ^ 7) with 128. rewrite (Z.mod_small (acc * 128)) by lia.
  assert (Z.lor (acc * 128) (uchar b mod 128) = acc * 128 + uchar b mod 128) as ->
    by (apply (lor_mul_add acc (uchar b mod 128) 7); [lia|done]).
  destruct (uchar b <? 128); [done|]. by rewrite Z.mod_small by lia.
Qed.

Lemma digits_len fuel l1 l2 n : 0 < l1 -> 0 < l2 -> digits fuel l1 n = digits fuel l2 n.
Proof.
  revert l1 l2 n. induction fuel as [|fuel IH]; intros l1 l2 n H1 H2; [done|]. simpl.
  destruct (Z.eqb_spec l1 0); [lia|]. destruct (Z.eqb_spec l2 0); [lia|].
  destruct (n <=? 0x7f); [done|]. f_equal. apply IH; lia.
Qed.

Lemma digits_fuel f1 f2 l n : 0 <= n < 128 ^ Z.of_nat f1 -> (f1 <= f2)%nat ->
  digits (S f2) l n = digits (S f1) l n.
Proof.
  revert f2 l n. induction f1 as [|f1 IH]; intros f2 l n Hn Hf.
  - simpl. replace n with 0 by lia. done.
  - destruct f2 as [|f2]; [lia|]. cbn [digits]. destruct (Z.leb_spec n 0x7f); [done|]. f_equal.
    apply IH; [|lia]. rewrite shiftr_7. rewrite Nat2Z.inj_succ, Z.pow_succ_r in Hn by lia.
    pose proof (Z.div_lt_upper_bound n 128 (128 ^ Z.of_nat f1)).
    assert (1 <= n / 128) by (apply Z.div_le_lower_bound; lia). lia.
Qed.

(** The value and the kind of a digit byte. *)
Lemma digit_parts n (more : bool) :
  let d := B#(Z.lor (Z.land n 0x7f) (if more then 0x80 else 0x00)) in
  uchar d mod 128 = n mod 128 /\ (uchar d <? 128) = negb more.
Proof.
  cbv zeta. rewrite digit_byte. pose proof (Z.mod_pos_bound n 128 ltac:(lia)). split.
  - destruct more; [|by rewrite Z.add_0_r, Z.mod_mod by lia].
    by rewrite Z.add_mod, Z.mod_same, Z.add_0_r, !Z.mod_mod by lia.
  - destruct more; simpl; [apply Z.ltb_ge|apply Z.ltb_lt]; lia.
Qed.

(** The digits before the last, and the value they carry. *)
Lemma div_128 n : 128 <= n -> 1 <= n / 128 /\ n = n / 128 * 128 + n mod 128 /\ 0 <= n mod 128 < 128.
Proof.
  intros. pose proof (Z.div_mod n 128 ltac:(lia)). pose proof (Z.mod_pos_bound n 128 ltac:(lia)).
  split; [apply Z.div_le_lower_bound|]; lia.
Qed.

Lemma digits_S f len n : digits (S f) len n =
  B#(Z.lor (Z.land n 0x7f) (if len =? 0 then 0x00 else 0x80)) ::
    (if n <=? 0x7f then [] else digits f (len + 1) (n / 128 - 1)).
Proof. cbn [digits]. by rewrite shiftr_7. Qed.

(** Reading the digits of the leading part leaves its successor in the accumulator. *)
Lemma read_leading w fuel n rest : 0 <= n -> n + 1 < 2 ^ w -> n < 128 ^ Z.of_nat (S fuel) ->
  read_loop w 0 (rev (digits (S fuel) 1 n) ++ rest) = read_loop w (n + 1) rest.
Proof.
  revert n rest. induction fuel as [|fuel IH]; intros n rest Hn Hw Hf; rewrite digits_S;
    change (1 =? 0) with false; cbv iota; destruct (digit_parts n true) as [Hd Hm]; cbv iota in Hd, Hm;
    (destruct (Z.leb_spec n 0x7f) as [Hs|Hs];
      [simpl rev; simpl app; rewrite (Z.mod_small n) in Hd by lia;
       rewrite read_loop_step by (rewrite ?Hd, ?Hm; simpl; lia); by rewrite Hd, Hm|]).
  - simpl in Hf. lia.
  - destruct (div_128 n ltac:(lia)) as (H1 & H2 & H3).
    cbn [rev]. rewrite <- app_assoc, (digits_len _ (1 + 1) 1) by lia.
    rewrite Nat2Z.inj_succ, Z.pow_succ_r in Hf by lia.
    rewrite IH by lia. replace (n / 128 - 1 + 1) with (n / 128) by lia. simpl app.
    rewrite read_loop_step by (rewrite ?Hd, ?Hm; simpl; lia). rewrite Hd, Hm. simpl. f_equal. lia.
Qed.

Lemma max_digits_enough w n : 0 < w -> n < 2 ^ w ->
  exists f, max_digits w = S f /\ n < 128 ^ Z.of_nat (S f).
Proof.
  intros Hw Hn. unfold max_digits.
  assert (1 <= (w + 6) / 7) by (apply Z.div_le_lower_bound; lia).
  pose proof (Z.div_mod (w + 6) 7 ltac:(lia)). pose proof (Z.mod_pos_bound (w + 6) 7 ltac:(lia)).
  exists (Z.to_nat ((w + 6) / 7 - 1)). split; [lia|].
  change 128 with (2 ^ 7). rewrite <- Z.pow_mul_r by lia.
  pose proof (Z.pow_le_mono_r 2 w (7 * Z.of_nat (S (Z.to_nat ((w + 6) / 7 - 1))))). lia.
Qed.

Lemma read_loop_consumes w acc s n rest : read_loop w acc s = (Some n, rest) ->
  exists p, p <> [] /\ s = p ++ rest.
Proof.
  revert acc. induction s as [|b s IH]; intros acc; cbn [read_loop]; [done|].
  destruct (_ =? 0).
  - intros [= _ <-]. by exists [b].
  - intros (p & _ & ->)%IH. by exists (b :: p).
Qed.

(** What has been read so far: the accumulator and the digits that stand for it. *)
Definition read_so_far (acc : Z) (p0 : bytes) : Prop :=
  0 <= acc <= 2 * 128 ^ zlen p0 - 2 /\
  (acc = 0 /\ p0 = [] \/
   1 <= acc /\ forall f, (length p0 <= f)%nat -> digits f 1 (acc - 1) = rev p0).

Lemma digits_extend acc p0 b f len : read_so_far acc p0 -> 0 <= len ->
  (uchar b <? 128) = (len =? 0) -> (S (length p0) <= f)%nat ->
  digits f len (acc * 128 + uchar b mod 128) = rev (p0 ++ [b]).
Proof.
  intros [_ Hp] Hlen Hb Hf. destruct f as [|f]; [lia|]. rewrite digits_S, rev_app_distr. simpl app.
  pose proof (Z.mod_pos_bound (uchar b) 128 ltac:(lia)) as Hm.
  assert (B#(Z.lor (Z.land (acc * 128 + uchar b mod 128) 0x7f) (if len =? 0 then 0x00 else 0x80)) = b) as ->.
  { apply uchar_inj. pose proof (digit_byte (acc * 128 + uchar b mod 128) (negb (len =? 0))) as Hd.
    rewrite Z.add_comm, Z_mod_plus_full, Z.mod_mod in Hd by lia. rewrite Z.add_comm.
    byte_bounds. revert Hd. rewrite <- Hb. destruct (Z.ltb_spec (uchar b) 128); simpl; intros ->.
    - rewrite Z.mod_small; lia.
    - rewrite Z.mod_eq by lia. replace (uchar b / 128) with 1; [lia|].
      apply Z.div_unique with (uchar b - 128); lia. }
  f_equal. destruct Hp as [[-> ->]|[Ha Hp]].
  - by destruct (Z.leb_spec (0 * 128 + uchar b mod 128) 0x7f); [|lia].
  - destruct (Z.leb_spec (acc * 128 + uchar b mod 128) 0x7f); [lia|].
    rewrite Z.div_add_l, (Z.div_small (uchar b mod 128)), Z.add_0_r by lia.
    rewrite (digits_len _ (len + 1) 1) by lia. apply Hp. lia.
Qed.

Lemma read_canonical w p acc p0 n rest : read_so_far acc p0 ->
  read_loop w acc (p ++ rest) = (Some n, rest) -> 7 * zlen (p0 ++ p) < w ->
  digits (max_digits w) 0 n = rev (p0 ++ p).
Proof.
  revert acc p0. induction p as [|b p IH]; intros acc p0 Hp Hr Hw.
  { apply read_loop_consumes in Hr as (q & Hq & E). simpl in E.
    apply (f_equal length) in E. rewrite length_app in E. destruct q; [done|]. simpl in E. lia. }
  assert (7 * (zlen p0 + 1) < w) as Hw1.
  { rewrite zlen_app, zlen_cons in Hw. pose proof (zlen_nonneg p). lia. }
  pose proof (zlen_nonneg p0) as H0. pose proof Hp as [Hacc _].
  pose proof (Z.mod_pos_bound (uchar b) 128 ltac:(lia)) as Hm.
  assert (128 ^ zlen p0 * 128 * 2 <= 2 ^ w) as Hpow.
  { change 128 with (2 ^ 7). rewrite <- Z.pow_mul_r, <- Z.pow_add_r by lia.
    rewrite Z.mul_comm, <- Z.pow_succ_r by lia. apply Z.pow_le_mono_r; lia. }
  rewrite <- app_comm_cons, read_loop_step in Hr by (try destruct (uchar b <? 128); lia).
  destruct (Z.ltb_spec (uchar b) 128) as [Hb|Hb].
  - injection Hr as <- Hrest.
    assert (p = []) as -> by (apply (f_equal length) in Hrest; rewrite length_app in Hrest; destruct p; simpl in *; [done|lia]).
    apply digits_extend; [done|lia|by apply Z.ltb_lt|].
    unfold max_digits. enough (zlen p0 + 1 <= (w + 6) / 7) by (unfold zlen in *; lia).
    apply Z.div_le_lower_bound; lia.
  - change (b :: p) with ([b] ++ p) in *. rewrite app_assoc in *. apply (IH _ _) with (2 := Hr); [|done].
    split.
    + rewrite zlen_app. change (zlen [b]) with 1. rewrite Z.pow_add_r by lia. lia.
    + right. split; [lia|]. intros f Hf. rewrite Z.add_simpl_r. rewrite length_app in Hf. simpl in Hf.
      apply digits_extend; [done|lia| |lia]. by apply Z.ltb_ge.
Qed.

(** A VARINT has one encoding only: whatever [ReadVarInt] accepts is, as long as
    it is too short to overflow the type, exactly what [WriteVarInt] writes
    for the value read. *)
Theorem varint_canonical w s n rest : ReadVarInt w s = (Some n, rest) ->
  exists p, s = p ++ rest /\ (7 * zlen p < w -> p = WriteVarInt w n).
Proof.
  intros Hr. destruct (read_loop_consumes _ _ _ _ _ Hr) as (p & _ & ->). exists p. split; [done|].
  intros Hw. unfold WriteVarInt. rewrite (read_canonical w p 0 [] n rest); [by rewrite rev_involutive| |done|done].
  split; [by vm_compute|by left].
Qed.

Lemma varint_canonical_witness : ReadVarInt 32 [B#0x80; B#0x00; B#7] = (Some 128, [B#7]) /\
  [B#0x80; B#0x00] = WriteVarInt 32 128.
Proof.
  assert (ReadVarInt 32 [B#0x80; B#0x00; B#7] = (Some 128, [B#7])) as Hr by (by vm_compute).
  split; [exact Hr|]. destruct (varint_canonical _ _ _ _ Hr) as (p & Ep & Hp).
  change [B#0x80; B#0x00; B#7] with ([B#0x80; B#0x00] ++ [B#7]) in Ep.
  apply app_inv_tail in Ep as <-. by apply Hp.
Defined.

Lemma ReadVarInt_Write w n rest : 0 < w -> 0 <= n < 2 ^ w ->
  ReadVarInt w (WriteVarInt w n ++ rest) = (Some n, rest).
Proof.
  intros Hw Hn. unfold ReadVarInt, WriteVarInt.
  destruct (max_digits_enough w n Hw) as (f & -> & Hf); [lia|].
  rewrite digits_S. change (0 =? 0) with true. cbv iota.
  destruct (digit_parts n false) as [Hd Hm]. cbv iota in Hd, Hm.
  destruct (Z.leb_spec n 0x7f) as [Hs|Hs].
  - simpl rev. simpl app. rewrite (Z.mod_small n) in Hd by lia.
    rewrite read_loop_step by (rewrite ?Hd, ?Hm; simpl; lia). by rewrite Hd, Hm.
  - destruct (div_128 n ltac:(lia)) as (H1 & H2 & H3).
    cbn [rev]. rewrite <- app_assoc, (digits_len _ (0 + 1) 1) by lia.
    destruct f as [|f]; [simpl in Hf; lia|].
    rewrite Nat2Z.inj_succ, Z.pow_succ_r in Hf by lia.
    rewrite (read_leading w f) by lia. replace (n / 128 - 1 + 1) with (n / 128) by lia. simpl app.
    rewrite read_loop_step by (rewrite ?Hd, ?Hm; simpl; lia). rewrite Hd, Hm. simpl. f_equal. f_equal. lia.
Qed.

Lemma size_loop_digits fuel len n r : size_loop fuel n r = r + zlen (digits fuel len n).
Proof.
  revert len n r. induction fuel as [|fuel IH]; intros len n r; simpl; [change (zlen []) with 0; lia|].
  rewrite zlen_cons. destruct (n <=? 0x7f); [change (zlen []) with 0; lia|]. rewrite (IH (len + 1)). lia.
Qed.

(** Every unsigned integer of the type's width, written as a VARINT, reads back
    as itself and leaves the rest of the stream; the bytes written are as many
    as [GetSizeOfVarInt] announces. *)
Theorem varint_roundtrip w n rest : 0 < w -> 0 <= n < 2 ^ w ->
  ReadVarInt w (WriteVarInt w n ++ rest) = (Some n, rest) /\ zlen (WriteVarInt w n) = GetSizeOfVarInt w n.
Proof.
  intros Hw Hn. split; [by apply ReadVarInt_Write|]. unfold WriteVarInt, GetSizeOfVarInt.
  rewrite (size_loop_digits _ 0). unfold zlen. by rewrite length_rev.
Qed.

Lemma varint_roundtrip_witness :
  ReadVarInt 64 (WriteVarInt 64 (2 ^ 32) ++ [B#9]) = (Some (2 ^ 32), [B#9]) /\
  WriteVarInt 64 (2 ^ 32) = [B#0x8e; B#0xfe; B#0xfe; B#0xff; B#0x00].
Proof. split; [apply (varint_roundtrip 64 (2 ^ 32) [B#9]); lia|by vm_compute]. Defined.
End VarIntFacts.
