(* ===== verification/Crypto.v ===== *)
(** * Crypto: hash functions (src/src/hash.h) and the elliptic-curve interface

    OpenSSL's digests and curve operations are not under src/: they are the
    classes [Digests] and [ECLib], with the documented facts the code relies on
    as the laws [DigestsOk] and [ECLibOk].  What the sources build from them
    ([Hash], [Hash160], [CHashWriter]) is defined here. *)

From S2P Require Import Prelude BigNum Serialize.

(** [SHA256()], [SHA1()], [RIPEMD160()] and [SHA512] based HMAC. *)
Class Digests := {
  SHA256 : bytes -> bytes;
  SHA1 : bytes -> bytes;
  RIPEMD160 : bytes -> bytes;
  HMAC_SHA512 : bytes -> bytes -> bytes
}.

Class DigestsOk `{Digests} : Prop := {
  length_SHA256 m : length (SHA256 m) = 32%nat;
  length_SHA1 m : length (SHA1 m) = 20%nat;
  length_RIPEMD160 m : length (RIPEMD160 m) = 20%nat;
  length_HMAC k m : length (HMAC_SHA512 k m) = 64%nat
}.

(** ** Hashes as byte strings and as numbers

    An [uint256] is its value; its 32 bytes in memory are [le_bytes 32]. *)
Section hash.
Context `{Digests}.

Definition HashBytes (m : bytes) : bytes := SHA256 (SHA256 m).
Definition Hash (m : bytes) : Z := le_val (HashBytes m).
(** The two- and three-range overloads hash the concatenation. *)
Definition Hash2 (m1 m2 : bytes) : Z := Hash (m1 ++ m2).
Definition Hash3 (m1 m2 m3 : bytes) : Z := Hash (m1 ++ m2 ++ m3).
Definition Hash160Bytes (m : bytes) : bytes := RIPEMD160 (SHA256 m).
Definition Hash160 (m : bytes) : Z := le_val (Hash160Bytes m).

(** [CHashWriter]: the bytes written so far, and [GetHash]. *)
Definition CHashWriter_write (ctx data : bytes) : bytes := ctx ++ data.
Definition CHashWriter_GetHash (ctx : bytes) : Z := Hash ctx.
Definition SerializeHash {A} `{Ser A} (a : A) : Z := CHashWriter_GetHash (CHashWriter_write [] (put a)).
End hash.

Section hash_facts.
Context `{DigestsOk}.

Lemma Hash_range m : 0 <= Hash m < 2 ^ 256.
Proof.
  unfold Hash. pose proof (le_val_range (HashBytes m)) as Hr.
  unfold HashBytes in *. by rewrite length_SHA256 in Hr.
Qed.

Lemma Hash160_range m : 0 <= Hash160 m < 2 ^ 160.
Proof.
  unfold Hash160. pose proof (le_val_range (Hash160Bytes m)) as Hr.
  unfold Hash160Bytes in *. by rewrite length_RIPEMD160 in Hr.
Qed.

Lemma le_bytes_Hash m : le_bytes 32 (Hash m) = HashBytes m.
Proof. apply le_bytes_val, length_SHA256. Qed.

Lemma le_bytes_Hash160 m : le_bytes 20 (Hash160 m) = Hash160Bytes m.
Proof. apply le_bytes_val, length_RIPEMD160. Qed.

Lemma length_HashBytes m : length (HashBytes m) = 32%nat.
Proof. apply length_SHA256. Qed.
End hash_facts.

(** ** The curve *)
Class ECLib := {
  (** A parsed public key. *)
  EC_KEY : Type;
  EC_KEY_dummy : EC_KEY;
  o2i_ECPublicKey : bytes -> option EC_KEY;
  (** [i2o_ECPublicKey] in compressed ([true]) or uncompressed form. *)
  i2o_ECPublicKey : bool -> EC_KEY -> bytes;
  (** 1 = good, 0 = bad, -1 = error. *)
  ECDSA_verify : bytes -> bytes -> EC_KEY -> Z;
  (** The public key of a secret. *)
  EC_KEY_regenerate : Z -> EC_KEY;
  EC_GROUP_get_order : Z;
  (** A signature [(r, s)] of a 32-byte hash by a secret. *)
  ECDSA_do_sign : Z -> bytes -> option (Z * Z);
  i2d_ECDSA_SIG : Z * Z -> bytes;
  d2i_ECDSA_SIG : bytes -> option (Z * Z);
  (** The repository's [ECDSA_SIG_recover_key_GFp] over OpenSSL's point functions. *)
  ECDSA_SIG_recover_key : Z * Z -> bytes -> Z -> bool -> option EC_KEY;
  EC_POINT_tweak : EC_KEY -> Z -> option EC_KEY
}.

(** secp256k1's order; signatures have both components in range; the point encodings
    have their documented sizes and headers; a compressed point stands for one
    point. *)
Class ECLibOk `{ECLib} : Prop := {
  order_doc : EC_GROUP_get_order = 0xFFFFFFFFFFFFFFFFFFFFFFFFFFFFFFFEBAAEDCE6AF48A03BBFD25E8CD0364141;
  do_sign_doc k h r s : ECDSA_do_sign k h = Some (r, s) ->
    0 < r < EC_GROUP_get_order /\ 0 < s < EC_GROUP_get_order;
  i2o_doc key : 
    (exists b x, i2o_ECPublicKey true key = b :: x /\ (b = B#2 \/ b = B#3) /\ length x = 32%nat) /\
    (exists x, i2o_ECPublicKey false key = B#4 :: x /\ length x = 64%nat);
  (** Point compression: the parity of [y] and [x] determine a point of the curve. *)
  compression_doc x y key : length x = 32%nat -> length y = 32%nat ->
    o2i_ECPublicKey (B#4 :: x ++ y) = Some key ->
    exists key', o2i_ECPublicKey (B#(2 + be_val y mod 2) :: x) = Some key' /\
      i2o_ECPublicKey false key' = B#4 :: x ++ y
}.

(** A curve library for the witnesses: it meets the laws and accepts two signatures,
    one that repeats the hash and one in DER form.  Its points are all the
    [(x, y)] with [y] zero or one. *)
Definition toy_der : bytes := [B#0x30; B#6; B#2; B#1; B#1; B#2; B#1; B#1].
Definition toy_y (odd : bool) : bytes := replicate 31 B#0 ++ [B#(Z.b2z odd)].
Definition toy_x (x : bytes) : bytes := take 32 (x ++ replicate 32 B#0).
Definition toy_decode (b : bytes) : option (bool * bytes) :=
  match b with
  | h :: r =>
    if bool_decide (h = B#2) then Some (false, r)
    else if bool_decide (h = B#3) then Some (true, r)
    else if bool_decide (drop 32 r = toy_y false) then Some (false, take 32 r)
    else if bool_decide (drop 32 r = toy_y true) then Some (true, take 32 r)
    else None
  | [] => None
  end.
Definition dummy_ec : ECLib := {|
  EC_KEY := bool * bytes; EC_KEY_dummy := (false, []);
  o2i_ECPublicKey := toy_decode;
  i2o_ECPublicKey c '(odd, x) := if c then B#(2 + Z.b2z odd) :: toy_x x else B#4 :: toy_x x ++ toy_y odd;
  ECDSA_verify h s _ := if decide (s = B#1 :: h \/ s = toy_der) then 1 else 0;
  EC_KEY_regenerate k := (false, be_bytes 32 k);
  EC_GROUP_get_order := 0xFFFFFFFFFFFFFFFFFFFFFFFFFFFFFFFEBAAEDCE6AF48A03BBFD25E8CD0364141;
  ECDSA_do_sign k h := Some (1, 0xFFFFFFFFFFFFFFFFFFFFFFFFFFFFFFFEBAAEDCE6AF48A03BBFD25E8CD0364140);
  i2d_ECDSA_SIG '(r, s) := be_bytes 32 r ++ be_bytes 32 s;
  d2i_ECDSA_SIG b := Some (be_val (take 32 b), be_val (drop 32 b));
  ECDSA_SIG_recover_key _ _ _ _ := Some (false, []);
  EC_POINT_tweak k _ := Some k
|}.

Lemma toy_x_length x : length (toy_x x) = 32%nat.
Proof. unfold toy_x. rewrite length_take, length_app, length_replicate. lia. Qed.
Lemma toy_x_id x : length x = 32%nat -> toy_x x = x.
Proof. intros Hx. unfold toy_x. by rewrite take_app_length'. Qed.

Lemma toy_compression x y key : length x = 32%nat -> toy_decode (B#4 :: x ++ y) = Some key ->
  exists odd, key = (odd, x) /\ y = toy_y odd /\ toy_decode (B#(2 + be_val y mod 2) :: x) = Some key.
Proof.
  intros Hx. unfold toy_decode. rewrite (bool_decide_eq_false_2 (B#4 = B#2)), (bool_decide_eq_false_2 (B#4 = B#3)) by done.
  rewrite drop_app_length', take_app_length' by done.
  destruct (bool_decide_reflect (y = toy_y false)) as [->|_].
  { intros [= <-]. exists false. split; [done|]. split; [done|]. by rewrite bool_decide_eq_true_2. }
  destruct (bool_decide_reflect (y = toy_y true)) as [->|_]; [|done].
  intros [= <-]. exists true. split; [done|]. split; [done|].
  rewrite bool_decide_eq_false_2 by (vm_compute; done). by rewrite bool_decide_eq_true_2.
Qed.

Lemma dummy_ec_ok : @ECLibOk dummy_ec.
Proof.
  split; simpl; [done| | |].
  - intros k h r s [= <- <-]. lia.
  - intros [odd x]. pose proof (toy_x_length x). split.
    + exists B#(2 + Z.b2z odd), (toy_x x). destruct odd; auto.
    + exists (toy_x x ++ toy_y odd). split; [done|]. rewrite length_app. change (length (toy_y odd)) with 32%nat. lia.
  - intros x y key Hx _ E. destruct (toy_compression x y key Hx E) as (odd & -> & -> & E').
    exists (odd, x). by rewrite toy_x_id.
Qed.

(** Digests for the witnesses: they meet the length laws. *)
Definition toy_digest (n : nat) (m : bytes) : bytes := le_bytes n (le_val m * 31 + zlen m * 7 + 3).
Definition dummy_digests : Digests := {|
  SHA256 := toy_digest 32; SHA1 := toy_digest 20; RIPEMD160 := toy_digest 20;
  HMAC_SHA512 k m := toy_digest 64 (k ++ m) |}.
Lemma dummy_digests_ok : @DigestsOk dummy_digests.
Proof. split; intros; apply length_le_bytes. Qed.
