(* ===== verification/Keys.v ===== *)
(** * Keys: public and private keys (src/src/key.h, src/src/key.cpp) *)

From S2P Require Import Prelude BigNum Serialize Crypto.

(** ** Public keys

    Only [vch[0 .. size())] of a [CPubKey] is observable: an invalid key
    (header 0xFF) is the empty byte string. *)
Abbreviation CPubKey := bytes.

Module PubKey.
Definition GetLen (chHeader : Z) : Z :=
  if (chHeader =? 2) || (chHeader =? 3) then 33
  else if (chHeader =? 4) || (chHeader =? 6) || (chHeader =? 7) then 65
  else 0.

Definition Invalidate : CPubKey := [].

(** [Set(pbegin, pend)], also the constructors from iterators and vectors. *)
Definition Set_ (v : bytes) : CPubKey :=
  match v with
  | [] => Invalidate
  | b :: _ => let len := GetLen (uchar b) in
    if negb (len =? 0) && (len =? zlen v) then v else Invalidate
  end.

(** [vch[0]]. *)
Definition header (pk : CPubKey) : Z := match pk with [] => 0xff | b :: _ => uchar b end.
Definition size (pk : CPubKey) : Z := GetLen (header pk).

Definition IsValid (pk : CPubKey) : bool := 0 <? size pk.
Definition IsCompressed (pk : CPubKey) : bool := size pk =? 33.

(** [memcmp] as a comparison of byte strings of one length. *)
Fixpoint memcmp (a b : bytes) : comparison :=
  match a, b with
  | x :: a, y :: b =>
    match Z.compare (uchar x) (uchar y) with Eq => memcmp a b | c => c end
  | _, _ => Eq
  end.
Definition operator_lt (a b : CPubKey) : bool :=
  (header a <? header b) ||
  ((header a =? header b) && match memcmp a b with Lt => true | _ => false end).

Section with_libs.
Context `{Digests} `{ECLib}.

Definition GetID (pk : CPubKey) : Z := Hash160 pk.
Definition GetHash (pk : CPubKey) : Z := Hash pk.

(** [CECKey::SetPubKey] and [CECKey::Verify]. *)
Definition Verify (pk : CPubKey) (hash : Z) (vchSig : bytes) : bool :=
  if negb (IsValid pk) then false else
  match o2i_ECPublicKey pk with
  | None => false
  | Some key => ECDSA_verify (le_bytes 32 hash) vchSig key =? 1
  end.

Definition IsFullyValid (pk : CPubKey) : bool :=
  if negb (IsValid pk) then false else
  match o2i_ECPublicKey pk with None => false | Some _ => true end.

(** [Decompress]: success flag and the key afterwards. *)
Definition Decompress (pk : CPubKey) : bool * CPubKey :=
  if negb (IsValid pk) then (false, pk) else
  match o2i_ECPublicKey pk with
  | None => (false, pk)
  | Some key => (true, Set_ (i2o_ECPublicKey false key))
  end.

(** [CECKey::Recover], [RecoverCompact] and [VerifyCompact]. *)
Definition Recover (hash : Z) (p64 : bytes) (rec : Z) : option EC_KEY :=
  if (rec <? 0) || (3 <=? rec) then None
  else ECDSA_SIG_recover_key (be_val (take 32 p64), be_val (drop 32 p64)) (le_bytes 32 hash) rec false.

Definition RecoverCompact (hash : Z) (vchSig : bytes) : option CPubKey :=
  match vchSig with
  | b :: p64 =>
    if negb (zlen vchSig =? 65) then None else
    match Recover hash p64 (Z.land (uchar b - 27) (Z.lnot 4)) with
    | None => None
    | Some key => Some (Set_ (i2o_ECPublicKey (negb (Z.land (uchar b - 27) 4 =? 0)) key))
    end
  | [] => None
  end.

Definition VerifyCompact (pk : CPubKey) (hash : Z) (vchSig : bytes) : bool :=
  if negb (IsValid pk) then false else
  match vchSig with
  | b :: p64 =>
    if negb (zlen vchSig =? 65) then false else
    match Recover hash p64 (Z.land (uchar b - 27) (Z.lnot 4)) with
    | None => false
    | Some key => bool_decide (pk = Set_ (i2o_ECPublicKey (IsCompressed pk) key))
    end
  | [] => false
  end.
End with_libs.

(** [Serialize] and [GetSerializeSize]. *)
Definition put_pubkey (pk : CPubKey) : bytes := WriteCompactSize (size pk) ++ pk.
Definition pubkey_size (pk : CPubKey) : Z := size pk + 1.
End PubKey.

(** ** Range checks on big-endian numbers *)
Module Range.
(** [while (c1len > c2len) { if ( *c1) return 1; c1++; c1len--; }] *)
Fixpoint skip_zeroes (k : nat) (c : bytes) : option bytes :=
  match k, c with
  | O, _ => Some c
  | S k, b :: c => if uchar b =? 0 then skip_zeroes k c else None
  | S _, [] => Some []
  end.

Fixpoint compare_same (c1 c2 : bytes) : Z :=
  match c1, c2 with
  | a :: c1, b :: c2 =>
    if uchar b <? uchar a then 1 else if uchar a <? uchar b then -1 else compare_same c1 c2
  | _, _ => 0
  end.

Definition CompareBigEndian (c1 c2 : bytes) : Z :=
  match skip_zeroes (length c1 - length c2) c1 with
  | None => 1
  | Some c1 =>
    match skip_zeroes (length c2 - length c1) c2 with
    | None => -1
    | Some c2 => compare_same c1 c2
    end
  end.

Definition hex_bytes (l : list Z) : bytes := map to_byte l.

Definition vchMaxModOrder : bytes := hex_bytes
  [0xFF;0xFF;0xFF;0xFF;0xFF;0xFF;0xFF;0xFF; 0xFF;0xFF;0xFF;0xFF;0xFF;0xFF;0xFF;0xFE;
   0xBA;0xAE;0xDC;0xE6;0xAF;0x48;0xA0;0x3B; 0xBF;0xD2;0x5E;0x8C;0xD0;0x36;0x41;0x40].
Definition vchMaxModHalfOrder : bytes := hex_bytes
  [0x7F;0xFF;0xFF;0xFF;0xFF;0xFF;0xFF;0xFF; 0xFF;0xFF;0xFF;0xFF;0xFF;0xFF;0xFF;0xFF;
   0x5D;0x57;0x6E;0x73;0x57;0xA4;0x50;0x1D; 0xDF;0xE9;0x2F;0x46;0x68;0x1B;0x20;0xA0].
Definition vchMax : bytes := vchMaxModOrder.
Definition vchOrder : bytes := hex_bytes
  [0xff;0xff;0xff;0xff;0xff;0xff;0xff;0xff; 0xff;0xff;0xff;0xff;0xff;0xff;0xff;0xfe;
   0xba;0xae;0xdc;0xe6;0xaf;0x48;0xa0;0x3b; 0xbf;0xd2;0x5e;0x8c;0xd0;0x36;0x41;0x41].
Definition vchHalfOrder : bytes := hex_bytes
  [0x7f;0xff;0xff;0xff;0xff;0xff;0xff;0xff; 0xff;0xff;0xff;0xff;0xff;0xff;0xff;0xff;
   0x5d;0x57;0x6e;0x73;0x57;0xa4;0x50;0x1d; 0xdf;0xe9;0x2f;0x46;0x68;0x1b;0x20;0xa0].

Definition CheckSignatureElement (vch : bytes) (half : bool) : bool :=
  (0 <? CompareBigEndian vch []) &&
  (CompareBigEndian vch (if half then vchMaxModHalfOrder else vchMaxModOrder) <=? 0).

(** The second loop of [CKey::Check]. *)
Fixpoint check_max (vch max : bytes) : bool :=
  match vch, max with
  | a :: vch, m :: max =>
    if uchar a <? uchar m then true else if uchar m <? uchar a then false else check_max vch max
  | _, _ => true
  end.
(** [CKey::Check] of a 32-byte array. *)
Definition Check_ (vch : bytes) : bool :=
  if forallb (fun b => uchar b =? 0) vch then false else check_max vch vchMax.
End Range.

(** ** Private keys *)
Record CKey := mk_key { fValid : bool; fCompressed : bool; k_vch : bytes }.

Module PrivKey.
Import PubKey Range.

Definition Set_key (old : CKey) (v : bytes) (fCompressedIn : bool) : CKey :=
  if negb (zlen v =? 32) then mk_key false (fCompressed old) (k_vch old)
  else if Check_ v then mk_key true fCompressedIn v
  else mk_key false (fCompressed old) (k_vch old).

Section with_libs.
Context `{Digests} `{ECLib}.

(** [GetPubKey] asserts [fValid]. *)
Definition GetPubKey (k : CKey) : option CPubKey :=
  if fValid k then Some (Set_ (i2o_ECPublicKey (fCompressed k) (EC_KEY_regenerate (be_val (k_vch k)))))
  else None.

(** Low-S enforcement of [CECKey::Sign] and [EnsureLowS]. *)
Definition low_s (order s : Z) : Z := if Z.shiftr order 1 <? s then order - s else s.

(** [CKey::Sign]; the DER encoding of the signature is OpenSSL's. *)
Definition Sign (k : CKey) (hash : Z) : option bytes :=
  if negb (fValid k) then None else
  match ECDSA_do_sign (be_val (k_vch k)) (le_bytes 32 hash) with
  | None => None
  | Some (r, s) => Some (i2d_ECDSA_SIG (r, low_s EC_GROUP_get_order s))
  end.

(** [EnsureLowS]: flag and the new signature bytes. *)
Definition EnsureLowS (vchSig : bytes) : bool * bytes :=
  match vchSig with
  | [] => (false, vchSig)
  | _ =>
    match d2i_ECDSA_SIG vchSig with
    | None => (false, vchSig)
    | Some (r, s) =>
      let s := if be_val vchHalfOrder <? s then be_val vchOrder - s else s in
      (true, i2d_ECDSA_SIG (r, s))
    end
  end.

(** [CECKey::TweakSecret]: flag and the secret written out. *)
Definition TweakSecret (vchSecretIn vchTweak : bytes) : bool * bytes :=
  let bnTweak := be_val vchTweak in
  let bnSecret := (be_val vchSecretIn + bnTweak) mod EC_GROUP_get_order in
  ((bnTweak <? EC_GROUP_get_order) && negb (bnSecret =? 0), be_bytes 32 bnSecret).

(** [BIP32Hash]. *)
Definition BIP32Hash (chainCode : bytes) (nChild : Z) (header : byte) (data : bytes) : bytes :=
  HMAC_SHA512 chainCode (header :: data ++
    [B#(Z.land (Z.shiftr nChild 24) 0xff); B#(Z.land (Z.shiftr nChild 16) 0xff);
     B#(Z.land (Z.shiftr nChild 8) 0xff); B#(Z.land nChild 0xff)]).

(** [CKey::Derive]: [None] is a failed assertion; otherwise the flag returned, the
    child key and its chain code. *)
Definition Derive (k : CKey) (nChild : Z) (cc : bytes) : option (bool * CKey * bytes) :=
  if negb (fValid k && fCompressed k) then None else
  match
    (if Z.shiftr nChild 31 =? 0 then
       match GetPubKey k with
       | Some (b :: x as pubkey) =>
         if size pubkey =? 33 then Some (BIP32Hash cc nChild b x) else None
       | _ => None
       end
     else Some (BIP32Hash cc nChild B#0 (k_vch k)))
  with
  | None => None
  | Some out =>
    let '(ret, vch) := TweakSecret (k_vch k) (take 32 out) in
    Some (ret, mk_key ret true vch, drop 32 out)
  end.
End with_libs.
End PrivKey.

(** ** Extended keys *)
Record CExtKey := mk_ext {
  nDepth : Z; vchFingerprint : bytes; nChild_ : Z; vchChainCode : bytes; x_key : CKey }.
Record CExtPubKey := mk_extpub {
  p_nDepth : Z; p_vchFingerprint : bytes; p_nChild : Z; p_vchChainCode : bytes; p_pubkey : CPubKey }.

Module ExtKey.
Import PubKey PrivKey.

(** The first 41 bytes of both encodings. *)
Definition encode_head (depth : Z) (fp : bytes) (child : Z) (cc : bytes) : bytes :=
  B#depth :: fp ++
  [B#(Z.land (Z.shiftr child 24) 0xff); B#(Z.land (Z.shiftr child 16) 0xff);
   B#(Z.land (Z.shiftr child 8) 0xff); B#(Z.land child 0xff)] ++ cc.

Definition code_at (code : bytes) (i : nat) : Z := match code !! i with Some b => uchar b | None => 0 end.
Definition slice (code : bytes) (from to : nat) : bytes := take (to - from) (drop from code).

Definition decode_child (code : bytes) : Z :=
  u32 (Z.lor (Z.shiftl (code_at code 5) 24) (Z.lor (Z.shiftl (code_at code 6) 16)
    (Z.lor (Z.shiftl (code_at code 7) 8) (code_at code 8)))).

(** [CExtKey::Encode] asserts a 32-byte key. *)
Definition Encode (k : CExtKey) : option bytes :=
  if fValid (x_key k)
  then Some (encode_head (nDepth k) (vchFingerprint k) (nChild_ k) (vchChainCode k) ++ [B#0] ++ k_vch (x_key k))
  else None.

Definition Decode (old : CExtKey) (code : bytes) : CExtKey :=
  mk_ext (code_at code 0) (slice code 1 5) (decode_child code) (slice code 9 41)
    (Set_key (x_key old) (slice code 42 74) true).

(** [CExtPubKey::Encode] asserts a 33-byte key. *)
Definition Encode_pub (k : CExtPubKey) : option bytes :=
  if size (p_pubkey k) =? 33
  then Some (encode_head (p_nDepth k) (p_vchFingerprint k) (p_nChild k) (p_vchChainCode k) ++ p_pubkey k)
  else None.

Definition Decode_pub (code : bytes) : CExtPubKey :=
  mk_extpub (code_at code 0) (slice code 1 5) (decode_child code) (slice code 9 41)
    (Set_ (slice code 41 74)).

Section with_libs.
Context `{Digests} `{ECLib}.

Definition Neuter (k : CExtKey) : option CExtPubKey :=
  match GetPubKey (x_key k) with
  | Some pk => Some (mk_extpub (nDepth k) (vchFingerprint k) (nChild_ k) (vchChainCode k) pk)
  | None => None
  end.

Definition ExtDerive (k : CExtKey) (child : Z) : option (bool * CExtKey) :=
  match GetPubKey (x_key k), Derive (x_key k) child (vchChainCode k) with
  | Some pk, Some (ret, key, cc) =>
    Some (ret, mk_ext (u8 (nDepth k + 1)) (take 4 (le_bytes 20 (GetID pk))) child cc key)
  | _, _ => None
  end.
End with_libs.
End ExtKey.

(** ** Facts *)
Module KeyFacts.
Import PubKey Range PrivKey ExtKey.

Lemma skip_zeroes_spec k c : (k <= length c)%nat ->
  match skip_zeroes k c with
  | Some c' => length c' = (length c - k)%nat /\ be_val c' = be_val c
  | None => 256 ^ (zlen c - Z.of_nat k) <= be_val c
  end.
Proof.
  revert c. induction k as [|k IH]; intros c Hk; [simpl; split; [lia|done]|].
  destruct c as [|b c]; [simpl in Hk; lia|]. simpl in Hk. cbn [skip_zeroes].
  rewrite be_val_cons, zlen_cons. pose proof (be_val_range c) as Hr. byte_bounds.
  destruct (Z.eqb_spec (uchar b) 0) as [Eb|Hb].
  - specialize (IH c ltac:(lia)). rewrite Eb. destruct (skip_zeroes k c) as [c'|].
    + simpl length. destruct IH as [IH1 IH2]. split; [done|lia].
    + replace (1 + zlen c - Z.of_nat (S k)) with (zlen c - Z.of_nat k) by lia. lia.
  - assert (256 ^ (1 + zlen c - Z.of_nat (S k)) <= 256 ^ zlen c) by (apply Z.pow_le_mono_r; unfold zlen; lia).
    nia.
Qed.

Lemma compare_same_spec c1 c2 : length c1 = length c2 ->
  compare_same c1 c2 = match Z.compare (be_val c1) (be_val c2) with Eq => 0 | Lt => -1 | Gt => 1 end.
Proof.
  revert c2. induction c1 as [|a c1 IH]; intros [|b c2] Hl; try done. simpl in Hl.
  cbn [compare_same]. rewrite !be_val_cons.
  assert (zlen c1 = zlen c2) as Ez by (unfold zlen; lia).
  pose proof (be_val_range c1) as H1. pose proof (be_val_range c2) as H2. rewrite Ez in *.
  destruct (Z.ltb_spec (uchar b) (uchar a)).
  { rewrite (proj2 (Z.compare_gt_iff _ _)); [done|nia]. }
  destruct (Z.ltb_spec (uchar a) (uchar b)).
  { rewrite (proj2 (Z.compare_lt_iff _ _)); [done|nia]. }
  replace (uchar b) with (uchar a) by lia. rewrite IH by lia. by rewrite Z.add_compare_mono_l.
Qed.

Lemma pow256_le a b : 0 <= a <= b -> 256 ^ a <= 256 ^ b.
Proof. intros. apply Z.pow_le_mono_r; lia. Qed.

(** [CompareBigEndian] compares the numbers, whatever the two lengths. *)
Lemma CompareBigEndian_spec c1 c2 :
  CompareBigEndian c1 c2 = match Z.compare (be_val c1) (be_val c2) with Eq => 0 | Lt => -1 | Gt => 1 end.
Proof.
  unfold CompareBigEndian. pose proof (be_val_range c1). pose proof (be_val_range c2).
  pose proof (skip_zeroes_spec (length c1 - length c2) c1 ltac:(lia)) as S1.
  pose proof (skip_zeroes_spec (length c2 - length c1) c2 ltac:(lia)) as S2.
  destruct (skip_zeroes (length c1 - length c2) c1) as [d1|] eqn:E1.
  - replace (length c2 - length d1)%nat with (length c2 - length c1)%nat by (destruct S1; lia).
    destruct (skip_zeroes (length c2 - length c1) c2) as [d2|] eqn:E2.
    + destruct S1 as [L1 <-], S2 as [L2 <-]. apply compare_same_spec. lia.
    + destruct (Nat.le_gt_cases (length c2) (length c1)) as [Hle|Hlt].
      { by replace (length c2 - length c1)%nat with 0%nat in E2 by lia. }
      rewrite (proj2 (Z.compare_lt_iff _ _)); [done|].
      replace (zlen c2 - Z.of_nat (length c2 - length c1)) with (zlen c1) in S2 by (unfold zlen; lia). lia.
  - destruct (Nat.le_gt_cases (length c1) (length c2)) as [Hle|Hlt].
    { by replace (length c1 - length c2)%nat with 0%nat in E1 by lia. }
    rewrite (proj2 (Z.compare_gt_iff _ _)); [done|].
    replace (zlen c1 - Z.of_nat (length c1 - length c2)) with (zlen c2) in S1 by (unfold zlen; lia). lia.
Qed.

(** The order of the group, as the two tables give it. *)
Definition order : Z := 0xFFFFFFFFFFFFFFFFFFFFFFFFFFFFFFFEBAAEDCE6AF48A03BBFD25E8CD0364141.
Lemma order_tables : be_val vchMaxModOrder = order - 1 /\ be_val vchMaxModHalfOrder = order / 2 /\
  be_val vchOrder = order /\ be_val vchHalfOrder = order / 2.
Proof. by vm_compute. Qed.

Lemma CheckSignatureElement_spec vch half :
  CheckSignatureElement vch half =
    (0 <? be_val vch) && (be_val vch <=? (if half then order / 2 else order - 1)).
Proof.
  unfold CheckSignatureElement. rewrite !CompareBigEndian_spec.
  destruct order_tables as (E1 & E2 & _). change (be_val []) with 0.
  assert (be_val (if half then vchMaxModHalfOrder else vchMaxModOrder) = if half then order / 2 else order - 1)
    as -> by (destruct half; done).
  set (m := if half then order / 2 else order - 1). unfold Z.ltb, Z.leb. rewrite (Z.compare_antisym (be_val vch) 0).
  by destruct (be_val vch ?= 0), (be_val vch ?= m).
Qed.

Lemma check_max_spec v m : length v = length m -> check_max v m = (be_val v <=? be_val m).
Proof.
  revert m. induction v as [|a v IH]; intros [|b m] Hl; try done. simpl in Hl.
  cbn [check_max]. rewrite !be_val_cons.
  assert (zlen v = zlen m) as Ez by (unfold zlen; lia).
  pose proof (be_val_range v) as H1. pose proof (be_val_range m) as H2. rewrite Ez in *.
  destruct (Z.ltb_spec (uchar a) (uchar b)); [symmetry; apply Z.leb_le; nia|].
  destruct (Z.ltb_spec (uchar b) (uchar a)); [symmetry; apply Z.leb_gt; nia|].
  replace (uchar b) with (uchar a) by lia. rewrite IH by lia.
  destruct (Z.leb_spec (be_val v) (be_val m)); symmetry; [apply Z.leb_le|apply Z.leb_gt]; lia.
Qed.

Lemma all_zero_spec v : forallb (fun b => uchar b =? 0) v = (be_val v =? 0).
Proof.
  induction v as [|b v IH]; [done|]. cbn [forallb]. rewrite IH, be_val_cons.
  pose proof (be_val_range v). byte_bounds.
  destruct (Z.eqb_spec (uchar b) 0) as [E|E]; simpl.
  - rewrite E. done.
  - symmetry. apply Z.eqb_neq. nia.
Qed.

(** A byte string is accepted as a private key exactly when its 32 bytes are a
    number between 1 and the group order less one, and a signature element
    (whatever its length) exactly when it lies between 1 and the bound:
    half the order for low-S, the order less one otherwise. *)
Theorem key_ranges vch half : length vch = 32%nat ->
  Check_ vch = (1 <=? be_val vch) && (be_val vch <? order) /\
  forall elem, CheckSignatureElement elem half =
    (1 <=? be_val elem) && (be_val elem <=? (if half then order / 2 else order - 1)).
Proof.
  intros Hl. split.
  - unfold Check_. rewrite all_zero_spec, check_max_spec by done.
    change vchMax with vchMaxModOrder. destruct order_tables as [-> _]. pose proof (be_val_range vch).
    destruct (Z.eqb_spec (be_val vch) 0) as [->|]; [done|].
    destruct (Z.leb_spec 1 (be_val vch)); [|lia]. simpl.
    destruct (Z.leb_spec (be_val vch) (order - 1)), (Z.ltb_spec (be_val vch) order); done || lia.
  - intros elem. rewrite CheckSignatureElement_spec. f_equal.
    destruct (Z.ltb_spec 0 (be_val elem)), (Z.leb_spec 1 (be_val elem)); done || lia.
Qed.

Lemma key_ranges_witness : Check_ (be_bytes 32 order) = false /\ Check_ (be_bytes 32 (order - 1)) = true /\
  CheckSignatureElement [B#0; B#0; B#7] true = true.
Proof.
  split; [|split].
  - rewrite (proj1 (key_ranges (be_bytes 32 order) true (length_be_bytes 32 order))). by vm_compute.
  - by vm_compute.
  - by vm_compute.
Defined.

(** *** Signatures have a low S *)
Lemma low_s_range s : 0 < s < order -> 0 < low_s order s <= order / 2.
Proof.
  intros Hs. unfold low_s. rewrite Z.shiftr_div_pow2 by lia. change (2 ^ 1) with 2.
  assert (order = 2 * (order / 2) + 1) as Eo by (by vm_compute).
  destruct (Z.ltb_spec (order / 2) s); lia.
Qed.

(** Every signature [CKey::Sign] produces is the encoding of a pair whose S is in
    the lower half of the group, so that it passes the low-S check
    ([CheckSignatureElement] with [half]) the script verifier makes. *)
Theorem Sign_low_s `{Digests} `{ECLibOk} k hash sig : Sign k hash = Some sig ->
  exists r s, sig = i2d_ECDSA_SIG (r, s) /\ 0 < r < order /\ 0 < s <= order / 2 /\
    forall enc, be_val enc = s -> CheckSignatureElement enc true = true.
Proof.
  unfold Sign. destruct (fValid k); [|done]. simpl.
  destruct (ECDSA_do_sign _ _) as [[r s]|] eqn:E; [|done]. intros [= <-].
  apply do_sign_doc in E as [Hr Hs]. rewrite order_doc in *. fold order in *.
  pose proof (low_s_range s Hs) as Hl. exists r, (low_s order s).
  split; [done|]. split; [done|]. split; [done|]. intros enc He.
  rewrite CheckSignatureElement_spec, He. apply andb_true_intro. split; [apply Z.ltb_lt|apply Z.leb_le]; lia.
Qed.

Lemma Sign_low_s_witness :
  exists sig, @Sign dummy_ec (mk_key true true (replicate 32 B#1)) 5 = Some sig /\
    exists r s, sig = be_bytes 32 r ++ be_bytes 32 s /\ 0 < s <= order / 2.
Proof.
  eexists. split; [reflexivity|].
  destruct (@Sign_low_s dummy_digests dummy_ec dummy_ec_ok (mk_key true true (replicate 32 B#1)) 5 _ eq_refl)
    as (r & s & E & _ & Hs & _).
  exists r, s. split; [exact E|exact Hs].
Defined.

(** *** Extended keys *)
Definition ext_wf (d : Z) (fp : bytes) (c : Z) (cc : bytes) : Prop :=
  0 <= d < 256 /\ length fp = 4%nat /\ in_u 32 c /\ length cc = 32%nat.

Lemma decode_child_encode b0 fp c rest : length fp = 4%nat -> in_u 32 c ->
  decode_child (b0 :: fp ++ [B#(Z.land (Z.shiftr c 24) 0xff); B#(Z.land (Z.shiftr c 16) 0xff);
    B#(Z.land (Z.shiftr c 8) 0xff); B#(Z.land c 0xff)] ++ rest) = c.
Proof.
  intros Hf Hc. unfold in_u in Hc. destruct fp as [|f0 [|f1 [|f2 [|f3 [|]]]]]; try done.
  unfold decode_child, code_at. simpl. rewrite !to_byte_land, !uchar_to_byte.
  rewrite !Z.shiftr_div_pow2, !Z.shiftl_mul_pow2 by lia.
  pose proof (Z.mod_pos_bound c 256 ltac:(lia)). pose proof (Z.mod_pos_bound (c / 2 ^ 8) 256 ltac:(lia)).
  pose proof (Z.mod_pos_bound (c / 2 ^ 16) 256 ltac:(lia)).
  rewrite (lor_mul_add _ (c mod 256) 8) by lia. rewrite (lor_mul_add _ _ 16) by lia.
  rewrite (lor_mul_add _ _ 24) by lia. unfold u32.
  change (2 ^ 24) with 16777216. change (2 ^ 16) with 65536. change (2 ^ 8) with 256. change (2 ^ 32) with 4294967296 in *.
  Z.div_mod_to_equations. lia.
Qed.

Lemma head_slices d fp c cc rest : ext_wf d fp c cc ->
  let code := encode_head d fp c cc ++ rest in
  code_at code 0 = d /\ slice code 1 5 = fp /\ decode_child code = c /\ slice code 9 41 = cc /\
  drop 41 code = rest.
Proof.
  intros (Hd & Hf & Hc & Hcc). cbv zeta. unfold encode_head. rewrite <- app_comm_cons, <- !app_assoc.
  split; [unfold code_at; simpl; by apply uchar_to_byte_small|].
  split; [unfold slice; rewrite skipn_cons, skipn_O; by apply take_app_length'|].
  split; [by apply decode_child_encode|].
  assert (forall n r, drop (S (4 + n)) (B#d :: fp ++ r) = drop n r) as Hdrop.
  { intros n r. simpl. rewrite drop_app, Hf. rewrite drop_ge by (rewrite Hf; lia).
    replace (S (S (S (S n))) - 4)%nat with n by lia. done. }
  split.
  - unfold slice. change 9%nat with (S (4 + 4)). rewrite Hdrop. cbn [drop app].
    apply take_app_length'. by rewrite Hcc.
  - change 41%nat with (S (4 + 36)). rewrite Hdrop.
    change 36%nat with (S (S (S (S 32)))). cbn [drop app]. apply drop_app_length'. by rewrite Hcc.
Qed.

(** Extended keys survive their 74-byte encoding: decoding what [Encode] wrote
    gives the key back, for private and public keys alike. *)
Theorem extkey_roundtrip :
  (forall k old code, ext_wf (nDepth k) (vchFingerprint k) (nChild_ k) (vchChainCode k) ->
     length (k_vch (x_key k)) = 32%nat -> Check_ (k_vch (x_key k)) = true -> fCompressed (x_key k) = true ->
     Encode k = Some code -> length code = 74%nat /\ Decode old code = k) /\
  (forall k code, ext_wf (p_nDepth k) (p_vchFingerprint k) (p_nChild k) (p_vchChainCode k) ->
     Set_ (p_pubkey k) = p_pubkey k -> Encode_pub k = Some code ->
     length code = 74%nat /\ Decode_pub code = k).
Proof.
  assert (forall d fp c cc, ext_wf d fp c cc -> length (encode_head d fp c cc) = 41%nat) as Hlen.
  { intros d fp c cc (_ & Hf & _ & Hcc). unfold encode_head.
    by rewrite length_cons, !length_app, Hf, Hcc. }
  split.
  - intros [d fp c cc [fv fcomp v]] old code Hwf Hl Hck Hc. unfold Encode.
    cbn [nDepth vchFingerprint nChild_ vchChainCode x_key k_vch fCompressed fValid] in *.
    destruct fv; [|done]. intros E. apply (inj Some) in E as <-.
    pose proof (head_slices d fp c cc ([B#0] ++ v) Hwf) as (E1 & E2 & E3 & E4 & E5). 
    split; [rewrite length_app, Hlen by done; simpl; lia|].
    unfold Decode. rewrite E1, E2, E3, E4. f_equal. unfold Set_key.
    assert (slice (encode_head d fp c cc ++ [B#0] ++ v) 42 74 = v) as ->.
    { unfold slice. change 42%nat with (41 + 1)%nat. rewrite <- drop_drop, E5.
      change (drop 1 ([B#0] ++ v)) with v. apply take_ge. lia. }
    assert (zlen v = 32) as Ev by (unfold zlen; lia). rewrite Ev, Hck. simpl. by subst.
  - intros [d fp c cc pk] code Hwf Hset. unfold Encode_pub.
    cbn [p_nDepth p_vchFingerprint p_nChild p_vchChainCode p_pubkey] in *.
    destruct (Z.eqb_spec (size pk) 33) as [Es|]; [|done]. intros E. apply (inj Some) in E as <-.
    pose proof (head_slices d fp c cc pk Hwf) as (E1 & E2 & E3 & E4 & E5).
    assert (length pk = 33%nat) as Hpk.
    { destruct pk as [|b r]; [done|]. cbn [Set_] in Hset. unfold size in Es. simpl in Es.
      destruct (negb _ && _) eqn:E; [|done]. apply andb_true_iff in E as [_ E].
      apply Z.eqb_eq in E. unfold zlen in E. lia. }
    split; [rewrite length_app, Hlen by done; lia|].
    unfold Decode_pub. rewrite E1, E2, E3, E4. f_equal.
    unfold slice. rewrite E5, take_ge by lia. done.
Qed.

Definition sample_ext : CExtKey :=
  mk_ext 3 [B#1; B#2; B#3; B#4] 0x80000005 (replicate 32 B#7) (mk_key true true (replicate 32 B#1)).

Lemma extkey_roundtrip_witness : exists code, Encode sample_ext = Some code /\
  length code = 74%nat /\ Decode sample_ext code = sample_ext.
Proof.
  eexists. split; [reflexivity|].
  apply (proj1 extkey_roundtrip sample_ext sample_ext); [|reflexivity|by vm_compute|reflexivity|reflexivity].
  unfold ext_wf, in_u. simpl. repeat split; lia.
Defined.
End KeyFacts.
