(* ===== verification/Core.v ===== *)
(** * Core: transactions (src/src/core.h and [CTransaction] of src/src/main.h) *)

From S2P Require Import Prelude BigNum ScriptOps Serialize Crypto.

Definition COIN : Z := 100000000.
Definition CENT : Z := 1000000.
Definition MAX_MONEY : Z := 90000000 * COIN.
Definition MoneyRange (nValue : Z) : bool := (0 <=? nValue) && (nValue <=? MAX_MONEY).
Definition LOCKTIME_THRESHOLD : Z := 500000000.
Definition UINT_MAX : Z := 2 ^ 32 - 1.

(** ** Data *)
Record COutPoint := mk_outpoint { o_hash : Z; o_n : Z }.
Record CTxIn := mk_txin { prevout : COutPoint; scriptSig : bytes; nSequence : Z }.
Record CTxOut := mk_txout { nValue : Z; scriptPubKey : bytes }.
Record CTransaction := mk_tx {
  nVersion : Z; nTime : Z; vin : list CTxIn; vout : list CTxOut; nLockTime : Z }.

#[export] Instance COutPoint_eq_dec : EqDecision COutPoint.
Proof. solve_decision. Defined.
#[export] Instance CTxIn_eq_dec : EqDecision CTxIn.
Proof. solve_decision. Defined.
#[export] Instance CTxOut_eq_dec : EqDecision CTxOut.
Proof. solve_decision. Defined.
#[export] Instance CTransaction_eq_dec : EqDecision CTransaction.
Proof. solve_decision. Defined.
#[export] Instance COutPoint_countable : Countable COutPoint.
Proof.
  refine (inj_countable' (fun o => (o_hash o, o_n o)) (fun p => mk_outpoint p.1 p.2) _).
  by intros [].
Defined.

(** ** [COutPoint] *)
Module OutPoint.
Definition null : COutPoint := mk_outpoint 0 UINT_MAX.
Definition IsNull (o : COutPoint) : bool := (o_hash o =? 0) && (o_n o =? UINT_MAX).
Definition lt (a b : COutPoint) : bool :=
  (o_hash a <? o_hash b) || ((o_hash a =? o_hash b) && (o_n a <? o_n b)).
(** [operator==]. *)
Definition eqb (a b : COutPoint) : bool := (o_hash a =? o_hash b) && (o_n a =? o_n b).
End OutPoint.

(** ** [CTxIn] *)
Definition CTxIn_default : CTxIn := mk_txin OutPoint.null [] UINT_MAX.
Definition IsFinal (i : CTxIn) : bool := nSequence i =? UINT_MAX.

(** ** [CTxOut] *)
Module TxOut.
Definition SetNull : CTxOut := mk_txout (-1) [].
Definition IsNull (o : CTxOut) : bool := nValue o =? -1.
Definition SetEmpty : CTxOut := mk_txout 0 [].
Definition IsEmpty (o : CTxOut) : bool := (nValue o =? 0) && bool_decide (scriptPubKey o = []).
Definition IsUnspendable (o : CTxOut) : bool :=
  IsEmpty o || match scriptPubKey o with b :: _ => uchar b =? OP_RETURN | [] => false end.
End TxOut.

(** ** Serialisation *)
Definition ser_u32 : Ser Z := ser_uint 4.
Definition ser_i32 : Ser Z := ser_sint 4.
Definition ser_i64 : Ser Z := ser_sint 8.
Definition ser_uint256 : Ser Z := ser_uint 32.

(** [FLATDATA( *this)]: the 36 bytes of the object. *)
#[export] Instance ser_outpoint : Ser COutPoint := {|
  put o := @put _ ser_uint256 (o_hash o) ++ @put _ ser_u32 (o_n o);
  get := h ← @get _ ser_uint256; n ← @get _ ser_u32; mret (mk_outpoint h n);
  GetSerializeSize _ := 36 |}.

#[export] Instance ser_txin : Ser CTxIn := {|
  put i := put (prevout i) ++ @put _ ser_bytes (scriptSig i) ++ @put _ ser_u32 (nSequence i);
  get := o ← get; s ← @get _ ser_bytes; q ← @get _ ser_u32; mret (mk_txin o s q);
  GetSerializeSize i :=
    u32 (GetSerializeSize (prevout i) + @GetSerializeSize _ ser_bytes (scriptSig i)
         + @GetSerializeSize _ ser_u32 (nSequence i)) |}.

#[export] Instance ser_txout : Ser CTxOut := {|
  put o := @put _ ser_i64 (nValue o) ++ @put _ ser_bytes (scriptPubKey o);
  get := v ← @get _ ser_i64; s ← @get _ ser_bytes; mret (mk_txout v s);
  GetSerializeSize o :=
    u32 (@GetSerializeSize _ ser_i64 (nValue o) + @GetSerializeSize _ ser_bytes (scriptPubKey o)) |}.

#[export] Instance ser_tx : Ser CTransaction := {|
  put t := @put _ ser_i32 (nVersion t) ++ @put _ ser_u32 (nTime t) ++ put (vin t) ++ put (vout t)
    ++ @put _ ser_u32 (nLockTime t);
  get := ver ← @get _ ser_i32; time ← @get _ ser_u32; i ← get; o ← get; lock ← @get _ ser_u32;
         mret (mk_tx ver time i o lock);
  GetSerializeSize t :=
    u32 (@GetSerializeSize _ ser_i32 (nVersion t) + @GetSerializeSize _ ser_u32 (nTime t)
         + GetSerializeSize (vin t) + GetSerializeSize (vout t)
         + @GetSerializeSize _ ser_u32 (nLockTime t)) |}.

(** ** [CTransaction] *)
Module Tx.
Definition CURRENT_VERSION : Z := 1.
(** [SetNull] takes the adjusted network time. *)
Definition SetNull (adjusted_time : Z) : CTransaction := mk_tx CURRENT_VERSION (u32 adjusted_time) [] [] 0.
Definition IsNull (t : CTransaction) : bool := bool_decide (vin t = []) && bool_decide (vout t = []).
Definition GetHash `{Digests} (t : CTransaction) : Z := SerializeHash t.

Definition IsCoinBase (t : CTransaction) : bool :=
  match vin t with
  | [i] => OutPoint.IsNull (prevout i) && (1 <=? zlen (vout t))
  | _ => false
  end.

(** The first output of a coinstake is empty. *)
Definition IsCoinStake (t : CTransaction) : bool :=
  match vin t, vout t with
  | i :: _, o :: _ :: _ => negb (OutPoint.IsNull (prevout i)) && TxOut.IsEmpty o
  | _, _ => false
  end.

(** The loop of [GetValueOut]; [None] is the exception.  The sum is a signed
    64-bit addition made before the range checks. *)
Fixpoint value_loop (nValueOut : Z) (l : list CTxOut) : option Z :=
  match l with
  | [] => Some nValueOut
  | txout :: l =>
    let nValueOut := i64 (nValueOut + nValue txout) in
    if negb (MoneyRange (nValue txout)) || negb (MoneyRange nValueOut) then None
    else value_loop nValueOut l
  end.
Definition GetValueOut (t : CTransaction) : option Z := value_loop 0 (vout t).
End Tx.

(** ** Facts *)
Module CoreFacts.
(** Values the fields of a transaction can have in memory. *)
Definition wf_outpoint (o : COutPoint) : Prop := in_u 256 (o_hash o) /\ in_u 32 (o_n o).
Definition wf_txin (i : CTxIn) : Prop :=
  wf_outpoint (prevout i) /\ zlen (scriptSig i) <= MAX_SIZE /\ in_u 32 (nSequence i).
Definition wf_txout (o : CTxOut) : Prop := in_s 64 (nValue o) /\ zlen (scriptPubKey o) <= MAX_SIZE.
Definition wf_tx (t : CTransaction) : Prop :=
  in_s 32 (nVersion t) /\ in_u 32 (nTime t) /\
  (zlen (vin t) <= MAX_SIZE /\ Forall wf_txin (vin t)) /\
  (zlen (vout t) <= MAX_SIZE /\ Forall wf_txout (vout t)) /\ in_u 32 (nLockTime t).

#[export] Instance ser_u32_ok : @SerOk Z ser_u32 (in_u 32).
Proof. apply (ser_uint_ok 4). lia. Qed.
#[export] Instance ser_uint256_ok : @SerOk Z ser_uint256 (in_u 256).
Proof. apply (ser_uint_ok 32). lia. Qed.
#[export] Instance ser_i32_ok : @SerOk Z ser_i32 (in_s 32).
Proof. apply (ser_sint_ok 4). lia. Qed.
#[export] Instance ser_i64_ok : @SerOk Z ser_i64 (in_s 64).
Proof. apply (ser_sint_ok 8). lia. Qed.

#[export] Existing Instance ser_bytes_ok.

(** One field of a record read back; its size announced. *)
Ltac read_field := rewrite <- ?app_assoc; erewrite bind_Some by (by apply get_put).
Ltac add_sizes :=
  repeat match goal with
  | |- context [@GetSerializeSize ?A ?S ?x] => rewrite (@size_put A S _ _ x) by (assumption || done)
  end;
  unfold u32; rewrite !zlen_app; Z.div_mod_to_equations; lia.

#[export] Instance ser_outpoint_ok : SerOk COutPoint wf_outpoint.
Proof.
  split.
  - intros [h n] rest [Hh Hn]. cbn [put get ser_outpoint o_hash o_n] in *. by do 2 read_field.
  - intros [h n] _. cbn [put GetSerializeSize ser_outpoint ser_uint256 ser_u32 ser_uint].
    rewrite zlen_app. unfold zlen. by rewrite !length_le_bytes.
Qed.

#[export] Instance ser_txin_ok : SerOk CTxIn wf_txin.
Proof.
  split.
  - intros [o s q] rest (Ho & Hs & Hq).
    cbn [put get ser_txin prevout scriptSig nSequence] in *. by do 3 read_field.
  - intros [o s q] (Ho & Hs & Hq). cbn [put GetSerializeSize ser_txin prevout scriptSig nSequence] in *.
    add_sizes.
Qed.

#[export] Instance ser_txout_ok : SerOk CTxOut wf_txout.
Proof.
  split.
  - intros [v s] rest (Hv & Hs). cbn [put get ser_txout nValue scriptPubKey] in *. by do 2 read_field.
  - intros [v s] (Hv & Hs). cbn [put GetSerializeSize ser_txout nValue scriptPubKey] in *. add_sizes.
Qed.

#[export] Instance ser_tx_ok : SerOk CTransaction wf_tx.
Proof.
  split.
  - intros [ver time i o lock] rest (Hver & Ht & Hi & Ho & Hl).
    cbn [put get ser_tx nVersion nTime vin vout nLockTime] in *. by do 5 read_field.
  - intros [ver time i o lock] (Hver & Ht & Hi & Ho & Hl).
    cbn [put GetSerializeSize ser_tx nVersion nTime vin vout nLockTime] in *. add_sizes.
Qed.

(** A transaction written to a stream is read back unchanged, leaving what
    follows it, and [GetSerializeSize] announces the number of bytes written. *)
Theorem transaction_roundtrip t rest : wf_tx t ->
  get (put t ++ rest) = (Some t, rest) /\ GetSerializeSize t = u32 (zlen (put t)).
Proof. intros Ht. split; [by apply get_put|by apply (size_put t)]. Qed.

Definition sample_tx : CTransaction :=
  mk_tx 1 1400000000 [mk_txin (mk_outpoint 77 0) [B#1; B#2] UINT_MAX] [mk_txout 50 [B#0x6a]; mk_txout 0 []] 0.

Lemma sample_tx_wf : wf_tx sample_tx.
Proof.
  unfold wf_tx, wf_txin, wf_txout, wf_outpoint, in_u, in_s, sample_tx, UINT_MAX, MAX_SIZE. simpl.
  repeat (split || constructor); simpl; lia || (unfold zlen; simpl; lia).
Qed.

Lemma transaction_roundtrip_witness :
  get (put sample_tx ++ [B#9]) = (Some sample_tx, [B#9]) /\ GetSerializeSize sample_tx = u32 (zlen (put sample_tx)).
Proof. apply (transaction_roundtrip sample_tx [B#9] sample_tx_wf). Defined.

(** *** [GetValueOut] *)
Definition sum_out (l : list CTxOut) : Z := foldr (fun o z => nValue o + z) 0 l.

Lemma MoneyRange_spec v : MoneyRange v = true <-> 0 <= v <= MAX_MONEY.
Proof. unfold MoneyRange. rewrite andb_true_iff, !Z.leb_le. done. Qed.

Lemma MAX_MONEY_eq : MAX_MONEY = 9000000000000000.
Proof. done. Qed.

Lemma i64_id z : - 2 ^ 63 <= z < 2 ^ 63 -> i64 z = z.
Proof. intros. unfold i64. apply swrap_id; [lia|]. unfold in_s. simpl in *. lia. Qed.

Lemma sum_out_nonneg l : forallb (fun o => MoneyRange (nValue o)) l = true -> 0 <= sum_out l.
Proof.
  induction l as [|o l IH]; [done|]. simpl. intros [H1%MoneyRange_spec H2]%andb_true_iff.
  specialize (IH H2). lia.
Qed.

Lemma value_loop_spec acc l : 0 <= acc <= MAX_MONEY -> Forall (fun o => in_s 64 (nValue o)) l ->
  Tx.value_loop acc l =
    if forallb (fun o => MoneyRange (nValue o)) l && (acc + sum_out l <=? MAX_MONEY)
    then Some (acc + sum_out l) else None.
Proof.
  intros Hacc Hl. revert acc Hacc. induction Hl as [|o l Ho Hl IH]; intros acc Hacc; cbn [Tx.value_loop forallb].
  { change (sum_out []) with 0. rewrite Z.add_0_r. by destruct (Z.leb_spec acc MAX_MONEY); [|lia]. }
  change (sum_out (o :: l)) with (nValue o + sum_out l).
  destruct (MoneyRange (nValue o)) eqn:Eo; simpl; [|done].
  apply MoneyRange_spec in Eo. rewrite MAX_MONEY_eq in *. rewrite i64_id by lia.
  destruct (MoneyRange (acc + nValue o)) eqn:Ea; simpl.
  - apply MoneyRange_spec in Ea. rewrite MAX_MONEY_eq in Ea. rewrite IH by lia. by rewrite Z.add_assoc.
  - destruct (forallb _ l) eqn:El; simpl; [|done]. apply sum_out_nonneg in El.
    destruct (Z.leb_spec (acc + (nValue o + sum_out l)) 9000000000000000); [|done].
    exfalso. apply not_true_iff_false in Ea. apply Ea, MoneyRange_spec. rewrite MAX_MONEY_eq. lia.
Qed.

(** [GetValueOut] gives the exact sum of the output values when every value and
    the total are within the money range, and throws otherwise; no 64-bit
    overflow hides in the running sum. *)
Theorem GetValueOut_spec t : Forall (fun o => in_s 64 (nValue o)) (vout t) ->
  Tx.GetValueOut t =
    if forallb (fun o => MoneyRange (nValue o)) (vout t) && (sum_out (vout t) <=? MAX_MONEY)
    then Some (sum_out (vout t)) else None.
Proof.
  intros Ht. unfold Tx.GetValueOut. rewrite value_loop_spec by (rewrite ?MAX_MONEY_eq; done || lia). done.
Qed.

Lemma GetValueOut_spec_witness : Tx.GetValueOut sample_tx = Some 50.
Proof.
  rewrite (GetValueOut_spec sample_tx); [by vm_compute|]. unfold in_s. simpl. repeat constructor; simpl; lia.
Defined.
End CoreFacts.
Export CoreFacts.
