(* ===== verification/SigHash.v ===== *)
(** * SigHash: signature hashes, the signature cache and [CheckSig] (src/src/script.cpp) *)

From S2P Require Import Prelude BigNum ScriptOps Serialize Crypto Keys Core.

(** ** [SignatureHash] *)
Module SignatureHash_.
(** The changes made to the copy [txTmp]. *)
Definition blank_input (i : CTxIn) : CTxIn := mk_txin (prevout i) [] (nSequence i).
Definition with_script (i : CTxIn) (s : bytes) : CTxIn := mk_txin (prevout i) s (nSequence i).
Definition zero_sequence (i : CTxIn) : CTxIn := mk_txin (prevout i) (scriptSig i) 0.

(** [for (i...) if (i != nIn) vin[i].nSequence = 0;] *)
Definition zero_others (nIn : nat) (l : list CTxIn) : list CTxIn :=
  imap (fun i x => if decide (i = nIn) then x else zero_sequence x) l.

(** [vout.resize(nOut+1)] with the outputs before [nOut] set null. *)
Definition keep_single (nOut : nat) (l : list CTxOut) : list CTxOut :=
  imap (fun i o => if decide (i < nOut)%nat then TxOut.SetNull else o) (take (nOut + 1) l).

Definition OP_CODESEPARATOR_script : bytes := [B#OP_CODESEPARATOR].

(** The transaction that is hashed; [None] where the code returns the constant 1. *)
Definition masked_tx (scriptCode : bytes) (txTo : CTransaction) (nIn : nat) (nHashType : Z) : option CTransaction :=
  if (length (vin txTo) <=? nIn)%nat then None else
  let scriptCode := (CScript.FindAndDelete scriptCode OP_CODESEPARATOR_script).2 in
  let vin1 := imap (fun i x => if decide (i = nIn) then with_script x scriptCode else blank_input x) (vin txTo) in
  let base := Z.land nHashType 0x1f in
  let r :=
    if base =? SIGHASH_NONE then Some (zero_others nIn vin1, [])
    else if base =? SIGHASH_SINGLE then
      if (length (vout txTo) <=? nIn)%nat then None
      else Some (zero_others nIn vin1, keep_single nIn (vout txTo))
    else Some (vin1, vout txTo) in
  match r with
  | None => None
  | Some (vin2, vout2) =>
    let vin3 := if has_flag nHashType SIGHASH_ANYONECANPAY
                then match vin2 !! nIn with Some x => [x] | None => vin2 end else vin2 in
    Some (mk_tx (nVersion txTo) (nTime txTo) vin3 vout2 (nLockTime txTo))
  end.

(** The bytes hashed: [ss << txTmp << nHashType]. *)
Definition preimage (scriptCode : bytes) (txTo : CTransaction) (nIn : nat) (nHashType : Z) : option bytes :=
  match masked_tx scriptCode txTo nIn nHashType with
  | None => None
  | Some txTmp => Some (put txTmp ++ @put _ ser_i32 nHashType)
  end.

Definition SignatureHash `{Digests} (scriptCode : bytes) (txTo : CTransaction) (nIn : nat) (nHashType : Z) : Z :=
  match preimage scriptCode txTo nIn nHashType with
  | None => 1
  | Some b => CHashWriter_GetHash (CHashWriter_write [] b)
  end.
End SignatureHash_.
Import SignatureHash_.

(** ** The cache of valid signatures

    A [std::set] of (signature hash, signature, public key), kept as its sorted
    sequence; [GetRandHash] is the [k]-th value the random generator gives. *)
Abbreviation sigdata := (Z * bytes * CPubKey)%type.
Record CSignatureCache := mk_cache { setValid : list sigdata; rand_calls : nat }.

Module SigCache.
(** [std::vector<unsigned char>::operator<]. *)
Fixpoint vector_lt (a b : bytes) : bool :=
  match a, b with
  | _, [] => false
  | [], _ :: _ => true
  | x :: a, y :: b =>
    if uchar x <? uchar y then true else if uchar y <? uchar x then false else vector_lt a b
  end.

(** Lexicographic order of [boost::tuple]. *)
Definition lt (a b : sigdata) : bool :=
  let '(h1, s1, p1) := a in let '(h2, s2, p2) := b in
  if h1 <? h2 then true else if h2 <? h1 then false else
  if vector_lt s1 s2 then true else if vector_lt s2 s1 then false else
  PubKey.operator_lt p1 p2.

Definition equivalent (a b : sigdata) : bool := negb (lt a b) && negb (lt b a).

(** [set::find], [set::insert], [set::lower_bound] on the sorted sequence. *)
Definition find_ (k : sigdata) (l : list sigdata) : bool := existsb (equivalent k) l.
Fixpoint insert_ (k : sigdata) (l : list sigdata) : list sigdata :=
  match l with
  | [] => [k]
  | x :: r => if lt k x then k :: l else if lt x k then x :: insert_ k r else l
  end.
(** Erases the first element not less than [k], or the first one when there is none. *)
Fixpoint erase_from (k : sigdata) (l : list sigdata) : option (list sigdata) :=
  match l with
  | [] => None
  | x :: r => if lt x k then match erase_from k r with Some r => Some (x :: r) | None => None end else Some r
  end.
Definition evict (randomHash : Z) (l : list sigdata) : list sigdata :=
  match erase_from (randomHash, [], PubKey.Invalidate) l with
  | Some l => l
  | None => tail l
  end.

Section cache.
Variable GetRandHash : nat -> Z.
Variable nMaxCacheSize : Z.

(** The eviction loop runs once per entry at most. *)
Fixpoint evict_loop (fuel : nat) (c : CSignatureCache) : CSignatureCache :=
  if zlen (setValid c) <=? nMaxCacheSize then c else
  match fuel with
  | O => c
  | S fuel =>
    evict_loop fuel (mk_cache (evict (GetRandHash (rand_calls c)) (setValid c)) (S (rand_calls c)))
  end.

Definition Get (c : CSignatureCache) (hash : Z) (vchSig : bytes) (pubKey : CPubKey) : bool :=
  find_ (hash, vchSig, pubKey) (setValid c).

Definition Set_entry (c : CSignatureCache) (hash : Z) (vchSig : bytes) (pubKey : CPubKey) : CSignatureCache :=
  if nMaxCacheSize <=? 0 then c else
  let c := evict_loop (length (setValid c)) c in
  mk_cache (insert_ (hash, vchSig, pubKey) (setValid c)) (rand_calls c).
End cache.
End SigCache.

(** What the verifier takes from its environment: the random hashes and
    [GetArg("-maxsigcachesize", 50000)]. *)
Class SigEnv := { GetRandHash : nat -> Z; max_sig_cache : Z }.

(** ** [CheckSig] *)
Section checksig.
Context `{Digests} `{ECLib} `{SigEnv}.

(** The hash type byte and the signature without it; [None] where the code returns false. *)
Definition split_hashtype (vchSig : bytes) (nHashType : Z) : option (Z * bytes) :=
  match last vchSig with
  | None => None
  | Some b =>
    if nHashType =? 0 then Some (uchar b, pop_back vchSig)
    else if negb (nHashType =? uchar b) then None
    else Some (nHashType, pop_back vchSig)
  end.

Definition CheckSig (vchSig vchPubKey scriptCode : bytes) (txTo : CTransaction) (nIn : nat)
    (nHashType flags : Z) (cache : CSignatureCache) : bool * CSignatureCache :=
  let pubkey := PubKey.Set_ vchPubKey in
  if negb (PubKey.IsValid pubkey) then (false, cache) else
  match split_hashtype vchSig nHashType with
  | None => (false, cache)
  | Some (nHashType, vchSig) =>
    let sighash := SignatureHash scriptCode txTo nIn nHashType in
    if SigCache.Get cache sighash vchSig pubkey then (true, cache)
    else if negb (PubKey.Verify pubkey sighash vchSig) then (false, cache)
    else if negb (has_flag flags SCRIPT_VERIFY_NOCACHE)
    then (true, SigCache.Set_entry GetRandHash max_sig_cache cache sighash vchSig pubkey)
    else (true, cache)
  end.

(** The specification: what a signature check means, with no cache. *)
Definition sig_valid (vchSig vchPubKey scriptCode : bytes) (txTo : CTransaction) (nIn : nat) (nHashType : Z) : bool :=
  let pubkey := PubKey.Set_ vchPubKey in
  PubKey.IsValid pubkey &&
  match split_hashtype vchSig nHashType with
  | None => false
  | Some (nHashType, vchSig) => PubKey.Verify pubkey (SignatureHash scriptCode txTo nIn nHashType) vchSig
  end.
End checksig.

(** ** The cache is transparent and bounded *)
Module SigCacheFacts.
Import SigCache.

Lemma vector_lt_total a b : vector_lt a b = false -> vector_lt b a = false -> a = b.
Proof.
  revert b. induction a as [|x a IH]; intros [|y b]; simpl; try done.
  destruct (Z.ltb_spec (uchar x) (uchar y)); [done|]. destruct (Z.ltb_spec (uchar y) (uchar x)); [done|].
  intros H1 H2. f_equal; [apply uchar_inj; lia|by apply IH].
Qed.

Lemma memcmp_eq a b : length a = length b -> PubKey.memcmp a b = Eq -> a = b.
Proof.
  revert b. induction a as [|x a IH]; intros [|y b] Hl; simpl; try done. simpl in Hl.
  destruct (Z.compare_spec (uchar x) (uchar y)) as [E| |]; [|done|done].
  intros Hm. f_equal; [by apply uchar_inj|apply IH; [lia|done]].
Qed.

Lemma memcmp_antisym a b : length a = length b -> PubKey.memcmp b a = CompOpp (PubKey.memcmp a b).
Proof.
  revert b. induction a as [|x a IH]; intros [|y b] Hl; simpl; try done. simpl in Hl.
  rewrite Z.compare_antisym. destruct (uchar x ?= uchar y); simpl; [apply IH; lia|done|done].
Qed.

(** A key as the constructors leave it: its length is the one its header says. *)
Definition pubkey_wf (pk : CPubKey) : Prop := zlen pk = PubKey.size pk /\ 0 < PubKey.size pk.

Lemma Set_wf v : PubKey.IsValid (PubKey.Set_ v) = true -> pubkey_wf (PubKey.Set_ v).
Proof.
  unfold PubKey.IsValid, pubkey_wf. intros Hv. apply Z.ltb_lt in Hv. split; [|done]. revert Hv.
  unfold PubKey.Set_. destruct v as [|b v]; [done|].
  destruct (negb _ && _) eqn:E; [|done]. apply andb_true_iff in E as [_ E].
  apply Z.eqb_eq in E. intros _. unfold PubKey.size. simpl. by rewrite <- E.
Qed.

Lemma pubkey_lt_total p q : pubkey_wf p -> pubkey_wf q ->
  PubKey.operator_lt p q = false -> PubKey.operator_lt q p = false -> p = q.
Proof.
  unfold pubkey_wf, PubKey.operator_lt, PubKey.size. intros [Hp Hp0] [Hq Hq0].
  rewrite !orb_false_iff, !Z.ltb_ge, !andb_false_iff. intros [H1 H2] [H3 H4].
  assert (PubKey.header p = PubKey.header q) as Eh by lia. rewrite Eh, Z.eqb_refl in *.
  assert (length p = length q) as El by (unfold zlen in *; lia).
  destruct H2 as [|H2]; [done|]. destruct H4 as [|H4]; [done|]. rewrite (memcmp_antisym p q El) in H4.
  apply memcmp_eq; [done|]. by destruct (PubKey.memcmp p q).
Qed.

Lemma equivalent_eq h1 s1 p1 h2 s2 p2 : pubkey_wf p1 -> pubkey_wf p2 ->
  equivalent (h1, s1, p1) (h2, s2, p2) = true -> (h1, s1, p1) = (h2, s2, p2).
Proof.
  intros Hp1 Hp2. unfold equivalent, lt. rewrite andb_true_iff, !negb_true_iff.
  destruct (Z.ltb_spec h1 h2); [by intros []|]. destruct (Z.ltb_spec h2 h1); [by intros []|].
  destruct (vector_lt s1 s2) eqn:V1; [by intros []|]. destruct (vector_lt s2 s1) eqn:V2; [by intros []|].
  intros [H1 H2]. rewrite (vector_lt_total _ _ V1 V2), (pubkey_lt_total _ _ Hp1 Hp2 H1 H2).
  f_equal. f_equal. lia.
Qed.

Lemma erase_from_sublist k l l' : erase_from k l = Some l' -> l' `sublist_of` l /\ length l = S (length l').
Proof.
  revert l'. induction l as [|x l IH]; intros l'; simpl; [done|].
  destruct (lt x k).
  - destruct (erase_from k l) as [r|]; [|done]. intros [= <-]. destruct (IH r eq_refl) as [Hs Hl].
    split; [by constructor|simpl; lia].
  - intros [= <-]. split; [by constructor|done].
Qed.

Lemma evict_sublist h l : evict h l `sublist_of` l /\ (length (evict h l) = length l - 1)%nat.
Proof.
  unfold evict. destruct (erase_from _ l) as [l'|] eqn:E.
  - apply erase_from_sublist in E as [Hs Hl]. split; [done|lia].
  - destruct l; simpl; split; try done; [by constructor|lia].
Qed.

Lemma evict_loop_spec rnd mx fuel c : (length (setValid c) <= fuel)%nat -> 0 <= mx ->
  let c' := evict_loop rnd mx fuel c in
  setValid c' `sublist_of` setValid c /\ zlen (setValid c') <= mx.
Proof.
  revert c. induction fuel as [|fuel IH]; intros c Hf Hmx; cbn [evict_loop];
    destruct (Z.leb_spec (zlen (setValid c)) mx) as [Hle|Hgt]; try (by split).
  - unfold zlen in Hgt. lia.
  - set (c1 := mk_cache _ _).
    destruct (evict_sublist (rnd (rand_calls c)) (setValid c)) as [Hs Hl].
    destruct (IH c1) as [H1 H2]; [|done|].
    + simpl. unfold zlen in Hgt. lia.
    + split; [|done]. etransitivity; [exact H1|exact Hs].
Qed.

Lemma insert_spec k l (P : sigdata -> Prop) : P k -> Forall P l ->
  Forall P (insert_ k l) /\ (length (insert_ k l) <= S (length l))%nat.
Proof.
  intros Hk Hl. induction Hl as [|x l Hx Hl [IH1 IH2]]; simpl.
  - split; [by constructor|lia].
  - destruct (lt k x); [split; [by repeat constructor|simpl; lia]|].
    destruct (lt x k); [split; [by constructor|simpl; lia]|].
    split; [by constructor|simpl; lia].
Qed.

Section transparency.
Context `{Digests} `{ECLib} `{SigEnv}.

Definition entry_ok (e : sigdata) : Prop :=
  pubkey_wf e.2 /\ PubKey.Verify e.2 e.1.1 e.1.2 = true.
(** Only verified signatures are in the cache, and it has its bounded size. *)
Definition cache_ok (c : CSignatureCache) : Prop :=
  Forall entry_ok (setValid c) /\ zlen (setValid c) <= Z.max 0 (max_sig_cache + 1).

Lemma Get_sound c h sig pk : cache_ok c -> pubkey_wf pk -> Get c h sig pk = true ->
  PubKey.Verify pk h sig = true.
Proof.
  intros [Hc _] Hpk Hg. unfold Get, find_ in Hg. apply existsb_exists in Hg as ([[h' s'] p'] & Hin & He).
  apply list_elem_of_In in Hin. rewrite Forall_forall in Hc. destruct (Hc _ Hin) as [Hwf Hv].
  by apply equivalent_eq in He as [= -> -> ->].
Qed.

Lemma Set_entry_ok c h sig pk : cache_ok c -> pubkey_wf pk -> PubKey.Verify pk h sig = true ->
  cache_ok (Set_entry GetRandHash max_sig_cache c h sig pk).
Proof.
  intros [Hc Hs] Hpk Hv. unfold Set_entry. destruct (Z.leb_spec max_sig_cache 0); [done|].
  destruct (evict_loop_spec GetRandHash max_sig_cache (length (setValid c)) c) as [Hsub Hlen]; [lia|lia|].
  set (c' := evict_loop _ _ _ _) in *.
  destruct (insert_spec (h, sig, pk) (setValid c') entry_ok) as [Hok Hins].
  - by split.
  - apply Forall_forall. intros e He. rewrite Forall_forall in Hc. apply Hc.
    exact (elem_of_sublist _ _ _ He Hsub).
  - split; [exact Hok|]. simpl. unfold zlen in *. lia.
Qed.

(** One check: the cache does not change the verdict, and stays sound and bounded. *)
Lemma CheckSig_spec sig pk script tx nIn ht flags c : cache_ok c ->
  (CheckSig sig pk script tx nIn ht flags c).1 = sig_valid sig pk script tx nIn ht /\
  cache_ok (CheckSig sig pk script tx nIn ht flags c).2.
Proof.
  intros Hc. unfold CheckSig, sig_valid.
  destruct (PubKey.IsValid (PubKey.Set_ pk)) eqn:Epk; [|by split].
  apply Set_wf in Epk. destruct (split_hashtype sig ht) as [[ht' sig']|]; [|by split].
  simpl. set (h := SignatureHash _ _ _ _).
  destruct (Get c h sig' (PubKey.Set_ pk)) eqn:Eg.
  { split; [|done]. by rewrite (Get_sound c h sig' _ Hc Epk Eg). }
  destruct (PubKey.Verify (PubKey.Set_ pk) h sig') eqn:Ev; [|by split]. simpl.
  destruct (has_flag flags SCRIPT_VERIFY_NOCACHE); simpl; [by split|].
  split; [done|]. by apply Set_entry_ok.
Qed.

(** A run of checks, the cache threaded through. *)
Record request := mk_request {
  r_sig : bytes; r_pk : bytes; r_script : bytes; r_tx : CTransaction; r_nIn : nat; r_ht : Z; r_flags : Z }.
Fixpoint run_checks (l : list request) (c : CSignatureCache) : list bool * CSignatureCache :=
  match l with
  | [] => ([], c)
  | r :: l =>
    let '(b, c) := CheckSig (r_sig r) (r_pk r) (r_script r) (r_tx r) (r_nIn r) (r_ht r) (r_flags r) c in
    let '(bs, c) := run_checks l c in (b :: bs, c)
  end.

(** C24. The signature cache never changes a verdict: along any sequence of checks
    that starts from a cache of verified signatures, every [CheckSig] answers
    what the check means without a cache, whatever the random evictions and
    the flags, and the cache keeps to verified signatures and to at most
    [-maxsigcachesize] + 1 entries. *)
Theorem CheckSig_transparent l c : cache_ok c ->
  (run_checks l c).1 =
    map (fun r => sig_valid (r_sig r) (r_pk r) (r_script r) (r_tx r) (r_nIn r) (r_ht r)) l /\
  cache_ok (run_checks l c).2.
Proof.
  revert c. induction l as [|r l IH]; intros c Hc; [by split|]. simpl.
  pose proof (CheckSig_spec (r_sig r) (r_pk r) (r_script r) (r_tx r) (r_nIn r) (r_ht r) (r_flags r) c Hc) as [E Hc'].
  destruct (CheckSig _ _ _ _ _ _ _ c) as [b c']. simpl in E, Hc'.
  destruct (IH c' Hc') as [E2 Hc2]. destruct (run_checks l c') as [bs c2]. simpl in *. by rewrite E, E2.
Qed.
End transparency.

Definition toy_env : SigEnv := {| GetRandHash k := Z.of_nat k; max_sig_cache := 2 |}.
Definition empty_cache : CSignatureCache := mk_cache [] 0.
Lemma empty_cache_ok `{Digests} `{ECLib} `{SigEnv} : cache_ok empty_cache.
Proof. split; [constructor|]. simpl. unfold zlen. simpl. lia. Qed.

(** A signature the toy curve accepts, for the 33-byte key of the sample input. *)
Definition toy_sig (tx : CTransaction) (script : bytes) : bytes :=
  B#1 :: le_bytes 32 (@SignatureHash dummy_digests script tx 0 1) ++ [B#1].
Definition toy_pk : bytes := B#2 :: replicate 32 B#1.

Lemma CheckSig_transparent_witness :
  let req := mk_request (toy_sig sample_tx []) toy_pk [] sample_tx 0 0 0 in
  let r := @run_checks dummy_digests dummy_ec toy_env [req; req] empty_cache in
  r.1 = [true; true] /\ length (setValid r.2) = 1%nat.
Proof.
  cbv zeta. split; [|by vm_compute].
  rewrite (proj1 (@CheckSig_transparent dummy_digests dummy_ec toy_env
    [mk_request (toy_sig sample_tx []) toy_pk [] sample_tx 0 0 0;
     mk_request (toy_sig sample_tx []) toy_pk [] sample_tx 0 0 0]
    empty_cache (@empty_cache_ok dummy_digests dummy_ec toy_env))). by vm_compute.
Defined.
End SigCacheFacts.
Export SigCacheFacts.

(** ** What a signature commits to *)
Module SigHashFacts.
(** Two transactions that differ in input scripts only. *)
Definition same_but_scripts (tx tx' : CTransaction) : Prop :=
  nVersion tx = nVersion tx' /\ nTime tx = nTime tx' /\ nLockTime tx = nLockTime tx' /\
  vout tx = vout tx' /\ map blank_input (vin tx) = map blank_input (vin tx').

Definition blank_with (sc : bytes) (nIn : nat) (l : list CTxIn) : list CTxIn :=
  imap (fun i x => if decide (i = nIn) then with_script x sc else blank_input x) l.

Lemma blank_with_map sc nIn l : blank_with sc nIn l = blank_with sc nIn (map blank_input l).
Proof.
  unfold blank_with. rewrite imap_fmap. apply imap_ext. intros i x _. simpl. by destruct (decide (i = nIn)).
Qed.

Lemma masked_tx_same sc tx tx' nIn ht : same_but_scripts tx tx' ->
  masked_tx sc tx nIn ht = masked_tx sc tx' nIn ht.
Proof.
  intros (E1 & E2 & E3 & E4 & E5). unfold masked_tx. fold (blank_with (CScript.FindAndDelete sc OP_CODESEPARATOR_script).2 nIn (vin tx)).
  fold (blank_with (CScript.FindAndDelete sc OP_CODESEPARATOR_script).2 nIn (vin tx')).
  rewrite (blank_with_map _ _ (vin tx)), (blank_with_map _ _ (vin tx')), E5, E1, E2, E3, E4.
  assert (length (vin tx) = length (vin tx')) as -> by (apply (f_equal length) in E5; by rewrite !length_map in E5).
  done.
Qed.

Lemma zero_others_blank nIn sc l :
  zero_others nIn (blank_with sc nIn l) =
  imap (fun i x => if decide (i = nIn) then with_script x sc else mk_txin (prevout x) [] 0) l.
Proof.
  unfold zero_others, blank_with. apply list_eq. intros i. rewrite !list_lookup_imap.
  destruct (l !! i) as [x|]; [|done]. simpl. by destruct (decide (i = nIn)).
Qed.

Lemma lookup_map_eq {B} (f : CTxIn -> B) l l' i : map f l = map f l' -> f <$> l !! i = f <$> l' !! i.
Proof. intros E. pose proof (f_equal (.!! i) E) as Ei. by rewrite !list_lookup_fmap in Ei. Qed.

Lemma zero_others_same nIn sc l l' : map prevout l = map prevout l' ->
  nSequence <$> l !! nIn = nSequence <$> l' !! nIn ->
  zero_others nIn (blank_with sc nIn l) = zero_others nIn (blank_with sc nIn l').
Proof.
  intros Ep Es. rewrite !zero_others_blank. apply list_eq. intros i. rewrite !list_lookup_imap.
  pose proof (lookup_map_eq prevout l l' i Ep) as Ei. 
  destruct (decide (i = nIn)) as [->|].
  - destruct (l !! nIn) as [x|], (l' !! nIn) as [x'|]; simpl in *; try done.
    unfold with_script. by simplify_eq; rewrite H, H0 || congruence.
  - destruct (l !! i) as [x|], (l' !! i) as [x'|]; simpl in *; try done. congruence.
Qed.

Lemma blank_with_at sc nIn l x : l !! nIn = Some x -> blank_with sc nIn l !! nIn = Some (with_script x sc).
Proof. intros E. unfold blank_with. rewrite list_lookup_imap, E. simpl. by destruct (decide (nIn = nIn)). Qed.

(** The hash with any type is the same whatever the input scripts of the transaction are:
    a signature can be put into a script it signs. *)
Lemma SignatureHash_ignores_scripts `{Digests} sc tx tx' nIn ht : same_but_scripts tx tx' ->
  SignatureHash sc tx nIn ht = SignatureHash sc tx' nIn ht.
Proof. intros Hs. unfold SignatureHash, preimage. by rewrite (masked_tx_same sc tx tx' nIn ht Hs). Qed.

(** What a signature leaves open: with any hash type the input scripts; with
    SIGHASH_NONE all outputs and the sequence numbers of the other inputs; with
    SIGHASH_ANYONECANPAY (and all outputs) every other input and the
    position of the signed one. *)
Theorem SignatureHash_leaves_open `{Digests} sc tx tx' nIn nIn' ht :
  nVersion tx = nVersion tx' -> nTime tx = nTime tx' -> nLockTime tx = nLockTime tx' ->
  (vout tx = vout tx' /\ map blank_input (vin tx) = map blank_input (vin tx') /\ nIn = nIn' \/
   Z.land ht 0x1f = SIGHASH_NONE /\ map prevout (vin tx) = map prevout (vin tx') /\ nIn = nIn' /\
     nSequence <$> vin tx !! nIn = nSequence <$> vin tx' !! nIn \/
   has_flag ht SIGHASH_ANYONECANPAY = true /\ Z.land ht 0x1f = SIGHASH_ALL /\ vout tx = vout tx' /\
     exists x x', vin tx !! nIn = Some x /\ vin tx' !! nIn' = Some x' /\ blank_input x = blank_input x') ->
  SignatureHash sc tx nIn ht = SignatureHash sc tx' nIn' ht.
Proof.
  intros E1 E2 E3 [(E4 & E5 & ->)|[(Eb & Ep & -> & Es)|(Ea & Eb & Eo & x & x' & Hx & Hx' & Exx)]].
  - by apply SignatureHash_ignores_scripts.
  - unfold SignatureHash, preimage, masked_tx. rewrite Eb, E1, E2, E3.
    fold (blank_with (CScript.FindAndDelete sc OP_CODESEPARATOR_script).2 nIn' (vin tx)).
    fold (blank_with (CScript.FindAndDelete sc OP_CODESEPARATOR_script).2 nIn' (vin tx')).
    assert (length (vin tx) = length (vin tx')) as -> by (apply (f_equal length) in Ep; by rewrite !length_map in Ep).
    cbv zeta. change (SIGHASH_NONE =? SIGHASH_NONE) with true. cbv iota.
    by rewrite (zero_others_same nIn' _ _ _ Ep Es).
  - unfold SignatureHash, preimage, masked_tx. rewrite Eb, Ea, E1, E2, E3, Eo.
    fold (blank_with (CScript.FindAndDelete sc OP_CODESEPARATOR_script).2 nIn (vin tx)).
    fold (blank_with (CScript.FindAndDelete sc OP_CODESEPARATOR_script).2 nIn' (vin tx')).
    cbv zeta. change (SIGHASH_ALL =? SIGHASH_NONE) with false. change (SIGHASH_ALL =? SIGHASH_SINGLE) with false.
    cbv iota. rewrite (blank_with_at _ _ _ _ Hx), (blank_with_at _ _ _ _ Hx').
    apply lookup_lt_Some in Hx, Hx'.
    destruct (Nat.leb_spec (length (vin tx)) nIn); [lia|]. destruct (Nat.leb_spec (length (vin tx')) nIn'); [lia|].
    unfold with_script. injection Exx as -> ->. done.
Qed.

(** *** What it commits to *)
Lemma put_inj {A} `{Ser A} (fits : A -> Prop) `{!SerOk A fits} a1 a2 r1 r2 :
  fits a1 -> fits a2 -> put a1 ++ r1 = put a2 ++ r2 -> a1 = a2 /\ r1 = r2.
Proof.
  intros F1 F2 E. pose proof (get_put a1 r1 F1) as G1. pose proof (get_put a2 r2 F2) as G2.
  rewrite E in G1. rewrite G1 in G2. by simplify_eq.
Qed.

Lemma blank_with_inj sc sc' n n' l l' : (n < length l)%nat -> (n' < length l')%nat -> sc <> [] -> sc' <> [] ->
  blank_with sc n l = blank_with sc' n' l' -> map blank_input l = map blank_input l' /\ n = n' /\ sc = sc'.
Proof.
  intros Hn Hn' Hsc Hsc' E.
  assert (forall i, blank_input <$> (blank_with sc n l !! i) = blank_input <$> l !! i) as B.
  { intros i. unfold blank_with. rewrite list_lookup_imap. destruct (l !! i); [|done]. simpl. by destruct (decide (i = n)). }
  assert (forall i, blank_input <$> (blank_with sc' n' l' !! i) = blank_input <$> l' !! i) as B'.
  { intros i. unfold blank_with. rewrite list_lookup_imap. destruct (l' !! i); [|done]. simpl. by destruct (decide (i = n')). }
  assert (map blank_input l = map blank_input l') as El.
  { apply list_eq. intros i. change (map blank_input l) with (blank_input <$> l). change (map blank_input l') with (blank_input <$> l').
    rewrite !list_lookup_fmap. rewrite <- B, <- B', E. done. }
  split; [done|]. assert (length l = length l') as Hl by (apply (f_equal length) in El; by rewrite !length_map in El).
  destruct (lookup_lt_is_Some_2 l n Hn) as [x Hx].
  pose proof (blank_with_at sc n l x Hx) as Ax. rewrite E in Ax. unfold blank_with in Ax.
  rewrite list_lookup_imap in Ax. destruct (l' !! n) as [x'|]; [|done]. simpl in Ax.
  destruct (decide (n = n')) as [<-|]; injection Ax as _ Es _; [done|]. by destruct Hsc.
Qed.

Definition sighash_wf (sc : bytes) (tx : CTransaction) (nIn : nat) : Prop :=
  wf_tx tx /\ zlen sc <= MAX_SIZE /\ (nIn < length (vin tx))%nat /\
  (CScript.FindAndDelete sc OP_CODESEPARATOR_script).2 <> [].

Lemma wf_blank_with sc tx nIn : sighash_wf sc tx nIn ->
  wf_tx (mk_tx (nVersion tx) (nTime tx)
    (blank_with (CScript.FindAndDelete sc OP_CODESEPARATOR_script).2 nIn (vin tx)) (vout tx) (nLockTime tx)).
Proof.
  intros ((Hv & Ht & [Hl Hi] & Ho & Hk) & Hs & Hn & _). unfold wf_tx.
  cbn [nVersion nTime vin vout nLockTime]. split; [done|]. split; [done|]. split; [|by split].
  unfold blank_with. split; [unfold zlen; by rewrite length_imap|].
  apply Forall_forall. intros y (i & x & -> & Hx)%elem_of_lookup_imap_1.
  rewrite Forall_forall in Hi. destruct (Hi x) as (H1 & H2 & H3); [by eapply list_elem_of_lookup_2|].
  pose proof (FindAndDelete_length sc OP_CODESEPARATOR_script).
  destruct (decide (i = nIn)); unfold wf_txin, with_script, blank_input; cbn [prevout scriptSig nSequence]; (split; [done|split; [|done]]).
  - etransitivity; [apply inj_le, FindAndDelete_length|exact Hs].
  - unfold zlen, MAX_SIZE. simpl. lia.
Qed.

(** C40. What a signature commits to: with SIGHASH_ALL (any type that is neither NONE,
    SINGLE nor ANYONECANPAY) two signing requests hash the same bytes only if
    they agree on the hash type, the input signed, the script code, and the
    whole transaction up to its input scripts. *)
Theorem SignatureHash_all_commits sc sc' tx tx' nIn nIn' ht ht' :
  sighash_wf sc tx nIn -> sighash_wf sc' tx' nIn' -> in_s 32 ht -> in_s 32 ht' ->
  (forall h, h = ht \/ h = ht' ->
    Z.land h 0x1f <> SIGHASH_NONE /\ Z.land h 0x1f <> SIGHASH_SINGLE /\ has_flag h SIGHASH_ANYONECANPAY = false) ->
  preimage sc tx nIn ht = preimage sc' tx' nIn' ht' ->
  ht = ht' /\ nIn = nIn' /\ same_but_scripts tx tx' /\
  (CScript.FindAndDelete sc OP_CODESEPARATOR_script).2 = (CScript.FindAndDelete sc' OP_CODESEPARATOR_script).2.
Proof.
  intros W W' Hh Hh' Hty. destruct (Hty ht) as (T1 & T2 & T3); [by left|].
  destruct (Hty ht') as (T1' & T2' & T3'); [by right|].
  pose proof (wf_blank_with _ _ _ W) as V. pose proof (wf_blank_with _ _ _ W') as V'.
  destruct W as (_ & _ & Hn & Hsc). destruct W' as (_ & _ & Hn' & Hsc').
  unfold preimage, masked_tx. rewrite (proj2 (Nat.leb_gt _ _) Hn), (proj2 (Nat.leb_gt _ _) Hn').
  rewrite (proj2 (Z.eqb_neq _ _) T1), (proj2 (Z.eqb_neq _ _) T2), T3.
  rewrite (proj2 (Z.eqb_neq _ _) T1'), (proj2 (Z.eqb_neq _ _) T2'), T3'.
  fold (blank_with (CScript.FindAndDelete sc OP_CODESEPARATOR_script).2 nIn (vin tx)).
  fold (blank_with (CScript.FindAndDelete sc' OP_CODESEPARATOR_script).2 nIn' (vin tx')).
  cbv zeta. intros E. apply (inj Some) in E.
  destruct (put_inj wf_tx _ _ _ _ V V' E) as [Et Eh]. injection Et as E1 E2 E3 E4 E5.
  rewrite <- (app_nil_r (put ht)), <- (app_nil_r (put ht')) in Eh.
  destruct (@put_inj Z ser_i32 (in_s 32) _ ht ht' [] [] Hh Hh' Eh) as [-> _].
  destruct (blank_with_inj _ _ _ _ _ _ Hn Hn' Hsc Hsc' E3) as (B1 & B2 & B3).
  by unfold same_but_scripts.
Qed.

(** Other outputs, a signature already in place, another sequence number of the second input. *)
Definition sample_tx2 (o : list CTxOut) (s : bytes) (q : Z) : CTransaction :=
  mk_tx 1 7 [mk_txin (mk_outpoint 5 1) s UINT_MAX; mk_txin (mk_outpoint 6 0) s q] o 0.

Lemma SignatureHash_leaves_open_witness :
  @SignatureHash dummy_digests [B#0x51] (sample_tx2 [mk_txout 9 []] [] 3) 0 2 =
  @SignatureHash dummy_digests [B#0x51] (sample_tx2 [] [B#1] 8) 0 2.
Proof. apply (@SignatureHash_leaves_open dummy_digests); try reflexivity. right. left. by vm_compute. Defined.

Lemma sample_sighash_wf : sighash_wf [B#0x51] sample_tx 0.
Proof.
  split; [apply sample_tx_wf|]. split; [by vm_compute|]. split; [simpl; lia|by vm_compute].
Qed.

Lemma SignatureHash_all_commits_witness : same_but_scripts sample_tx sample_tx.
Proof.
  apply (SignatureHash_all_commits [B#0x51] [B#0x51] sample_tx sample_tx 0 0 1 1
    sample_sighash_wf sample_sighash_wf); [unfold in_s; lia|unfold in_s; lia| |reflexivity].
  intros h [-> | ->]; by vm_compute.
Defined.
End SigHashFacts.
Export SigHashFacts.
