(* ===== verification/Interp.v ===== *)
(** * Interp: the script interpreter (src/src/script.cpp)

    [EvalScript] as a computation over the interpreter's state: the stacks (the
    back of the vector is the top), the branch stack, the operation count, the
    start of the signed code and the signature cache.  A [return false] and an
    exception caught at the end of the function are failures of the monad;
    the stack is kept on failure because the caller's vector is. *)

From S2P Require Import Prelude BigNum ScriptOps Serialize Crypto Keys Core SigHash.

Abbreviation valtype := bytes.

Definition vchFalse : valtype := [].
Definition vchTrue : valtype := [B#1].
Definition nDefaultMaxNumSize : Z := 4.

(** ** Conversions *)
Definition CastToBigNum `{BNLib} (vch : valtype) (nMaxNumSize : Z) : option Z :=
  if nMaxNumSize <? zlen vch then None
  else Some (CBigNum.setvch (CBigNum.getvch (CBigNum.setvch vch))).

(** The loop of [CastToBool]; a last byte 0x80 is negative zero. *)
Fixpoint CastToBool (vch : valtype) : bool :=
  match vch with
  | [] => false
  | b :: r => if uchar b =? 0 then CastToBool r
              else match r with [] => negb (uchar b =? 0x80) | _ => true end
  end.

(** ** Encodings of keys and signatures *)
Module Encoding.
Definition byte_at (v : bytes) (i : Z) : Z := match at_ v i with Some b => uchar b | None => 0 end.

Definition IsCompressedOrUncompressedPubKey (vchPubKey : valtype) : bool :=
  if zlen vchPubKey <? 33 then false
  else if byte_at vchPubKey 0 =? 0x04 then zlen vchPubKey =? 65
  else if (byte_at vchPubKey 0 =? 0x02) || (byte_at vchPubKey 0 =? 0x03) then zlen vchPubKey =? 33
  else false.

(** Checks on one of the two integers: [pos] is where its bytes start. *)
Definition der_integer_ok (v : valtype) (pos len : Z) : bool :=
  if negb (byte_at v (pos - 2) =? 0x02) then false
  else if len =? 0 then false
  else if negb (Z.land (byte_at v pos) 0x80 =? 0) then false
  else if (1 <? len) && (byte_at v pos =? 0x00) && (Z.land (byte_at v (pos + 1)) 0x80 =? 0) then false
  else true.

Definition IsDERSignature (vchSig : valtype) (haveHashType : bool) : bool :=
  let size := zlen vchSig in
  if size <? 9 then false
  else if 73 <? size then false
  else if negb (byte_at vchSig 0 =? 0x30) then false
  else if negb (byte_at vchSig 1 =? size - (if haveHashType then 3 else 2)) then false
  else
    let nLenR := byte_at vchSig 3 in
    if size <=? 5 + nLenR then false
    else
      let nLenS := byte_at vchSig (5 + nLenR) in
      if negb (nLenR + nLenS + (if haveHashType then 7 else 6) =? size) then false
      else if negb (der_integer_ok vchSig 4 nLenR) then false
      else der_integer_ok vchSig (6 + nLenR) nLenS.

Definition IsLowDERSignature (vchSig : valtype) (haveHashType : bool) : bool :=
  if negb (IsDERSignature vchSig haveHashType) then false
  else
    let nLenR := byte_at vchSig 3 in
    let nLenS := byte_at vchSig (5 + nLenR) in
    Range.CheckSignatureElement (take (Z.to_nat nLenS) (drop (Z.to_nat (6 + nLenR)) vchSig)) true.

Definition IsDefinedHashtypeSignature (vchSig : valtype) : bool :=
  match last vchSig with
  | None => false
  | Some b =>
    let nHashType := Z.land (uchar b) (u8 (Z.lnot SIGHASH_ANYONECANPAY)) in
    negb ((nHashType <? SIGHASH_ALL) || (SIGHASH_SINGLE <? nHashType))
  end.

Definition CheckSignatureEncoding (vchSig : valtype) (flags : Z) : bool :=
  if has_flag flags SCRIPT_VERIFY_ALLOW_EMPTY_SIG && (zlen vchSig =? 0) then true
  else if negb (IsLowDERSignature vchSig true) then false
  else if negb (has_flag flags SCRIPT_VERIFY_FIX_HASHTYPE) && negb (IsDefinedHashtypeSignature vchSig) then false
  else true.

Definition CheckPubKeyEncoding (vchSig : valtype) : bool := IsCompressedOrUncompressedPubKey vchSig.
End Encoding.
Import Encoding.

Definition CheckLockTime (txTo : CTransaction) (nIn : nat) (lock : Z) : bool :=
  if negb (((nLockTime txTo <? LOCKTIME_THRESHOLD) && (lock <? LOCKTIME_THRESHOLD)) ||
           ((LOCKTIME_THRESHOLD <=? nLockTime txTo) && (LOCKTIME_THRESHOLD <=? lock))) then false
  else if nLockTime txTo <? lock then false
  else match vin txTo !! nIn with
       | None => false
       | Some i => negb (IsFinal i)
       end.

(** ** The state *)
Record EvalState := mk_eval {
  stack : list valtype;
  altstack : list valtype;
  vfExec : list bool;
  nOpCount : Z;
  pbegincodehash : bytes;
  cache : CSignatureCache
}.
Abbreviation Eval := (SM EvalState).

Module Stack.
Definition set_stack (l : list valtype) (s : EvalState) : EvalState :=
  mk_eval l (altstack s) (vfExec s) (nOpCount s) (pbegincodehash s) (cache s).
Definition set_altstack (l : list valtype) (s : EvalState) : EvalState :=
  mk_eval (stack s) l (vfExec s) (nOpCount s) (pbegincodehash s) (cache s).
Definition set_vfExec (l : list bool) (s : EvalState) : EvalState :=
  mk_eval (stack s) (altstack s) l (nOpCount s) (pbegincodehash s) (cache s).
Definition set_nOpCount (n : Z) (s : EvalState) : EvalState :=
  mk_eval (stack s) (altstack s) (vfExec s) n (pbegincodehash s) (cache s).
Definition set_codehash (pc : bytes) (s : EvalState) : EvalState :=
  mk_eval (stack s) (altstack s) (vfExec s) (nOpCount s) pc (cache s).
Definition set_cache (c : CSignatureCache) (s : EvalState) : EvalState :=
  mk_eval (stack s) (altstack s) (vfExec s) (nOpCount s) (pbegincodehash s) c.

(** [stacktop(-i)]: [stack.at(stack.size() - i)]. *)
Definition top_of (i : Z) (l : list valtype) : option valtype := at_ l (zlen l - i).
Definition stacktop (i : Z) : Eval valtype := l ← gets stack; of_option (top_of i l).
(** [if (stack.size() < n) return false;] *)
Definition need (n : Z) : Eval unit := l ← gets stack; require (n <=? zlen l).
(** [popstack] throws on an empty vector. *)
Definition popstack : Eval unit :=
  l ← gets stack; match l with [] => fail | _ => modify (set_stack (pop_back l)) end.
Definition push (v : valtype) : Eval unit := modify (fun s => set_stack (stack s ++ [v]) s).
Definition set_top (i : Z) (v : valtype) : Eval unit :=
  modify (fun s => set_stack (<[Z.to_nat (zlen (stack s) - i) := v]> (stack s)) s).
(** [swap(stacktop(-i), stacktop(-j))] *)
Definition swap_top (i j : Z) : Eval unit :=
  a ← stacktop i; b ← stacktop j; set_top i b ;; set_top j a.
(** [stack.erase(stack.end() - i, stack.end() - j)] *)
Definition erase_top (i j : Z) : Eval unit :=
  modify (fun s => set_stack (erase (stack s) (Z.to_nat (zlen (stack s) - i)) (Z.to_nat (zlen (stack s) - j))) s).
(** [stack.insert(stack.end() - i, v)] *)
Definition insert_top (i : Z) (v : valtype) : Eval unit :=
  modify (fun s => set_stack (insert_at (stack s) (Z.to_nat (zlen (stack s) - i)) v) s).
Fixpoint pop_n (n : nat) : Eval unit :=
  match n with O => mret tt | S n => popstack ;; pop_n n end.
End Stack.
Import Stack.

(** ** The opcodes, in the groups of the [switch] *)
Section opcodes.
Context `{BNLib} `{Digests} `{ECLib} `{SigEnv}.
Variable txTo : CTransaction.
Variable nIn : nat.
Variables flags nHashType : Z.
(** The iterator [pc] after the instruction. *)
Variable pc : bytes.

Definition bn_top (i maxsize : Z) : Eval Z := v ← stacktop i; of_option (CastToBigNum v maxsize).
Definition push_bn (n : Z) : Eval unit := push (CBigNum.getvch n).
Definition push_bool (b : bool) : Eval unit := push (if b then vchTrue else vchFalse).
(** The [...VERIFY] tail: pop a success, fail on a failure. *)
Definition verify_tail (isverify ok : bool) : Eval unit :=
  if isverify then (if ok then popstack else fail) else mret tt.

Definition exec_checklocktime : Eval unit :=
  if negb (has_flag flags SCRIPT_VERIFY_CHECKLOCKTIMEVERIFY)
  then require (negb (has_flag flags SCRIPT_VERIFY_DISCOURAGE_UPGRADABLE_NOPS))
  else
    need 1 ;;
    lock ← bn_top 1 5;
    require (negb (lock <? 0)) ;;
    require (CheckLockTime txTo nIn lock).

Definition exec_nop_upgradable : Eval unit :=
  require (negb (has_flag flags SCRIPT_VERIFY_DISCOURAGE_UPGRADABLE_NOPS)).

Definition exec_if (opcode : Z) (fExec : bool) : Eval unit :=
  fValue ←
    (if fExec then
       need 1 ;; vch ← stacktop 1; popstack ;;
       mret (if opcode =? OP_NOTIF then negb (CastToBool vch) else CastToBool vch)
     else mret false);
  modify (fun s => set_vfExec (vfExec s ++ [fValue]) s).

Definition exec_else : Eval unit :=
  l ← gets vfExec;
  match last l with
  | None => fail
  | Some b => modify (set_vfExec (pop_back l ++ [negb b]))
  end.

Definition exec_endif : Eval unit :=
  l ← gets vfExec;
  match l with [] => fail | _ => modify (set_vfExec (pop_back l)) end.

Definition exec_verify : Eval unit :=
  need 1 ;; v ← stacktop 1; if CastToBool v then popstack else fail.

(** *** Stack operations *)
Definition exec_toaltstack : Eval unit :=
  need 1 ;; v ← stacktop 1; modify (fun s => set_altstack (altstack s ++ [v]) s) ;; popstack.
Definition exec_fromaltstack : Eval unit :=
  l ← gets altstack;
  match last l with
  | None => fail
  | Some v => push v ;; modify (set_altstack (pop_back l))
  end.
Definition exec_2drop : Eval unit := need 2 ;; popstack ;; popstack.
Definition exec_2dup : Eval unit := need 2 ;; a ← stacktop 2; b ← stacktop 1; push a ;; push b.
Definition exec_3dup : Eval unit :=
  need 3 ;; a ← stacktop 3; b ← stacktop 2; c ← stacktop 1; push a ;; push b ;; push c.
Definition exec_2over : Eval unit := need 4 ;; a ← stacktop 4; b ← stacktop 3; push a ;; push b.
Definition exec_2rot : Eval unit :=
  need 6 ;; a ← stacktop 6; b ← stacktop 5; erase_top 6 4 ;; push a ;; push b.
Definition exec_2swap : Eval unit := need 4 ;; swap_top 4 2 ;; swap_top 3 1.
Definition exec_ifdup : Eval unit := need 1 ;; v ← stacktop 1; if CastToBool v then push v else mret tt.
Definition exec_depth : Eval unit := l ← gets stack; push_bn (CBigNum.of_int (zlen l)).
Definition exec_drop : Eval unit := need 1 ;; popstack.
Definition exec_dup : Eval unit := need 1 ;; v ← stacktop 1; push v.
Definition exec_nip : Eval unit := need 2 ;; erase_top 2 1.
Definition exec_over : Eval unit := need 2 ;; v ← stacktop 2; push v.
Definition exec_pick_roll (opcode : Z) : Eval unit :=
  need 2 ;;
  bn ← bn_top 1 nDefaultMaxNumSize;
  let n := CBigNum.getint bn in
  popstack ;;
  l ← gets stack;
  require (negb ((n <? 0) || (zlen l <=? n))) ;;
  v ← stacktop (n + 1);
  (if opcode =? OP_ROLL then erase_top (n + 1) n else mret tt) ;;
  push v.
Definition exec_rot : Eval unit := need 3 ;; swap_top 3 2 ;; swap_top 2 1.
Definition exec_swap : Eval unit := need 2 ;; swap_top 2 1.
Definition exec_tuck : Eval unit := need 2 ;; v ← stacktop 1; insert_top 2 v.
Definition exec_size : Eval unit := need 1 ;; v ← stacktop 1; push_bn (CBigNum.of_int (zlen v)).

(** *** Comparison and arithmetic *)
Definition exec_equal (opcode : Z) : Eval unit :=
  need 2 ;; v1 ← stacktop 2; v2 ← stacktop 1;
  let fEqual := bool_decide (v1 = v2) in
  popstack ;; popstack ;; push_bool fEqual ;;
  verify_tail (opcode =? OP_EQUALVERIFY) fEqual.

Definition unary_op (opcode bn : Z) : Z :=
  if opcode =? OP_1ADD then bn + 1
  else if opcode =? OP_1SUB then bn - 1
  else if opcode =? OP_NEGATE then - bn
  else if opcode =? OP_ABS then (if bn <? 0 then - bn else bn)
  else if opcode =? OP_NOT then Z.b2z (bn =? 0)
  else Z.b2z (negb (bn =? 0)).
Definition exec_unary (opcode : Z) : Eval unit :=
  need 1 ;; bn ← bn_top 1 nDefaultMaxNumSize; popstack ;; push_bn (unary_op opcode bn).

Definition binary_op (opcode bn1 bn2 : Z) : Z :=
  if opcode =? OP_ADD then bn1 + bn2
  else if opcode =? OP_SUB then bn1 - bn2
  else if opcode =? OP_BOOLAND then Z.b2z (negb (bn1 =? 0) && negb (bn2 =? 0))
  else if opcode =? OP_BOOLOR then Z.b2z (negb (bn1 =? 0) || negb (bn2 =? 0))
  else if (opcode =? OP_NUMEQUAL) || (opcode =? OP_NUMEQUALVERIFY) then Z.b2z (bn1 =? bn2)
  else if opcode =? OP_NUMNOTEQUAL then Z.b2z (negb (bn1 =? bn2))
  else if opcode =? OP_LESSTHAN then Z.b2z (bn1 <? bn2)
  else if opcode =? OP_GREATERTHAN then Z.b2z (bn2 <? bn1)
  else if opcode =? OP_LESSTHANOREQUAL then Z.b2z (bn1 <=? bn2)
  else if opcode =? OP_GREATERTHANOREQUAL then Z.b2z (bn2 <=? bn1)
  else if opcode =? OP_MIN then (if bn1 <? bn2 then bn1 else bn2)
  else (if bn2 <? bn1 then bn1 else bn2).
Definition exec_binary (opcode : Z) : Eval unit :=
  need 2 ;;
  bn1 ← bn_top 2 nDefaultMaxNumSize; bn2 ← bn_top 1 nDefaultMaxNumSize;
  popstack ;; popstack ;; push_bn (binary_op opcode bn1 bn2) ;;
  if opcode =? OP_NUMEQUALVERIFY
  then v ← stacktop 1; if CastToBool v then popstack else fail
  else mret tt.

Definition exec_within : Eval unit :=
  need 3 ;;
  bn1 ← bn_top 3 nDefaultMaxNumSize; bn2 ← bn_top 2 nDefaultMaxNumSize; bn3 ← bn_top 1 nDefaultMaxNumSize;
  pop_n 3 ;; push_bool ((bn2 <=? bn1) && (bn1 <? bn3)).

(** *** Crypto *)
Definition exec_hash (opcode : Z) : Eval unit :=
  need 1 ;; vch ← stacktop 1; popstack ;;
  push (if opcode =? OP_RIPEMD160 then RIPEMD160 vch
        else if opcode =? OP_SHA1 then SHA1 vch
        else if opcode =? OP_SHA256 then SHA256 vch
        else if opcode =? OP_HASH160 then Hash160Bytes vch
        else HashBytes vch).

Definition exec_codeseparator : Eval unit := modify (set_codehash pc).

(** [CScript(vchSig)]: the push of the signature, deleted from the signed code. *)
Definition drop_signature (scriptCode vchSig : bytes) : bytes :=
  (CScript.FindAndDelete scriptCode (CScript.push_data [] vchSig)).2.

Definition check_sig (vchSig vchPubKey scriptCode : bytes) : Eval bool := fun s =>
  let '(b, c) := CheckSig vchSig vchPubKey scriptCode txTo nIn nHashType flags (cache s) in
  (Some b, set_cache c s).

Definition encodings_ok (vchSig vchPubKey : bytes) : bool :=
  CheckSignatureEncoding vchSig flags && CheckPubKeyEncoding vchPubKey.

(** One signature against one key: the strict-encoding failure, then the check. *)
Definition check_one (vchSig vchPubKey scriptCode : bytes) : Eval bool :=
  require (negb (has_flag flags SCRIPT_VERIFY_STRICTENC && negb (encodings_ok vchSig vchPubKey))) ;;
  if encodings_ok vchSig vchPubKey then check_sig vchSig vchPubKey scriptCode else mret false.

Definition exec_checksig (opcode : Z) : Eval unit :=
  need 2 ;;
  vchSig ← stacktop 2; vchPubKey ← stacktop 1;
  scriptCode ← gets pbegincodehash;
  fSuccess ← check_one vchSig vchPubKey (drop_signature scriptCode vchSig);
  popstack ;; popstack ;; push_bool fSuccess ;;
  verify_tail (opcode =? OP_CHECKSIGVERIFY) fSuccess.

(** The loop that drops the signatures [stacktop(-isig-k)]. *)
Fixpoint drop_signatures (k : nat) (isig : Z) (scriptCode : bytes) : Eval bytes :=
  match k with
  | O => mret scriptCode
  | S k => vchSig ← stacktop isig; drop_signatures k (isig + 1) (drop_signature scriptCode vchSig)
  end.

(** The matching loop: [nKeysCount] falls in every round, so it bounds the rounds. *)
Fixpoint match_loop (nKeysCount : nat) (nSigsCount isig ikey : Z) (scriptCode : bytes) : Eval bool :=
  if nSigsCount <=? 0 then mret true else
  match nKeysCount with
  | O => mret false
  | S nKeysCount =>
    vchSig ← stacktop isig; vchPubKey ← stacktop ikey;
    fOk ← check_one vchSig vchPubKey scriptCode;
    let isig := if (fOk : bool) then isig + 1 else isig in
    let nSigsCount := if (fOk : bool) then nSigsCount - 1 else nSigsCount in
    if Z.of_nat nKeysCount <? nSigsCount then mret false
    else match_loop nKeysCount nSigsCount isig (ikey + 1) scriptCode
  end.

Definition exec_checkmultisig (opcode : Z) : Eval unit :=
  need 1 ;;
  bnKeys ← bn_top 1 nDefaultMaxNumSize;
  let nKeysCount := CBigNum.getint bnKeys in
  require (negb ((nKeysCount <? 0) || (20 <? nKeysCount))) ;;
  modify (fun s => set_nOpCount (nOpCount s + nKeysCount) s) ;;
  ops ← gets nOpCount; require (negb (201 <? ops)) ;;
  let ikey := 2 in
  let i := 2 + nKeysCount in
  need i ;;
  bnSigs ← bn_top i nDefaultMaxNumSize;
  let nSigsCount := CBigNum.getint bnSigs in
  require (negb ((nSigsCount <? 0) || (nKeysCount <? nSigsCount))) ;;
  let isig := i + 1 in
  let i := isig + nSigsCount in
  need i ;;
  code ← gets pbegincodehash;
  scriptCode ← drop_signatures (Z.to_nat nSigsCount) isig code;
  fSuccess ← match_loop (Z.to_nat nKeysCount) nSigsCount isig ikey scriptCode;
  pop_n (Z.to_nat (i - 1)) ;;
  need 1 ;;
  dummy ← stacktop 1;
  require (negb (has_flag flags SCRIPT_VERIFY_NULLDUMMY && negb (zlen dummy =? 0))) ;;
  popstack ;;
  push_bool fSuccess ;;
  verify_tail (opcode =? OP_CHECKMULTISIGVERIFY) fSuccess.

(** *** The [switch] *)
Definition is_unary (op : Z) : bool :=
  existsb (Z.eqb op) [OP_1ADD; OP_1SUB; OP_NEGATE; OP_ABS; OP_NOT; OP_0NOTEQUAL].
Definition is_binary (op : Z) : bool :=
  existsb (Z.eqb op) [OP_ADD; OP_SUB; OP_BOOLAND; OP_BOOLOR; OP_NUMEQUAL; OP_NUMEQUALVERIFY; OP_NUMNOTEQUAL;
    OP_LESSTHAN; OP_GREATERTHAN; OP_LESSTHANOREQUAL; OP_GREATERTHANOREQUAL; OP_MIN; OP_MAX].
Definition is_hash (op : Z) : bool :=
  existsb (Z.eqb op) [OP_RIPEMD160; OP_SHA1; OP_SHA256; OP_HASH160; OP_HASH256].
Definition is_upgradable_nop (op : Z) : bool :=
  existsb (Z.eqb op) [OP_NOP1; OP_NOP3; OP_NOP4; OP_NOP5; OP_NOP6; OP_NOP7; OP_NOP8; OP_NOP9; OP_NOP10].
Definition is_disabled (op : Z) : bool :=
  existsb (Z.eqb op) [OP_CAT; OP_SUBSTR; OP_LEFT; OP_RIGHT; OP_INVERT; OP_AND; OP_OR; OP_XOR;
    OP_2MUL; OP_2DIV; OP_MUL; OP_DIV; OP_MOD; OP_LSHIFT; OP_RSHIFT].

Definition exec_small_int (op : Z) : Eval unit := push_bn (CBigNum.of_int (op - (OP_1 - 1))).

Definition exec_opcode (fExec : bool) (op : Z) : Eval unit :=
  if (op =? OP_1NEGATE) || ((OP_1 <=? op) && (op <=? OP_16)) then exec_small_int op
  else if op =? OP_NOP then mret tt
  else if op =? OP_CHECKLOCKTIMEVERIFY then exec_checklocktime
  else if is_upgradable_nop op then exec_nop_upgradable
  else if (op =? OP_IF) || (op =? OP_NOTIF) then exec_if op fExec
  else if op =? OP_ELSE then exec_else
  else if op =? OP_ENDIF then exec_endif
  else if op =? OP_VERIFY then exec_verify
  else if op =? OP_RETURN then fail
  else if op =? OP_TOALTSTACK then exec_toaltstack
  else if op =? OP_FROMALTSTACK then exec_fromaltstack
  else if op =? OP_2DROP then exec_2drop
  else if op =? OP_2DUP then exec_2dup
  else if op =? OP_3DUP then exec_3dup
  else if op =? OP_2OVER then exec_2over
  else if op =? OP_2ROT then exec_2rot
  else if op =? OP_2SWAP then exec_2swap
  else if op =? OP_IFDUP then exec_ifdup
  else if op =? OP_DEPTH then exec_depth
  else if op =? OP_DROP then exec_drop
  else if op =? OP_DUP then exec_dup
  else if op =? OP_NIP then exec_nip
  else if op =? OP_OVER then exec_over
  else if (op =? OP_PICK) || (op =? OP_ROLL) then exec_pick_roll op
  else if op =? OP_ROT then exec_rot
  else if op =? OP_SWAP then exec_swap
  else if op =? OP_TUCK then exec_tuck
  else if op =? OP_SIZE then exec_size
  else if (op =? OP_EQUAL) || (op =? OP_EQUALVERIFY) then exec_equal op
  else if is_unary op then exec_unary op
  else if is_binary op then exec_binary op
  else if op =? OP_WITHIN then exec_within
  else if is_hash op then exec_hash op
  else if op =? OP_CODESEPARATOR then exec_codeseparator
  else if (op =? OP_CHECKSIG) || (op =? OP_CHECKSIGVERIFY) then exec_checksig op
  else if (op =? OP_CHECKMULTISIG) || (op =? OP_CHECKMULTISIGVERIFY) then exec_checkmultisig op
  else fail.

(** The operation count of an instruction beyond the pushes. *)
Definition count_op (op : Z) : Eval unit :=
  if OP_16 <? op
  then modify (fun s => set_nOpCount (nOpCount s + 1) s) ;; n ← gets nOpCount; require (negb (201 <? n))
  else mret tt.

Definition size_limits : Eval unit :=
  s ← gets id; require (negb (1000 <? zlen (stack s) + zlen (altstack s))).

(** The body of the loop once the instruction is read. *)
Definition exec_instr (op : Z) (vchPushValue : valtype) : Eval unit :=
  vf ← gets vfExec;
  let fExec := forallb id vf in
  require (negb (MAX_SCRIPT_ELEMENT_SIZE <? zlen vchPushValue)) ;;
  count_op op ;;
  require (negb (is_disabled op)) ;;
  (if fExec && (0 <=? op) && (op <=? OP_PUSHDATA4) then push vchPushValue
   else if fExec || ((OP_IF <=? op) && (op <=? OP_ENDIF)) then exec_opcode fExec op
   else mret tt) ;;
  size_limits.
End opcodes.

(** ** [EvalScript] *)
Section eval.
Context `{BNLib} `{Digests} `{ECLib} `{SigEnv}.

(** The loop over the script; each round consumes a byte, so the length of the
    script bounds the rounds ([eval_fuel] of InterpFacts). *)
Fixpoint eval_loop (txTo : CTransaction) (nIn : nat) (flags nHashType : Z) (fuel : nat) (pc : bytes) : Eval unit :=
  match pc with
  | [] => mret tt
  | _ :: _ =>
    match fuel with
    | O => fail
    | S fuel =>
      match CScript.GetOp pc with
      | None => fail
      | Some (op, vch, pc) =>
        exec_instr txTo nIn flags nHashType pc op vch ;; eval_loop txTo nIn flags nHashType fuel pc
      end
    end
  end.

(** Result, the stack the caller's vector is left with, and the signature cache. *)
Definition EvalScript (st : list valtype) (script : bytes) (txTo : CTransaction) (nIn : nat) (flags nHashType : Z)
    (c : CSignatureCache) : bool * list valtype * CSignatureCache :=
  if 10000 <? zlen script then (false, st, c) else
  match eval_loop txTo nIn flags nHashType (length script) script (mk_eval st [] [] 0 script c) with
  | (Some tt, s) => (bool_decide (vfExec s = []), stack s, cache s)
  | (None, s) => (false, stack s, cache s)
  end.

(** ** [VerifyScript] *)
Definition VerifyScript (scriptSig scriptPubKey : bytes) (txTo : CTransaction) (nIn : nat) (flags nHashType : Z)
    (c : CSignatureCache) : bool * CSignatureCache :=
  let '(ok, stk, c) := EvalScript [] scriptSig txTo nIn flags nHashType c in
  if negb ok then (false, c) else
  let stackCopy := stk in
  let '(ok, stk, c) := EvalScript stk scriptPubKey txTo nIn flags nHashType c in
  if negb ok then (false, c) else
  match last stk with
  | None => (false, c)
  | Some v =>
    if negb (CastToBool v) then (false, c)
    else if CScript.IsPayToScriptHash scriptPubKey then
      if negb (CScript.IsPushOnly scriptSig) then (false, c) else
      (* [stackCopy.back()] of an empty vector is undefined; lemma
         [p2sh_stack_nonempty] of Spending shows that it is never reached *)
      let pubKey2 := default [] (last stackCopy) in
      let '(ok, stk2, c) := EvalScript (pop_back stackCopy) pubKey2 txTo nIn flags nHashType c in
      if negb ok then (false, c) else
      match last stk2 with
      | None => (false, c)
      | Some v => (CastToBool v, c)
      end
    else (true, c)
  end.
End eval.
