(* ===== verification/InterpFacts.v ===== *)
(** * InterpFacts: what the script interpreter guarantees *)

From S2P Require Import Prelude BigNum ScriptOps Serialize Crypto Keys Core SigHash Interp.
Import Encoding Stack CScript.

(** ** Fuel: the length of the script always suffices *)
Module FuelFacts.
Section fuel.
Context `{BNLib} `{Digests} `{ECLib} `{SigEnv}.

Lemma eval_fuel tx n fl ht fuel pc s : (length pc <= fuel)%nat ->
  eval_loop tx n fl ht fuel pc s = eval_loop tx n fl ht (length pc) pc s.
Proof.
  remember (length pc) as k eqn:Ek. assert (length pc <= k)%nat as Hk by lia. clear Ek.
  revert fuel pc s Hk. induction k as [|k IH]; intros fuel pc s Hk Hf.
  { destruct pc; [|simpl in Hk; lia]. by destruct fuel. }
  destruct pc as [|b pc]; [by destruct fuel|]. destruct fuel as [|fuel]; [lia|]. cbn [eval_loop].
  destruct (GetOp (b :: pc)) as [[[op v] pc']|] eqn:E; [|done].
  apply GetOp_shrinks in E. simpl in E, Hk. unfold mbind, SM_bind.
  destruct (exec_instr _ _ _ _ _ _ _ s) as [[[]|] s']; [|done]. apply IH; lia.
Qed.

(** The loop, one instruction at a time. *)

Lemma eval_step tx n fl ht pc op v pc' s : GetOp pc = Some (op, v, pc') ->
  eval_loop tx n fl ht (length pc) pc s =
    (exec_instr tx n fl ht pc' op v ;; eval_loop tx n fl ht (length pc') pc') s.
Proof.
  intros E. destruct pc as [|b pc]; [done|]. cbn [length eval_loop]. rewrite E.
  apply GetOp_shrinks in E. simpl in E. unfold mbind, SM_bind.
  destruct (exec_instr _ _ _ _ _ _ _ s) as [[[]|] s']; [|done]. apply eval_fuel. lia.
Qed.
End fuel.
End FuelFacts.
Export FuelFacts.

(** ** The signature cache cannot be observed: a simulation *)
Module CacheSimulation.
Section sim.
Context `{BNLib} `{Digests} `{ECLib} `{SigEnv}.

(** States that differ in their (sound) caches only. *)
Definition related (s1 s2 : EvalState) : Prop :=
  stack s1 = stack s2 /\ altstack s1 = altstack s2 /\ vfExec s1 = vfExec s2 /\ nOpCount s1 = nOpCount s2 /\
  pbegincodehash s1 = pbegincodehash s2 /\ cache_ok (cache s1) /\ cache_ok (cache s2).

(** A computation that gives the same result from related states and leaves related states. *)
Definition sim {A} (m : Eval A) : Prop := forall s1 s2, related s1 s2 ->
  (m s1).1 = (m s2).1 /\ related (m s1).2 (m s2).2.

Lemma sim_ret {A} (a : A) : sim (mret a).
Proof. by intros s1 s2 R. Qed.
Lemma sim_fail {A} : sim (@fail _ A).
Proof. by intros s1 s2 R. Qed.
Lemma sim_require b : sim (require b).
Proof. destruct b; [apply sim_ret|apply sim_fail]. Qed.
Lemma sim_of_option {A} (o : option A) : sim (of_option o).
Proof. destruct o; [apply sim_ret|apply sim_fail]. Qed.
Lemma sim_bind {A B} (m : Eval A) (f : A -> Eval B) : sim m -> (forall a, sim (f a)) -> sim (m ≫= f).
Proof.
  intros Hm Hf s1 s2 R. destruct (Hm s1 s2 R) as [E R']. unfold mbind, SM_bind.
  destruct (m s1) as [[a|] t1], (m s2) as [[b|] t2]; simpl in *; simplify_eq; [by apply Hf|done].
Qed.
Lemma sim_gets {A} (f : EvalState -> A) : (forall s1 s2, related s1 s2 -> f s1 = f s2) -> sim (gets f).
Proof. intros Hf s1 s2 R. split; [simpl; f_equal; by apply Hf|done]. Qed.
Lemma sim_modify f : (forall s1 s2, related s1 s2 -> related (f s1) (f s2)) -> sim (modify f).
Proof. intros Hf s1 s2 R. split; [done|by apply Hf]. Qed.

Lemma related_inv s1 s2 : related s1 s2 ->
  exists c, s2 = set_cache c s1 /\ cache_ok (cache s1) /\ cache_ok c.
Proof.
  destruct s1, s2. intros (E1 & E2 & E3 & E4 & E5 & C1 & C2). simpl in *. subst.
  by eexists.
Qed.

Lemma sim_gets_stack : sim (gets stack).
Proof. apply sim_gets. by intros ?? (? & _). Qed.
Lemma sim_gets_altstack : sim (gets altstack).
Proof. apply sim_gets. by intros ?? (? & ? & _). Qed.
Lemma sim_gets_vfExec : sim (gets vfExec).
Proof. apply sim_gets. by intros ?? (? & ? & ? & _). Qed.
Lemma sim_gets_nOpCount : sim (gets nOpCount).
Proof. apply sim_gets. by intros ?? (? & ? & ? & ? & _). Qed.
Lemma sim_gets_codehash : sim (gets pbegincodehash).
Proof. apply sim_gets. by intros ?? (? & ? & ? & ? & ? & _). Qed.

Lemma sim_check_sig tx n fl ht sig pk code : sim (check_sig tx n fl ht sig pk code).
Proof.
  intros [] [] (E1 & E2 & E3 & E4 & E5 & C1 & C2). simpl in *. subst. unfold check_sig. simpl.
  destruct (CheckSig_spec sig pk code tx n ht fl _ C1) as [V1 D1].
  destruct (CheckSig_spec sig pk code tx n ht fl _ C2) as [V2 D2].
  destruct (CheckSig _ _ _ _ _ _ _ cache), (CheckSig _ _ _ _ _ _ _ cache0). simpl in *.
  split; [by rewrite V1, V2|]. by unfold related.
Qed.
End sim.

(** Discharges the simulation of a handler written with the primitives. *)
Ltac sim_step :=
  lazymatch goal with
  | |- sim (_ ≫= _) => apply sim_bind; [|intros]
  | |- sim (mret _) => apply sim_ret
  | |- sim fail => apply sim_fail
  | |- sim (require _) => apply sim_require
  | |- sim (of_option _) => apply sim_of_option
  | |- sim (gets stack) => apply sim_gets_stack
  | |- sim (gets altstack) => apply sim_gets_altstack
  | |- sim (gets vfExec) => apply sim_gets_vfExec
  | |- sim (gets nOpCount) => apply sim_gets_nOpCount
  | |- sim (gets pbegincodehash) => apply sim_gets_codehash
  | |- sim (modify _) =>
    apply sim_modify; intros [] ? (? & -> & ? & ?)%related_inv; unfold related; simpl in *; done
  | |- sim (match ?x with _ => _ end) => destruct x
  end.
Ltac sim_solve := repeat sim_step.

Section handlers.
Context `{BNLib} `{Digests} `{ECLib} `{SigEnv}.
Variable tx : CTransaction.
Variable n : nat.
Variables fl ht : Z.

Lemma sim_need k : sim (need k).
Proof. unfold need. sim_solve. Qed.
Lemma sim_stacktop k : sim (stacktop k).
Proof. unfold stacktop. sim_solve. Qed.
Lemma sim_popstack : sim popstack.
Proof. unfold popstack. sim_solve.
Qed.
Lemma sim_push v : sim (push v).
Proof. unfold push. sim_solve. Qed.
Lemma sim_set_top k v : sim (set_top k v).
Proof. unfold set_top. sim_solve. Qed.
Lemma sim_erase_top i j : sim (erase_top i j).
Proof. unfold erase_top. sim_solve. Qed.
Lemma sim_insert_top i v : sim (insert_top i v).
Proof. unfold insert_top. sim_solve. Qed.
Lemma sim_pop_n k : sim (pop_n k).
Proof. induction k; simpl; [apply sim_ret|]. apply sim_bind; [apply sim_popstack|done]. Qed.
Lemma sim_bn_top i k : sim (bn_top i k).
Proof. unfold bn_top. apply sim_bind; [apply sim_stacktop|]. intros. sim_solve. Qed.
End handlers.

Ltac sim_prim :=
  first
  [ sim_step | apply sim_need | apply sim_stacktop | apply sim_popstack | apply sim_push
  | apply sim_set_top | apply sim_erase_top | apply sim_insert_top | apply sim_pop_n
  | apply sim_bn_top | apply sim_check_sig ].
Ltac sim_all := repeat sim_prim.

Section opcodes_sim.
Context `{BNLib} `{Digests} `{ECLib} `{SigEnv}.
Variable tx : CTransaction.
Variable n : nat.
Variables fl ht : Z.
Variable pc : bytes.

Lemma sim_check_one sig pk code : sim (check_one tx n fl ht sig pk code).
Proof. unfold check_one. sim_all. Qed.

Lemma sim_drop_signatures k i code : sim (drop_signatures k i code).
Proof. revert i code. induction k; intros; simpl; sim_all. apply IHk. Qed.

Lemma sim_match_loop k ns i j code : sim (match_loop tx n fl ht k ns i j code).
Proof.
  revert ns i j. induction k as [|k IH]; intros; simpl; [sim_all|].
  destruct (ns <=? 0); [sim_all|].
  do 3 (apply sim_bind; [first [apply sim_stacktop|apply sim_check_one]|intros]). case_match; [sim_all|apply IH].
Qed.

Lemma sim_exec_checksig op : sim (exec_checksig tx n fl ht op).
Proof.
  unfold exec_checksig, push_bool, verify_tail.
  repeat first [apply sim_check_one|sim_prim].
Qed.

Lemma sim_exec_checkmultisig op : sim (exec_checkmultisig tx n fl ht op).
Proof.
  unfold exec_checkmultisig, push_bool, verify_tail.
  repeat first [apply sim_drop_signatures|apply sim_match_loop|sim_prim].
Qed.

Lemma sim_exec_opcode fExec op : sim (exec_opcode tx n fl ht pc fExec op).
Proof.
  unfold exec_opcode.
  repeat match goal with
  | |- sim (if ?b then _ else _) => destruct b
  end;
  first [apply sim_exec_checksig|apply sim_exec_checkmultisig|idtac];
  unfold exec_small_int, exec_checklocktime, exec_nop_upgradable, exec_if, exec_else, exec_endif, exec_verify,
    exec_toaltstack, exec_fromaltstack, exec_2drop, exec_2dup, exec_3dup, exec_2over, exec_2rot, exec_2swap,
    exec_ifdup, exec_depth, exec_drop, exec_dup, exec_nip, exec_over, exec_pick_roll, exec_rot, exec_swap,
    exec_tuck, exec_size, exec_equal, exec_unary, exec_binary, exec_within, exec_hash, exec_codeseparator,
    swap_top, push_bn, push_bool, verify_tail; sim_all.
Qed.

Lemma sim_size_limits : sim size_limits.
Proof.
  intros [] ? (c & -> & C1 & C2)%related_inv. unfold size_limits, mbind, SM_bind, gets, require. simpl in *.
  by case_match.
Qed.

Lemma sim_exec_instr op v : sim (exec_instr tx n fl ht pc op v).
Proof.
  unfold exec_instr, count_op.
  repeat first [apply sim_exec_opcode|apply sim_size_limits|sim_prim].
Qed.

End opcodes_sim.

Section scripts_sim.
Context `{BNLib} `{Digests} `{ECLib} `{SigEnv}.

Lemma sim_eval_loop tx n fl ht fuel pc : sim (eval_loop tx n fl ht fuel pc).
Proof.
  revert pc. induction fuel as [|fuel IH]; intros [|b pc]; cbn [eval_loop];
    repeat first [apply sim_exec_instr|apply IH|sim_prim].
Qed.

(** Verdict and stack of [EvalScript] do not depend on the cache, which stays sound. *)
Lemma EvalScript_cache st script tx n fl ht c1 c2 : cache_ok c1 -> cache_ok c2 ->
  (EvalScript st script tx n fl ht c1).1 = (EvalScript st script tx n fl ht c2).1 /\
  cache_ok (EvalScript st script tx n fl ht c1).2 /\ cache_ok (EvalScript st script tx n fl ht c2).2.
Proof.
  intros C1 C2. unfold EvalScript. destruct (10000 <? zlen script); [done|].
  destruct (sim_eval_loop tx n fl ht (length script) script (mk_eval st [] [] 0 script c1)
    (mk_eval st [] [] 0 script c2)) as [E R]; [by unfold related|].
  destruct (eval_loop _ _ _ _ _ _ (mk_eval _ _ _ _ _ c1)) as [[[]|] s1],
    (eval_loop _ _ _ _ _ _ (mk_eval _ _ _ _ _ c2)) as [[[]|] s2]; simpl in *; try done;
    apply related_inv in R as (c & -> & D1 & D2); destruct s1; done.
Qed.
End scripts_sim.
End CacheSimulation.
Export CacheSimulation.

(** Sizes of stacks given by their elements. *)
Ltac zsize :=
  simpl; repeat first [rewrite zlen_app | rewrite zlen_cons];
  repeat match goal with |- context [@zlen ?A []] => change (@zlen A []) with 0 end; lia.

(** ** Running scripts symbolically *)
Module RunFacts.
Lemma at_app_r {A} (l : list A) (t : list A) i : 0 <= i < zlen t ->
  at_ (l ++ t) (zlen (l ++ t) - zlen t + i) = t !! Z.to_nat i.
Proof.
  intros Hi. unfold at_, zlen in *. rewrite length_app.
  destruct (Z.ltb_spec (Z.of_nat (length l + length t) - Z.of_nat (length t) + i) 0); [lia|].
  rewrite lookup_app_r by lia. f_equal. lia.
Qed.

(** The [k]-th element from the top of a stack that ends with [t]. *)
Lemma top_of_app l t k : 1 <= k <= zlen t -> top_of k (l ++ t) = t !! Z.to_nat (zlen t - k).
Proof.
  intros Hk. unfold top_of. rewrite <- at_app_r with (l := l) by lia. f_equal. lia.
Qed.

Section run.
Context `{BNLib} `{Digests} `{ECLib} `{SigEnv}.
Variable tx : CTransaction.
Variable n : nat.
Variables fl ht : Z.

Lemma size_limits_ok s : zlen (stack s) + zlen (altstack s) <= 1000 -> size_limits s = (Some tt, s).
Proof.
  intros Hs. unfold size_limits, mbind, SM_bind, gets, require, id. by rewrite (proj2 (Z.ltb_ge _ _) Hs).
Qed.

Lemma size_limits_full s : 1000 < zlen (stack s) + zlen (altstack s) -> size_limits s = (None, s).
Proof.
  intros Hs. unfold size_limits, mbind, SM_bind, gets, require, id. by rewrite (proj2 (Z.ltb_lt _ _) Hs).
Qed.

(** A push: its effect, the size limit. *)
Lemma exec_instr_push_limits pc op v s : forallb id (vfExec s) = true -> 0 <= op <= OP_PUSHDATA4 ->
  zlen v <= MAX_SCRIPT_ELEMENT_SIZE ->
  exec_instr tx n fl ht pc op v s = size_limits (set_stack (stack s ++ [v]) s).
Proof.
  intros Hf Hop Hv. unfold exec_instr, count_op, OP_16, OP_PUSHDATA4 in *.
  assert (is_disabled op = false) as Hd.
  { unfold is_disabled. apply not_true_iff_false. intros E. apply existsb_exists in E as (d & Hin & E).
    apply Z.eqb_eq in E. subst d. simpl in Hin.
    unfold OP_CAT, OP_SUBSTR, OP_LEFT, OP_RIGHT, OP_INVERT, OP_AND, OP_OR, OP_XOR, OP_2MUL, OP_2DIV, OP_MUL,
      OP_DIV, OP_MOD, OP_LSHIFT, OP_RSHIFT in Hin. lia. }
  unfold mbind, SM_bind, gets, require. rewrite Hf, Hd.
  rewrite (proj2 (Z.ltb_ge _ _) Hv). destruct (Z.ltb_spec 0x60 op); [lia|].
  by rewrite (proj2 (Z.leb_le _ _) (proj1 Hop)), (proj2 (Z.leb_le _ _) (proj2 Hop)).
Qed.

Lemma exec_instr_push pc op v s : forallb id (vfExec s) = true -> 0 <= op <= OP_PUSHDATA4 ->
  zlen v <= MAX_SCRIPT_ELEMENT_SIZE -> zlen (stack s) + 1 + zlen (altstack s) <= 1000 ->
  exec_instr tx n fl ht pc op v s = (Some tt, set_stack (stack s ++ [v]) s).
Proof.
  intros Hf Hop Hv Hs. rewrite exec_instr_push_limits by done. apply size_limits_ok.
  simpl. rewrite zlen_app. change (zlen [v]) with 1. lia.
Qed.

(** An operator: its count, its effect, the size limit. *)
Lemma exec_instr_op pc op s : forallb id (vfExec s) = true -> OP_16 < op -> is_disabled op = false ->
  nOpCount s + 1 <= 201 ->
  exec_instr tx n fl ht pc op [] s =
    (exec_opcode tx n fl ht pc true op ;; size_limits) (set_nOpCount (nOpCount s + 1) s).
Proof.
  intros Hf Hop Hd Hn. unfold exec_instr, count_op, OP_16 in *.
  unfold mbind, SM_bind, gets, require. rewrite Hf, Hd.
  change (MAX_SCRIPT_ELEMENT_SIZE <? zlen []) with false. rewrite (proj2 (Z.ltb_lt _ _) Hop). simpl.
  rewrite (proj2 (Z.ltb_ge _ _) Hn). simpl. unfold OP_PUSHDATA4.
  destruct (Z.leb_spec op 0x4e); [lia|]. by rewrite andb_false_r.
Qed.

(** A run of data pushes. *)
Definition pushes (vs : list valtype) : bytes := concat (map (fun v => push_header (zlen v) ++ v) vs).

Lemma eval_pushes vs rest s : forallb id (vfExec s) = true -> Forall (fun v => zlen v <= MAX_SCRIPT_ELEMENT_SIZE) vs ->
  zlen (stack s) + zlen vs + zlen (altstack s) <= 1000 -> zlen (pushes vs ++ rest) < 2 ^ 32 ->
  eval_loop tx n fl ht (length (pushes vs ++ rest)) (pushes vs ++ rest) s =
  eval_loop tx n fl ht (length rest) rest (set_stack (stack s ++ vs) s).
Proof.
  revert s. induction vs as [|v vs IH]; intros s Hf Hv Hs Hl.
  { simpl. rewrite app_nil_r. by destruct s. }
  apply Forall_cons in Hv as [Hv Hvs]. unfold pushes in *. simpl in Hl |- *. rewrite <- !app_assoc in *.
  fold (pushes vs) in *. pose proof (zlen_nonneg (push_header (zlen v))). pose proof (zlen_nonneg v).
  pose proof (zlen_nonneg vs). rewrite zlen_cons in Hs. rewrite zlen_app in Hl.
  assert (GetOp (push_header (zlen v) ++ v ++ pushes vs ++ rest) = Some (push_opcode (zlen v), v, pushes vs ++ rest)) as E
    by (apply GetOp_push_data; lia).
  rewrite (eval_step _ _ _ _ _ _ _ _ _ E). unfold mbind at 1, SM_bind at 1.
  rewrite exec_instr_push; [|done|by apply push_opcode_range|done|lia].
  rewrite zlen_app in Hl. rewrite IH; [|done|done| |lia].
  2:{ cbn [set_stack stack altstack]. rewrite zlen_app. change (zlen [v]) with 1. lia. }
  simpl. by rewrite <- app_assoc.
Qed.

(** The stacks end with the operands an operator takes. *)
Lemma need_ok k s : k <= zlen (stack s) -> need k s = (Some tt, s).
Proof. intros Hk. unfold need, mbind, SM_bind, gets, require. by rewrite (proj2 (Z.leb_le _ _) Hk). Qed.

Lemma stacktop_ok k v s : top_of k (stack s) = Some v -> stacktop k s = (Some v, s).
Proof. intros E. unfold stacktop, mbind, SM_bind, gets, of_option. by rewrite E. Qed.

Lemma popstack_ok l v s : stack s = l ++ [v] -> popstack s = (Some tt, set_stack l s).
Proof.
  intros E. unfold popstack, mbind, SM_bind, gets. rewrite E, pop_back_app. by destruct l.
Qed.

Lemma push_ok v s : push v s = (Some tt, set_stack (stack s ++ [v]) s).
Proof. done. Qed.

Lemma bindS {A B} (m : Eval A) (f : A -> Eval B) s a s' : m s = (Some a, s') -> (m ≫= f) s = f a s'.
Proof. unfold mbind, SM_bind. by intros ->. Qed.
Lemma bindN {A B} (m : Eval A) (f : A -> Eval B) s s' : m s = (None, s') -> (m ≫= f) s = (None, s').
Proof. unfold mbind, SM_bind. by intros ->. Qed.

(** One operator of a script: what its handler does decides how the loop goes on. *)
Lemma run_op op rest s r s' : OP_16 < op < 256 -> is_disabled op = false -> vfExec s = [] -> nOpCount s + 1 <= 201 ->
  exec_opcode tx n fl ht rest true op (set_nOpCount (nOpCount s + 1) s) = (r, s') ->
  zlen (stack s') + zlen (altstack s') <= 1000 ->
  eval_loop tx n fl ht (length (B#op :: rest)) (B#op :: rest) s =
    match r with Some _ => eval_loop tx n fl ht (length rest) rest s' | None => (None, s') end.
Proof.
  intros Hop Hd Hf Hn He Hs. unfold OP_16 in Hop.
  rewrite (eval_step _ _ _ _ _ _ _ _ _ (GetOp_plain op rest ltac:(unfold OP_PUSHDATA4; lia))).
  assert (exec_instr tx n fl ht rest op [] s = (r, s')) as E.
  { rewrite exec_instr_op by (rewrite ?Hf; unfold OP_16; done || lia).
    destruct r as [[]|]; [rewrite (bindS _ _ _ _ _ He); by apply size_limits_ok|by apply bindN]. }
  destruct r as [[]|]; [by rewrite (bindS _ _ _ _ _ E)|by rewrite (bindN _ _ _ _ E)].
Qed.

(** An operator, or a push, that overfills the stacks ends the script. *)
Lemma run_op_full op rest s s' : OP_16 < op < 256 -> is_disabled op = false -> vfExec s = [] -> nOpCount s + 1 <= 201 ->
  exec_opcode tx n fl ht rest true op (set_nOpCount (nOpCount s + 1) s) = (Some tt, s') ->
  1000 < zlen (stack s') + zlen (altstack s') ->
  eval_loop tx n fl ht (length (B#op :: rest)) (B#op :: rest) s = (None, s').
Proof.
  intros Hop Hd Hf Hn He Hs. unfold OP_16 in Hop.
  rewrite (eval_step _ _ _ _ _ _ _ _ _ (GetOp_plain op rest ltac:(unfold OP_PUSHDATA4; lia))).
  apply bindN. rewrite exec_instr_op by (rewrite ?Hf; unfold OP_16; done || lia).
  rewrite (bindS _ _ _ _ _ He). by apply size_limits_full.
Qed.

Lemma run_push_full v rest s : forallb id (vfExec s) = true -> zlen v <= MAX_SCRIPT_ELEMENT_SIZE ->
  1000 < zlen (stack s) + 1 + zlen (altstack s) -> zlen (pushes [v] ++ rest) < 2 ^ 32 ->
  (eval_loop tx n fl ht (length (pushes [v] ++ rest)) (pushes [v] ++ rest) s).1 = None.
Proof.
  intros Hf Hv Hs Hl. unfold pushes in *. simpl in Hl |- *. rewrite app_nil_r, <- !app_assoc in *.
  pose proof (zlen_nonneg (push_header (zlen v))). pose proof (zlen_nonneg v). pose proof (zlen_nonneg rest).
  rewrite !zlen_app in Hl.
  assert (GetOp (push_header (zlen v) ++ v ++ rest) = Some (push_opcode (zlen v), v, rest)) as E
    by (apply GetOp_push_data; rewrite ?zlen_app; lia).
  rewrite (eval_step _ _ _ _ _ _ _ _ _ E). erewrite bindN; [done|].
  rewrite exec_instr_push_limits; [|done|apply push_opcode_range; lia|done]. apply size_limits_full.
  simpl. rewrite zlen_app. change (zlen [v]) with 1. lia.
Qed.

(** *** Handlers on a stack whose top is known *)
Lemma run_dup s l v : stack s = l ++ [v] -> exec_dup s = (Some tt, set_stack (l ++ [v; v]) s).
Proof.
  intros E. unfold exec_dup.
  rewrite (bindS _ _ s tt s); [|apply need_ok; rewrite E, zlen_app; pose proof (zlen_nonneg l); change (zlen [v]) with 1; lia].
  rewrite (bindS _ _ s v s); [|apply stacktop_ok; by rewrite E, top_of_app].
  rewrite push_ok, E. by rewrite <- app_assoc.
Qed.

Lemma run_hash160 s l v : stack s = l ++ [v] ->
  exec_hash OP_HASH160 s = (Some tt, set_stack (l ++ [Hash160Bytes v]) s).
Proof.
  intros E. unfold exec_hash.
  rewrite (bindS _ _ s tt s); [|apply need_ok; rewrite E, zlen_app; pose proof (zlen_nonneg l); change (zlen [v]) with 1; lia].
  rewrite (bindS _ _ s v s); [|apply stacktop_ok; by rewrite E, top_of_app].
  rewrite (bindS _ _ s tt (set_stack l s)); [|by apply (popstack_ok l v)]. done.
Qed.

Lemma need_2 s l a b : stack s = l ++ [a; b] -> need 2 s = (Some tt, s).
Proof. intros E. apply need_ok. rewrite E, zlen_app. pose proof (zlen_nonneg l). change (zlen [a; b]) with 2. lia. Qed.

Lemma tops_2 s l a b : stack s = l ++ [a; b] -> stacktop 2 s = (Some a, s) /\ stacktop 1 s = (Some b, s).
Proof. intros E. split; apply stacktop_ok; by rewrite E, top_of_app. Qed.

Lemma pop_2 s l a b : stack s = l ++ [a; b] ->
  popstack s = (Some tt, set_stack (l ++ [a]) s) /\
  popstack (set_stack (l ++ [a]) s) = (Some tt, set_stack l s).
Proof.
  intros E. split.
  - apply (popstack_ok _ b). rewrite E. change [a; b] with ([a] ++ [b]). by rewrite app_assoc.
  - by rewrite (popstack_ok l a).
Qed.

Lemma run_equalverify s l a b : stack s = l ++ [a; b] ->
  exec_equal OP_EQUALVERIFY s =
    if bool_decide (a = b) then (Some tt, set_stack l s) else (None, set_stack (l ++ [vchFalse]) s).
Proof.
  intros E. unfold exec_equal. destruct (tops_2 s l a b E) as [T2 T1]. destruct (pop_2 s l a b E) as [P1 P2].
  rewrite (bindS _ _ _ _ _ (need_2 s l a b E)), (bindS _ _ _ _ _ T2), (bindS _ _ _ _ _ T1).
  rewrite (bindS _ _ _ _ _ P1), (bindS _ _ _ _ _ P2).
  unfold push_bool, verify_tail. change (OP_EQUALVERIFY =? OP_EQUALVERIFY) with true. cbv iota.
  destruct (bool_decide (a = b)); rewrite (bindS _ _ _ _ _ (push_ok _ _)); [|done].
  by rewrite (popstack_ok l vchTrue).
Qed.

(** The check of one signature, encodings first. *)
Definition sig_ok (sig pk code : bytes) : bool :=
  encodings_ok fl sig pk && sig_valid sig pk code tx n ht.

Lemma run_check_one sig pk code s : cache_ok (cache s) ->
  exists c, cache_ok c /\
    check_one tx n fl ht sig pk code s =
      if has_flag fl SCRIPT_VERIFY_STRICTENC && negb (encodings_ok fl sig pk) then (None, s)
      else (Some (sig_ok sig pk code), set_cache c s).
Proof.
  intros Hc. unfold check_one, sig_ok.
  destruct (CheckSig_spec sig pk code tx n ht fl (cache s) Hc) as [Ev Hc'].
  destruct (has_flag fl SCRIPT_VERIFY_STRICTENC && negb (encodings_ok fl sig pk)) eqn:Es.
  { exists (cache s). split; [done|]. by apply bindN. }
  rewrite (bindS _ _ s tt s) by done.
  destruct (encodings_ok fl sig pk); simpl.
  - unfold check_sig. destruct (CheckSig _ _ _ _ _ _ _ (cache s)) as [b c]. simpl in *. exists c. by rewrite Ev.
  - exists (cache s). split; [done|]. by destruct s.
Qed.

Lemma run_checksig s l sig pk : stack s = l ++ [sig; pk] -> cache_ok (cache s) ->
  exists c, cache_ok c /\
    let code := drop_signature (pbegincodehash s) sig in
    let r := exec_checksig tx n fl ht OP_CHECKSIG s in
    (r.1 = None /\ encodings_ok fl sig pk = false /\ r.2 = s) \/
    r = (Some tt, set_cache c (set_stack (l ++ [if sig_ok sig pk code then vchTrue else vchFalse]) s)).
Proof.
  intros E Hc. destruct (tops_2 s l sig pk E) as [T2 T1].
  destruct (run_check_one sig pk (drop_signature (pbegincodehash s) sig) s Hc) as (c & Hc' & E1).
  exists c. split; [done|]. cbv zeta. unfold exec_checksig.
  rewrite (bindS _ _ _ _ _ (need_2 s l sig pk E)), (bindS _ _ _ _ _ T2), (bindS _ _ _ _ _ T1).
  rewrite (bindS _ _ s (pbegincodehash s) s) by done.
  destruct (has_flag fl SCRIPT_VERIFY_STRICTENC && negb (encodings_ok fl sig pk)) eqn:Es.
  { left. rewrite (bindN _ _ _ _ E1). apply andb_true_iff in Es as [_ Es].
    apply negb_true_iff in Es. done. }
  right. rewrite (bindS _ _ _ _ _ E1).
  destruct (pop_2 (set_cache c s) l sig pk E) as [P1 P2].
  rewrite (bindS _ _ _ _ _ P1), (bindS _ _ _ _ _ P2). unfold push_bool, verify_tail.
  change (OP_CHECKSIG =? OP_CHECKSIGVERIFY) with false. by rewrite (bindS _ _ _ _ _ (push_ok _ _)).
Qed.
End run.
End RunFacts.
Export RunFacts.

(** ** Matching signatures to keys *)
Module MatchFacts.
Section greedy.
Context {A B : Type} (ok : A -> B -> bool).

(** Each signature in turn is tried against the keys that are left. *)
Fixpoint greedy (sigs : list A) (keys : list B) : bool :=
  match keys with
  | [] => match sigs with [] => true | _ => false end
  | k :: keys' =>
    match sigs with
    | [] => true
    | s :: sigs' => if ok s k then greedy sigs' keys' else greedy sigs keys'
    end
  end.

(** What it decides: the signatures match some of the keys, in order. *)
Definition matches (sigs : list A) (keys : list B) : Prop :=
  exists ks, ks `sublist_of` keys /\ Forall2 (fun s k => ok s k = true) sigs ks.

Lemma greedy_nil keys : greedy [] keys = true.
Proof. by destruct keys. Qed.

Lemma greedy_matches sigs keys : greedy sigs keys = true <-> matches sigs keys.
Proof.
  revert sigs. induction keys as [|k keys IH]; intros sigs; simpl.
  - split.
    + destruct sigs; [|done]. intros _. exists []. by split; constructor.
    + intros (ks & Hs & Hf). apply sublist_nil_r in Hs as ->. by inversion Hf.
  - destruct sigs as [|s sigs].
    { split; [|done]. intros _. exists []. split; [apply sublist_nil_l|constructor]. }
    destruct (ok s k) eqn:E; rewrite IH; split.
    + intros (ks & Hs & Hf). exists (k :: ks). split; by constructor.
    + intros (ks & Hs & Hf). inversion Hf as [|? k' ? ks' Hk Hf']; subst.
      exists ks'. split; [|done]. apply sublist_cons_r in Hs as [Hs|(l' & [= <- <-] & Hs)]; [|done].
      etransitivity; [|exact Hs]. by apply sublist_cons.
    + intros (ks & Hs & Hf). exists ks. split; [by constructor|done].
    + intros (ks & Hs & Hf). exists ks. split; [|done].
      apply sublist_cons_r in Hs as [Hs|(l' & -> & Hs)]; [done|].
      inversion Hf; subst. congruence.
Qed.

(** The order of the scan does not matter. *)
Lemma matches_rev sigs keys : matches (reverse sigs) (reverse keys) <-> matches sigs keys.
Proof.
  assert (forall s k, matches s k -> matches (reverse s) (reverse k)) as Hr.
  { intros s k (ks & Hs & Hf). exists (reverse ks). split.
    - clear Hf. induction Hs as [|x l1 l2 _ IHs|x l1 l2 _ IHs]; [done| |]; rewrite !reverse_cons.
      + by apply sublist_app.
      + by apply sublist_inserts_r.
    - by apply Forall2_reverse. }
  split; intros Hm; [|by apply Hr]. rewrite <- (reverse_involutive sigs), <- (reverse_involutive keys). by apply Hr.
Qed.

Lemma matches_length sigs keys : matches sigs keys -> (length sigs <= length keys)%nat.
Proof. intros (ks & Hs & Hf). rewrite (Forall2_length _ _ _ Hf). by apply sublist_length. Qed.
End greedy.
End MatchFacts.
Export MatchFacts.

(** ** [OP_CHECKMULTISIG] *)
Module MultisigFacts.
Section multisig.
Context `{BNLib} `{Digests} `{ECLib} `{SigEnv}.
Variable tx : CTransaction.
Variable n : nat.
Variables fl ht : Z.

(** [l] lists the stack from its [i]-th element from the top downwards. *)
Definition down_from (i : Z) (l st : list valtype) : Prop :=
  forall a x, l !! a = Some x -> top_of (i + Z.of_nat a) st = Some x.

Lemma down_from_tail i x l st : down_from i (x :: l) st -> down_from (i + 1) l st.
Proof. intros Hd a y E. rewrite <- (Hd (S a) y E). f_equal. lia. Qed.

Lemma down_from_head i x l st : down_from i (x :: l) st -> top_of i st = Some x.
Proof. intros Hd. rewrite <- (Hd 0%nat x eq_refl). f_equal. lia. Qed.

Lemma down_from_reverse l1 l l2 :
  down_from (1 + zlen l2) (reverse l) (l1 ++ l ++ l2).
Proof.
  intros a x E. pose proof (lookup_lt_Some _ _ _ E) as Ha. rewrite length_reverse in Ha.
  rewrite reverse_lookup in E by done. rewrite top_of_app by (rewrite zlen_app; unfold zlen; lia).
  rewrite zlen_app. rewrite lookup_app_l by (unfold zlen; lia). rewrite <- E. f_equal. unfold zlen. lia.
Qed.

Lemma drop_signatures_spec sigs i code s : down_from i sigs (stack s) ->
  drop_signatures (length sigs) i code s = (Some (fold_left drop_signature sigs code), s).
Proof.
  revert i code. induction sigs as [|sig sigs IH]; intros i code Hd; [done|]. simpl.
  rewrite (bindS _ _ _ _ _ (stacktop_ok _ _ _ (down_from_head _ _ _ _ Hd))).
  apply IH. by apply down_from_tail in Hd.
Qed.

(** No pair of the operands fails the strict-encoding check. *)
Definition strict_ok (sigs keys : list valtype) : Prop :=
  forall sig pk, sig ∈ sigs -> pk ∈ keys ->
    has_flag fl SCRIPT_VERIFY_STRICTENC && negb (encodings_ok fl sig pk) = false.

Lemma match_loop_spec keys sigs i j code s : down_from i sigs (stack s) -> down_from j keys (stack s) ->
  strict_ok sigs keys -> cache_ok (cache s) ->
  exists c, cache_ok c /\
    match_loop tx n fl ht (length keys) (zlen sigs) i j code s =
      (Some (greedy (fun sig pk => sig_ok tx n fl ht sig pk code) sigs keys), set_cache c s).
Proof.
  revert sigs i j s. induction keys as [|pk keys IH]; intros sigs i j s Hs Hk Hst Hc.
  { exists (cache s). split; [done|]. simpl. destruct sigs; [by destruct s|].
    rewrite zlen_cons. pose proof (zlen_nonneg sigs). destruct (Z.leb_spec (1 + zlen sigs) 0); [lia|by destruct s]. }
  destruct sigs as [|sig sigs]; [exists (cache s); split; [done|by destruct s]|].
  cbn [length match_loop greedy]. rewrite zlen_cons. pose proof (zlen_nonneg sigs).
  destruct (Z.leb_spec (1 + zlen sigs) 0); [lia|].
  rewrite (bindS _ _ _ _ _ (stacktop_ok _ _ _ (down_from_head _ _ _ _ Hs))).
  rewrite (bindS _ _ _ _ _ (stacktop_ok _ _ _ (down_from_head _ _ _ _ Hk))).
  destruct (run_check_one tx n fl ht sig pk code s Hc) as (c & Hc' & E).
  rewrite (Hst sig pk) in E by (left). rewrite (bindS _ _ _ _ _ E). cbv zeta.
  apply down_from_tail in Hk. set (ok := sig_ok tx n fl ht sig pk code).
  assert (forall sg, (zlen sg <=? Z.of_nat (length keys)) = false ->
    greedy (fun sig pk => sig_ok tx n fl ht sig pk code) sg keys = false) as Hshort.
  { intros sg Hl. apply not_true_iff_false. intros Hg%greedy_matches%matches_length. unfold zlen in Hl. lia. }
  destruct ok.
  - destruct (Z.ltb_spec (Z.of_nat (length keys)) (1 + zlen sigs - 1)) as [Hlt|Hge].
    { exists c. split; [done|]. rewrite Hshort by lia. by destruct s. }
    replace (1 + zlen sigs - 1) with (zlen sigs) by lia.
    apply down_from_tail in Hs. destruct (IH sigs (i + 1) (j + 1) (set_cache c s) Hs Hk) as (c2 & Hc2 & E2); [|done|].
    + intros sg k Hsg Hkk. by apply Hst; right.
    + exists c2. split; [done|]. by rewrite E2.
  - destruct (Z.ltb_spec (Z.of_nat (length keys)) (1 + zlen sigs)) as [Hlt|Hge].
    { exists c. split; [done|]. rewrite Hshort by (rewrite zlen_cons; lia). by destruct s. }
    destruct (IH (sig :: sigs) i (j + 1) (set_cache c s) Hs Hk) as (c2 & Hc2 & E2); [|done|].
    + intros sg k Hsg Hkk. by apply Hst; [|right].
    + exists c2. split; [done|]. rewrite zlen_cons in E2. by rewrite E2.
Qed.

Lemma pop_n_spec t l s : stack s = l ++ t -> pop_n (length t) s = (Some tt, set_stack l s).
Proof.
  revert s. induction t as [|x t IH] using rev_ind; intros s E.
  { rewrite app_nil_r in E. destruct s. simpl in *. by subst. }
  rewrite length_app, Nat.add_comm. cbn [length Nat.add pop_n]. rewrite app_assoc in E.
  rewrite (bindS _ _ _ _ _ (popstack_ok _ _ _ E)). by rewrite IH.
Qed.

Lemma bn_top_ok k mx v z s : top_of k (stack s) = Some v -> CastToBigNum v mx = Some z ->
  bn_top k mx s = (Some z, s).
Proof. intros Et Ec. unfold bn_top. rewrite (bindS _ _ _ _ _ (stacktop_ok _ _ _ Et)). unfold of_option. by rewrite Ec. Qed.
End multisig.

Section opcode.
Context `{!BNLib} `{!BNLibOk} `{Digests} `{ECLib} `{SigEnv}.
Variable tx : CTransaction.
Variable n : nat.
Variables fl ht : Z.

Definition multisig_operands (dummy : valtype) (sigs : list valtype) (bm : valtype) (keys : list valtype)
    (bn : valtype) : list valtype := [dummy] ++ sigs ++ [bm] ++ keys ++ [bn].

(** Signatures and keys from the top of the stack downwards, the code they are checked against. *)
Definition multisig_ok (code : bytes) (sigs keys : list valtype) : bool :=
  greedy (fun sig pk => sig_ok tx n fl ht sig pk (fold_left drop_signature (reverse sigs) code))
    (reverse sigs) (reverse keys).

Lemma getint_small z : 0 <= z <= 20 -> CBigNum.getint z = z.
Proof. intros Hz. rewrite getint_clamp. repeat case_match; lia. Qed.

Lemma run_checkmultisig s l dummy sigs bm keys bn :
  stack s = l ++ multisig_operands dummy sigs bm keys bn ->
  CastToBigNum bn nDefaultMaxNumSize = Some (zlen keys) -> CastToBigNum bm nDefaultMaxNumSize = Some (zlen sigs) ->
  zlen sigs <= zlen keys <= 20 -> nOpCount s + zlen keys <= 201 -> strict_ok fl (reverse sigs) (reverse keys) ->
  has_flag fl SCRIPT_VERIFY_NULLDUMMY && negb (zlen dummy =? 0) = false -> cache_ok (cache s) ->
  exists c, cache_ok c /\
    exec_checkmultisig tx n fl ht OP_CHECKMULTISIG s =
      (Some tt, set_cache c (set_nOpCount (nOpCount s + zlen keys)
         (set_stack (l ++ [if multisig_ok (pbegincodehash s) sigs keys then vchTrue else vchFalse]) s))).
Proof.
  intros E Hbn Hbm Hlen Hop Hst Hnd Hc. unfold multisig_operands in E.
  pose proof (zlen_nonneg l). pose proof (zlen_nonneg sigs). pose proof (zlen_nonneg keys).
  assert (zlen (stack s) = zlen l + zlen sigs + zlen keys + 3) as Hsz.
  { rewrite E, !zlen_app. change (zlen [dummy]) with 1. change (zlen [bm]) with 1. change (zlen [bn]) with 1. lia. }
  assert (top_of 1 (stack s) = Some bn) as T1.
  { rewrite E, !app_assoc, top_of_app by (change (zlen [bn]) with 1; lia). done. }
  assert (top_of (2 + zlen keys) (stack s) = Some bm) as T2.
  { rewrite E. replace (l ++ [dummy] ++ sigs ++ [bm] ++ keys ++ [bn]) with
      ((l ++ [dummy] ++ sigs) ++ [bm] ++ keys ++ [bn]) by (by rewrite <- !app_assoc).
    rewrite top_of_app; rewrite !zlen_app; change (zlen [bm]) with 1; change (zlen [bn]) with 1; [|lia].
    by replace (1 + (zlen keys + 1) - (2 + zlen keys)) with 0 by lia. }
  assert (down_from 2 (reverse keys) (stack s)) as Dk.
  { rewrite E. replace (l ++ [dummy] ++ sigs ++ [bm] ++ keys ++ [bn]) with
      ((l ++ [dummy] ++ sigs ++ [bm]) ++ keys ++ [bn]) by (by rewrite <- !app_assoc).
    apply (down_from_reverse _ keys [bn]). }
  assert (down_from (3 + zlen keys) (reverse sigs) (stack s)) as Ds.
  { rewrite E. replace (l ++ [dummy] ++ sigs ++ [bm] ++ keys ++ [bn]) with
      ((l ++ [dummy]) ++ sigs ++ [bm] ++ keys ++ [bn]) by (by rewrite <- !app_assoc).
    pose proof (down_from_reverse (l ++ [dummy]) sigs ([bm] ++ keys ++ [bn])) as D.
    rewrite !zlen_app in D. change (zlen [bm]) with 1 in D. change (zlen [bn]) with 1 in D.
    by replace (1 + (1 + (zlen keys + 1))) with (3 + zlen keys) in D by lia. }
  unfold exec_checkmultisig.
  rewrite (bindS _ _ _ _ _ (need_ok 1 s ltac:(lia))), (bindS _ _ _ _ _ (bn_top_ok 1 _ _ _ s T1 Hbn)).
  rewrite getint_small by lia. destruct (Z.ltb_spec (zlen keys) 0); [lia|]. destruct (Z.ltb_spec 20 (zlen keys)); [lia|].
  rewrite (bindS _ _ s tt s) by done. set (s1 := set_nOpCount (nOpCount s + zlen keys) s).
  rewrite (bindS _ _ s tt s1) by done. rewrite (bindS _ _ s1 (nOpCount s + zlen keys) s1) by done.
  rewrite (proj2 (Z.ltb_ge _ _) Hop). rewrite (bindS _ _ s1 tt s1) by done. cbv zeta.
  rewrite (bindS _ _ _ _ _ (need_ok (2 + zlen keys) s1 ltac:(simpl; lia))).
  rewrite (bindS _ _ _ _ _ (bn_top_ok (2 + zlen keys) _ _ _ s1 T2 Hbm)). rewrite getint_small by lia.
  destruct (Z.ltb_spec (zlen sigs) 0); [lia|]. destruct (Z.ltb_spec (zlen keys) (zlen sigs)); [lia|].
  rewrite (bindS _ _ s1 tt s1) by done.
  replace (2 + zlen keys + 1) with (3 + zlen keys) by lia.
  rewrite (bindS _ _ _ _ _ (need_ok (3 + zlen keys + zlen sigs) s1 ltac:(simpl; lia))).
  rewrite (bindS _ _ s1 (pbegincodehash s) s1) by done.
  assert (Z.to_nat (zlen sigs) = length (reverse sigs)) as -> by (rewrite length_reverse; unfold zlen; lia).
  rewrite (bindS _ _ _ _ _ (drop_signatures_spec (reverse sigs) (3 + zlen keys) (pbegincodehash s) s1 Ds)).
  assert (Z.to_nat (zlen keys) = length (reverse keys)) as -> by (rewrite length_reverse; unfold zlen; lia).
  destruct (match_loop_spec tx n fl ht (reverse keys) (reverse sigs) (3 + zlen keys) 2
    (fold_left drop_signature (reverse sigs) (pbegincodehash s)) s1 Ds Dk Hst Hc) as (c & Hc' & Em).
  assert (zlen (reverse sigs) = zlen sigs) as Ez by (unfold zlen; by rewrite length_reverse).
  rewrite Ez in Em. rewrite (bindS _ _ _ _ _ Em). exists c. split; [done|].
  assert (Z.to_nat (3 + zlen keys + zlen sigs - 1) = length (sigs ++ [bm] ++ keys ++ [bn])) as ->
    by (rewrite !length_app; simpl; unfold zlen; lia).
  rewrite (bindS _ _ _ _ _ (pop_n_spec (sigs ++ [bm] ++ keys ++ [bn]) (l ++ [dummy]) (set_cache c s1)
    ltac:(simpl; rewrite E; by rewrite <- !app_assoc))).
  set (s2 := set_stack (l ++ [dummy]) (set_cache c s1)).
  rewrite (bindS _ _ _ _ _ (need_ok 1 s2 ltac:(simpl; rewrite zlen_app; change (zlen [dummy]) with 1; lia))).
  rewrite (bindS _ _ _ _ _ (stacktop_ok 1 dummy s2 ltac:(simpl; by rewrite top_of_app))).
  rewrite Hnd. rewrite (bindS _ _ s2 tt s2) by done.
  rewrite (bindS _ _ _ _ _ (popstack_ok l dummy s2 eq_refl)).
  unfold push_bool, verify_tail. change (OP_CHECKMULTISIG =? OP_CHECKMULTISIGVERIFY) with false.
  rewrite (bindS _ _ _ _ _ (push_ok _ _)). done.
Qed.
End opcode.
End MultisigFacts.
Export MultisigFacts.

(** ** [VerifyScript] *)
Module VerifyFacts.
Section verify.
Context `{BNLib} `{Digests} `{ECLib} `{SigEnv}.

(** The verdict on an input does not depend on the signature cache: from any two
    caches of verified signatures [VerifyScript] answers alike, and it leaves
    caches of verified signatures.  So a node that has seen the signatures
    before and one that has not accept the same transactions. *)
Theorem VerifyScript_cache_independent sig pk tx n fl ht c1 c2 : cache_ok c1 -> cache_ok c2 ->
  (VerifyScript sig pk tx n fl ht c1).1 = (VerifyScript sig pk tx n fl ht c2).1 /\
  cache_ok (VerifyScript sig pk tx n fl ht c1).2.
Proof.
  intros C1 C2. unfold VerifyScript.
  destruct (EvalScript_cache [] sig tx n fl ht c1 c2 C1 C2) as (E & D1 & D2).
  destruct (EvalScript [] sig tx n fl ht c1) as [[ok st] d1], (EvalScript [] sig tx n fl ht c2) as [[ok' st'] d2].
  simpl in E, D1, D2. injection E as <- <-. destruct ok; [|done]. simpl.
  destruct (EvalScript_cache st pk tx n fl ht d1 d2 D1 D2) as (E & F1 & F2).
  destruct (EvalScript st pk tx n fl ht d1) as [[ok1 st1] e1], (EvalScript st pk tx n fl ht d2) as [[ok2 st2] e2].
  simpl in E, F1, F2. injection E as <- <-. destruct ok1; [|done]. simpl.
  destruct (last st1); [|done]. destruct (CastToBool _); [|done]. simpl.
  destruct (IsPayToScriptHash pk); [|done]. destruct (IsPushOnly sig); [|done]. simpl.
  destruct (EvalScript_cache (pop_back st) (default [] (last st)) tx n fl ht e1 e2 F1 F2) as (E & G1 & G2).
  destruct (EvalScript (pop_back st) _ tx n fl ht e1) as [[ok3 st3] g1],
    (EvalScript (pop_back st) _ tx n fl ht e2) as [[ok4 st4] g2].
  simpl in E, G1, G2. injection E as <- <-. destruct ok3; [|done]. simpl. by destruct (last st3).
Qed.

(** *** Scripts that only push *)
Lemma EvalScript_pushes_eq st vs tx n fl ht c : Forall (fun v => zlen v <= MAX_SCRIPT_ELEMENT_SIZE) vs ->
  zlen st + zlen vs <= 1000 -> zlen (pushes vs) <= 10000 ->
  EvalScript st (pushes vs) tx n fl ht c = (true, st ++ vs, c).
Proof.
  intros Hv Hs Hl. unfold EvalScript. rewrite (proj2 (Z.ltb_ge _ _) Hl).
  pose proof (eval_pushes tx n fl ht vs [] (mk_eval st [] [] 0 (pushes vs) c)) as E.
  rewrite app_nil_r in E. rewrite E; simpl; [done|done|done|change (zlen []) with 0; lia|lia].
Qed.

(** *** Pay to public key hash *)
Definition p2pkh_script (h : bytes) : bytes :=
  B#OP_DUP :: B#OP_HASH160 :: pushes [h] ++ [B#OP_EQUALVERIFY; B#OP_CHECKSIG].

Definition verdict (st : list valtype) : bool :=
  match last st with Some v => CastToBool v | None => false end.

Lemma zlen_pushes_1 h : zlen h = 20 -> zlen (pushes [h]) = 21.
Proof. intros Hh. unfold pushes. simpl. rewrite app_nil_r, zlen_app, Hh. done. Qed.

(** The public-key script on a stack that ends with a signature and a key. *)
Lemma eval_p2pkh st sig pk h tx n fl ht c : cache_ok c -> zlen h = 20 -> zlen st <= 900 ->
  let r := EvalScript (st ++ [sig; pk]) (p2pkh_script h) tx n fl ht c in
  cache_ok r.2 /\
  (r.1.1 && verdict r.1.2 =
     bool_decide (Hash160Bytes pk = h) && sig_ok tx n fl ht sig pk (drop_signature (p2pkh_script h) sig)).
Proof.
  intros Hc Hh Hst. cbv zeta. pose proof (zlen_nonneg st) as Hst0.
  pose proof (zlen_pushes_1 h Hh) as Hp.
  assert (zlen (p2pkh_script h) = 25) as Hl.
  { unfold p2pkh_script. rewrite !zlen_cons, zlen_app, Hp. done. }
  unfold EvalScript. rewrite Hl. change (10000 <? 25) with false. cbv iota.
  set (s0 := mk_eval (st ++ [sig; pk]) [] [] 0 (p2pkh_script h) c).
  enough (forall r, eval_loop tx n fl ht (length (p2pkh_script h)) (p2pkh_script h) s0 = r ->
    cache_ok (cache r.2) /\
    (match r.1 with Some _ => bool_decide (vfExec r.2 = []) | None => false end) && verdict (stack r.2) =
    bool_decide (Hash160Bytes pk = h) && sig_ok tx n fl ht sig pk (drop_signature (p2pkh_script h) sig)) as Hr.
  { destruct (eval_loop tx n fl ht (length (p2pkh_script h)) (p2pkh_script h) s0) as [[[]|] s'];
      by destruct (Hr _ eq_refl). }
  change (p2pkh_script h) with (B#OP_DUP :: B#OP_HASH160 :: pushes [h] ++ [B#OP_EQUALVERIFY; B#OP_CHECKSIG]) at 1 2.
  assert (stack s0 = (st ++ [sig]) ++ [pk]) as E0 by (by rewrite <- app_assoc).
  rewrite (run_op tx n fl ht OP_DUP _ s0 (Some tt) (set_stack ((st ++ [sig]) ++ [pk; pk]) (set_nOpCount 1 s0)));
    [|done|done|done|done|by apply run_dup|zsize].
  set (s1 := set_stack _ _).
  assert (stack s1 = (st ++ [sig; pk]) ++ [pk]) as E1 by (simpl; by rewrite <- !app_assoc).
  rewrite (run_op tx n fl ht OP_HASH160 _ s1 (Some tt)
    (set_stack ((st ++ [sig; pk]) ++ [Hash160Bytes pk]) (set_nOpCount 2 s1)));
    [|done|done|done|done|by apply run_hash160|zsize].
  set (s2 := set_stack _ _).
  rewrite eval_pushes; [|done|repeat constructor; unfold MAX_SCRIPT_ELEMENT_SIZE; lia
    |zsize|rewrite zlen_app, Hp; done].
  set (s3 := set_stack _ _).
  assert (stack s3 = (st ++ [sig; pk]) ++ [Hash160Bytes pk; h]) as E3 by (simpl; by rewrite <- !app_assoc).
  pose proof (run_equalverify (set_nOpCount 3 s3) _ _ _ E3) as Heq.
  destruct (bool_decide (Hash160Bytes pk = h)).
  2:{ rewrite (run_op tx n fl ht OP_EQUALVERIFY _ s3 None (set_stack ((st ++ [sig; pk]) ++ [vchFalse]) (set_nOpCount 3 s3)));
        [intros r <-; split; [exact Hc|done]|done|done|done|done|exact Heq|zsize]. }
  rewrite (run_op tx n fl ht OP_EQUALVERIFY _ s3 (Some tt) (set_stack (st ++ [sig; pk]) (set_nOpCount 3 s3)));
    [|done|done|done|done|exact Heq|zsize].
  set (s4 := set_stack _ _).
  destruct (run_checksig tx n fl ht (set_nOpCount 4 s4) st sig pk eq_refl Hc) as (c' & Hc' & [(Er & Enc & Es)|Er]).
  - rewrite (run_op tx n fl ht OP_CHECKSIG _ s4 None (set_nOpCount 4 s4));
      [|done|done|done|done| |zsize].
    + intros r <-. split; [exact Hc|]. simpl. unfold sig_ok. by rewrite Enc.
    + change (exec_opcode tx n fl ht [] true OP_CHECKSIG) with (exec_checksig tx n fl ht OP_CHECKSIG).
      destruct (exec_checksig _ _ _ _ _ _) as [r t]. simpl in Er, Es. by subst.
  - erewrite (run_op tx n fl ht OP_CHECKSIG _ s4 (Some tt));
      [|done|done|done|done|exact Er|zsize].
    intros r <-. split; [exact Hc'|]. simpl. unfold verdict. rewrite last_snoc.
    change (pbegincodehash (set_nOpCount 4 s4)) with (p2pkh_script h). by destruct (sig_ok _ _ _ _ _ _ _).
Qed.

(** C1. A pay-to-public-key-hash output is spent exactly by a push of a signature and
    a push of a key whose hash is the one in the output, whose encodings are
    canonical, and whose signature is valid for the output script (with the
    signature itself removed from it); nothing else about flags, cache or hash
    type matters. *)
Theorem VerifyScript_p2pkh sig pk h tx n fl ht c : cache_ok c -> zlen h = 20 ->
  zlen sig <= MAX_SCRIPT_ELEMENT_SIZE -> zlen pk <= MAX_SCRIPT_ELEMENT_SIZE ->
  (VerifyScript (pushes [sig; pk]) (p2pkh_script h) tx n fl ht c).1 =
    bool_decide (Hash160Bytes pk = h) && CheckSignatureEncoding sig fl && CheckPubKeyEncoding pk &&
    sig_valid sig pk (drop_signature (p2pkh_script h) sig) tx n ht.
Proof.
  intros Hc Hh Hs Hk. unfold VerifyScript.
  assert (zlen (pushes [sig; pk]) <= 10000) as Hl.
  { unfold pushes. simpl. rewrite app_nil_r, !zlen_app. unfold MAX_SCRIPT_ELEMENT_SIZE in *.
    pose proof (zlen_push_header (zlen sig)). pose proof (zlen_push_header (zlen pk)). lia. }
  rewrite (EvalScript_pushes_eq [] [sig; pk]) by (repeat constructor; done || lia).
  simpl app. destruct (eval_p2pkh [] sig pk h tx n fl ht c Hc Hh) as [_ E]; [done|]. simpl app in E.
  destruct (EvalScript [sig; pk] (p2pkh_script h) tx n fl ht c) as [[ok st] c']. simpl in E |- *.
  assert (IsPayToScriptHash (p2pkh_script h) = false) as ->.
  { unfold IsPayToScriptHash. assert (zlen (p2pkh_script h) = 25) as ->; [|done].
    unfold p2pkh_script. by rewrite !zlen_cons, zlen_app, zlen_pushes_1. }
  unfold sig_ok, encodings_ok in E. rewrite !andb_assoc in E. rewrite <- E. unfold verdict.
  destruct ok; [|done]. simpl. destruct (last st); [|done]. by destruct (CastToBool _).
Qed.
End verify.
Lemma VerifyScript_cache_independent_witness :
  let V := @VerifyScript ref_bn dummy_digests dummy_ec toy_env in
  let pkscript := push_data [] toy_pk ++ [B#OP_CHECKSIG] in
  (V (push_data [] [B#1]) pkscript sample_tx 0%nat 0 0 (mk_cache [] 5)).1 =
  (V (push_data [] [B#1]) pkscript sample_tx 0%nat 0 0 empty_cache).1.
Proof.
  apply (@VerifyScript_cache_independent ref_bn dummy_digests dummy_ec toy_env);
    apply (@empty_cache_ok dummy_digests dummy_ec toy_env).
Defined.

Lemma VerifyScript_p2pkh_witness :
  let V := @VerifyScript ref_bn dummy_digests dummy_ec toy_env in
  let h := @Hash160Bytes dummy_digests toy_pk in
  (V (pushes [toy_der ++ [B#1]; toy_pk]) (p2pkh_script h) sample_tx 0%nat 0 0 empty_cache).1 = true.
Proof.
  cbv zeta. rewrite (@VerifyScript_p2pkh ref_bn dummy_digests dummy_ec toy_env).
  - vm_compute. reflexivity.
  - apply (@empty_cache_ok dummy_digests dummy_ec toy_env).
  - vm_compute. reflexivity.
  - vm_compute. discriminate.
  - vm_compute. discriminate.
Defined.
End VerifyFacts.
