(* ===== verification/InterpSame.v ===== *)
(** * InterpSame: what the interpreter sees of the transaction (src/src/script.cpp)

    Signature hashes leave the input scripts out, and the lock-time check reads the
    sequence number; so the verdict on one input does not depend on the scripts
    of the transaction's inputs, and an input that is signed stays valid while the
    others are signed. *)

From S2P Require Import Prelude BigNum ScriptOps Serialize Crypto Keys Core SigHash Interp.
From Stdlib Require Import FunctionalExtensionality.
Import SignatureHash_ SigHashFacts.

Section same.
Context `{BNLib} `{Digests} `{ECLib} `{SigEnv}.
Variables tx tx' : CTransaction.
Hypothesis Hsame : same_but_scripts tx tx'.

Lemma check_sig_same n fl ht : check_sig tx n fl ht = check_sig tx' n fl ht.
Proof.
  do 4 (apply functional_extensionality; intros ?). unfold check_sig, CheckSig. destruct (negb _); [done|]. destruct (_ : option _) as [[ht' sig]|]; [|done]. by rewrite (SignatureHash_ignores_scripts _ tx tx' n _ Hsame).
Qed.

Lemma CheckLockTime_same n lock : CheckLockTime tx n lock = CheckLockTime tx' n lock.
Proof.
  destruct Hsame as (_ & _ & El & _ & Ei). unfold CheckLockTime. rewrite El. pose proof (lookup_map_eq blank_input _ _ n Ei) as En.
  destruct (vin tx !! n) as [x|], (vin tx' !! n) as [x'|]; simpl in En; try done. injection En as E1 E2. unfold IsFinal. by rewrite E2.
Qed.

Lemma exec_opcode_same n fl ht pc b op : exec_opcode tx n fl ht pc b op = exec_opcode tx' n fl ht pc b op.
Proof.
  assert (check_one tx n fl ht = check_one tx' n fl ht) as Hone.
  { do 3 (apply functional_extensionality; intros ?). unfold check_one. by rewrite check_sig_same. }
  assert (exec_checklocktime tx n fl = exec_checklocktime tx' n fl) as Hlock.
  { unfold exec_checklocktime. replace (CheckLockTime tx n) with (CheckLockTime tx' n); [done|].
    apply functional_extensionality. intros lock. symmetry. apply CheckLockTime_same. }
  assert (match_loop tx n fl ht = match_loop tx' n fl ht) as Hloop by (unfold match_loop; by rewrite Hone).
  unfold exec_opcode, exec_checksig, exec_checkmultisig. by rewrite Hone, Hlock, Hloop.
Qed.

Lemma eval_loop_same n fl ht fuel pc : eval_loop tx n fl ht fuel pc = eval_loop tx' n fl ht fuel pc.
Proof.
  revert pc. induction fuel as [|fuel IH]; intros [|x pc]; [reflexivity|reflexivity|reflexivity|]. cbn [eval_loop].
  destruct (CScript.GetOp (x :: pc)) as [[[op v] pc']|]; [|reflexivity]. rewrite IH. unfold exec_instr.
  assert (exec_opcode tx n fl ht pc' = exec_opcode tx' n fl ht pc') as ->; [|done].
  do 2 (apply functional_extensionality; intros ?). apply exec_opcode_same.
Qed.

Lemma EvalScript_same st script n fl ht c : EvalScript st script tx n fl ht c = EvalScript st script tx' n fl ht c.
Proof. unfold EvalScript. by rewrite eval_loop_same. Qed.

Lemma VerifyScript_same scriptSig scriptPubKey n fl ht c :
  VerifyScript scriptSig scriptPubKey tx n fl ht c = VerifyScript scriptSig scriptPubKey tx' n fl ht c.
Proof.
  unfold VerifyScript. rewrite EvalScript_same. destruct (EvalScript [] _ _ _ _ _ _) as [[[] stk] c1]; [|done]. cbn [negb].
  rewrite EvalScript_same. destruct (EvalScript stk _ _ _ _ _ _) as [[[] stk2] c2]; [|done]. cbn [negb].
  destruct (last stk2); [|done]. destruct (negb _); [done|]. destruct (CScript.IsPayToScriptHash _); [|done].
  destruct (negb _); [done|]. by rewrite EvalScript_same.
Qed.
End same.
