(* ===== verification/InterpFlags.v ===== *)
(** * InterpFlags: the flag that keeps signatures out of the cache (src/src/script.cpp)

    Blocks are connected with [SCRIPT_VERIFY_NOCACHE], transactions of the pool and of block
    templates without it.  The flag says only what is stored in the signature
    cache: flags that agree but for it give the same verdict.  The proof is the
    cache simulation of InterpFacts, between two runs with different flags. *)

From S2P Require Import Prelude BigNum ScriptOps Serialize Crypto Keys Core SigHash Interp InterpFacts.
Import Encoding Stack CScript.

Section flags.
Context `{BNLib} `{Digests} `{ECLib} `{SigEnv}.
Variable tx : CTransaction.
Variable n : nat.
Variables fl fl' ht : Z.
Hypothesis Hflags : Z.lor fl SCRIPT_VERIFY_NOCACHE = Z.lor fl' SCRIPT_VERIFY_NOCACHE.

Lemma has_flag_same X : Z.land SCRIPT_VERIFY_NOCACHE X = 0 -> has_flag fl X = has_flag fl' X.
Proof.
  intros HX. unfold has_flag. pose proof (f_equal (fun z => Z.land z X) Hflags) as E. cbv beta in E.
  rewrite !Z.land_lor_distr_l, HX, !Z.lor_0_r in E. by rewrite E.
Qed.

(** Two computations that do the same from related states. *)
Definition sim2 {A} (m m' : Eval A) : Prop := forall s1 s2, related s1 s2 -> (m s1).1 = (m' s2).1 /\ related (m s1).2 (m' s2).2.

Lemma sim2_bind {A B} (m m' : Eval A) (f f' : A -> Eval B) : sim2 m m' -> (forall a, sim2 (f a) (f' a)) -> sim2 (m ≫= f) (m' ≫= f').
Proof.
  intros Hm Hf s1 s2 R. destruct (Hm s1 s2 R) as [E R']. unfold mbind, SM_bind.
  destruct (m s1) as [[a|] t1], (m' s2) as [[b|] t2]; simpl in *; simplify_eq; [by apply Hf|done].
Qed.

Lemma sim2_check_sig sig pk code : sim2 (check_sig tx n fl ht sig pk code) (check_sig tx n fl' ht sig pk code).
Proof.
  intros [] [] (E1 & E2 & E3 & E4 & E5 & C1 & C2). simpl in *. subst. unfold check_sig. simpl.
  destruct (CheckSig_spec sig pk code tx n ht fl _ C1) as [V1 D1].
  destruct (CheckSig_spec sig pk code tx n ht fl' _ C2) as [V2 D2].
  destruct (CheckSig _ _ _ _ _ _ _ cache), (CheckSig _ _ _ _ _ _ _ cache0). simpl in *.
  split; [by rewrite V1, V2|]. by unfold related.
Qed.

Lemma encodings_same sig pk : encodings_ok fl sig pk = encodings_ok fl' sig pk.
Proof. unfold encodings_ok, CheckSignatureEncoding. by rewrite (has_flag_same SCRIPT_VERIFY_ALLOW_EMPTY_SIG eq_refl), (has_flag_same SCRIPT_VERIFY_FIX_HASHTYPE eq_refl). Qed.

(** Both sides start with the same step, whose simulation is known. *)
Ltac same_step := apply sim2_bind; [change (sim2 ?m ?m) with (sim m); repeat sim_prim|intros].

Lemma sim2_check_one sig pk code : sim2 (check_one tx n fl ht sig pk code) (check_one tx n fl' ht sig pk code).
Proof.
  unfold check_one. rewrite encodings_same, (has_flag_same SCRIPT_VERIFY_STRICTENC eq_refl). same_step.
  destruct (encodings_ok _ _ _); [apply sim2_check_sig|apply sim_ret].
Qed.

Lemma sim2_match_loop k ns i j code : sim2 (match_loop tx n fl ht k ns i j code) (match_loop tx n fl' ht k ns i j code).
Proof.
  revert ns i j. induction k as [|k IH]; intros; simpl; (destruct (ns <=? 0); [apply sim_ret|]); [apply sim_ret|].
  do 2 same_step. apply sim2_bind; [apply sim2_check_one|intros]. destruct (_ <? _); [apply sim_ret|apply IH].
Qed.

Lemma sim2_exec_checksig op : sim2 (exec_checksig tx n fl ht op) (exec_checksig tx n fl' ht op).
Proof.
  unfold exec_checksig, push_bool, verify_tail. do 4 same_step. apply sim2_bind; [apply sim2_check_one|intros].
  change (sim2 ?m ?m) with (sim m). sim_all.
Qed.

Lemma sim2_exec_checkmultisig op : sim2 (exec_checkmultisig tx n fl ht op) (exec_checkmultisig tx n fl' ht op).
Proof.
  unfold exec_checkmultisig, push_bool, verify_tail. rewrite (has_flag_same SCRIPT_VERIFY_NULLDUMMY eq_refl). do 11 same_step.
  apply sim2_bind; [change (sim2 ?m ?m) with (sim m); apply sim_drop_signatures|intros].
  apply sim2_bind; [apply sim2_match_loop|intros]. change (sim2 ?m ?m) with (sim m). sim_all.
Qed.

Lemma sim2_exec_opcode pc b op : sim2 (exec_opcode tx n fl ht pc b op) (exec_opcode tx n fl' ht pc b op).
Proof.
  destruct ((op =? OP_CHECKSIG) || (op =? OP_CHECKSIGVERIFY)) eqn:E1.
  { assert (op = OP_CHECKSIG \/ op = OP_CHECKSIGVERIFY) as [-> | ->] by lia; apply sim2_exec_checksig. }
  destruct ((op =? OP_CHECKMULTISIG) || (op =? OP_CHECKMULTISIGVERIFY)) eqn:E2.
  { assert (op = OP_CHECKMULTISIG \/ op = OP_CHECKMULTISIGVERIFY) as [-> | ->] by lia; apply sim2_exec_checkmultisig. }
  assert (exec_opcode tx n fl ht pc b op = exec_opcode tx n fl' ht pc b op) as ->; [|apply sim_exec_opcode].
  unfold exec_opcode. rewrite E1, E2. unfold exec_checklocktime, exec_nop_upgradable.
  by rewrite !(has_flag_same SCRIPT_VERIFY_CHECKLOCKTIMEVERIFY eq_refl), !(has_flag_same SCRIPT_VERIFY_DISCOURAGE_UPGRADABLE_NOPS eq_refl).
Qed.

Lemma sim2_exec_instr pc op v : sim2 (exec_instr tx n fl ht pc op v) (exec_instr tx n fl' ht pc op v).
Proof.
  unfold exec_instr, count_op. do 4 same_step. apply sim2_bind; [|intros; apply sim_size_limits].
  destruct (_ && (op <=? OP_PUSHDATA4)); [apply sim_push|]. destruct (_ || _); [apply sim2_exec_opcode|apply sim_ret].
Qed.

Lemma sim2_eval_loop fuel pc : sim2 (eval_loop tx n fl ht fuel pc) (eval_loop tx n fl' ht fuel pc).
Proof.
  revert pc. induction fuel as [|fuel IH]; intros [|b pc]; cbn [eval_loop]; [apply sim_ret|apply sim_fail|apply sim_ret|].
  destruct (CScript.GetOp _) as [[[op v] pc']|]; [|apply sim_fail]. apply sim2_bind; [apply sim2_exec_instr|intros; apply IH].
Qed.

Lemma EvalScript_flags st script c1 c2 : cache_ok c1 -> cache_ok c2 ->
  (EvalScript st script tx n fl ht c1).1 = (EvalScript st script tx n fl' ht c2).1 /\
  cache_ok (EvalScript st script tx n fl ht c1).2 /\ cache_ok (EvalScript st script tx n fl' ht c2).2.
Proof.
  intros C1 C2. unfold EvalScript. destruct (10000 <? zlen script); [done|].
  destruct (sim2_eval_loop (length script) script (mk_eval st [] [] 0 script c1) (mk_eval st [] [] 0 script c2)) as [E R]; [by unfold related|].
  destruct (eval_loop _ _ _ _ _ _ (mk_eval _ _ _ _ _ c1)) as [[[]|] s1],
    (eval_loop _ _ _ _ _ _ (mk_eval _ _ _ _ _ c2)) as [[[]|] s2]; simpl in *; try done;
    apply related_inv in R as (c & -> & D1 & D2); destruct s1; done.
Qed.

(** The verdict under the two flags, whatever signatures are known. *)
Lemma VerifyScript_flags sig pk c1 c2 : cache_ok c1 -> cache_ok c2 ->
  (VerifyScript sig pk tx n fl ht c1).1 = (VerifyScript sig pk tx n fl' ht c2).1 /\
  cache_ok (VerifyScript sig pk tx n fl ht c1).2 /\ cache_ok (VerifyScript sig pk tx n fl' ht c2).2.
Proof.
  intros C1 C2. unfold VerifyScript. destruct (EvalScript_flags [] sig c1 c2 C1 C2) as (E & D1 & D2).
  destruct (EvalScript [] sig tx n fl ht c1) as [[ok st] d1], (EvalScript [] sig tx n fl' ht c2) as [[ok' st'] d2].
  simpl in E, D1, D2. injection E as <- <-. destruct ok; [|done]. simpl.
  destruct (EvalScript_flags st pk d1 d2 D1 D2) as (E & F1 & F2).
  destruct (EvalScript st pk tx n fl ht d1) as [[ok1 st1] e1], (EvalScript st pk tx n fl' ht d2) as [[ok2 st2] e2].
  simpl in E, F1, F2. injection E as <- <-. destruct ok1; [|done]. simpl.
  destruct (last st1); [|done]. destruct (CastToBool _); [|done]. simpl.
  destruct (CScript.IsPayToScriptHash pk); [|done]. destruct (CScript.IsPushOnly sig); [|done]. simpl.
  destruct (EvalScript_flags (pop_back st) (default [] (last st)) e1 e2 F1 F2) as (E & G1 & G2).
  destruct (EvalScript (pop_back st) _ tx n fl ht e1) as [[ok3 st3] g1],
    (EvalScript (pop_back st) _ tx n fl' ht e2) as [[ok4 st4] g2].
  simpl in E, G1, G2. injection E as <- <-. destruct ok3; [|done]. simpl. by destruct (last st3).
Qed.
End flags.
