(* ===== verification/InterpLimits.v ===== *)
(** * InterpLimits: the interpreter as a step relation, and the limits every reachable state obeys *)

From S2P Require Import Prelude BigNum ScriptOps Serialize Crypto Keys Core SigHash Interp InterpFacts.
Import Encoding Stack CScript.

(** ** One instruction as a step *)
Section steps.
Context `{BNLib} `{Digests} `{ECLib} `{SigEnv}.
Variable tx : CTransaction.
Variable n : nat.
Variables fl ht : Z.

(** The rest of the script and the state, before and after an instruction. *)
Inductive step : bytes * EvalState -> bytes * EvalState -> Prop :=
  | step_instr pc op v pc' s s' :
      GetOp pc = Some (op, v, pc') ->
      exec_instr tx n fl ht pc' op v s = (Some tt, s') ->
      step (pc, s) (pc', s').

Definition initial (st : list valtype) (script : bytes) (c : CSignatureCache) : bytes * EvalState :=
  (script, mk_eval st [] [] 0 script c).

Lemma step_shrinks x y : step x y -> (length y.1 < length x.1)%nat.
Proof. intros []. by eapply GetOp_shrinks. Qed.

Lemma step_deterministic x y z : step x y -> step x z -> y = z.
Proof. intros S1 S2. destruct S1. inversion S2. congruence. Qed.

Lemma eval_loop_steps pc s s' :
  eval_loop tx n fl ht (length pc) pc s = (Some tt, s') <-> rtc step (pc, s) ([], s').
Proof.
  split.
  - remember (length pc) as k eqn:Ek. revert pc s Ek.
    induction (lt_wf k) as [k _ IH]. intros pc s Ek. subst k.
    destruct pc as [|b pc]; [by intros [= ->]|]. intros E.
    destruct (GetOp (b :: pc)) as [[[op v] pc']|] eqn:Eg.
    2:{ cbn [length eval_loop] in E. by rewrite Eg in E. }
    rewrite (eval_step _ _ _ _ _ _ _ _ _ Eg) in E. unfold mbind, SM_bind in E.
    destruct (exec_instr _ _ _ _ _ _ _ s) as [[[]|] s1] eqn:Ei; [|done].
    eapply rtc_l; [by econstructor|]. eapply IH; [|done|done]. by eapply GetOp_shrinks.
  - intros Hr. remember (pc, s) as x eqn:Ex. remember ([], s') as y eqn:Ey. revert pc s Ex.
    induction Hr as [x|x y z Hs _ IH]; intros pc s ->.
    { by injection Ey as -> ->. }
    inversion Hs as [pc0 op v pc' s0 s1 Eg Ei]; subst.
    rewrite (eval_step _ _ _ _ _ _ _ _ _ Eg). unfold mbind, SM_bind. rewrite Ei. by apply IH.
Qed.
End steps.

(** ** Limits *)
Definition small (v : valtype) : Prop := zlen v <= MAX_SCRIPT_ELEMENT_SIZE.

Record limited (script : bytes) (s : EvalState) : Prop := {
  limited_stack : Forall small (stack s);
  limited_altstack : Forall small (altstack s);
  limited_ops : 0 <= nOpCount s <= 201;
  limited_code : pbegincodehash s `suffix_of` script
}.

(** A computation that, when it succeeds, leaves a limited state and a value in [Q]. *)
Definition good {A} (script : bytes) (m : Eval A) (Q : A -> Prop) : Prop :=
  triple (limited script) m (fun a s => limited script s /\ Q a) (fun _ => True).
Abbreviation any := (fun _ => True).

Section good.
Context `{BNLibOk} `{DigestsOk} `{ECLib} `{SigEnv}.
Variable script : bytes.

Lemma good_ret {A} (a : A) (Q : A -> Prop) : Q a -> good script (mret a) Q.
Proof. intros HQ. by apply triple_ret. Qed.
Lemma good_fail {A} (Q : A -> Prop) : good script fail Q.
Proof. by apply triple_fail. Qed.
Lemma good_bind {A B} (m : Eval A) (f : A -> Eval B) Q R :
  good script m Q -> (forall a, Q a -> good script (f a) R) -> good script (m ≫= f) R.
Proof.
  intros Hm Hf. eapply triple_bind; [exact Hm|]. intros a s [Hs Ha]. by apply (Hf a Ha).
Qed.
Lemma good_any {A} (m : Eval A) (Q : A -> Prop) : good script m Q -> good script m any.
Proof. intros Hm. eapply triple_weaken; [exact Hm|done| |done]. by intros a s [? ?]. Qed.
Lemma good_require b : good script (require b) any.
Proof. destruct b; [by apply good_ret|apply good_fail]. Qed.
Lemma good_of_option {A} (o : option A) (Q : A -> Prop) : (forall a, o = Some a -> Q a) -> good script (of_option o) Q.
Proof. intros Ho. destruct o; [by apply good_ret, Ho|apply good_fail]. Qed.
Lemma good_gets {A} (f : EvalState -> A) (Q : A -> Prop) : (forall s, limited script s -> Q (f s)) ->
  good script (gets f) Q.
Proof. intros Hf s Hs. split; [done|by apply Hf]. Qed.
Lemma good_modify f : (forall s, limited script s -> limited script (f s)) -> good script (modify f) any.
Proof. intros Hf s Hs. split; [by apply Hf|done]. Qed.

Lemma good_stack : good script (gets stack) (Forall small).
Proof. apply good_gets. by intros s []. Qed.
Lemma good_altstack : good script (gets altstack) (Forall small).
Proof. apply good_gets. by intros s []. Qed.

Lemma good_set_stack f : (forall l, Forall small l -> Forall small (f l)) ->
  good script (modify (fun s => set_stack (f (stack s)) s)) any.
Proof. intros Hf. apply good_modify. intros s []. split; try done. by apply Hf. Qed.

(** The primitives of the stack. *)
Lemma good_need k : good script (need k) any.
Proof. eapply good_bind; [apply good_stack|]. intros. apply good_require. Qed.
Lemma good_stacktop i : good script (stacktop i) small.
Proof.
  eapply good_bind; [apply good_stack|]. intros l Hl. apply good_of_option. intros a Ha.
  by eapply Forall_at in Ha.
Qed.
Lemma good_popstack : good script popstack any.
Proof.
  eapply good_bind; [apply good_stack|]. intros l Hl. destruct l as [|v l]; [apply good_fail|].
  apply good_modify. intros s []. split; try done. by apply Forall_pop_back.
Qed.
Lemma good_push v : small v -> good script (push v) any.
Proof. intros Hv. apply (good_set_stack (fun l => l ++ [v])). intros l Hl. apply Forall_app; auto. Qed.
Lemma good_set_top i v : small v -> good script (set_top i v) any.
Proof.
  intros Hv. apply (good_set_stack (fun l => <[Z.to_nat (zlen l - i) := v]> l)). intros l Hl.
  by apply Forall_insert.
Qed.
Lemma good_swap_top i j : good script (swap_top i j) any.
Proof.
  eapply good_bind; [apply good_stacktop|]. intros a Ha. eapply good_bind; [apply good_stacktop|]. intros b Hb.
  eapply good_bind; [by apply good_set_top|]. intros _ _. by apply good_set_top.
Qed.
Lemma good_erase_top i j : good script (erase_top i j) any.
Proof.
  apply (good_set_stack (fun l => erase l (Z.to_nat (zlen l - i)) (Z.to_nat (zlen l - j)))). intros l Hl.
  apply Forall_app. split; [by apply Forall_take|by apply Forall_drop].
Qed.
Lemma good_insert_top i v : small v -> good script (insert_top i v) any.
Proof.
  intros Hv. apply (good_set_stack (fun l => insert_at l (Z.to_nat (zlen l - i)) v)). intros l Hl.
  apply Forall_app. split; [by apply Forall_take|]. constructor; [done|by apply Forall_drop].
Qed.
Lemma good_pop_n k : good script (pop_n k) any.
Proof.
  induction k as [|k IH]; [by apply good_ret|]. eapply good_bind; [apply good_popstack|]. by intros.
Qed.
Lemma good_push_bool b : good script (push_bool b) any.
Proof. apply good_push. by destruct b. Qed.
Lemma good_verify_tail b ok : good script (verify_tail b ok) any.
Proof. destruct b, ok; first [apply good_popstack|apply good_fail|by apply good_ret]. Qed.

(** Numbers: operands of at most four bytes give results of at most five. *)
Definition operand (z : Z) : Prop := - 2 ^ 31 < z < 2 ^ 31.

Lemma CastToBigNum_operand v z : CastToBigNum v nDefaultMaxNumSize = Some z -> operand z.
Proof.
  unfold CastToBigNum, nDefaultMaxNumSize, operand. destruct (Z.ltb_spec 4 (zlen v)) as [|Hv]; [done|].
  intros E. apply (inj Some) in E. subst z.
  assert (zlen v < 2 ^ 31) as Hl by lia.
  assert (Z.abs (CBigNum.setvch v) < 2 ^ 31) as Ha.
  { rewrite setvch_value by done.
    assert (zlen (rev v) = zlen v) as Er by (unfold zlen; by rewrite length_rev).
    destruct (ScriptNumber.mpi_value_upper (rev v)) as [Hu|Hu]; [|rewrite Hu; done].
    rewrite Er in Hu. pose proof (zlen_nonneg v).
    assert (256 ^ (zlen v - 1) <= 256 ^ 3) by (apply Z.pow_le_mono_r; lia). lia. }
  rewrite setvch_getvch; [lia|]. unfold zlen.
  pose proof (length_mpi_encode_le (CBigNum.setvch v) 3 ltac:(lia)). lia.
Qed.

Lemma small_getvch z : Z.abs z < 2 ^ 40 -> small (CBigNum.getvch z).
Proof.
  intros Hz. pose proof (length_mpi_encode_le z 5 ltac:(lia)) as Hl. unfold small, MAX_SCRIPT_ELEMENT_SIZE.
  rewrite getvch_encode by (unfold zlen; lia). unfold zlen. rewrite length_rev. lia.
Qed.
Lemma good_push_bn z : Z.abs z < 2 ^ 40 -> good script (push_bn z) any.
Proof. intros Hz. by apply good_push, small_getvch. Qed.
Lemma good_bn_top i : good script (bn_top i nDefaultMaxNumSize) operand.
Proof.
  eapply good_bind; [apply good_stacktop|]. intros v _. apply good_of_option. intros z. apply CastToBigNum_operand.
Qed.
Lemma good_bn_top_any i k : good script (bn_top i k) any.
Proof. eapply good_bind; [apply good_stacktop|]. intros v _. by apply good_of_option. Qed.

(** The operation count, with what follows its check. *)
Lemma good_count {A} k (m : Eval A) Q : 0 <= k -> good script m Q ->
  good script (modify (fun s => set_nOpCount (nOpCount s + k) s) ;; ops ← gets nOpCount; require (negb (201 <? ops)) ;; m) Q.
Proof.
  intros Hk Hm s [Hs Ha Ho Hc]. sm_run. destruct (Z.ltb_spec 201 (nOpCount s + k)) as [|Hle]; [done|]. simpl.
  apply (Hm (set_nOpCount (nOpCount s + k) s)). split; try done. simpl. lia.
Qed.
End good.

(** ** Every opcode keeps the limits *)
Ltac good_step :=
  lazymatch goal with
  | |- good _ (mret _) _ => by apply good_ret
  | |- good _ fail _ => apply good_fail
  | |- good _ (require _) _ => apply good_require
  | |- good _ (need _) _ => apply good_need
  | |- good _ (stacktop _) _ => apply good_stacktop
  | |- good _ popstack _ => apply good_popstack
  | |- good _ (push _) _ => apply good_push; try done
  | |- good _ (swap_top _ _) _ => apply good_swap_top
  | |- good _ (erase_top _ _) _ => apply good_erase_top
  | |- good _ (insert_top _ _) _ => apply good_insert_top; try done
  | |- good _ (pop_n _) _ => apply good_pop_n
  | |- good _ (push_bool _) _ => apply good_push_bool
  | |- good _ (verify_tail _ _) _ => apply good_verify_tail
  | |- good _ (bn_top _ nDefaultMaxNumSize) _ => apply good_bn_top
  | |- good _ (bn_top _ _) _ => apply good_bn_top_any
  | |- good _ (push_bn _) _ => apply good_push_bn
  | |- good _ (gets stack) _ => apply good_stack
  | |- good _ (gets altstack) _ => apply good_altstack
  | |- good _ (gets _) _ => apply (good_gets _ _ any); done
  | |- good _ (modify _) _ => apply good_modify; intros ? []; split; try done
  | |- good _ ((if _ then _ else _) ≫= _) _ => eapply (good_bind _ _ _ any); [|intros]
  | |- good _ (_ ≫= _) _ => eapply good_bind; [|intros]
  | |- good _ (if ?b then _ else _) _ => destruct b
  end.
Ltac good_solve := repeat good_step.

Section opcodes_good.
Context `{BNLibOk} `{DigestsOk} `{ECLib} `{SigEnv}.
Variable script : bytes.
Variable tx : CTransaction.
Variable n : nat.
Variables fl ht : Z.
Variable pc : bytes.
Hypothesis Hpc : pc `suffix_of` script.

Lemma good_check_sig sig pk code : good script (check_sig tx n fl ht sig pk code) any.
Proof. intros s Hs. unfold check_sig. destruct (CheckSig _ _ _ _ _ _ _ _) as [b c]. by destruct Hs. Qed.

Lemma good_check_one sig pk code : good script (check_one tx n fl ht sig pk code) any.
Proof.
  unfold check_one. eapply good_bind; [apply good_require|]. intros. destruct (encodings_ok _ _ _).
  - apply good_check_sig.
  - by apply good_ret.
Qed.

Lemma good_drop_signatures k i code : good script (drop_signatures k i code) any.
Proof.
  revert i code. induction k; intros; simpl; [by apply good_ret|].
  eapply good_bind; [apply good_stacktop|]. intros. apply IHk.
Qed.

Lemma good_match_loop k ns i j code : good script (match_loop tx n fl ht k ns i j code) any.
Proof.
  revert ns i j. induction k as [|k IH]; intros; simpl; destruct (ns <=? 0); try by apply good_ret.
  do 2 (eapply good_bind; [apply good_stacktop|intros]). eapply good_bind; [apply good_check_one|].
  intros. case_match; [by apply good_ret|apply IH].
Qed.

Lemma good_checksig op : good script (exec_checksig tx n fl ht op) any.
Proof. unfold exec_checksig. repeat first [apply good_check_one|good_step]. Qed.

Lemma good_checkmultisig op : good script (exec_checkmultisig tx n fl ht op) any.
Proof.
  unfold exec_checkmultisig. good_step; [apply good_need|]. good_step; [apply good_bn_top|].
  cbv zeta.
  assert (forall (b : bool) (m : Eval unit), (b = true -> good script m any) -> good script (require b ;; m) any) as Hr.
  { intros [] m Hm; [by apply Hm|]. apply (good_fail script). }
  apply Hr. intros Hb. apply good_count.
  { apply negb_true_iff, orb_false_iff in Hb as [Hb _]. lia. }
  repeat first [apply good_drop_signatures|apply good_match_loop|good_step].
Qed.

Lemma small_hash op vch : small
  (if op =? OP_RIPEMD160 then RIPEMD160 vch else if op =? OP_SHA1 then SHA1 vch
   else if op =? OP_SHA256 then SHA256 vch else if op =? OP_HASH160 then Hash160Bytes vch else HashBytes vch).
Proof.
  unfold small, zlen, Hash160Bytes, HashBytes, MAX_SCRIPT_ELEMENT_SIZE.
  repeat case_match; rewrite ?length_RIPEMD160, ?length_SHA1, ?length_SHA256; lia.
Qed.

Lemma unary_bound op z : operand z -> Z.abs (unary_op op z) < 2 ^ 40.
Proof.
  unfold operand, unary_op. intros.
  repeat case_match; try lia; match goal with |- context [Z.b2z ?x] => by destruct x end.
Qed.

Lemma binary_bound op a b : operand a -> operand b -> Z.abs (binary_op op a b) < 2 ^ 40.
Proof.
  unfold operand, binary_op. intros.
  repeat case_match; try lia; match goal with |- context [Z.b2z ?x] => by destruct x end.
Qed.

Lemma good_depth : triple (fun s => limited script s /\ zlen (stack s) <= 1000) exec_depth
  (fun _ s => limited script s) any.
Proof.
  intros s [Hs Hd]. unfold exec_depth. rewrite (bindS _ _ s (stack s) s) by done.
  pose proof (zlen_nonneg (stack s)). unfold CBigNum.of_int. rewrite (proj2 (Z.leb_le 0 _)) by lia.
  pose proof (good_push_bn script (zlen (stack s)) ltac:(lia) s Hs) as Hp.
  destruct (push_bn _ s) as [[]]; [by destruct Hp|done].
Qed.

Lemma good_alternatives : good script exec_else any /\ good script exec_endif any /\ good script exec_fromaltstack any.
Proof.
  unfold exec_else, exec_endif, exec_fromaltstack.
  split; [|split]; (eapply good_bind; [good_step|]).
  - intros l _. destruct (last l); good_solve.
  - intros l _. destruct l; good_solve.
  - intros l Hl. destruct (last l) as [v|] eqn:E; good_solve; [|by apply Forall_pop_back].
    apply last_Some in E as [l' ->]. apply Forall_app in Hl as [_ Hv]. by inversion Hv.
Qed.

Lemma small_size v : small v -> Z.abs (CBigNum.of_int (zlen v)) < 2 ^ 40.
Proof.
  unfold small, MAX_SCRIPT_ELEMENT_SIZE, CBigNum.of_int. pose proof (zlen_nonneg v).
  rewrite (proj2 (Z.leb_le 0 _)) by lia. lia.
Qed.

Lemma good_small_int op : (op =? OP_1NEGATE) || ((OP_1 <=? op) && (op <=? OP_16)) = true ->
  good script (exec_small_int op) any.
Proof.
  intros E%orb_true_iff. apply good_push_bn. unfold CBigNum.of_int, OP_1NEGATE, OP_1, OP_16 in *.
  case_match; [lia|]. rewrite setint64_exact; [lia|]. unfold in_s. lia.
Qed.

Lemma good_opcode fExec op : op <> OP_DEPTH -> good script (exec_opcode tx n fl ht pc fExec op) any.
Proof.
  intros Hne. unfold exec_opcode. destruct ((op =? OP_1NEGATE) || _) eqn:Esmall; [by apply good_small_int|].
  clear Esmall. destruct good_alternatives as (He & Hn & Hf).
  repeat match goal with
  | |- good _ (if op =? OP_DEPTH then _ else _) _ => destruct (Z.eqb_spec op OP_DEPTH); [done|]
  | |- good _ (if ?b then _ else _) _ => destruct b
  end;
  first [apply good_checksig|apply good_checkmultisig|assumption|idtac];
  unfold exec_checklocktime, exec_nop_upgradable, exec_if, exec_verify,
    exec_toaltstack, exec_2drop, exec_2dup, exec_3dup, exec_2over, exec_2rot, exec_2swap,
    exec_ifdup, exec_drop, exec_dup, exec_nip, exec_over, exec_pick_roll, exec_rot, exec_swap,
    exec_tuck, exec_size, exec_equal, exec_unary, exec_binary, exec_within, exec_hash, exec_codeseparator;
  cbv zeta; good_solve; auto using small_size, small_hash, unary_bound, binary_bound.
  apply Forall_app; auto.
Qed.
End opcodes_good.

(** ** Reachable states *)
Module LimitFacts.
Definition total (s : EvalState) : Z := zlen (stack s) + zlen (altstack s).

Section reach.
Context `{BNLibOk} `{DigestsOk} `{ECLib} `{SigEnv}.
Variable tx : CTransaction.
Variable n : nat.
Variables fl ht : Z.

Lemma eval_bind_inv {A B} (m : Eval A) (f : A -> Eval B) s b s' : (m ≫= f) s = (Some b, s') ->
  exists a s1, m s = (Some a, s1) /\ f a s1 = (Some b, s').
Proof. unfold mbind, SM_bind. destruct (m s) as [[a|] s1]; [eauto|done]. Qed.

Lemma require_inv b s u s' : @require EvalState b s = (Some u, s') -> b = true /\ s' = s.
Proof. destruct b; [by intros [= <- <-]|done]. Qed.

Lemma good_run {A} script (m : Eval A) Q s a s' : good script m Q -> limited script s -> m s = (Some a, s') ->
  limited script s' /\ Q a.
Proof. intros Hm Hs E. specialize (Hm s Hs). by rewrite E in Hm. Qed.

Lemma count_op_limited script op s u s' : limited script s -> count_op op s = (Some u, s') ->
  limited script s' /\ stack s' = stack s /\ altstack s' = altstack s.
Proof.
  intros [Hs Ha Ho Hc]. unfold count_op. destruct (OP_16 <? op); [|by intros [= <- <-]].
  intros (? & s1 & [= <- <-] & (? & s2 & [= <- <-] & (Hb & ->)%require_inv)%eval_bind_inv)%eval_bind_inv.
  apply negb_true_iff in Hb. simpl in Hb. repeat split; simpl in *; done || lia.
Qed.

Lemma size_limits_inv s u s' : size_limits s = (Some u, s') -> total s' <= 1000 /\ s' = s.
Proof.
  intros (? & s1 & [= <- <-] & (Hb & ->)%require_inv)%eval_bind_inv. apply negb_true_iff in Hb.
  split; [|done]. unfold total, id in *. lia.
Qed.

(** An instruction keeps a limited state limited. *)
Lemma instr_limited script pc op v s s' : pc `suffix_of` script -> limited script s -> total s <= 1000 ->
  exec_instr tx n fl ht pc op v s = (Some tt, s') -> limited script s' /\ total s' <= 1000.
Proof.
  intros Hpc Hs Ht. unfold exec_instr.
  intros (vf & s1 & [= <- <-] & (? & s2 & (Hv & ->)%require_inv & (? & s3 & Hcnt & E)%eval_bind_inv)%eval_bind_inv)%eval_bind_inv.
  apply eval_bind_inv in E as (? & s4 & (_ & ->)%require_inv & (? & s5 & Hex & (Ht' & ->)%size_limits_inv)%eval_bind_inv).
  split; [|done]. destruct (count_op_limited script op s _ s3 Hs Hcnt) as (Hl & Es & Ea).
  apply negb_true_iff in Hv.
  destruct (_ && (op <=? OP_PUSHDATA4)).
  { refine (proj1 (good_run _ _ _ _ _ _ (good_push script v _) Hl Hex)). unfold small. lia. }
  destruct (_ || _); [|by injection Hex as <- <-].
  destruct (decide (op = OP_DEPTH)) as [->|Hne].
  - change (exec_opcode tx n fl ht pc (forallb id (vfExec s)) OP_DEPTH) with exec_depth in Hex.
    pose proof (good_depth script s3) as Hd. rewrite Hex in Hd. apply Hd. split; [done|].
    rewrite Es. unfold total in Ht. pose proof (zlen_nonneg (altstack s)). lia.
  - by apply (good_run _ _ _ _ _ _ (good_opcode script tx n fl ht pc Hpc _ op Hne) Hl Hex).
Qed.

Lemma step_limited script x y : step tx n fl ht x y ->
  x.1 `suffix_of` script /\ limited script x.2 /\ total x.2 <= 1000 ->
  y.1 `suffix_of` script /\ limited script y.2 /\ total y.2 <= 1000.
Proof.
  intros [pc op v pc' s s' Eg Ei] (Hpc & Hs & Ht). simpl in *.
  assert (pc' `suffix_of` script).
  { etransitivity; [|exact Hpc]. apply GetOp_shape in Eg as (h & _ & -> & _). exists (h ++ v). by rewrite app_assoc. }
  split; [done|]. by eapply instr_limited.
Qed.

(** C22. Whatever a script does, every state it reaches from a stack within the
    limits is within them: at most 1000 elements on the two stacks together,
    each of at most 520 bytes, at most 201 counted operations, with the program
    counter and the code that signatures cover both at suffixes of the script. *)
Theorem reachable_limits st script c pc s :
  Forall small st -> zlen st <= 1000 -> rtc (step tx n fl ht) (initial st script c) (pc, s) ->
  Forall small (stack s ++ altstack s) /\ zlen (stack s) + zlen (altstack s) <= 1000 /\
  0 <= nOpCount s <= 201 /\ pc `suffix_of` script /\ pbegincodehash s `suffix_of` script.
Proof.
  intros Hst Hlen Hr.
  assert (pc `suffix_of` script /\ limited script s /\ total s <= 1000) as (Hpc & [] & Ht).
  { apply (rtc_ind_r (fun y => y.1 `suffix_of` script /\ limited script y.2 /\ total y.2 <= 1000)
      (initial st script c)) in Hr; [done| |].
    - unfold total. simpl. change (zlen []) with 0. split; [done|]. split; [|lia]. split; simpl; auto with lia.
    - intros y z _ Hs IH. by eapply step_limited. }
  rewrite Forall_app. done.
Qed.

(** [EvalScript] succeeds exactly when the script is at most 10000 bytes long and
    its instructions, run one after the other, reach the end of the script with
    no conditional open; it then returns the stack and the cache of that state. *)
Theorem EvalScript_steps st script c st' c' :
  EvalScript st script tx n fl ht c = (true, st', c') <->
  zlen script <= 10000 /\ exists s, rtc (step tx n fl ht) (initial st script c) ([], s) /\
    vfExec s = [] /\ stack s = st' /\ cache s = c'.
Proof.
  unfold EvalScript. destruct (Z.ltb_spec 10000 (zlen script)) as [Hl|Hl].
  { split; [done|]. intros [? _]. lia. }
  set (s0 := mk_eval st [] [] 0 script c). split.
  - destruct (eval_loop tx n fl ht (length script) script s0) as [[[]|] s] eqn:E; [|done].
    intros [= Hv%bool_decide_eq_true <- <-]. split; [done|]. exists s.
    split; [by apply eval_loop_steps|done].
  - intros (_ & s & Hr & Hv & <- & <-). apply eval_loop_steps in Hr. unfold s0. rewrite Hr.
    by rewrite bool_decide_eq_true_2.
Qed.
End reach.

Lemma reachable_limits_witness :
  let s := mk_eval [[B#7]; [B#7]] [] [] 1 [B#1; B#7; B#OP_DUP] empty_cache in
  rtc (@step ref_bn dummy_digests dummy_ec toy_env sample_tx 0%nat 0 0)
    (initial [] [B#1; B#7; B#OP_DUP] empty_cache) ([], s) /\
  0 <= nOpCount s <= 201.
Proof.
  cbv zeta. match goal with |- ?A /\ _ => assert A as Hr end.
  { apply (proj1 (@eval_loop_steps ref_bn dummy_digests dummy_ec toy_env sample_tx 0%nat 0 0 _ _ _)).
    vm_compute. reflexivity. }
  split; [exact Hr|].
  apply (@reachable_limits ref_bn ref_bn_ok dummy_digests dummy_digests_ok dummy_ec toy_env
    sample_tx 0%nat 0 0 [] [B#1; B#7; B#OP_DUP] empty_cache [] _ (Forall_nil_2 _) ltac:(vm_compute; discriminate) Hr).
Defined.
End LimitFacts.
