(* ===== verification/Standard.v ===== *)
(** * Standard: output templates, destinations and script compression (src/src/script.cpp, script.h)

    [Solver] matches an output script against the standard templates; the
    destinations, the policy on standard outputs and the compressed form of
    scripts build on it. *)

From S2P Require Import Prelude BigNum ScriptOps Serialize Crypto Keys Core SigHash Interp InterpFacts.
Import CScript.

Inductive txnouttype :=
  | TX_NONSTANDARD | TX_PUBKEY | TX_PUBKEYHASH | TX_SCRIPTHASH | TX_MULTISIG | TX_NULL_DATA.
#[export] Instance txnouttype_eq_dec : EqDecision txnouttype.
Proof. solve_decision. Defined.

Definition GetTxnOutputType (t : txnouttype) : string :=
  match t with
  | TX_NONSTANDARD => "nonstandard"
  | TX_PUBKEY => "pubkey"
  | TX_PUBKEYHASH => "pubkeyhash"
  | TX_SCRIPTHASH => "scripthash"
  | TX_MULTISIG => "multisig"
  | TX_NULL_DATA => "nulldata"
  end.

(** [boost::variant<CNoDestination, CKeyID, CScriptID>]; the identifiers are [uint160]s. *)
Inductive CTxDestination := CNoDestination | CKeyID (id : Z) | CScriptID (id : Z).
#[export] Instance CTxDestination_eq_dec : EqDecision CTxDestination.
Proof. solve_decision. Defined.

(** ** [Solver] *)
Module Template.
(** The multimap of templates in the order of its keys. *)
Definition mTemplates : list (txnouttype * bytes) := [
  (TX_PUBKEY, push_op (push_op [] OP_PUBKEY) OP_CHECKSIG);
  (TX_PUBKEYHASH,
    push_op (push_op (push_op (push_op (push_op [] OP_DUP) OP_HASH160) OP_PUBKEYHASH) OP_EQUALVERIFY) OP_CHECKSIG);
  (TX_MULTISIG, push_op (push_op (push_op (push_op [] OP_SMALLINTEGER) OP_PUBKEYS) OP_SMALLINTEGER) OP_CHECKMULTISIG);
  (TX_NULL_DATA, push_op (push_op [] OP_RETURN) OP_SMALLDATA);
  (TX_NULL_DATA, push_op [] OP_RETURN)
].

Definition key_sized (v : valtype) : bool := (33 <=? zlen v) && (zlen v <=? 120).

(** The [while] of [OP_PUBKEYS]: collects keys, and stops with the first read
    that is not one (or that fails). *)
Fixpoint take_pubkeys (fuel : nat) (r : getop) (sols : list valtype) : getop * list valtype :=
  if key_sized (g_vch r) then
    let sols := sols ++ [g_vch r] in
    let r' := GetOp2 (g_pc r) in
    match fuel with
    | O => (r', sols)
    | S fuel => if g_ok r' then take_pubkeys fuel r' sols else (r', sols)
    end
  else (r, sols).

(** What an opcode of the template accepts; [None] leaves the loop. *)
Definition match_op (nMaxDatacarrierBytes opcode2 : Z) (vch2 : bytes) (opcode1 : Z) (vch1 : bytes) (sols : list valtype) :
    option (list valtype) :=
  if opcode2 =? OP_PUBKEY then
    if negb (key_sized vch1) then None else Some (sols ++ [vch1])
  else if opcode2 =? OP_PUBKEYHASH then
    if negb (zlen vch1 =? 20) then None else Some (sols ++ [vch1])
  else if opcode2 =? OP_SMALLINTEGER then
    match DecodeOP_N opcode1 with
    | Some n => Some (sols ++ [[B#n]])
    | None => None
    end
  else if opcode2 =? OP_SMALLDATA then
    if nMaxDatacarrierBytes <? zlen vch1 then None else Some sols
  else if negb (opcode1 =? opcode2) || negb (bool_decide (vch1 = vch2)) then None
  else Some sols.

(** The comparison loop: [Some sols] when both scripts end together.  Each round
    reads an instruction of the template. *)
Fixpoint match_loop (nMaxDatacarrierBytes : Z) (fuel : nat) (pc1 pc2 : bytes) (sols : list valtype) : option (list valtype) :=
  if bool_decide (pc1 = []) && bool_decide (pc2 = []) then Some sols else
  match fuel with
  | O => None
  | S fuel =>
    let r1 := GetOp2 pc1 in
    if negb (g_ok r1) then None else
    let r2 := GetOp2 pc2 in
    if negb (g_ok r2) then None else
    let '(r1, sols) := if g_opcode r2 =? OP_PUBKEYS then take_pubkeys (length pc1) r1 sols else (r1, sols) in
    let r2 := if g_opcode r2 =? OP_PUBKEYS then GetOp2 (g_pc r2) else r2 in
    if negb (g_ok r2) then None else
    match match_op nMaxDatacarrierBytes (g_opcode r2) (g_vch r2) (g_opcode r1) (g_vch r1) sols with
    | None => None
    | Some sols => match_loop nMaxDatacarrierBytes fuel (g_pc r1) (g_pc r2) sols
    end
  end.

(** [vSolutionsRet.front()[0]] and [vSolutionsRet.back()[0]]. *)
Definition first_byte (v : option valtype) : Z :=
  match v with Some (b :: _) => uchar b | _ => 0 end.

Definition multisig_counts_ok (sols : list valtype) : bool :=
  let m := first_byte (head sols) in
  let n := first_byte (last sols) in
  negb ((m <? 1) || (n <? 1) || (n <? m) || negb (zlen sols - 2 =? n)).

Fixpoint scan (nMaxDatacarrierBytes : Z) (script1 : bytes) (l : list (txnouttype * bytes)) : bool * txnouttype * list valtype :=
  match l with
  | [] => (false, TX_NONSTANDARD, [])
  | (t, script2) :: l =>
    match match_loop nMaxDatacarrierBytes (S (length script2)) script1 script2 [] with
    | Some sols =>
      if bool_decide (t = TX_MULTISIG) && negb (multisig_counts_ok sols) then (false, t, sols) else (true, t, sols)
    | None => scan nMaxDatacarrierBytes script1 l
    end
  end.
End Template.
Import Template.

Section policy.
(** [nMaxDatacarrierBytes], a node option that defaults to [MAX_OP_RETURN_RELAY]. *)
Variable nMaxDatacarrierBytes : Z.

(** Success flag, [typeRet] and [vSolutionsRet] (callers pass an empty vector). *)
Definition Solver (scriptPubKey : bytes) : bool * txnouttype * list valtype :=
  if IsPayToScriptHash scriptPubKey
  then (true, TX_SCRIPTHASH, [take 20 (drop 2 scriptPubKey)])
  else scan nMaxDatacarrierBytes scriptPubKey mTemplates.

Definition ScriptSigArgsExpected (t : txnouttype) (vSolutions : list valtype) : Z :=
  match t with
  | TX_NONSTANDARD | TX_NULL_DATA => -1
  | TX_PUBKEY => 1
  | TX_PUBKEYHASH => 2
  | TX_MULTISIG =>
    match vSolutions with
    | (b :: _) :: _ => uchar b + 1
    | _ => -1
    end
  | TX_SCRIPTHASH => 1
  end.

Definition IsStandard (scriptPubKey : bytes) : bool * txnouttype :=
  let '(ok, whichType, vSolutions) := Solver scriptPubKey in
  if negb ok then (false, whichType) else
  if bool_decide (whichType = TX_MULTISIG) &&
     (let m := first_byte (head vSolutions) in
      let n := first_byte (last vSolutions) in
      ((n <? 1) || (3 <? n)) || ((m <? 1) || (n <? m)))
  then (false, whichType)
  else (negb (bool_decide (whichType = TX_NONSTANDARD)), whichType).

Section destinations.
Context `{Digests}.

(** [None] when the function returns false. *)
Definition ExtractDestination (scriptPubKey : bytes) : option CTxDestination :=
  let '(ok, whichType, vSolutions) := Solver scriptPubKey in
  if negb ok then None else
  let s0 := default [] (head vSolutions) in
  match whichType with
  | TX_PUBKEY => Some (CKeyID (PubKey.GetID (PubKey.Set_ s0)))
  | TX_PUBKEYHASH => Some (CKeyID (le_val s0))
  | TX_SCRIPTHASH => Some (CScriptID (le_val s0))
  | _ => None
  end.

(** [vSolutions[1 .. size()-1)]. *)
Definition inner_solutions (vSolutions : list valtype) : list valtype := pop_back (tail vSolutions).

(** Result with [typeRet], [addressRet] and [nRequiredRet] (unchanged is 0). *)
Definition ExtractDestinations (scriptPubKey : bytes) : bool * txnouttype * list CTxDestination * Z :=
  let '(ok, typeRet, vSolutions) := Solver scriptPubKey in
  if negb ok then (false, typeRet, [], 0)
  else match typeRet with
  | TX_NULL_DATA => (false, typeRet, [], 0)
  | TX_MULTISIG =>
    (true, typeRet, map (fun v => CKeyID (PubKey.GetID (PubKey.Set_ v))) (inner_solutions vSolutions),
     first_byte (head vSolutions))
  | _ =>
    match ExtractDestination scriptPubKey with
    | None => (false, typeRet, [], 1)
    | Some address => (true, typeRet, [address], 1)
    end
  end.
End destinations.
End policy.

(** ** Building scripts *)
(** [SetDestination]: [CScriptVisitor] on the three kinds of destination. *)
Definition SetDestination (dest : CTxDestination) : bytes :=
  match dest with
  | CNoDestination => []
  | CKeyID keyID =>
    push_op (push_op (push_object (push_op (push_op [] OP_DUP) OP_HASH160) (le_bytes 20 keyID)) OP_EQUALVERIFY) OP_CHECKSIG
  | CScriptID scriptID => push_op (push_object (push_op [] OP_HASH160) (le_bytes 20 scriptID)) OP_EQUAL
  end.

(** [SetMultisig]; [None] is the failed assertion of [EncodeOP_N]. *)
Definition SetMultisig (nRequired : Z) (keys : list CPubKey) : option bytes :=
  m ← EncodeOP_N nRequired;
  n ← EncodeOP_N (zlen keys);
  Some (push_op (push_op (fold_left push_object keys (push_op [] m)) n) OP_CHECKMULTISIG).

(** ** Compressed scripts ([CScriptCompressor]) *)
Module Compressor.
Definition nSpecialScripts : Z := 6.

Definition IsToKeyID (script : bytes) : option Z :=
  if (zlen script =? 25) && byte_is script 0 OP_DUP && byte_is script 1 OP_HASH160 && byte_is script 2 20
     && byte_is script 23 OP_EQUALVERIFY && byte_is script 24 OP_CHECKSIG
  then Some (le_val (take 20 (drop 3 script))) else None.

Definition IsToScriptID (script : bytes) : option Z :=
  if (zlen script =? 23) && byte_is script 0 OP_HASH160 && byte_is script 1 20 && byte_is script 22 OP_EQUAL
  then Some (le_val (take 20 (drop 2 script))) else None.

Definition GetSpecialSize (nSize : Z) : Z :=
  if (nSize =? 0) || (nSize =? 1) then 20
  else if (nSize =? 2) || (nSize =? 3) || (nSize =? 4) || (nSize =? 5) then 32
  else 0.

Section with_lib.
Context `{ECLib}.

Definition IsToPubKey (script : bytes) : option CPubKey :=
  if (zlen script =? 35) && byte_is script 0 33 && byte_is script 34 OP_CHECKSIG
     && (byte_is script 1 2 || byte_is script 1 3)
  then Some (PubKey.Set_ (take 33 (drop 1 script)))
  else if (zlen script =? 67) && byte_is script 0 65 && byte_is script 66 OP_CHECKSIG && byte_is script 1 4
  then
    let pubkey := PubKey.Set_ (take 65 (drop 1 script)) in
    if PubKey.IsFullyValid pubkey then Some pubkey else None
  else None.

(** The compressed bytes, when there is a special case for the script. *)
Definition Compress (script : bytes) : option bytes :=
  match IsToKeyID script with
  | Some keyID => Some (B#0 :: le_bytes 20 keyID)
  | None =>
    match IsToScriptID script with
    | Some scriptID => Some (B#1 :: le_bytes 20 scriptID)
    | None =>
      match IsToPubKey script with
      | Some pubkey =>
        let rest := take 32 (drop 1 pubkey) in
        if byte_is pubkey 0 2 || byte_is pubkey 0 3 then Some (B#(PubKey.header pubkey) :: rest)
        else if byte_is pubkey 0 4
        then Some (B#(Z.lor 4 (Z.land (match pubkey !! 64%nat with Some b => uchar b | None => 0 end) 1)) :: rest)
        else None
      | None => None
      end
    end
  end.

(** Success flag and the script afterwards. *)
Definition Decompress (script : bytes) (nSize : Z) (in_ : bytes) : bool * bytes :=
  if nSize =? 0 then
    (true, [B#OP_DUP; B#OP_HASH160; B#20] ++ take 20 in_ ++ [B#OP_EQUALVERIFY; B#OP_CHECKSIG])
  else if nSize =? 1 then (true, [B#OP_HASH160; B#20] ++ take 20 in_ ++ [B#OP_EQUAL])
  else if (nSize =? 2) || (nSize =? 3) then (true, [B#33; B#nSize] ++ take 32 in_ ++ [B#OP_CHECKSIG])
  else if (nSize =? 4) || (nSize =? 5) then
    let '(ok, pubkey) := PubKey.Decompress (PubKey.Set_ (B#(nSize - 2) :: take 32 in_)) in
    if negb ok then (false, script) else (true, [B#65] ++ pubkey ++ [B#OP_CHECKSIG])
  else (false, script).

(** The compressor as a serialised type; a read starts from an empty script. *)
Definition ser_script : Ser bytes := {|
  put script :=
    match Compress script with
    | Some compr => compr
    | None => WriteVarInt 32 (u32 (zlen script + nSpecialScripts)) ++ script
    end;
  get :=
    nSize ← ReadVarInt 32;
    if nSize <? nSpecialScripts then
      vch ← read_bytes (Z.to_nat (GetSpecialSize nSize));
      mret (Decompress [] nSize vch).2
    else read_bytes (Z.to_nat (nSize - nSpecialScripts));
  GetSerializeSize script :=
    match Compress script with
    | Some compr => zlen compr
    | None => u32 (zlen script + GetSizeOfVarInt 32 (u32 (zlen script + nSpecialScripts)))
    end |}.
End with_lib.
End Compressor.

(** ** Facts on [Solver] *)

(** The instructions of a script, when all of it can be read. *)
Fixpoint parse_n (fuel : nat) (pc : bytes) : option (list (Z * bytes)) :=
  match pc with
  | [] => Some []
  | _ :: _ =>
    match fuel with
    | O => None
    | S fuel =>
      match GetOp pc with
      | None => None
      | Some (op, v, pc') => cons (op, v) <$> parse_n fuel pc'
      end
    end
  end.
Definition parse (pc : bytes) : option (list (Z * bytes)) := parse_n (length pc) pc.

(** What [Solver] decides, as patterns on the list of instructions. *)
Module Classify.
Section classify.
Variable maxdata : Z.

(** The keys in front of a list of instructions, and the rest. *)
Fixpoint span_keys (l : list (Z * bytes)) : list valtype * list (Z * bytes) :=
  match l with
  | [] => ([], [])
  | (op, v) :: l' => if key_sized v then let '(ks, r) := span_keys l' in (v :: ks, r) else ([], l)
  end.

(** [<key> OP_CHECKSIG] *)
Definition as_pubkey (l : list (Z * bytes)) : option (list valtype) :=
  match l with
  | [(_, pk); (o, _)] => if key_sized pk && (o =? OP_CHECKSIG) then Some [pk] else None
  | _ => None
  end.
(** [OP_DUP OP_HASH160 <20 bytes> OP_EQUALVERIFY OP_CHECKSIG] *)
Definition as_pubkeyhash (l : list (Z * bytes)) : option (list valtype) :=
  match l with
  | [(o1, _); (o2, _); (_, h); (o4, _); (o5, _)] =>
    if (o1 =? OP_DUP) && (o2 =? OP_HASH160) && (zlen h =? 20) && (o4 =? OP_EQUALVERIFY) && (o5 =? OP_CHECKSIG)
    then Some [h] else None
  | _ => None
  end.
(** [m <key> ... <key> n OP_CHECKMULTISIG] with small integers [m] and [n] *)
Definition as_multisig (l : list (Z * bytes)) : option (Z * list valtype * Z) :=
  match l with
  | (om, _) :: l =>
    let '(keys, r) := span_keys l in
    match DecodeOP_N om, r with
    | Some m, [(on, _); (o, _)] =>
      match DecodeOP_N on with
      | Some n => if o =? OP_CHECKMULTISIG then Some (m, keys, n) else None
      | None => None
      end
    | _, _ => None
    end
  | [] => None
  end.
(** [OP_RETURN], or [OP_RETURN] and an instruction with little data *)
Definition as_null_data (l : list (Z * bytes)) : bool :=
  match l with
  | [(o, _)] => o =? OP_RETURN
  | [(o, _); (_, d)] => (o =? OP_RETURN) && (zlen d <=? maxdata)
  | _ => false
  end.

Definition classify (l : list (Z * bytes)) : bool * txnouttype * list valtype :=
  match as_pubkey l, as_pubkeyhash l, as_multisig l with
  | Some sols, _, _ => (true, TX_PUBKEY, sols)
  | None, Some sols, _ => (true, TX_PUBKEYHASH, sols)
  | None, None, Some (m, keys, n) =>
    ((1 <=? m) && (m <=? n) && (zlen keys =? n), TX_MULTISIG, [[B#m]] ++ keys ++ [[B#n]])
  | None, None, None =>
    if as_null_data l then (true, TX_NULL_DATA, []) else (false, TX_NONSTANDARD, [])
  end.
End classify.

(** *** The comparison loop on instruction lists *)
Lemma parse_n_enough fuel pc : (length pc <= fuel)%nat -> parse_n fuel pc = parse pc.
Proof.
  unfold parse. remember (length pc) as k eqn:Ek. assert (length pc <= k)%nat as Hk by lia. clear Ek.
  revert fuel pc Hk. induction k as [|k IH]; intros fuel pc Hk Hf.
  { destruct pc; [|simpl in Hk; lia]. by destruct fuel. }
  destruct pc as [|b pc]; [by destruct fuel|]. destruct fuel as [|fuel]; [lia|]. cbn [parse_n].
  destruct (GetOp (b :: pc)) as [[[op v] pc']|] eqn:E; [|done].
  apply GetOp_shrinks in E. simpl in E, Hk. by rewrite IH by lia.
Qed.

Lemma parse_step pc op v pc' : GetOp pc = Some (op, v, pc') -> parse pc = cons (op, v) <$> parse pc'.
Proof.
  intros E. destruct pc as [|b pc]; [done|]. unfold parse at 1. cbn [length parse_n]. rewrite E.
  apply GetOp_shrinks in E. simpl in E. by rewrite parse_n_enough by lia.
Qed.

Lemma parse_error pc : pc <> [] -> GetOp pc = None -> parse pc = None.
Proof. intros Hpc E. destruct pc as [|b pc]; [done|]. unfold parse. cbn [length parse_n]. by rewrite E. Qed.

Lemma GetOp2_ok pc op v pc' : GetOp pc = Some (op, v, pc') -> GetOp2 pc = mk_getop true op v pc'.
Proof. unfold GetOp. destruct (GetOp2 pc) as [[] ? ? ?]; simpl; [by intros [= -> -> ->]|done]. Qed.
Lemma GetOp2_error pc : GetOp pc = None -> g_ok (GetOp2 pc) = false /\ g_opcode (GetOp2 pc) = OP_INVALIDOPCODE
  /\ g_vch (GetOp2 pc) = [].
Proof.
  unfold GetOp, GetOp2. destruct pc as [|b pc]; [done|]. repeat case_match; simpl in *; done.
Qed.

Section matching.
Variable maxdata : Z.

(** A template opcode. *)
Definition plain (o : Z) : Prop := OP_PUSHDATA4 < o < 256 /\ o <> OP_PUBKEYS.

Fixpoint match_list (l : list (Z * bytes)) (tpl : list Z) (sols : list valtype) : option (list valtype) :=
  match tpl, l with
  | [], [] => Some sols
  | o2 :: tpl, (o1, v1) :: l =>
    match match_op maxdata o2 [] o1 v1 sols with Some sols => match_list l tpl sols | None => None end
  | _, _ => None
  end.

Lemma match_loop_round fuel pc1 op v pc1' o2 tpl sols : plain o2 -> GetOp pc1 = Some (op, v, pc1') ->
  match_loop maxdata (S fuel) pc1 (B#o2 :: tpl) sols =
    match match_op maxdata o2 [] op v sols with
    | Some sols => match_loop maxdata fuel pc1' tpl sols
    | None => None
    end.
Proof.
  intros [Ho Hne] E. cbn [match_loop].
  rewrite (bool_decide_eq_false_2 (B#o2 :: tpl = [])) by done. rewrite andb_false_r.
  rewrite (GetOp2_ok _ _ _ _ E), (GetOp2_ok _ _ _ _ (GetOp_plain o2 tpl Ho)). cbn [g_ok g_opcode g_vch g_pc negb].
  rewrite (proj2 (Z.eqb_neq _ _) Hne). cbn [g_ok g_opcode g_vch g_pc negb]. done.
Qed.

Lemma match_loop_error fuel pc1 pc2 sols : GetOp pc1 = None -> pc1 <> [] \/ pc2 <> [] ->
  match_loop maxdata fuel pc1 pc2 sols = None.
Proof.
  intros E Hne. destruct fuel; cbn [match_loop];
    (rewrite (proj2 (andb_false_iff _ _)); [|by destruct Hne; [left|right]; apply bool_decide_eq_false_2]); [done|].
  by rewrite (proj1 (GetOp2_error _ E)).
Qed.

Lemma match_loop_plain tpl fuel pc1 sols : Forall plain tpl -> (length tpl <= fuel)%nat ->
  match_loop maxdata fuel pc1 (map (fun o => B#o) tpl) sols =
    (l ← parse pc1; match_list l tpl sols).
Proof.
  intros Ht. revert fuel pc1 sols. induction Ht as [|o2 tpl Ho _ IH]; intros fuel pc1 sols Hf; simpl map.
  - destruct (decide (pc1 = [])) as [->|Hne].
    { by destruct fuel. }
    destruct (GetOp pc1) as [[[op v] pc']|] eqn:E.
    + rewrite (parse_step _ _ _ _ E). destruct fuel as [|fuel]; cbn [match_loop];
        rewrite bool_decide_eq_false_2 by done; simpl.
      * by destruct (parse pc').
      * rewrite (GetOp2_ok _ _ _ _ E). simpl. by destruct (parse pc').
    + rewrite (parse_error _ Hne E). apply match_loop_error; auto.
  - destruct fuel as [|fuel]; [simpl in Hf; lia|].
    destruct (GetOp pc1) as [[[op v] pc']|] eqn:E.
    + rewrite (match_loop_round _ _ _ _ _ _ _ _ Ho E), (parse_step _ _ _ _ E).
      destruct (match_op maxdata o2 [] op v sols) as [sols'|] eqn:Em.
      * rewrite IH by (simpl in Hf; lia). destruct (parse pc'); [|done]. simpl. by rewrite Em.
      * destruct (parse pc'); [|done]. simpl. by rewrite Em.
    + rewrite match_loop_error by auto. destruct (decide (pc1 = [])) as [->|Hne]; [done|].
      by rewrite (parse_error _ Hne E).
Qed.

(** What the loop over the keys leaves: the first instruction that is not a key. *)
Definition keys_taken (l : option (list (Z * bytes))) (op : Z) (v : bytes) (sols : list valtype) (r : getop * list valtype) : Prop :=
  match l with
  | Some l' =>
    let '(ks, rest) := span_keys ((op, v) :: l') in
    r.2 = sols ++ ks /\
    match rest with
    | [] => g_ok r.1 = false /\ g_opcode r.1 = OP_INVALIDOPCODE
    | (o, w) :: l'' => g_opcode r.1 = o /\ g_vch r.1 = w /\ parse (g_pc r.1) = Some l''
    end
  | None => g_opcode r.1 = OP_INVALIDOPCODE \/ parse (g_pc r.1) = None
  end.

Lemma take_pubkeys_spec fuel op v pc sols : (length pc <= fuel)%nat ->
  keys_taken (parse pc) op v sols (take_pubkeys fuel (mk_getop true op v pc) sols).
Proof.
  revert op v pc sols. induction fuel as [|fuel IH]; intros op v pc sols Hf;
    cbn [take_pubkeys g_vch g_pc]; destruct (key_sized v) eqn:Ek.
  - destruct pc; [|simpl in Hf; lia]. unfold keys_taken. simpl. rewrite Ek. done.
  - destruct pc; [|simpl in Hf; lia]. unfold keys_taken. simpl. rewrite Ek. by rewrite app_nil_r.
  - destruct (GetOp pc) as [[[op' v'] pc']|] eqn:E.
    + rewrite (GetOp2_ok _ _ _ _ E). cbn [g_ok]. rewrite (parse_step _ _ _ _ E).
      pose proof (GetOp_shrinks _ _ _ _ E).
      specialize (IH op' v' pc' (sols ++ [v]) ltac:(lia)). unfold keys_taken in *.
      destruct (parse pc') as [l|]; [|exact IH]. cbn [fmap option_fmap option_map].
      cbn [span_keys] in IH |- *. rewrite Ek.
      destruct (key_sized v').
      * destruct (span_keys l) as [ks rest]. rewrite <- app_assoc in IH. exact IH.
      * rewrite <- app_assoc in IH. exact IH.
    + destruct (GetOp2_error _ E) as (E1 & E2 & E3). rewrite E1. unfold keys_taken.
      destruct (decide (pc = [])) as [->|Hne].
      * simpl. rewrite Ek. done.
      * rewrite (parse_error _ Hne E). by left.
  - unfold keys_taken. destruct (parse pc) as [l|] eqn:El; [|by right]. cbn [span_keys]. rewrite Ek.
    by rewrite app_nil_r.
Qed.

(** An operator of the template must be met exactly. *)
Lemma match_op_exact o2 op v sols : o2 <> OP_PUBKEY -> o2 <> OP_PUBKEYHASH -> o2 <> OP_SMALLINTEGER -> o2 <> OP_SMALLDATA ->
  match_op maxdata o2 [] op v sols = if (op =? o2) && bool_decide (v = []) then Some sols else None.
Proof.
  intros N1 N2 N3 N4. unfold match_op.
  rewrite (proj2 (Z.eqb_neq _ _) N1), (proj2 (Z.eqb_neq _ _) N2), (proj2 (Z.eqb_neq _ _) N3), (proj2 (Z.eqb_neq _ _) N4).
  destruct (op =? o2); simpl; [|done]. repeat case_bool_decide; done.
Qed.

Lemma match_list_check l sols : match_list l [OP_CHECKMULTISIG] sols =
  match l with [(o, v)] => if (o =? OP_CHECKMULTISIG) && bool_decide (v = []) then Some sols else None | _ => None end.
Proof.
  destruct l as [|[o v] l]; [done|]. cbn [match_list].
  rewrite match_op_exact by done. destruct (_ && _); by destruct l.
Qed.

(** The loop after [m], on the template's keys, [n] and operator. *)
Lemma match_loop_keys fuel pc1 sols : (2 <= fuel)%nat ->
  match_loop maxdata fuel pc1 (map (fun o => B#o) [OP_PUBKEYS; OP_SMALLINTEGER; OP_CHECKMULTISIG]) sols =
    (l ← parse pc1;
     let '(ks, rest) := span_keys l in
     match rest with
     | (on, _) :: rest => n ← DecodeOP_N on; match_list rest [OP_CHECKMULTISIG] ((sols ++ ks) ++ [[B#n]])
     | [] => None
     end).
Proof.
  intros Hf. destruct fuel as [|fuel]; [lia|].
  destruct (GetOp pc1) as [[[op v] pc']|] eqn:E.
  2:{ rewrite match_loop_error by auto. destruct (decide (pc1 = [])) as [->|Hne]; [done|].
      by rewrite (parse_error _ Hne E). }
  simpl map. cbn [match_loop].
  rewrite (bool_decide_eq_false_2 (B#OP_PUBKEYS :: _ = [])) by done. rewrite andb_false_r.
  rewrite (GetOp2_ok _ _ _ _ E), (GetOp2_ok _ _ _ _ (GetOp_plain OP_PUBKEYS _ ltac:(done))).
  cbn [g_ok g_opcode g_vch g_pc negb]. change (OP_PUBKEYS =? OP_PUBKEYS) with true. cbv iota.
  rewrite (GetOp2_ok _ _ _ _ (GetOp_plain OP_SMALLINTEGER _ ltac:(done))). cbn [g_ok g_opcode g_vch g_pc negb].
  pose proof (GetOp_shrinks _ _ _ _ E) as Hs.
  pose proof (take_pubkeys_spec (length pc1) op v pc' sols ltac:(lia)) as Hk. unfold keys_taken in Hk.
  destruct (take_pubkeys (length pc1) _ sols) as [r1 sols1]. cbn [fst snd] in Hk.
  rewrite (parse_step _ _ _ _ E).
  change (match_op maxdata OP_SMALLINTEGER [] (g_opcode r1) (g_vch r1) sols1) with
    (match DecodeOP_N (g_opcode r1) with Some n => Some (sols1 ++ [[B#n]]) | None => None end).
  assert (forall p s, match_loop maxdata fuel p [B#OP_CHECKMULTISIG] s = (l ← parse p; match_list l [OP_CHECKMULTISIG] s)) as Hl.
  { intros p s. apply (match_loop_plain [OP_CHECKMULTISIG] fuel p s); [|simpl; lia]. by repeat constructor. }
  destruct (parse pc') as [l|]; cbn [fmap option_fmap option_map mbind option_bind].
  - destruct (span_keys ((op, v) :: l)) as [ks rest]. destruct Hk as [-> Hk]. destruct rest as [|[on w] rest].
    + destruct Hk as [_ ->]. done.
    + destruct Hk as (-> & _ & Hp). destruct (DecodeOP_N on) as [n|]; [|done]. simpl. by rewrite Hl, Hp.
  - destruct Hk as [->|Hp]; [done|]. destruct (DecodeOP_N (g_opcode r1)); [|done]. by rewrite Hl, Hp.
Qed.

(** *** The templates *)
Definition sane (i : Z * bytes) : Prop := OP_PUSHDATA4 < i.1 -> i.2 = [].

Lemma parse_sane pc l : parse pc = Some l -> Forall sane l.
Proof.
  remember (length pc) as k eqn:Ek. revert pc l Ek. induction (lt_wf k) as [k _ IH]. intros pc l -> El.
  destruct (decide (pc = [])) as [->|Hne]; [by injection El as <-|].
  destruct (GetOp pc) as [[[op v] pc']|] eqn:E; [|by rewrite parse_error in El].
  rewrite (parse_step _ _ _ _ E) in El. destruct (parse pc') as [l'|] eqn:El'; [|done].
  injection El as <-. constructor; [exact (GetOp_data_empty _ _ _ _ E)|].
  eapply IH; [|done|done]. by eapply GetOp_shrinks.
Qed.

Lemma match_op_operator o2 op v sols : OP_PUSHDATA4 < o2 -> o2 <> OP_PUBKEY -> o2 <> OP_PUBKEYHASH ->
  o2 <> OP_SMALLINTEGER -> o2 <> OP_SMALLDATA -> sane (op, v) ->
  match_op maxdata o2 [] op v sols = if op =? o2 then Some sols else None.
Proof.
  intros Ho N1 N2 N3 N4 Hs. rewrite match_op_exact by done. destruct (Z.eqb_spec op o2) as [->|]; [|done].
  by rewrite bool_decide_eq_true_2 by (by apply Hs).
Qed.
Lemma match_op_pubkey op v sols :
  match_op maxdata OP_PUBKEY [] op v sols = if key_sized v then Some (sols ++ [v]) else None.
Proof. change (match_op maxdata OP_PUBKEY [] op v sols) with (if negb (key_sized v) then None else Some (sols ++ [v])).
  by destruct (key_sized v).
Qed.
Lemma match_op_pubkeyhash op v sols :
  match_op maxdata OP_PUBKEYHASH [] op v sols = if zlen v =? 20 then Some (sols ++ [v]) else None.
Proof. change (match_op maxdata OP_PUBKEYHASH [] op v sols) with (if negb (zlen v =? 20) then None else Some (sols ++ [v])).
  by destruct (zlen v =? 20).
Qed.
Lemma match_op_smalldata op v sols :
  match_op maxdata OP_SMALLDATA [] op v sols = if zlen v <=? maxdata then Some sols else None.
Proof.
  change (match_op maxdata OP_SMALLDATA [] op v sols) with (if maxdata <? zlen v then None else Some sols).
  rewrite Z.ltb_antisym. by destruct (zlen v <=? maxdata).
Qed.

(** Decides a template on a list whose length is known, instruction by instruction. *)
Ltac run_template :=
  repeat match goal with H : Forall sane (_ :: _) |- _ => apply Forall_cons in H as [? H] end;
  cbn [match_list];
  repeat first
    [ done
    | progress rewrite ?match_op_pubkey, ?match_op_pubkeyhash, ?match_op_smalldata
    | rewrite match_op_operator by done
    | match goal with |- context [match (if ?b then _ else _) with _ => _ end] => destruct b end
    | progress cbn [andb app] ].

Lemma template_pubkey l : Forall sane l -> match_list l [OP_PUBKEY; OP_CHECKSIG] [] = as_pubkey l.
Proof.
  intros Hl. destruct l as [|[o1 v1] [|[o2 v2] [|[o3 v3] l]]]; unfold as_pubkey; run_template.
Qed.

Lemma template_pubkeyhash l : Forall sane l ->
  match_list l [OP_DUP; OP_HASH160; OP_PUBKEYHASH; OP_EQUALVERIFY; OP_CHECKSIG] [] = as_pubkeyhash l.
Proof.
  intros Hl. destruct l as [|[o1 v1] [|[o2 v2] [|[o3 v3] [|[o4 v4] [|[o5 v5] [|[o6 v6] l]]]]]];
    unfold as_pubkeyhash; run_template.
Qed.

(** The two templates of data outputs add no solution. *)
Definition empty_if (b : bool) : option (list valtype) := if b then Some [] else None.

Lemma template_null_data l : Forall sane l ->
  match match_list l [OP_RETURN; OP_SMALLDATA] [] with
  | Some sols => Some sols
  | None => match_list l [OP_RETURN] []
  end = empty_if (as_null_data maxdata l).
Proof.
  intros Hl. destruct l as [|[o1 v1] [|[o2 v2] [|[o3 v3] l]]]; unfold as_null_data, empty_if; run_template.
Qed.

Lemma DecodeOP_N_range o k : DecodeOP_N o = Some k -> 0 <= k <= 16.
Proof.
  unfold DecodeOP_N, OP_0, OP_1, OP_16. repeat case_match; intros [= <-]; [lia|].
  match goal with H : _ && _ = true |- _ => apply andb_true_iff in H as [? ?] end. lia.
Qed.

Lemma span_keys_sane l ks rest : Forall sane l -> span_keys l = (ks, rest) -> Forall sane rest.
Proof.
  intros Hl. revert ks rest. induction Hl as [|[o v] l Hv Hl IH]; intros ks rest; cbn [span_keys].
  { by intros [= <- <-]. }
  destruct (key_sized v).
  - destruct (span_keys l) as [ks' r']. intros [= <- <-]. by eapply IH.
  - intros [= <- <-]. by constructor.
Qed.

Lemma template_multisig s :
  match_loop maxdata 5 s (map (fun o => B#o) [OP_SMALLINTEGER; OP_PUBKEYS; OP_SMALLINTEGER; OP_CHECKMULTISIG]) [] =
    (l ← parse s; '(m, keys, n) ← as_multisig l; Some ([[B#m]] ++ keys ++ [[B#n]])).
Proof.
  simpl map. destruct (GetOp s) as [[[op v] pc']|] eqn:E.
  2:{ rewrite match_loop_error by auto. destruct (decide (s = [])) as [->|Hne]; [done|].
      by rewrite (parse_error _ Hne E). }
  rewrite (match_loop_round _ _ _ _ _ OP_SMALLINTEGER _ _ ltac:(done) E).
  change (match_op maxdata OP_SMALLINTEGER [] op v []) with
    (match DecodeOP_N op with Some n => Some ([[B#n]]) | None => None end).
  pose proof (match_loop_keys 4 pc') as Hk. simpl map in Hk.
  rewrite (parse_step _ _ _ _ E). destruct (parse pc') as [l|] eqn:Ep.
  2:{ destruct (DecodeOP_N op) as [m|]; [|done]. by rewrite Hk by lia. }
  pose proof (parse_sane _ _ Ep) as Hl. cbn [fmap option_fmap option_map mbind option_bind as_multisig].
  destruct (span_keys l) as [ks rest] eqn:Es. pose proof (span_keys_sane _ _ _ Hl Es) as Hr.
  destruct (DecodeOP_N op) as [m|]; [|done]. rewrite Hk by lia. cbn [mbind option_bind]. rewrite Es.
  destruct rest as [|[on w] rest]; [done|]. apply Forall_cons in Hr as [_ Hr].
  destruct (DecodeOP_N on) as [n|] eqn:En; cbn [mbind option_bind].
  - rewrite match_list_check. destruct rest as [|[o w'] [|i rest]]; try done.
    apply Forall_cons in Hr as [Hs _]. destruct (Z.eqb_spec o OP_CHECKMULTISIG) as [->|]; [|done].
    by rewrite bool_decide_eq_true_2 by (by apply Hs).
  - by destruct rest as [|[o w'] [|i rest]].
Qed.

Lemma multisig_counts m keys n : 0 <= m <= 16 -> 0 <= n <= 16 ->
  multisig_counts_ok ([[B#m]] ++ keys ++ [[B#n]]) = (1 <=? m) && (m <=? n) && (zlen keys =? n).
Proof.
  intros Hm Hn. unfold multisig_counts_ok. rewrite app_assoc, last_snoc, !zlen_app.
  change (zlen [[B#m]]) with 1. change (zlen [[B#n]]) with 1. cbn [head app first_byte].
  rewrite !uchar_to_byte_small by lia.
  destruct (Z.ltb_spec m 1), (Z.ltb_spec n 1), (Z.ltb_spec n m), (Z.leb_spec 1 m), (Z.leb_spec m n); try lia; try done.
Qed.

Lemma as_multisig_range l m keys n : as_multisig l = Some (m, keys, n) -> 0 <= m <= 16 /\ 0 <= n <= 16.
Proof.
  unfold as_multisig. destruct l as [|[om vm] l]; [done|]. destruct (span_keys l) as [ks rest].
  destruct (DecodeOP_N om) as [m'|] eqn:Em; [|done].
  destruct rest as [|[on w] [|[o w'] [|]]]; try done.
  destruct (DecodeOP_N on) as [n'|] eqn:En; [|done]. destruct (o =? OP_CHECKMULTISIG); [|done].
  intros [= <- <- <-]. split; by eapply DecodeOP_N_range.
Qed.

Lemma Solver_spec s :
  Solver maxdata s =
    if IsPayToScriptHash s then (true, TX_SCRIPTHASH, [take 20 (drop 2 s)])
    else match parse s with
         | Some l => classify maxdata l
         | None => (false, TX_NONSTANDARD, [])
         end.
Proof.
  unfold Solver. destruct (IsPayToScriptHash s); [done|]. unfold scan, mTemplates.
  pose proof (match_loop_plain [OP_PUBKEY; OP_CHECKSIG] 3 s []) as T1.
  pose proof (match_loop_plain [OP_DUP; OP_HASH160; OP_PUBKEYHASH; OP_EQUALVERIFY; OP_CHECKSIG] 6 s []) as T2.
  pose proof (match_loop_plain [OP_RETURN; OP_SMALLDATA] 3 s []) as T3.
  pose proof (match_loop_plain [OP_RETURN] 2 s []) as T4.
  pose proof (template_multisig s) as T5. simpl map in *. unfold push_op. cbn [app length].
  rewrite T1, T2, T3, T4, T5 by (repeat constructor; done || simpl; lia).
  destruct (parse s) as [l|] eqn:El; [|done]. cbn [mbind option_bind].
  pose proof (parse_sane _ _ El) as Hl.
  rewrite template_pubkey, template_pubkeyhash by done. pose proof (template_null_data l Hl) as Hn.
  unfold classify. destruct (as_pubkey l); [done|]. destruct (as_pubkeyhash l); [done|].
  destruct (as_multisig l) as [[[m keys] n]|] eqn:Em; cbn [mbind option_bind].
  - destruct (as_multisig_range _ _ _ _ Em). rewrite multisig_counts by done.
    by destruct (_ && _ && _).
  - destruct (match_list l [OP_RETURN; OP_SMALLDATA] []) as [sols|].
    + destruct (as_null_data maxdata l); [|done]. by injection Hn as ->.
    + rewrite Hn. by destruct (as_null_data maxdata l).
Qed.

(** C37. [Solver] decides the standard forms: an output is a pay-to-script-hash
    output by its bytes; otherwise it is classified by its instructions, and a
    script that cannot be read to its end is not standard.  On a bare multisig
    script whose counts are wrong it fails but still reports that type. *)
Theorem Solver_classify s :
  Solver maxdata s =
    if IsPayToScriptHash s then (true, TX_SCRIPTHASH, [take 20 (drop 2 s)])
    else match parse s with
         | Some l => classify maxdata l
         | None => (false, TX_NONSTANDARD, [])
         end.
Proof.
  apply Solver_spec.
Qed.
End matching.
End Classify.

(** ** Round trips of destinations *)
Module DestinationFacts.
Import Classify VerifyFacts.

Lemma parse_operator op rest : OP_PUSHDATA4 < op < 256 -> parse (B#op :: rest) = cons (op, []) <$> parse rest.
Proof. intros Ho. by rewrite (parse_step _ _ _ _ (GetOp_plain op rest Ho)). Qed.

Lemma parse_push b rest : zlen (b ++ rest) < 2 ^ 32 ->
  parse (push_header (zlen b) ++ b ++ rest) = cons (push_opcode (zlen b), b) <$> parse rest.
Proof. intros Hl. by rewrite (parse_step _ _ _ _ (GetOp_push_data b rest Hl)). Qed.

(** Small objects are pushed the way small vectors are. *)
Lemma push_object_small s b : zlen b < OP_PUSHDATA1 -> push_object s b = s ++ push_header (zlen b) ++ b.
Proof. intros Hb. unfold push_object, push_header. by rewrite (proj2 (Z.ltb_lt _ _) Hb). Qed.

Lemma zlen_id id : zlen (le_bytes 20 id) = 20.
Proof. unfold zlen. by rewrite length_le_bytes. Qed.

Lemma SetDestination_key_eq id : SetDestination (CKeyID id) = p2pkh_script (le_bytes 20 id).
Proof.
  unfold SetDestination, p2pkh_script, push_op, pushes. rewrite push_object_small by (by rewrite zlen_id).
  cbn [map concat]. by rewrite app_nil_r, <- !app_assoc.
Qed.

Lemma SetDestination_script_eq id :
  SetDestination (CScriptID id) = [B#OP_HASH160; B#20] ++ le_bytes 20 id ++ [B#OP_EQUAL].
Proof.
  unfold SetDestination, push_op. rewrite push_object_small by (by rewrite zlen_id). rewrite zlen_id.
  by rewrite <- !app_assoc.
Qed.

Lemma IsPayToScriptHash_eq h : zlen h = 20 -> IsPayToScriptHash ([B#OP_HASH160; B#20] ++ h ++ [B#OP_EQUAL]) = true.
Proof.
  intros Hh. unfold IsPayToScriptHash, byte_is. rewrite !zlen_app, Hh. change (zlen [B#OP_EQUAL]) with 1.
  change (zlen [B#OP_HASH160; B#20]) with 2. simpl. rewrite lookup_app_r by (unfold zlen in Hh; lia).
  replace (20 - length h)%nat with 0%nat by (unfold zlen in Hh; lia). done.
Qed.

Section solver.
Variable maxdata : Z.

Lemma Solver_p2sh h : zlen h = 20 ->
  Solver maxdata ([B#OP_HASH160; B#20] ++ h ++ [B#OP_EQUAL]) = (true, TX_SCRIPTHASH, [h]).
Proof.
  intros Hh. unfold Solver. rewrite IsPayToScriptHash_eq by done. cbn [app skipn].
  do 3 f_equal. change (take 20 (h ++ [B#OP_EQUAL]) = h). by rewrite take_app_length' by (unfold zlen in Hh; lia).
Qed.

Lemma Solver_key h : zlen h = 20 -> Solver maxdata (p2pkh_script h) = (true, TX_PUBKEYHASH, [h]).
Proof.
  intros Hh. rewrite Solver_spec. unfold IsPayToScriptHash.
  assert (zlen (p2pkh_script h) = 25) as -> by (unfold p2pkh_script; by rewrite !zlen_cons, zlen_app, zlen_pushes_1).
  change (25 =? 23) with false. cbn [andb]. unfold p2pkh_script, pushes. simpl concat. rewrite app_nil_r, <- app_assoc.
  rewrite !parse_operator by done. rewrite parse_push by (rewrite zlen_app, Hh; done).
  rewrite !parse_operator by done. cbn [parse parse_n length fmap option_fmap option_map].
  unfold classify, as_pubkey, as_pubkeyhash. by rewrite Hh.
Qed.

(** The script made for a destination is standard and gives the destination back;
    [CNoDestination] has the empty script, which has none. *)
Theorem ExtractDestination_SetDestination `{Digests} dest :
  match dest with CKeyID id | CScriptID id => 0 <= id < 2 ^ 160 | CNoDestination => True end ->
  ExtractDestination maxdata (SetDestination dest) =
    (if decide (dest = CNoDestination) then None else Some dest) /\
  (IsStandard maxdata (SetDestination dest)).1 = bool_decide (dest <> CNoDestination).
Proof.
  intros Hid. unfold ExtractDestination, IsStandard. destruct dest as [|id|id]; [done| |].
  - rewrite SetDestination_key_eq, Solver_key by apply zlen_id. simpl. by rewrite le_val_bytes by lia.
  - rewrite SetDestination_script_eq, Solver_p2sh by apply zlen_id. simpl. by rewrite le_val_bytes by lia.
Qed.

(** *** Bare multisig *)
Lemma pubkey_sizes pk : pubkey_wf pk -> 33 <= zlen pk <= 65.
Proof.
  intros [E Hp]. rewrite E. unfold PubKey.size, PubKey.GetLen in *. repeat case_match; lia.
Qed.

Lemma fold_push keys s : Forall pubkey_wf keys -> fold_left push_object keys s = s ++ pushes keys.
Proof.
  intros Hk. revert s. induction Hk as [|k keys Hw _ IH]; intros s; [by rewrite app_nil_r|].
  pose proof (pubkey_sizes k Hw). cbn [fold_left]. rewrite push_object_small by (unfold OP_PUSHDATA1; lia).
  rewrite IH. unfold pushes. simpl. by rewrite <- !app_assoc.
Qed.

Lemma zlen_pushes keys : Forall pubkey_wf keys -> zlen (pushes keys) <= 70 * zlen keys.
Proof.
  intros Hk. induction Hk as [|k keys Hw _ IH]; [done|]. unfold pushes in *. simpl concat.
  rewrite !zlen_app, zlen_cons. pose proof (pubkey_sizes k Hw). pose proof (zlen_push_header (zlen k)). lia.
Qed.

Lemma parse_pushes keys rest : zlen (pushes keys ++ rest) < 2 ^ 32 ->
  parse (pushes keys ++ rest) = app (map (fun k => (push_opcode (zlen k), k)) keys) <$> parse rest.
Proof.
  induction keys as [|k keys IH]; intros Hl; simpl.
  { by destruct (parse rest). }
  unfold pushes in *. simpl in Hl |- *. rewrite <- !app_assoc in *.
  pose proof (zlen_nonneg (push_header (zlen k))). rewrite zlen_app in Hl.
  rewrite parse_push by lia. pose proof (zlen_nonneg k). rewrite zlen_app in Hl.
  rewrite IH by lia. by destruct (parse rest).
Qed.

Lemma span_keys_app keys l : Forall pubkey_wf keys -> span_keys l = ([], l) ->
  span_keys (map (fun k => (push_opcode (zlen k), k)) keys ++ l) = (keys, l).
Proof.
  intros Hk Hl. induction Hk as [|k keys Hw _ IH]; [done|]. cbn [map app span_keys]. rewrite IH.
  pose proof (pubkey_sizes k Hw). unfold key_sized.
  by rewrite (proj2 (Z.leb_le 33 _)), (proj2 (Z.leb_le _ 120)) by lia.
Qed.

Lemma DecodeOP_N_Encode k : 1 <= k <= 16 -> EncodeOP_N k = Some (OP_1 + k - 1) /\ DecodeOP_N (OP_1 + k - 1) = Some k.
Proof.
  intros Hk. unfold EncodeOP_N, DecodeOP_N, OP_1, OP_16, OP_0.
  destruct (Z.leb_spec 0 k), (Z.leb_spec k 16), (Z.eqb_spec k 0); try lia. split; [done|].
  destruct (Z.eqb_spec (0x51 + k - 1) 0), (Z.leb_spec 0x51 (0x51 + k - 1)), (Z.leb_spec (0x51 + k - 1) 0x60); try lia.
  simpl. f_equal. lia.
Qed.

Lemma SetMultisig_eq m keys : 1 <= m <= 16 -> 1 <= zlen keys <= 16 -> Forall pubkey_wf keys ->
  SetMultisig m keys =
    Some (B#(OP_1 + m - 1) :: pushes keys ++ [B#(OP_1 + zlen keys - 1); B#OP_CHECKMULTISIG]).
Proof.
  intros Hm Hn Hk. unfold SetMultisig.
  rewrite (proj1 (DecodeOP_N_Encode m Hm)), (proj1 (DecodeOP_N_Encode (zlen keys) Hn)).
  cbn [mbind option_bind]. rewrite fold_push by done. unfold push_op. cbn [app]. by rewrite <- !app_assoc.
Qed.

Lemma Solver_multisig m keys : 1 <= m <= zlen keys -> zlen keys <= 16 -> Forall pubkey_wf keys ->
  Solver maxdata (B#(OP_1 + m - 1) :: pushes keys ++ [B#(OP_1 + zlen keys - 1); B#OP_CHECKMULTISIG]) =
    (true, TX_MULTISIG, [[B#m]] ++ keys ++ [[B#(zlen keys)]]).
Proof.
  intros Hm Hn Hk. rewrite Solver_spec. unfold IsPayToScriptHash.
  assert (byte_is (B#(OP_1 + m - 1) :: pushes keys ++ [B#(OP_1 + zlen keys - 1); B#OP_CHECKMULTISIG]) 0 OP_HASH160 = false) as ->.
  { unfold byte_is. simpl. rewrite uchar_to_byte_small by (unfold OP_1; lia). unfold OP_1, OP_HASH160. lia. }
  rewrite andb_false_r. cbn [andb]. pose proof (zlen_pushes keys Hk).
  rewrite parse_operator by (unfold OP_1, OP_PUSHDATA4; lia).
  rewrite parse_pushes by (rewrite zlen_app; change (zlen [B#(OP_1 + zlen keys - 1); B#OP_CHECKMULTISIG]) with 2; lia).
  rewrite !parse_operator by (unfold OP_1, OP_PUSHDATA4, OP_CHECKMULTISIG; lia).
  cbn [parse parse_n length fmap option_fmap option_map].
  set (l := (OP_1 + m - 1, []) :: _).
  assert (as_pubkey l = None) as E1.
  { unfold l, as_pubkey. destruct keys as [|k [|]]; [done|done|done]. }
  assert (as_pubkeyhash l = None) as E2.
  { unfold l, as_pubkeyhash. destruct keys as [|k1 [|k2 [|k3 [|k4 [|k5 keys]]]]]; try done. simpl.
    rewrite (proj2 (Z.eqb_neq _ _)); [done|]. unfold OP_1, OP_DUP. lia. }
  assert (as_multisig l = Some (m, keys, zlen keys)) as E3.
  { unfold l. cbn [as_multisig]. rewrite span_keys_app by done.
    rewrite (proj2 (DecodeOP_N_Encode m ltac:(lia))), (proj2 (DecodeOP_N_Encode (zlen keys) ltac:(lia))). done. }
  unfold classify. rewrite E1, E2, E3.
  by rewrite (proj2 (Z.leb_le 1 m)), (proj2 (Z.leb_le m _)), Z.eqb_refl by lia.
Qed.

(** A bare m-of-n script made from at most sixteen valid keys is recognised with its
    threshold and its keys in order; it is standard up to three keys. *)
Theorem SetMultisig_Solver `{Digests} m keys : 1 <= m <= zlen keys -> zlen keys <= 16 -> Forall pubkey_wf keys ->
  exists s, SetMultisig m keys = Some s /\
    Solver maxdata s = (true, TX_MULTISIG, [[B#m]] ++ keys ++ [[B#(zlen keys)]]) /\
    ExtractDestinations maxdata s =
      (true, TX_MULTISIG, map (fun k => CKeyID (PubKey.GetID (PubKey.Set_ k))) keys, m) /\
    (IsStandard maxdata s).1 = (zlen keys <=? 3).
Proof.
  intros Hm Hn Hk. eexists. split; [apply SetMultisig_eq; [lia|lia|done]|].
  unfold ExtractDestinations, IsStandard. rewrite Solver_multisig by done. split; [done|].
  cbn [negb]. unfold inner_solutions. rewrite app_assoc, last_snoc. cbn [app head tail first_byte].
  rewrite pop_back_app, !uchar_to_byte_small by lia. split; [done|].
  destruct (Z.ltb_spec (zlen keys) 1), (Z.ltb_spec 3 (zlen keys)), (Z.ltb_spec m 1), (Z.ltb_spec (zlen keys) m),
    (Z.leb_spec (zlen keys) 3); try lia; done.
Qed.
End solver.

Lemma ExtractDestination_SetDestination_witness :
  @ExtractDestination MAX_OP_RETURN_RELAY dummy_digests (SetDestination (CScriptID 0xabcdef)) = Some (CScriptID 0xabcdef).
Proof. by apply (@ExtractDestination_SetDestination MAX_OP_RETURN_RELAY dummy_digests (CScriptID 0xabcdef)). Defined.

Lemma SetMultisig_Solver_witness :
  exists s, SetMultisig 1 [toy_pk; B#3 :: replicate 32 B#5] = Some s /\
    Solver MAX_OP_RETURN_RELAY s = (true, TX_MULTISIG, [[B#1]; toy_pk; B#3 :: replicate 32 B#5; [B#2]]).
Proof.
  destruct (@SetMultisig_Solver MAX_OP_RETURN_RELAY dummy_digests 1 [toy_pk; B#3 :: replicate 32 B#5]) as (s & Es & Ev & _).
  - vm_compute. split; discriminate.
  - vm_compute. discriminate.
  - repeat constructor; vm_compute; reflexivity.
  - exists s. split; [exact Es|exact Ev].
Defined.
End DestinationFacts.

(** ** Compressed scripts *)
Module CompressorFacts.
Import Compressor.

Lemma byte_is_drop s i v : byte_is s i v = true -> drop i s = B#v :: drop (S i) s.
Proof.
  unfold byte_is. destruct (s !! i) as [b|] eqn:E; [|done]. intros <-%Z.eqb_eq.
  rewrite to_byte_uchar. by apply drop_S.
Qed.

Lemma drop_split {A} (l : list A) i k : drop i l = take k (drop i l) ++ drop (i + k) l.
Proof. rewrite <- drop_drop. by rewrite take_drop. Qed.

Lemma drop_end (l : bytes) k : zlen l = Z.of_nat k -> drop k l = [].
Proof. intros Hl. apply drop_ge. unfold zlen in Hl. lia. Qed.

Lemma IsToKeyID_shape s id : IsToKeyID s = Some id ->
  exists h, length h = 20%nat /\ id = le_val h /\
    s = [B#OP_DUP; B#OP_HASH160; B#20] ++ h ++ [B#OP_EQUALVERIFY; B#OP_CHECKSIG].
Proof.
  unfold IsToKeyID. destruct (_ && _) eqn:E; [|done]. intros [= <-].
  rewrite !andb_true_iff in E. destruct E as [[[[[El%Z.eqb_eq E0] E1] E2] E3] E4].
  apply byte_is_drop in E0, E1, E2, E3, E4. exists (take 20 (drop 3 s)). split.
  { rewrite length_take, length_drop. unfold zlen in El. lia. }
  split; [done|]. rewrite (drop_end s 25 El) in E4.
  rewrite E4 in E3. rewrite (drop_split s 3 20) in E2. change (3 + 20)%nat with 23%nat in E2.
  rewrite E3 in E2. rewrite E2 in E1. by rewrite E1 in E0.
Qed.

Lemma IsToScriptID_shape s id : IsToScriptID s = Some id ->
  exists h, length h = 20%nat /\ id = le_val h /\ s = [B#OP_HASH160; B#20] ++ h ++ [B#OP_EQUAL].
Proof.
  unfold IsToScriptID. destruct (_ && _) eqn:E; [|done]. intros [= <-].
  rewrite !andb_true_iff in E. destruct E as [[[El%Z.eqb_eq E0] E1] E2].
  apply byte_is_drop in E0, E1, E2. exists (take 20 (drop 2 s)). split.
  { rewrite length_take, length_drop. unfold zlen in El. lia. }
  split; [done|]. rewrite (drop_end s 23 El) in E2.
  rewrite (drop_split s 2 20) in E1. change (2 + 20)%nat with 22%nat in E1.
  rewrite E2 in E1. by rewrite E1 in E0.
Qed.

(** The bytes of a key in a script: a length byte, the key, the operator. *)
Lemma key_script_shape s k : zlen s = Z.of_nat (k + 2) -> byte_is s 0 (Z.of_nat k) = true ->
  byte_is s (k + 1) OP_CHECKSIG = true ->
  exists pk, length pk = k /\ take k (drop 1 s) = pk /\ s = [B#(Z.of_nat k)] ++ pk ++ [B#OP_CHECKSIG].
Proof.
  intros El E0 E2. apply byte_is_drop in E0, E2. exists (take k (drop 1 s)).
  split; [rewrite length_take, length_drop; unfold zlen in El; lia|]. split; [done|].
  replace (S (k + 1)) with (k + 2)%nat in E2 by lia. rewrite (drop_end s (k + 2) El) in E2.
  rewrite (drop_split s 1 k) in E0. replace (1 + k)%nat with (k + 1)%nat in E0 by lia. by rewrite E2 in E0.
Qed.

Lemma be_val_parity y b : be_val (y ++ [b]) mod 2 = uchar b mod 2.
Proof.
  unfold be_val. rewrite rev_app_distr. cbn [rev app]. rewrite le_val_cons.
  replace (uchar b + 256 * le_val (rev y)) with (uchar b + (128 * le_val (rev y)) * 2) by lia.
  by rewrite Z.mod_add by lia.
Qed.

Lemma Set_valid pk : zlen pk = PubKey.GetLen (PubKey.header pk) -> pk <> [] -> PubKey.GetLen (PubKey.header pk) <> 0 ->
  PubKey.Set_ pk = pk.
Proof.
  intros E Hne H0. destruct pk as [|b pk]; [done|]. unfold PubKey.Set_. cbn [PubKey.header] in *.
  rewrite (proj2 (Z.eqb_neq _ _) H0), E, Z.eqb_refl. done.
Qed.

Section roundtrip.
Context `{ECLibOk}.

(** Keys the compressor recognises: compressed ones, and uncompressed ones of the curve. *)
Lemma IsToPubKey_shape s pk : IsToPubKey s = Some pk ->
  (exists b x, (b = B#2 \/ b = B#3) /\ pk = b :: x /\ length x = 32%nat /\ s = [B#33] ++ pk ++ [B#OP_CHECKSIG]) \/
  (exists x y b key, pk = B#4 :: x ++ y ++ [b] /\ length x = 32%nat /\ length y = 31%nat /\
     o2i_ECPublicKey pk = Some key /\ s = [B#65] ++ pk ++ [B#OP_CHECKSIG]).
Proof.
  unfold IsToPubKey. destruct (_ && _) eqn:E.
  - intros [= <-]. left. rewrite !andb_true_iff in E. destruct E as [[[El%Z.eqb_eq E0] E1] E2].
    destruct (key_script_shape s 33 El E0 E1) as (pk & Hl & Ep & Es). rewrite Ep.
    assert (exists b, (b = B#2 \/ b = B#3) /\ drop 1 s = b :: drop 2 s) as (b & Hb & Eb).
    { apply orb_true_iff in E2 as [E2|E2]; apply byte_is_drop in E2; eauto. }
    rewrite Eb in Ep. exists b, (take 32 (drop 2 s)). cbn [firstn] in Ep.
    assert (PubKey.Set_ pk = pk) as ->.
    { rewrite <- Ep. apply Set_valid; cbn [PubKey.header]; [|done|by destruct Hb as [->| ->]].
      rewrite Ep. unfold zlen. rewrite Hl. by destruct Hb as [->| ->]. }
    split; [done|]. split; [done|]. split; [|done]. rewrite <- Ep in Hl. by injection Hl.
  - clear E. destruct (_ && _) eqn:E; [|done]. destruct (PubKey.IsFullyValid _) eqn:Ev; [|done]. intros [= <-].
    right. rewrite !andb_true_iff in E. destruct E as [[[El%Z.eqb_eq E0] E1] E2].
    destruct (key_script_shape s 65 El E0 E1) as (pk & Hl & Ep & Es). rewrite Ep in *.
    apply byte_is_drop in E2. rewrite E2 in Ep. cbn [firstn] in Ep.
    assert (PubKey.Set_ pk = pk) as Eset.
    { rewrite <- Ep. apply Set_valid; cbn [PubKey.header]; [|done|done]. rewrite Ep. unfold zlen. by rewrite Hl. }
    rewrite Eset in *. set (r := take 64 (drop 2 s)) in *.
    assert (length r = 64%nat) as Hr by (rewrite <- Ep in Hl; by injection Hl).
    assert (drop 63 r <> []) as Hd by (intros E; apply (f_equal length) in E; rewrite length_drop in E; simpl in E; lia).
    unfold PubKey.IsFullyValid in Ev. destruct (PubKey.IsValid pk); [|done].
    destruct (o2i_ECPublicKey pk) as [key|] eqn:Eo; [|done]. cbn [negb] in Ev.
    destruct (drop 63 r) as [|b tl] eqn:Eb; [done|].
    assert (tl = []) as ->.
    { apply (f_equal length) in Eb. rewrite length_drop in Eb. simpl in Eb. apply length_zero_iff_nil. lia. }
    exists (take 32 r), (take 31 (drop 32 r)), b, key. rewrite !length_take, length_drop.
    assert (take 32 r ++ take 31 (drop 32 r) ++ [b] = r) as Ecat.
    { rewrite <- Eb. change 63%nat with (32 + 31)%nat. rewrite <- (drop_split r 32 31). apply take_drop. }
    rewrite Ecat. split; [done|]. split; [lia|]. split; [lia|]. done.
Qed.

Lemma read_tag b data rest : uchar b < 128 -> ReadVarInt 32 (b :: data ++ rest) = (Some (uchar b), data ++ rest).
Proof.
  intros Hb. pose proof (uchar_range b). unfold ReadVarInt. cbn [read_loop].
  rewrite high_bit_test, (proj2 (Z.ltb_lt _ _) Hb). f_equal. f_equal.
  change (Z.shiftl 0 7 mod 2 ^ 32) with 0. rewrite Z.lor_0_l. change 0x7f with (Z.ones 7).
  rewrite Z.land_ones by lia. apply Z.mod_small. lia.
Qed.

(** Reading what starts with the number of a special script. *)
Lemma read_special b data rest : uchar b < 6 -> length data = Z.to_nat (GetSpecialSize (uchar b)) ->
  @get _ ser_script (b :: data ++ rest) = (Some (Decompress [] (uchar b) data).2, rest).
Proof.
  intros Hb Hl. cbn [get ser_script]. unfold mbind, SM_bind. rewrite read_tag by lia.
  unfold nSpecialScripts. rewrite (proj2 (Z.ltb_lt _ _) Hb). rewrite <- Hl, read_bytes_app. done.
Qed.

Lemma Decompress_uncompressed x y b key : length x = 32%nat -> length y = 31%nat ->
  o2i_ECPublicKey (B#4 :: x ++ y ++ [b]) = Some key ->
  Decompress [] (Z.lor 4 (Z.land (uchar b) 1)) x = (true, [B#65] ++ (B#4 :: x ++ y ++ [b]) ++ [B#OP_CHECKSIG]).
Proof.
  intros Hx Hy Eo. destruct (compression_doc x (y ++ [b]) key Hx) as (key' & E1 & E2); [rewrite length_app; simpl; lia|done|].
  rewrite be_val_parity in E1. change 1 with (Z.ones 1) at 1. rewrite Z.land_ones by lia.
  change (2 ^ 1) with 2. pose proof (Z.mod_pos_bound (uchar b) 2 ltac:(lia)) as Hm.
  set (p := uchar b mod 2) in *.
  assert (Z.lor 4 p = 4 + p) as -> by (assert (p = 0 \/ p = 1) as [-> | ->] by lia; done).
  unfold Decompress.
  destruct (Z.eqb_spec (4 + p) 0), (Z.eqb_spec (4 + p) 1), (Z.eqb_spec (4 + p) 2), (Z.eqb_spec (4 + p) 3); try lia.
  assert ((4 + p =? 4) || (4 + p =? 5) = true) as -> by lia. cbn [orb].
  replace (4 + p - 2) with (2 + p) by lia. rewrite (take_ge x) by lia.
  assert (PubKey.header (B#(2 + p) :: x) = 2 + p) as Eh by (cbn [PubKey.header]; rewrite uchar_to_byte_small; lia).
  assert (PubKey.GetLen (2 + p) = 33) as Eg by (assert (p = 0 \/ p = 1) as [-> | ->] by lia; done).
  rewrite Set_valid by (rewrite ?Eh, ?Eg; try done; rewrite zlen_cons; unfold zlen; rewrite Hx; done).
  unfold PubKey.Decompress, PubKey.IsValid, PubKey.size. rewrite Eh, Eg. cbn [Z.ltb Z.compare negb]. rewrite E1, E2.
  rewrite Set_valid; [done| |done|done]. cbn [PubKey.header]. change (PubKey.GetLen (uchar B#4)) with 65.
  rewrite zlen_cons, !zlen_app. unfold zlen. rewrite Hx, Hy. done.
Qed.

(** Storing a script in compressed form and reading it back gives the script, also
    for the six special forms that keep only a hash or the x coordinate of a
    key. *)
Theorem compressed_script_roundtrip s rest : zlen s < 2 ^ 32 - 6 ->
  @get _ ser_script (@put _ ser_script s ++ rest) = (Some s, rest).
Proof.
  intros Hl. cbn [put ser_script]. destruct (Compress s) as [compr|] eqn:Ec.
  - unfold Compress in Ec. destruct (IsToKeyID s) as [id|] eqn:E1.
    { apply (inj Some) in Ec as <-. apply IsToKeyID_shape in E1 as (h & Hh & -> & ->).
      rewrite le_bytes_val by done. cbn [app]. rewrite read_special by done.
      unfold Decompress. simpl. by rewrite take_ge by lia. }
    destruct (IsToScriptID s) as [id|] eqn:E2.
    { apply (inj Some) in Ec as <-. apply IsToScriptID_shape in E2 as (h & Hh & -> & ->).
      rewrite le_bytes_val by done. cbn [app]. rewrite read_special by done.
      unfold Decompress. simpl. by rewrite take_ge by lia. }
    destruct (IsToPubKey s) as [pk|] eqn:E3; [|done].
    destruct (IsToPubKey_shape s pk E3) as [(b & x & Hb & -> & Hx & ->)|(x & y & b & key & -> & Hx & Hy & Eo & ->)].
    + assert (byte_is (b :: x) 0 2 || byte_is (b :: x) 0 3 = true) as Eb by (by destruct Hb as [-> | ->]).
      rewrite Eb in Ec. apply (inj Some) in Ec as <-. cbn [PubKey.header]. change (drop 1 (b :: x)) with x. rewrite take_ge by lia.
      rewrite to_byte_uchar. cbn [app]. rewrite read_special by (destruct Hb as [-> | ->]; done).
      unfold Decompress. destruct Hb as [-> | ->]; simpl; by rewrite take_ge by lia.
    + apply (inj Some) in Ec as <-. change (drop 1 (B#4 :: x ++ y ++ [b])) with (x ++ y ++ [b]).
      rewrite take_app_length' by done.
      assert ((B#4 :: x ++ y ++ [b]) !! 64%nat = Some b) as ->.
      { change ((B#4 :: x ++ y ++ [b]) !! 64%nat) with ((x ++ y ++ [b]) !! 63%nat).
        rewrite lookup_app_r by lia. rewrite lookup_app_r by lia. by replace (63 - length x - length y)%nat with 0%nat by lia. }
      pose proof (Decompress_uncompressed x y b key Hx Hy Eo) as Ed.
      assert (0 <= Z.lor 4 (Z.land (uchar b) 1) < 6 /\ GetSpecialSize (Z.lor 4 (Z.land (uchar b) 1)) = 32) as [Hr Hs].
      { change 1 with (Z.ones 1) at 1 2 3. rewrite Z.land_ones by lia. change (2 ^ 1) with 2.
        pose proof (Z.mod_pos_bound (uchar b) 2 ltac:(lia)).
        assert (uchar b mod 2 = 0 \/ uchar b mod 2 = 1) as [-> | ->] by lia; done. }
      cbn [app]. rewrite read_special; rewrite uchar_to_byte_small by lia; [by rewrite Ed|lia|by rewrite Hs].
  - rewrite <- app_assoc. cbn [get ser_script]. unfold mbind, SM_bind, nSpecialScripts, u32.
    pose proof (zlen_nonneg s). rewrite Z.mod_small by lia. rewrite VarIntFacts.ReadVarInt_Write by lia.
    destruct (Z.ltb_spec (zlen s + 6) 6); [lia|]. replace (zlen s + 6 - 6) with (zlen s) by lia.
    unfold zlen. rewrite Nat2Z.id. apply read_bytes_app.
Qed.
End roundtrip.

Lemma compressed_script_roundtrip_witness :
  let s := [B#65] ++ (B#4 :: replicate 32 B#9 ++ toy_y true) ++ [B#OP_CHECKSIG] in
  @put _ (@ser_script dummy_ec) s = B#5 :: replicate 32 B#9 /\
  @get _ (@ser_script dummy_ec) (@put _ (@ser_script dummy_ec) s ++ [B#7]) = (Some s, [B#7]).
Proof.
  cbv zeta. split; [by vm_compute|].
  apply (@compressed_script_roundtrip dummy_ec dummy_ec_ok). vm_compute. reflexivity.
Defined.
End CompressorFacts.

(** The template comment speaks of a small push after [OP_RETURN]; any single
    operator passes as well. *)
Example null_data_operator : Solver MAX_OP_RETURN_RELAY [B#OP_RETURN; B#OP_CHECKSIG] = (true, TX_NULL_DATA, []).
Proof. vm_compute. reflexivity. Qed.
