(* ===== verification/Spending.v ===== *)
(** * Spending: pay-to-script-hash and bare multisig outputs, verified end to end *)

From S2P Require Import Prelude BigNum ScriptOps Serialize Crypto Keys Core SigHash Interp InterpFacts Standard.
Import Encoding Stack CScript DestinationFacts VerifyFacts.

Section spending.
Context `{BNLib} `{Digests} `{ECLib} `{SigEnv}.
Variable tx : CTransaction.
Variable n : nat.
Variables fl ht : Z.

(** ** Pay to script hash *)
Definition p2sh_script (h : bytes) : bytes := [B#OP_HASH160; B#20] ++ h ++ [B#OP_EQUAL].

Lemma IsPayToScriptHash_shape s : IsPayToScriptHash s = true -> exists h, zlen h = 20 /\ s = p2sh_script h.
Proof.
  intros E. assert (Compressor.IsToScriptID s = Some (le_val (take 20 (drop 2 s)))) as Es.
  { unfold Compressor.IsToScriptID. unfold IsPayToScriptHash in E. by rewrite E. }
  apply CompressorFacts.IsToScriptID_shape in Es as (h & Hh & _ & ->). exists h. unfold zlen. by rewrite Hh.
Qed.

Lemma p2sh_pushes h : zlen h = 20 -> p2sh_script h = B#OP_HASH160 :: pushes [h] ++ [B#OP_EQUAL].
Proof.
  intros Hh. unfold p2sh_script, pushes, push_header. cbn [map concat]. rewrite Hh, app_nil_r. done.
Qed.

Lemma run_equal s l a b : stack s = l ++ [a; b] ->
  exec_equal OP_EQUAL s = (Some tt, set_stack (l ++ [if bool_decide (a = b) then vchTrue else vchFalse]) s).
Proof.
  intros E. destruct (tops_2 s l a b E) as [T2 T1]. destruct (pop_2 s l a b E) as [P1 P2]. unfold exec_equal.
  rewrite (bindS _ _ _ _ _ (need_2 s l a b E)), (bindS _ _ _ _ _ T2), (bindS _ _ _ _ _ T1). cbv zeta.
  rewrite (bindS _ _ _ _ _ P1), (bindS _ _ _ _ _ P2). unfold push_bool, verify_tail.
  change (OP_EQUAL =? OP_EQUALVERIFY) with false. by rewrite (bindS _ _ _ _ _ (push_ok _ _)).
Qed.

(** The output script on a stack that ends with the redeem script. *)
Lemma eval_p2sh st v h c : zlen h = 20 -> zlen st <= 998 ->
  EvalScript (st ++ [v]) (p2sh_script h) tx n fl ht c =
    (true, st ++ [if bool_decide (Hash160Bytes v = h) then vchTrue else vchFalse], c).
Proof.
  intros Hh Hst. pose proof (zlen_nonneg st). pose proof (zlen_pushes_1 h Hh) as Hp.
  assert (zlen (p2sh_script h) = 23) as Hl by (rewrite p2sh_pushes by done; by rewrite zlen_cons, zlen_app, Hp).
  unfold EvalScript. rewrite Hl. change (10000 <? 23) with false. cbv iota.
  rewrite p2sh_pushes by done. set (s0 := mk_eval (st ++ [v]) [] [] 0 _ c).
  rewrite (run_op tx n fl ht OP_HASH160 _ s0 (Some tt) (set_stack (st ++ [Hash160Bytes v]) (set_nOpCount 1 s0)));
    [|done|done|done|done|by apply run_hash160|zsize].
  rewrite eval_pushes; [|done|repeat constructor; unfold MAX_SCRIPT_ELEMENT_SIZE; lia
    |zsize|rewrite zlen_app, Hp; done].
  set (s1 := set_stack _ _).
  assert (stack s1 = st ++ [Hash160Bytes v; h]) as E1 by (simpl; by rewrite <- app_assoc).
  rewrite (run_op tx n fl ht OP_EQUAL _ s1 (Some tt)
    (set_stack (st ++ [if bool_decide (Hash160Bytes v = h) then vchTrue else vchFalse]) (set_nOpCount 2 s1)));
    [done|done|done|done|done|by apply run_equal|zsize].
Qed.

(** Where 20 bytes more overfill the stack, it fails. *)
Lemma eval_p2sh_full st v h c : zlen h = 20 -> 998 < zlen st ->
  (EvalScript (st ++ [v]) (p2sh_script h) tx n fl ht c).1.1 = false.
Proof.
  intros Hh Hst. pose proof (zlen_pushes_1 h Hh) as Hp.
  assert (zlen (p2sh_script h) = 23) as Hl by (rewrite p2sh_pushes by done; by rewrite zlen_cons, zlen_app, Hp).
  unfold EvalScript. rewrite Hl. change (10000 <? 23) with false. cbv iota.
  rewrite p2sh_pushes by done. set (s0 := mk_eval (st ++ [v]) [] [] 0 _ c).
  set (s1 := set_stack (st ++ [Hash160Bytes v]) (set_nOpCount 1 s0)).
  assert (exec_opcode tx n fl ht (pushes [h] ++ [B#OP_EQUAL]) true OP_HASH160 (set_nOpCount 1 s0) = (Some tt, s1)) as E
    by (by apply run_hash160).
  destruct (Z.le_gt_cases (zlen st) 999).
  - rewrite (run_op tx n fl ht OP_HASH160 _ s0 (Some tt) s1); [|done|done|done|done|exact E|unfold s1; zsize].
    pose proof (run_push_full tx n fl ht h [B#OP_EQUAL] s1 eq_refl) as Hf.
    destruct (eval_loop _ _ _ _ _ _ s1) as [[u|] s2]; [|done]. enough (@Some unit u = None) by done.
    apply Hf; [unfold MAX_SCRIPT_ELEMENT_SIZE; lia|unfold s1; zsize|by rewrite zlen_app, Hp].
  - by rewrite (run_op_full tx n fl ht OP_HASH160 _ s0 s1); [|done|done|done|done|exact E|unfold s1; zsize].
Qed.

(** The copied stack that [VerifyScript] takes the redeem script from is never empty. *)
Lemma p2sh_stack_nonempty s st c : IsPayToScriptHash s = true -> (EvalScript st s tx n fl ht c).1.1 = true -> st <> [].
Proof.
  intros (h & Hh & ->)%IsPayToScriptHash_shape E ->. revert E.
  pose proof (zlen_pushes_1 h Hh) as Hp.
  assert (zlen (p2sh_script h) = 23) as Hl by (rewrite p2sh_pushes by done; by rewrite zlen_cons, zlen_app, Hp).
  unfold EvalScript. rewrite Hl. change (10000 <? 23) with false. cbv iota.
  rewrite p2sh_pushes by done. set (s0 := mk_eval [] [] [] 0 _ c).
  by rewrite (run_op tx n fl ht OP_HASH160 _ s0 None (set_nOpCount 1 s0)).
Qed.

Lemma IsPushOnly_pushes vs : zlen (pushes vs) < 2 ^ 32 -> IsPushOnly (pushes vs) = true.
Proof.
  intros Hl. unfold IsPushOnly. induction vs as [|v vs IH]; [done|].
  unfold pushes in *. simpl in Hl |- *. rewrite <- app_assoc in *.
  rewrite !zlen_app in Hl. pose proof (zlen_nonneg v). pose proof (zlen_nonneg (push_header (zlen v))).
  rewrite run_walk_step.
  - rewrite GetOp_push_data by (rewrite zlen_app; lia).
    pose proof (push_opcode_range (zlen v) ltac:(lia)). unfold OP_PUSHDATA4, OP_16 in *.
    rewrite (proj2 (Z.ltb_ge _ _)) by lia. apply IH. lia.
  - unfold push_header. repeat case_match; done.
Qed.

Lemma VerifyScript_p2sh_eq args redeem id c : 0 <= id < 2 ^ 160 -> zlen args <= 900 ->
  Forall (fun v => zlen v <= MAX_SCRIPT_ELEMENT_SIZE) (args ++ [redeem]) -> zlen (pushes (args ++ [redeem])) <= 10000 ->
  (VerifyScript (pushes (args ++ [redeem])) (SetDestination (CScriptID id)) tx n fl ht c).1 =
    bool_decide (Hash160Bytes redeem = le_bytes 20 id) &&
    (let r := EvalScript args redeem tx n fl ht c in r.1.1 && verdict r.1.2).
Proof.
  intros Hid Ha Hs Hl. unfold VerifyScript. rewrite SetDestination_script_eq. fold (p2sh_script (le_bytes 20 id)).
  rewrite EvalScript_pushes_eq; [|done|rewrite zlen_app; change (zlen (@nil valtype)) with 0; change (zlen [redeem]) with 1; lia|done].
  cbn [negb]. rewrite app_nil_l. rewrite eval_p2sh by (rewrite ?zlen_id; done || lia). cbn [negb].
  rewrite last_snoc. unfold p2sh_script. rewrite IsPayToScriptHash_eq by apply zlen_id.
  rewrite IsPushOnly_pushes by lia. cbn [negb]. rewrite last_snoc, pop_back_app. cbn [default].
  destruct (bool_decide (Hash160Bytes redeem = le_bytes 20 id)); [|done].
  change (CastToBool vchTrue) with true. cbn [negb andb]. unfold verdict. change (Datatypes.id redeem) with redeem.
  destruct (EvalScript args redeem tx n fl ht c) as [[ok st] c']. simpl. destruct ok; [|done]. by destruct (last st).
Qed.

(** What a script leaves is a true value on top of a stack. *)
Lemma verdict_snoc ok st (c : CSignatureCache) :
  (exists st' v c2, (ok, st, c) = (true, st' ++ [v], c2) /\ CastToBool v = true) <-> ok = true /\ verdict st = true.
Proof.
  unfold verdict. split.
  - intros (st' & v & c2 & [= -> -> ->] & Hv). by rewrite last_snoc.
  - intros [-> Hv]. destruct st as [|v st' _] using rev_ind; [done|]. rewrite last_snoc in Hv. by exists st', v, c.
Qed.

(** The stack that the input script leaves names its parts. *)
Lemma snoc_parts (args : list valtype) redeem (c : CSignatureCache) (P : list valtype -> valtype -> CSignatureCache -> Prop) :
  (exists a r c2, (true, args ++ [redeem], c) = (true, a ++ [r], c2) /\ P a r c2) <-> P args redeem c.
Proof.
  split; [|intros; by exists args, redeem, c].
  intros (a & r & c2 & [= [-> ->]%app_inj_tail ->] & HP). done.
Qed.

(** C3. A pay-to-script-hash output is spent by an input script exactly when that
    script is made of pushes only, and the stack it leaves is a script with the
    output's hash on top of arguments (998 at most: the hash takes one more
    place) on which that script succeeds, with a true value on top. *)
Theorem VerifyScript_p2sh scriptSig id c : 0 <= id < 2 ^ 160 ->
  (VerifyScript scriptSig (SetDestination (CScriptID id)) tx n fl ht c).1 = true <->
  IsPushOnly scriptSig = true /\
  exists args redeem c1, EvalScript [] scriptSig tx n fl ht c = (true, args ++ [redeem], c1) /\
    zlen args <= 998 /\ Hash160Bytes redeem = le_bytes 20 id /\
    exists st v c2, EvalScript args redeem tx n fl ht c1 = (true, st ++ [v], c2) /\ CastToBool v = true.
Proof.
  intros Hid. unfold VerifyScript. rewrite SetDestination_script_eq. fold (p2sh_script (le_bytes 20 id)).
  assert (IsPayToScriptHash (p2sh_script (le_bytes 20 id)) = true) as Hp2sh
    by (unfold p2sh_script; apply IsPayToScriptHash_eq, zlen_id).
  destruct (EvalScript [] scriptSig tx n fl ht c) as [[ok stk] c1] eqn:E1.
  destruct ok; cbn [negb fst]; [|split; [done|by intros (_ & ? & ? & ? & [=] & _)]].
  destruct stk as [|redeem args _] using rev_ind.
  { pose proof (p2sh_stack_nonempty _ [] c1 Hp2sh) as Hne.
    destruct (EvalScript [] (p2sh_script _) tx n fl ht c1) as [[[] ?] ?]; [by destruct (Hne eq_refl)|].
    split; [done|]. by intros (_ & args & redeem & ? & [= E] & _); destruct args. }
  rewrite snoc_parts.
  destruct (Z.le_gt_cases (zlen args) 998) as [Ha|Ha].
  2:{ pose proof (eval_p2sh_full args redeem (le_bytes 20 id) c1 (zlen_id id) ltac:(lia)) as Hf.
      destruct (EvalScript _ (p2sh_script _) tx n fl ht c1) as [[[] ?] ?]; [done|]. split; [done|]. intros (_ & ? & _). lia. }
  rewrite eval_p2sh by (done || apply zlen_id). cbn [negb]. rewrite last_snoc, Hp2sh, last_snoc, pop_back_app.
  cbn [default]. destruct (decide (Hash160Bytes redeem = le_bytes 20 id)) as [Eh|Eh].
  2:{ rewrite bool_decide_eq_false_2 by done.
      change (CastToBool vchFalse) with false. cbn [negb fst].
      split; [done|]. by intros (_ & _ & ? & _). }
  rewrite bool_decide_eq_true_2 by done.
  change (CastToBool vchTrue) with true. cbn [negb].
  destruct (IsPushOnly scriptSig); cbn [negb fst]; [|split; [done|by intros [? _]]].
  change (Datatypes.id redeem) with redeem.
  destruct (EvalScript args redeem tx n fl ht c1) as [[ok st] c2]. rewrite verdict_snoc. unfold verdict.
  destruct ok; cbn [negb fst]; [|split; [done|by intros (_ & _ & _ & ? & _)]].
  destruct (last st) as [v|]; cbn [fst]; (split; [intros Hv; by repeat split|by intros (_ & _ & _ & _ & Hv)]).
Qed.

(** ** Bare multisig *)
Lemma run_small_int op rest s : OP_1 <= op <= OP_16 -> vfExec s = [] ->
  zlen (stack s) + zlen (altstack s) < 1000 ->
  eval_loop tx n fl ht (length (B#op :: rest)) (B#op :: rest) s =
    eval_loop tx n fl ht (length rest) rest (set_stack (stack s ++ [CBigNum.getvch (op - (OP_1 - 1))]) s).
Proof.
  intros Ho Hf Hs. unfold OP_1, OP_16 in *.
  rewrite (eval_step _ _ _ _ _ _ _ _ _ (GetOp_plain op rest ltac:(unfold OP_PUSHDATA4; lia))).
  set (s' := set_stack _ s). enough (exec_instr tx n fl ht rest op [] s = (Some tt, s')) as E by (by rewrite (bindS _ _ _ _ _ E)).
  unfold exec_instr, count_op. rewrite (bindS _ _ s (vfExec s) s) by done. rewrite Hf.
  rewrite (bindS _ _ s tt s) by done. unfold OP_16. rewrite (proj2 (Z.ltb_ge _ _)) by lia.
  rewrite (bindS _ _ s tt s) by done.
  assert (is_disabled op = false) as ->.
  { unfold is_disabled. apply not_true_iff_false. intros E. apply existsb_exists in E as (d & Hin & E).
    apply Z.eqb_eq in E. subst d. simpl in Hin.
    unfold OP_CAT, OP_SUBSTR, OP_LEFT, OP_RIGHT, OP_INVERT, OP_AND, OP_OR, OP_XOR, OP_2MUL, OP_2DIV, OP_MUL,
      OP_DIV, OP_MOD, OP_LSHIFT, OP_RSHIFT in Hin. lia. }
  rewrite (bindS _ _ s tt s) by done. unfold OP_PUSHDATA4.
  destruct (Z.leb_spec op 0x4e); [lia|]. rewrite andb_false_r. cbn [forallb andb orb].
  rewrite (bindS _ _ s tt s').
  - apply size_limits_ok. zsize.
  - unfold exec_opcode, OP_1, OP_16. destruct (Z.leb_spec 0x51 op), (Z.leb_spec op 0x60); try lia.
    rewrite orb_true_r. unfold exec_small_int, CBigNum.of_int, OP_1.
    by rewrite (proj2 (Z.leb_le 0 _)) by lia.
Qed.

Section with_laws.
Context `{!BNLibOk}.

Lemma CastToBigNum_small k : 0 <= k <= 16 -> CastToBigNum (CBigNum.getvch k) nDefaultMaxNumSize = Some k.
Proof.
  intros Hk. pose proof (length_mpi_encode_le k 0 ltac:(lia)) as Hl.
  assert (zlen (mpi_encode k) < 2 ^ 31) by (unfold zlen; lia).
  unfold CastToBigNum. rewrite getvch_encode by done. unfold nDefaultMaxNumSize.
  assert (zlen (rev (mpi_encode k)) <= 1) by (unfold zlen; rewrite length_rev; lia).
  rewrite (proj2 (Z.ltb_ge _ _)) by lia. rewrite <- getvch_encode by done.
  rewrite (setvch_getvch k) by done. rewrite (setvch_getvch k) by done. done.
Qed.

Definition multisig_script (m : Z) (keys : list valtype) : bytes :=
  B#(OP_1 + m - 1) :: pushes keys ++ [B#(OP_1 + zlen keys - 1); B#OP_CHECKMULTISIG].

(** The code that the signatures cover: the output script without the signatures. *)
Definition multisig_code (m : Z) (sigs keys : list valtype) : bytes :=
  fold_left drop_signature (reverse sigs) (multisig_script m keys).

Lemma eval_multisig sigs keys c : 1 <= zlen sigs <= zlen keys -> zlen keys <= 16 -> Forall pubkey_wf keys ->
  strict_ok fl (reverse sigs) (reverse keys) -> cache_ok c ->
  exists c', cache_ok c' /\
    EvalScript ([] :: sigs) (multisig_script (zlen sigs) keys) tx n fl ht c =
      (true, [if greedy (fun sig pk => sig_ok tx n fl ht sig pk (multisig_code (zlen sigs) sigs keys))
                   (reverse sigs) (reverse keys) then vchTrue else vchFalse], c').
Proof.
  intros Hm Hk Hw Hst Hc. pose proof (zlen_pushes keys Hw) as Hp.
  assert (zlen (multisig_script (zlen sigs) keys) <= 2000) as Hl.
  { unfold multisig_script. rewrite zlen_cons, zlen_app. change (zlen [B#(OP_1 + zlen keys - 1); B#OP_CHECKMULTISIG]) with 2. lia. }
  unfold EvalScript. rewrite (proj2 (Z.ltb_ge _ _)) by lia.
  set (s0 := mk_eval ([] :: sigs) [] [] 0 (multisig_script (zlen sigs) keys) c).
  unfold multisig_script at 1 2.
  rewrite run_small_int; [|unfold OP_1, OP_16; lia|done|zsize]. set (s1 := set_stack _ s0).
  rewrite eval_pushes; [|done| |unfold s1; zsize|rewrite zlen_app; change (zlen [B#(OP_1 + zlen keys - 1); B#OP_CHECKMULTISIG]) with 2; lia].
  2:{ eapply Forall_impl; [exact Hw|]. intros k Hkw. pose proof (pubkey_sizes k Hkw).
      unfold MAX_SCRIPT_ELEMENT_SIZE. lia. }
  set (s2 := set_stack _ s1). rewrite run_small_int; [|unfold OP_1, OP_16; lia|done|unfold s2, s1; zsize].
  set (s3 := set_stack _ s2).
  assert (stack s3 = [] ++ multisig_operands [] sigs (CBigNum.getvch (zlen sigs)) keys (CBigNum.getvch (zlen keys))) as E3.
  { unfold s3, s2, s1, multisig_operands. cbn [set_stack stack s0]. replace (OP_1 + zlen sigs - 1 - (OP_1 - 1)) with (zlen sigs) by lia.
    replace (OP_1 + zlen keys - 1 - (OP_1 - 1)) with (zlen keys) by lia. by rewrite <- !app_assoc. }
  destruct (run_checkmultisig tx n fl ht (set_nOpCount 1 s3) [] [] sigs (CBigNum.getvch (zlen sigs)) keys
    (CBigNum.getvch (zlen keys)) E3) as (c' & Hc' & Er); try done.
  - apply CastToBigNum_small. lia.
  - apply CastToBigNum_small. lia.
  - lia.
  - simpl. lia.
  - by rewrite andb_false_r.
  - exists c'. split; [done|].
    erewrite (run_op tx n fl ht OP_CHECKMULTISIG _ s3 (Some tt)); [|done|done|done|done|exact Er|zsize].
    done.
Qed.

(** A bare m-of-n output is spent by an empty item and m signatures exactly when the
    signatures are valid for m of the keys, in the order of the keys.  (With
    the strict-encoding flag the encodings must be in order, or the script fails
    before any signature is checked.) *)
Theorem VerifyScript_multisig sigs keys c :
  1 <= zlen sigs <= zlen keys -> zlen keys <= 16 -> Forall pubkey_wf keys ->
  Forall (fun v => zlen v <= MAX_SCRIPT_ELEMENT_SIZE) sigs ->
  strict_ok fl (reverse sigs) (reverse keys) -> cache_ok c ->
  exists s, SetMultisig (zlen sigs) keys = Some s /\
    ((VerifyScript (pushes ([] :: sigs)) s tx n fl ht c).1 = true <->
     exists ks, ks `sublist_of` keys /\
       Forall2 (fun sig pk => sig_ok tx n fl ht sig pk (fold_left drop_signature (reverse sigs) s) = true) sigs ks).
Proof.
  intros Hm Hk Hw Hs Hst Hc. exists (multisig_script (zlen sigs) keys).
  split; [apply SetMultisig_eq; [lia|lia|done]|].
  transitivity (matches (fun sig pk => sig_ok tx n fl ht sig pk (multisig_code (zlen sigs) sigs keys)) sigs keys); [|done].
  rewrite <- matches_rev, <- greedy_matches. unfold VerifyScript.
  assert (zlen (pushes ([] :: sigs)) <= 10000) as Hl.
  { assert (forall l, Forall (fun v => zlen v <= MAX_SCRIPT_ELEMENT_SIZE) l -> zlen (pushes l) <= 525 * zlen l) as Hp.
    { unfold pushes. intros l Hf. induction Hf as [|v l Hv _ IH]; [done|]. simpl. rewrite !zlen_app, zlen_cons.
      pose proof (zlen_push_header (zlen v)). unfold MAX_SCRIPT_ELEMENT_SIZE in *. lia. }
    pose proof (Hp ([] :: sigs)) as Hp'. rewrite zlen_cons in Hp'.
    assert (zlen (pushes ([] :: sigs)) <= 525 * (1 + zlen sigs)) by (by apply Hp'; constructor). lia. }
  rewrite EvalScript_pushes_eq; [|by constructor|rewrite zlen_cons; change (zlen (@nil valtype)) with 0; lia|done].
  cbn [negb]. rewrite app_nil_l.
  destruct (eval_multisig sigs keys c Hm Hk Hw Hst Hc) as (c' & Hc' & ->). cbn [negb last].
  assert (IsPayToScriptHash (multisig_script (zlen sigs) keys) = false) as ->.
  { unfold IsPayToScriptHash, multisig_script, byte_is. simpl. rewrite uchar_to_byte_small by (unfold OP_1; lia).
    unfold OP_1, OP_HASH160. destruct (Z.eqb_spec (0x51 + zlen sigs - 1) 0xa9); [lia|]. by rewrite andb_false_r. }
  destruct (greedy _ _ _); simpl; done.
Qed.
End with_laws.
End spending.

(** A script of pushes spends; the same pushes with an operator between them do not. *)
Lemma VerifyScript_p2sh_witness :
  let V := @VerifyScript ref_bn dummy_digests dummy_ec toy_env in
  let redeem := [B#OP_NOT] in
  let id := @Hash160 dummy_digests redeem in
  (V (pushes [[]; redeem]) (SetDestination (CScriptID id)) sample_tx 0%nat 0 0 empty_cache).1 = true /\
  (V (pushes [[]] ++ [B#OP_NOP] ++ pushes [redeem]) (SetDestination (CScriptID id)) sample_tx 0%nat 0 0 empty_cache).1 <> true.
Proof.
  cbv zeta. split.
  - apply (@VerifyScript_p2sh ref_bn dummy_digests dummy_ec toy_env); [vm_compute; by split|].
    split; [reflexivity|]. exists [[]], [B#OP_NOT], empty_cache. split; [vm_compute; reflexivity|].
    split; [vm_compute; discriminate|]. split; [reflexivity|].
    exists [], [B#1], empty_cache. split; vm_compute; reflexivity.
  - intros [Hp _]%(@VerifyScript_p2sh ref_bn dummy_digests dummy_ec toy_env); [|vm_compute; by split].
    vm_compute in Hp. discriminate.
Defined.

Lemma VerifyScript_multisig_witness :
  let V := @VerifyScript ref_bn dummy_digests dummy_ec toy_env in
  exists s, SetMultisig 1 [B#3 :: replicate 32 B#5; toy_pk] = Some s /\
    (V (pushes [[]; toy_der ++ [B#1]]) s sample_tx 0%nat 0 0 empty_cache).1 = true.
Proof.
  destruct (@VerifyScript_multisig ref_bn dummy_digests dummy_ec toy_env sample_tx 0%nat 0 0 ref_bn_ok
    [toy_der ++ [B#1]] [B#3 :: replicate 32 B#5; toy_pk] empty_cache) as (s & Es & Hv).
  - vm_compute. split; discriminate.
  - vm_compute. discriminate.
  - repeat constructor; vm_compute; reflexivity.
  - repeat constructor; vm_compute; discriminate.
  - intros sig pk _ _. reflexivity.
  - apply (@empty_cache_ok dummy_digests dummy_ec toy_env).
  - exists s. split; [exact Es|]. apply Hv. exists [toy_pk]. split.
    + apply sublist_cons. reflexivity.
    + apply (inj Some) in Es as <-. constructor; [|constructor]. vm_compute. reflexivity.
Defined.
