(* ===== verification/Der.v ===== *)
(** * Der: what OpenSSL's signer and encoder promise, and the encoding checks (src/src/key.cpp, script.cpp)

    The laws of the signing half of the curve library, and the proof that the
    signatures [CKey::Sign] makes pass [CheckSignatureEncoding]: the DER form
    of a pair in range with a low S is what the verifier calls canonical. *)

From S2P Require Import Prelude BigNum ScriptOps Crypto Keys SigHash Interp.
Import CScript Encoding KeyFacts.

(** The DER encoding of a pair of positive integers (X.690, i2d_ECDSA_SIG(3)):
    a sequence of two integers in minimal big-endian two's complement. *)
Definition der_int (z : Z) : bytes := B#0x02 :: B#(zlen (mpi_encode z)) :: mpi_encode z.
Definition der_body (r s : Z) : bytes := der_int r ++ der_int s.
Definition der_sig (r s : Z) : bytes := B#0x30 :: B#(zlen (der_body r s)) :: der_body r s.

(** The documented behaviour of signing: a secret in range signs every hash, the
    signature is valid for the secret's public key in both of its encodings, and
    it stays valid when S is negated. *)
Class SignerOk `{ECLib} : Prop := {
  i2d_doc r s : 0 < r < order -> 0 < s < order -> i2d_ECDSA_SIG (r, s) = der_sig r s;
  do_sign_total k h : 0 < k < order -> length h = 32%nat -> is_Some (ECDSA_do_sign k h);
  do_sign_valid k h r s s' comp : 0 < k < order -> ECDSA_do_sign k h = Some (r, s) -> s' = s \/ s' = order - s ->
    exists key, o2i_ECPublicKey (i2o_ECPublicKey comp (EC_KEY_regenerate k)) = Some key /\
      ECDSA_verify h (i2d_ECDSA_SIG (r, s')) key = 1
}.

(** ** Positive integers in MPI form *)
Lemma mpi_encode_pos z : 0 < z < 2 ^ 256 -> exists b r, mpi_encode z = b :: r /\ uchar b < 128 /\
  be_val (b :: r) = z /\ zlen (b :: r) <= 33 /\ (uchar b = 0 -> exists c r', r = c :: r' /\ 128 <= uchar c).
Proof.
  intros Hz. destruct (mpi_encode_spec z) as [Hm Hv].
  pose proof (length_mpi_encode_le z 32 ltac:(rewrite Z.abs_eq by lia; change (256 ^ Z.of_nat 32) with (2 ^ 256); lia)) as Hl.
  destruct (mpi_encode z) as [|b r]; [simpl in Hv; lia|]. exists b, r. split; [done|].
  simpl in Hm, Hv. pose proof (be_val_range r). byte_bounds.
  pose proof (Z.pow_pos_nonneg 256 (zlen r) ltac:(lia) (zlen_nonneg r)).
  destruct (Z.leb_spec 128 (uchar b)) as [Hb|Hb].
  { pose proof (Z.mod_pos_bound (uchar b) 128 ltac:(lia)). nia. }
  rewrite Z.mod_small in * by lia. split; [lia|]. split; [by rewrite be_val_cons|].
  split; [unfold zlen; lia|]. intros E. by destruct Hm.
Qed.

Section encoding.
Variables r s : Z.
Hypothesis Hr : 0 < r < order.
Hypothesis Hs : 0 < s <= order / 2.

Lemma order_256 : order < 2 ^ 256.
Proof. by vm_compute. Qed.

Lemma r_256 : 0 < r < 2 ^ 256.
Proof. pose proof order_256. lia. Qed.

Lemma s_256 : 0 < s < 2 ^ 256.
Proof. assert (order / 2 < 2 ^ 256) by (by vm_compute). lia. Qed.

Lemma byte_at_app h t k : 0 <= k -> byte_at (h ++ t) (zlen h + k) = byte_at t k.
Proof.
  intros Hk. unfold byte_at, at_. pose proof (zlen_nonneg h).
  destruct (Z.ltb_spec (zlen h + k) 0); [lia|]. destruct (Z.ltb_spec k 0); [lia|].
  rewrite lookup_app_r by (unfold zlen in *; lia).
  by replace (Z.to_nat (zlen h + k) - length h)%nat with (Z.to_nat k) by (unfold zlen; lia).
Qed.

Lemma top_bit b : (Z.land (uchar b) 0x80 =? 0) = (uchar b <? 128).
Proof. apply eqb_prop. by destruct b. Qed.

(** One integer, whatever comes before and after it. *)
Lemma der_integer_ok_at h z t : 0 < z < 2 ^ 256 ->
  der_integer_ok (h ++ der_int z ++ t) (zlen h + 2) (zlen (mpi_encode z)) = true.
Proof.
  intros Hz. destruct (mpi_encode_pos z Hz) as (b & q & E & Hb & _ & Hl & Hz0). unfold der_integer_ok, der_int. rewrite E.
  pose proof (zlen_nonneg q). byte_bounds.
  replace (zlen h + 2 - 2) with (zlen h + 0) by lia. replace (zlen h + 2 + 1) with (zlen h + 3) by lia.
  rewrite !byte_at_app by lia.
  change (byte_at ((B#2 :: B#(zlen (b :: q)) :: b :: q) ++ t) 0) with (uchar B#2).
  change (byte_at ((B#2 :: B#(zlen (b :: q)) :: b :: q) ++ t) 2) with (uchar b).
  change (uchar B#2 =? 2) with true. cbn [negb]. rewrite zlen_cons in *.
  destruct (Z.eqb_spec (1 + zlen q) 0); [lia|].
  rewrite top_bit, (proj2 (Z.ltb_lt _ _) Hb).
  cbn [negb]. destruct (Z.eqb_spec (uchar b) 0) as [E0|]; [|by rewrite andb_false_r].
  destruct (Hz0 E0) as (c & q' & -> & Hc). byte_bounds.
  change (byte_at ((B#2 :: B#(1 + zlen (c :: q')) :: b :: c :: q') ++ t) 3) with (uchar c).
  rewrite top_bit, (proj2 (Z.ltb_ge _ _) Hc). by rewrite andb_false_r.
Qed.

Lemma zlen_der_int z : 0 < z < 2 ^ 256 -> 3 <= zlen (der_int z) <= 35 /\ zlen (der_int z) = 2 + zlen (mpi_encode z).
Proof.
  intros Hz. destruct (mpi_encode_pos z Hz) as (b & q & E & _ & _ & Hl & _). unfold der_int. rewrite E, !zlen_cons in *.
  pose proof (zlen_nonneg q). lia.
Qed.

(** The signature with a hash type byte is a low-S DER signature. *)
Lemma der_sig_low ht : IsLowDERSignature (der_sig r s ++ [ht]) true = true.
Proof.
  pose proof (zlen_der_int r r_256) as [Lr Er]. pose proof (zlen_der_int s s_256) as [Ls Es].
  set (nr := zlen (mpi_encode r)) in *. set (ns := zlen (mpi_encode s)) in *.
  assert (zlen (der_body r s) = 4 + nr + ns) as Lb by (unfold der_body; rewrite zlen_app; lia).
  set (v := der_sig r s ++ [ht]).
  assert (zlen v = 7 + nr + ns) as Lv.
  { unfold v, der_sig. rewrite zlen_app, !zlen_cons, Lb. change (zlen (@nil byte)) with 0. lia. }
  assert (v = [B#0x30; B#(zlen (der_body r s))] ++ der_int r ++ der_int s ++ [ht]) as V1.
  { unfold v, der_sig, der_body. simpl. by rewrite <- app_assoc. }
  assert (v = ([B#0x30; B#(zlen (der_body r s))] ++ der_int r) ++ der_int s ++ [ht]) as V2 by (by rewrite V1, <- app_assoc).
  assert (byte_at v 0 = 0x30) as B0 by done.
  assert (byte_at v 1 = 4 + nr + ns) as B1.
  { unfold v, der_sig. change (uchar B#(zlen (der_body r s)) = 4 + nr + ns). rewrite uchar_to_byte_small; lia. }
  assert (byte_at v 3 = nr) as B3.
  { rewrite V1. change 3 with (zlen [B#0x30; B#(zlen (der_body r s))] + 1). rewrite byte_at_app by lia.
    change (uchar B#nr = nr). apply uchar_to_byte_small; lia. }
  assert (byte_at v (5 + nr) = ns) as B5.
  { rewrite V2. replace (5 + nr) with (zlen ([B#0x30; B#(zlen (der_body r s))] ++ der_int r) + 1).
    - rewrite byte_at_app by lia. change (uchar B#ns = ns). apply uchar_to_byte_small; lia.
    - rewrite zlen_app, Er. change (zlen [B#0x30; B#(zlen (der_body r s))]) with 2. lia. }
  unfold IsLowDERSignature, IsDERSignature. rewrite B0, B1, B3, B5, Lv.
  destruct (Z.ltb_spec (7 + nr + ns) 9); [lia|]. destruct (Z.ltb_spec 73 (7 + nr + ns)); [lia|].
  change (0x30 =? 0x30) with true. replace (4 + nr + ns =? 7 + nr + ns - 3) with true by (symmetry; apply Z.eqb_eq; lia).
  destruct (Z.leb_spec (7 + nr + ns) (5 + nr)); [lia|].
  replace (nr + ns + 7 =? 7 + nr + ns) with true by (symmetry; apply Z.eqb_eq; lia). cbn [negb].
  assert (der_integer_ok v 4 nr = true) as ->.
  { rewrite V1. exact (der_integer_ok_at [B#0x30; B#(zlen (der_body r s))] r (der_int s ++ [ht]) r_256). }
  assert (der_integer_ok v (6 + nr) ns = true) as ->.
  { rewrite V2. replace (6 + nr) with (zlen ([B#0x30; B#(zlen (der_body r s))] ++ der_int r) + 2);
      [apply der_integer_ok_at, s_256|].
    rewrite zlen_app, Er. change (zlen [B#0x30; B#(zlen (der_body r s))]) with 2. lia. }
  cbn [negb]. rewrite CheckSignatureElement_spec.
  assert (take (Z.to_nat ns) (drop (Z.to_nat (6 + nr)) v) = mpi_encode s) as ->.
  { set (front := ([B#0x30; B#(zlen (der_body r s))] ++ der_int r) ++ [B#2; B#ns]).
    assert (v = front ++ mpi_encode s ++ [ht]) as -> by (rewrite V2; unfold front, der_int, ns; by rewrite <- !app_assoc).
    rewrite drop_app_length'; [apply take_app_length'; unfold ns, zlen; lia|].
    unfold front. rewrite !length_app. unfold zlen in Er. cbn [length]. unfold nr, zlen in *. lia. }
  destruct (mpi_encode_pos s s_256) as (b & q & -> & _ & -> & _).
  apply andb_true_intro. split; [apply Z.ltb_lt|apply Z.leb_le]; lia.
Qed.
End encoding.

(** ** What [CKey::Sign] promises *)
Section sign.
Context `{Digests} `{!DigestsOk} `{EC : ECLib} `{!ECLibOk} `{!SignerOk}.

(** A key as [SetKey] and [MakeNewKey] leave it: 32 bytes, in the range of the group. *)
Definition key_wf (k : CKey) : Prop := fValid k = true /\ 0 < be_val (k_vch k) < order.

Lemma GetPubKey_wf k : key_wf k -> exists pk, PrivKey.GetPubKey k = Some pk /\ pubkey_wf pk /\
  CheckPubKeyEncoding pk = true /\ pk = i2o_ECPublicKey (fCompressed k) (EC_KEY_regenerate (be_val (k_vch k))) /\
  PubKey.Set_ pk = pk.
Proof.
  intros [Hv Hk]. unfold PrivKey.GetPubKey. rewrite Hv.
  set (raw := i2o_ECPublicKey _ _).
  assert (PubKey.Set_ raw = raw /\ CheckPubKeyEncoding raw = true /\ pubkey_wf raw) as (Es & Ec & Hw).
  { destruct (i2o_doc (EC_KEY_regenerate (be_val (k_vch k)))) as [(b & x & E1 & Hb & Hx) (x' & E2 & Hx')].
    unfold raw. destruct (fCompressed k).
    - rewrite E1. assert (zlen x = 32) as Lx by (unfold zlen; lia).
      assert (zlen (b :: x) = 33) as Lb by (rewrite zlen_cons; lia).
      unfold PubKey.Set_, CheckPubKeyEncoding, IsCompressedOrUncompressedPubKey, pubkey_wf, PubKey.size. rewrite Lb.
      by destruct Hb as [-> | ->].
    - rewrite E2. assert (zlen x' = 64) as Lx by (unfold zlen; lia).
      assert (zlen (B#4 :: x') = 65) as Lb by (rewrite zlen_cons; lia).
      unfold PubKey.Set_, CheckPubKeyEncoding, IsCompressedOrUncompressedPubKey, pubkey_wf, PubKey.size. by rewrite Lb. }
  exists raw. rewrite Es. done.
Qed.

(** Signing succeeds with a signature that the key's public key accepts, and whose
    encoding the script verifier accepts with any hash type. *)
Lemma Sign_valid k hash pk : key_wf k -> PrivKey.GetPubKey k = Some pk -> 
  exists sig, PrivKey.Sign k hash = Some sig /\ PubKey.Verify pk hash sig = true /\ 9 <= zlen sig + 1 <= 73 /\
    forall ht, IsLowDERSignature (sig ++ [ht]) true = true.
Proof.
  intros Hw Epk. destruct (GetPubKey_wf k Hw) as (pk' & Epk' & Hpw & _ & Eraw & _).
  rewrite Epk' in Epk. injection Epk as ->. destruct Hw as [Hv Hk].
  unfold PrivKey.Sign. rewrite Hv. cbn [negb].
  destruct (do_sign_total (be_val (k_vch k)) (le_bytes 32 hash) Hk (length_le_bytes 32 hash)) as [[r s] E]. rewrite E.
  destruct (do_sign_doc _ _ _ _ E) as [Hr Hs]. rewrite order_doc in *. fold order in *.
  pose proof (low_s_range s Hs) as Hlow.
  assert (PrivKey.low_s order s = s \/ PrivKey.low_s order s = order - s) as Hc
    by (unfold PrivKey.low_s; case_match; auto).
  destruct (do_sign_valid _ _ _ _ _ (fCompressed k) Hk E Hc) as (key & Eo & Ev).
  eexists. split; [done|]. split.
  { unfold PubKey.Verify. unfold PubKey.IsValid. destruct Hpw as [_ Hp]. rewrite (proj2 (Z.ltb_lt _ _) Hp). cbn [negb].
    by rewrite Eraw, Eo, Ev. }
  assert (PrivKey.low_s order s < order) by (assert (order / 2 < order) by (by vm_compute); lia).
  rewrite i2d_doc by lia. split.
  - pose proof (zlen_der_int r ltac:(pose proof order_256; lia)) as [? _].
    pose proof (zlen_der_int (PrivKey.low_s order s) ltac:(pose proof order_256; lia)) as [? _].
    unfold der_sig, der_body. rewrite !zlen_cons, zlen_app. lia.
  - intros ht. by apply der_sig_low.
Qed.
End sign.
