(* ===== verification/Signing.v ===== *)
(** * Signing: the key store and signing with it (src/src/keystore.h, keystore.cpp, script.cpp)

    [CBasicKeyStore] with its two maps, whose output a script is ([IsMine]),
    the signer ([SignSignature]) and the merging of partial signatures
    ([CombineSignatures]).  The virtual calls of [CKeyStore] are those of the
    basic store; its lock is left out (each call is one step). *)

From S2P Require Import Prelude BigNum ScriptOps Serialize Crypto Keys Core SigHash Interp InterpFacts Standard.
Import CScript SignatureHash_.

(** [CScript::GetID]. *)
Definition script_GetID `{Digests} (s : bytes) : Z := Hash160 s.

(** ** The key store *)
Record CBasicKeyStore := mk_store { mapKeys : gmap Z CKey; mapScripts : gmap Z bytes }.

Module KeyStore.
Section store.
Context `{Digests} `{ECLib}.
Implicit Types ks : CBasicKeyStore.

Definition AddKeyPubKey ks (key : CKey) (pubkey : CPubKey) : bool * CBasicKeyStore :=
  (true, mk_store (<[PubKey.GetID pubkey := key]> (mapKeys ks)) (mapScripts ks)).

(** [None] is the failed assertion of [CKey::GetPubKey]. *)
Definition AddKey ks (key : CKey) : option (bool * CBasicKeyStore) :=
  pubkey ← PrivKey.GetPubKey key; Some (AddKeyPubKey ks key pubkey).

Definition HaveKey ks (address : Z) : bool := bool_decide (is_Some (mapKeys ks !! address)).
Definition GetKeys ks : gset Z := dom (mapKeys ks).
(** [None] when the function returns false. *)
Definition GetKey ks (address : Z) : option CKey := mapKeys ks !! address.

(** [CKeyStore::GetPubKey]: success flag and [vchPubKeyOut]; [None] is the failed assertion. *)
Definition GetPubKey ks (address : Z) (vchPubKeyOut : CPubKey) : option (bool * CPubKey) :=
  match GetKey ks address with
  | None => Some (false, vchPubKeyOut)
  | Some key => pubkey ← PrivKey.GetPubKey key; Some (true, pubkey)
  end.

Definition AddCScript ks (redeemScript : bytes) : bool * CBasicKeyStore :=
  if MAX_SCRIPT_ELEMENT_SIZE <? zlen redeemScript then (false, ks)
  else (true, mk_store (mapKeys ks) (<[script_GetID redeemScript := redeemScript]> (mapScripts ks))).

Definition HaveCScript ks (hash : Z) : bool := bool_decide (is_Some (mapScripts ks !! hash)).
Definition GetCScript ks (hash : Z) : option bytes := mapScripts ks !! hash.
End store.
End KeyStore.
Import KeyStore.

(** [CPubKey(v).GetID()] of a solution. *)
Definition solution_id `{Digests} (v : valtype) : Z := PubKey.GetID (PubKey.Set_ v).

(** ** Whose output *)
Section mine.
Context `{Digests} `{ECLib}.
Variable nMaxDatacarrierBytes : Z.
Implicit Types ks : CBasicKeyStore.

Definition HaveKeys (pubkeys : list valtype) ks : Z :=
  fold_left (fun nResult pubkey => if HaveKey ks (solution_id pubkey) then u32 (nResult + 1) else nResult) pubkeys 0.

(** [IsMine] of a destination: [CKeyStoreIsMineVisitor]. *)
Definition IsMine_dest ks (dest : CTxDestination) : bool :=
  match dest with
  | CNoDestination => false
  | CKeyID keyID => HaveKey ks keyID
  | CScriptID scriptID => HaveCScript ks scriptID
  end.

(** [IsMine] of a script.  The recursion is into a script of the store; [None] when
    it goes deeper than the fuel allows. *)
Fixpoint IsMine_n (fuel : nat) ks (scriptPubKey : bytes) : option bool :=
  let '(ok, whichType, vSolutions) := Solver nMaxDatacarrierBytes scriptPubKey in
  if negb ok then Some false else
  let s0 := default [] (head vSolutions) in
  match whichType with
  | TX_NONSTANDARD | TX_NULL_DATA => Some false
  | TX_PUBKEY => Some (HaveKey ks (solution_id s0))
  | TX_PUBKEYHASH => Some (HaveKey ks (le_val s0))
  | TX_SCRIPTHASH =>
    match GetCScript ks (le_val s0) with
    | None => Some false
    | Some subscript =>
      match fuel with
      | O => None
      | S fuel => IsMine_n fuel ks subscript
      end
    end
  | TX_MULTISIG =>
    let keys := inner_solutions vSolutions in
    Some (HaveKeys keys ks =? zlen keys)
  end.

(** Scripts of the store nest at most as deep as there are scripts, unless one
    of them leads back to itself ([IsMine_terminates]). *)
Definition IsMine ks (scriptPubKey : bytes) : option bool := IsMine_n (S (size (mapScripts ks))) ks scriptPubKey.

(** [CAffectedKeysVisitor]: [Process] on a script, the visitor on a destination. *)
Fixpoint Process (fuel : nat) ks (script : bytes) (vKeys : list Z) : option (list Z) :=
  let '(ok, type, vDest, nRequired) := ExtractDestinations nMaxDatacarrierBytes script in
  if negb ok then Some vKeys else
  fold_left (fun r dest =>
    vKeys ← r;
    match dest with
    | CKeyID keyId => Some (if HaveKey ks keyId then vKeys ++ [keyId] else vKeys)
    | CScriptID scriptId =>
      match GetCScript ks scriptId with
      | None => Some vKeys
      | Some script =>
        match fuel with
        | O => None
        | S fuel => Process fuel ks script vKeys
        end
      end
    | CNoDestination => Some vKeys
    end) vDest (Some vKeys).

Definition ExtractAffectedKeys ks (scriptPubKey : bytes) (vKeys : list Z) : option (list Z) :=
  Process (S (size (mapScripts ks))) ks scriptPubKey vKeys.
End mine.

(** ** Signing *)
Section sign.
Context `{BNLib} `{Digests} `{ECLib} `{SigEnv}.
Variable nMaxDatacarrierBytes : Z.
Variable ks : CBasicKeyStore.

(** Success flag and [scriptSigRet]. *)
Definition Sign1 (address hash nHashType : Z) (scriptSigRet : bytes) : bool * bytes :=
  match GetKey ks address with
  | None => (false, scriptSigRet)
  | Some key =>
    match PrivKey.Sign key hash with
    | None => (false, scriptSigRet)
    | Some vchSig => (true, push_data scriptSigRet (vchSig ++ [B#nHashType]))
    end
  end.

(** The loop of [SignN] over [multisigdata[1 .. size()-1)]. *)
Fixpoint SignN_loop (pubkeys : list valtype) (nSigned nRequired hash nHashType : Z) (scriptSigRet : bytes) : Z * bytes :=
  match pubkeys with
  | [] => (nSigned, scriptSigRet)
  | pubkey :: pubkeys =>
    if nSigned <? nRequired then
      let '(ok, scriptSigRet) := Sign1 (solution_id pubkey) hash nHashType scriptSigRet in
      SignN_loop pubkeys (if ok then nSigned + 1 else nSigned) nRequired hash nHashType scriptSigRet
    else (nSigned, scriptSigRet)
  end.

Definition SignN (multisigdata : list valtype) (hash nHashType : Z) (scriptSigRet : bytes) : bool * bytes :=
  let nRequired := Template.first_byte (head multisigdata) in
  let '(nSigned, scriptSigRet) :=
    SignN_loop (inner_solutions multisigdata) 0 nRequired hash nHashType scriptSigRet in
  (nSigned =? nRequired, scriptSigRet).

(** The [Solver] that signs: success flag, [scriptSigRet] and [whichTypeRet];
    [None] is the failed assertion of [CKey::GetPubKey]. *)
Definition SolverSign (scriptPubKey : bytes) (hash nHashType : Z) : option (bool * bytes * txnouttype) :=
  let scriptSigRet := [] in
  let '(ok, whichTypeRet, vSolutions) := Solver nMaxDatacarrierBytes scriptPubKey in
  if negb ok then Some (false, scriptSigRet, whichTypeRet) else
  let s0 := default [] (head vSolutions) in
  match whichTypeRet with
  | TX_NONSTANDARD | TX_NULL_DATA => Some (false, scriptSigRet, whichTypeRet)
  | TX_PUBKEY =>
    let '(ok, scriptSigRet) := Sign1 (solution_id s0) hash nHashType scriptSigRet in
    Some (ok, scriptSigRet, whichTypeRet)
  | TX_PUBKEYHASH =>
    let keyID := le_val s0 in
    let '(ok, scriptSigRet) := Sign1 keyID hash nHashType scriptSigRet in
    if negb ok then Some (false, scriptSigRet, whichTypeRet)
    else
      '(_, vch) ← KeyStore.GetPubKey ks keyID PubKey.Invalidate;
      Some (true, push_object scriptSigRet vch, whichTypeRet)
  | TX_SCRIPTHASH =>
    match GetCScript ks (le_val s0) with
    | None => Some (false, scriptSigRet, whichTypeRet)
    | Some subscript => Some (true, subscript, whichTypeRet)
    end
  | TX_MULTISIG =>
    let scriptSigRet := push_op scriptSigRet OP_0 in
    let '(ok, scriptSigRet) := SignN vSolutions hash nHashType scriptSigRet in
    Some (ok, scriptSigRet, whichTypeRet)
  end.

(** [txTo.vin[nIn].scriptSig = script]. *)
Definition set_scriptSig (tx : CTransaction) (nIn : nat) (script : bytes) : CTransaction :=
  mk_tx (nVersion tx) (nTime tx) (alter (fun txin => SignatureHash_.with_script txin script) nIn (vin tx))
    (vout tx) (nLockTime tx).

(** [SignSignature]: the result, the transaction afterwards and the signature cache;
    [None] is a failed assertion. *)
Definition SignSignature (fromPubKey : bytes) (txTo : CTransaction) (nIn : nat) (nHashType : Z) (c : CSignatureCache) :
    option (bool * CTransaction * CSignatureCache) :=
  if bool_decide (length (vin txTo) <= nIn)%nat then None else
  let hash := SignatureHash fromPubKey txTo nIn nHashType in
  '(ok, script, whichType) ← SolverSign fromPubKey hash nHashType;
  let txTo := set_scriptSig txTo nIn script in
  if negb ok then Some (false, txTo, c) else
  '(ok, txTo, script) ←
    (if bool_decide (whichType = TX_SCRIPTHASH) then
       let subscript := script in
       let hash2 := SignatureHash subscript txTo nIn nHashType in
       '(ok, script, subType) ← SolverSign subscript hash2 nHashType;
       let fSolved := ok && negb (bool_decide (subType = TX_SCRIPTHASH)) in
       let script := push_data script subscript in
       Some (fSolved, set_scriptSig txTo nIn script, script)
     else Some (true, txTo, script));
  if negb ok then Some (false, txTo, c) else
  let '(ok, c) := VerifyScript script fromPubKey txTo nIn STANDARD_SCRIPT_VERIFY_FLAGS 0 c in
  Some (ok, txTo, c).

(** The overload that takes the transaction spent. *)
Definition SignSignature_from (txFrom txTo : CTransaction) (nIn : nat) (nHashType : Z) (c : CSignatureCache) :
    option (bool * CTransaction * CSignatureCache) :=
  txin ← vin txTo !! nIn;
  txout ← at_ (vout txFrom) (o_n (prevout txin));
  if bool_decide (o_hash (prevout txin) = Tx.GetHash txFrom)
  then SignSignature (scriptPubKey txout) txTo nIn nHashType c
  else None.
End sign.

(** ** Merging partial signatures *)
Module Combine.
Section combine.
Context `{BNLib} `{Digests} `{ECLib} `{SigEnv}.
Variable nMaxDatacarrierBytes : Z.

Definition PushAll (values : list valtype) : bytes := fold_left push_data values [].

(** [set<valtype>::insert] on the sorted list of the set. *)
Fixpoint set_insert (v : valtype) (l : list valtype) : list valtype :=
  match l with
  | [] => [v]
  | x :: l' => if SigCache.vector_lt x v then x :: set_insert v l' else if SigCache.vector_lt v x then v :: l else l
  end.

Definition add_sigs (sigs : list valtype) (allsigs : list valtype) : list valtype :=
  fold_left (fun s v => if bool_decide (v = []) then s else set_insert v s) sigs allsigs.

(** One signature against the keys that have none yet. *)
Fixpoint match_sig (sig : valtype) (pubkeys : list valtype) (code : bytes) (txTo : CTransaction) (nIn : nat)
    (sigs : gmap bytes bytes) (c : CSignatureCache) : gmap bytes bytes * CSignatureCache :=
  match pubkeys with
  | [] => (sigs, c)
  | pubkey :: pubkeys =>
    match sigs !! pubkey with
    | Some _ => match_sig sig pubkeys code txTo nIn sigs c
    | None =>
      let '(ok, c) := CheckSig sig pubkey code txTo nIn 0 0 c in
      if (ok : bool) then (<[pubkey := sig]> sigs, c) else match_sig sig pubkeys code txTo nIn sigs c
    end
  end.

Fixpoint match_sigs (allsigs pubkeys : list valtype) (code : bytes) (txTo : CTransaction) (nIn : nat)
    (sigs : gmap bytes bytes) (c : CSignatureCache) : gmap bytes bytes * CSignatureCache :=
  match allsigs with
  | [] => (sigs, c)
  | sig :: allsigs =>
    let '(sigs, c) := match_sig sig pubkeys code txTo nIn sigs c in
    match_sigs allsigs pubkeys code txTo nIn sigs c
  end.

(** The merged script: the signatures found, in the order of the keys. *)
Fixpoint push_sigs (pubkeys : list valtype) (sigs : gmap bytes bytes) (nSigsHave nSigsRequired : Z) (result : bytes) :
    Z * bytes :=
  match pubkeys with
  | [] => (nSigsHave, result)
  | pubkey :: pubkeys =>
    if nSigsHave <? nSigsRequired then
      match sigs !! pubkey with
      | Some sig => push_sigs pubkeys sigs (nSigsHave + 1) nSigsRequired (push_data result sig)
      | None => push_sigs pubkeys sigs nSigsHave nSigsRequired result
      end
    else (nSigsHave, result)
  end.

(** [None] is the failed assertion on the number of solutions. *)
Definition CombineMultisig (code : bytes) (txTo : CTransaction) (nIn : nat) (vSolutions sigs1 sigs2 : list valtype)
    (c : CSignatureCache) : option (bytes * CSignatureCache) :=
  let allsigs := add_sigs sigs2 (add_sigs sigs1 []) in
  if zlen vSolutions <=? 1 then None else
  let nSigsRequired := Template.first_byte (head vSolutions) in
  let pubkeys := inner_solutions vSolutions in
  let '(sigs, c) := match_sigs allsigs pubkeys code txTo nIn ∅ c in
  let '(nSigsHave, result) := push_sigs pubkeys sigs 0 nSigsRequired (push_op [] OP_0) in
  let result := result ++ replicate (Z.to_nat (nSigsRequired - nSigsHave)) B#OP_0 in
  Some (result, c).

(** [CombineSignatures] on stacks.  A recursion drops an entry of [sigs1], so that
    its length bounds the depth; [O] is never reached from [S (length sigs1)]. *)
Fixpoint CombineStacks (fuel : nat) (scriptPubKey : bytes) (txTo : CTransaction) (nIn : nat)
    (txType : txnouttype) (vSolutions sigs1 sigs2 : list valtype) (c : CSignatureCache) : option (bytes * CSignatureCache) :=
  match txType with
  | TX_NONSTANDARD | TX_NULL_DATA =>
    Some (if zlen sigs2 <=? zlen sigs1 then PushAll sigs1 else PushAll sigs2, c)
  | TX_PUBKEY | TX_PUBKEYHASH =>
    Some (match sigs1 with [] | [] :: _ => PushAll sigs2 | _ => PushAll sigs1 end, c)
  | TX_SCRIPTHASH =>
    match last sigs1 with
    | None | Some [] => Some (PushAll sigs2, c)
    | Some spk =>
      match last sigs2 with
      | None | Some [] => Some (PushAll sigs1, c)
      | Some _ =>
        match fuel with
        | O => None
        | S fuel =>
          let '(_, txType2, vSolutions2) := Solver nMaxDatacarrierBytes spk in
          '(result, c) ← CombineStacks fuel spk txTo nIn txType2 vSolutions2 (pop_back sigs1) (pop_back sigs2) c;
          Some (push_data result spk, c)
        end
      end
    end
  | TX_MULTISIG => CombineMultisig scriptPubKey txTo nIn vSolutions sigs1 sigs2 c
  end.

(** [CombineSignatures] on scripts; the scripts are run against an empty transaction
    made at [adjusted_time], and only their stacks are used. *)
Definition CombineSignatures (adjusted_time : Z) (scriptPubKey : bytes) (txTo : CTransaction) (nIn : nat)
    (scriptSig1 scriptSig2 : bytes) (c : CSignatureCache) : option (bytes * CSignatureCache) :=
  let '(_, txType, vSolutions) := Solver nMaxDatacarrierBytes scriptPubKey in
  let empty := Tx.SetNull adjusted_time in
  let '(_, stack1, c) := EvalScript [] scriptSig1 empty 0 SCRIPT_VERIFY_NONE 0 c in
  let '(_, stack2, c) := EvalScript [] scriptSig2 empty 0 SCRIPT_VERIFY_NONE 0 c in
  CombineStacks (S (length stack1)) scriptPubKey txTo nIn txType vSolutions stack1 stack2 c.
End combine.
End Combine.
