(* ===== verification/SigningFacts.v ===== *)
(** * SigningFacts: what the signer can sign (src/src/keystore.cpp, script.cpp)

    The key store's invariant, the evaluation of the standard scripts in any
    encoding of their pushes, and the two theorems on [SignSignature]: when it
    succeeds, and that it signs what [IsMine] counts as owned. *)

From S2P Require Import Prelude BigNum ScriptOps Serialize Crypto Keys Core SigHash Interp InterpFacts Standard Spending Der Signing.
Import CScript SignatureHash_ SigHashFacts Encoding Stack Template Classify DestinationFacts VerifyFacts KeyStore.

Lemma Forall2_impl_in {A B} (P Q : A -> B -> Prop) l k : Forall2 P l k -> (forall x y, y ∈ k -> P x y -> Q x y) -> Forall2 Q l k.
Proof.
  induction 1 as [|x y l k Hxy _ IH]; intros Hi; constructor; [by apply Hi; [left|]|].
  apply IH. intros x' y' Hin. by apply Hi; right.
Qed.

Abbreviation FL := STANDARD_SCRIPT_VERIFY_FLAGS.

(** ** Scripts by their instructions *)
Section running.
Context `{BNLib} `{!BNLibOk} `{Digests} `{ECLib} `{SigEnv}.
Variable tx : CTransaction.
Variable n : nat.
Variable fl : Z.

Lemma parse_nil_inv s : parse s = Some [] -> s = [].
Proof.
  intros Ep. destruct (decide (s = [])) as [|Hne]; [done|].
  destruct (GetOp s) as [[[op v] pc']|] eqn:E.
  - rewrite (parse_step _ _ _ _ E) in Ep. by destruct (parse pc').
  - by rewrite (parse_error _ Hne E) in Ep.
Qed.

Lemma parse_cons_inv s op v l : parse s = Some ((op, v) :: l) -> exists pc', GetOp s = Some (op, v, pc') /\ parse pc' = Some l.
Proof.
  intros Ep. destruct (decide (s = [])) as [->|Hne]; [done|].
  destruct (GetOp s) as [[[op' v'] pc']|] eqn:E.
  - rewrite (parse_step _ _ _ _ E) in Ep. destruct (parse pc') as [l'|] eqn:El; [|done].
    injection Ep as -> -> ->. by exists pc'.
  - by rewrite (parse_error _ Hne E) in Ep.
Qed.

(** An operator is its byte. *)
Lemma parse_operator_inv s op v l : parse s = Some ((op, v) :: l) -> OP_PUSHDATA4 < op ->
  exists pc', s = B#op :: pc' /\ parse pc' = Some l.
Proof.
  intros (pc' & E & El)%parse_cons_inv Ho.
  destruct (GetOp_shape _ _ _ _ E) as (h & Hh & Es & _ & Hd & Hr & _).
  destruct h as [|b h]; [done|]. simpl in Hd. injection Hd as ->.
  assert (GetOp s = Some (op, [], h ++ v ++ pc')) as E'.
  { rewrite Es. simpl. by rewrite GetOp_plain by lia. }
  rewrite E' in E. injection E as _ E. exists pc'. split; [|done]. rewrite Es. simpl. by rewrite E.
Qed.

(** A push, however it is encoded. *)
Lemma run_push s op v l st : parse s = Some ((op, v) :: l) -> v <> [] -> zlen v <= MAX_SCRIPT_ELEMENT_SIZE ->
  vfExec st = [] -> zlen (stack st) + zlen (altstack st) < 1000 ->
  exists pc', parse pc' = Some l /\ eval_loop tx n fl 0 (length s) s st =
    eval_loop tx n fl 0 (length pc') pc' (set_stack (stack st ++ [v]) st).
Proof.
  intros (pc' & E & El)%parse_cons_inv Hne Hv Hf Hs. exists pc'. split; [done|].
  rewrite (eval_step _ _ _ _ _ _ _ _ _ E).
  assert (0 <= op <= OP_PUSHDATA4) as Ho.
  { pose proof (GetOp_opcode_range _ _ _ _ E). split; [lia|].
    destruct (Z.le_gt_cases op OP_PUSHDATA4); [done|]. by destruct Hne; apply (GetOp_data_empty _ _ _ _ E). }
  rewrite (bindS _ _ _ _ _ (exec_instr_push tx n fl 0 pc' op v st ltac:(by rewrite Hf) Ho Hv ltac:(lia))). done.
Qed.

Lemma parse_no_data s l op v : parse s = Some l -> (op, v) ∈ l -> OP_PUSHDATA4 < op -> v = [].
Proof. intros Hs%parse_sane Hin Ho. rewrite Forall_forall in Hs. exact (Hs _ Hin Ho). Qed.

Lemma key_sized_bounds v : key_sized v = true -> v <> [] /\ 33 <= zlen v <= 120.
Proof. unfold key_sized. intros [? ?]%andb_true_iff. split; [by destruct v|lia]. Qed.

(** The keys in the middle of a multisig script. *)
Lemma run_keys l keys rest s st : parse s = Some l -> span_keys l = (keys, rest) -> vfExec st = [] ->
  zlen (stack st) + zlen keys + zlen (altstack st) <= 1000 ->
  exists pc', parse pc' = Some rest /\ eval_loop tx n fl 0 (length s) s st =
    eval_loop tx n fl 0 (length pc') pc' (set_stack (stack st ++ keys) st).
Proof.
  revert keys rest s st. induction l as [|[op v] l IH]; intros keys rest s st Hp Hk Hf Hs; cbn [span_keys] in Hk.
  { injection Hk as <- <-. exists s. rewrite app_nil_r. by destruct st. }
  destruct (key_sized v) eqn:Ev.
  2:{ injection Hk as <- <-. exists s. rewrite app_nil_r. by destruct st. }
  destruct (span_keys l) as [ks r] eqn:El. injection Hk as <- <-. rewrite zlen_cons in Hs. pose proof (zlen_nonneg ks).
  destruct (key_sized_bounds v Ev) as [Hne Hb].
  destruct (run_push s op v l st Hp Hne) as (pc1 & Hp1 & ->); [unfold MAX_SCRIPT_ELEMENT_SIZE; lia|done|lia|].
  destruct (IH ks r pc1 (set_stack (stack st ++ [v]) st) Hp1 eq_refl Hf) as (pc2 & Hp2 & ->); [zsize|].
  exists pc2. split; [done|]. simpl. by rewrite <- app_assoc.
Qed.

Lemma zlen_parse l s : parse s = Some l -> zlen s <= foldr (fun i k => 5 + zlen i.2 + k) 0 l.
Proof.
  revert s. induction l as [|[op v] l IH]; intros s Hp.
  { by rewrite (parse_nil_inv s Hp). }
  destruct (parse_cons_inv _ _ _ _ Hp) as (pc' & E & El). apply IH in El.
  destruct (GetOp_shape _ _ _ _ E) as (h & _ & -> & Hl & _). rewrite !zlen_app. simpl. unfold zlen at 1. lia.
Qed.

Lemma zlen_span l keys rest : span_keys l = (keys, rest) ->
  foldr (fun i k => 5 + zlen i.2 + k) 0 l <= 125 * zlen keys + foldr (fun i k => 5 + zlen i.2 + k) 0 rest.
Proof.
  revert keys rest. induction l as [|[op v] l IH]; intros keys rest; cbn [span_keys].
  { intros [= <- <-]. done. }
  destruct (key_sized v) eqn:Ev; [|by intros [= <- <-]].
  destruct (span_keys l) as [ks r]. intros [= <- <-]. specialize (IH ks r eq_refl).
  apply key_sized_bounds in Ev as [_ Hb]. rewrite zlen_cons. cbn [foldr snd] in *. lia.
Qed.

(** *** Evaluation when the signatures are good *)
(** A signature the script [code] accepts for a key, in the encodings the flags ask for. *)
Definition good_sig (code item pk : bytes) : Prop :=
  sig_ok tx n fl 0 item pk code = true /\ drop_signature code item = code /\ 0 < zlen item <= 73.

Lemma good_encodings code item pk : good_sig code item pk ->
  CheckSignatureEncoding item fl = true /\ CheckPubKeyEncoding pk = true.
Proof. intros [Hs _]. unfold sig_ok, encodings_ok in Hs. by apply andb_true_iff in Hs as [[? ?]%andb_true_iff _]. Qed.

Definition eval_good (st : list valtype) (s : bytes) (c : CSignatureCache) : Prop :=
  exists l c', cache_ok c' /\ EvalScript st s tx n fl 0 c = (true, l ++ [vchTrue], c').

(** A script that ends in one check of a signature: its result is that of the check. *)
Definition eval_checks (st : list valtype) (s item pk : bytes) (c : CSignatureCache) : Prop :=
  let ok := sig_ok tx n fl 0 item pk (drop_signature s item) in
  exists l c', cache_ok c' /\
    (ok = false /\ (EvalScript st s tx n fl 0 c).1.1 = false \/
     EvalScript st s tx n fl 0 c = (true, l ++ [if ok then vchTrue else vchFalse], c')).

Lemma checks_good st s item pk c : good_sig s item pk -> eval_checks st s item pk c -> eval_good st s c.
Proof. intros (Hs & Hd & _) (l & c' & Hc & [[Hf _]|E]); rewrite Hd, Hs in *; [done|]. by exists l, c'. Qed.

Lemma checks_end (ok : bool) (r : option unit * EvalState) (s1 : EvalState) :
  ok = false /\ r.1 = None \/ r = (Some tt, s1) -> vfExec s1 = [] ->
  ok = false /\ (match r with (Some tt, s) => (bool_decide (vfExec s = []), stack s, cache s) | (None, s) => (false, stack s, cache s) end).1.1 = false \/
  match r with (Some tt, s) => (bool_decide (vfExec s = []), stack s, cache s) | (None, s) => (false, stack s, cache s) end = (true, stack s1, cache s1).
Proof.
  intros [[-> Hn]| ->] Hf; [left; split; [done|]; destruct r as [[[]|] s2]; [done|done]|right]. by rewrite bool_decide_eq_true_2.
Qed.

(** The last instruction: one signature against one key. *)
Lemma run_last_checksig s v st l item pk c : parse s = Some [(OP_CHECKSIG, v)] ->
  stack st = l ++ [item; pk] -> vfExec st = [] -> altstack st = [] -> zlen l <= 900 -> nOpCount st <= 100 ->
  cache st = c -> cache_ok c ->
  let ok := sig_ok tx n fl 0 item pk (drop_signature (pbegincodehash st) item) in
  exists c', cache_ok c' /\ (ok = false /\ (eval_loop tx n fl 0 (length s) s st).1 = None \/
    eval_loop tx n fl 0 (length s) s st =
      (Some tt, set_cache c' (set_stack (l ++ [if ok then vchTrue else vchFalse]) (set_nOpCount (nOpCount st + 1) st)))).
Proof.
  intros (pc' & -> & Hp)%parse_operator_inv Es Hf Ha Hl Hn <- Hc; [|done]. apply parse_nil_inv in Hp as ->.
  set (st1 := set_nOpCount (nOpCount st + 1) st). cbv zeta.
  destruct (run_checksig tx n fl 0 st1 l item pk Es Hc) as (c' & Hc' & Hr). cbv zeta in Hr.
  change (pbegincodehash st1) with (pbegincodehash st) in Hr. exists c'. split; [done|]. destruct Hr as [(Hn1 & He & Hs1)|Hr].
  - left. split; [unfold sig_ok; by rewrite He|].
    destruct (exec_checksig tx n fl 0 OP_CHECKSIG st1) as [r1 s1] eqn:Ee. simpl in Hn1, Hs1. subst r1 s1.
    erewrite (run_op tx n fl 0 OP_CHECKSIG _ st None); [done|done|done|done|lia|exact Ee|]. simpl. rewrite Ha, Es. zsize.
  - right. erewrite (run_op tx n fl 0 OP_CHECKSIG _ st (Some tt)); [|done|done|done|lia|exact Hr|]; [done|].
    simpl. rewrite Ha. zsize.
Qed.

Lemma eval_p2pk s o1 o2 v2 pk item c st : parse s = Some [(o1, pk); (o2, v2)] -> o2 = OP_CHECKSIG -> key_sized pk = true ->
  cache_ok c -> zlen st <= 800 -> eval_checks (st ++ [item]) s item pk c.
Proof.
  intros Hp -> Hk Hc Hst. destruct (key_sized_bounds pk Hk) as [Hne Hb]. unfold eval_checks, EvalScript.
  pose proof (zlen_parse _ _ Hp) as Hl. cbn [foldr snd] in Hl.
  assert (v2 = []) as -> by (apply (parse_no_data _ _ OP_CHECKSIG v2 Hp); [set_solver|done]).
  change (zlen []) with 0 in Hl. rewrite (proj2 (Z.ltb_ge _ _)) by lia.
  set (s0 := mk_eval (st ++ [item]) [] [] 0 s c).
  destruct (run_push s o1 pk _ s0 Hp Hne) as (pc' & Hp' & ->); [unfold MAX_SCRIPT_ELEMENT_SIZE; lia|done|zsize|].
  destruct (run_last_checksig pc' [] (set_stack (stack s0 ++ [pk]) s0) st item pk c Hp') as (c' & Hc' & Hr);
    try done; [simpl; by rewrite <- app_assoc|lia|].
  exists st, c'. split; [done|]. exact (checks_end _ _ _ Hr eq_refl).
Qed.

Lemma eval_p2pkh_any s l h pk item c st : parse s = Some l -> as_pubkeyhash l = Some [h] -> Hash160Bytes pk = h ->
  cache_ok c -> zlen st <= 800 -> eval_checks (st ++ [item; pk]) s item pk c.
Proof.
  intros Hp Ha Hh Hc Hst. unfold as_pubkeyhash in Ha.
  destruct l as [|[o1 v1] [|[o2 v2] [|[o3 h'] [|[o4 v4] [|[o5 v5] [|]]]]]]; try done.
  destruct (_ && _) eqn:E in Ha; [|done]. injection Ha as ->.
  repeat (apply andb_true_iff in E as [E ?]). repeat match goal with H : (_ =? _) = true |- _ => apply Z.eqb_eq in H end. subst o1 o2 o4 o5.
  pose proof (zlen_parse _ _ Hp) as Hl. pose proof (fun op v => parse_no_data s _ op v Hp) as Hd.
  assert (v1 = [] /\ v2 = [] /\ v4 = [] /\ v5 = []) as (-> & -> & -> & ->)
    by (split_and!; [apply (Hd OP_DUP)|apply (Hd OP_HASH160)|apply (Hd OP_EQUALVERIFY)|apply (Hd OP_CHECKSIG)]; set_solver || done).
  cbn [foldr snd] in Hl. change (zlen []) with 0 in Hl. unfold eval_checks, EvalScript. rewrite (proj2 (Z.ltb_ge _ _)) by lia.
  set (s0 := mk_eval (st ++ [item; pk]) [] [] 0 s c).
  destruct (parse_operator_inv _ _ _ _ Hp) as (p1 & E1 & Hp1); [done|].
  destruct (parse_operator_inv _ _ _ _ Hp1) as (p2 & E2 & Hp2); [done|]. subst p1.
  assert (stack s0 = (st ++ [item]) ++ [pk]) as Es0 by (simpl; by rewrite <- app_assoc).
  pose proof (run_op tx n fl 0 OP_DUP (B#OP_HASH160 :: p2) s0 (Some tt) (set_stack ((st ++ [item]) ++ [pk; pk]) (set_nOpCount 1 s0))) as R1.
  rewrite <- E1 in R1. rewrite R1; [|done|done|done|done|by apply run_dup|zsize]. clear R1.
  set (s1 := set_stack _ _).
  assert (stack s1 = (st ++ [item; pk]) ++ [pk]) as Es1 by (simpl; by rewrite <- !app_assoc).
  rewrite (run_op tx n fl 0 OP_HASH160 _ s1 (Some tt) (set_stack ((st ++ [item; pk]) ++ [Hash160Bytes pk]) (set_nOpCount 2 s1)));
    [|done|done|done|done|by apply run_hash160|zsize].
  set (s2 := set_stack _ _).
  destruct (run_push p2 o3 h _ s2 Hp2) as (p3 & Hp3 & ->); [by destruct h|unfold MAX_SCRIPT_ELEMENT_SIZE; lia|done|zsize|].
  set (s3 := set_stack _ _). destruct (parse_operator_inv _ _ _ _ Hp3) as (p4 & -> & Hp4); [done|].
  assert (stack s3 = (st ++ [item; pk]) ++ [Hash160Bytes pk; h]) as Es3 by (simpl; by rewrite <- !app_assoc).
  pose proof (run_equalverify (set_nOpCount 3 s3) _ _ _ Es3) as Heq. rewrite Hh, bool_decide_eq_true_2 in Heq by done.
  rewrite (run_op tx n fl 0 OP_EQUALVERIFY _ s3 (Some tt) (set_stack (st ++ [item; pk]) (set_nOpCount 3 s3)));
    [|done|done|done|done|exact Heq|zsize].
  set (s4 := set_stack _ _).
  destruct (run_last_checksig p4 [] s4 st item pk c Hp4) as (c' & Hc' & Hr); try done; [lia|].
  exists st, c'. split; [done|]. exact (checks_end _ _ _ Hr eq_refl).
Qed.

Lemma DecodeOP_N_inv o k : DecodeOP_N o = Some k -> 1 <= k -> o = OP_1 + k - 1 /\ OP_1 <= o <= OP_16.
Proof.
  unfold DecodeOP_N, OP_0, OP_1, OP_16. destruct (Z.eqb_spec o 0) as [->|]; [intros [= <-]; lia|].
  destruct (_ && _) eqn:E; [|done]. apply andb_true_iff in E as [? ?]. intros [= <-]. lia.
Qed.

Lemma as_multisig_inv l m keys k : as_multisig l = Some (m, keys, k) -> 1 <= m -> 1 <= k ->
  exists om vm l' on vn vc, l = (om, vm) :: l' /\ span_keys l' = (keys, [(on, vn); (OP_CHECKMULTISIG, vc)]) /\
    om = OP_1 + m - 1 /\ OP_1 <= om <= OP_16 /\ on = OP_1 + k - 1 /\ OP_1 <= on <= OP_16.
Proof.
  unfold as_multisig. intros E Hm Hk. destruct l as [|[om vm] l]; [done|]. destruct (span_keys l) as [ks r] eqn:Es.
  destruct (DecodeOP_N om) as [m'|] eqn:Em; [|done]. destruct r as [|[on vn] [|[o vc] [|]]]; try done.
  destruct (DecodeOP_N on) as [k'|] eqn:Ek; [|done]. destruct (Z.eqb_spec o OP_CHECKMULTISIG) as [->|]; [|done].
  injection E as -> -> ->. apply DecodeOP_N_inv in Em, Ek; [|done..]. naive_solver.
Qed.

Lemma drop_all code sigs : Forall (fun v => drop_signature code v = code) sigs ->
  fold_left drop_signature sigs code = code.
Proof. induction 1 as [|v sigs Hv _ IH]; [done|]. simpl. by rewrite Hv. Qed.

Lemma eval_multisig_any s l m keys k sigs c st : parse s = Some l -> as_multisig l = Some (m, keys, k) ->
  1 <= m <= k -> zlen keys = k -> k <= 16 -> zlen sigs = m ->
  (exists pks, pks `sublist_of` keys /\ Forall2 (good_sig s) sigs pks) ->
  Forall (fun pk => CheckPubKeyEncoding pk = true) keys -> cache_ok c -> zlen st <= 800 ->
  eval_good (st ++ [] :: sigs) s c.
Proof.
  intros Hp Ha Hm Hlk Hk16 Hls (pks & Hsub & Hg) Hcan Hc Hst. pose proof (zlen_parse _ _ Hp) as Hsz.
  pose proof (fun op v => parse_no_data s _ op v Hp) as Hd.
  destruct (as_multisig_inv _ _ _ _ Ha) as (om & vm & l' & on & vn & vc & -> & Hspan & Em & Hom & En & Hon); [lia..|].
  assert (vm = []) as -> by (apply (Hd om); [left|unfold OP_1, OP_PUSHDATA4 in *; lia]).
  unfold OP_1, OP_16 in Hom, Hon.
  destruct (parse_operator_inv _ _ _ _ Hp) as (p1 & E1 & Hp1); [unfold OP_PUSHDATA4; lia|].
  set (s0 := mk_eval (st ++ [] :: sigs) [] [] 0 s c).
  pose proof (run_small_int tx n fl 0 om p1 s0 ltac:(unfold OP_1, OP_16; lia) eq_refl) as R1.
  rewrite <- E1 in R1.
  destruct (run_keys l' keys _ p1 (set_stack (stack s0 ++ [CBigNum.getvch (om - (OP_1 - 1))]) s0) Hp1 Hspan eq_refl)
    as (p2 & Hp2 & R2); [zsize|].
  set (s2 := set_stack _ (set_stack _ _)) in R2. pose proof (fun op v => parse_no_data p2 _ op v Hp2) as Hd2.
  assert (vn = [] /\ vc = []) as [-> ->] by (split;
    [apply (Hd2 on); [left|unfold OP_PUSHDATA4; lia]|apply (Hd2 OP_CHECKMULTISIG); [right; left|done]]).
  destruct (parse_operator_inv _ _ _ _ Hp2) as (p3 & -> & Hp3); [unfold OP_PUSHDATA4; lia|].
  destruct (parse_operator_inv _ _ _ _ Hp3) as (p4 & -> & ->%parse_nil_inv); [done|].
  pose proof (run_small_int tx n fl 0 on [B#OP_CHECKMULTISIG] s2 ltac:(unfold OP_1, OP_16; lia) eq_refl) as R3.
  set (s3 := set_stack _ s2) in R3.
  assert (stack s3 = st ++ multisig_operands [] sigs (CBigNum.getvch (zlen sigs)) keys (CBigNum.getvch (zlen keys))) as E3.
  { unfold s3, s2, multisig_operands. cbn [set_stack stack s0]. rewrite Hls, Hlk, Em, En.
    replace (OP_1 + m - 1 - (OP_1 - 1)) with m by lia. replace (OP_1 + k - 1 - (OP_1 - 1)) with k by lia.
    by rewrite <- !app_assoc. }
  assert (Forall (fun v => drop_signature s v = s) sigs) as Hdrop.
  { eapply Forall2_Forall_l; [exact Hg|]. apply Forall_true. by intros y x (_ & Hx & _). }
  assert (strict_ok fl (reverse sigs) (reverse keys)) as Hst2.
  { intros sig pk Hsig Hpk. apply elem_of_reverse in Hsig, Hpk. rewrite reverse_involutive in Hsig, Hpk.
    destruct (list_elem_of_lookup_1 _ _ Hsig) as (i & Hi). destruct (Forall2_lookup_l _ _ _ _ _ Hg Hi) as (y & _ & Hy).
    destruct (good_encodings _ _ _ Hy) as [He _]. rewrite Forall_forall in Hcan. unfold encodings_ok.
    rewrite He, (Hcan _ Hpk). apply andb_false_r. }
  destruct (run_checkmultisig tx n fl 0 (set_nOpCount 1 s3) st [] sigs (CBigNum.getvch (zlen sigs)) keys
    (CBigNum.getvch (zlen keys)) E3) as (c' & Hc' & Er); try done.
  1-2: apply CastToBigNum_small; lia.
  1: lia. 1: simpl; lia. 1: apply andb_false_r.
  assert (multisig_ok tx n fl 0 s sigs keys = true) as Hok.
  { unfold multisig_ok. rewrite drop_all by (by apply Forall_reverse). apply greedy_matches, matches_rev.
    exists pks. split; [exact Hsub|]. eapply Forall2_impl; [exact Hg|]. by intros x y (Hx & _). }
  change (pbegincodehash (set_nOpCount 1 s3)) with s in Er. rewrite Hok in Er.
  unfold eval_good, EvalScript. cbn [foldr snd] in Hsz. pose proof (zlen_span _ _ _ Hspan) as Hsp.
  cbn [foldr snd] in Hsp. change (zlen []) with 0 in Hsz, Hsp. rewrite (proj2 (Z.ltb_ge _ _)) by lia. fold s0.
  rewrite R1, R2, R3 by (unfold s2, s0; zsize).
  erewrite (run_op tx n fl 0 OP_CHECKMULTISIG _ s3 (Some tt)); [|done|done|done|done|exact Er|zsize].
  by exists st, c'.
Qed.
End running.

(** ** The key store's invariant *)
Section store.
Context `{Digests} `{!DigestsOk} `{ECLib} `{!ECLibOk} `{!SignerOk}.

(** Every key is valid and filed under the hash of its public key; every script is
    small enough to be pushed and filed under its hash. *)
Record store_ok (ks : CBasicKeyStore) : Prop := {
  keys_filed id k : mapKeys ks !! id = Some k ->
    key_wf k /\ exists pk, PrivKey.GetPubKey k = Some pk /\ PubKey.GetID pk = id;
  scripts_filed id s : mapScripts ks !! id = Some s -> script_GetID s = id /\ zlen s <= MAX_SCRIPT_ELEMENT_SIZE
}.

Lemma empty_store_ok : store_ok (mk_store ∅ ∅).
Proof. split; intros id x; simpl; by rewrite lookup_empty. Qed.

Lemma AddKey_ok ks key : store_ok ks -> key_wf key ->
  exists ks', AddKey ks key = Some (true, ks') /\ store_ok ks'.
Proof.
  intros [Hk Hs] Hw. destruct (GetPubKey_wf key Hw) as (pk & Ep & _). unfold AddKey. rewrite Ep. simpl.
  eexists. split; [done|]. split; simpl; [|exact Hs]. intros id k.
  destruct (decide (id = PubKey.GetID pk)) as [->|Hne].
  - rewrite lookup_insert_eq. intros [= <-]. eauto.
  - rewrite lookup_insert_ne by done. apply Hk.
Qed.

Lemma AddCScript_ok ks s : store_ok ks -> store_ok (AddCScript ks s).2 /\
  (AddCScript ks s).1 = (zlen s <=? MAX_SCRIPT_ELEMENT_SIZE).
Proof.
  intros [Hk Hs]. unfold AddCScript. rewrite Z.leb_antisym. destruct (Z.ltb_spec MAX_SCRIPT_ELEMENT_SIZE (zlen s)); [done|].
  split; [|done]. split; simpl; [exact Hk|]. intros id s'.
  destruct (decide (id = script_GetID s)) as [->|Hne].
  - rewrite lookup_insert_eq. intros [= <-]. done.
  - rewrite lookup_insert_ne by done. apply Hs.
Qed.
End store.

(** ** Signing with the store *)
Section signing.
Context `{BNLib} `{!BNLibOk} `{Digests} `{!DigestsOk} `{ECLib} `{!ECLibOk} `{!SignerOk} `{SigEnv}.
Variable maxdata : Z.
Variable ks : CBasicKeyStore.
Hypothesis Hks : store_ok ks.
Variables hash ht : Z.

(** What [Sign1] pushes when the store has the key. *)
Definition signature_of (address : Z) (item : bytes) : Prop :=
  exists k sig, mapKeys ks !! address = Some k /\ PrivKey.Sign k hash = Some sig /\ item = sig ++ [B#ht].

Lemma Sign1_have address scr : HaveKey ks address = true ->
  exists item, signature_of address item /\ Sign1 ks address hash ht scr = (true, push_data scr item).
Proof.
  unfold HaveKey, Sign1, GetKey. intros [k Ek]%bool_decide_eq_true. rewrite Ek.
  destruct (keys_filed ks Hks _ _ Ek) as (Hw & pk & Ep & _).
  destruct (Sign_valid k hash pk Hw Ep) as (sig & Es & _). rewrite Es.
  exists (sig ++ [B#ht]). split; [|done]. by exists k, sig.
Qed.

Lemma Sign1_miss address scr : HaveKey ks address = false -> Sign1 ks address hash ht scr = (false, scr).
Proof.
  unfold HaveKey, Sign1, GetKey. intros Hn%bool_decide_eq_false. by destruct (mapKeys ks !! address); [destruct Hn|].
Qed.

(** How many of the keys the store has. *)
Definition held (pubkeys : list valtype) : Z :=
  zlen (filter (fun pk => HaveKey ks (solution_id pk) = true) pubkeys).

Lemma held_cons pk l : held (pk :: l) = (if HaveKey ks (solution_id pk) then 1 else 0) + held l.
Proof.
  unfold held. destruct (HaveKey ks (solution_id pk)) eqn:E.
  - rewrite filter_cons_True by done. by rewrite zlen_cons.
  - rewrite filter_cons_False by congruence. lia.
Qed.
Lemma held_nonneg l : 0 <= held l.
Proof. apply zlen_nonneg. Qed.
Lemma held_le l : held l <= zlen l.
Proof. unfold held, zlen. pose proof (length_filter (fun pk => HaveKey ks (solution_id pk) = true) l). lia. Qed.

Lemma pushes_cons v vs : pushes (v :: vs) = (push_header (zlen v) ++ v) ++ pushes vs.
Proof. done. Qed.

(** [SignN] signs with the keys it has, in their order, until it has enough. *)
Lemma SignN_loop_spec pubkeys nS nR scr : nS <= nR ->
  exists items pks, SignN_loop ks pubkeys nS nR hash ht scr = (nS + zlen items, scr ++ pushes items) /\
    pks `sublist_of` pubkeys /\ Forall2 (fun item pk => signature_of (solution_id pk) item) items pks /\
    zlen items = Z.min (nR - nS) (held pubkeys).
Proof.
  revert nS scr. induction pubkeys as [|pk pubkeys IH]; intros nS scr Hle.
  { exists [], []. simpl. rewrite app_nil_r, Z.add_0_r. change (held []) with 0. change (zlen (@nil bytes)) with 0. split_and!; done || lia. }
  cbn [SignN_loop]. pose proof (held_nonneg (pk :: pubkeys)). destruct (Z.ltb_spec nS nR) as [Hlt|Hge].
  2:{ exists [], []. simpl. rewrite app_nil_r, Z.add_0_r. change (zlen (@nil bytes)) with 0.
      split_and!; [done|apply sublist_nil_l|done|lia]. }
  rewrite held_cons. destruct (HaveKey ks (solution_id pk)) eqn:Eh.
  - destruct (Sign1_have _ scr Eh) as (item & Hi & ->). 
    destruct (IH (nS + 1) (push_data scr item)) as (items & pks & -> & Hsub & Hf & Hn); [lia|].
    exists (item :: items), (pk :: pks). rewrite zlen_cons, Hn. unfold push_data.
    rewrite pushes_cons, <- !app_assoc. split_and!; [f_equal; lia|by apply sublist_skip|by constructor|lia].
  - rewrite Sign1_miss by done. destruct (IH nS scr Hle) as (items & pks & -> & Hsub & Hf & Hn).
    exists items, pks. split_and!; [done|by apply sublist_cons|done|lia].
Qed.
End signing.

(** ** What can be signed *)
Section spec.
Context `{BNLib} `{Digests} `{ECLib} `{SigEnv}.
Variable maxdata : Z.
Variable ks : CBasicKeyStore.

(** The store can satisfy the script itself: it has the key, or enough of the keys. *)
Definition signable (s : bytes) : bool :=
  let '(ok, t, sols) := Solver maxdata s in
  ok && match t with
        | TX_PUBKEY => HaveKey ks (solution_id (default [] (head sols)))
        | TX_PUBKEYHASH => HaveKey ks (le_val (default [] (head sols)))
        | TX_MULTISIG => first_byte (head sols) <=? held ks (inner_solutions sols)
        | _ => false
        end.

(** The script the signatures are for: the redeem script of a pay-to-script-hash output. *)
Definition signed_script (s : bytes) : bytes :=
  if IsPayToScriptHash s then default [] (GetCScript ks (le_val (take 20 (drop 2 s)))) else s.

Definition can_sign (s : bytes) : bool :=
  if IsPayToScriptHash s then
    match GetCScript ks (le_val (take 20 (drop 2 s))) with
    | Some s' => negb (IsPayToScriptHash s') && signable s'
    | None => false
    end
  else signable s.

(** The keys a script holds in full. *)
Definition script_keys (s : bytes) : list valtype :=
  let '(_, t, sols) := Solver maxdata s in
  match t with TX_PUBKEY => sols | TX_MULTISIG => inner_solutions sols | _ => [] end.

(** The two coincidences that would spoil a signature: a key of the script that only
    shares its hash with one of the store's, and a signature that is itself
    among the data of the script. *)
Record script_clear (tx : CTransaction) (n : nat) (ht : Z) (s : bytes) : Prop := {
  clear_keys pk k : pk ∈ script_keys s -> mapKeys ks !! solution_id pk = Some k ->
    PrivKey.GetPubKey k = Some (PubKey.Set_ pk);
  clear_sigs id k sig : mapKeys ks !! id = Some k -> PrivKey.Sign k (SignatureHash s tx n ht) = Some sig ->
    drop_signature s (sig ++ [B#ht]) = s
}.
End spec.

Lemma set_scriptSig_same tx n script : same_but_scripts tx (set_scriptSig tx n script).
Proof.
  unfold same_but_scripts, set_scriptSig. simpl. split_and!; try done. apply list_eq. intros i.
  change (fmap blank_input (vin tx) !! i = fmap blank_input (alter (fun x => with_script x script) n (vin tx)) !! i).
  rewrite !list_lookup_fmap. destruct (decide (n = i)) as [<-|Hne].
  - rewrite list_lookup_alter_eq. by destruct (vin tx !! n).
  - by rewrite list_lookup_alter_ne.
Qed.

Lemma same_trans tx1 tx2 tx3 : same_but_scripts tx1 tx2 -> same_but_scripts tx2 tx3 -> same_but_scripts tx1 tx3.
Proof. unfold same_but_scripts. intuition congruence. Qed.

Section good.
Context `{BNLib} `{!BNLibOk} `{Digests} `{!DigestsOk} `{ECLib} `{!ECLibOk} `{!SignerOk} `{SigEnv}.
Variable maxdata : Z.
Variable ks : CBasicKeyStore.
Hypothesis Hks : store_ok ks.
Variable tx : CTransaction.
Variable n : nat.
Variable ht : Z.
Hypothesis Hht : 0 <= ht < 256.

(** A signature of the store is good for the script in every transaction that differs
    in input scripts only. *)
Lemma signature_good tx' s k sig pk : same_but_scripts tx tx' -> key_wf k -> PrivKey.GetPubKey k = Some pk ->
  PrivKey.Sign k (SignatureHash s tx n ht) = Some sig -> drop_signature s (sig ++ [B#ht]) = s ->
  good_sig tx' n FL s (sig ++ [B#ht]) pk.
Proof.
  intros Hsame Hw Ep Es Hd. destruct (Sign_valid k (SignatureHash s tx n ht) pk Hw Ep) as (sig' & Es' & Hv & Hz & Henc).
  rewrite Es in Es'. injection Es' as <-.
  destruct (GetPubKey_wf k Hw) as (pk' & Ep' & Hpw & Hcan & _ & Eset). rewrite Ep in Ep'. injection Ep' as <-.
  assert (zlen (sig ++ [B#ht]) = zlen sig + 1) as Ez by (by rewrite zlen_app).
  split; [|split; [done|lia]]. unfold sig_ok, encodings_ok, CheckSignatureEncoding.
  rewrite Hcan, Henc, Ez, (proj2 (Z.eqb_neq _ _)) by lia. rewrite andb_false_r.
  change (has_flag FL SCRIPT_VERIFY_FIX_HASHTYPE) with true. cbn [negb andb].
  unfold sig_valid, split_hashtype. rewrite Eset, last_snoc, pop_back_app. cbn [Z.eqb].
  destruct Hpw as [_ Hp]. unfold PubKey.IsValid. rewrite (proj2 (Z.ltb_lt _ _) Hp), uchar_to_byte_small by lia.
  by rewrite <- (SignatureHash_ignores_scripts s tx tx' n ht Hsame).
Qed.

Lemma Set_nonempty v : PubKey.Set_ v <> [] -> PubKey.Set_ v = v.
Proof. unfold PubKey.Set_. destruct v as [|b v]; [done|]. by destruct (_ && _). Qed.

Lemma HaveKey_lookup a : HaveKey ks a = true -> exists k, mapKeys ks !! a = Some k.
Proof. unfold HaveKey. by intros [k Ek]%bool_decide_eq_true; exists k. Qed.

(** A key of the script that the store knows by its hash is the public key of the
    secret filed there. *)
Lemma script_key_owned s pk k : script_clear maxdata ks tx n ht s -> pk ∈ script_keys maxdata s ->
  mapKeys ks !! solution_id pk = Some k -> key_wf k /\ PrivKey.GetPubKey k = Some pk /\ CheckPubKeyEncoding pk = true.
Proof.
  intros Hcl Hin Ek. destruct (keys_filed ks Hks _ _ Ek) as (Hw & _).
  pose proof (clear_keys _ _ _ _ _ _ Hcl pk k Hin Ek) as Ep.
  destruct (GetPubKey_wf k Hw) as (pk' & Ep' & [Hl Hp] & Hcan & _). rewrite Ep in Ep'. injection Ep' as Eset.
  assert (PubKey.Set_ pk = pk) as E by (apply Set_nonempty; rewrite Eset; intros ->; unfold zlen in Hl; simpl in Hl; lia).
  rewrite E in Eset, Ep. by subst pk'.
Qed.

Lemma script_key_good tx' s pk item : same_but_scripts tx tx' -> script_clear maxdata ks tx n ht s -> pk ∈ script_keys maxdata s ->
  signature_of ks (SignatureHash s tx n ht) ht (solution_id pk) item -> good_sig tx' n FL s item pk.
Proof.
  intros Hsame Hcl Hin (k & sig & Ek & Es & ->). destruct (script_key_owned s pk k Hcl Hin Ek) as (Hw & Ep & _).
  apply (signature_good tx' s k sig pk Hsame Hw Ep Es). exact (clear_sigs _ _ _ _ _ _ Hcl _ k sig Ek Es).
Qed.

Lemma script_key_canonical s pk : script_clear maxdata ks tx n ht s -> pk ∈ script_keys maxdata s ->
  HaveKey ks (solution_id pk) = true -> CheckPubKeyEncoding pk = true.
Proof. intros Hcl Hin (k & Ek)%HaveKey_lookup. by destruct (script_key_owned s pk k Hcl Hin Ek) as (_ & _ & ?). Qed.

(** *** What the signing [Solver] answers on a script that is not pay-to-script-hash *)
Definition solved (s : bytes) (r : option (bool * bytes * txnouttype)) : Prop :=
  exists args t, r = Some (true, pushes args, t) /\ t <> TX_SCRIPTHASH /\ zlen args <= 17 /\
    Forall (fun v => zlen v <= 73) args /\
    forall tx' c, same_but_scripts tx tx' -> cache_ok c -> eval_good tx' n FL args s c.
Definition unsolved (r : option (bool * bytes * txnouttype)) : Prop := exists scr t, r = Some (false, scr, t).

Lemma as_pubkey_inv l sols : as_pubkey l = Some sols -> exists o1 pk v2, l = [(o1, pk); (OP_CHECKSIG, v2)] /\
  sols = [pk] /\ key_sized pk = true.
Proof.
  unfold as_pubkey. destruct l as [|[o1 pk] [|[o2 v2] [|]]]; try done. destruct (_ && _) eqn:E; [|done].
  apply andb_true_iff in E as [Ek ->%Z.eqb_eq]. intros [= <-]. by exists o1, pk, v2.
Qed.

Lemma as_pubkeyhash_inv l sols : as_pubkeyhash l = Some sols -> exists h, sols = [h] /\ zlen h = 20.
Proof.
  unfold as_pubkeyhash. destruct l as [|[o1 v1] [|[o2 v2] [|[o3 h] [|[o4 v4] [|[o5 v5] [|]]]]]]; try done.
  destruct (_ && _) eqn:E; [|done]. repeat (apply andb_true_iff in E as [E ?]). intros [= <-]. exists h. split; [done|lia].
Qed.

Lemma good_size tx' s item pk : good_sig tx' n FL s item pk -> zlen item <= 73.
Proof. intros (_ & _ & Hz). lia. Qed.

Lemma same_refl : same_but_scripts tx tx.
Proof. done. Qed.

Lemma solve_pubkey s l pk : parse s = Some l -> IsPayToScriptHash s = false -> as_pubkey l = Some [pk] -> script_clear maxdata ks tx n ht s ->
  let r := SolverSign maxdata ks s (SignatureHash s tx n ht) ht in
  if HaveKey ks (solution_id pk) then solved s r else unsolved r.
Proof.
  intros Hp Hsh Ha Hcl. cbv zeta. assert (Solver maxdata s = (true, TX_PUBKEY, [pk])) as Es.
  { rewrite Solver_spec, Hsh, Hp. unfold classify. by rewrite Ha. }
  unfold SolverSign. rewrite Es. cbn [negb head default]. destruct (HaveKey ks (solution_id pk)) eqn:Eh.
  - destruct (Sign1_have ks Hks (SignatureHash s tx n ht) ht (solution_id pk) [] Eh) as (item & Hi & E). simpl in E |- *. rewrite E.
    assert (forall tx', same_but_scripts tx tx' -> good_sig tx' n FL s item pk) as Hg.
    { intros tx' Hsame. apply script_key_good; [done|done| |done]. unfold script_keys. rewrite Es. by left. }
    exists [item], TX_PUBKEY. split_and!; [|done|done| |].
    + unfold push_data, pushes. simpl. by rewrite app_nil_r.
    + constructor; [|done]. exact (good_size _ _ _ _ (Hg tx same_refl)).
    + intros tx' c Hsame Hc. destruct (as_pubkey_inv _ _ Ha) as (o1 & pk' & v2 & -> & [= <-] & Hk).
      apply (checks_good _ _ _ _ _ _ _ _ (Hg tx' Hsame)). by apply (eval_p2pk tx' n FL s o1 OP_CHECKSIG v2 pk item c [] Hp eq_refl Hk Hc).
  - simpl. rewrite Sign1_miss by done. by eexists _, _.
Qed.

Lemma solve_pubkeyhash s l h : parse s = Some l -> IsPayToScriptHash s = false -> as_pubkey l = None -> as_pubkeyhash l = Some [h] ->
  script_clear maxdata ks tx n ht s ->
  let r := SolverSign maxdata ks s (SignatureHash s tx n ht) ht in
  if HaveKey ks (le_val h) then solved s r else unsolved r.
Proof.
  intros Hp Hsh Ha0 Ha Hcl. cbv zeta. assert (Solver maxdata s = (true, TX_PUBKEYHASH, [h])) as Es.
  { rewrite Solver_spec, Hsh, Hp. unfold classify. by rewrite Ha0, Ha. }
  unfold SolverSign. rewrite Es. cbn [negb head default]. destruct (HaveKey ks (le_val h)) eqn:Eh.
  - destruct (Sign1_have ks Hks (SignatureHash s tx n ht) ht (le_val h) [] Eh) as (item & (k & sig & Ek & Esig & Ei) & E).
    simpl in E |- *. rewrite E. cbn [negb].
    destruct (keys_filed ks Hks _ _ Ek) as (Hw & pk & Ep & Hid). unfold KeyStore.GetPubKey, GetKey. rewrite Ek, Ep. simpl.
    assert (forall tx', same_but_scripts tx tx' -> good_sig tx' n FL s item pk) as Hg.
    { intros tx' Hsame. rewrite Ei. apply (signature_good tx' s k sig pk Hsame Hw Ep Esig).
      exact (clear_sigs _ _ _ _ _ _ Hcl _ k sig Ek Esig). }
    destruct (GetPubKey_wf k Hw) as (pk' & Ep' & Hpw & _). rewrite Ep in Ep'. injection Ep' as <-.
    pose proof (pubkey_sizes pk Hpw) as Hsz.
    exists [item; pk], TX_PUBKEYHASH. split_and!; [|done|done| |].
    + rewrite push_object_small by (unfold OP_PUSHDATA1; lia). unfold push_data, pushes. simpl. by rewrite app_nil_r, <- app_assoc.
    + constructor; [exact (good_size _ _ _ _ (Hg tx same_refl))|]. constructor; [lia|done].
    + intros tx' c Hsame Hc. apply (checks_good _ _ _ _ _ _ _ _ (Hg tx' Hsame)). apply (eval_p2pkh_any tx' n FL s l h pk item c [] Hp Ha); [|done|done].
      destruct (as_pubkeyhash_inv _ _ Ha) as (h' & [= <-] & Hh). unfold PubKey.GetID in Hid.
      rewrite <- (le_bytes_Hash160 pk), Hid. apply le_bytes_val. unfold zlen in Hh. lia.
  - simpl. rewrite Sign1_miss by done. by eexists _, _.
Qed.

Lemma inner_of_multisig (a b : valtype) keys : inner_solutions ([a] ++ keys ++ [b]) = keys.
Proof. unfold inner_solutions. simpl. apply pop_back_app. Qed.

Lemma solve_multisig s l m keys k : parse s = Some l -> IsPayToScriptHash s = false -> as_pubkey l = None -> as_pubkeyhash l = None ->
  as_multisig l = Some (m, keys, k) -> script_clear maxdata ks tx n ht s -> Forall (fun pk => CheckPubKeyEncoding pk = true) keys ->
  let r := SolverSign maxdata ks s (SignatureHash s tx n ht) ht in
  if (1 <=? m) && (m <=? k) && (zlen keys =? k) && (m <=? held ks keys) then solved s r else unsolved r.
Proof.
  intros Hp Hsh Ha1 Ha2 Ha Hcl Hcan. cbv zeta.
  assert (Solver maxdata s = ((1 <=? m) && (m <=? k) && (zlen keys =? k), TX_MULTISIG, [[B#m]] ++ keys ++ [[B#k]])) as Es.
  { rewrite Solver_spec, Hsh, Hp. unfold classify. by rewrite Ha1, Ha2, Ha. }
  destruct (as_multisig_range _ _ _ _ Ha) as [Hm Hk]. unfold SolverSign. rewrite Es.
  destruct ((1 <=? m) && (m <=? k) && (zlen keys =? k)) eqn:Ec; cbn [negb andb]; [|by eexists _, _].
  apply andb_true_iff in Ec as [[? ?]%andb_true_iff ?].
  unfold SignN. rewrite inner_of_multisig. cbn [head app first_byte]. rewrite uchar_to_byte_small by lia.
  destruct (SignN_loop_spec ks Hks (SignatureHash s tx n ht) ht keys 0 m (push_op [] OP_0) ltac:(lia))
    as (items & pks & -> & Hsub & Hf & Hn).
  rewrite Z.add_0_l, Z.sub_0_r in *. destruct (Z.leb_spec m (held ks keys)) as [Hle|Hgt].
  2:{ rewrite (proj2 (Z.eqb_neq _ _)) by lia. by eexists _, _. }
  rewrite (proj2 (Z.eqb_eq _ _)) by lia.
  assert (forall tx', same_but_scripts tx tx' -> Forall2 (good_sig tx' n FL s) items pks) as Hg.
  { intros tx' Hsame. apply (Forall2_impl_in _ _ _ _ Hf). intros item pk Hin Hi.
    apply script_key_good; [done|done| |done]. unfold script_keys. rewrite Es, inner_of_multisig.
    exact (elem_of_sublist _ _ _ Hin Hsub). }
  exists ([] :: items), TX_MULTISIG. split_and!; [done|done|rewrite zlen_cons; lia| |].
  - constructor; [done|]. eapply Forall2_Forall_l; [exact (Hg tx same_refl)|]. apply Forall_true.
    intros pk item Hi. exact (good_size _ _ _ _ Hi).
  - intros tx' c Hsame Hc. apply (eval_multisig_any tx' n FL s l m keys k items c []); try done; try lia.
    exists pks. by split; [|apply Hg].
Qed.

Lemma SolverSign_plain s : IsPayToScriptHash s = false -> script_clear maxdata ks tx n ht s ->
  Forall (fun pk => CheckPubKeyEncoding pk = true) (script_keys maxdata s) ->
  let r := SolverSign maxdata ks s (SignatureHash s tx n ht) ht in
  if signable maxdata ks s then solved s r else unsolved r.
Proof.
  intros Hsh Hcl Hcan. cbv zeta. unfold signable. pose proof (Solver_spec maxdata s) as Es. rewrite Hsh in Es.
  destruct (parse s) as [l|] eqn:Hp.
  2:{ unfold SolverSign. rewrite Es. simpl. by eexists _, _. }
  unfold classify in Es. destruct (as_pubkey l) as [sols|] eqn:A1.
  { destruct (as_pubkey_inv _ _ A1) as (_ & pk & _ & _ & -> & _). rewrite Es. simpl.
    by apply (solve_pubkey s l). }
  destruct (as_pubkeyhash l) as [sols|] eqn:A2.
  { destruct (as_pubkeyhash_inv _ _ A2) as (h & -> & _). rewrite Es. simpl. by apply (solve_pubkeyhash s l). }
  destruct (as_multisig l) as [[[m keys] k]|] eqn:A3.
  { destruct (as_multisig_range _ _ _ _ A3) as [Hm Hk].
    unfold script_keys in Hcan. rewrite Es, inner_of_multisig in *. cbn [head app first_byte].
    rewrite uchar_to_byte_small by lia. by apply (solve_multisig s l m keys k). }
  destruct (as_null_data maxdata l); rewrite Es; unfold SolverSign; rewrite Es; simpl; by eexists _, _.
Qed.

(** *** The two theorems *)
(** Arguments that satisfy the script verify in the input. *)
Lemma zlen_pushes_le vs b : Forall (fun v => zlen v <= b) vs -> zlen (pushes vs) <= (5 + b) * zlen vs.
Proof.
  induction 1 as [|v vs Hv _ IH]; [unfold zlen; simpl; lia|]. rewrite pushes_cons, !zlen_app, zlen_cons.
  pose proof (zlen_push_header (zlen v)). lia.
Qed.

Lemma Verify_plain args s tx' c : IsPayToScriptHash s = false -> zlen args <= 17 -> Forall (fun v => zlen v <= 73) args ->
  (forall c, cache_ok c -> eval_good tx' n FL args s c) -> cache_ok c ->
  (VerifyScript (pushes args) s tx' n FL 0 c).1 = true.
Proof.
  intros Hsh Hn Hf Hev Hc. unfold VerifyScript. pose proof (zlen_pushes_le args 73 Hf) as Hl. pose proof (zlen_nonneg args).
  rewrite EvalScript_pushes_eq; [|eapply Forall_impl; [exact Hf|]; intros v Hv; unfold MAX_SCRIPT_ELEMENT_SIZE; simpl in Hv; lia
    |change (zlen (@nil valtype)) with 0; lia|lia].
  cbn [negb app]. destruct (Hev c Hc) as (l & c' & _ & ->). cbn [negb]. rewrite last_snoc, Hsh. done.
Qed.

Lemma Verify_p2sh args s redeem tx' c : zlen args <= 17 -> Forall (fun v => zlen v <= 73) args ->
  IsPayToScriptHash s = true -> le_val (take 20 (drop 2 s)) = Hash160 redeem -> zlen redeem <= MAX_SCRIPT_ELEMENT_SIZE ->
  (forall c, cache_ok c -> eval_good tx' n FL args redeem c) -> cache_ok c ->
  (VerifyScript (pushes (args ++ [redeem])) s tx' n FL 0 c).1 = true.
Proof.
  intros Hn Hf (h & Hh & ->)%IsPayToScriptHash_shape Hid Hz Hev Hc.
  assert (take 20 (drop 2 (p2sh_script h)) = h) as Eh.
  { unfold p2sh_script. simpl. change (take 20 (h ++ [B#OP_EQUAL]) = h). by rewrite take_app_length' by (unfold zlen in Hh; lia). }
  rewrite Eh in Hid. assert (h = le_bytes 20 (le_val h)) as Ehh by (symmetry; apply le_bytes_val; unfold zlen in Hh; lia).
  assert (Forall (fun v => zlen v <= MAX_SCRIPT_ELEMENT_SIZE) (args ++ [redeem])) as Hall.
  { apply Forall_app. split; [|by constructor]. eapply Forall_impl; [exact Hf|]. intros v Hv.
    unfold MAX_SCRIPT_ELEMENT_SIZE. simpl in Hv. lia. }
  assert (zlen (pushes (args ++ [redeem])) <= 10000) as Hsz.
  { assert (pushes (args ++ [redeem]) = pushes args ++ pushes [redeem]) as -> by (unfold pushes; by rewrite map_app, concat_app).
    rewrite zlen_app. pose proof (zlen_pushes_le args 73 Hf). pose proof (zlen_pushes_le [redeem] MAX_SCRIPT_ELEMENT_SIZE) as Hr.
    change (zlen [redeem]) with 1 in Hr. unfold MAX_SCRIPT_ELEMENT_SIZE in *. specialize (Hr ltac:(by constructor)).
    pose proof (zlen_nonneg args). lia. }
  rewrite Ehh. change (p2sh_script (le_bytes 20 (le_val h))) with ([B#OP_HASH160; B#20] ++ le_bytes 20 (le_val h) ++ [B#OP_EQUAL]).
  rewrite <- SetDestination_script_eq. pose proof (Hash160_range redeem).
  rewrite VerifyScript_p2sh_eq; [|lia|lia|done|done]. cbv zeta.
  rewrite bool_decide_eq_true_2 by (rewrite <- (le_bytes_Hash160 redeem); congruence).
  destruct (Hev c Hc) as (l & c' & _ & ->). cbn [fst snd andb]. unfold verdict. by rewrite last_snoc.
Qed.

(** The two ways [SignSignature] goes on after the first [Solver]. *)
Lemma SolverSign_p2sh s hash : IsPayToScriptHash s = true -> SolverSign maxdata ks s hash ht =
  match GetCScript ks (le_val (take 20 (drop 2 s))) with
  | None => Some (false, [], TX_SCRIPTHASH)
  | Some subscript => Some (true, subscript, TX_SCRIPTHASH)
  end.
Proof. intros Hsh. unfold SolverSign. by rewrite Solver_spec, Hsh. Qed.

Lemma SignSignature_core from c : (n < length (vin tx))%nat -> cache_ok c ->
  script_clear maxdata ks tx n ht (signed_script ks from) ->
  Forall (fun pk => CheckPubKeyEncoding pk = true) (script_keys maxdata (signed_script ks from)) ->
  exists tx' c', SignSignature maxdata ks from tx n ht c = Some (can_sign maxdata ks from, tx', c') /\ same_but_scripts tx tx'.
Proof.
  intros Hn Hc. unfold SignSignature, can_sign, signed_script. rewrite bool_decide_eq_false_2 by lia.
  destruct (IsPayToScriptHash from) eqn:Hsh; intros Hcl Hcan.
  - rewrite SolverSign_p2sh by done. destruct (GetCScript ks (le_val (take 20 (drop 2 from)))) as [sub|] eqn:Eg; simpl in *.
    2:{ eexists _, c. split; [done|]. apply set_scriptSig_same. }
    destruct (scripts_filed ks Hks _ _ Eg) as [Hid Hsz].
    set (tx1 := set_scriptSig tx n sub). pose proof (set_scriptSig_same tx n sub) as Hx1. fold tx1 in Hx1.
    rewrite <- (SignatureHash_ignores_scripts sub tx tx1 n ht Hx1).
    assert (forall scr, same_but_scripts tx (set_scriptSig tx1 n scr)) as Hx2.
    { intros scr. exact (same_trans _ _ _ Hx1 (set_scriptSig_same tx1 n scr)). }
    destruct (IsPayToScriptHash sub) eqn:Hsub; cbn [negb andb].
    { rewrite (SolverSign_p2sh sub) by done. destruct (GetCScript ks (le_val (take 20 (drop 2 sub)))); simpl; eexists _, c; (split; [done|apply Hx2]). }
    pose proof (SolverSign_plain sub Hsub Hcl Hcan) as Hs. cbv zeta in Hs. destruct (signable maxdata ks sub).
    + destruct Hs as (args & t & -> & Ht & Hna & Hf & Hev). simpl. rewrite bool_decide_eq_false_2 by done. simpl.
      assert (push_data (pushes args) sub = pushes (args ++ [sub])) as ->.
      { unfold push_data, pushes. rewrite map_app, concat_app. simpl. by rewrite app_nil_r. }
      pose proof (Verify_p2sh args from sub (set_scriptSig tx1 n (pushes (args ++ [sub]))) c Hna Hf Hsh (eq_sym Hid) Hsz) as Hv.
      destruct (VerifyScript _ _ _ _ _ _ _) as [ok c']. simpl in Hv. eexists _, c'. split; [|apply Hx2].
      rewrite Hv; [done| |done]. intros c0 Hc0. by apply Hev.
    + destruct Hs as (scr & t & ->). simpl. eexists _, c. split; [done|apply Hx2].
  - pose proof (SolverSign_plain from Hsh Hcl Hcan) as Hs. cbv zeta in Hs. destruct (signable maxdata ks from).
    + destruct Hs as (args & t & -> & Ht & Hna & Hf & Hev). simpl. rewrite bool_decide_eq_false_2 by done. simpl.
      pose proof (Verify_plain args from (set_scriptSig tx n (pushes args)) c Hsh Hna Hf) as Hv.
      destruct (VerifyScript _ _ _ _ _ _ _) as [ok c']. simpl in Hv. eexists _, c'. split; [|apply set_scriptSig_same].
      rewrite Hv; [done| |done]. intros c0 Hc0. apply Hev; [apply set_scriptSig_same|done].
    + destruct Hs as (scr & t & ->). simpl. eexists _, c. split; [done|apply set_scriptSig_same].
Qed.

(** C4. With a key store whose keys and scripts are filed under their hashes,
    [SignSignature] succeeds exactly on the outputs it has what it takes for: the
    key of a pay-to-public-key or pay-to-public-key-hash output, as many of the keys
    of a multisig output as it asks for, or the redeem script of a
    pay-to-script-hash output together with what that script takes.  No assertion
    fails, the transaction changes in its input scripts only, and the script
    it writes has passed [VerifyScript] under the standard flags. *)
Theorem SignSignature_succeeds from c : (n < length (vin tx))%nat -> cache_ok c ->
  script_clear maxdata ks tx n ht (signed_script ks from) ->
  Forall (fun pk => CheckPubKeyEncoding pk = true) (script_keys maxdata (signed_script ks from)) ->
  exists tx' c', SignSignature maxdata ks from tx n ht c = Some (can_sign maxdata ks from, tx', c') /\
    same_but_scripts tx tx'.
Proof. apply SignSignature_core. Qed.

(** *** What [IsMine] counts as owned is signed *)
Lemma HaveKeys_held keys : zlen keys < 2 ^ 32 -> HaveKeys keys ks = held ks keys.
Proof.
  intros Hl. unfold HaveKeys.
  enough (forall k0, 0 <= k0 -> k0 + zlen keys < 2 ^ 32 -> fold_left (fun nResult pubkey =>
    if HaveKey ks (solution_id pubkey) then u32 (nResult + 1) else nResult) keys k0 = k0 + held ks keys) as He by (by apply He).
  clear Hl. induction keys as [|pk keys IH]; intros k0 Hk0 Hl; [change (held ks []) with 0; simpl; lia|].
  rewrite zlen_cons in Hl. pose proof (zlen_nonneg keys). cbn [fold_left]. rewrite held_cons.
  destruct (HaveKey ks (solution_id pk)); rewrite IH; unfold u32; rewrite ?Z.mod_small by lia; lia.
Qed.

Lemma held_all keys : held ks keys = zlen keys -> Forall (fun pk => HaveKey ks (solution_id pk) = true) keys.
Proof.
  induction keys as [|pk keys IH]; [done|]. rewrite held_cons, zlen_cons. pose proof (held_le ks keys).
  destruct (HaveKey ks (solution_id pk)) eqn:E; [|lia]. intros Hh. constructor; [done|]. apply IH. lia.
Qed.

Lemma IsMine_plain fuel s : IsPayToScriptHash s = false -> script_clear maxdata ks tx n ht s -> IsMine_n maxdata fuel ks s = Some true ->
  signable maxdata ks s = true /\ Forall (fun pk => CheckPubKeyEncoding pk = true) (script_keys maxdata s).
Proof.
  intros Hsh Hcl. 
  enough (IsMine_n maxdata fuel ks s = Some true -> signable maxdata ks s = true /\
    Forall (fun pk => HaveKey ks (solution_id pk) = true) (script_keys maxdata s)) as He.
  { intros Hm. destruct (He Hm) as [Hsig Hall]. split; [done|]. apply Forall_forall. intros pk Hin.
    rewrite Forall_forall in Hall. by apply (script_key_canonical s); [| |apply Hall]. }
  unfold signable, script_keys. pose proof (Solver_spec maxdata s) as Es. rewrite Hsh in Es.
  assert (forall r, r = IsMine_n maxdata fuel ks s -> r = let '(ok, whichType, vSolutions) := Solver maxdata s in
    if negb ok then Some false else
    match whichType with
    | TX_PUBKEY => Some (HaveKey ks (solution_id (default [] (head vSolutions))))
    | TX_PUBKEYHASH => Some (HaveKey ks (le_val (default [] (head vSolutions))))
    | TX_MULTISIG => Some (HaveKeys (inner_solutions vSolutions) ks =? zlen (inner_solutions vSolutions))
    | TX_SCRIPTHASH => r
    | _ => Some false
    end) as Hr.
  { intros r ->. destruct fuel; cbn [IsMine_n]; destruct (Solver maxdata s) as [[[] []] sols]; done. }
  specialize (Hr _ eq_refl). destruct (parse s) as [l|]; [|by rewrite Es in Hr; rewrite Hr].
  unfold classify in Es. destruct (as_pubkey l) as [sols|] eqn:A1.
  { destruct (as_pubkey_inv _ _ A1) as (_ & pk & _ & _ & -> & _). rewrite Es in Hr |- *. simpl in Hr |- *. rewrite Hr.
    intros [= Hh]. rewrite Hh. by repeat constructor. }
  destruct (as_pubkeyhash l) as [sols|] eqn:A2.
  { destruct (as_pubkeyhash_inv _ _ A2) as (h & -> & _). rewrite Es in Hr |- *. simpl in Hr |- *. rewrite Hr. by intros [= ->]. }
  destruct (as_multisig l) as [[[m keys] k]|] eqn:A3.
  2:{ destruct (as_null_data maxdata l); rewrite Es in Hr |- *; simpl in Hr; by rewrite Hr. }
  destruct (as_multisig_range _ _ _ _ A3) as [Hm Hk]. rewrite Es, inner_of_multisig in *. cbn [head app first_byte].
  rewrite uchar_to_byte_small by lia. destruct ((1 <=? m) && (m <=? k) && (zlen keys =? k)) eqn:Ec; cbn [negb] in Hr; [|by rewrite Hr].
  apply andb_true_iff in Ec as [[? ?]%andb_true_iff ?]. rewrite HaveKeys_held in Hr by lia. rewrite Hr. intros [= Hh].
  apply Z.eqb_eq in Hh. cbn [andb]. split; [apply Z.leb_le; lia|by apply held_all].
Qed.

(** C6. What the wallet counts as its own it can spend: an output that [IsMine]
    accepts is signed successfully, whatever standard form it has, unless it is a
    pay-to-script-hash output whose redeem script is pay-to-script-hash
    again, which [IsMine] follows and the signer does not. *)
Theorem IsMine_signs from c : (n < length (vin tx))%nat -> cache_ok c ->
  script_clear maxdata ks tx n ht (signed_script ks from) ->
  IsPayToScriptHash (signed_script ks from) = false -> IsMine maxdata ks from = Some true ->
  exists tx' c', SignSignature maxdata ks from tx n ht c = Some (true, tx', c').
Proof.
  intros Hn Hc Hcl Hpl Hm.
  assert (can_sign maxdata ks from = true /\ Forall (fun pk => CheckPubKeyEncoding pk = true)
    (script_keys maxdata (signed_script ks from))) as [Hcan Hkeys].
  { revert Hcl Hpl Hm. unfold signed_script, can_sign, IsMine. destruct (IsPayToScriptHash from) eqn:Hsh.
    - pose proof (Solver_spec maxdata from) as Es. rewrite Hsh in Es. cbn [IsMine_n]. rewrite Es. cbn [negb head default].
      change (id (take 20 (drop 2 from))) with (take 20 (drop 2 from)).
      destruct (GetCScript ks (le_val (take 20 (drop 2 from)))) as [sub|]; cbn [default]; [|done].
      intros Hcl Hpl Hm. change (id sub) with sub in *. rewrite Hpl. by apply (IsMine_plain (size (mapScripts ks)) sub Hpl Hcl).
    - intros Hcl _ Hm. by apply (IsMine_plain (S (size (mapScripts ks))) from Hsh Hcl). }
  destruct (SignSignature_core from c Hn Hc Hcl Hkeys) as (tx' & c' & -> & _). rewrite Hcan. by exists tx', c'.
Qed.
End good.
