(* ===== verification/SigningCheck.v ===== *)
(** * SigningCheck: the recursion of [IsMine], and the signing theorems at concrete outputs

    [IsMine] follows redeem scripts of the store; it returns unless one of them
    leads back to itself.  The witnesses sign a 1-of-2 pay-to-script-hash output
    and a pay-to-public-key-hash output with a store of one key. *)

From S2P Require Import Prelude BigNum ScriptOps Serialize Crypto Keys Core SigHash Interp InterpFacts Standard Spending Der Signing SigningFacts.
From Stdlib Require Import Sorted.
Import CScript SignatureHash_ SigHashFacts Template Classify DestinationFacts KeyStore KeyFacts.

(** ** Chains of redeem scripts *)
Section chains.
Context {A : Type} (R : relation A).

(** The states of a run, each with a later one below it. *)
Lemma nsteps_path k x y : nsteps R k x y -> exists l, length l = k /\ StronglySorted (tc R) l /\ Forall (tc R x) l /\
  Forall (fun z => exists w, R w z) l.
Proof.
  revert x. induction k as [|k IH]; intros x Hs.
  { exists []. split; [done|]. split; [constructor|]. by split. }
  inversion Hs as [|? ? z ? Hxz Hzy]; subst. destruct (IH z Hzy) as (l & Hl & Hss & Hx & Hin).
  exists (z :: l). split; [simpl; lia|]. split; [by constructor|]. split.
  - constructor; [by apply tc_once|]. eapply Forall_impl; [exact Hx|]. intros w Hw. by eapply tc_l.
  - constructor; [by exists x|done].
Qed.

Lemma sorted_dup l : EqDecision A -> StronglySorted (tc R) l -> ~ NoDup l -> exists x, x ∈ l /\ tc R x x.
Proof.
  intros HA. induction 1 as [|x l Hss IH Hx]; intros Hd; [by destruct Hd; constructor|].
  destruct (decide (x ∈ l)) as [Hin|Hin].
  - rewrite Forall_forall in Hx. exists x. split; [by left|by apply Hx].
  - destruct IH as (z & Hz & Hc); [intros Hn; by destruct Hd; constructor|]. exists z. split; [by right|done].
Qed.

(** A run longer than the number of possible states goes round a cycle. *)
Lemma long_run_cycles k x y (states : list A) : EqDecision A -> (forall w z, R w z -> z ∈ states) ->
  (length states < k)%nat -> nsteps R k x y -> exists z, tc R x z /\ tc R z z.
Proof.
  intros HA Hall Hk (l & Hl & Hss & Hx & Hin)%nsteps_path.
  destruct (sorted_dup l HA Hss) as (z & Hz & Hc).
  - intros Hn. assert (length l <= length states)%nat; [|lia]. apply submseteq_length, NoDup_submseteq; [done|].
    intros z Hz. rewrite Forall_forall in Hin. destruct (Hin z Hz) as (w & Hw). by eapply Hall.
  - exists z. split; [|done]. rewrite Forall_forall in Hx. by apply Hx.
Qed.

Lemma cycle_runs k x z : rtc R x z -> tc R z z -> exists y, nsteps R k x y.
Proof.
  intros Hx Hz. revert x Hx. induction k as [|k IH]; intros x Hx; [exists x; constructor|].
  assert (exists w, R x w /\ rtc R w z) as (w & Hw & Hwz).
  { destruct (rtc_inv _ _ Hx) as [->|(w & ? & ?)]; [|by exists w].
    inversion Hz as [? ? H1|? w ? H1 H2]; subst; [exists z|exists w]; (split; [done|]); [constructor|by apply tc_rtc]. }
  destruct (IH w Hwz) as (y & Hy). exists y. by econstructor.
Qed.
End chains.

Section mine.
Context `{Digests} `{ECLib}.
Variable maxdata : Z.
Variable ks : CBasicKeyStore.

(** The output [s] pays to the script [s'] of the store. *)
Definition pays_to (s s' : bytes) : Prop :=
  IsPayToScriptHash s = true /\ GetCScript ks (le_val (take 20 (drop 2 s))) = Some s'.

Lemma IsMine_n_step fuel s : IsPayToScriptHash s = true -> IsMine_n maxdata fuel ks s =
  match GetCScript ks (le_val (take 20 (drop 2 s))) with
  | None => Some false
  | Some s' => match fuel with O => None | S fuel => IsMine_n maxdata fuel ks s' end
  end.
Proof. intros Hs. pose proof (Solver_spec maxdata s) as Es. rewrite Hs in Es. destruct fuel; cbn [IsMine_n]; by rewrite Es. Qed.

Lemma IsMine_n_other s : IsPayToScriptHash s = false -> exists b, forall fuel, IsMine_n maxdata fuel ks s = Some b.
Proof.
  intros Hs. pose proof (Solver_spec maxdata s) as Es. rewrite Hs in Es.
  assert ((Solver maxdata s).1.2 <> TX_SCRIPTHASH) as Hne.
  { rewrite Es. destruct (parse s); [|done]. unfold classify. by repeat case_match. }
  exists (default false (IsMine_n maxdata 0 ks s)). intros fuel'.
  destruct fuel'; cbn [IsMine_n]; destruct (Solver maxdata s) as [[[] []] sols]; done.
Qed.

Lemma IsMine_n_deep fuel s : IsMine_n maxdata fuel ks s = None <-> exists y, nsteps pays_to (S fuel) s y.
Proof.
  revert s. induction fuel as [|fuel IH]; intros s.
  - destruct (IsPayToScriptHash s) eqn:Hs.
    + rewrite IsMine_n_step by done. destruct (GetCScript _ _) as [s'|] eqn:Eg; split; try done.
      * intros _. exists s'. apply nsteps_once. by split.
      * intros (y & Hy%nsteps_once_inv). destruct Hy as [_ Hy]. congruence.
    + destruct (IsMine_n_other s Hs) as (b & Hb). rewrite Hb. split; [done|].
      intros (y & Hy%nsteps_once_inv). destruct Hy as [Hy _]. congruence.
  - destruct (IsPayToScriptHash s) eqn:Hs.
    + rewrite IsMine_n_step by done. destruct (GetCScript _ _) as [s'|] eqn:Eg.
      * rewrite IH. split; intros (y & Hy).
        -- exists y. econstructor; [by split|done].
        -- inversion Hy as [|? ? z ? [_ Hz] Hzy]; subst. rewrite Eg in Hz. injection Hz as <-. by exists y.
      * split; [done|]. intros (y & Hy). inversion Hy as [|? ? z ? [_ Hz] Hzy]; subst. congruence.
    + destruct (IsMine_n_other s Hs) as (b & Hb). rewrite Hb. split; [done|].
      intros (y & Hy). inversion Hy as [|? ? z ? [Hz _] Hzy]; subst. congruence.
Qed.

Lemma IsMine_n_mono f1 f2 s b : (f1 <= f2)%nat -> IsMine_n maxdata f1 ks s = Some b -> IsMine_n maxdata f2 ks s = Some b.
Proof.
  revert f2 s. induction f1 as [|f1 IH]; intros f2 s Hf; destruct (IsPayToScriptHash s) eqn:Hs.
  - rewrite !IsMine_n_step by done. by destruct (GetCScript _ _).
  - destruct (IsMine_n_other s Hs) as (b' & Hb). by rewrite !Hb.
  - rewrite !IsMine_n_step by done. destruct (GetCScript _ _); [|done]. destruct f2; [lia|]. apply IH. lia.
  - destruct (IsMine_n_other s Hs) as (b' & Hb). by rewrite !Hb.
Qed.

(** C21. [IsMine] returns on every output that does not lead, through redeem scripts of
    the store, to a script that leads back to itself (which takes a cycle of
    hashes); then the depth of the model is enough, and more gives the same
    answer.  On an output that leads to such a script it never returns. *)
Theorem IsMine_terminates s :
  (IsMine maxdata ks s = None <-> exists z, rtc pays_to s z /\ tc pays_to z z) /\
  (IsMine maxdata ks s = None -> forall fuel, IsMine_n maxdata fuel ks s = None) /\
  (forall b fuel, IsMine maxdata ks s = Some b -> (size (mapScripts ks) < fuel)%nat -> IsMine_n maxdata fuel ks s = Some b).
Proof.
  assert (forall fuel, (size (mapScripts ks) < S fuel)%nat -> IsMine_n maxdata fuel ks s = None ->
    exists z, rtc pays_to s z /\ tc pays_to z z) as Hcyc.
  { intros fuel Hf (y & Hy)%IsMine_n_deep.
    destruct (long_run_cycles pays_to (S fuel) s y (map snd (map_to_list (mapScripts ks))) _) as (z & Hz & Hc); [| |done|].
    - intros w z [_ Hz]. apply list_elem_of_fmap. exists (le_val (take 20 (drop 2 w)), z). split; [done|].
      by apply elem_of_map_to_list.
    - rewrite length_map. by rewrite length_map_to_list.
    - exists z. split; [by apply tc_rtc|done]. }
  assert (forall fuel, (exists z, rtc pays_to s z /\ tc pays_to z z) -> IsMine_n maxdata fuel ks s = None) as Hnone.
  { intros fuel (z & Hz & Hc). apply IsMine_n_deep. by eapply cycle_runs. }
  unfold IsMine. split; [|split].
  - split; [apply Hcyc; lia|apply Hnone].
  - intros Hn fuel. apply Hnone, (Hcyc (S (size (mapScripts ks))) ltac:(lia) Hn).
  - intros b fuel Eb Hf. exact (IsMine_n_mono (S (size (mapScripts ks))) fuel s b ltac:(lia) Eb).
Qed.
End mine.

(** ** A signer for the witnesses

    It meets the laws: the signature of a hash is the pair of a number of the hash and
    the secret, and one, in DER form. *)
Definition toy_r (h : bytes) (k : Z) : Z := (be_val h + k) mod (order - 1) + 1.
Definition signing_ec : ECLib := {|
  EC_KEY := bool * bytes; EC_KEY_dummy := (false, []);
  o2i_ECPublicKey := toy_decode;
  i2o_ECPublicKey c '(odd, x) := if c then B#(2 + Z.b2z odd) :: toy_x x else B#4 :: toy_x x ++ toy_y odd;
  ECDSA_verify h s '(_, x) :=
    if decide (s = der_sig (toy_r h (be_val x)) 1 \/ s = der_sig (toy_r h (be_val x)) (order - 1)) then 1 else 0;
  EC_KEY_regenerate k := (false, be_bytes 32 k);
  EC_GROUP_get_order := order;
  ECDSA_do_sign k h := Some (toy_r h k, 1);
  i2d_ECDSA_SIG '(r, s) := der_sig r s;
  d2i_ECDSA_SIG b := Some (be_val (take 32 b), be_val (drop 32 b));
  ECDSA_SIG_recover_key _ _ _ _ := Some (false, []);
  EC_POINT_tweak k _ := Some k
|}.

Lemma toy_r_range h k : 0 < toy_r h k < order.
Proof. unfold toy_r. pose proof (Z.mod_pos_bound (be_val h + k) (order - 1) ltac:(by vm_compute)). lia. Qed.

Lemma signing_ec_ok : @ECLibOk signing_ec.
Proof.
  split; simpl; [done| |exact (i2o_doc (ECLibOk := dummy_ec_ok))|exact (compression_doc (ECLibOk := dummy_ec_ok))].
  intros k h r s [= <- <-]. pose proof (toy_r_range h k). assert (1 < order) by (by vm_compute). lia.
Qed.

Lemma toy_decode_uncompressed x : length x = 32%nat -> toy_decode (B#4 :: x ++ toy_y false) = Some (false, x).
Proof.
  intros Hx. unfold toy_decode. rewrite (bool_decide_eq_false_2 (B#4 = B#2)), (bool_decide_eq_false_2 (B#4 = B#3)) by done.
  rewrite drop_app_length', take_app_length' by done. by rewrite bool_decide_eq_true_2.
Qed.

Lemma signing_ec_signs : @SignerOk signing_ec.
Proof.
  split.
  - done.
  - intros k h _ _. by eexists.
  - intros k h r s s' comp Hk [= <- <-] Hs. exists (false, toy_x (be_bytes 32 k)). split.
    + destruct comp; [reflexivity|]. exact (toy_decode_uncompressed (toy_x (be_bytes 32 k)) (toy_x_length _)).
    + cbn [ECDSA_verify i2d_ECDSA_SIG signing_ec]. rewrite toy_x_id by apply length_be_bytes.
      rewrite be_val_be_bytes by (assert (order < 256 ^ Z.of_nat 32) by (by vm_compute); lia). rewrite decide_True; [done|]. destruct Hs as [-> | ->]; [by left|by right].
Qed.

(** One key, and a redeem script for it and a key that the store does not have. *)
Definition my_key : CKey := mk_key true true (be_bytes 32 7).
Definition my_pk : CPubKey := B#2 :: be_bytes 32 7.
Definition other_pk : CPubKey := B#3 :: be_bytes 32 9.
Definition redeem_1of2 : bytes := [B#OP_1] ++ pushes [other_pk; my_pk] ++ [B#(OP_1 + 1); B#OP_CHECKMULTISIG].
Definition my_store : CBasicKeyStore :=
  mk_store {[ @PubKey.GetID dummy_digests my_pk := my_key ]} {[ @script_GetID dummy_digests redeem_1of2 := redeem_1of2 ]}.
Definition my_p2pkh : bytes := SetDestination (CKeyID (@PubKey.GetID dummy_digests my_pk)).
Definition my_p2sh : bytes := SetDestination (CScriptID (@script_GetID dummy_digests redeem_1of2)).

Lemma my_key_wf : key_wf my_key.
Proof. split; [done|]. by vm_compute. Qed.

Lemma my_store_ok : @store_ok dummy_digests signing_ec my_store.
Proof.
  split; simpl; intros id x [<- <-]%lookup_singleton_Some.
  - split; [exact my_key_wf|]. exists my_pk. by split; vm_compute.
  - split; [done|]. by vm_compute.
Qed.

(** The side conditions of the theorems hold for both outputs, by computation. *)
Section instance.
#[local] Existing Instances ref_bn dummy_digests signing_ec toy_env.

Lemma my_script_clear maxdata s (keys : list valtype) : script_keys maxdata s = keys ->
  Forall (fun pk => pk = my_pk \/ solution_id pk <> PubKey.GetID my_pk) keys ->
  (forall sig, PrivKey.Sign my_key (SignatureHash s sample_tx 0 1) = Some sig -> drop_signature s (sig ++ [B#1]) = s) ->
  script_clear maxdata my_store sample_tx 0 1 s.
Proof.
  intros Ek Hk Hs. split.
  - intros pk k Hin Hl. rewrite Ek in Hin. rewrite Forall_forall in Hk. simpl in Hl.
    apply lookup_singleton_Some in Hl as [Hid <-]. destruct (Hk pk Hin) as [->|Hne]; [by vm_compute|congruence].
  - intros id k sig Hl. simpl in Hl. apply lookup_singleton_Some in Hl as [_ <-]. apply Hs.
Qed.

Lemma clear_1of2 : script_clear 80 my_store sample_tx 0 1 redeem_1of2.
Proof.
  apply (my_script_clear _ _ [other_pk; my_pk]); [by vm_compute| |].
  - constructor; [right; by vm_compute|]. constructor; [by left|done].
  - intros sig Es. vm_compute in Es. injection Es as <-. vm_compute. reflexivity.
Qed.

Lemma clear_p2pkh : script_clear 80 my_store sample_tx 0 1 my_p2pkh.
Proof.
  apply (my_script_clear _ _ []); [by vm_compute|done|].
  intros sig Es. vm_compute in Es. injection Es as <-. vm_compute. reflexivity.
Qed.

Lemma signed_my_p2sh : signed_script my_store my_p2sh = redeem_1of2.
Proof. by vm_compute. Qed.

(** The store signs a 1-of-2 output of which it has one key; [IsMine] does not count
    it as owned. *)
Lemma SignSignature_succeeds_witness : (exists tx' c',
  SignSignature 80 my_store my_p2sh sample_tx 0 1 empty_cache = Some (true, tx', c')) /\ IsMine 80 my_store my_p2sh = Some false.
Proof.
  split; [|by vm_compute].
  destruct (@SignSignature_succeeds ref_bn ref_bn_ok dummy_digests dummy_digests_ok signing_ec signing_ec_ok signing_ec_signs
    toy_env 80 my_store my_store_ok sample_tx 0%nat 1 ltac:(lia) my_p2sh empty_cache) as (tx' & c' & E & _).
  - vm_compute. lia.
  - apply empty_cache_ok.
  - rewrite signed_my_p2sh. exact clear_1of2.
  - rewrite signed_my_p2sh. repeat constructor; vm_compute; reflexivity.
  - exists tx', c'. rewrite E. reflexivity.
Defined.

Lemma IsMine_signs_witness : exists tx' c', SignSignature 80 my_store my_p2pkh sample_tx 0 1 empty_cache = Some (true, tx', c').
Proof.
  apply (@IsMine_signs ref_bn ref_bn_ok dummy_digests dummy_digests_ok signing_ec signing_ec_ok signing_ec_signs
    toy_env 80 my_store my_store_ok sample_tx 0%nat 1 ltac:(lia)).
  - vm_compute. lia.
  - apply empty_cache_ok.
  - exact clear_p2pkh.
  - vm_compute. reflexivity.
  - vm_compute. reflexivity.
Defined.

(** A pay-to-script-hash output of a pay-to-script-hash output: [IsMine] counts it as
    owned, and the signer refuses it. *)
Definition nested_store : CBasicKeyStore :=
  (AddCScript (AddCScript my_store my_p2pkh).2 (SetDestination (CScriptID (script_GetID my_p2pkh)))).2.
Definition nested_output : bytes :=
  SetDestination (CScriptID (script_GetID (SetDestination (CScriptID (script_GetID my_p2pkh))))).
Example nested_mine : IsMine 80 nested_store nested_output = Some true /\
  (SignSignature 80 nested_store nested_output sample_tx 0 1 empty_cache) ≫= (fun r => Some r.1.1) = Some false.
Proof. split; vm_compute; reflexivity. Qed.
End instance.
