(* ===== verification/CombineFacts.v ===== *)
(** * CombineFacts: merging partial signatures (src/src/script.cpp)

    [CombineSignatures] on two partially signed multisig inputs: the merged
    input has a signature for every key that either of them has one for, as
    far as they are needed, and it verifies when there are enough of them. *)

From S2P Require Import Prelude BigNum ScriptOps Serialize Crypto Keys Core SigHash Interp InterpFacts Standard Spending Der Signing SigningFacts SigningCheck.
Import CScript SignatureHash_ SigHashFacts Encoding Template Classify DestinationFacts VerifyFacts Combine.

Lemma filter_iff_in {A} (P Q : A -> Prop) `{forall x, Decision (P x), forall x, Decision (Q x)} (l : list A) :
  (forall x, x ∈ l -> (P x <-> Q x)) -> filter P l = filter Q l.
Proof.
  induction l as [|x l IH]; intros Hi; [done|]. rewrite !filter_cons, IH by (intros; apply Hi; by right).
  destruct (Hi x ltac:(by left)). repeat case_decide; naive_solver.
Qed.

(** ** The set of signatures *)
Lemma elem_of_set_insert v l x : x ∈ set_insert v l <-> x = v \/ x ∈ l.
Proof.
  induction l as [|y l IH]; cbn [set_insert]; [set_solver|].
  destruct (SigCache.vector_lt y v) eqn:E1; [set_solver|].
  destruct (SigCache.vector_lt v y) eqn:E2; [set_solver|].
  rewrite (SigCacheFacts.vector_lt_total _ _ E1 E2). set_solver.
Qed.

Lemma elem_of_add_sigs sigs l x : x ∈ add_sigs sigs l <-> (x ∈ sigs /\ x <> []) \/ x ∈ l.
Proof.
  unfold add_sigs. revert l. induction sigs as [|v sigs IH]; intros l; cbn [fold_left]; [set_solver|].
  rewrite IH. case_bool_decide; [set_solver|]. rewrite elem_of_set_insert. set_solver.
Qed.

Lemma pushes_app l1 l2 : pushes (l1 ++ l2) = pushes l1 ++ pushes l2.
Proof. unfold pushes. by rewrite map_app, concat_app. Qed.

Lemma PushAll_pushes vs : PushAll vs = pushes vs.
Proof.
  unfold PushAll. enough (forall s, fold_left push_data vs s = s ++ pushes vs) as He by apply He.
  induction vs as [|v vs IH]; intros s; [by rewrite app_nil_r|]. simpl. rewrite IH. unfold push_data.
  by rewrite pushes_cons, <- !app_assoc.
Qed.

Section combine.
Context `{BNLib} `{Digests} `{ECLib} `{SigEnv}.
Variable code : bytes.
Variable tx : CTransaction.
Variable n : nat.

Abbreviation valid := (fun sig pk => sig_valid sig pk code tx n 0).

(** ** Matching signatures to keys *)
Section matching.
Variables pubkeys allsigs : list valtype.
(** No signature is valid for two different keys. *)
Hypothesis Hone : forall sig pk1 pk2, sig ∈ allsigs -> pk1 ∈ pubkeys -> pk2 ∈ pubkeys -> valid sig pk1 = true -> valid sig pk2 = true -> pk1 = pk2.

Definition assigned (sigs : gmap bytes bytes) : Prop :=
  forall pk sig, sigs !! pk = Some sig -> sig ∈ allsigs /\ valid sig pk = true.

Lemma match_sig_spec sig keys sigs c : sig ∈ allsigs -> keys ⊆ pubkeys -> assigned sigs -> cache_ok c ->
  let r := match_sig sig keys code tx n sigs c in
  cache_ok r.2 /\ assigned r.1 /\ sigs ⊆ r.1 /\ forall pk, pk ∈ keys -> valid sig pk = true -> is_Some (r.1 !! pk).
Proof.
  intros Hin. cbv zeta. revert c. induction keys as [|pk keys IH]; intros c Hk Ha Hc; cbn [match_sig].
  { split_and!; [done|done|done|]. intros pk Hpk. by apply elem_of_nil in Hpk. }
  destruct (sigs !! pk) as [old|] eqn:El.
  - destruct (IH c ltac:(set_solver) Ha Hc) as (H1' & H2' & H3' & H4'). split_and!; [done..|]. intros pk' Hpk Hv.
    apply elem_of_cons in Hpk as [->|Hpk]; [|by apply H4']. exists old. by eapply lookup_weaken.
  - destruct (CheckSig_spec sig pk code tx n 0 0 c Hc) as [Ev Hc']. destruct (CheckSig _ _ _ _ _ _ _ c) as [ok c']. simpl in Ev, Hc'.
    destruct ok.
    + simpl. split_and!; [done| |by apply insert_subseteq|].
      * intros pk' sig'. destruct (decide (pk' = pk)) as [->|Hne]; [|by rewrite lookup_insert_ne by done; apply Ha].
        rewrite lookup_insert_eq. by intros [= <-].
      * intros pk' Hpk Hv. rewrite (Hone sig pk' pk) by (done || set_solver). by rewrite lookup_insert_eq.
    + destruct (IH c' ltac:(set_solver) Ha Hc') as (H1' & H2' & H3' & H4'). split_and!; [done..|]. intros pk' Hpk Hv.
      apply elem_of_cons in Hpk as [->|Hpk]; [congruence|by apply H4'].
Qed.

Lemma match_sigs_spec l sigs c : l ⊆ allsigs -> assigned sigs -> cache_ok c ->
  let r := match_sigs l pubkeys code tx n sigs c in
  cache_ok r.2 /\ assigned r.1 /\ sigs ⊆ r.1 /\
  forall sig pk, sig ∈ l -> pk ∈ pubkeys -> valid sig pk = true -> is_Some (r.1 !! pk).
Proof.
  cbv zeta. revert sigs c. induction l as [|sig l IH]; intros sigs c Hl Ha Hc; cbn [match_sigs].
  { split_and!; [done..|]. intros sig pk Hs. by apply elem_of_nil in Hs. }
  destruct (match_sig_spec sig pubkeys sigs c ltac:(set_solver) ltac:(done) Ha Hc) as (H1' & H2' & H3' & H4').
  destruct (match_sig sig pubkeys code tx n sigs c) as [sigs1 c1]. simpl in H1', H2', H3', H4'.
  destruct (IH sigs1 c1 ltac:(set_solver) H2' H1') as (I1 & I2 & I3 & I4). split_and!; [done|done|by etrans|].
  intros sig' pk Hs Hpk Hv. apply elem_of_cons in Hs as [->|Hs]; [|by eapply I4].
  destruct (H4' pk Hpk Hv) as [x Hx]. exists x. by eapply lookup_weaken.
Qed.
End matching.

(** ** The merged script *)
Lemma push_sigs_spec (sigs : gmap bytes bytes) keys have req res : have <= req ->
  exists items pks, push_sigs keys sigs have req res = (have + zlen items, res ++ pushes items) /\
    pks `sublist_of` keys /\ Forall2 (fun item pk => sigs !! pk = Some item) items pks /\
    zlen items = Z.min (req - have) (zlen (filter (fun pk => is_Some (sigs !! pk)) keys)).
Proof.
  revert have res. induction keys as [|pk keys IH]; intros have res Hle; cbn [push_sigs].
  { exists [], []. rewrite app_nil_r, Z.add_0_r. rewrite filter_nil. change (zlen (@nil bytes)) with 0. split_and!; done || lia. }
  pose proof (zlen_nonneg (filter (fun pk => is_Some (sigs !! pk)) (pk :: keys))).
  destruct (Z.ltb_spec have req) as [Hlt|Hge].
  2:{ exists [], []. rewrite app_nil_r, Z.add_0_r. change (zlen (@nil bytes)) with 0. split_and!; [done|apply sublist_nil_l|done|lia]. }
  destruct (sigs !! pk) as [sig|] eqn:E.
  - destruct (IH (have + 1) (push_data res sig)) as (items & pks & -> & Hs & Hf & Hn); [lia|].
    exists (sig :: items), (pk :: pks). rewrite filter_cons_True by (by rewrite E). rewrite !zlen_cons, Hn. unfold push_data.
    rewrite pushes_cons, <- !app_assoc. split_and!; [f_equal; lia|by apply sublist_skip|by constructor|lia].
  - destruct (IH have res Hle) as (items & pks & -> & Hs & Hf & Hn). exists items, pks.
    rewrite filter_cons_False by (rewrite E; by intros [? [=]]). split_and!; [done|by apply sublist_cons|done|lia].
Qed.

Lemma pushes_empty k : pushes (replicate k []) = replicate k B#OP_0.
Proof. induction k as [|k IH]; [done|]. simpl. rewrite pushes_cons, IH. done. Qed.

(** The keys that one of the signatures is valid for. *)
Definition signed_by (sigs : list valtype) (pk : valtype) : bool := existsb (fun sig => valid sig pk) sigs.

(** The merged script of a multisig output: as many signatures as are asked for and
    had, each valid for its key, in the order of the keys; then empty places. *)
Lemma CombineMultisig_spec m k keys sigs1 sigs2 c : 0 <= m < 256 -> cache_ok c ->
  (forall sig pk1 pk2, sig ∈ sigs1 ++ sigs2 -> pk1 ∈ keys -> pk2 ∈ keys -> valid sig pk1 = true -> valid sig pk2 = true -> pk1 = pk2) ->
  exists items pks c', CombineMultisig code tx n ([[B#m]] ++ keys ++ [[B#k]]) sigs1 sigs2 c =
      Some (pushes ([] :: items ++ replicate (Z.to_nat (m - zlen items)) []), c') /\ cache_ok c' /\
    pks `sublist_of` keys /\ Forall2 (fun item pk => item ∈ sigs1 ++ sigs2 /\ valid item pk = true) items pks /\
    zlen items = Z.min m (zlen (filter (fun pk => signed_by (sigs1 ++ sigs2) pk = true) keys)).
Proof.
  intros Hm Hc Hone. set (all := add_sigs sigs2 (add_sigs sigs1 [])).
  assert (forall x, x ∈ all <-> x ∈ sigs1 ++ sigs2 /\ x <> []) as Hall.
  { intros x. unfold all. rewrite !elem_of_add_sigs, elem_of_app. pose proof (not_elem_of_nil x). tauto. }
  unfold CombineMultisig. fold all. rewrite inner_of_multisig.
  assert (zlen ([[B#m]] ++ keys ++ [[B#k]]) = zlen keys + 2) as Ez.
  { rewrite !zlen_app. change (zlen [[B#m]]) with 1. change (zlen [[B#k]]) with 1. lia. }
  rewrite Ez. pose proof (zlen_nonneg keys). rewrite (proj2 (Z.leb_gt _ _)) by lia.
  cbn [head app first_byte]. rewrite uchar_to_byte_small by lia.
  destruct (match_sigs_spec keys all) with (l := all) (sigs := (∅ : gmap bytes bytes)) (c := c) as (Hc' & Ha & _ & Hex).
  { intros sig pk1 pk2 [Hs _]%Hall. by apply Hone. }
  { done. } { intros pk sig. by rewrite lookup_empty. } { done. }
  destruct (match_sigs all keys code tx n ∅ c) as [sigs c']. simpl in Hc', Ha, Hex.
  destruct (push_sigs_spec sigs keys 0 m (push_op [] OP_0) ltac:(lia)) as (items & pks & -> & Hs & Hf & Hn).
  exists items, pks, c'. rewrite Z.add_0_l. split_and!; [|done|done| |].
  - rewrite pushes_cons, pushes_app, pushes_empty. by rewrite <- app_assoc.
  - eapply Forall2_impl; [exact Hf|]. intros item pk Hl. destruct (Ha _ _ Hl) as [[Hi _]%Hall Hv]. done.
  - rewrite Hn, Z.sub_0_r. f_equal. f_equal. apply filter_iff_in. intros pk Hpk. split.
    + intros [sig Hl]. destruct (Ha _ _ Hl) as [[Hi _]%Hall Hv]. apply existsb_exists. exists sig. split; [by apply list_elem_of_In|done].
    + intros (sig & Hi%list_elem_of_In & Hv)%existsb_exists. apply (Hex sig pk); [|done|done]. apply Hall. split; [done|].
      intros ->. unfold sig_valid, split_hashtype in Hv. simpl in Hv. by rewrite andb_false_r in Hv.
Qed.
End combine.

(** ** Merging two inputs *)
Section merging.
Context `{BNLib} `{!BNLibOk} `{Digests} `{!DigestsOk} `{ECLib} `{SigEnv}.
Variable maxdata : Z.
Variable tx : CTransaction.
Variable n : nat.

Lemma Solver_multisig_inv s sols : Solver maxdata s = (true, TX_MULTISIG, sols) -> IsPayToScriptHash s = false /\
  exists l m keys k, parse s = Some l /\ as_multisig l = Some (m, keys, k) /\ sols = [[B#m]] ++ keys ++ [[B#k]] /\
    1 <= m <= k /\ zlen keys = k /\ k <= 16.
Proof.
  rewrite Solver_spec. destruct (IsPayToScriptHash s); [done|]. intros E. split; [done|].
  destruct (parse s) as [l|]; [|done]. unfold classify in E. destruct (as_pubkey l); [done|]. destruct (as_pubkeyhash l); [done|].
  destruct (as_multisig l) as [[[m keys] k]|] eqn:Em; [|by destruct (as_null_data maxdata l)].
  injection E as Ec <-. apply andb_true_iff in Ec as [[? ?]%andb_true_iff ?]. destruct (as_multisig_range _ _ _ _ Em).
  exists l, m, keys, k. split_and!; done || lia.
Qed.

(** A signed input: the arguments, and the redeem script [s] where the output [from]
    is the hash of one. *)
Definition signed_input (from s : bytes) (args : list valtype) : list valtype :=
  args ++ (if IsPayToScriptHash from then [s] else []).
Definition spends (from s : bytes) : Prop :=
  if IsPayToScriptHash from then le_val (take 20 (drop 2 from)) = Hash160 s /\ s <> [] /\ zlen s <= MAX_SCRIPT_ELEMENT_SIZE
  else from = s.
Definition fits (vs : list valtype) : Prop :=
  Forall (fun v => zlen v <= MAX_SCRIPT_ELEMENT_SIZE) vs /\ zlen vs <= 1000 /\ zlen (pushes vs) <= 10000.

Lemma CombineStacks_input from s args1 args2 sols res c c' : spends from s -> Solver maxdata s = (true, TX_MULTISIG, sols) ->
  CombineMultisig s tx n sols args1 args2 c = Some (pushes res, c') ->
  let '(_, t, vs) := Solver maxdata from in
  CombineStacks maxdata (S (length (signed_input from s args1))) from tx n t vs (signed_input from s args1)
    (signed_input from s args2) c = Some (pushes (signed_input from s res), c').
Proof.
  unfold spends, signed_input. intros Hsp Es Hc. destruct (IsPayToScriptHash from) eqn:Hsh.
  - destruct Hsp as (_ & Hne & _). rewrite (Solver_spec maxdata from), Hsh. cbn [CombineStacks]. rewrite !last_snoc.
    destruct s as [|b s]; [done|]. rewrite Es, !pop_back_app. rewrite length_app, Nat.add_comm.
    change (length [b :: s] + length args1)%nat with (S (length args1)). cbn [CombineStacks]. rewrite Hc. simpl.
    rewrite pushes_app, pushes_cons. unfold push_data. simpl. by rewrite app_nil_r.
  - subst from. rewrite Es, !app_nil_r. destruct args1; exact Hc.
Qed.

(** C5. Merging loses no signature: given two partially signed inputs of a multisig
    output, bare or under pay-to-script-hash, [CombineSignatures] makes one input
    that verifies as soon as the two together have a valid signature for as many
    of the keys as the output asks for (valid signatures being well encoded,
    and valid for one key each). *)
Theorem CombineSignatures_verifies now from s sols args1 args2 c : cache_ok c -> spends from s ->
  Solver maxdata s = (true, TX_MULTISIG, sols) ->
  let keys := inner_solutions sols in
  let sigs := args1 ++ args2 in
  Forall (fun pk => CheckPubKeyEncoding pk = true) keys ->
  (forall sig pk, sig ∈ sigs -> pk ∈ keys -> sig_valid sig pk s tx n 0 = true -> good_sig tx n FL s sig pk) ->
  (forall sig pk1 pk2, sig ∈ sigs -> pk1 ∈ keys -> pk2 ∈ keys ->
     sig_valid sig pk1 s tx n 0 = true -> sig_valid sig pk2 s tx n 0 = true -> pk1 = pk2) ->
  fits (signed_input from s args1) -> fits (signed_input from s args2) ->
  first_byte (head sols) <= zlen (filter (fun pk => signed_by s tx n sigs pk = true) keys) ->
  exists res c', CombineSignatures maxdata now from tx n (pushes (signed_input from s args1)) (pushes (signed_input from s args2)) c =
    Some (res, c') /\ (VerifyScript res from tx n FL 0 c').1 = true.
Proof.
  cbv zeta. intros Hc Hsp Es Hcan Hgood Hone [F1 [L1 P1]] [F2 [L2 P2]] Henough.
  destruct (Solver_multisig_inv s sols Es) as (Hpl & l & m & keys & k & Hp & Ha & -> & Hm & Hk & Hk16).
  rewrite inner_of_multisig in *. cbn [head app first_byte] in Henough. rewrite uchar_to_byte_small in Henough by lia.
  destruct (CombineMultisig_spec s tx n m k keys args1 args2 c ltac:(lia) Hc Hone) as (items & pks & c' & E & Hc' & Hs & Hf & Hn).
  rewrite Z.min_l in Hn by lia. rewrite Hn, Z.sub_diag in E. change (replicate (Z.to_nat 0) []) with (@nil valtype) in E. rewrite app_nil_r in E.
  assert (Forall2 (good_sig tx n FL s) items pks) as Hg.
  { apply (Forall2_impl_in _ _ _ _ Hf). intros item pk Hpk [Hi Hv]. apply Hgood; [done| |done].
    exact (elem_of_sublist _ _ _ Hpk Hs). }
  assert (Forall (fun v => zlen v <= 73) ([] :: items)) as H73.
  { constructor; [done|]. eapply Forall2_Forall_l; [exact Hg|]. apply Forall_true. intros pk item Hi. exact (good_size _ _ _ _ _ Hi). }
  assert (forall c, cache_ok c -> eval_good tx n FL ([] :: items) s c) as Hev.
  { intros c0 Hc0. apply (eval_multisig_any tx n FL s l m keys k items c0 []); try done; try lia. by exists pks. }
  pose proof (CombineStacks_input from s args1 args2 _ _ c c' Hsp Es E) as Hcs.
  unfold CombineSignatures. destruct (Solver maxdata from) as [[ok t] vs].
  rewrite EvalScript_pushes_eq by (done || (change (zlen (@nil valtype)) with 0; lia)).
  rewrite EvalScript_pushes_eq by (done || (change (zlen (@nil valtype)) with 0; lia)). cbn [app]. 
  eexists _, c'. split; [exact Hcs|]. unfold signed_input, spends in *. destruct (IsPayToScriptHash from) eqn:Hsh.
  - destruct Hsp as (Hid & _ & Hz). apply Verify_p2sh; try done. rewrite zlen_cons. lia.
  - subst from. rewrite app_nil_r. apply Verify_plain; try done. rewrite zlen_cons. lia.
Qed.
End merging.

(** ** Two signers of a 2-of-2 output *)
Section instance.
#[local] Existing Instances ref_bn dummy_digests signing_ec toy_env.

Definition her_key : CKey := mk_key true true (be_bytes 32 9).
Definition her_pk : CPubKey := B#2 :: be_bytes 32 9.
Definition redeem_2of2 : bytes := [B#(OP_1 + 1)] ++ pushes [my_pk; her_pk] ++ [B#(OP_1 + 1); B#OP_CHECKMULTISIG].
Definition shared_output : bytes := SetDestination (CScriptID (script_GetID redeem_2of2)).
Definition sig_by (k : CKey) : valtype :=
  default [] (PrivKey.Sign k (SignatureHash redeem_2of2 sample_tx 0 1)) ++ [B#1].

(** Which of the four pairs of a signature and a key are valid, by computation. *)
Lemma shared_sigs sig pk : sig ∈ [[]; sig_by my_key; []; sig_by her_key] -> pk ∈ [my_pk; her_pk] ->
  sig_valid sig pk redeem_2of2 sample_tx 0 0 = true -> (sig = sig_by my_key /\ pk = my_pk) \/ (sig = sig_by her_key /\ pk = her_pk).
Proof.
  rewrite !elem_of_cons, !elem_of_nil. intros Hs Hk Hv.
  destruct Hk as [->|[->|[]]], Hs as [->|[->|[->|[->|[]]]]]; 
    [|left; split; reflexivity| | | | | |right; split; reflexivity]; vm_compute in Hv; discriminate Hv.
Qed.

Lemma CombineSignatures_verifies_witness : exists res c',
  CombineSignatures 80 0 shared_output sample_tx 0 (pushes [[]; sig_by my_key; redeem_2of2])
    (pushes [[]; sig_by her_key; redeem_2of2]) empty_cache = Some (res, c') /\
  (VerifyScript res shared_output sample_tx 0 FL 0 c').1 = true.
Proof.
  apply (@CombineSignatures_verifies ref_bn ref_bn_ok dummy_digests dummy_digests_ok signing_ec toy_env 80 sample_tx 0%nat 0
    shared_output redeem_2of2 [[B#2]; my_pk; her_pk; [B#2]] [[]; sig_by my_key] [[]; sig_by her_key] empty_cache).
  - apply empty_cache_ok.
  - vm_compute. split; [reflexivity|]. split; discriminate.
  - vm_compute. reflexivity.
  - vm_compute. repeat constructor.
  - intros sig pk Hs Hk Hv. destruct (shared_sigs sig pk Hs Hk Hv) as [[-> ->]|[-> ->]];
      (split; [vm_compute; reflexivity|]; split; [vm_compute; reflexivity|]); vm_compute; split; (reflexivity || discriminate).
  - intros sig pk1 pk2 Hs Hk1 Hk2 Hv1 Hv2.
    destruct (shared_sigs sig pk1 Hs Hk1 Hv1) as [[E1 ->]|[E1 ->]], (shared_sigs sig pk2 Hs Hk2 Hv2) as [[E2 ->]|[E2 ->]];
      try reflexivity; rewrite E1 in E2; vm_compute in E2; discriminate.
  - split; [repeat constructor; vm_compute; discriminate|]. split; vm_compute; discriminate.
  - split; [repeat constructor; vm_compute; discriminate|]. split; vm_compute; discriminate.
  - vm_compute. discriminate.
Defined.
End instance.
