(* ===== verification/Block.v ===== *)
(** * Block: blocks and their Merkle tree (class CBlock of src/src/main.h) *)

From S2P Require Import Prelude BigNum Serialize Crypto Keys Core.

Record CBlock := mk_block {
  b_nVersion : Z;
  hashPrevBlock : Z;
  hashMerkleRoot : Z;
  b_nTime : Z;
  nBits : Z;
  nNonce : Z;
  vtx : list CTransaction;
  vchBlockSig : bytes;
  (** Memory only. *)
  vMerkleTree : list Z
}.

Module Block.
Definition CURRENT_VERSION : Z := 7.
Definition SetNull : CBlock := mk_block CURRENT_VERSION 0 0 0 0 0 [] [] [].
Definition IsNull (b : CBlock) : bool := nBits b =? 0.

(** The six fields of the header, as written to the wire and laid out in memory. *)
Definition put_header (b : CBlock) : bytes :=
  @put _ ser_i32 (b_nVersion b) ++ @put _ ser_uint256 (hashPrevBlock b) ++ @put _ ser_uint256 (hashMerkleRoot b) ++
  @put _ ser_u32 (b_nTime b) ++ @put _ ser_u32 (nBits b) ++ @put _ ser_u32 (nNonce b).

(** [IMPLEMENT_SERIALIZE] with neither [SER_GETHASH] nor [SER_BLOCKHEADERONLY]. *)
#[export] Instance ser_block : Ser CBlock := {|
  put b := put_header b ++ put (vtx b) ++ @put _ ser_bytes (vchBlockSig b);
  get :=
    ver ← @get _ ser_i32; prev ← @get _ ser_uint256; root ← @get _ ser_uint256;
    time ← @get _ ser_u32; bits ← @get _ ser_u32; nonce ← @get _ ser_u32;
    txs ← get; sig ← @get _ ser_bytes;
    mret (mk_block ver prev root time bits nonce txs sig []);
  GetSerializeSize b :=
    u32 (80 + GetSerializeSize (vtx b) + @GetSerializeSize _ ser_bytes (vchBlockSig b)) |}.

Section hashes.
Context `{Digests}.
(** [scrypt_blockhash] of scrypt.cpp, on the bytes of the header. *)
Variable scrypt_blockhash : bytes -> Z.

Definition GetPoWHash (b : CBlock) : Z := scrypt_blockhash (put_header b).
Definition GetHash (b : CBlock) : Z := if 6 <? b_nVersion b then Hash (put_header b) else GetPoWHash b.
Definition GetStakeEntropyBit (b : CBlock) : Z := Z.land (u64 (GetHash b)) 1.
End hashes.

Definition IsProofOfStake (b : CBlock) : bool :=
  match vtx b with _ :: tx :: _ => Tx.IsCoinStake tx | _ => false end.
Definition IsProofOfWork (b : CBlock) : bool := negb (IsProofOfStake b).

Definition GetProofOfStake (b : CBlock) : COutPoint * Z :=
  match vtx b with
  | _ :: tx :: _ =>
    if IsProofOfStake b then (match vin tx with i :: _ => prevout i | [] => OutPoint.null end, nTime tx)
    else (OutPoint.null, 0)
  | _ => (OutPoint.null, 0)
  end.

Definition GetMaxTransactionTime (b : CBlock) : Z :=
  fold_left (fun maxTransactionTime tx => Z.max maxTransactionTime (nTime tx)) (vtx b) 0.
End Block.
#[export] Existing Instance Block.ser_block.

(** ** The Merkle tree *)
Module Merkle.
Section merkle.
Context `{Digests}.

(** [Hash(BEGIN(a), END(a), BEGIN(b), END(b))] of two [uint256]s. *)
Definition hash_pair (a b : Z) : Z := Hash2 (le_bytes 32 a) (le_bytes 32 b).

(** The inner [for]: appends the parents of the level of [nSize] nodes at [j]. *)
Definition push_parents (j nSize : nat) (tree : list Z) : list Z :=
  fold_left (fun tree k =>
    let i := (2 * k)%nat in
    let i2 := Nat.min (i + 1) (nSize - 1) in
    tree ++ [hash_pair (tree !!! (j + i)%nat) (tree !!! (j + i2)%nat)])
    (seq 0 ((nSize + 1) / 2)) tree.

(** The outer [for]; the size halves, so [nSize] rounds suffice. *)
Fixpoint build_loop (fuel j nSize : nat) (tree : list Z) : list Z :=
  match fuel with
  | O => tree
  | S fuel =>
    if (1 <? nSize)%nat then build_loop fuel (j + nSize) ((nSize + 1) / 2) (push_parents j nSize tree)
    else tree
  end.

(** The root and the tree that is left in [vMerkleTree]. *)
Definition BuildMerkleTree (txids : list Z) : Z * list Z :=
  let tree := build_loop (length txids) 0 (length txids) txids in
  (default 0 (last tree), tree).

Fixpoint branch_loop (fuel j nSize : nat) (nIndex : Z) (tree : list Z) : list Z :=
  match fuel with
  | O => []
  | S fuel =>
    if (1 <? nSize)%nat then
      let i := Z.to_nat (Z.min (Z.lxor nIndex 1) (Z.of_nat nSize - 1)) in
      (tree !!! (j + i)%nat) :: branch_loop fuel (j + nSize) ((nSize + 1) / 2) (Z.shiftr nIndex 1) tree
    else []
  end.

Definition block_txids (b : CBlock) : list Z := map Tx.GetHash (vtx b).

Definition GetMerkleBranch (b : CBlock) (nIndex : Z) : list Z :=
  let tree := match vMerkleTree b with [] => (BuildMerkleTree (block_txids b)).2 | t => t end in
  branch_loop (length (vtx b)) 0 (length (vtx b)) nIndex tree.

Fixpoint check_loop (hash : Z) (vMerkleBranch : list Z) (nIndex : Z) : Z :=
  match vMerkleBranch with
  | [] => hash
  | otherside :: l =>
    check_loop (if Z.land nIndex 1 =? 0 then hash_pair hash otherside else hash_pair otherside hash) l (Z.shiftr nIndex 1)
  end.
Definition CheckMerkleBranch (hash : Z) (vMerkleBranch : list Z) (nIndex : Z) : Z :=
  if nIndex =? -1 then 0 else check_loop hash vMerkleBranch nIndex.
End merkle.
End Merkle.

(** ** Facts *)
Module BlockFacts.
Import Merkle.

(** *** The wire format *)
Definition wf_block (b : CBlock) : Prop :=
  in_s 32 (b_nVersion b) /\ in_u 256 (hashPrevBlock b) /\ in_u 256 (hashMerkleRoot b) /\
  in_u 32 (b_nTime b) /\ in_u 32 (nBits b) /\ in_u 32 (nNonce b) /\
  (zlen (vtx b) <= MAX_SIZE /\ Forall wf_tx (vtx b)) /\ zlen (vchBlockSig b) <= MAX_SIZE /\ vMerkleTree b = [].

Lemma zlen_header b : zlen (Block.put_header b) = 80.
Proof.
  unfold Block.put_header. cbn [put ser_i32 ser_uint256 ser_u32 ser_uint ser_sint].
  rewrite !zlen_app. unfold zlen. by rewrite !length_le_bytes.
Qed.

#[export] Instance ser_block_ok : SerOk CBlock wf_block.
Proof.
  split.
  - intros [ver prev root time bits nonce txs sig tree] rest (Hv & Hp & Hr & Ht & Hb & Hn & Htx & Hs & Htree).
    unfold Block.ser_block, Block.put_header; cbn [put get b_nVersion hashPrevBlock hashMerkleRoot b_nTime nBits nNonce vtx
      vchBlockSig vMerkleTree] in *. subst tree. by do 8 read_field.
  - intros b (Hv & Hp & Hr & Ht & Hb & Hn & Htx & Hs & Htree).
    cbn [put GetSerializeSize Block.ser_block]. rewrite (size_put (vtx b)) by done.
    rewrite (@size_put _ ser_bytes _ _ (vchBlockSig b)) by done.
    rewrite !zlen_app, zlen_header. unfold u32. Z.div_mod_to_equations; lia.
Qed.

(** A block written to the wire is read back unchanged (the Merkle tree, a memory-only
    cache, is empty again), and its header takes eighty bytes. *)
Theorem block_roundtrip b rest : wf_block b ->
  get (put b ++ rest) = (Some b, rest) /\ GetSerializeSize b = u32 (zlen (put b)) /\
  zlen (Block.put_header b) = 80 /\ Block.put_header b = take 80 (put b).
Proof.
  intros Hb. split; [by apply get_put|]. split; [by apply (size_put b)|]. split; [apply zlen_header|].
  cbn [put Block.ser_block]. rewrite take_app_length'; [done|].
  pose proof (zlen_header b) as Hz. unfold zlen in Hz. lia.
Qed.

Section tree.
Context `{Digests}.

(** The level above a level, and the root by levels. *)
Definition parents (l : list Z) : list Z :=
  map (fun k => hash_pair (l !!! (2 * k)%nat) (l !!! Nat.min (2 * k + 1) (length l - 1))) (seq 0 ((length l + 1) / 2)).

Fixpoint levels (fuel : nat) (l : list Z) : list Z :=
  match fuel with
  | O => l
  | S fuel => if (1 <? length l)%nat then l ++ levels fuel (parents l) else l
  end.
Fixpoint root_of (fuel : nat) (l : list Z) : Z :=
  match fuel with
  | O => default 0 (last l)
  | S fuel => if (1 <? length l)%nat then root_of fuel (parents l) else default 0 (last l)
  end.

Lemma half_lt n : (1 < n)%nat -> ((n + 1) / 2 < n)%nat.
Proof. intros Hn. apply Nat.Div0.div_lt_upper_bound. lia. Qed.

Lemma length_parents l : length (parents l) = ((length l + 1) / 2)%nat.
Proof. unfold parents. by rewrite length_map, length_seq. Qed.

Lemma lookup_total_level (pre l post : list Z) i : (i < length l)%nat ->
  (pre ++ l ++ post) !!! (length pre + i)%nat = l !!! i.
Proof.
  intros Hi. rewrite lookup_total_app_r by lia. replace (length pre + i - length pre)%nat with i by lia.
  by rewrite lookup_total_app_l.
Qed.

(** The inner loop appends the parents. *)
Lemma push_parents_eq pre l : push_parents (length pre) (length l) (pre ++ l) = pre ++ l ++ parents l.
Proof.
  unfold push_parents, parents. set (n := ((length l + 1) / 2)%nat).
  assert (forall k, (k < n)%nat -> (2 * k < length l)%nat) as Hn.
  { intros k Hk. unfold n in Hk.
    pose proof (Nat.div_mod_eq (length l + 1) 2). pose proof (Nat.mod_upper_bound (length l + 1) 2 ltac:(lia)). lia. }
  set (f := fun k => hash_pair (l !!! (2 * k)%nat) (l !!! Nat.min (2 * k + 1) (length l - 1))).
  assert (forall ks post, Forall (fun k => k < n)%nat ks ->
    fold_left (fun tree k => tree ++ [hash_pair (tree !!! (length pre + 2 * k)%nat)
      (tree !!! (length pre + Nat.min (2 * k + 1) (length l - 1))%nat)]) ks (pre ++ l ++ post) =
    pre ++ l ++ post ++ map f ks) as Hf.
  { induction ks as [|k ks IH]; intros post Hk; [by rewrite app_nil_r|].
    apply Forall_cons in Hk as [Hk Hks]. cbn [fold_left map]. pose proof (Hn k Hk).
    rewrite !lookup_total_level by lia.
    replace ((pre ++ l ++ post) ++ [hash_pair (l !!! (2 * k)%nat) (l !!! Nat.min (2 * k + 1) (length l - 1))])
      with (pre ++ l ++ (post ++ [f k])) by (by rewrite <- !app_assoc).
    rewrite IH by done. by rewrite <- app_assoc. }
  specialize (Hf (seq 0 n) []). rewrite !app_nil_r in Hf. apply Hf.
  apply Forall_forall. intros k Hk. apply elem_of_seq in Hk. lia.
Qed.

Lemma build_loop_eq fuel pre l : (length l <= fuel)%nat ->
  build_loop fuel (length pre) (length l) (pre ++ l) = pre ++ levels fuel l.
Proof.
  revert pre l. induction fuel as [|fuel IH]; intros pre l Hf; [done|]. cbn [build_loop levels].
  destruct (Nat.ltb_spec 1 (length l)) as [Hl|Hl]; [|done].
  rewrite push_parents_eq, app_assoc. rewrite <- length_parents, <- length_app.
  rewrite IH; [by rewrite <- app_assoc|]. rewrite length_parents. pose proof (half_lt (length l) Hl). lia.
Qed.

Lemma last_levels fuel l : (length l <= fuel)%nat -> l <> [] -> default 0 (last (levels fuel l)) = root_of fuel l.
Proof.
  revert l. induction fuel as [|fuel IH]; intros l Hf Hne; [done|]. cbn [levels root_of].
  destruct (Nat.ltb_spec 1 (length l)) as [Hl|Hl]; [|done]. pose proof (half_lt (length l) Hl).
  assert (parents l <> []) as Hp.
  { intros E. apply (f_equal length) in E. rewrite length_parents in E. change (length (@nil Z)) with 0%nat in E.
    apply Nat.div_small_iff in E; lia. }
  rewrite <- IH by (rewrite ?length_parents; done || lia).
  rewrite last_app. destruct (last (levels fuel (parents l))) eqn:E; [done|].
  apply last_None in E. destruct fuel; simpl in E; [done|]. case_match; [|done].
  by apply app_eq_nil in E as [? _].
Qed.

(** *** Branches *)
Fixpoint branch_of (fuel : nat) (l : list Z) (nIndex : Z) : list Z :=
  match fuel with
  | O => []
  | S fuel =>
    if (1 <? length l)%nat
    then (l !!! Z.to_nat (Z.min (Z.lxor nIndex 1) (Z.of_nat (length l) - 1))) :: branch_of fuel (parents l) (Z.shiftr nIndex 1)
    else []
  end.

Lemma branch_loop_eq fuel pre l nIndex : (length l <= fuel)%nat -> 0 <= nIndex ->
  branch_loop fuel (length pre) (length l) nIndex (pre ++ levels fuel l) = branch_of fuel l nIndex.
Proof.
  revert pre l nIndex. induction fuel as [|fuel IH]; intros pre l nIndex Hf Hi; [done|].
  cbn [branch_loop branch_of levels]. destruct (Nat.ltb_spec 1 (length l)) as [Hl|Hl]; [|done].
  pose proof (half_lt (length l) Hl). f_equal.
  - apply lookup_total_level. assert (0 <= Z.lxor nIndex 1) by (by apply Z.lxor_nonneg). lia.
  - rewrite app_assoc, <- length_app, <- length_parents. apply IH; [rewrite length_parents; lia|].
    by apply Z.shiftr_nonneg.
Qed.

(** A position, its parent and its sibling. *)
Lemma position (i : nat) : exists (q : nat) (b : bool), i = (2 * q + Nat.b2n b)%nat.
Proof.
  exists (i / 2)%nat, (negb (i mod 2 =? 0)%nat).
  pose proof (Nat.div_mod_eq i 2). pose proof (Nat.mod_upper_bound i 2 ltac:(lia)).
  destruct (Nat.eqb_spec (i mod 2) 0); cbn [negb Nat.b2n]; lia.
Qed.

Lemma position_parts (q : nat) (b : bool) : let i := (2 * q + Nat.b2n b)%nat in
  Z.shiftr (Z.of_nat i) 1 = Z.of_nat q /\ (Z.land (Z.of_nat i) 1 =? 0) = negb b /\
  Z.lxor (Z.of_nat i) 1 = Z.of_nat (2 * q + Nat.b2n (negb b)).
Proof.
  cbv zeta. assert (Z.of_nat (2 * q + Nat.b2n b) = 2 * Z.of_nat q + Z.b2z b) as -> by (destruct b; simpl; lia).
  split; [|split].
  - rewrite Z.shiftr_div_pow2 by lia. change (2 ^ 1) with 2.
    symmetry. apply Z.div_unique with (r := Z.b2z b); destruct b; simpl Z.b2z; lia.
  - destruct b, q; done.
  - assert (Z.lxor (2 * Z.of_nat q + Z.b2z b) 1 = 2 * Z.of_nat q + Z.b2z (negb b)) as ->.
    { pose proof (Nat2Z.is_nonneg q). destruct b; simpl Z.b2z; destruct (Z.of_nat q); done || lia. }
    destruct b; simpl; lia.
Qed.

Lemma parents_lookup l q (b : bool) : (2 * q + Nat.b2n b < length l)%nat ->
  parents l !!! q =
    let other := l !!! Nat.min (2 * q + Nat.b2n (negb b)) (length l - 1) in
    if b then hash_pair other (l !!! (2 * q + Nat.b2n b)%nat) else hash_pair (l !!! (2 * q + Nat.b2n b)%nat) other.
Proof.
  intros Hi. assert (q < (length l + 1) / 2)%nat as Hq.
  { apply Nat.div_le_lower_bound; lia. }
  unfold parents. rewrite list_lookup_total_alt, list_lookup_fmap, lookup_seq_lt by done. cbn [fmap option_fmap option_map default].
  destruct b; cbn [negb Nat.b2n] in *.
  - rewrite Nat.add_0_r, (Nat.min_l (2 * q)), (Nat.min_l (2 * q + 1)) by lia. done.
  - by rewrite Nat.add_0_r.
Qed.

(** The branch of a leaf leads back to the root. *)
Lemma check_branch fuel l (i : nat) : (length l <= fuel)%nat -> (i < length l)%nat ->
  check_loop (l !!! i) (branch_of fuel l (Z.of_nat i)) (Z.of_nat i) = root_of fuel l.
Proof.
  revert l i. induction fuel as [|fuel IH]; intros l i Hf Hi; [lia|]. cbn [branch_of root_of].
  destruct (Nat.ltb_spec 1 (length l)) as [Hl|Hl].
  - destruct (position i) as (q & b & ->). destruct (position_parts q b) as (E1 & E2 & E3). cbv zeta in *.
    cbn [check_loop]. rewrite E1, E2, E3. pose proof (half_lt (length l) Hl).
    assert (Z.to_nat (Z.min (Z.of_nat (2 * q + Nat.b2n (negb b))) (Z.of_nat (length l) - 1)) =
      Nat.min (2 * q + Nat.b2n (negb b)) (length l - 1)) as -> by lia.
    rewrite <- IH with (i := q).
    + rewrite (parents_lookup l q b) by lia. by destruct b.
    + rewrite length_parents. lia.
    + rewrite length_parents. apply Nat.div_le_lower_bound; lia.
  - destruct l as [|x [|y l]]; simpl in *; try lia. by assert (i = 0)%nat as -> by lia.
Qed.
End tree.

Section block.
Context `{Digests}.

Lemma BuildMerkleTree_eq txids : BuildMerkleTree txids =
  (match txids with [] => 0 | _ => root_of (length txids) txids end, levels (length txids) txids).
Proof.
  unfold BuildMerkleTree. pose proof (build_loop_eq (length txids) [] txids ltac:(lia)) as E. simpl in E. rewrite E.
  f_equal. destruct txids as [|x l]; [done|]. by apply last_levels.
Qed.

(** The branch of every transaction of a block connects it to the Merkle root: folding
    it into the transaction's hash gives what [BuildMerkleTree] computes. *)
Theorem merkle_branch_verifies b (i : nat) tx : vtx b !! i = Some tx ->
  vMerkleTree b = [] \/ vMerkleTree b = (BuildMerkleTree (block_txids b)).2 ->
  CheckMerkleBranch (Tx.GetHash tx) (GetMerkleBranch b (Z.of_nat i)) (Z.of_nat i) =
    (BuildMerkleTree (block_txids b)).1.
Proof.
  intros Hi Ht. unfold CheckMerkleBranch, GetMerkleBranch. destruct (Z.eqb_spec (Z.of_nat i) (-1)); [lia|].
  set (ids := block_txids b). assert (length (vtx b) = length ids) as El by (unfold ids, block_txids; by rewrite length_map).
  assert (match vMerkleTree b with [] => (BuildMerkleTree ids).2 | t => t end = levels (length ids) ids) as ->.
  { destruct Ht as [-> | ->]; fold ids; rewrite BuildMerkleTree_eq; simpl; [done|]. by destruct (levels _ _). }
  rewrite El, BuildMerkleTree_eq. pose proof (lookup_lt_Some _ _ _ Hi) as Hlt.
  pose proof (branch_loop_eq (length ids) [] ids (Z.of_nat i) ltac:(lia) ltac:(lia)) as Eb. simpl in Eb. rewrite Eb.
  assert (ids !!! i = Tx.GetHash tx) as <-.
  { unfold ids, block_txids. rewrite list_lookup_total_alt, list_lookup_fmap, Hi. done. }
  rewrite check_branch by lia. destruct ids; [simpl in El; lia|done].
Qed.

(** *** The root commits to the transactions *)

(** What the node over positions [2k] and [2k+1] hashes. *)
Definition message (l : list Z) (k : nat) : bytes :=
  le_bytes 32 (l !!! (2 * k)%nat) ++ le_bytes 32 (l !!! Nat.min (2 * k + 1) (length l - 1)).
Fixpoint find_pair (ks : list nat) (l l' : list Z) : option (bytes * bytes) :=
  match ks with
  | [] => None
  | k :: ks => if decide (message l k = message l' k) then find_pair ks l l' else Some (message l k, message l' k)
  end.
(** Two lists of leaves with one root: searches the levels for two messages with one hash. *)
Fixpoint find_collision (fuel : nat) (l l' : list Z) : option (bytes * bytes) :=
  match fuel with
  | O => None
  | S fuel =>
    if decide (parents l = parents l') then find_pair (seq 0 ((length l + 1) / 2)) l l'
    else find_collision fuel (parents l) (parents l')
  end.

Definition collides (o : option (bytes * bytes)) : Prop :=
  match o with Some (m, m') => m <> m' /\ Hash m = Hash m' | None => False end.

Lemma parents_at l k : (k < (length l + 1) / 2)%nat -> parents l !!! k = Hash (message l k).
Proof.
  intros Hk. unfold parents, message. rewrite list_lookup_total_alt, list_lookup_fmap, lookup_seq_lt by done.
  done.
Qed.

Lemma find_pair_spec ks l l' : length l = length l' -> parents l = parents l' ->
  Forall (fun k => k < (length l + 1) / 2)%nat ks ->
  match find_pair ks l l' with
  | Some _ => collides (find_pair ks l l')
  | None => Forall (fun k => message l k = message l' k) ks
  end.
Proof.
  intros Hl Hp Hk. induction Hk as [|k ks Hlt _ IH]; cbn [find_pair]; [done|].
  destruct (decide (message l k = message l' k)) as [E|E].
  - destruct (find_pair ks l l'); [done|]. by constructor.
  - split; [done|]. rewrite <- !parents_at by (rewrite <- ?Hl; done). by rewrite Hp.
Qed.

Lemma message_inj l l' k : Forall (in_u 256) l -> Forall (in_u 256) l' -> length l = length l' ->
  (2 * k < length l)%nat -> message l k = message l' k ->
  l !!! (2 * k)%nat = l' !!! (2 * k)%nat /\
  l !!! Nat.min (2 * k + 1) (length l - 1) = l' !!! Nat.min (2 * k + 1) (length l - 1).
Proof.
  intros Fl Fl' Hl Hk E. unfold message in E. rewrite <- Hl in E.
  assert (forall j, (j < length l)%nat -> in_u 256 (l !!! j) /\ in_u 256 (l' !!! j)) as Hr.
  { intros j Hj. split; (eapply Forall_lookup_total_1; [done|lia]). }
  apply app_inj_1 in E as [E1 E2]; [|by rewrite !length_le_bytes].
  destruct (Hr (2 * k)%nat ltac:(lia)) as [Ra Rb].
  destruct (Hr (Nat.min (2 * k + 1) (length l - 1)) ltac:(lia)) as [Rc Rd]. unfold in_u in *.
  split; [apply (f_equal le_val) in E1|apply (f_equal le_val) in E2]; rewrite !le_val_bytes in * by lia; done.
Qed.

Lemma parents_determine l l' : Forall (in_u 256) l -> Forall (in_u 256) l' -> length l = length l' ->
  Forall (fun k => message l k = message l' k) (seq 0 ((length l + 1) / 2)) -> l = l'.
Proof.
  intros Fl Fl' Hl Hm. apply list_eq_same_length with (n := length l); [done|done|].
  intros i x y Hi Ex Ey. apply list_lookup_total_correct in Ex, Ey.
  destruct (position i) as (q & b & ->).
  assert (q < (length l + 1) / 2)%nat as Hq by (apply Nat.div_le_lower_bound; lia).
  rewrite Forall_forall in Hm. specialize (Hm q ltac:(apply elem_of_seq; lia)).
  destruct (message_inj l l' q Fl Fl' Hl ltac:(lia) Hm) as [E1 E2]. destruct b; cbn [Nat.b2n] in *.
  - rewrite Nat.min_l in E2 by lia. congruence.
  - rewrite Nat.add_0_r in *. congruence.
Qed.

Lemma parents_range `{!DigestsOk} l : Forall (in_u 256) (parents l).
Proof.
  apply Forall_forall. intros x Hx. apply list_elem_of_fmap in Hx as (k & -> & _). apply Hash_range.
Qed.

Lemma find_collision_spec `{!DigestsOk} fuel l l' : (length l <= S fuel)%nat ->
  Forall (in_u 256) l -> Forall (in_u 256) l' -> length l = length l' -> l <> l' ->
  root_of (S fuel) l = root_of (S fuel) l' -> collides (find_collision (S fuel) l l').
Proof.
  revert l l'. induction fuel as [|fuel IH]; intros l l' Hf Fl Fl' Hl Hne Hr.
  - destruct l as [|x [|]], l' as [|y [|]]; simpl in *; try lia; done || congruence.
  - cbn [find_collision]. destruct (decide (parents l = parents l')) as [Hp|Hp].
    + pose proof (find_pair_spec (seq 0 ((length l + 1) / 2)) l l' Hl Hp) as Hs.
      destruct (find_pair _ l l') as [[m m']|].
      * apply Hs. apply Forall_forall. intros k Hk. apply elem_of_seq in Hk. lia.
      * destruct Hne. apply parents_determine; [done|done|done|]. apply Hs.
        apply Forall_forall. intros k Hk. apply elem_of_seq in Hk. lia.
    + remember (S fuel) as f eqn:Ef. cbn [root_of] in Hr. rewrite <- Hl in Hr.
      destruct (Nat.ltb_spec 1 (length l)) as [H1|H1].
      * pose proof (half_lt (length l) H1). subst f. apply IH; try apply parents_range; try done.
        -- rewrite length_parents. lia.
        -- by rewrite !length_parents, Hl.
      * destruct l as [|x [|]], l' as [|y [|]]; simpl in *; try lia; done || congruence.
Qed.

(** C36. The Merkle root commits to the transactions: from two different lists of the same
    length with the same root, a search through their trees yields two different
    messages with the same double SHA-256 hash. *)
Theorem merkle_root_commits `{!DigestsOk} b b' : length (vtx b) = length (vtx b') ->
  block_txids b <> block_txids b' ->
  (BuildMerkleTree (block_txids b)).1 = (BuildMerkleTree (block_txids b')).1 ->
  exists m m', find_collision (length (vtx b)) (block_txids b) (block_txids b') = Some (m, m') /\
    m <> m' /\ Hash m = Hash m'.
Proof.
  intros Hl Hne Hr. set (ids := block_txids b) in *. set (ids' := block_txids b') in *.
  assert (length ids = length (vtx b) /\ length ids' = length (vtx b')) as [E E']
    by (unfold ids, ids', block_txids; by rewrite !length_map).
  assert (forall b0, Forall (in_u 256) (block_txids b0)) as HF.
  { intros b0. apply Forall_forall. intros x Hx. apply list_elem_of_fmap in Hx as (t & -> & _). apply Hash_range. }
  destruct (length (vtx b)) as [|f] eqn:Ef.
  { apply nil_length_inv in E. rewrite <- Hl in E'. apply nil_length_inv in E'. congruence. }
  assert (root_of (S f) ids = root_of (S f) ids') as Hroot.
  { rewrite !BuildMerkleTree_eq in Hr. destruct ids as [|x ids]; [done|]. destruct ids' as [|x' ids']; [simpl in E'; lia|].
    rewrite E, E', <- Hl in Hr. exact Hr. }
  pose proof (find_collision_spec f ids ids' ltac:(lia) (HF b) (HF b') ltac:(lia) Hne Hroot) as Hc.
  destruct (find_collision (S f) ids ids') as [[m m']|]; [|done]. exists m, m'. done.
Qed.
End block.

Definition sample_block (txs : list CTransaction) : CBlock :=
  mk_block Block.CURRENT_VERSION 0 0 1500000000 0x1d00ffff 0 txs [] [].
Definition timed_tx (time : Z) : CTransaction :=
  mk_tx 1 time (vin sample_tx) (vout sample_tx) (nLockTime sample_tx).

Lemma block_roundtrip_witness :
  let b := sample_block [sample_tx] in
  @get _ Block.ser_block (@put _ Block.ser_block b ++ [B#7]) = (Some b, [B#7]).
Proof.
  cbv zeta. apply (block_roundtrip (sample_block [sample_tx]) [B#7]). unfold wf_block, in_u, in_s, sample_block.
  cbn [b_nVersion hashPrevBlock hashMerkleRoot b_nTime nBits nNonce vtx vchBlockSig vMerkleTree].
  unfold Block.CURRENT_VERSION. split; [lia|]. do 5 (split; [lia|]).
  split; [split; [vm_compute; discriminate|constructor; [apply sample_tx_wf|constructor]]|].
  split; [vm_compute; discriminate|reflexivity].
Defined.

Lemma merkle_branch_verifies_witness :
  let b := sample_block [timed_tx 1; timed_tx 2; timed_tx 3] in
  @CheckMerkleBranch dummy_digests (@Tx.GetHash dummy_digests (timed_tx 3)) (@GetMerkleBranch dummy_digests b 2) 2 =
    (@BuildMerkleTree dummy_digests (@block_txids dummy_digests b)).1.
Proof.
  cbv zeta.
  apply (@merkle_branch_verifies dummy_digests (sample_block [timed_tx 1; timed_tx 2; timed_tx 3]) 2 (timed_tx 3)).
  - reflexivity.
  - left. reflexivity.
Defined.

(** The toy digest keeps only the first half of a 64-byte message, so it collides. *)
Lemma merkle_root_commits_witness :
  exists m m', m <> m' /\ @Hash dummy_digests m = @Hash dummy_digests m'.
Proof.
  destruct (@merkle_root_commits dummy_digests dummy_digests_ok
    (sample_block [timed_tx 1; timed_tx 2]) (sample_block [timed_tx 1; timed_tx 3])) as (m & m' & _ & Hne & Hm).
  - reflexivity.
  - intros E. vm_compute in E. discriminate E.
  - vm_compute. reflexivity.
  - exists m, m'. split; [exact Hne|exact Hm].
Defined.
End BlockFacts.
