(* ===== verification/Mempool.v ===== *)
(** * Mempool: the pool of unconfirmed transactions (src/src/txmempool.cpp, txmempool.h)

    A [CInPoint] points into a node of [mapTx]; nodes of a [std::map] do not
    move, so the pointer is the key of the node.  Following a pointer to a node
    that is gone would be a dangling pointer: the model has no result then, and
    the theorems show that this does not happen. *)

From stdpp Require Import sorting.
From S2P Require Import Prelude BigNum Serialize Crypto Keys Core.

Record CTxMemPool := mk_pool {
  mapTx : gmap Z CTransaction;
  mapNextTx : gmap COutPoint (Z * nat);
  nTransactionsUpdated : Z
}.

Module Pool.
Section pool.
Context `{Digests}.

Definition empty_pool : CTxMemPool := mk_pool ∅ ∅ 0.
Definition touch (p : CTxMemPool) : CTxMemPool :=
  mk_pool (mapTx p) (mapNextTx p) (u32 (nTransactionsUpdated p + 1)).
Definition GetTransactionsUpdated (p : CTxMemPool) : Z := nTransactionsUpdated p.
Definition AddTransactionsUpdated (n : Z) (p : CTxMemPool) : CTxMemPool :=
  mk_pool (mapTx p) (mapNextTx p) (u32 (nTransactionsUpdated p + n)).

(** The loop that records which input spends what. *)
Fixpoint link_inputs (hash : Z) (i : nat) (l : list CTxIn) (m : gmap COutPoint (Z * nat)) : gmap COutPoint (Z * nat) :=
  match l with
  | [] => m
  | txin :: l => link_inputs hash (S i) l (<[prevout txin := (hash, i)]> m)
  end.

Definition addUnchecked (hash : Z) (tx : CTransaction) (p : CTxMemPool) : CTxMemPool :=
  touch (mk_pool (<[hash := tx]> (mapTx p)) (link_inputs hash 0 (vin tx) (mapNextTx p)) (nTransactionsUpdated p)).

Definition unlink_inputs (l : list CTxIn) (m : gmap COutPoint (Z * nat)) : gmap COutPoint (Z * nat) :=
  fold_left (fun m txin => delete (prevout txin) m) l m.

(** The recursive part of [remove]: every output that a pool transaction spends. *)
Fixpoint remove_spenders (rm : CTransaction -> CTxMemPool -> option CTxMemPool) (hash : Z) (l : list nat) (p : CTxMemPool) :
    option CTxMemPool :=
  match l with
  | [] => Some p
  | i :: l =>
    match mapNextTx p !! mk_outpoint hash (Z.of_nat i) with
    | None => remove_spenders rm hash l p
    | Some (ptx, _) =>
      tx ← mapTx p !! ptx;
      p ← rm tx p;
      remove_spenders rm hash l p
    end
  end.

(** [fuel] bounds the depth of the recursion; [None] when it runs out or a pointer dangles. *)
Fixpoint remove (fuel : nat) (fRecursive : bool) (tx : CTransaction) (p : CTxMemPool) : option CTxMemPool :=
  match fuel with
  | O => None
  | S fuel =>
    let hash := Tx.GetHash tx in
    match mapTx p !! hash with
    | None => Some p
    | Some _ =>
      p ← (if fRecursive then remove_spenders (remove fuel true) hash (seq 0 (length (vout tx))) p else Some p);
      Some (touch (mk_pool (delete hash (mapTx p)) (unlink_inputs (vin tx) (mapNextTx p)) (nTransactionsUpdated p)))
    end
  end.

(** The loop of [removeConflicts] over the inputs of [tx]. *)
Fixpoint remove_conflicts (fuel : nat) (tx : CTransaction) (l : list CTxIn) (p : CTxMemPool) : option CTxMemPool :=
  match l with
  | [] => Some p
  | txin :: l =>
    match mapNextTx p !! prevout txin with
    | None => remove_conflicts fuel tx l p
    | Some (ptx, _) =>
      txConflict ← mapTx p !! ptx;
      p ← (if decide (txConflict = tx) then Some p else remove fuel true txConflict p);
      remove_conflicts fuel tx l p
    end
  end.
Definition removeConflicts (fuel : nat) (tx : CTransaction) (p : CTxMemPool) : option CTxMemPool :=
  remove_conflicts fuel tx (vin tx) p.

Definition clear (p : CTxMemPool) : CTxMemPool := touch (mk_pool ∅ ∅ (nTransactionsUpdated p)).

(** The keys in the order of the map. *)
Definition queryHashes (p : CTxMemPool) : list Z := merge_sort Z.le (map fst (map_to_list (mapTx p))).
Definition size (p : CTxMemPool) : Z := Z.of_nat (base.size (mapTx p)).
Definition exists_ (hash : Z) (p : CTxMemPool) : bool := bool_decide (is_Some (mapTx p !! hash)).
Definition lookup_ (hash : Z) (p : CTxMemPool) : option CTransaction := mapTx p !! hash.
End pool.
End Pool.

(** ** Facts *)
Module MempoolFacts.
Import Pool.
Section facts.
Context `{Digests}.

(** The two maps agree: transactions are stored under their hash, and [mapNextTx] holds
    exactly the outputs spent by pool transactions. *)
Record linked (p : CTxMemPool) : Prop := {
  linked_hash h t : mapTx p !! h = Some t -> Tx.GetHash t = h;
  linked_next o h i : mapNextTx p !! o = Some (h, i) <->
    exists t inp, mapTx p !! h = Some t /\ vin t !! i = Some inp /\ prevout inp = o
}.

Lemma linked_empty : linked empty_pool.
Proof.
  split.
  - intros h t. simpl. by rewrite lookup_empty.
  - intros o h i. simpl. rewrite lookup_empty. split; [done|]. intros (t & inp & E & _). by rewrite lookup_empty in E.
Qed.

Lemma link_inputs_lookup hash i l m o : NoDup (map prevout l) -> (forall inp, inp ∈ l -> m !! prevout inp = None) ->
  forall h j, link_inputs hash i l m !! o = Some (h, j) <->
    m !! o = Some (h, j) \/ h = hash /\ exists k inp, j = (i + k)%nat /\ l !! k = Some inp /\ prevout inp = o.
Proof.
  revert i m. induction l as [|inp l IH]; intros i m Hnd Hm h j; cbn [link_inputs].
  { split; [by left|]. intros [?|(_ & k & inp & _ & E & _)]; done. }
  cbn [map] in Hnd. apply NoDup_cons in Hnd as [Hni Hnd].
  rewrite IH; [|done|].
  2:{ intros inp' Hin. rewrite lookup_insert_ne; [apply Hm; by right|].
      intros E. apply Hni. rewrite E. by apply list_elem_of_fmap_2. }
  destruct (decide (o = prevout inp)) as [->|Ho].
  - rewrite lookup_insert_eq, (Hm inp) by (by left). split.
    + intros [[= <- <-]|(-> & k & inp' & -> & Hl & E)]; right; split; try done.
      * exists 0%nat, inp. split; [lia|done].
      * exists (S k), inp'. split; [lia|done].
    + intros [?|(-> & k & inp' & -> & Hl & E)]; [done|]. destruct k as [|k].
      * left. by rewrite Nat.add_0_r.
      * right. split; [done|]. exists k, inp'. split; [lia|done].
  - rewrite lookup_insert_ne by done. split.
    + intros [?|(-> & k & inp' & -> & Hl & E)]; [by left|]. right. split; [done|].
      exists (S k), inp'. split; [lia|done].
    + intros [?|(-> & k & inp' & -> & Hl & E)]; [by left|]. destruct k as [|k].
      * simpl in Hl. congruence.
      * right. split; [done|]. exists k, inp'. split; [lia|done].
Qed.

Lemma addUnchecked_linked p tx : linked p -> mapTx p !! Tx.GetHash tx = None -> NoDup (map prevout (vin tx)) ->
  (forall inp, inp ∈ vin tx -> mapNextTx p !! prevout inp = None) -> linked (addUnchecked (Tx.GetHash tx) tx p).
Proof.
  intros [Hh Hn] Hnew Hnd Hfree. split; cbn [addUnchecked touch mapTx mapNextTx].
  - intros h t [[<- <-]|[_ E]]%lookup_insert_Some; [done|by apply Hh].
  - intros o h i. rewrite link_inputs_lookup by done. rewrite Hn. split.
    + intros [(t & inp & Et & Ei & Eo)|(-> & k & inp & -> & Ei & Eo)].
      * exists t, inp. rewrite lookup_insert_ne by congruence. done.
      * exists tx, inp. by rewrite lookup_insert_eq.
    + intros (t & inp & [[<- <-]|[Hne Et]]%lookup_insert_Some & Ei & Eo).
      * right. split; [done|]. by exists i, inp.
      * left. by exists t, inp.
Qed.
(** [h'] spends an output of [h]; [descends h h'] is its reflexive and transitive closure. *)
Definition spends (p : CTxMemPool) (h h' : Z) : Prop :=
  exists t inp, mapTx p !! h' = Some t /\ inp ∈ vin t /\ o_hash (prevout inp) = h.
Definition descends (p : CTxMemPool) : Z -> Z -> Prop := rtc (spends p).

(** The pool spends only outputs that its transactions have. *)
Definition outputs_exist (p : CTxMemPool) : Prop :=
  forall o h i t, mapNextTx p !! o = Some (h, i) -> mapTx p !! o_hash o = Some t ->
    exists k, (k < length (vout t))%nat /\ o_n o = Z.of_nat k.

(** [q] is [p] without the transactions in [R]. *)
Definition without (R : Z -> Prop) (p q : CTxMemPool) : Prop :=
  linked q /\ (forall h t, mapTx q !! h = Some t <-> mapTx p !! h = Some t /\ ~ R h) /\
  forall h t, mapTx p !! h = Some t -> R h \/ mapTx q !! h = Some t.
Definition closed_set (p : CTxMemPool) (R : Z -> Prop) : Prop :=
  forall h h', R h -> spends p h h' -> R h'.

Lemma without_spends R p q h h' : without R p q -> spends q h h' <-> spends p h h' /\ ~ R h'.
Proof.
  intros (_ & Hq & _). split.
  - intros (t & inp & Et & Hi & E). apply Hq in Et as [Et Hr]. split; [|done]. by exists t, inp.
  - intros [(t & inp & Et & Hi & E) Hr]. exists t, inp. split; [by apply Hq|done].
Qed.

Lemma without_outputs R p q : without R p q -> linked p -> outputs_exist p -> outputs_exist q.
Proof.
  intros (Lq & Hq & _) Lp Ho o h i t En Et. apply (linked_next q Lq) in En as (t' & inp & Et' & Ei & E).
  apply Hq in Et as [Et _]. apply Hq in Et' as [Et' _].
  apply (Ho o h i t); [|done]. apply (linked_next p Lp). by exists t', inp.
Qed.

Lemma closed_descends p R h h' : closed_set p R -> R h -> descends p h h' -> R h'.
Proof. intros Hc Hr Hd. induction Hd as [|x y z Hxy _ IH]; [done|]. apply IH. by apply (Hc x). Qed.

Lemma without_descends_sub R p q h h' : without R p q -> descends q h h' -> descends p h h'.
Proof.
  intros Hw Hd. induction Hd as [|x y z Hxy Hyz IH]; [done|]. apply rtc_l with y; [|done].
  by apply (without_spends R p q x y Hw) in Hxy as [? _].
Qed.

(** Descendants that are left can be reached without passing through what is gone. *)
Lemma without_descends R p q h h' : without R p q -> closed_set p R -> ~ R h' ->
  descends p h h' -> descends q h h'.
Proof.
  intros Hw Hc Hr Hd. induction Hd as [|x y z Hxy Hyz IH]; [done|]. apply rtc_l with y; [|by apply IH].
  apply (without_spends R p q x y Hw). split; [done|]. intros Hy. apply Hr. by apply (closed_descends p R y z).
Qed.

Lemma closed_union p R h : closed_set p R -> closed_set p (fun x => R x \/ descends p h x).
Proof. intros Hc x y [Hx|Hx] Hs; [left; by apply (Hc x)|right; by apply rtc_r with x]. Qed.

Lemma without_trans R p q q' h : without R p q -> closed_set p R ->
  without (descends q h) q q' -> without (fun x => R x \/ descends p h x) p q'.
Proof.
  intros Hw Hc (Lq' & Hq' & Hl'). pose proof Hw as (_ & Hq & Hl). split; [done|]. split.
  - intros x t. rewrite Hq', Hq. split.
    + intros [[Ex Hr] Hd]. split; [done|]. intros [?|Hd']; [done|]. by apply Hd, (without_descends R p q h x).
    + intros [Ex Hn]. split; [split; [done|by auto]|]. intros Hd. apply Hn. right.
      by apply (without_descends_sub R p q).
  - intros x t Ex. destruct (Hl x t Ex) as [Hr|Eq]; [by left; left|].
    destruct (Hl' x t Eq) as [Hd|Eq']; [|by right]. left. right. by apply (without_descends_sub R p q).
Qed.

Lemma unlink_inputs_lookup l m o x : unlink_inputs l m !! o = Some x <-> m !! o = Some x /\ o ∉ map prevout l.
Proof.
  unfold unlink_inputs. revert m. induction l as [|inp l IH]; intros m; cbn [fold_left map].
  { split; [|by intros [? _]]. intros ?. split; [done|]. apply not_elem_of_nil. }
  rewrite IH, lookup_delete_Some, not_elem_of_cons. naive_solver.
Qed.

(** The last part of [remove]: take a transaction nobody spends from out of both maps. *)
Definition take_out (hash : Z) (tx : CTransaction) (p : CTxMemPool) : CTxMemPool :=
  touch (mk_pool (delete hash (mapTx p)) (unlink_inputs (vin tx) (mapNextTx p)) (nTransactionsUpdated p)).

Lemma take_out_without p tx : linked p -> mapTx p !! Tx.GetHash tx = Some tx ->
  without (fun x => x = Tx.GetHash tx) p (take_out (Tx.GetHash tx) tx p).
Proof.
  intros Lp Et. pose proof Lp as [Hh Hn].
  assert (forall h t, mapTx (take_out (Tx.GetHash tx) tx p) !! h = Some t <-> mapTx p !! h = Some t /\ h <> Tx.GetHash tx) as Hq.
  { intros h t. cbn [take_out touch mapTx]. rewrite lookup_delete_Some. naive_solver. }
  split; [|split; [exact Hq|]].
  2:{ intros h t E. destruct (decide (h = Tx.GetHash tx)) as [?|?]; [by left|right; by apply Hq]. }
  split.
  - intros h t E. apply Hq in E as [E _]. by apply Hh.
  - intros o h i. cbn [take_out touch mapNextTx]. rewrite unlink_inputs_lookup, Hn. split.
    + intros [(t & inp & E & Ei & Eo) Hno]. exists t, inp. split; [|done]. apply Hq. split; [done|].
      intros ->. apply Hno. simplify_eq. apply list_elem_of_fmap_2. by apply list_elem_of_lookup_2 in Ei.
    + intros (t & inp & E & Ei & Eo). apply Hq in E as [E Hne]. split; [by exists t, inp|].
      intros Hin. apply list_elem_of_fmap in Hin as (inp' & Eo' & (j & Hj)%list_elem_of_lookup_1).
      assert (mapNextTx p !! o = Some (h, i)) as E1 by (apply Hn; by exists t, inp).
      assert (mapNextTx p !! o = Some (Tx.GetHash tx, j)) as E2 by (apply Hn; by exists tx, inp'). congruence.
Qed.
(** Spenders come later: [rank] is the height of the tree of descendants. *)
Definition ranked (rank : Z -> nat) (p : CTxMemPool) : Prop :=
  forall h h', spends p h h' -> (rank h' < rank h)%nat.

Lemma without_ranked rank R p q : without R p q -> ranked rank p -> ranked rank q.
Proof. intros Hw Hr h h' Hs. apply Hr. by apply (without_spends R p q h h' Hw) in Hs as [? _]. Qed.

Lemma ranked_descends rank p h h' : ranked rank p -> descends p h h' -> (rank h' <= rank h)%nat.
Proof. intros Hr Hd. induction Hd as [|x y z Hxy _ IH]; [done|]. apply Hr in Hxy. lia. Qed.

Lemma ranked_tc rank p h h' : ranked rank p -> tc (spends p) h h' -> (rank h' < rank h)%nat.
Proof. intros Hr Hd. induction Hd as [x y Hxy|x y z Hxy _ IH]; apply Hr in Hxy; lia. Qed.

(** What a recursive call does for transactions of rank below [n]. *)
Definition removes (rank : Z -> nat) (n : nat) (rm : CTransaction -> CTxMemPool -> option CTxMemPool) : Prop :=
  forall q t, linked q -> outputs_exist q -> ranked rank q -> mapTx q !! Tx.GetHash t = Some t ->
    (rank (Tx.GetHash t) < n)%nat -> exists q', rm t q = Some q' /\ without (descends q (Tx.GetHash t)) q q'.

Lemma remove_spenders_spec rank n rm p hash l R q : removes rank n rm -> (rank hash <= n)%nat ->
  linked p -> outputs_exist p -> ranked rank p -> closed_set p R -> (forall x, R x -> tc (spends p) hash x) ->
  without R p q -> exists q' R', remove_spenders rm hash l q = Some q' /\
    without R' p q' /\ closed_set p R' /\ (forall x, R' x -> tc (spends p) hash x) /\ (forall x, R x -> R' x) /\
    forall i c k, i ∈ l -> mapNextTx p !! mk_outpoint hash (Z.of_nat i) = Some (c, k) -> R' c.
Proof.
  intros Hrm Hn Lp Op Kp. revert R q. induction l as [|i l IH]; intros R q Hc Ht Hw; cbn [remove_spenders].
  { exists q, R. do 5 (split; [done|]). intros i c k Hi. by apply not_elem_of_nil in Hi. }
  pose proof Hw as (Lq & Hq & Hkeep).
  destruct (mapNextTx q !! mk_outpoint hash (Z.of_nat i)) as [[c k]|] eqn:En.
  - pose proof En as (t & inp & Et & Ei & Eo)%(linked_next q Lq).
    assert (Tx.GetHash t = c) as Eh by (by apply (linked_hash q Lq)).
    assert (spends p hash c) as Hs.
    { exists t, inp. apply Hq in Et as [Et _]. split; [done|]. split; [by apply list_elem_of_lookup_2 in Ei|by rewrite Eo]. }
    rewrite Et. subst c.
    destruct (Hrm q t) as (q1 & E1 & Hw1); [done|by apply (without_outputs R p)|by apply (without_ranked rank R p)|done| |].
    { apply Kp in Hs. lia. }
    cbn. rewrite E1. cbn.
    destruct (IH (fun x => R x \/ descends p (Tx.GetHash t) x) q1) as (q' & R' & E' & Hw' & Hc' & Ht' & Hi' & Hl).
    + by apply closed_union.
    + intros x [Hx|Hx]; [by apply Ht|]. by apply tc_rtc_r with (Tx.GetHash t); [apply tc_once|].
    + by apply without_trans with q.
    + exists q', R'. do 4 (split; [done|]). split; [by auto|].
      intros j c k' [->|Hj]%elem_of_cons Ec; [|by apply (Hl j c k')].
      apply Hi'. right. apply (linked_next p Lp) in Ec as (t' & inp' & Et' & Ei' & Eo').
      assert (mapNextTx p !! mk_outpoint hash (Z.of_nat i) = Some (Tx.GetHash t, k)) as E2.
      { apply (linked_next p Lp). exists t, inp. apply Hq in Et as [Et _]. done. }
      assert (mapNextTx p !! mk_outpoint hash (Z.of_nat i) = Some (c, k')) as E3.
      { apply (linked_next p Lp). by exists t', inp'. }
      assert (Tx.GetHash t = c) as -> by congruence. apply rtc_refl.
  - destruct (IH R q Hc Ht Hw) as (q' & R' & E' & Hw' & Hc' & Ht' & Hi' & Hl).
    exists q', R'. do 5 (split; [done|]).
    intros j c k' [->|Hj]%elem_of_cons Ec; [|by apply (Hl j c k')].
    apply Hi'. apply (linked_next p Lp) in Ec as (t' & inp' & Et' & Ei' & Eo').
    destruct (Hkeep c t' Et') as [?|Et2]; [done|].
    assert (mapNextTx q !! mk_outpoint hash (Z.of_nat i) = Some (c, k')) as E2; [|congruence].
    apply (linked_next q Lq). by exists t', inp'.
Qed.
Lemma remove_spec rank fuel : removes rank fuel (remove fuel true).
Proof.
  induction fuel as [|fuel IH]; intros p t Lp Op Kp Et Hr; [lia|].
  cbn [remove]. cbv zeta. rewrite Et. set (hash := Tx.GetHash t) in *.
  destruct (remove_spenders_spec rank fuel (remove fuel true) p hash (seq 0 (length (vout t))) (fun _ => False) p)
    as (q & R & E & Hw & Hc & Ht & _ & Hl); [done|lia|done|done|done|by intros ? ?|done| |].
  { split; [done|]. split; [intros h t'; split; [by intros ?; split; [|intros []]|by intros [? _]]|by right]. }
  rewrite E. cbn. change (touch _) with (take_out hash t q).
  assert (~ R hash) as Hnr.
  { intros Hx%Ht. pose proof (ranked_tc rank p hash hash Kp Hx). lia. }
  pose proof Hw as (Lq & Hq & Hkeep).
  assert (mapTx q !! hash = Some t) as Etq by (by apply Hq).
  destruct (take_out_without q t Lq Etq) as (L' & H' & K'). fold hash in L', H', K'.
  exists (take_out hash t q). split; [done|].
  assert (forall x, descends p hash x <-> R x \/ x = hash) as Hd.
  { intros x. split; [|intros [Hx%Ht| ->]; [by apply tc_rtc|apply rtc_refl]].
    intros Hd. apply rtc_inv in Hd as [->|(c & (t' & inp & Et' & Hi & Eo) & Hd)]; [by right|]. left.
    apply (closed_descends p R c x Hc); [|done].
    apply list_elem_of_lookup_1 in Hi as [j Hj]. subst hash.
    destruct (prevout inp) as [oh on] eqn:Ep. cbn [o_hash] in Eo. subst oh.
    assert (mapNextTx p !! mk_outpoint (Tx.GetHash t) on = Some (c, j)) as En.
    { apply (linked_next p Lp). exists t', inp. done. }
    destruct (Op _ _ _ t En Et) as (k & Hk & Ek). cbn [o_n] in Ek. subst on.
    apply (Hl k c j); [apply elem_of_seq; lia|done]. }
  split; [done|]. split.
  - intros h x. rewrite H', Hq, Hd. naive_solver.
  - intros h x Ex. rewrite Hd. destruct (Hkeep h x Ex) as [?|E1]; [by left; left|].
    destruct (K' h x E1) as [->|?]; [by left; right|by right].
Qed.
(** *** The invariant of the pool *)
Record pool_ok (p : CTxMemPool) : Prop := {
  ok_linked : linked p;
  ok_outputs : outputs_exist p;
  ok_ranked : exists rank, ranked rank p
}.

Lemma without_ok R p q : without R p q -> pool_ok p -> pool_ok q.
Proof.
  intros Hw [Lp Op [rank Kp]]. split; [apply Hw|by apply (without_outputs R p)|].
  exists rank. by apply (without_ranked rank R p).
Qed.

(** What [AcceptToMemoryPool] has established about a transaction it adds: it is new, it does
    not conflict with the pool, it spends outputs that exist, and nothing in the pool
    spends its own outputs yet. *)
Record addable (p : CTxMemPool) (tx : CTransaction) : Prop := {
  add_new : mapTx p !! Tx.GetHash tx = None;
  add_distinct : NoDup (map prevout (vin tx));
  add_free inp : inp ∈ vin tx -> mapNextTx p !! prevout inp = None;
  add_exists inp t : inp ∈ vin tx -> mapTx p !! o_hash (prevout inp) = Some t ->
    exists k, (k < length (vout t))%nat /\ o_n (prevout inp) = Z.of_nat k;
  add_other inp : inp ∈ vin tx -> o_hash (prevout inp) <> Tx.GetHash tx;
  add_unspent o x : mapNextTx p !! o = Some x -> o_hash o <> Tx.GetHash tx
}.

Lemma addUnchecked_outputs p tx : linked p -> outputs_exist p -> addable p tx ->
  outputs_exist (addUnchecked (Tx.GetHash tx) tx p).
Proof.
  intros Lp Op [A1 A2 A3 A4 A5 A6] o h i t En Et. cbn [addUnchecked touch mapTx mapNextTx] in En, Et.
  apply link_inputs_lookup in En; [|done|done].
  destruct En as [En|(-> & k & inp & -> & Ei & <-)].
  - rewrite lookup_insert_ne in Et by (by apply not_eq_sym, (A6 o (h, i))). by apply (Op o h i).
  - apply list_elem_of_lookup_2 in Ei. rewrite lookup_insert_ne in Et by (by apply not_eq_sym, A5).
    by apply (A4 inp).
Qed.

Lemma addUnchecked_ranked rank p tx : linked p -> ranked rank p -> addable p tx ->
  ranked (fun h => if decide (h = Tx.GetHash tx) then 0%nat else S (rank h)) (addUnchecked (Tx.GetHash tx) tx p).
Proof.
  intros Lp Kp [A1 A2 A3 A4 A5 A6] h h' (t & inp & Et & Hi & Eo). cbn [addUnchecked touch mapTx] in Et.
  apply lookup_insert_Some in Et as [[<- <-]|[Hne Et]].
  - rewrite decide_True by done. rewrite decide_False by (rewrite <- Eo; by apply A5). lia.
  - rewrite (decide_False (P := h' = _)) by congruence.
    apply list_elem_of_lookup_1 in Hi as [j Hj].
    assert (mapNextTx p !! prevout inp = Some (h', j)) as En by (apply (linked_next p Lp); by exists t, inp).
    apply A6 in En. rewrite decide_False by congruence.
    apply -> Nat.succ_lt_mono. apply Kp. exists t, inp. split; [done|]. split; [by apply list_elem_of_lookup_2 in Hj|done].
Qed.

Lemma empty_ok : pool_ok empty_pool.
Proof.
  split; [apply linked_empty| |].
  - intros o h i t E. cbn in E. by rewrite lookup_empty in E.
  - exists (fun _ => 0%nat). intros h h' (t & inp & E & _). cbn in E. by rewrite lookup_empty in E.
Qed.

Lemma addUnchecked_pool_ok p tx : pool_ok p -> addable p tx -> pool_ok (addUnchecked (Tx.GetHash tx) tx p).
Proof.
  intros [Lp Op [rank Kp]] Ha. split.
  - apply addUnchecked_linked; by destruct Ha.
  - by apply addUnchecked_outputs.
  - eexists. by apply addUnchecked_ranked.
Qed.

(** Adding a checked transaction keeps the pool consistent: every transaction is stored
    under its hash, [mapNextTx] lists exactly the outputs spent by pool
    transactions, each of them exists, and no transaction descends from itself; the
    new pool is the old one and the new transaction. *)
Theorem addUnchecked_ok p tx : pool_ok p -> addable p tx ->
  pool_ok (addUnchecked (Tx.GetHash tx) tx p) /\
  (forall h, lookup_ h (addUnchecked (Tx.GetHash tx) tx p) = if decide (h = Tx.GetHash tx) then Some tx else lookup_ h p) /\
  size (addUnchecked (Tx.GetHash tx) tx p) = size p + 1.
Proof.
  intros Hp Ha. split; [by apply addUnchecked_pool_ok|]. unfold lookup_, size. cbn [addUnchecked touch mapTx]. split.
  - intros h. case_decide as E; [subst; by rewrite lookup_insert_eq|by rewrite lookup_insert_ne].
  - rewrite map_size_insert_None by apply Ha. lia.
Qed.

(** C32. Removing a pool transaction recursively terminates without following a dangling pointer,
    and takes out exactly the transaction and its descendants in the pool. *)
Theorem remove_descendants p tx : pool_ok p -> mapTx p !! Tx.GetHash tx = Some tx ->
  exists n, forall fuel, (n <= fuel)%nat -> exists p', remove fuel true tx p = Some p' /\ pool_ok p' /\
    forall h t, mapTx p' !! h = Some t <-> mapTx p !! h = Some t /\ ~ descends p (Tx.GetHash tx) h.
Proof.
  intros Hp Et. pose proof Hp as [Lp Op [rank Kp]]. exists (S (rank (Tx.GetHash tx))). intros fuel Hf.
  destruct (remove_spec rank fuel p tx Lp Op Kp Et) as (p' & E & Hw); [lia|].
  exists p'. split; [done|]. split; [by apply (without_ok (descends p (Tx.GetHash tx)) p)|apply Hw].
Qed.
(** [c] is a pool transaction other than [tx] that spends one of the outputs in [l]. *)
Definition conflicts (p : CTxMemPool) (tx : CTransaction) (l : list CTxIn) (c : Z) : Prop :=
  exists inp t k, inp ∈ l /\ mapNextTx p !! prevout inp = Some (c, k) /\ mapTx p !! c = Some t /\ t <> tx.

Lemma remove_conflicts_spec rank fuel tx p l R q : pool_ok p -> ranked rank p -> (forall h, (rank h < fuel)%nat) ->
  closed_set p R -> without R p q ->
  exists q' R', remove_conflicts fuel tx l q = Some q' /\ without R' p q' /\ closed_set p R' /\
    (forall x, R x -> R' x) /\ (forall c, conflicts p tx l c -> R' c) /\
    forall x, R' x -> R x \/ exists c, conflicts p tx l c /\ descends p c x.
Proof.
  intros Hp Kp Hf. revert R q. induction l as [|inp l IH]; intros R q Hc Hw; cbn [remove_conflicts].
  { exists q, R. do 4 (split; [done|]). split; [|by left]. intros c (inp & t & k & Hi & _). by apply not_elem_of_nil in Hi. }
  pose proof Hw as (Lq & Hq & Hkeep). pose proof (ok_linked p Hp) as Lp.
  assert (forall c, conflicts p tx l c -> conflicts p tx (inp :: l) c) as Hcons.
  { intros c (i & t & k & Hi & Ec). exists i, t, k. split; [by right|done]. }
  destruct (mapNextTx q !! prevout inp) as [[c k]|] eqn:En.
  - pose proof En as (t & inp' & Et & Ei & Eo)%(linked_next q Lq).
    pose proof Et as [Etp Hnr]%Hq.
    assert (mapNextTx p !! prevout inp = Some (c, k)) as Enp by (apply (linked_next p Lp); by exists t, inp').
    rewrite Et. cbn. case_decide as Hd; cbn.
    + destruct (IH R q Hc Hw) as (q' & R' & E & Hw' & Hc' & Hi & Hl & Hm). exists q', R'.
      do 4 (split; [done|]). split.
      * intros x (i & t' & k' & [->|Hin]%elem_of_cons & Ex & Ext & Hne); [|apply Hl; by exists i, t', k']. congruence.
      * intros x [?|(x' & ? & ?)]%Hm; [by left|]. right. exists x'. auto.
    + assert (Tx.GetHash t = c) as Eh by (by apply (linked_hash q Lq)). subst c.
      destruct (remove_spec rank fuel q t) as (q1 & E1 & Hw1); [done|..]; try done.
      { by apply (without_ok R p). }
      { by apply (without_ranked rank R p). }
      rewrite E1. cbn.
      destruct (IH (fun x => R x \/ descends p (Tx.GetHash t) x) q1) as (q' & R' & E & Hw' & Hc' & Hi & Hl & Hm).
      { by apply closed_union. }
      { by apply without_trans with q. }
      assert (conflicts p tx (inp :: l) (Tx.GetHash t)) as Hct by (exists inp, t, k; split; [by left|done]).
      exists q', R'. do 3 (split; [done|]). split; [by auto|]. split.
      * intros x (i & t' & k' & [->|Hin]%elem_of_cons & Ex & Ext & Hne); [|apply Hl; by exists i, t', k'].
        apply Hi. right. assert (x = Tx.GetHash t) as -> by congruence. apply rtc_refl.
      * intros x [[?|?]|(x' & ? & ?)]%Hm; [by left|right; by exists (Tx.GetHash t)|]. right. exists x'. auto.
  - destruct (IH R q Hc Hw) as (q' & R' & E & Hw' & Hc' & Hi & Hl & Hm). exists q', R'.
    do 4 (split; [done|]). split.
    + intros x (i & t' & k' & [->|Hin]%elem_of_cons & Ex & Ext & Hne); [|apply Hl; by exists i, t', k'].
      apply Hi. destruct (Hkeep x t' Ext) as [?|Eq]; [done|]. exfalso.
      apply (linked_next p Lp) in Ex as (t2 & inp2 & Et2 & Ei2 & Eo2).
      assert (mapNextTx q !! prevout inp = Some (x, k')) as E2; [|congruence].
      apply (linked_next q Lq). exists t2, inp2. split; [congruence|done].
    + intros x [?|(x' & ? & ?)]%Hm; [by left|]. right. exists x'. auto.
Qed.

(** Ranks can be taken bounded, since the pool is finite. *)
Lemma ranked_bounded rank p : ranked rank p -> exists rank' N, ranked rank' p /\ forall h, (rank' h <= N)%nat.
Proof.
  intros Kp. set (N := max_list (map (fun kt => rank kt.1) (map_to_list (mapTx p)))).
  assert (forall h t, mapTx p !! h = Some t -> (rank h <= N)%nat) as HN.
  { intros h t E. apply max_list_elem_of_le. apply list_elem_of_fmap. exists (h, t). split; [done|].
    by apply elem_of_map_to_list. }
  exists (fun h => match mapTx p !! h with Some _ => rank h | None => S N end), (S N). split.
  - intros h h' Hs. pose proof Hs as (t & inp & Et & _). rewrite Et. apply Kp in Hs.
    destruct (mapTx p !! h); [done|]. apply HN in Et. lia.
  - intros h. destruct (mapTx p !! h) as [t|] eqn:E; [|done]. apply HN in E. lia.
Qed.

(** When a block's transaction is connected, [removeConflicts] takes out exactly the pool
    transactions that spend one of its inputs, with their descendants; afterwards
    nothing in the pool but the transaction itself spends any of its inputs. *)
Theorem removeConflicts_exact p tx : pool_ok p ->
  exists n, forall fuel, (n <= fuel)%nat -> exists p', removeConflicts fuel tx p = Some p' /\ pool_ok p' /\
    (forall h t, mapTx p' !! h = Some t <->
      mapTx p !! h = Some t /\ ~ exists c, conflicts p tx (vin tx) c /\ descends p c h) /\
    forall inp h k, inp ∈ vin tx -> mapNextTx p' !! prevout inp = Some (h, k) -> mapTx p' !! h = Some tx.
Proof.
  intros Hp. destruct (ok_ranked p Hp) as [rank0 Kp0]. destruct (ranked_bounded rank0 p Kp0) as (rank & N & Kp & HN).
  exists (S N). intros fuel Hf.
  destruct (remove_conflicts_spec rank fuel tx p (vin tx) (fun _ => False) p) as (q & R & E & Hw & Hc & _ & Hl & Hm);
    [done|done|intros h; specialize (HN h); lia|by intros ? ?| |].
  { split; [apply Hp|]. split; [intros h t'; split; [by intros ?; split; [|intros []]|by intros [? _]]|by right]. }
  pose proof Hw as (Lq & Hq & _). exists q. split; [done|]. split; [by apply (without_ok R p)|]. split.
  - intros h t. rewrite Hq. split; intros [Et Hn]; (split; [done|]).
    + intros (c & Hcc & Hd). apply Hn. apply (closed_descends p R c h); auto.
    + intros [[]|Hx]%Hm. done.
  - intros inp h k Hi En. pose proof En as (t & inp' & Et & Ei & Eo)%(linked_next q Lq).
    destruct (decide (t = tx)) as [->|Hne]; [done|]. apply Hq in Et as [Et Hn]. destruct Hn. apply Hl.
    exists inp, t, k. split; [done|]. split; [|done]. apply (linked_next p (ok_linked p Hp)). by exists t, inp'.
Qed.
End facts.

(** A parent, its child and a rival of the child. *)
Definition parent_tx : CTransaction := mk_tx 1 1 [mk_txin (mk_outpoint 77 0) [] 0] [mk_txout 9 []; mk_txout 8 []] 0.
Definition parent_hash : Z := @Tx.GetHash dummy_digests parent_tx.
Definition child_tx (time : Z) : CTransaction := mk_tx 1 time [mk_txin (mk_outpoint parent_hash 1) [] 0] [mk_txout 7 []] 0.
Definition parent_pool : CTxMemPool := @addUnchecked (parent_hash) parent_tx empty_pool.
Definition family_pool : CTxMemPool := @addUnchecked (@Tx.GetHash dummy_digests (child_tx 2)) (child_tx 2) parent_pool.

Lemma parent_addable : @addable dummy_digests empty_pool parent_tx.
Proof.
  split.
  - apply lookup_empty.
  - apply NoDup_singleton.
  - intros inp _. apply lookup_empty.
  - intros inp t _ E. cbn [empty_pool mapTx] in E. rewrite lookup_empty in E. discriminate E.
  - intros inp ->%list_elem_of_singleton. vm_compute. discriminate.
  - intros o x E. cbn [empty_pool mapNextTx] in E. rewrite lookup_empty in E. discriminate E.
Qed.

Lemma parent_pool_tx h t : mapTx parent_pool !! h = Some t -> h = parent_hash /\ t = parent_tx.
Proof.
  unfold parent_pool. cbn [addUnchecked touch mapTx empty_pool].
  intros [[<- <-]|[_ E]]%lookup_insert_Some; [done|rewrite lookup_empty in E; discriminate E].
Qed.
Lemma parent_pool_next o x : mapNextTx parent_pool !! o = Some x -> o = mk_outpoint 77 0.
Proof.
  unfold parent_pool. cbn [addUnchecked touch mapNextTx vin parent_tx link_inputs prevout empty_pool].
  intros [[<- _]|[_ E]]%lookup_insert_Some; [done|rewrite lookup_empty in E; discriminate E].
Qed.

Lemma child_addable : @addable dummy_digests parent_pool (child_tx 2).
Proof.
  split.
  - vm_compute. reflexivity.
  - apply NoDup_singleton.
  - intros inp ->%list_elem_of_singleton. vm_compute. reflexivity.
  - intros inp t ->%list_elem_of_singleton [_ ->]%parent_pool_tx. exists 1%nat. split; [simpl; lia|reflexivity].
  - intros inp ->%list_elem_of_singleton. vm_compute. discriminate.
  - intros o x ->%parent_pool_next. vm_compute. discriminate.
Qed.

Lemma parent_pool_ok : @pool_ok dummy_digests parent_pool.
Proof. apply (@addUnchecked_pool_ok dummy_digests), parent_addable. apply empty_ok. Qed.
Lemma family_pool_ok : @pool_ok dummy_digests family_pool.
Proof. apply (@addUnchecked_pool_ok dummy_digests), child_addable. apply parent_pool_ok. Qed.

Lemma addUnchecked_ok_witness :
  size family_pool = 2.
Proof.
  destruct (@addUnchecked_ok dummy_digests parent_pool (child_tx 2) parent_pool_ok child_addable) as (_ & _ & E).
  exact E.
Defined.

Lemma remove_descendants_witness :
  exists fuel p', @remove dummy_digests fuel true parent_tx family_pool = Some p' /\ mapTx p' !! parent_hash = None.
Proof.
  destruct (@remove_descendants dummy_digests family_pool parent_tx family_pool_ok) as (n & Hn); [vm_compute; reflexivity|].
  destruct (Hn n ltac:(lia)) as (p' & E & _ & Hp). exists n, p'. split; [exact E|].
  destruct (mapTx p' !! parent_hash) as [t|] eqn:Et; [|reflexivity]. apply Hp in Et as [_ Hd]. destruct Hd. apply rtc_refl.
Defined.

(** The other child arrives in a block: the first one has to go. *)
Lemma removeConflicts_exact_witness :
  exists fuel p', @removeConflicts dummy_digests fuel (child_tx 3) family_pool = Some p' /\
    mapTx p' !! @Tx.GetHash dummy_digests (child_tx 2) = None.
Proof.
  destruct (@removeConflicts_exact dummy_digests family_pool (child_tx 3) family_pool_ok) as (n & Hn).
  destruct (Hn n ltac:(lia)) as (p' & E & _ & Hp & _). exists n, p'. split; [exact E|].
  destruct (mapTx p' !! _) as [t|] eqn:Et; [|reflexivity]. apply Hp in Et as [_ Hd]. destruct Hd.
  exists (@Tx.GetHash dummy_digests (child_tx 2)). split; [|apply rtc_refl].
  exists (mk_txin (mk_outpoint parent_hash 1) [] 0), (child_tx 2), 0%nat.
  split; [by left|]. split; [vm_compute; reflexivity|]. split; [vm_compute; reflexivity|]. intros E'. discriminate E'.
Defined.
End MempoolFacts.
