(* ===== verification/Orphans.v ===== *)
(** * Orphans: transactions whose inputs are not known yet (src/src/main.cpp)

    [mapOrphanTransactions] holds the transactions under their hash, and
    [mapOrphanTransactionsByPrev] the hashes of those that spend an output of a given
    transaction. *)

From stdpp Require Import sorting.
From S2P Require Import Prelude BigNum Serialize Crypto Keys Core.

Record OrphanState := mk_orphans {
  mapOrphanTransactions : gmap Z CTransaction;
  mapOrphanTransactionsByPrev : gmap Z (gset Z)
}.

Module Orphan.
Section orphan.
Context `{Digests}.

(** [mapOrphanTransactionsByPrev[prev].insert(hash)]. *)
Definition add_prev (hash : Z) (m : gmap Z (gset Z)) (txin : CTxIn) : gmap Z (gset Z) :=
  let prev := o_hash (prevout txin) in
  <[prev := {[hash]} ∪ default ∅ (m !! prev)]> m.

Definition AddOrphanTx (t : CTransaction) (s : OrphanState) : OrphanState * bool :=
  let hash := Tx.GetHash t in
  if bool_decide (is_Some (mapOrphanTransactions s !! hash)) then (s, false) else
  if 5000 <? GetSerializeSize t then (s, false) else
  (mk_orphans (<[hash := t]> (mapOrphanTransactions s))
     (fold_left (add_prev hash) (vin t) (mapOrphanTransactionsByPrev s)), true).

(** One input of [EraseOrphanTx]: the set loses the hash, and goes when it is empty. *)
Definition erase_prev (hash : Z) (m : gmap Z (gset Z)) (txin : CTxIn) : gmap Z (gset Z) :=
  let prev := o_hash (prevout txin) in
  match m !! prev with
  | None => m
  | Some itPrev =>
    let itPrev := itPrev ∖ {[hash]} in
    if bool_decide (itPrev = ∅) then delete prev m else <[prev := itPrev]> m
  end.

Definition EraseOrphanTx (hash : Z) (s : OrphanState) : OrphanState :=
  match mapOrphanTransactions s !! hash with
  | None => s
  | Some t =>
    mk_orphans (delete hash (mapOrphanTransactions s)) (fold_left (erase_prev hash) (vin t) (mapOrphanTransactionsByPrev s))
  end.

(** The keys in the order of the map, [lower_bound] and the wrap to [begin]. *)
Definition keys (s : OrphanState) : list Z := merge_sort Z.le (map fst (map_to_list (mapOrphanTransactions s))).
Definition pick (randomhash : Z) (s : OrphanState) : option Z :=
  match List.find (fun k => randomhash <=? k) (keys s) with
  | Some k => Some k
  | None => head (keys s)
  end.

(** The loop of [LimitOrphanTxSize]; [GetRandHash k] is the k-th random hash. *)
Fixpoint limit_loop (fuel : nat) (GetRandHash : nat -> Z) (nMaxOrphans nEvicted : nat) (s : OrphanState) : OrphanState * nat :=
  if bool_decide (size (mapOrphanTransactions s) <= nMaxOrphans)%nat then (s, nEvicted) else
  match fuel, pick (GetRandHash nEvicted) s with
  | S fuel, Some k => limit_loop fuel GetRandHash nMaxOrphans (S nEvicted) (EraseOrphanTx k s)
  | _, _ => (s, nEvicted)
  end.
Definition LimitOrphanTxSize (GetRandHash : nat -> Z) (nMaxOrphans : nat) (s : OrphanState) : OrphanState * nat :=
  limit_loop (size (mapOrphanTransactions s)) GetRandHash nMaxOrphans 0 s.
End orphan.
End Orphan.

(** ** Facts *)
Module OrphanFacts.
Import Orphan.
Section facts.
Context `{Digests}.

(** The second map is exactly the index of the first one by spent transaction, without
    empty sets; every transaction is stored under its hash and is small. *)
Record consistent (s : OrphanState) : Prop := {
  cons_hash h t : mapOrphanTransactions s !! h = Some t -> Tx.GetHash t = h /\ GetSerializeSize t <= 5000;
  cons_prev prev h : (exists hs, mapOrphanTransactionsByPrev s !! prev = Some hs /\ h ∈ hs) <->
    exists t, mapOrphanTransactions s !! h = Some t /\ prev ∈ map (fun i => o_hash (prevout i)) (vin t);
  cons_nonempty prev : mapOrphanTransactionsByPrev s !! prev <> Some ∅
}.

(** Membership in a set of the index. *)
Definition indexed (m : gmap Z (gset Z)) (prev h : Z) : Prop := exists hs, m !! prev = Some hs /\ h ∈ hs.

Lemma add_prev_indexed hash m txin prev h :
  indexed (add_prev hash m txin) prev h <-> indexed m prev h \/ h = hash /\ prev = o_hash (prevout txin).
Proof.
  unfold indexed, add_prev. destruct (decide (prev = o_hash (prevout txin))) as [->|Hne].
  - rewrite lookup_insert_eq. split.
    + intros (hs & <-%(inj Some) & [->%elem_of_singleton|Hin]%elem_of_union); [by right|left].
      destruct (m !! _) as [hs|]; [by exists hs|]. by apply elem_of_empty in Hin.
    + intros Hi. eexists. split; [done|]. apply elem_of_union.
      destruct Hi as [(hs & -> & Hin)|[-> _]]; [by right|left; by apply elem_of_singleton].
  - rewrite lookup_insert_ne by done. naive_solver.
Qed.

Lemma add_prev_nonempty hash m txin : (forall prev, m !! prev <> Some ∅) -> forall prev, add_prev hash m txin !! prev <> Some ∅.
Proof.
  intros Hm prev. unfold add_prev. destruct (decide (prev = o_hash (prevout txin))) as [->|Hne].
  - rewrite lookup_insert_eq. intros [= E]. set_solver.
  - by rewrite lookup_insert_ne.
Qed.

Lemma add_prevs_spec hash l m : (forall prev, m !! prev <> Some ∅) ->
  (forall prev, fold_left (add_prev hash) l m !! prev <> Some ∅) /\
  forall prev h, indexed (fold_left (add_prev hash) l m) prev h <->
    indexed m prev h \/ h = hash /\ prev ∈ map (fun i => o_hash (prevout i)) l.
Proof.
  revert m. induction l as [|txin l IH]; intros m Hm; cbn [fold_left map].
  { split; [done|]. intros prev h. rewrite elem_of_nil. naive_solver. }
  destruct (IH (add_prev hash m txin)) as [H1 H2]; [by apply add_prev_nonempty|]. split; [done|].
  intros prev h. rewrite H2, add_prev_indexed, elem_of_cons. naive_solver.
Qed.

Lemma erase_prev_indexed hash m txin prev h :
  indexed (erase_prev hash m txin) prev h <-> indexed m prev h /\ ~ (h = hash /\ prev = o_hash (prevout txin)).
Proof.
  unfold indexed, erase_prev. destruct (m !! o_hash (prevout txin)) as [hs|] eqn:E.
  2:{ split; [|naive_solver]. intros (hs & Ehs & Hin). split; [by eexists|]. intros [-> ->]. congruence. }
  destruct (decide (prev = o_hash (prevout txin))) as [->|Hne].
  - rewrite E. split.
    + intros (hs' & Ehs & Hin). case_bool_decide; [by rewrite lookup_delete_eq in Ehs|].
      rewrite lookup_insert_eq in Ehs. apply (inj Some) in Ehs as <-. apply elem_of_difference in Hin as [Hin Hn].
      split; [by exists hs|]. intros [-> _]. by apply Hn, elem_of_singleton.
    + intros [(hs' & <-%(inj Some) & Hin) Hn].
      assert (h ∈ hs ∖ {[hash]}) as Hd.
      { apply elem_of_difference. split; [done|]. intros ->%elem_of_singleton. by apply Hn. }
      case_bool_decide as He; [rewrite He in Hd; by apply elem_of_empty in Hd|].
      rewrite lookup_insert_eq. by eexists.
  - case_bool_decide; [rewrite lookup_delete_ne by done|rewrite lookup_insert_ne by done]; naive_solver.
Qed.

Lemma erase_prev_nonempty hash m txin : (forall prev, m !! prev <> Some ∅) -> forall prev, erase_prev hash m txin !! prev <> Some ∅.
Proof.
  intros Hm prev. unfold erase_prev. destruct (m !! o_hash (prevout txin)) as [hs|] eqn:E; [|done].
  destruct (decide (prev = o_hash (prevout txin))) as [->|Hne].
  - case_bool_decide as He; [by rewrite lookup_delete_eq|rewrite lookup_insert_eq]. congruence.
  - case_bool_decide; [by rewrite lookup_delete_ne|by rewrite lookup_insert_ne].
Qed.

Lemma erase_prevs_spec hash l m : (forall prev, m !! prev <> Some ∅) ->
  (forall prev, fold_left (erase_prev hash) l m !! prev <> Some ∅) /\
  forall prev h, indexed (fold_left (erase_prev hash) l m) prev h <->
    indexed m prev h /\ ~ (h = hash /\ prev ∈ map (fun i => o_hash (prevout i)) l).
Proof.
  revert m. induction l as [|txin l IH]; intros m Hm; cbn [fold_left map].
  { split; [done|]. intros prev h. rewrite elem_of_nil. naive_solver. }
  destruct (IH (erase_prev hash m txin)) as [H1 H2]; [by apply erase_prev_nonempty|]. split; [done|].
  intros prev h. rewrite H2, erase_prev_indexed, elem_of_cons. naive_solver.
Qed.

Lemma AddOrphanTx_consistent s t : consistent s -> consistent (AddOrphanTx t s).1.
Proof.
  intros Hs. unfold AddOrphanTx. case_bool_decide as Hn; [done|].
  destruct (Z.ltb_spec 5000 (GetSerializeSize t)); [done|]. destruct Hs as [Hh Hp He].
  apply eq_None_not_Some in Hn. destruct (add_prevs_spec (Tx.GetHash t) (vin t) (mapOrphanTransactionsByPrev s) He) as [H1' H2'].
  split; cbn [fst mapOrphanTransactions mapOrphanTransactionsByPrev]; [|intros prev h|done].
  - intros h t' [[<- <-]|[_ E]]%lookup_insert_Some; [by split|by apply Hh].
  - fold (indexed (fold_left (add_prev (Tx.GetHash t)) (vin t) (mapOrphanTransactionsByPrev s)) prev h).
    rewrite H2'. specialize (Hp prev h). fold (indexed (mapOrphanTransactionsByPrev s) prev h) in Hp. rewrite Hp. split.
    + intros [(t' & E & Hin)|[-> Hin]]; [|exists t; by rewrite lookup_insert_eq].
      exists t'. rewrite lookup_insert_ne by congruence. done.
    + intros (t' & [[<- <-]|[_ E]]%lookup_insert_Some & Hin); [by right|left; by exists t'].
Qed.

Lemma EraseOrphanTx_consistent s h : consistent s -> consistent (EraseOrphanTx h s).
Proof.
  intros Hs. unfold EraseOrphanTx. destruct (mapOrphanTransactions s !! h) as [t|] eqn:Et; [|done].
  destruct Hs as [Hh Hp He]. destruct (erase_prevs_spec h (vin t) (mapOrphanTransactionsByPrev s) He) as [H1' H2'].
  split; cbn [mapOrphanTransactions mapOrphanTransactionsByPrev]; [|intros prev k|done].
  - intros k t' [_ E]%lookup_delete_Some. by apply Hh.
  - fold (indexed (fold_left (erase_prev h) (vin t) (mapOrphanTransactionsByPrev s)) prev k).
    rewrite H2'. specialize (Hp prev k). fold (indexed (mapOrphanTransactionsByPrev s) prev k) in Hp. rewrite Hp. split.
    + intros [(t' & E & Hin) Hn]. exists t'. split; [|done]. apply lookup_delete_Some. split; [|done].
      intros <-. apply Hn. split; [done|]. congruence.
    + intros (t' & [Hne E]%lookup_delete_Some & Hin). split; [by exists t'|]. intros [-> _]. done.
Qed.

Lemma EraseOrphanTx_size s h t : mapOrphanTransactions s !! h = Some t ->
  size (mapOrphanTransactions s) = S (size (mapOrphanTransactions (EraseOrphanTx h s))).
Proof.
  intros E. unfold EraseOrphanTx. rewrite E. cbn [mapOrphanTransactions].
  rewrite (map_size_delete_Some _ _ (mk_is_Some _ _ E)).
  assert (size (mapOrphanTransactions s) <> 0%nat); [|lia]. intros E0. apply map_size_empty_inv in E0.
  by rewrite E0, lookup_empty in E.
Qed.

(** What is evicted is always an orphan. *)
Lemma pick_spec r s : (0 < size (mapOrphanTransactions s))%nat ->
  exists k t, pick r s = Some k /\ mapOrphanTransactions s !! k = Some t.
Proof.
  intros Hs. assert (forall k, k ∈ keys s -> exists t, mapOrphanTransactions s !! k = Some t) as Hk.
  { intros k Hin. unfold keys in Hin. rewrite merge_sort_Permutation in Hin.
    apply list_elem_of_fmap in Hin as ([k' t] & -> & Hin). exists t. by apply elem_of_map_to_list. }
  unfold pick. destruct (List.find _ (keys s)) as [k|] eqn:Ef.
  - apply find_some in Ef as [Hin%list_elem_of_In _]. destruct (Hk k Hin) as [t Et]. by exists k, t.
  - destruct (keys s) as [|k ks] eqn:Ek.
    + assert (length (keys s) = size (mapOrphanTransactions s)) as El.
      { unfold keys. rewrite (Permutation_length (merge_sort_Permutation _ _)), length_map. apply length_map_to_list. }
      rewrite Ek in El. simpl in El. lia.
    + destruct (Hk k ltac:(by left)) as [t Et]. by exists k, t.
Qed.

Lemma limit_loop_spec fuel R n k s : consistent s -> (size (mapOrphanTransactions s) <= fuel)%nat ->
  let r := limit_loop fuel R n k s in
  consistent r.1 /\ size (mapOrphanTransactions r.1) = Nat.min n (size (mapOrphanTransactions s)) /\
  r.2 = (k + (size (mapOrphanTransactions s) - n))%nat.
Proof.
  revert k s. induction fuel as [|fuel IH]; intros k s Hs Hf; cbn [limit_loop]; case_bool_decide as Hb;
    [split; [done|simpl; lia]|lia|split; [done|simpl; lia]|].
  destruct (pick_spec (R k) s) as (h & t & -> & Et); [lia|]. pose proof (EraseOrphanTx_size s h t Et) as Hz.
  destruct (IH (S k) (EraseOrphanTx h s)) as (H1' & H2' & H3'); [by apply EraseOrphanTx_consistent|lia|].
  split; [done|]. rewrite H2', H3'. lia.
Qed.

(** The three operations keep the two maps of orphans consistent, and every orphan at most 5000
    bytes long; [LimitOrphanTxSize] terminates for every random sequence, leaves exactly
    the permitted number of orphans and reports how many it evicted. *)
Theorem orphans_consistent R n s t h : consistent s ->
  consistent (AddOrphanTx t s).1 /\ consistent (EraseOrphanTx h s) /\
  let r := LimitOrphanTxSize R n s in
  consistent r.1 /\ size (mapOrphanTransactions r.1) = Nat.min n (size (mapOrphanTransactions s)) /\
  r.2 = (size (mapOrphanTransactions s) - n)%nat.
Proof.
  intros Hs. split; [by apply AddOrphanTx_consistent|]. split; [by apply EraseOrphanTx_consistent|]. by apply limit_loop_spec.
Qed.

Lemma no_orphans_consistent : consistent (mk_orphans ∅ ∅).
Proof.
  split; cbn [mapOrphanTransactions mapOrphanTransactionsByPrev].
  - intros h t E. by rewrite lookup_empty in E.
  - intros prev h. rewrite lookup_empty. split; [naive_solver|]. intros (t & E & _). by rewrite lookup_empty in E.
  - intros prev. by rewrite lookup_empty.
Qed.
End facts.

Definition orphan_tx (time : Z) : CTransaction := mk_tx 1 time [mk_txin (mk_outpoint 55 0) [] 0] [] 0.
Definition two_orphans : OrphanState :=
  (@AddOrphanTx dummy_digests (orphan_tx 2) (@AddOrphanTx dummy_digests (orphan_tx 1) (mk_orphans ∅ ∅)).1).1.

Lemma orphans_consistent_witness :
  @consistent dummy_digests (@LimitOrphanTxSize (fun _ => 0) 1 two_orphans).1 /\
  (@LimitOrphanTxSize (fun _ => 0) 1 two_orphans).2 = 1%nat.
Proof.
  destruct (@orphans_consistent dummy_digests (fun _ => 0) 1 two_orphans (orphan_tx 3) 7) as (_ & _ & Hc & _ & He).
  - unfold two_orphans. do 2 apply (@AddOrphanTx_consistent dummy_digests). apply (@no_orphans_consistent dummy_digests).
  - split; [exact Hc|]. vm_compute. reflexivity.
Defined.
End OrphanFacts.
