(* ===== verification/Chain.v ===== *)
(** * Chain: the block index, difficulty and rewards (class CBlockIndex of
    src/src/main.h, src/src/main.cpp)

    A [const CBlockIndex*] is the list of the records met by following [pprev]:
    the head is the object itself, the tail is [pprev], and the empty list is
    [NULL].  Every function here only reads the index, so sharing does not show. *)

From stdpp Require Import sorting.
From S2P Require Import Prelude BigNum Serialize Crypto Keys Core Block.

Record CBlockIndex := mk_index {
  (** The key [*phashBlock]. *)
  phashBlock : Z;
  (** The hash of [*pnext], or [None] for a null pointer. *)
  pnext : option Z;
  nFile : Z;
  nBlockPos : Z;
  nChainTrust : Z;
  nHeight : Z;
  nMint : Z;
  nMoneySupply : Z;
  nFlags : Z;
  nStakeModifier : Z;
  prevoutStake : COutPoint;
  nStakeTime : Z;
  hashProof : Z;
  bi_nVersion : Z;
  bi_hashMerkleRoot : Z;
  bi_nTime : Z;
  bi_nBits : Z;
  bi_nNonce : Z
}.
Definition index_ptr : Type := list CBlockIndex.

Module BlockIndex.
Definition BLOCK_PROOF_OF_STAKE : Z := 1.
Definition BLOCK_STAKE_ENTROPY : Z := 2.
Definition BLOCK_STAKE_MODIFIER : Z := 4.

Definition IsProofOfWork (b : CBlockIndex) : bool := Z.land (nFlags b) BLOCK_PROOF_OF_STAKE =? 0.
Definition IsProofOfStake (b : CBlockIndex) : bool := negb (Z.land (nFlags b) BLOCK_PROOF_OF_STAKE =? 0).
Definition with_flags (flags : Z) (b : CBlockIndex) : CBlockIndex :=
  mk_index (phashBlock b) (pnext b) (nFile b) (nBlockPos b) (nChainTrust b) (nHeight b) (nMint b) (nMoneySupply b)
    flags (nStakeModifier b) (prevoutStake b) (nStakeTime b) (hashProof b)
    (bi_nVersion b) (bi_hashMerkleRoot b) (bi_nTime b) (bi_nBits b) (bi_nNonce b).
Definition SetProofOfStake (b : CBlockIndex) : CBlockIndex := with_flags (Z.lor (nFlags b) BLOCK_PROOF_OF_STAKE) b.
Definition GetStakeEntropyBit (b : CBlockIndex) : Z := Z.shiftr (Z.land (nFlags b) BLOCK_STAKE_ENTROPY) 1.
(** The new state and the returned value. *)
Definition SetStakeEntropyBit (nEntropyBit : Z) (b : CBlockIndex) : CBlockIndex * bool :=
  if 1 <? nEntropyBit then (b, false)
  else (with_flags (Z.lor (nFlags b) (if nEntropyBit =? 0 then 0 else BLOCK_STAKE_ENTROPY)) b, true).
Definition GeneratedStakeModifier (b : CBlockIndex) : bool := negb (Z.land (nFlags b) BLOCK_STAKE_MODIFIER =? 0).
Definition with_modifier (modifier : Z) (b : CBlockIndex) : CBlockIndex :=
  mk_index (phashBlock b) (pnext b) (nFile b) (nBlockPos b) (nChainTrust b) (nHeight b) (nMint b) (nMoneySupply b)
    (nFlags b) modifier (prevoutStake b) (nStakeTime b) (hashProof b)
    (bi_nVersion b) (bi_hashMerkleRoot b) (bi_nTime b) (bi_nBits b) (bi_nNonce b).
Definition SetStakeModifier (nModifier : Z) (fGeneratedStakeModifier : bool) (b : CBlockIndex) : CBlockIndex :=
  let b := with_modifier nModifier b in
  if fGeneratedStakeModifier then with_flags (Z.lor (nFlags b) BLOCK_STAKE_MODIFIER) b else b.

(** The two constructors; [phashBlock] and [pprev] are null until the caller sets them. *)
Definition default : CBlockIndex :=
  mk_index 0 None 0 0 0 0 0 0 0 0 OutPoint.null 0 0 0 0 0 0 0.
Definition of_block (nFileIn nBlockPosIn : Z) (block : CBlock) : CBlockIndex :=
  let '(prevout, time) := Block.GetProofOfStake block in
  mk_index 0 None nFileIn nBlockPosIn 0 0 0 0
    (if Block.IsProofOfStake block then BLOCK_PROOF_OF_STAKE else 0) 0 prevout time 0
    (b_nVersion block) (hashMerkleRoot block) (b_nTime block) (nBits block) (nNonce block).

(** [GetBlockHeader] and [GetBlockTime] of the object a pointer designates. *)
Definition GetBlockHeader (b : CBlockIndex) (pprev : index_ptr) : CBlock :=
  mk_block (bi_nVersion b) (match pprev with p :: _ => phashBlock p | [] => 0 end)
    (bi_hashMerkleRoot b) (bi_nTime b) (bi_nBits b) (bi_nNonce b) [] [] [].
Definition GetBlockTime (b : CBlockIndex) : Z := bi_nTime b.
Definition GetPastTimeLimit (b : CBlockIndex) : Z := GetBlockTime b.
(** [this == pindexBest] compares the objects, which the hash identifies. *)
Definition IsInMainChain (pindexBest : option Z) (b : CBlockIndex) : bool :=
  bool_decide (is_Some (pnext b)) || bool_decide (pindexBest = Some (phashBlock b)).

Definition nMedianTimeSpan : nat := 11.
(** The array [pbegin .. pend), filled from its end. *)
Fixpoint past_times (i : nat) (pindex : index_ptr) (acc : list Z) : list Z :=
  match i, pindex with
  | S i, b :: pprev => past_times i pprev (GetBlockTime b :: acc)
  | _, _ => acc
  end.
Definition GetMedianTimePast (pindex : index_ptr) : option Z :=
  let l := merge_sort Z.le (past_times nMedianTimeSpan pindex []) in
  l !! (length l / 2)%nat.

Fixpoint super_majority (minVersion : Z) (pstart : index_ptr) (nRequired nToCheck nFound : nat) : bool :=
  match nToCheck, pstart with
  | S nToCheck, b :: pprev =>
    if bool_decide (nFound < nRequired)%nat
    then super_majority minVersion pprev nRequired nToCheck (if minVersion <=? bi_nVersion b then S nFound else nFound)
    else bool_decide (nRequired <= nFound)%nat
  | _, _ => bool_decide (nRequired <= nFound)%nat
  end.
Definition IsSuperMajority (minVersion : Z) (pstart : index_ptr) (nRequired nToCheck : nat) : bool :=
  super_majority minVersion pstart nRequired nToCheck 0.

Section trust.
Context `{BNLib}.
Definition GetBlockTrust (b : CBlockIndex) : Z :=
  let bnTarget := CBigNum.SetCompact (bi_nBits b) in
  if bnTarget <=? 0 then 0
  else le_val (CBigNum.getuint256 (Z.quot (Z.shiftl 1 256) (bnTarget + 1))).
End trust.

(** The loop of [IsConfirmedInNPrevBlocks]; the result is [nActualDepth]. *)
Fixpoint confirmed_loop (nFileTx nBlockPosTx from_height nMaxDepth : Z) (pindex : index_ptr) : option Z :=
  match pindex with
  | [] => None
  | b :: pprev =>
    if from_height - nHeight b <? nMaxDepth then
      if (nBlockPos b =? nBlockPosTx) && (nFile b =? nFileTx) then Some (from_height - nHeight b)
      else confirmed_loop nFileTx nBlockPosTx from_height nMaxDepth pprev
    else None
  end.
End BlockIndex.

(** ** Difficulty *)
Module Difficulty.
Import BlockIndex.
Definition nTargetTimespan : Z := 16 * 60.
Definition GetTargetSpacing (height : Z) : Z := 120.

Fixpoint GetLastBlockIndex (pindex : index_ptr) (fProofOfStake : bool) : index_ptr :=
  match pindex with
  | b :: (_ :: _) as pprev =>
    if Bool.eqb (IsProofOfStake b) fProofOfStake then pindex else GetLastBlockIndex pprev fProofOfStake
  | _ => pindex
  end.

Section difficulty.
Context `{BNLib}.
(** [Params().ProofOfWorkLimit()] and [bnProofOfStakeLimit]. *)
Variables (ProofOfWorkLimit bnProofOfStakeLimit : Z).

Definition GetProofOfStakeLimit (height : Z) : Z := bnProofOfStakeLimit.

(** The arithmetic of the retarget: the previous target and the spacing of the last two
    blocks give the next target, before it is written in compact form. *)
Definition retarget (bnTargetLimit nTargetSpacing nActualSpacing bnNew : Z) : Z :=
  let nActualSpacing := if nTargetSpacing * 10 <? nActualSpacing then nTargetSpacing * 10 else nActualSpacing in
  let nInterval := Z.quot nTargetTimespan nTargetSpacing in
  let bnNew := bnNew * CBigNum.of_int ((nInterval - 1) * nTargetSpacing + nActualSpacing + nActualSpacing) in
  let bnNew := Z.quot bnNew (CBigNum.of_int ((nInterval + 1) * nTargetSpacing)) in
  if (bnNew <=? 0) || (bnTargetLimit <? bnNew) then bnTargetLimit else bnNew.

(** [None] where the code dereferences a null pointer. *)
Definition GetNextTargetRequired (pindexLast : index_ptr) (fProofOfStake : bool) : option Z :=
  match pindexLast with
  | [] => if fProofOfStake then None else Some (CBigNum.GetCompact ProofOfWorkLimit)
  | last :: _ =>
    let bnTargetLimit := if fProofOfStake then GetProofOfStakeLimit (nHeight last) else ProofOfWorkLimit in
    match GetLastBlockIndex pindexLast fProofOfStake with
    | [] => None
    | [_] => Some (CBigNum.GetCompact bnTargetLimit)
    | pindexPrev :: prev_pprev =>
      match GetLastBlockIndex prev_pprev fProofOfStake with
      | [] => None
      | [_] => Some (CBigNum.GetCompact bnTargetLimit)
      | pindexPrevPrev :: _ =>
        Some (CBigNum.GetCompact (retarget bnTargetLimit (GetTargetSpacing (nHeight last))
          (GetBlockTime pindexPrev - GetBlockTime pindexPrevPrev) (CBigNum.SetCompact (bi_nBits pindexPrev))))
      end
    end
  end.

Definition CheckProofOfWork (hash nBits : Z) : bool :=
  let bnTarget := CBigNum.SetCompact nBits in
  if (bnTarget <=? 0) || (ProofOfWorkLimit <? bnTarget) then false
  else negb (le_val (CBigNum.getuint256 bnTarget) <? hash).
End difficulty.
End Difficulty.

(** ** Rewards *)
Module Reward.
Definition GetCoinYearReward : Z := 6 * CENT.
(** [best_height] is [pindexBest->nHeight]. *)
Definition GetProofOfWorkReward (best_height nFees : Z) : Z :=
  let nSubsidy :=
    if best_height + 1 =? 1 then 57000000 * COIN
    else if (1 <? best_height + 1) && (best_height + 1 <=? 10) then 10 * COIN
    else if (10 <? best_height + 1) && (best_height + 1 <=? 50) then 20 * COIN
    else if (50 <? best_height + 1) && (best_height + 1 <=? 100) then 25 * COIN
    else 1 * COIN in
  i64 (nSubsidy + nFees).
Definition GetProofOfStakeReward (nCoinAge nFees : Z) : Z :=
  let nSubsidy := u64 (u64 (u64 (nCoinAge * GetCoinYearReward) * 33) / (365 * 33 + 8)) in
  u64 (nSubsidy + nFees).
End Reward.

(** ** Facts *)
Module DifficultyFacts.
Import CompactFacts BlockIndex Difficulty.

Section difficulty.
Context `{BNLibOk}.

(** A 256-bit number has a compact form. *)
Lemma target_length n : 0 <= n < 2 ^ 256 -> zlen (mpi_encode n) < 256.
Proof.
  intros Hn. assert (length (mpi_encode n) <= 33)%nat as Hl; [|unfold zlen; lia].
  apply length_mpi_encode_le. rewrite Z.abs_eq by lia. change (128 * 256 ^ Z.of_nat 32) with (2 ^ 263). lia.
Qed.

(** With times in order the target moves by at most a factor of 7/9 down and 3 up. *)
Lemma retarget_bounds limit spacing p : 0 < limit -> 2 <= p <= limit -> 0 <= spacing < 2 ^ 62 ->
  0 < retarget limit 120 spacing p <= limit /\
  retarget limit 120 spacing p <= 3 * p /\ 7 * p < 9 * (retarget limit 120 spacing p + 1).
Proof.
  intros Hl Hp Hs. unfold retarget, nTargetTimespan. change (Z.quot (16 * 60) 120) with 8.
  set (a := if 120 * 10 <? spacing then 120 * 10 else spacing).
  assert (0 <= a <= 1200) as Ha by (unfold a; destruct (Z.ltb_spec (120 * 10) spacing); lia).
  rewrite !of_int_exact by (unfold in_s; lia).
  set (x := p * ((8 - 1) * 120 + a + a)). change ((8 + 1) * 120) with 1080.
  assert (p * 840 <= x <= p * 3240) as Hx by (unfold x; nia).
  rewrite Z.quot_div_nonneg by lia.
  assert (p * 840 / 1080 <= x / 1080 <= p * 3240 / 1080) as [H1 H2]
    by (split; apply Z.div_le_mono; lia).
  replace (p * 3240) with (3 * p * 1080) in H2 by lia. rewrite Z.div_mul in H2 by lia.
  assert (7 * p < 9 * (x / 1080 + 1) /\ 1 <= x / 1080) as [H3 H4] by (Z.div_mod_to_equations; lia).
  destruct (Z.leb_spec (x / 1080) 0); [lia|]. simpl orb.
  destruct (Z.ltb_spec limit (x / 1080)); lia.
Qed.

Variables (ProofOfWorkLimit bnProofOfStakeLimit : Z).

Definition target_limit (fProofOfStake : bool) : Z :=
  if fProofOfStake then bnProofOfStakeLimit else ProofOfWorkLimit.

Lemma GetLastBlockIndex_nonempty pindex f : pindex <> [] -> GetLastBlockIndex pindex f <> [].
Proof.
  induction pindex as [|b [|b' l] IH]; intros Hne; [done|done|].
  change (GetLastBlockIndex (b :: b' :: l) f) with
    (if Bool.eqb (IsProofOfStake b) f then b :: b' :: l else GetLastBlockIndex (b' :: l) f).
  destruct (Bool.eqb _ _); [done|by apply IH].
Qed.

Lemma CheckProofOfWork_iff hash nBits : 0 < ProofOfWorkLimit < 2 ^ 256 ->
  CheckProofOfWork ProofOfWorkLimit hash nBits = true <->
  0 < CBigNum.SetCompact nBits <= ProofOfWorkLimit /\ hash <= CBigNum.SetCompact nBits.
Proof.
  intros Hl. unfold CheckProofOfWork. set (t := CBigNum.SetCompact nBits).
  destruct (Z.leb_spec t 0); simpl; [split; [done|lia]|].
  destruct (Z.ltb_spec ProofOfWorkLimit t); simpl; [split; [done|lia]|].
  rewrite getuint256_exact by lia. rewrite negb_true_iff, Z.ltb_ge. lia.
Qed.

(** With block times in order, the target [GetNextTargetRequired] asks for is positive and
    not above the limit, at most three times the previous one and, before it is rounded
    down to compact form, at least seven ninths of it; and a proof of work for it is
    accepted exactly when its hash is not above it. *)
Theorem next_target_bounded pindexLast prev l prevprev l' f :
  0 < target_limit f < 2 ^ 256 -> 0 < ProofOfWorkLimit < 2 ^ 256 ->
  GetLastBlockIndex pindexLast f = prev :: l -> GetLastBlockIndex l f = prevprev :: l' -> l' <> [] ->
  2 <= CBigNum.SetCompact (bi_nBits prev) <= target_limit f ->
  0 <= bi_nTime prevprev <= bi_nTime prev -> bi_nTime prev < 2 ^ 32 ->
  exists t, GetNextTargetRequired ProofOfWorkLimit bnProofOfStakeLimit pindexLast f = Some (CBigNum.GetCompact t) /\
    0 < CBigNum.SetCompact (CBigNum.GetCompact t) <= t /\ t <= target_limit f /\
    t <= 3 * CBigNum.SetCompact (bi_nBits prev) /\ 7 * CBigNum.SetCompact (bi_nBits prev) < 9 * (t + 1) /\
    forall hash, f = false -> CheckProofOfWork ProofOfWorkLimit hash (CBigNum.GetCompact t) = true <->
      hash <= CBigNum.SetCompact (CBigNum.GetCompact t).
Proof.
  intros Hl Hw E1 E2 Hl' Hp Ht Ht'.
  assert (pindexLast <> []) as Hne by (by intros ->).
  set (p := CBigNum.SetCompact (bi_nBits prev)) in *.
  set (t := retarget (target_limit f) 120 (bi_nTime prev - bi_nTime prevprev) p).
  destruct (retarget_bounds (target_limit f) (bi_nTime prev - bi_nTime prevprev) p) as (B1 & B2 & B3);
    [lia|done|lia|]. fold t in B1, B2, B3.
  pose proof (GetCompact_floor t ltac:(lia) ltac:(apply target_length; lia)) as Hf.
  exists t. split; [|split; [done|]; split; [lia|]; split; [done|]; split; [done|]].
  - unfold GetNextTargetRequired. destruct pindexLast as [|last rest]; [done|]. rewrite E1.
    destruct l as [|b l]; [done|]. rewrite E2. destruct l' as [|b' l']; [done|]. by destruct f.
  - intros hash ->. rewrite CheckProofOfWork_iff by done. cbn [target_limit] in *. lia.
Qed.
End difficulty.

(** Proof-of-work blocks at heights 0, 1, 2, ..., the last one first. *)
Definition pow_index (height bits time : Z) : CBlockIndex :=
  mk_index height None 0 0 0 height 0 0 0 0 OutPoint.null 0 0 1 0 time bits 0.
Definition pow_chain : index_ptr :=
  [pow_index 2 0x1e0fffff 1100; pow_index 1 0x1e0fffff 1000; pow_index 0 0x1e0fffff 500].

Lemma next_target_bounded_witness :
  exists t, @GetNextTargetRequired ref_bn (2 ^ 236 - 1) (2 ^ 236 - 1) pow_chain false =
    Some (@CBigNum.GetCompact ref_bn t) /\ 0 < t < 2 ^ 236.
Proof.
  destruct (@next_target_bounded ref_bn ref_bn_ok (2 ^ 236 - 1) (2 ^ 236 - 1) pow_chain
    (pow_index 2 0x1e0fffff 1100) (tl pow_chain) (pow_index 1 0x1e0fffff 1000) (tl (tl pow_chain)) false)
    as (t & E & Ht & Hl & _).
  - simpl. lia.
  - lia.
  - reflexivity.
  - reflexivity.
  - discriminate.
  - vm_compute. split; discriminate.
  - simpl. lia.
  - simpl. lia.
  - exists t. split; [exact E|]. simpl in Hl. lia.
Defined.
End DifficultyFacts.

Module MedianFacts.
Import BlockIndex.

Lemma past_times_eq i pindex acc : past_times i pindex acc = rev (take i (map GetBlockTime pindex)) ++ acc.
Proof.
  revert i acc. induction pindex as [|b l IH]; intros [|i] acc; try done.
  cbn [past_times map take rev]. by rewrite IH, <- app_assoc.
Qed.

Lemma filter_all {A} (P : A -> Prop) `{forall x, Decision (P x)} (l : list A) : (forall x, x ∈ l -> P x) -> filter P l = l.
Proof.
  induction l as [|x l IH]; intros Hl; [done|]. rewrite filter_cons_True by (apply Hl; by left).
  f_equal. apply IH. intros y Hy. apply Hl. by right.
Qed.

(** The middle element of a sorted copy splits the list in halves. *)
Lemma sorted_middle (l : list Z) m : merge_sort Z.le l !! (length l / 2)%nat = Some m ->
  m ∈ l /\ (length (filter (fun t => t < m)%Z l) <= length l / 2 < length (filter (fun t => t <= m)%Z l))%nat.
Proof.
  intros E. set (s := merge_sort Z.le l) in *.
  assert (s ≡ₚ l) as Hp by apply merge_sort_Permutation.
  assert (StronglySorted Z.le s) as Hs by (apply StronglySorted_merge_sort; apply _).
  split. { rewrite <- Hp. by apply list_elem_of_lookup_2 in E. }
  rewrite <- (Permutation_length (filter_Permutation (fun t => t < m)%Z _ _ Hp)),
    <- (Permutation_length (filter_Permutation (fun t => t <= m)%Z _ _ Hp)).
  assert (length (take (length l / 2) s) = length l / 2)%nat as Hk.
  { rewrite length_take. apply lookup_lt_Some in E. lia. }
  pose proof (take_drop_middle s (length l / 2) m E) as Em. rewrite <- Em in Hs |- *.
  set (s1 := take _ s) in *. set (s2 := drop _ s) in *.
  apply StronglySorted_app in Hs as (Hx & _ & Hs2). apply StronglySorted_inv in Hs2 as [_ Hge].
  rewrite !filter_app, !filter_cons. rewrite (decide_False (P := m < m)), (decide_True (P := m <= m)) by lia.
  rewrite Forall_forall in Hge.
  assert (filter (fun t => t < m)%Z s2 = []) as ->.
  { apply elem_of_nil_inv. intros x [Hlt Hin]%list_elem_of_filter. specialize (Hge x Hin). lia. }
  assert (filter (fun t => t <= m)%Z s1 = s1) as ->.
  { apply filter_all. intros x Hin. apply Hx; [done|by left]. }
  rewrite app_nil_r, !length_app, length_cons. pose proof (length_filter (fun t => t < m)%Z s1). lia.
Qed.

(** [GetMedianTimePast] is the median of the times of the last eleven blocks (all of them near
    genesis): one of these times, with at most half of them before it and more than
    half not after it. *)
Theorem GetMedianTimePast_median pindex : pindex <> [] ->
  let times := take nMedianTimeSpan (map GetBlockTime pindex) in
  exists m, GetMedianTimePast pindex = Some m /\ m ∈ times /\
    (length (filter (fun t => t < m)%Z times) <= length times / 2 < length (filter (fun t => t <= m)%Z times))%nat.
Proof.
  intros Hne times. unfold GetMedianTimePast. cbv zeta. rewrite past_times_eq, app_nil_r. fold times.
  assert (rev times ≡ₚ times) as Hp by (symmetry; apply Permutation_rev).
  assert (length (merge_sort Z.le (rev times)) = length (rev times)) as Hl by apply Permutation_length, merge_sort_Permutation.
  rewrite Hl.
  destruct (lookup_lt_is_Some_2 (merge_sort Z.le (rev times)) (length (rev times) / 2)) as [m Em].
  { rewrite Hl. apply Nat.div_lt; [|lia]. rewrite length_rev. destruct pindex; [done|]. simpl. lia. }
  exists m. split; [done|]. apply sorted_middle in Em as [Hin Hc].
  rewrite length_rev, !(Permutation_length (filter_Permutation _ _ _ Hp)) in Hc. by rewrite Hp in Hin.
Qed.

Lemma GetMedianTimePast_median_witness : exists m, GetMedianTimePast DifficultyFacts.pow_chain = Some m /\ m = 1000.
Proof.
  destruct (GetMedianTimePast_median DifficultyFacts.pow_chain) as (m & E & _); [discriminate|].
  exists m. split; [exact E|]. vm_compute in E. injection E as <-. reflexivity.
Defined.
End MedianFacts.
