(* ===== verification/Locator.v ===== *)
(** * Locator: block locators (class CBlockLocator of src/src/main.h)

    The sender lists hashes of its chain with growing gaps; the receiver looks
    for the first one in its own main chain. *)

From S2P Require Import Prelude BigNum Serialize Crypto Keys Core Block Chain.

(** An object of the index with its [pprev]; [mapBlockIndex] holds pointers to objects. *)
Definition index_object : Type := CBlockIndex * index_ptr.

Module Locator.
Section locator.
(** [Params().HashGenesisBlock()], [mapBlockIndex], [pindexGenesisBlock] and [pindexBest]. *)
Variables (HashGenesisBlock : Z) (mapBlockIndex : gmap Z index_object).
Variables (pindexGenesisBlock : option index_object) (pindexBest : option Z).

(** The [while] loop of [Set]: [size] is [vHave.size()]; one iteration drops at least one block. *)
Fixpoint set_loop (fuel size nStep : nat) (pindex : index_ptr) : list Z :=
  match fuel, pindex with
  | S fuel, b :: _ =>
    phashBlock b ::
    set_loop fuel (S size) (if bool_decide (10 < S size)%nat then nStep * 2 else nStep)%nat (drop nStep pindex)
  | _, _ => []
  end.
Definition Set_ (pindex : index_ptr) : list Z := set_loop (length pindex) 0 1 pindex ++ [HashGenesisBlock].
(** The constructor from a hash. *)
Definition of_hash (hashBlock : Z) : list Z :=
  match mapBlockIndex !! hashBlock with Some (b, pprev) => Set_ (b :: pprev) | None => [] end.
Definition IsNull (vHave : list Z) : bool := bool_decide (vHave = []).

(** The test the three searches share: the block is indexed and in the main chain. *)
Definition in_main (hash : Z) : option index_object :=
  match mapBlockIndex !! hash with
  | Some (b, pprev) => if BlockIndex.IsInMainChain pindexBest b then Some (b, pprev) else None
  | None => None
  end.

Fixpoint distance_loop (vHave : list Z) (nDistance nStep : Z) : Z :=
  match vHave with
  | [] => nDistance
  | hash :: vHave =>
    match in_main hash with
    | Some _ => nDistance
    | None =>
      let nDistance := nDistance + nStep in
      distance_loop vHave nDistance (if 10 <? nDistance then nStep * 2 else nStep)
    end
  end.
Definition GetDistanceBack (vHave : list Z) : Z := distance_loop vHave 0 1.

Fixpoint GetBlockIndex (vHave : list Z) : option index_object :=
  match vHave with
  | [] => pindexGenesisBlock
  | hash :: vHave => match in_main hash with Some o => Some o | None => GetBlockIndex vHave end
  end.
Fixpoint GetBlockHash (vHave : list Z) : Z :=
  match vHave with
  | [] => HashGenesisBlock
  | hash :: vHave => match in_main hash with Some _ => hash | None => GetBlockHash vHave end
  end.
Definition GetHeight (vHave : list Z) : Z :=
  match GetBlockIndex vHave with Some (b, _) => nHeight b | None => 0 end.
End locator.
End Locator.

(** ** Facts *)
Module LocatorFacts.
Import Locator.
Section facts.
Variables (HashGenesisBlock : Z) (mapBlockIndex : gmap Z index_object).
Variables (pindexGenesisBlock : option index_object) (pindexBest : option Z).

(** What [Set] has pushed: eleven consecutive blocks, then gaps that double. *)
Definition stepping (size nStep p : nat) : Prop :=
  (size <= 10 /\ nStep = 1 /\ p = size)%nat \/ (11 <= size /\ p = 9 + nStep /\ 2 <= nStep)%nat.

Lemma stepping_next size nStep p : stepping size nStep p ->
  stepping (S size) (if bool_decide (10 < S size)%nat then nStep * 2 else nStep)%nat (p + nStep).
Proof. unfold stepping. case_bool_decide; lia. Qed.

(** The sender's chain, of which the receiver has exactly the blocks from position [j] on. *)
Variables (chain : index_ptr) (j : nat).
Hypothesis (fork_inside : (j < length chain)%nat).
Hypothesis (shared : forall i b, chain !! i = Some b ->
  is_Some (in_main mapBlockIndex pindexBest (phashBlock b)) <-> (j <= i)%nat).
Hypothesis (genesis_last : phashBlock <$> last chain = Some HashGenesisBlock).

Lemma genesis_found : exists b, chain !! (length chain - 1)%nat = Some b /\ phashBlock b = HashGenesisBlock /\
  is_Some (in_main mapBlockIndex pindexBest HashGenesisBlock).
Proof.
  pose proof genesis_last as Hg. rewrite last_lookup in Hg. apply fmap_Some in Hg as (b & E & Hb).
  exists b. replace (length chain - 1)%nat with (Nat.pred (length chain)) by lia.
  split; [done|]. split; [done|]. rewrite Hb. apply (shared _ _ E). lia.
Qed.

(** The result of the two searches: [vHave] leads to a common block between [j] and [2 j] steps back. *)
Definition finds (vHave : list Z) (nDistance nStep : nat) : Prop :=
  exists d b, (j <= d <= 2 * j)%nat /\ chain !! d = Some b /\
    is_Some (in_main mapBlockIndex pindexBest (phashBlock b)) /\
    GetBlockHash HashGenesisBlock mapBlockIndex pindexBest vHave = phashBlock b /\
    GetBlockIndex mapBlockIndex pindexGenesisBlock pindexBest vHave = in_main mapBlockIndex pindexBest (phashBlock b) /\
    Z.of_nat d <= distance_loop mapBlockIndex pindexBest vHave (Z.of_nat nDistance) (Z.of_nat nStep) <= 2 * Z.of_nat j.

Lemma genesis_finds p nStep : (length chain - 1 <= p <= 2 * j)%nat -> finds [HashGenesisBlock] p nStep.
Proof.
  intros Hl. destruct genesis_found as (g & Eg & Hg & Hm). exists (length chain - 1)%nat, g.
  split; [lia|]. split; [done|]. rewrite Hg. split; [done|]. cbn [GetBlockHash GetBlockIndex distance_loop].
  destruct (in_main _ _ HashGenesisBlock); [|by destruct Hm]. split; [done|]. split; [done|lia].
Qed.

Lemma set_loop_found fuel size nStep p : stepping size nStep p -> (p <= 2 * j)%nat -> (length chain - p <= fuel)%nat ->
  finds (set_loop fuel size nStep (drop p chain) ++ [HashGenesisBlock]) p nStep.
Proof.
  revert size nStep p. induction fuel as [|fuel IH]; intros size nStep p Hs Hp Hf; [apply genesis_finds; lia|].
  destruct (drop p chain) as [|b l] eqn:Ed.
  { apply genesis_finds. apply (f_equal length) in Ed. rewrite length_drop in Ed. simpl in Ed. lia. }
  assert (chain !! p = Some b) as Eb by (pose proof (lookup_drop chain p 0) as E; rewrite Ed, Nat.add_0_r in E; exact (eq_sym E)).
  cbn [set_loop app]. unfold finds. cbn [GetBlockHash GetBlockIndex distance_loop].
  destruct (in_main mapBlockIndex pindexBest (phashBlock b)) as [o|] eqn:Em.
  - exists p, b. rewrite Em. assert (j <= p)%nat by (apply (shared p b Eb); by rewrite Em).
    split; [lia|]. do 4 (split; [done|]). lia.
  - assert (p < j)%nat as Hpj.
    { destruct (decide (j <= p)%nat) as [Hjp|]; [|lia]. apply (shared p b Eb) in Hjp as [o Eo]. congruence. }
    rewrite <- Ed, drop_drop.
    replace (Z.of_nat p + Z.of_nat nStep) with (Z.of_nat (p + nStep)) by lia.
    assert ((if 10 <? Z.of_nat (p + nStep) then Z.of_nat nStep * 2 else Z.of_nat nStep) =
      Z.of_nat (if bool_decide (10 < S size)%nat then nStep * 2 else nStep)) as ->.
    { unfold stepping in Hs. destruct (Z.ltb_spec 10 (Z.of_nat (p + nStep))); case_bool_decide; lia. }
    apply IH; [by apply stepping_next| |].
    + unfold stepping in Hs. lia.
    + apply lookup_lt_Some in Eb. unfold stepping in Hs. lia.
Qed.

(** A locator finds a common block near the fork: if the receiver's main chain has the sender's
    blocks from [j] steps back on, the search returns one that is between [j] and [2 j]
    steps back, and [GetDistanceBack] is an estimate between the two. *)
Theorem locator_finds_fork :
  exists d b, (j <= d <= 2 * j)%nat /\ chain !! d = Some b /\
    GetBlockHash HashGenesisBlock mapBlockIndex pindexBest (Set_ HashGenesisBlock chain) = phashBlock b /\
    GetBlockIndex mapBlockIndex pindexGenesisBlock pindexBest (Set_ HashGenesisBlock chain) =
      mapBlockIndex !! phashBlock b /\
    Z.of_nat d <= GetDistanceBack mapBlockIndex pindexBest (Set_ HashGenesisBlock chain) <= 2 * Z.of_nat j.
Proof.
  destruct (set_loop_found (length chain) 0 1 0) as (d & b & Hd & E & Hm & Eh & Ei & Hb); [left; lia|lia|lia|].
  rewrite drop_0 in Eh, Ei, Hb. exists d, b. do 3 (split; [done|]). split; [|exact Hb].
  unfold Set_. rewrite Ei. unfold in_main in *. destruct (mapBlockIndex !! phashBlock b) as [[b' pp]|]; [|by destruct Hm].
  destruct (BlockIndex.IsInMainChain _ _); [done|by destruct Hm].
Qed.
End facts.

(** A chain of four blocks whose two newest ones the receiver does not have. *)
Definition numbered (k : Z) : CBlockIndex :=
  mk_index (100 + k) (if 0 <? k then Some (99 + k) else None) 0 0 0 k 0 0 0 0 OutPoint.null 0 0 1 0 0 0 0.
Definition sender_chain : index_ptr := [numbered 3; numbered 2; numbered 1; numbered 0].
Definition receiver_map : gmap Z index_object :=
  <[100 := (numbered 0, [])]> (<[101 := (numbered 1, [numbered 0])]> ∅).

Lemma locator_finds_fork_witness :
  exists d b, (2 <= d <= 4)%nat /\ sender_chain !! d = Some b /\
    GetBlockHash 100 receiver_map (Some 100) (Set_ 100 sender_chain) = phashBlock b.
Proof.
  destruct (locator_finds_fork 100 receiver_map None (Some 100) sender_chain 2) as (d & b & Hd & E & Eh & _).
  - simpl. lia.
  - intros [|[|[|[|i]]]] b E; simpl in E; simplify_eq; vm_compute; split; intros Hx;
      try lia; try (destruct Hx; discriminate); try (eexists; reflexivity).
    all: try (exfalso; lia).
  - reflexivity.
  - exists d, b. split; [lia|]. split; [exact E|exact Eh].
Defined.
End LocatorFacts.
