(* ===== verification/TxCheck.v ===== *)
(** * TxCheck: the context-free and policy checks of a transaction (src/src/main.cpp)

    [CheckTransaction], the standardness rules, signature-operation counts and
    fees; the records of the transaction index that the checks read. *)

From S2P Require Import Prelude BigNum ScriptOps Serialize Crypto Keys Core SigHash Interp Standard.
Import CScript.

Definition MAX_BLOCK_SIZE : Z := 1000000.
Definition MAX_BLOCK_SIZE_GEN : Z := MAX_BLOCK_SIZE / 2.
Definition MAX_STANDARD_TX_SIZE : Z := MAX_BLOCK_SIZE_GEN / 5.
Definition MAX_P2SH_SIGOPS : Z := 15.
Definition MIN_TX_FEE : Z := 10000.
Definition MIN_RELAY_TX_FEE : Z := MIN_TX_FEE.
Definition FutureDrift (nTime : Z) : Z := i64 (nTime + 10 * 60).

(** ** The transaction index *)
Record CDiskTxPos := mk_pos { p_nFile : Z; p_nBlockPos : Z; p_nTxPos : Z }.
#[export] Instance CDiskTxPos_eq_dec : EqDecision CDiskTxPos.
Proof. solve_decision. Defined.
Module DiskPos.
Definition SetNull : CDiskTxPos := mk_pos UINT_MAX 0 0.
Definition IsNull (p : CDiskTxPos) : bool := p_nFile p =? UINT_MAX.
End DiskPos.

Record CTxIndex := mk_txindex { pos : CDiskTxPos; vSpent : list CDiskTxPos }.
#[export] Instance CTxIndex_eq_dec : EqDecision CTxIndex.
Proof. solve_decision. Defined.
Module TxIndex.
Definition SetNull : CTxIndex := mk_txindex DiskPos.SetNull [].
Definition IsNull (t : CTxIndex) : bool := DiskPos.IsNull (pos t).
(** The constructor from a position and a number of outputs. *)
Definition of_pos (posIn : CDiskTxPos) (nOutputs : nat) : CTxIndex :=
  mk_txindex posIn (replicate nOutputs DiskPos.SetNull).
End TxIndex.

Abbreviation MapPrevTx := (gmap Z (CTxIndex * CTransaction)).

(** [false] with the number of points that [DoS] adds to [nDoS]. *)
Inductive verdict := Accept | Reject (nDoS : Z).
#[export] Instance verdict_eq_dec : EqDecision verdict.
Proof. solve_decision. Defined.

(** ** [CTransaction::CheckTransaction] *)
Module Check.
(** The outputs; the sum is a signed 64-bit addition. *)
Fixpoint check_outputs (user_tx : bool) (nValueOut : Z) (l : list CTxOut) : verdict :=
  match l with
  | [] => Accept
  | txout :: l =>
    if TxOut.IsEmpty txout && user_tx then Reject 100 else
    if nValue txout <? 0 then Reject 100 else
    if MAX_MONEY <? nValue txout then Reject 100 else
    let nValueOut := i64 (nValueOut + nValue txout) in
    if negb (MoneyRange nValueOut) then Reject 100 else check_outputs user_tx nValueOut l
  end.

(** The set of outpoints seen so far. *)
Fixpoint check_duplicates (vInOutPoints : gset COutPoint) (l : list CTxIn) : bool :=
  match l with
  | [] => true
  | txin :: l =>
    if bool_decide (prevout txin ∈ vInOutPoints) then false
    else check_duplicates ({[prevout txin]} ∪ vInOutPoints) l
  end.

Definition CheckTransaction (t : CTransaction) : verdict :=
  if bool_decide (vin t = []) then Reject 10 else
  if bool_decide (vout t = []) then Reject 10 else
  if MAX_BLOCK_SIZE <? GetSerializeSize t then Reject 100 else
  match check_outputs (negb (Tx.IsCoinBase t) && negb (Tx.IsCoinStake t)) 0 (vout t) with
  | Reject d => Reject d
  | Accept =>
    if negb (check_duplicates ∅ (vin t)) then Reject 0 else
    if Tx.IsCoinBase t then
      match vin t with
      | i :: _ => if (zlen (scriptSig i) <? 2) || (100 <? zlen (scriptSig i)) then Reject 100 else Accept
      | [] => Accept
      end
    else if existsb (fun txin => OutPoint.IsNull (prevout txin)) (vin t) then Reject 10 else Accept
  end.

(** ** [GetMinFee]: sizes are 32-bit unsigned, fees 64-bit signed *)
Inductive GetMinFee_mode := GMF_BLOCK | GMF_RELAY | GMF_SEND.

Definition GetMinFee (nBlockSize : Z) (mode : GetMinFee_mode) (nBytes : Z) : Z :=
  let nBaseFee := match mode with GMF_RELAY => MIN_RELAY_TX_FEE | _ => MIN_TX_FEE end in
  let nNewBlockSize := u32 (nBlockSize + nBytes) in
  let nMinFee := i64 ((1 + nBytes / 1000) * nBaseFee) in
  let capped nMinFee := if negb (MoneyRange nMinFee) then MAX_MONEY else nMinFee in
  if negb (nBlockSize =? 1) && (MAX_BLOCK_SIZE_GEN / 2 <=? nNewBlockSize) then
    if MAX_BLOCK_SIZE_GEN <=? nNewBlockSize then MAX_MONEY
    else capped (i64 (nMinFee * (MAX_BLOCK_SIZE_GEN / (MAX_BLOCK_SIZE_GEN - nNewBlockSize))))
  else capped nMinFee.

(** ** [IsFinalTx]: zero arguments stand for the best height and the adjusted time *)
Definition IsFinalTx (nBestHeight adjusted_time : Z) (t : CTransaction) (nBlockHeight nBlockTime : Z) : bool :=
  if nLockTime t =? 0 then true else
  let nBlockHeight := if nBlockHeight =? 0 then nBestHeight else nBlockHeight in
  let nBlockTime := if nBlockTime =? 0 then adjusted_time else nBlockTime in
  if nLockTime t <? (if nLockTime t <? LOCKTIME_THRESHOLD then nBlockHeight else nBlockTime) then true
  else forallb IsFinal (vin t).

(** ** Looking up the outputs that are spent; [None] is the exception *)
Definition GetOutputFor (input : CTxIn) (inputs : MapPrevTx) : option CTxOut :=
  '(_, txPrev) ← inputs !! o_hash (prevout input);
  if zlen (vout txPrev) <=? o_n (prevout input) then None
  else vout txPrev !! Z.to_nat (o_n (prevout input)).

Fixpoint value_in (inputs : MapPrevTx) (nResult : Z) (l : list CTxIn) : option Z :=
  match l with
  | [] => Some nResult
  | txin :: l => prev ← GetOutputFor txin inputs; value_in inputs (i64 (nResult + nValue prev)) l
  end.
Definition GetValueIn (t : CTransaction) (inputs : MapPrevTx) : option Z :=
  if Tx.IsCoinBase t then Some 0 else value_in inputs 0 (vin t).

(** ** Signature operations; the sums are 32-bit unsigned *)
Definition GetLegacySigOpCount (t : CTransaction) : Z :=
  let nSigOps := fold_left (fun n txin => u32 (n + GetSigOpCount false (scriptSig txin))) (vin t) 0 in
  fold_left (fun n txout => u32 (n + GetSigOpCount false (scriptPubKey txout))) (vout t) nSigOps.

Fixpoint p2sh_sigops (inputs : MapPrevTx) (nSigOps : Z) (l : list CTxIn) : option Z :=
  match l with
  | [] => Some nSigOps
  | txin :: l =>
    prev ← GetOutputFor txin inputs;
    p2sh_sigops inputs
      (if IsPayToScriptHash (scriptPubKey prev)
       then u32 (nSigOps + GetSigOpCount_p2sh (scriptPubKey prev) (scriptSig txin)) else nSigOps) l
  end.
Definition GetP2SHSigOpCount (t : CTransaction) (inputs : MapPrevTx) : option Z :=
  if Tx.IsCoinBase t then Some 0 else p2sh_sigops inputs 0 (vin t).

(** ** [IsStandardTx]: [None] when standard, the reason otherwise *)
Section policy.
Variable nMaxDatacarrierBytes : Z.

Definition standard_input (txin : CTxIn) : option string :=
  if 1650 <? zlen (scriptSig txin) then Some "scriptsig-size"%string else
  if negb (IsPushOnly (scriptSig txin)) then Some "scriptsig-not-pushonly"%string else
  if negb (HasCanonicalPushes (scriptSig txin)) then Some "scriptsig-non-canonical-push"%string else None.
Fixpoint standard_inputs (l : list CTxIn) : option string :=
  match l with
  | [] => None
  | txin :: l => match standard_input txin with Some reason => Some reason | None => standard_inputs l end
  end.

(** The number of data outputs, or the reason. *)
Fixpoint standard_outputs (nDataOut : Z) (l : list CTxOut) : Z + string :=
  match l with
  | [] => inl nDataOut
  | txout :: l =>
    let '(ok, whichType) := IsStandard nMaxDatacarrierBytes (scriptPubKey txout) in
    if negb ok then inr "scriptpubkey"%string else
    let data := bool_decide (whichType = TX_NULL_DATA) in
    if negb data && (nValue txout =? 0) then inr "dust"%string else
    if negb (HasCanonicalPushes (scriptPubKey txout)) then inr "scriptpubkey-non-canonical-push"%string
    else standard_outputs (if data then nDataOut + 1 else nDataOut) l
  end.

Definition IsStandardTx (nBestHeight adjusted_time : Z) (t : CTransaction) : option string :=
  if (Tx.CURRENT_VERSION <? nVersion t) || (nVersion t <? 1) then Some "version"%string else
  if negb (IsFinalTx nBestHeight adjusted_time t (i32 (nBestHeight + 1)) 0) then Some "non-final"%string else
  if FutureDrift adjusted_time <? nTime t then Some "time-too-new"%string else
  if MAX_STANDARD_TX_SIZE <=? GetSerializeSize t then Some "tx-size"%string else
  match standard_inputs (vin t) with
  | Some reason => Some reason
  | None =>
    match standard_outputs 0 (vout t) with
    | inr reason => Some reason
    | inl nDataOut =>
      if (1 <? nDataOut) && (zlen (vout t) / 2 <? nDataOut) then Some "multi-op-return"%string else None
    end
  end.

(** ** [AreInputsStandard] *)
Context `{BNLib} `{Digests} `{ECLib} `{SigEnv}.

(** What one input contributes: the function goes on, or returns. *)
Inductive input_step := Next | Return (b : bool).

(** [stack.size() != (unsigned int)nArgsExpected] decides the input. *)
Definition args_match (stk : list valtype) (nArgsExpected : Z) : input_step :=
  if negb (zlen stk =? u32 nArgsExpected) then Return false else Next.

(** [None] is the exception of [GetOutputFor]. *)
Definition input_standard (t : CTransaction) (mapInputs : MapPrevTx) (i : nat) (txin : CTxIn) (c : CSignatureCache) :
    option (input_step * CSignatureCache) :=
  prev ← GetOutputFor txin mapInputs;
  let '(ok, whichType, vSolutions) := Solver nMaxDatacarrierBytes (scriptPubKey prev) in
  if negb ok then Some (Return false, c) else
  let nArgsExpected := ScriptSigArgsExpected whichType vSolutions in
  if nArgsExpected <? 0 then Some (Return false, c) else
  let '(ok, stk, c) := EvalScript [] (scriptSig txin) t i SCRIPT_VERIFY_NONE 0 c in
  if negb ok then Some (Return false, c) else
  if bool_decide (whichType = TX_SCRIPTHASH) then
    match last stk with
    | None => Some (Return false, c)
    | Some subscript =>
      let '(ok2, whichType2, vSolutions2) := Solver nMaxDatacarrierBytes subscript in
      if ok2 then
        let tmpExpected := ScriptSigArgsExpected whichType2 vSolutions2 in
        if tmpExpected <? 0 then Some (Return false, c)
        else Some (args_match stk (nArgsExpected + tmpExpected), c)
      else Some (Return (GetSigOpCount true subscript <=? MAX_P2SH_SIGOPS), c)
    end
  else Some (args_match stk nArgsExpected, c).

Fixpoint inputs_standard (t : CTransaction) (mapInputs : MapPrevTx) (i : nat) (l : list CTxIn) (c : CSignatureCache) :
    option (bool * CSignatureCache) :=
  match l with
  | [] => Some (true, c)
  | txin :: l =>
    '(r, c) ← input_standard t mapInputs i txin c;
    match r with
    | Next => inputs_standard t mapInputs (S i) l c
    | Return b => Some (b, c)
    end
  end.
Definition AreInputsStandard (t : CTransaction) (mapInputs : MapPrevTx) (c : CSignatureCache) :
    option (bool * CSignatureCache) :=
  if Tx.IsCoinBase t then Some (true, c) else inputs_standard t mapInputs 0 (vin t) c.
End policy.
End Check.

(** ** Facts *)
Module CheckFacts.
Import Check.

Lemma check_outputs_accept user acc l : 0 <= acc <= MAX_MONEY -> Forall (fun o => in_s 64 (nValue o)) l ->
  check_outputs user acc l = Accept <->
  Forall (fun o => 0 <= nValue o <= MAX_MONEY /\ (user = true -> TxOut.IsEmpty o = false)) l /\
  acc + sum_out l <= MAX_MONEY.
Proof.
  intros Hacc Hl. revert acc Hacc. induction Hl as [|o l Ho Hl IH]; intros acc Hacc; cbn [check_outputs].
  { change (sum_out []) with 0. split; [intros _; split; [constructor|lia]|done]. }
  change (sum_out (o :: l)) with (nValue o + sum_out l). rewrite Forall_cons.
  assert (forall l', Forall (fun o => 0 <= nValue o <= MAX_MONEY /\ (user = true -> TxOut.IsEmpty o = false)) l' ->
    0 <= sum_out l') as Hsum.
  { intros l' Hl'. induction Hl' as [|o' l' [? _] _ IH']; [done|]. change (sum_out (o' :: l')) with (nValue o' + sum_out l'). lia. }
  destruct (TxOut.IsEmpty o && user) eqn:Eu.
  { apply andb_true_iff in Eu as [Ee ->]. split; [done|]. intros [[[_ Hn] _] _]. by rewrite Hn in Ee. }
  destruct (Z.ltb_spec (nValue o) 0); [split; [done|lia]|].
  destruct (Z.ltb_spec MAX_MONEY (nValue o)); [split; [done|lia]|].
  rewrite MAX_MONEY_eq in *. rewrite i64_id by lia.
  destruct (MoneyRange (acc + nValue o)) eqn:Em; simpl negb; cbv iota.
  - apply MoneyRange_spec in Em. rewrite MAX_MONEY_eq in Em. rewrite IH by lia.
    assert (user = true -> TxOut.IsEmpty o = false) by (intros ->; by rewrite andb_true_r in Eu).
    split; [intros [? ?]|intros [[? ?] ?]]; (split; [|lia]); [split; [split; [lia|done]|done]|done].
  - split; [done|]. intros [[_ Hf] Hs]. apply Hsum in Hf. exfalso. apply not_true_iff_false in Em. apply Em.
    apply MoneyRange_spec. rewrite MAX_MONEY_eq. lia.
Qed.

Lemma check_duplicates_spec s l : check_duplicates s l = true <->
  NoDup (map prevout l) /\ forall txin, txin ∈ l -> prevout txin ∉ s.
Proof.
  revert s. induction l as [|txin l IH]; intros s; cbn [check_duplicates map].
  { split; [|done]. intros _. split; [constructor|]. intros txin Hin. by apply not_elem_of_nil in Hin. }
  rewrite NoDup_cons. case_bool_decide as Hs.
  { split; [done|]. intros [_ Hn]. destruct (Hn txin); [by left|done]. }
  rewrite IH. split.
  - intros [Hnd Hn]. split; [split; [|done]|].
    + intros (i & E & Hi)%list_elem_of_fmap. apply (Hn i Hi). rewrite <- E. set_solver.
    + intros i [->|Hi]%elem_of_cons; [done|]. specialize (Hn i Hi). set_solver.
  - intros [[Hni Hnd] Hn]. split; [done|]. intros i Hi. pose proof (Hn i ltac:(by right)).
    enough (prevout i <> prevout txin) by set_solver. intros E. apply Hni. rewrite <- E. by apply list_elem_of_fmap_2.
Qed.

(** What [CheckTransaction] is meant to accept. *)
Record valid_tx (t : CTransaction) : Prop := {
  valid_nonempty : vin t <> [] /\ vout t <> [];
  valid_size : GetSerializeSize t <= MAX_BLOCK_SIZE;
  valid_values : Forall (fun o => 0 <= nValue o <= MAX_MONEY) (vout t);
  valid_total : sum_out (vout t) <= MAX_MONEY;
  valid_marker : Tx.IsCoinBase t = false -> Tx.IsCoinStake t = false -> Forall (fun o => TxOut.IsEmpty o = false) (vout t);
  valid_inputs : NoDup (map prevout (vin t));
  valid_coinbase : Tx.IsCoinBase t = true -> Forall (fun i => 2 <= zlen (scriptSig i) <= 100) (vin t);
  valid_prevouts : Tx.IsCoinBase t = false -> Forall (fun i => OutPoint.IsNull (prevout i) = false) (vin t)
}.

Lemma existsb_Forall {A} (f : A -> bool) l : existsb f l = false <-> Forall (fun x => f x = false) l.
Proof. induction l as [|x l IH]; [done|]. simpl. by rewrite orb_false_iff, IH, Forall_cons. Qed.

(** The last checks: the script of a coinbase, the outpoints of other transactions. *)
Lemma check_inputs_accept t : vin t <> [] ->
  (if Tx.IsCoinBase t then
     match vin t with
     | i :: _ => if (zlen (scriptSig i) <? 2) || (100 <? zlen (scriptSig i)) then Reject 100 else Accept
     | [] => Accept
     end
   else if existsb (fun txin => OutPoint.IsNull (prevout txin)) (vin t) then Reject 10 else Accept) = Accept <->
  (Tx.IsCoinBase t = true -> Forall (fun i => 2 <= zlen (scriptSig i) <= 100) (vin t)) /\
  (Tx.IsCoinBase t = false -> Forall (fun i => OutPoint.IsNull (prevout i) = false) (vin t)).
Proof.
  intros Hne. destruct (Tx.IsCoinBase t) eqn:Ec.
  - unfold Tx.IsCoinBase in Ec. destruct (vin t) as [|i [|]]; [done| |done].
    rewrite Forall_singleton.
    destruct (Z.ltb_spec (zlen (scriptSig i)) 2), (Z.ltb_spec 100 (zlen (scriptSig i))); simpl;
      (split; [intros E; first [discriminate E|split; [lia|done]]|intros [Hr _]; specialize (Hr eq_refl); lia || done]).
  - rewrite <- existsb_Forall. destruct (existsb _ (vin t)); [split; [done|intros [_ Hx]; by specialize (Hx eq_refl)]|].
    split; [done|done].
Qed.

(** C38. [CheckTransaction] accepts exactly the transactions that have inputs and outputs, fit in a
    block, whose output values and their total are in the money range, that spend no
    outpoint twice, whose coinbase script has between 2 and 100 bytes and whose other
    inputs are not null; the running 64-bit sum never wraps. *)
Theorem CheckTransaction_spec t : Forall (fun o => in_s 64 (nValue o)) (vout t) ->
  CheckTransaction t = Accept <-> valid_tx t.
Proof.
  intros Hv. unfold CheckTransaction. case_bool_decide as Hi; [split; [done|intros []; tauto]|].
  case_bool_decide as Ho; [split; [done|intros []; tauto]|].
  destruct (Z.ltb_spec MAX_BLOCK_SIZE (GetSerializeSize t)); [split; [done|intros []; lia]|].
  pose proof (check_outputs_accept (negb (Tx.IsCoinBase t) && negb (Tx.IsCoinStake t)) 0 (vout t)
    ltac:(rewrite MAX_MONEY_eq; lia) Hv) as Hco.
  assert (Forall (fun o => 0 <= nValue o <= MAX_MONEY /\
      (negb (Tx.IsCoinBase t) && negb (Tx.IsCoinStake t) = true -> TxOut.IsEmpty o = false)) (vout t) <->
    Forall (fun o => 0 <= nValue o <= MAX_MONEY) (vout t) /\
    (Tx.IsCoinBase t = false -> Tx.IsCoinStake t = false -> Forall (fun o => TxOut.IsEmpty o = false) (vout t))) as Hsplit.
  { rewrite !Forall_forall. destruct (Tx.IsCoinBase t), (Tx.IsCoinStake t); simpl; naive_solver. }
  destruct (check_outputs _ 0 (vout t)) as [|d].
  2:{ split; [done|]. intros Ht. apply Hco. rewrite Hsplit. split; [split; apply Ht|apply Ht]. }
  destruct Hco as [Hco _]. specialize (Hco eq_refl) as [Hcv Hct]. apply Hsplit in Hcv as [Hcv Hcm].
  pose proof (check_duplicates_spec ∅ (vin t)) as Hd.
  destruct (check_duplicates ∅ (vin t)); simpl negb; cbv iota.
  - destruct Hd as [Hd _]. specialize (Hd eq_refl) as [Hd _]. rewrite check_inputs_accept by done.
    split; [intros [? ?]; by split|intros []; by split].
  - split; [done|]. intros Ht. destruct Hd as [_ Hd]. discriminate Hd. split; [apply Ht|set_solver].
Qed.

Definition payment_tx : CTransaction :=
  mk_tx 1 1400000000 [mk_txin (mk_outpoint 77 0) [B#1; B#2] UINT_MAX; mk_txin (mk_outpoint 77 1) [] UINT_MAX]
    [mk_txout 50 [B#0x51]; mk_txout MAX_MONEY []] 0.
(** One unit less in the second output makes it valid. *)
Definition smaller_tx : CTransaction :=
  mk_tx 1 1400000000 (vin payment_tx) [mk_txout 50 [B#0x51]; mk_txout (MAX_MONEY - 50) [B#0x51]] 0.

Lemma CheckTransaction_spec_witness : valid_tx smaller_tx /\ ~ valid_tx payment_tx.
Proof.
  split.
  - apply (CheckTransaction_spec smaller_tx); [apply Forall_cons_2; [|apply Forall_singleton]; (split; [discriminate|reflexivity])|vm_compute; reflexivity].
  - intros Ht. apply (CheckTransaction_spec payment_tx) in Ht; [vm_compute in Ht; discriminate Ht|].
    apply Forall_cons_2; [|apply Forall_singleton]; (split; [discriminate|reflexivity]).
Defined.
End CheckFacts.
