(* ===== verification/Connect.v ===== *)
(** * Connect: spending the outputs of earlier transactions (src/src/main.cpp)

    [FetchInputs], [ConnectInputs] and [DisconnectInputs] of [CTransaction].  The
    transaction database is a map from hashes to index records, and the block
    files a function from positions to transactions. *)

From S2P Require Import Prelude BigNum ScriptOps Serialize Crypto Keys Core SigHash Interp InterpFacts Standard TxCheck Block Chain.
Import Check.

(** [true] with a result; [false] with the points [DoS] adds; a failed assertion, an
    access out of range or an exception that leaves the function. *)
Inductive outcome (A : Type) := Ok (a : A) | Fail (nDoS : Z) | Crash.
Arguments Ok {A} a.
Arguments Fail {A} nDoS.
Arguments Crash {A}.
#[export] Instance outcome_ret : MRet outcome := fun A a => Ok a.
#[export] Instance outcome_bind : MBind outcome := fun A B f m =>
  match m with Ok a => f a | Fail d => Fail d | Crash => Crash end.
(** An access that is undefined out of range. *)
Definition access {A} (o : option A) : outcome A := match o with Some a => Ok a | None => Crash end.
Definition reject_if (b : bool) (nDoS : Z) : outcome () := if b then Fail nDoS else Ok ().

Module Inputs.
Section inputs.
Context `{BNLib} `{Digests} `{ECLib} `{SigEnv}.

(** ** [VerifySignature] of script.cpp *)
Definition VerifySignature (txFrom txTo : CTransaction) (nIn : nat) (flags nHashType : Z) (c : CSignatureCache) :
    outcome (bool * CSignatureCache) :=
  txin ← access (vin txTo !! nIn);
  if zlen (vout txFrom) <=? o_n (prevout txin) then Ok (false, c) else
  txout ← access (vout txFrom !! Z.to_nat (o_n (prevout txin)));
  if negb (o_hash (prevout txin) =? Tx.GetHash txFrom) then Ok (false, c) else
  Ok (VerifyScript (scriptSig txin) (scriptPubKey txout) txTo nIn flags nHashType c).

(** ** [ConnectInputs] *)
(** [nCoinbaseMaturity], [nBestHeight], [Checkpoints::GetTotalBlocksEstimate()]. *)
Variables (nCoinbaseMaturity nBestHeight TotalBlocksEstimate : Z).

Definition IsConfirmedInNPrevBlocks (txindex : CTxIndex) (pindexFrom : index_ptr) (nMaxDepth : Z) : option Z :=
  match pindexFrom with
  | [] => None
  | from :: _ =>
    BlockIndex.confirmed_loop (p_nFile (pos txindex)) (p_nBlockPos (pos txindex)) (nHeight from) nMaxDepth pindexFrom
  end.

(** One input in the first loop: the inexpensive checks, and the sum of the values. *)
Definition check_input (t : CTransaction) (inputs : MapPrevTx) (pindexBlock : index_ptr) (txin : CTxIn) (nValueIn : Z) :
    outcome Z :=
  let n := o_n (prevout txin) in
  '(txindex, txPrev) ← access (inputs !! o_hash (prevout txin));
  _ ← reject_if ((zlen (vout txPrev) <=? n) || (zlen (vSpent txindex) <=? n)) 100;
  _ ← reject_if ((Tx.IsCoinBase txPrev || Tx.IsCoinStake txPrev) &&
        bool_decide (is_Some (IsConfirmedInNPrevBlocks txindex pindexBlock nCoinbaseMaturity))) 0;
  _ ← reject_if (nTime t <? nTime txPrev) 100;
  prev ← access (vout txPrev !! Z.to_nat n);
  _ ← reject_if (TxOut.IsEmpty prev) 1;
  let nValueIn := i64 (nValueIn + nValue prev) in
  _ ← reject_if (negb (MoneyRange (nValue prev)) || negb (MoneyRange nValueIn)) 100;
  Ok nValueIn.

Fixpoint check_loop (t : CTransaction) (inputs : MapPrevTx) (pindexBlock : index_ptr) (l : list CTxIn) (nValueIn : Z) :
    outcome Z :=
  match l with
  | [] => Ok nValueIn
  | txin :: l =>
    nValueIn ← check_input t inputs pindexBlock txin nValueIn;
    check_loop t inputs pindexBlock l nValueIn
  end.

(** What the second loop updates: the local copy of [inputs], the proposed index
    changes of the caller, and the signature cache. *)
Record connecting := mk_connecting {
  c_inputs : MapPrevTx;
  mapTestPool : gmap Z CTxIndex;
  c_cache : CSignatureCache
}.

Definition STANDARD_NOT_MANDATORY_VERIFY_FLAGS : Z :=
  Z.land STANDARD_SCRIPT_VERIFY_FLAGS (Z.lnot MANDATORY_SCRIPT_VERIFY_FLAGS).

(** The signature check of input [i]; a failure that is due to non-mandatory flags only
    is not punished. *)
Definition check_signature (txPrev t : CTransaction) (i : nat) (flags : Z) (c : CSignatureCache) :
    outcome CSignatureCache :=
  '(ok, c) ← VerifySignature txPrev t i flags 0 c;
  if (ok : bool) then Ok c else
  if Z.land flags STANDARD_NOT_MANDATORY_VERIFY_FLAGS =? 0 then Fail 100 else
  '(ok2, _) ← VerifySignature txPrev t i (Z.land flags (Z.lnot STANDARD_NOT_MANDATORY_VERIFY_FLAGS)) 0 c;
  if (ok2 : bool) then Fail 0 else Fail 100.

Definition spend_input (t : CTransaction) (posThisTx : CDiskTxPos) (fBlock fMiner : bool) (flags : Z)
    (i : nat) (txin : CTxIn) (s : connecting) : outcome connecting :=
  let hash := o_hash (prevout txin) in
  let n := Z.to_nat (o_n (prevout txin)) in
  '(txindex, txPrev) ← access (c_inputs s !! hash);
  spent ← access (vSpent txindex !! n);
  _ ← reject_if (negb (DiskPos.IsNull spent)) 0;
  c ← (if fBlock && (nBestHeight <? TotalBlocksEstimate) then Ok (c_cache s)
       else check_signature txPrev t i flags (c_cache s));
  let txindex := mk_txindex (pos txindex) (<[n := posThisTx]> (vSpent txindex)) in
  Ok (mk_connecting (<[hash := (txindex, txPrev)]> (c_inputs s))
        (if fBlock || fMiner then <[hash := txindex]> (mapTestPool s) else mapTestPool s) c).

Fixpoint spend_loop (t : CTransaction) (posThisTx : CDiskTxPos) (fBlock fMiner : bool) (flags : Z)
    (i : nat) (l : list CTxIn) (s : connecting) : outcome connecting :=
  match l with
  | [] => Ok s
  | txin :: l =>
    s ← spend_input t posThisTx fBlock fMiner flags i txin s;
    spend_loop t posThisTx fBlock fMiner flags (S i) l s
  end.

(** [vout[i].scriptPubKey[1] == OP_BURN]; a script with fewer than two bytes is read out of range. *)
Fixpoint burn_loop (l : list CTxOut) (nBurnCoins : Z) : outcome Z :=
  match l with
  | [] => Ok nBurnCoins
  | txout :: l =>
    b ← access (scriptPubKey txout !! 1%nat);
    burn_loop l (if uchar b =? OP_BURN then u64 (nBurnCoins + nValue txout) else nBurnCoins)
  end.

(** The value checks of a transaction that is not a coinstake. *)
Definition check_fees (t : CTransaction) (nValueIn nBurnCoins : Z) (fBlock : bool) : outcome Z :=
  nValueOut ← access (Tx.GetValueOut t);
  _ ← reject_if (nValueIn <? nValueOut) 100;
  let nTxFee := i64 (nValueIn - nValueOut) in
  _ ← reject_if (nTxFee <? 0) 100;
  _ ← reject_if (nTxFee <? GetMinFee 1 GMF_BLOCK 0) (if fBlock then 100 else 0);
  let nFees := i64 (0 + nTxFee) in
  _ ← reject_if (negb (MoneyRange nFees)) 100;
  burn_loop (vout t) nBurnCoins.

(** The new [mapTestPool], [nBurnCoins] and signature cache. *)
Definition ConnectInputs (t : CTransaction) (inputs : MapPrevTx) (pool : gmap Z CTxIndex) (posThisTx : CDiskTxPos)
    (pindexBlock : index_ptr) (nBurnCoins : Z) (fBlock fMiner : bool) (flags : Z) (c : CSignatureCache) :
    outcome (gmap Z CTxIndex * Z * CSignatureCache) :=
  if Tx.IsCoinBase t then Ok (pool, nBurnCoins, c) else
  nValueIn ← check_loop t inputs pindexBlock (vin t) 0;
  s ← spend_loop t posThisTx fBlock fMiner flags 0 (vin t) (mk_connecting inputs pool c);
  if Tx.IsCoinStake t then Ok (mapTestPool s, nBurnCoins, c_cache s) else
  nBurnCoins ← check_fees t nValueIn nBurnCoins fBlock;
  Ok (mapTestPool s, nBurnCoins, c_cache s).

(** ** [FetchInputs] *)
(** [ReadFromDisk(pos)], the transaction database and the memory pool. *)
Variable ReadFromDisk : CDiskTxPos -> option CTransaction.

(** One input of the first loop.  The record inserted by [inputsRet[hash]] stays in the map
    on failure, where it has no effect: the caller drops the map. *)
Definition fetch_input (txdb : gmap Z CTxIndex) (mempool : gmap Z CTransaction) (pool : gmap Z CTxIndex)
    (fBlock fMiner : bool) (txin : CTxIn) (inputsRet : MapPrevTx) : outcome MapPrevTx :=
  let hash := o_hash (prevout txin) in
  match inputsRet !! hash with
  | Some _ => Ok inputsRet
  | None =>
    let proposed := if fBlock || fMiner then pool !! hash else None in
    let found := match proposed with Some txindex => Some txindex | None => txdb !! hash end in
    match found with
    | None =>
      if fBlock || fMiner then Fail 0 else
      match mempool !! hash with
      | None => Fail 0
      | Some txPrev =>
        Ok (<[hash := (mk_txindex DiskPos.SetNull (replicate (length (vout txPrev)) DiskPos.SetNull), txPrev)]> inputsRet)
      end
    | Some txindex =>
      let txPrev := if decide (pos txindex = mk_pos 1 1 1) then mempool !! hash else ReadFromDisk (pos txindex) in
      match txPrev with
      | None => Fail 0
      | Some txPrev => Ok (<[hash := (txindex, txPrev)]> inputsRet)
      end
    end
  end.

Fixpoint fetch_loop (txdb : gmap Z CTxIndex) (mempool : gmap Z CTransaction) (pool : gmap Z CTxIndex)
    (fBlock fMiner : bool) (l : list CTxIn) (inputsRet : MapPrevTx) : outcome MapPrevTx :=
  match l with
  | [] => Ok inputsRet
  | txin :: l =>
    inputsRet ← fetch_input txdb mempool pool fBlock fMiner txin inputsRet;
    fetch_loop txdb mempool pool fBlock fMiner l inputsRet
  end.

(** The second loop: every index is valid; the failure sets [fInvalid]. *)
Fixpoint range_loop (l : list CTxIn) (inputsRet : MapPrevTx) : outcome () :=
  match l with
  | [] => Ok ()
  | txin :: l =>
    '(txindex, txPrev) ← access (inputsRet !! o_hash (prevout txin));
    _ ← reject_if ((zlen (vout txPrev) <=? o_n (prevout txin)) || (zlen (vSpent txindex) <=? o_n (prevout txin))) 100;
    range_loop l inputsRet
  end.

(** The outcome and [fInvalid]. *)
Definition FetchInputs (txdb : gmap Z CTxIndex) (mempool : gmap Z CTransaction) (t : CTransaction)
    (pool : gmap Z CTxIndex) (fBlock fMiner : bool) (inputsRet : MapPrevTx) : outcome MapPrevTx * bool :=
  if Tx.IsCoinBase t then (Ok inputsRet, false) else
  match fetch_loop txdb mempool pool fBlock fMiner (vin t) inputsRet with
  | Ok inputsRet =>
    match range_loop (vin t) inputsRet with
    | Ok _ => (Ok inputsRet, false)
    | Fail d => (Fail d, true)
    | Crash => (Crash, false)
    end
  | o => (o, false)
  end.
End inputs.

(** ** [DisconnectInputs] *)
Fixpoint disconnect_loop (l : list CTxIn) (txdb : gmap Z CTxIndex) : outcome (gmap Z CTxIndex) :=
  match l with
  | [] => Ok txdb
  | txin :: l =>
    let hash := o_hash (prevout txin) in
    match txdb !! hash with
    | None => Fail 0
    | Some txindex =>
      if zlen (vSpent txindex) <=? o_n (prevout txin) then Fail 0 else
      disconnect_loop l
        (<[hash := mk_txindex (pos txindex) (<[Z.to_nat (o_n (prevout txin)) := DiskPos.SetNull]> (vSpent txindex))]> txdb)
    end
  end.

Definition DisconnectInputs `{Digests} (t : CTransaction) (txdb : gmap Z CTxIndex) : outcome (gmap Z CTxIndex) :=
  txdb ← (if Tx.IsCoinBase t then Ok txdb else disconnect_loop (vin t) txdb);
  Ok (delete (Tx.GetHash t) txdb).
End Inputs.

(** ** Facts *)
Module OutcomeFacts.
Lemma bind_Ok {A B} (m : outcome A) (f : A -> outcome B) b : m ≫= f = Ok b <-> exists a, m = Ok a /\ f a = Ok b.
Proof. destruct m; cbn; naive_solver. Qed.
Lemma access_Ok {A} (o : option A) a : access o = Ok a <-> o = Some a.
Proof. destruct o; cbn; naive_solver. Qed.
Lemma reject_if_Ok b d u : reject_if b d = Ok u <-> b = false.
Proof. destruct b, u; cbn; naive_solver. Qed.
Lemma outcome_assoc {A B C} (m : outcome A) (f : A -> outcome B) (g : B -> outcome C) :
  (m ≫= f) ≫= g = m ≫= (fun a => f a ≫= g).
Proof. by destruct m. Qed.
Lemma outcome_bind_ext {A B} (m : outcome A) (f g : A -> outcome B) : (forall a, f a = g a) -> m ≫= f = m ≫= g.
Proof. intros E. by destruct m; cbn. Qed.
Lemma reject_if_no_crash {B} b d (f : () -> outcome B) : f () <> Crash -> reject_if b d ≫= f <> Crash.
Proof. by destruct b. Qed.
End OutcomeFacts.
Export OutcomeFacts.

(** *** The spent markers as a function of the outpoint *)
Module Spent.
Definition key (o : COutPoint) : Z * nat := (o_hash o, Z.to_nat (o_n o)).
Definition spent_at (m : gmap Z CTxIndex) (o : COutPoint) : option CDiskTxPos :=
  t ← m !! o_hash o; vSpent t !! Z.to_nat (o_n o).
Definition set_at (n : nat) (p : CDiskTxPos) (t : CTxIndex) : CTxIndex := mk_txindex (pos t) (<[n := p]> (vSpent t)).
Definition set_spent (p : CDiskTxPos) (m : gmap Z CTxIndex) (o : COutPoint) : gmap Z CTxIndex :=
  alter (set_at (Z.to_nat (o_n o)) p) (o_hash o) m.
Definition mark (p : CDiskTxPos) (l : list COutPoint) (m : gmap Z CTxIndex) : gmap Z CTxIndex := fold_left (set_spent p) l m.

Lemma spent_at_set p m o o' : is_Some (spent_at m o) ->
  spent_at (set_spent p m o) o' = if decide (key o = key o') then Some p else spent_at m o'.
Proof.
  unfold spent_at, set_spent, key. intros [q E].
  destruct (m !! o_hash o) as [t|] eqn:Et; [|done]. cbn in E.
  case_decide as Hk.
  - injection Hk as <- <-. rewrite lookup_alter_eq, Et. cbn. apply list_lookup_insert_eq. by apply lookup_lt_Some in E.
  - destruct (decide (o_hash o = o_hash o')) as [Eh|Hne].
    + rewrite <- Eh, lookup_alter_eq, Et. cbn. apply list_lookup_insert_ne. intros En. apply Hk. by rewrite Eh, En.
    + by rewrite lookup_alter_ne.
Qed.

Lemma set_spent_other p m o h : h <> o_hash o -> set_spent p m o !! h = m !! h.
Proof. intros Hh. by apply lookup_alter_ne, not_eq_sym. Qed.

Lemma set_spent_comm p p' m o o' : key o <> key o' ->
  set_spent p (set_spent p' m o') o = set_spent p' (set_spent p m o) o'.
Proof.
  intros Hk. unfold set_spent. destruct (decide (o_hash o = o_hash o')) as [Eh|Hne].
  - rewrite Eh, !alter_alter_eq. apply alter_ext. intros t _. unfold set_at. cbn. f_equal.
    apply list_insert_insert_ne. intros En. apply Hk. unfold key. by rewrite Eh, En.
  - by apply alter_alter_ne.
Qed.

Lemma set_spent_undo p p' m o : spent_at m o = Some p -> set_spent p (set_spent p' m o) o = m.
Proof.
  unfold spent_at, set_spent. intros E. rewrite alter_alter_eq. apply map_eq. intros h.
  destruct (decide (h = o_hash o)) as [->|Hne]; [|by rewrite lookup_alter_ne].
  rewrite lookup_alter_eq. destruct (m !! o_hash o) as [[q l]|]; [|done]. cbn in *. do 2 f_equal. unfold set_at. cbn.
  rewrite list_insert_insert_eq. f_equal. by apply list_insert_id.
Qed.

Lemma mark_cons_comm p p' m o l : key o ∉ map key l ->
  set_spent p (mark p' l m) o = mark p' l (set_spent p m o).
Proof.
  revert m. induction l as [|o' l IH]; intros m Hk; [done|]. cbn [map] in Hk. apply not_elem_of_cons in Hk as [Hk1 Hk2].
  change (mark p' (o' :: l) m) with (mark p' l (set_spent p' m o')). rewrite IH by done.
  change (mark p' (o' :: l) (set_spent p m o)) with (mark p' l (set_spent p' (set_spent p m o) o')).
  by rewrite set_spent_comm.
Qed.

Lemma mark_undo p p' m l : NoDup (map key l) -> (forall o, o ∈ l -> spent_at m o = Some p) -> mark p l (mark p' l m) = m.
Proof.
  induction l as [|o l IH]; intros Hnd Hm; [done|]. cbn [map] in Hnd. apply NoDup_cons in Hnd as [Hk Hnd].
  change (mark p (o :: l) (mark p' (o :: l) m)) with (mark p l (set_spent p (mark p' l (set_spent p' m o)) o)).
  rewrite mark_cons_comm by done. rewrite set_spent_undo by (apply Hm; by left).
  apply IH; [done|]. intros o' Ho. apply Hm. by right.
Qed.

Lemma mark_other p l m h : h ∉ map o_hash l -> mark p l m !! h = m !! h.
Proof.
  revert m. induction l as [|o l IH]; intros m Hh; [done|]. cbn [map] in Hh. apply not_elem_of_cons in Hh as [H1 H2].
  change (mark p (o :: l) m) with (mark p l (set_spent p m o)). rewrite IH by done. by apply set_spent_other.
Qed.

(** What [mark] does at one hash depends on the record there only. *)
Lemma mark_lookup_ext p l m m' h : m !! h = m' !! h -> mark p l m !! h = mark p l m' !! h.
Proof.
  revert m m'. induction l as [|o l IH]; intros m m' E; [done|].
  change (mark p l (set_spent p m o) !! h = mark p l (set_spent p m' o) !! h). apply IH. unfold set_spent.
  destruct (decide (h = o_hash o)) as [->|Hne]; [by rewrite !lookup_alter_eq, E|by rewrite !lookup_alter_ne].
Qed.

Lemma mark_is_Some p l m h : is_Some (m !! h) -> is_Some (mark p l m !! h).
Proof.
  revert m. induction l as [|o l IH]; intros m Hm; [done|]. apply IH. by apply lookup_alter_is_Some.
Qed.

Lemma mark_spent p m l o : (forall o, o ∈ l -> is_Some (spent_at m o)) -> key o ∈ map key l \/ spent_at m o = Some p ->
  spent_at (mark p l m) o = Some p.
Proof.
  revert m. induction l as [|o' l IH]; intros m Hm Ho.
  { destruct Ho as [Ho|]; [by apply not_elem_of_nil in Ho|done]. }
  change (mark p (o' :: l) m) with (mark p l (set_spent p m o')).
  assert (is_Some (spent_at m o')) as Hs by (apply Hm; by left).
  apply IH.
  - intros o2 Ho2. rewrite spent_at_set by done. case_decide; [by eexists|]. apply Hm. by right.
  - rewrite spent_at_set by done. case_decide as Hd; [by right|].
    destruct Ho as [[Ho|Ho]%elem_of_cons|Ho]; [by rewrite Ho in Hd|by left|by right].
Qed.

Lemma mark_spent_ne p m l o : key o ∉ map key l -> spent_at (mark p l m) o = spent_at m o.
Proof.
  revert m. induction l as [|o' l IH]; intros m Hk; [done|]. cbn [map] in Hk. apply not_elem_of_cons in Hk as [Hk1 Hk2].
  change (mark p (o' :: l) m) with (mark p l (set_spent p m o')). rewrite IH by done.
  unfold spent_at, set_spent. destruct (decide (o_hash o' = o_hash o)) as [Eh|Hne].
  - rewrite Eh, lookup_alter_eq. destruct (m !! o_hash o) as [t|]; [|done]. cbn.
    apply list_lookup_insert_ne. intros En. apply Hk1. unfold key. by rewrite Eh, En.
  - by rewrite lookup_alter_ne.
Qed.

Lemma mark_None p l m h : m !! h = None -> mark p l m !! h = None.
Proof.
  revert m. induction l as [|o l IH]; intros m Hm; [done|]. apply IH. unfold set_spent.
  apply lookup_alter_None. done.
Qed.
End Spent.

Module ConnectFacts.
Import Inputs Spent.
Section connect.
Context `{BNLib} `{Digests} `{ECLib} `{SigEnv}.
Variables (nCoinbaseMaturity nBestHeight TotalBlocksEstimate : Z).
Variables (t : CTransaction) (posThisTx : CDiskTxPos) (fBlock fMiner : bool) (flags : Z).
Hypothesis (pos_not_null : DiskPos.IsNull posThisTx = false).

(** The index records of a map of previous transactions. *)
Definition index_of (m : MapPrevTx) : gmap Z CTxIndex := fst <$> m.

Lemma index_of_spent m o : spent_at (index_of m) o = '(txindex, _) ← m !! o_hash o; vSpent txindex !! Z.to_nat (o_n o).
Proof. unfold spent_at, index_of. rewrite lookup_fmap. by destruct (m !! o_hash o) as [[]|]. Qed.

(** The scripts of input [i] have been run, unless a checkpoint lies ahead. *)
Definition verified (m : MapPrevTx) (i : nat) (o : COutPoint) : Prop :=
  fBlock && (nBestHeight <? TotalBlocksEstimate) = false ->
  exists txindex txPrev c c', m !! o_hash o = Some (txindex, txPrev) /\
    VerifySignature txPrev t i flags 0 c = Ok (true, c').

Lemma spend_input_spec i txin s s' :
  spend_input nBestHeight TotalBlocksEstimate t posThisTx fBlock fMiner flags i txin s = Ok s' ->
  (exists p, spent_at (index_of (c_inputs s)) (prevout txin) = Some p /\ DiskPos.IsNull p = true) /\
  index_of (c_inputs s') = set_spent posThisTx (index_of (c_inputs s)) (prevout txin) /\
  snd <$> c_inputs s' = snd <$> c_inputs s /\
  mapTestPool s' = (if fBlock || fMiner
    then partial_alter (fun _ => index_of (c_inputs s') !! o_hash (prevout txin)) (o_hash (prevout txin)) (mapTestPool s)
    else mapTestPool s) /\
  verified (c_inputs s) i (prevout txin).
Proof.
  unfold spend_input. intros E. apply bind_Ok in E as ([txindex txPrev] & Ei%access_Ok & E).
  apply bind_Ok in E as (p & Ep%access_Ok & E). apply bind_Ok in E as (u & Hp%reject_if_Ok & E).
  apply bind_Ok in E as (c & Ec & E). injection E as <-. cbn [c_inputs mapTestPool].
  apply negb_false_iff in Hp.
  assert (index_of (<[o_hash (prevout txin):=(set_at (Z.to_nat (o_n (prevout txin))) posThisTx txindex, txPrev)]> (c_inputs s)) =
    set_spent posThisTx (index_of (c_inputs s)) (prevout txin)) as Em.
  { unfold index_of, set_spent. rewrite fmap_insert. apply map_eq. intros h.
    destruct (decide (h = o_hash (prevout txin))) as [->|Hne].
    - by rewrite lookup_insert_eq, lookup_alter_eq, lookup_fmap, Ei.
    - by rewrite lookup_insert_ne, lookup_alter_ne by done. }
  split; [|split; [exact Em|split; [|split]]].
  - exists p. split; [|done]. rewrite index_of_spent, Ei. exact Ep.
  - rewrite fmap_insert. apply insert_id. by rewrite lookup_fmap, Ei.
  - destruct (fBlock || fMiner); [|done]. unfold index_of. rewrite lookup_fmap, lookup_insert_eq. done.
  - intros Hs. rewrite Hs in Ec. unfold check_signature in Ec. apply bind_Ok in Ec as ([ok c1] & Ev & Ec).
    destruct ok; [by exists txindex, txPrev, (c_cache s), c1|].
    destruct (_ =? 0); [done|]. apply bind_Ok in Ec as ([ok2 c2] & _ & Ec). by destruct ok2.
Qed.

Lemma spent_distinct m o o' : is_Some (spent_at m o) ->
  (exists p, spent_at (set_spent posThisTx m o) o' = Some p /\ DiskPos.IsNull p = true) ->
  key o <> key o' /\ exists p, spent_at m o' = Some p /\ DiskPos.IsNull p = true.
Proof.
  intros Hs (p & E & Hp). rewrite spent_at_set in E by done. case_decide as Hd.
  - apply (inj Some) in E as <-. congruence.
  - split; [done|]. by exists p.
Qed.

Lemma spend_loop_spec i l s s' :
  spend_loop nBestHeight TotalBlocksEstimate t posThisTx fBlock fMiner flags i l s = Ok s' ->
  let m := index_of (c_inputs s) in
  NoDup (map key (map prevout l)) /\
  (forall o, o ∈ map prevout l -> exists p, spent_at m o = Some p /\ DiskPos.IsNull p = true) /\
  index_of (c_inputs s') = mark posThisTx (map prevout l) m /\
  (forall h, mapTestPool s' !! h =
    if (fBlock || fMiner) && bool_decide (h ∈ map o_hash (map prevout l)) then index_of (c_inputs s') !! h
    else mapTestPool s !! h) /\
  forall k txin, l !! k = Some txin -> verified (c_inputs s) (i + k) (prevout txin).
Proof.
  revert i s. induction l as [|txin l IH]; intros i s E; cbn [spend_loop] in E.
  { injection E as <-. cbn [map]. split; [constructor|]. split; [intros o Ho; by apply not_elem_of_nil in Ho|].
    split; [done|]. split; [|done]. intros h. rewrite bool_decide_eq_false_2 by apply not_elem_of_nil. by rewrite andb_false_r. }
  apply bind_Ok in E as (s1 & E1 & E). apply spend_input_spec in E1 as (Hp & Em & Esnd & Epool & Hv).
  apply IH in E as (Hnd & Hl & Em' & Epool' & Hv'). cbn [map].
  assert (is_Some (spent_at (index_of (c_inputs s)) (prevout txin))) as Hs by (destruct Hp as (p & -> & _); by eexists).
  rewrite Em in Hl, Em'.
  assert (forall o, o ∈ map prevout l -> key (prevout txin) <> key o /\
    exists p, spent_at (index_of (c_inputs s)) o = Some p /\ DiskPos.IsNull p = true) as Hd.
  { intros o Ho. by apply spent_distinct, Hl. }
  split; [|split; [|split; [done|split]]].
  - apply NoDup_cons. split; [|done]. intros (o & Ek & Ho)%list_elem_of_fmap. by apply Hd in Ho as [Hk _].
  - intros o [->|Ho]%elem_of_cons; [done|by apply Hd].
  - intros h. rewrite Epool', Epool. destruct (fBlock || fMiner); [|done]. simpl andb.
    destruct (bool_decide_reflect (h ∈ map o_hash (map prevout l))) as [Hh|Hh].
    { rewrite bool_decide_eq_true_2; [done|by right]. }
    destruct (decide (h = o_hash (prevout txin))) as [->|Hne].
    + rewrite lookup_partial_alter_eq, bool_decide_eq_true_2 by by left.
      by rewrite Em', Em, mark_other.
    + rewrite lookup_partial_alter_ne by done. rewrite bool_decide_eq_false_2; [done|].
      by apply not_elem_of_cons.
  - intros [|k] txin' Ek.
    + apply (inj Some) in Ek as <-. by rewrite Nat.add_0_r.
    + replace (i + S k)%nat with (S i + k)%nat by lia. intros Hskip.
      destruct (Hv' k txin' Ek Hskip) as (txindex & txPrev & c & c' & Ei & Ev).
      apply (f_equal (lookup (o_hash (prevout txin')))) in Esnd. rewrite !lookup_fmap, Ei in Esnd.
      destruct (c_inputs s !! o_hash (prevout txin')) as [[txindex' txPrev']|] eqn:Ei'; [|done].
      injection Esnd as ->. by exists txindex', txPrev', c, c'.
Qed.
(** *** The first loop *)
Definition input_ok (inputs : MapPrevTx) (pindexBlock : index_ptr) (txin : CTxIn) (prev : CTxOut) : Prop :=
  exists txindex txPrev, inputs !! o_hash (prevout txin) = Some (txindex, txPrev) /\
    vout txPrev !! Z.to_nat (o_n (prevout txin)) = Some prev /\ nTime txPrev <= nTime t /\
    (Tx.IsCoinBase txPrev || Tx.IsCoinStake txPrev = true ->
      IsConfirmedInNPrevBlocks txindex pindexBlock nCoinbaseMaturity = None) /\
    TxOut.IsEmpty prev = false /\ 0 <= nValue prev <= MAX_MONEY.

Lemma check_input_spec inputs pindexBlock txin v v' :
  0 <= v <= MAX_MONEY -> check_input nCoinbaseMaturity t inputs pindexBlock txin v = Ok v' ->
  exists prev, input_ok inputs pindexBlock txin prev /\ v' = v + nValue prev /\ 0 <= v' <= MAX_MONEY.
Proof.
  intros Hv E. unfold check_input in E. apply bind_Ok in E as ([txindex txPrev] & Ei%access_Ok & E).
  apply bind_Ok in E as (u1 & _ & E). apply bind_Ok in E as (u2 & Em%reject_if_Ok & E).
  apply bind_Ok in E as (u3 & Et%reject_if_Ok & E). apply bind_Ok in E as (prev & Ep%access_Ok & E).
  apply bind_Ok in E as (u4 & Ee%reject_if_Ok & E). apply bind_Ok in E as (u5 & Er%reject_if_Ok & E).
  injection E as <-. apply orb_false_iff in Er as [Er1%negb_false_iff Er2%negb_false_iff].
  apply MoneyRange_spec in Er1. rewrite MAX_MONEY_eq in *. rewrite i64_id in * by lia.
  apply MoneyRange_spec in Er2. rewrite MAX_MONEY_eq in *.
  exists prev. split; [|split; [done|done]]. exists txindex, txPrev. rewrite MAX_MONEY_eq.
  do 2 (split; [done|]). split; [lia|]. split; [|done].
  intros Hc. rewrite Hc in Em. simpl in Em. apply bool_decide_eq_false in Em. by apply eq_None_not_Some.
Qed.

Lemma check_loop_spec inputs pindexBlock l v v' :
  0 <= v <= MAX_MONEY -> check_loop nCoinbaseMaturity t inputs pindexBlock l v = Ok v' ->
  exists prevs, Forall2 (input_ok inputs pindexBlock) l prevs /\ v' = v + sum_out prevs /\ 0 <= v' <= MAX_MONEY.
Proof.
  revert v. induction l as [|txin l IH]; intros v Hv E; cbn [check_loop] in E.
  { injection E as <-. exists []. split; [constructor|]. change (sum_out []) with 0. lia. }
  apply bind_Ok in E as (v1 & E1 & E). apply check_input_spec in E1 as (prev & Hp & -> & Hv1); [|done].
  apply IH in E as (prevs & Hps & -> & Hv'); [|done]. exists (prev :: prevs).
  split; [by constructor|]. change (sum_out (prev :: prevs)) with (nValue prev + sum_out prevs). lia.
Qed.

Lemma GetMinFee_block : GetMinFee 1 GMF_BLOCK 0 = MIN_TX_FEE.
Proof. reflexivity. Qed.

Lemma check_fees_spec v nBurnCoins b : 0 <= v <= MAX_MONEY -> Forall (fun o => in_s 64 (nValue o)) (vout t) ->
  check_fees t v nBurnCoins fBlock = Ok b -> sum_out (vout t) + MIN_TX_FEE <= v.
Proof.
  intros Hv Ho E. unfold check_fees in E. apply bind_Ok in E as (w & Ew%access_Ok & E).
  assert (w = sum_out (vout t) /\ 0 <= w <= MAX_MONEY) as [-> Hw].
  { unfold Tx.GetValueOut in Ew. rewrite value_loop_spec in Ew by (rewrite ?MAX_MONEY_eq; done || lia).
    rewrite Z.add_0_l in Ew. destruct (forallb _ (vout t)) eqn:Ef; [|done].
    destruct (Z.leb_spec (sum_out (vout t)) MAX_MONEY); [|done]. injection Ew as <-. split; [done|].
    split; [|done]. by apply sum_out_nonneg. }
  apply bind_Ok in E as (u1 & E1%reject_if_Ok & E). apply bind_Ok in E as (u2 & E2%reject_if_Ok & E).
  apply bind_Ok in E as (u3 & E3%reject_if_Ok & E). rewrite GetMinFee_block in E3.
  rewrite MAX_MONEY_eq in *. rewrite i64_id in * by lia. lia.
Qed.

(** What acceptance means for the inputs. *)
Lemma ConnectInputs_accepts inputs pool pindexBlock nBurnCoins c pool' nBurn' c' :
  Tx.IsCoinBase t = false -> Forall (fun o => in_s 64 (nValue o)) (vout t) ->
  ConnectInputs nCoinbaseMaturity nBestHeight TotalBlocksEstimate t inputs pool posThisTx pindexBlock nBurnCoins
    fBlock fMiner flags c = Ok (pool', nBurn', c') ->
  NoDup (map key (map prevout (vin t))) /\
  (forall o, o ∈ map prevout (vin t) -> exists p, spent_at (index_of inputs) o = Some p /\ DiskPos.IsNull p = true) /\
  (forall i txin, vin t !! i = Some txin -> verified inputs i (prevout txin)) /\
  (exists prevs, Forall2 (input_ok inputs pindexBlock) (vin t) prevs /\
    (Tx.IsCoinStake t = false -> sum_out (vout t) + MIN_TX_FEE <= sum_out prevs)) /\
  (fBlock || fMiner = true -> forall o, o ∈ map prevout (vin t) -> spent_at pool' o = Some posThisTx).
Proof.
  intros Hcb Ho E. unfold ConnectInputs in E. rewrite Hcb in E. apply bind_Ok in E as (v & Ev & E).
  apply check_loop_spec in Ev as (prevs & Hprev & -> & Hv); [|rewrite MAX_MONEY_eq; lia].
  apply bind_Ok in E as (s & Es & E). apply spend_loop_spec in Es as (Hnd & Hunspent & Em & Epool & Hver).
  cbn [c_inputs] in *. split; [done|]. split; [done|]. split; [intros i txin; apply Hver|].
  assert (pool' = mapTestPool s) as ->.
  { destruct (Tx.IsCoinStake t); [by injection E as <- _ _|]. apply bind_Ok in E as (b & _ & E). by injection E as <- _ _. }
  split.
  - exists prevs. split; [done|]. intros Hcs. rewrite Hcs in E. apply bind_Ok in E as (b & Eb & _).
    by apply check_fees_spec in Eb.
  - intros Hf o Hin. unfold spent_at. rewrite Epool, Hf, bool_decide_eq_true_2 by by apply list_elem_of_fmap_2.
    rewrite Em. fold (spent_at (mark posThisTx (map prevout (vin t)) (index_of inputs)) o).
    apply mark_spent; [|left; by apply list_elem_of_fmap_2]. intros o' Ho'.
    destruct (Hunspent o' Ho') as (p & -> & _). by eexists.
Qed.

(** C2. A transaction that [ConnectInputs] accepts spends existing, mature, non-empty outputs of
    transactions that are not newer; no output twice and none that was spent before; its scripts
    verify (unless a checkpoint lies ahead); if it is not a coinstake, the inputs are worth
    the outputs and the minimal fee; and in a block the outputs are then marked as spent. *)
Theorem ConnectInputs_sound inputs pool pindexBlock nBurnCoins c pool' nBurn' c' :
  Tx.IsCoinBase t = false -> Forall (fun o => in_s 64 (nValue o)) (vout t) ->
  ConnectInputs nCoinbaseMaturity nBestHeight TotalBlocksEstimate t inputs pool posThisTx pindexBlock nBurnCoins
    fBlock fMiner flags c = Ok (pool', nBurn', c') ->
  NoDup (map key (map prevout (vin t))) /\
  (forall o, o ∈ map prevout (vin t) -> exists p, spent_at (index_of inputs) o = Some p /\ DiskPos.IsNull p = true) /\
  (forall i txin, vin t !! i = Some txin -> verified inputs i (prevout txin)) /\
  (exists prevs, Forall2 (input_ok inputs pindexBlock) (vin t) prevs /\
    (Tx.IsCoinStake t = false -> sum_out (vout t) + MIN_TX_FEE <= sum_out prevs)) /\
  (fBlock || fMiner = true -> forall o, o ∈ map prevout (vin t) -> spent_at pool' o = Some posThisTx).
Proof. apply ConnectInputs_accepts. Qed.

(** *** Disconnecting *)
Lemma disconnect_loop_ok l db : (forall txin, txin ∈ l -> 0 <= o_n (prevout txin)) ->
  (forall o, o ∈ map prevout l -> is_Some (spent_at db o)) ->
  disconnect_loop l db = Ok (mark DiskPos.SetNull (map prevout l) db).
Proof.
  revert db. induction l as [|txin l IH]; intros db Hn Hl; [done|]. cbn [disconnect_loop map].
  assert (is_Some (spent_at db (prevout txin))) as Hs by (apply Hl; by left).
  pose proof Hs as [p E]. unfold spent_at in E. destruct (db !! o_hash (prevout txin)) as [ti|] eqn:Ei; [|done]. cbn in E.
  pose proof (Hn txin ltac:(by left)). apply lookup_lt_Some in E.
  destruct (Z.leb_spec (zlen (vSpent ti)) (o_n (prevout txin))); [unfold zlen in *; lia|].
  change (mark DiskPos.SetNull (prevout txin :: map prevout l) db)
    with (mark DiskPos.SetNull (map prevout l) (set_spent DiskPos.SetNull db (prevout txin))).
  assert (<[o_hash (prevout txin) := set_at (Z.to_nat (o_n (prevout txin))) DiskPos.SetNull ti]> db =
    set_spent DiskPos.SetNull db (prevout txin)) as Edb.
  { unfold set_spent. apply map_eq. intros h. destruct (decide (h = o_hash (prevout txin))) as [->|Hne].
    - by rewrite lookup_insert_eq, lookup_alter_eq, Ei.
    - by rewrite lookup_insert_ne, lookup_alter_ne by done. }
  unfold set_at in Edb. rewrite Edb. apply IH; [intros i Hi; apply Hn; by right|].
  intros o Ho. rewrite spent_at_set by done. case_decide; [by eexists|]. apply Hl. by right.
Qed.

(** *** Fetching *)
Section fetch.
Variable ReadFromDisk : CDiskTxPos -> option CTransaction.
Variables (txdb : gmap Z CTxIndex) (mempool : gmap Z CTransaction) (pool : gmap Z CTxIndex).

(** In a block every record comes from the proposed changes, or else from the database. *)
Definition fetched (m : MapPrevTx) : Prop := forall h, is_Some (m !! h) -> index_of m !! h = (pool ∪ txdb) !! h.

Lemma fetch_input_spec txin m m' :
  fetch_input ReadFromDisk txdb mempool pool fBlock fMiner txin m = Ok m' ->
  is_Some (m' !! o_hash (prevout txin)) /\ (forall h, is_Some (m !! h) -> m' !! h = m !! h) /\
  (fBlock || fMiner = true -> fetched m -> fetched m').
Proof.
  unfold fetch_input. set (hash := o_hash (prevout txin)).
  destruct (m !! hash) as [x|] eqn:Em; [intros [= <-]; split; [by eexists|done]|].
  assert (forall y, (forall h, is_Some (m !! h) -> <[hash := y]> m !! h = m !! h)) as Hold.
  { intros y h [z Ez]. rewrite lookup_insert_ne; [done|congruence]. }
  intros E. assert (exists y, m' = <[hash := y]> m /\ (fBlock || fMiner = true -> (pool ∪ txdb) !! hash = Some y.1)) as (y & -> & Hy).
  { rewrite lookup_union. destruct (fBlock || fMiner).
    - destruct (pool !! hash) as [ti|]; [|destruct (txdb !! hash) as [ti|]; [|done]];
        (destruct (if decide _ then _ else _) as [tp|]; [|done]); injection E as <-; exists (ti, tp); (split; [done|]); intros _; by try destruct (txdb !! hash).
    - destruct (txdb !! hash) as [ti|]; [destruct (if decide _ then _ else _) as [tp|]; [|done]|
        destruct (mempool !! hash) as [tp|]; [|done]]; injection E as <-; by eexists. }
  split; [rewrite lookup_insert_eq; by eexists|]. split; [apply Hold|].
  intros Hf Hm h. unfold index_of. rewrite lookup_fmap. destruct (decide (h = hash)) as [->|Hne].
  - rewrite lookup_insert_eq, Hy by done. done.
  - rewrite lookup_insert_ne by done. intros Hh. rewrite <- (Hm h Hh). unfold index_of. by rewrite lookup_fmap.
Qed.

Lemma fetch_loop_spec l m m' :
  fetch_loop ReadFromDisk txdb mempool pool fBlock fMiner l m = Ok m' ->
  (forall h, is_Some (m !! h) -> m' !! h = m !! h) /\ (fBlock || fMiner = true -> fetched m -> fetched m').
Proof.
  revert m. induction l as [|txin l IH]; intros m E; cbn [fetch_loop] in E; [by injection E as <-|].
  apply bind_Ok in E as (m1 & E1 & E). apply fetch_input_spec in E1 as (_ & Hk & Hf).
  apply IH in E as [Hk' Hf']. split; [|by auto]. intros h Hh. rewrite Hk'; [by apply Hk|]. by rewrite Hk.
Qed.

(** The record of an input has room for the output it spends. *)
Definition ready (m : MapPrevTx) (txin : CTxIn) : Prop :=
  exists txindex txPrev, m !! o_hash (prevout txin) = Some (txindex, txPrev) /\
    o_n (prevout txin) < zlen (vout txPrev) /\ o_n (prevout txin) < zlen (vSpent txindex).

Lemma range_loop_spec l m u : range_loop l m = Ok u -> Forall (ready m) l.
Proof.
  induction l as [|txin l IH]; intros E; cbn [range_loop] in E; [constructor|].
  apply bind_Ok in E as ([ti tp] & Ei%access_Ok & E). apply bind_Ok in E as (u' & Er%reject_if_Ok & E).
  apply orb_false_iff in Er as [E1 E2]. constructor; [|by apply IH]. exists ti, tp. split; [done|]. lia.
Qed.

Lemma FetchInputs_spec inputs : Tx.IsCoinBase t = false ->
  FetchInputs ReadFromDisk txdb mempool t pool fBlock fMiner ∅ = (Ok inputs, false) ->
  Forall (ready inputs) (vin t) /\
  (fBlock || fMiner = true -> forall h, h ∈ map o_hash (map prevout (vin t)) -> index_of inputs !! h = (pool ∪ txdb) !! h).
Proof.
  intros Hcb E. unfold FetchInputs in E. rewrite Hcb in E.
  destruct (fetch_loop _ _ _ _ _ _ _ _) as [m| |] eqn:Ef; [|done|done].
  destruct (range_loop (vin t) m) as [u| |] eqn:Er; [|done|done]. injection E as <-.
  apply range_loop_spec in Er. split; [done|]. intros Hf h (o & -> & (txin & -> & Hin)%list_elem_of_fmap)%list_elem_of_fmap.
  apply fetch_loop_spec in Ef as [_ Hm]. apply Hm; [done| |].
  - intros h [x Hx]. by rewrite lookup_empty in Hx.
  - rewrite Forall_forall in Er. destruct (Er txin Hin) as (ti & tp & -> & _). by eexists.
Qed.
End fetch.

(** *** No crash after fetching *)
Lemma ready_lookup m txin : 0 <= o_n (prevout txin) -> ready m txin ->
  exists ti tp prev, m !! o_hash (prevout txin) = Some (ti, tp) /\ (zlen (vout tp) <=? o_n (prevout txin)) = false /\
    (zlen (vSpent ti) <=? o_n (prevout txin)) = false /\ vout tp !! Z.to_nat (o_n (prevout txin)) = Some prev /\
    is_Some (vSpent ti !! Z.to_nat (o_n (prevout txin))).
Proof.
  intros Hn (ti & tp & E & H1' & H2'). unfold zlen in *.
  destruct (lookup_lt_is_Some_2 (vout tp) (Z.to_nat (o_n (prevout txin)))) as [prev Ep]; [lia|].
  exists ti, tp, prev. split; [done|]. split; [lia|]. split; [lia|]. split; [done|]. apply lookup_lt_is_Some_2. lia.
Qed.

Lemma check_loop_no_crash m pindexBlock l v : Forall (fun i => 0 <= o_n (prevout i) /\ ready m i) l ->
  check_loop nCoinbaseMaturity t m pindexBlock l v <> Crash.
Proof.
  intros Hl. revert v. induction Hl as [|txin l [Hn Hr] Hl IH]; intros v; cbn [check_loop]; [done|].
  unfold check_input. destruct (ready_lookup m txin Hn Hr) as (ti & tp & prev & Ei & Ev & Es & Ep & _).
  rewrite Ei. cbn [access mbind outcome_bind]. rewrite Ev, Es, Ep. cbn [orb reject_if access mbind outcome_bind].
  do 4 (rewrite outcome_assoc; apply reject_if_no_crash).
  apply IH.
Qed.

Lemma spend_loop_no_crash i l s : (forall k txin, l !! k = Some txin -> vin t !! (i + k)%nat = Some txin) ->
  Forall (fun i => 0 <= o_n (prevout i) /\ ready (c_inputs s) i) l ->
  spend_loop nBestHeight TotalBlocksEstimate t posThisTx fBlock fMiner flags i l s <> Crash.
Proof.
  revert i s. induction l as [|txin l IH]; intros i s Hvin Hl; cbn [spend_loop]; [done|].
  apply Forall_cons in Hl as [[Hn Hr] Hl].
  destruct (ready_lookup _ txin Hn Hr) as (ti & tp & prev & Ei & Ev & Es & Ep & [p Esp]).
  pose proof (Hvin 0%nat txin eq_refl) as Et. rewrite Nat.add_0_r in Et.
  assert (forall fl c, exists r, VerifySignature tp t i fl 0 c = Ok r) as Hver.
  { intros fl c. unfold VerifySignature. rewrite Et. cbn [access mbind outcome_bind]. rewrite Ev, Ep. cbn [access mbind outcome_bind].
    destruct (negb _); by eexists. }
  unfold spend_input. rewrite Ei. cbn [access mbind outcome_bind]. rewrite Esp. cbn [access mbind outcome_bind].
  destruct (negb _); cbn [reject_if mbind outcome_bind]; [done|].
  set (k := fun c => spend_loop nBestHeight TotalBlocksEstimate t posThisTx fBlock fMiner flags (S i) l
    (mk_connecting (<[o_hash (prevout txin) := (set_at (Z.to_nat (o_n (prevout txin))) posThisTx ti, tp)]> (c_inputs s))
      (if fBlock || fMiner then <[o_hash (prevout txin) := set_at (Z.to_nat (o_n (prevout txin))) posThisTx ti]> (mapTestPool s)
       else mapTestPool s) c)).
  assert (forall c, k c <> Crash) as Hk.
  { intros c. apply IH.
    - intros j txin' Ej. replace (S i + j)%nat with (i + S j)%nat by lia. by apply Hvin.
    - apply (Forall_impl _ _ _ Hl). intros i' [Hn' (ti' & tp' & Ei' & Hv' & Hs')]. split; [done|].
      unfold ready. cbn [c_inputs]. destruct (decide (o_hash (prevout i') = o_hash (prevout txin))) as [Eh|Hne].
      + rewrite Eh, lookup_insert_eq. eexists _, _. split; [done|]. rewrite Eh, Ei in Ei'. injection Ei' as <- <-.
        split; [done|]. unfold zlen, set_at in *. cbn. by rewrite length_insert.
      + rewrite lookup_insert_ne by done. by exists ti', tp'. }
  destruct (fBlock && _); cbn [mbind outcome_bind]; [apply Hk|].
  unfold check_signature. destruct (Hver flags (c_cache s)) as [[ok c1] ->]. cbn [mbind outcome_bind]. destruct ok; [apply Hk|].
  destruct (_ =? 0); [done|]. destruct (Hver (Z.land flags (Z.lnot STANDARD_NOT_MANDATORY_VERIFY_FLAGS)) c1) as [[ok2 c2] ->].
  cbn [mbind outcome_bind]. by destruct ok2.
Qed.

(** What [FetchInputs] and [ConnectInputs] change in a block: the spent outputs, all free
    before and no two the same, are marked with the position of the transaction. *)
Lemma connect_marks ReadFromDisk mempool inputs pool pindexBlock nBurnCoins c pool' nBurn' c' txdb :
  fBlock || fMiner = true -> Tx.IsCoinBase t = false ->
  FetchInputs ReadFromDisk txdb mempool t pool fBlock fMiner ∅ = (Ok inputs, false) ->
  (forall o p, spent_at (pool ∪ txdb) o = Some p -> DiskPos.IsNull p = true -> p = DiskPos.SetNull) ->
  ConnectInputs nCoinbaseMaturity nBestHeight TotalBlocksEstimate t inputs pool posThisTx pindexBlock nBurnCoins
    fBlock fMiner flags c = Ok (pool', nBurn', c') ->
  pool' ∪ txdb = mark posThisTx (map prevout (vin t)) (pool ∪ txdb) /\
  NoDup (map key (map prevout (vin t))) /\
  (forall o, o ∈ map prevout (vin t) -> spent_at (pool ∪ txdb) o = Some DiskPos.SetNull).
Proof.
  intros Hf Hcb Hfetch Hnull E. apply FetchInputs_spec in Hfetch as [_ Hin]; [|done]. specialize (Hin Hf).
  unfold ConnectInputs in E. rewrite Hcb in E. apply bind_Ok in E as (v & _ & E).
  apply bind_Ok in E as (s & Es & E). apply spend_loop_spec in Es as (Hnd & Hunspent & Em & Epool & _).
  cbn [c_inputs mapTestPool] in *.
  assert (pool' = mapTestPool s) as ->.
  { destruct (Tx.IsCoinStake t); [by injection E as <- _ _|]. apply bind_Ok in E as (b & _ & E). by injection E as <- _ _. }
  set (l := map prevout (vin t)) in *. set (db := pool ∪ txdb) in *.
  assert (forall o, o ∈ l -> spent_at db o = Some DiskPos.SetNull) as Hfree.
  { intros o Ho. destruct (Hunspent o Ho) as (p & Ep & Hp). unfold spent_at in *.
    rewrite (Hin (o_hash o)) in Ep by by apply list_elem_of_fmap_2. by rewrite <- (Hnull o p Ep Hp). }
  split; [|done]. apply map_eq. intros h. rewrite lookup_union, Epool, Hf. simpl andb.
  destruct (bool_decide_reflect (h ∈ map o_hash l)) as [Hh|Hh].
  - rewrite Em, (mark_lookup_ext _ _ _ db) by by apply Hin.
    apply list_elem_of_fmap in Hh as (o & -> & Ho).
    destruct (mark_is_Some posThisTx l db (o_hash o)) as [ti Eti].
    { specialize (Hfree o Ho). unfold spent_at in Hfree. destruct (db !! o_hash o); [by eexists|done]. }
    rewrite Eti. by destruct (txdb !! o_hash o).
  - rewrite mark_other by done. unfold db. by rewrite lookup_union.
Qed.

(** Unmarking undoes marking, in the order of the inputs. *)
Lemma disconnect_marked l db : NoDup (map key (map prevout l)) ->
  (forall txin, txin ∈ l -> 0 <= o_n (prevout txin)) ->
  (forall o, o ∈ map prevout l -> spent_at db o = Some DiskPos.SetNull) ->
  disconnect_loop l (mark posThisTx (map prevout l) db) = Ok db.
Proof.
  intros Hnd Hn Hfree. rewrite (disconnect_loop_ok l); [|done|].
  - by rewrite mark_undo.
  - intros o Ho. rewrite mark_spent; [by eexists| |left; by apply list_elem_of_fmap_2].
    intros o' Ho'. rewrite (Hfree o' Ho'). by eexists.
Qed.

(** [DisconnectInputs] undoes what [FetchInputs] and [ConnectInputs] changed in a block: when
    the proposed changes are written to the database and the transaction is then disconnected, the
    index is what it was, less the record of the transaction itself. *)
Theorem DisconnectInputs_undoes ReadFromDisk mempool inputs pool pindexBlock nBurnCoins c pool' nBurn' c' txdb :
  fBlock || fMiner = true -> Tx.IsCoinBase t = false ->
  (forall txin, txin ∈ vin t -> 0 <= o_n (prevout txin)) ->
  FetchInputs ReadFromDisk txdb mempool t pool fBlock fMiner ∅ = (Ok inputs, false) ->
  (forall o p, spent_at (pool ∪ txdb) o = Some p -> DiskPos.IsNull p = true -> p = DiskPos.SetNull) ->
  ConnectInputs nCoinbaseMaturity nBestHeight TotalBlocksEstimate t inputs pool posThisTx pindexBlock nBurnCoins
    fBlock fMiner flags c = Ok (pool', nBurn', c') ->
  DisconnectInputs t (pool' ∪ txdb) = Ok (delete (Tx.GetHash t) (pool ∪ txdb)).
Proof.
  intros Hf Hcb Hn Hfetch Hnull E.
  destruct (connect_marks _ _ _ _ _ _ _ _ _ _ _ Hf Hcb Hfetch Hnull E) as (Edb & Hnd & Hfree).
  unfold DisconnectInputs. by rewrite Hcb, Edb, disconnect_marked.
Qed.

Lemma burn_loop_no_crash l b : Forall (fun o => 2 <= zlen (scriptPubKey o)) l -> burn_loop l b <> Crash.
Proof.
  intros Hl. revert b. induction Hl as [|o l Ho Hl IH]; intros b; cbn [burn_loop]; [done|].
  destruct (lookup_lt_is_Some_2 (scriptPubKey o) 1) as [x ->]; [unfold zlen in Ho; lia|]. apply IH.
Qed.

(** After [FetchInputs] has succeeded, [ConnectInputs] fails no assertion, reads nothing out of
    range and throws nothing, provided that the transaction is a coinstake, or its output
    values pass [GetValueOut] and every output script has the two bytes that the test
    for [OP_BURN] reads. *)
Theorem ConnectInputs_no_crash ReadFromDisk txdb mempool pool inputs pindexBlock nBurnCoins c :
  Tx.IsCoinBase t = false -> (forall txin, txin ∈ vin t -> 0 <= o_n (prevout txin)) ->
  FetchInputs ReadFromDisk txdb mempool t pool fBlock fMiner ∅ = (Ok inputs, false) ->
  Tx.IsCoinStake t = true \/
    is_Some (Tx.GetValueOut t) /\ Forall (fun o => 2 <= zlen (scriptPubKey o)) (vout t) ->
  ConnectInputs nCoinbaseMaturity nBestHeight TotalBlocksEstimate t inputs pool posThisTx pindexBlock nBurnCoins
    fBlock fMiner flags c <> Crash.
Proof.
  intros Hcb Hn Hfetch Hv. apply FetchInputs_spec in Hfetch as [Hr _]; [|done].
  assert (Forall (fun i => 0 <= o_n (prevout i) /\ ready inputs i) (vin t)) as Hin.
  { rewrite Forall_forall in Hr |- *. auto. }
  unfold ConnectInputs. rewrite Hcb.
  pose proof (check_loop_no_crash inputs pindexBlock (vin t) 0 Hin) as H1'.
  destruct (check_loop _ _ _ _ _ _) as [v| |]; [|done|done]. cbn [mbind outcome_bind].
  pose proof (spend_loop_no_crash 0 (vin t) (mk_connecting inputs pool c) (fun k txin E => E) Hin) as H2'.
  destruct (spend_loop _ _ _ _ _ _ _ _ _ _) as [s| |]; [|done|done]. cbn [mbind outcome_bind].
  destruct (Tx.IsCoinStake t); [done|]. destruct Hv as [|[[w Ew] Hs]]; [done|].
  pose proof (burn_loop_no_crash (vout t) nBurnCoins Hs) as Hb.
  unfold check_fees. rewrite Ew. cbn [access mbind outcome_bind]. rewrite !outcome_assoc.
  do 4 (apply reject_if_no_crash; rewrite ?outcome_assoc). by destruct (burn_loop _ _).
Qed.
End connect.

(** A block at height 1 with a transaction that spends an output anyone can spend. *)
Definition funding_tx : CTransaction :=
  mk_tx 1 1000 [mk_txin (mk_outpoint 77 0) [] 0] [mk_txout 100000 [B#OP_1; B#OP_NOP]; mk_txout 9 [B#OP_1; B#OP_NOP]] 0.
Definition funding_hash : Z := @Tx.GetHash dummy_digests funding_tx.
Definition spending_tx : CTransaction :=
  mk_tx 1 2000 [mk_txin (mk_outpoint funding_hash 0) [] 0] [mk_txout 60000 [B#OP_1; B#OP_BURN]] 0.
Definition funding_db : gmap Z CTxIndex := {[ funding_hash := TxIndex.of_pos (mk_pos 1 100 80) 2 ]}.
Definition toy_disk (p : CDiskTxPos) : option CTransaction := if decide (p = mk_pos 1 100 80) then Some funding_tx else None.
Definition toy_connect (t : CTransaction) : MapPrevTx -> outcome (gmap Z CTxIndex * Z * CSignatureCache) := fun inputs =>
  @ConnectInputs ref_bn dummy_digests dummy_ec toy_env 10 5 0 t inputs ∅ (mk_pos 1 300 380) [] 0 true false 0 empty_cache.
Definition toy_inputs : MapPrevTx := {[ funding_hash := (TxIndex.of_pos (mk_pos 1 100 80) 2, funding_tx) ]}.

Lemma toy_fetch : FetchInputs toy_disk funding_db ∅ spending_tx ∅ true false ∅ = (Ok toy_inputs, false).
Proof. vm_compute. reflexivity. Qed.
Lemma toy_connects : exists pool' c', toy_connect spending_tx toy_inputs = Ok (pool', 60000, c').
Proof. eexists _, _. vm_compute. reflexivity. Qed.
Lemma spending_indices txin : txin ∈ vin spending_tx -> 0 <= o_n (prevout txin).
Proof. intros ->%list_elem_of_singleton. simpl. lia. Qed.

Lemma ConnectInputs_sound_witness : exists pool', spent_at pool' (mk_outpoint funding_hash 0) = Some (mk_pos 1 300 380).
Proof.
  destruct toy_connects as (pool' & c' & E). exists pool'.
  destruct (@ConnectInputs_sound ref_bn dummy_digests dummy_ec toy_env 10 5 0 spending_tx (mk_pos 1 300 380) true false 0
    eq_refl toy_inputs ∅ [] 0 empty_cache pool' 60000 c') as (_ & _ & _ & _ & Hp).
  - reflexivity.
  - constructor; [|constructor]. split; [discriminate|reflexivity].
  - exact E.
  - apply Hp; [reflexivity|by left].
Defined.

Lemma DisconnectInputs_undoes_witness : exists pool', 
  @DisconnectInputs dummy_digests spending_tx (pool' ∪ funding_db) =
    Ok (delete (@Tx.GetHash dummy_digests spending_tx) (∅ ∪ funding_db)).
Proof.
  destruct toy_connects as (pool' & c' & E). exists pool'.
  apply (@DisconnectInputs_undoes ref_bn dummy_digests dummy_ec toy_env 10 5 0 spending_tx (mk_pos 1 300 380) true false 0
    eq_refl toy_disk ∅ toy_inputs ∅ [] 0 empty_cache pool' 60000 c' funding_db).
  - reflexivity.
  - reflexivity.
  - exact spending_indices.
  - exact toy_fetch.
  - intros o p Ep _. unfold spent_at in Ep. rewrite (left_id_L ∅ (∪)) in Ep.
    destruct (funding_db !! o_hash o) as [ti|] eqn:Eti; [|discriminate Ep].
    unfold funding_db in Eti. apply lookup_singleton_Some in Eti as [_ <-]. unfold TxIndex.of_pos in Ep. cbn [vSpent] in Ep. apply lookup_replicate in Ep as [<- _]. reflexivity.
  - exact E.
Defined.

Lemma ConnectInputs_no_crash_witness : toy_connect spending_tx toy_inputs <> Crash.
Proof.
  refine (@ConnectInputs_no_crash ref_bn dummy_digests dummy_ec toy_env 10 5 0 spending_tx (mk_pos 1 300 380) true false 0
    toy_disk funding_db ∅ ∅ toy_inputs [] 0 empty_cache _ _ _ _).
  - reflexivity.
  - exact spending_indices.
  - exact toy_fetch.
  - right. split; [eexists; vm_compute; reflexivity|]. constructor; [vm_compute; discriminate|constructor].
Defined.

(** An output script of one byte makes [ConnectInputs] read past its end. *)
Example short_script_out_of_range :
  toy_connect (mk_tx 1 2000 (vin spending_tx) [mk_txout 60000 [B#OP_1]] 0) toy_inputs = Crash.
Proof. vm_compute. reflexivity. Qed.
End ConnectFacts.
