(* ===== verification/Kernel.v ===== *)
(** * Kernel: the stake modifier and the stake kernel (src/src/kernel.cpp)

    A [CBlockIndex] pointer is a list as in Chain; [mapBlockIndex] gives the block of a hash. *)

From stdpp Require Import sorting.
From S2P Require Import Prelude BigNum ScriptOps Serialize Crypto Keys Core SigHash Interp TxCheck Block Chain Connect.
Import BlockIndex.

Module StakeKernel.
(** [STAKE_TIMESTAMP_MASK], [MODIFIER_INTERVAL_RATIO], [nModifierInterval]. *)
Definition STAKE_TIMESTAMP_MASK : Z := 15.
Definition MODIFIER_INTERVAL_RATIO : Z := 3.
Definition nModifierInterval : Z := 10 * 60.

Definition GetWeight (nStakeMinAge nStakeMaxAge nIntervalBeginning nIntervalEnd : Z) : Z :=
  Z.min (i64 (nIntervalEnd - nIntervalBeginning - nStakeMinAge)) nStakeMaxAge.

(** The walk back to a block that generated a modifier, or to genesis. *)
Fixpoint last_generated (pindex : index_ptr) : index_ptr :=
  match pindex with
  | b :: (_ :: _) as pprev => if GeneratedStakeModifier b then pindex else last_generated pprev
  | _ => pindex
  end.
(** The modifier and its time; [None] is the error. *)
Definition GetLastStakeModifier (pindex : index_ptr) : option (Z * Z) :=
  match last_generated pindex with
  | [] => None
  | b :: _ => if GeneratedStakeModifier b then Some (nStakeModifier b, GetBlockTime b) else None
  end.

Definition GetStakeModifierSelectionIntervalSection (nSection : Z) : Z :=
  nModifierInterval * 63 / (63 + (63 - nSection) * (MODIFIER_INTERVAL_RATIO - 1)).
Definition GetStakeModifierSelectionInterval : Z :=
  foldr (fun k z => GetStakeModifierSelectionIntervalSection (Z.of_nat k) + z) 0 (seq 0 64).

(** Candidates are pairs of a block time and a block hash. *)
Definition candidate_le (a b : Z * Z) : Prop := a.1 < b.1 \/ a.1 = b.1 /\ a.2 <= b.2.
#[export] Instance candidate_le_dec : RelDecision candidate_le.
Proof. intros a b. unfold candidate_le. apply _. Defined.

Fixpoint collect (nSelectionIntervalStart : Z) (pindex : index_ptr) : list (Z * Z) :=
  match pindex with
  | b :: pprev =>
    if nSelectionIntervalStart <=? GetBlockTime b
    then (GetBlockTime b, phashBlock b) :: collect nSelectionIntervalStart pprev else []
  | [] => []
  end.

Section modifier.
Context `{Digests}.
Variable mapBlockIndex : gmap Z CBlockIndex.

(** The selection hash, divided by 2^32 for a proof-of-stake block. *)
Definition selection_hash (b : CBlockIndex) (nStakeModifierPrev : Z) : Z :=
  let h := Hash (@put _ ser_uint256 (hashProof b) ++ @put _ ser_uint256 nStakeModifierPrev) in
  if IsProofOfStake b then Z.shiftr h 32 else h.

(** The loop of [SelectBlockFromCandidates]: the best block so far with its hash; the outer
    [None] is the error of a candidate that is not indexed. *)
Fixpoint select_loop (l : list (Z * Z)) (selected : gset Z) (nSelectionIntervalStop nStakeModifierPrev : Z)
    (best : option (CBlockIndex * Z)) : option (option (CBlockIndex * Z)) :=
  match l with
  | [] => Some best
  | item :: l =>
    pindex ← mapBlockIndex !! item.2;
    if bool_decide (is_Some best) && (nSelectionIntervalStop <? GetBlockTime pindex) then Some best else
    if bool_decide (phashBlock pindex ∈ selected) then select_loop l selected nSelectionIntervalStop nStakeModifierPrev best else
    let hashSelection := selection_hash pindex nStakeModifierPrev in
    select_loop l selected nSelectionIntervalStop nStakeModifierPrev
      (match best with
       | Some (_, hashBest) => if hashSelection <? hashBest then Some (pindex, hashSelection) else best
       | None => Some (pindex, hashSelection)
       end)
  end.
(** The selected block; [None] when the code returns false. *)
Definition SelectBlockFromCandidates (l : list (Z * Z)) (selected : gset Z) (nSelectionIntervalStop nStakeModifierPrev : Z) :
    option CBlockIndex :=
  best ← select_loop l selected nSelectionIntervalStop nStakeModifierPrev None;
  fst <$> best.

(** The rounds: the new modifier and the blocks selected, in order. *)
Fixpoint rounds (todo nRound : nat) (l : list (Z * Z)) (selected : gset Z) (nSelectionIntervalStop nStakeModifier nStakeModifierNew : Z) :
    option Z :=
  match todo with
  | O => Some nStakeModifierNew
  | S todo =>
    let nSelectionIntervalStop := nSelectionIntervalStop + GetStakeModifierSelectionIntervalSection (Z.of_nat nRound) in
    pindex ← SelectBlockFromCandidates l selected nSelectionIntervalStop nStakeModifier;
    rounds todo (S nRound) l ({[phashBlock pindex]} ∪ selected) nSelectionIntervalStop nStakeModifier
      (Z.lor nStakeModifierNew (Z.shiftl (GetStakeEntropyBit pindex) (Z.of_nat nRound)))
  end.

(** The modifier and [fGeneratedStakeModifier]; [None] is the error. *)
Definition ComputeNextStakeModifier (pindexPrev : index_ptr) : option (Z * bool) :=
  match pindexPrev with
  | [] => Some (0, true)
  | prev :: _ =>
    '(nStakeModifier, nModifierTime) ← GetLastStakeModifier pindexPrev;
    if GetBlockTime prev / nModifierInterval <=? nModifierTime / nModifierInterval then Some (nStakeModifier, false) else
    let nSelectionIntervalStart :=
      GetBlockTime prev / nModifierInterval * nModifierInterval - GetStakeModifierSelectionInterval in
    let vSortedByTimestamp := merge_sort candidate_le (rev (collect nSelectionIntervalStart pindexPrev)) in
    nStakeModifierNew ←
      rounds (Nat.min 64 (length vSortedByTimestamp)) 0 vSortedByTimestamp ∅ nSelectionIntervalStart nStakeModifier 0;
    Some (nStakeModifierNew, true)
  end.

Definition ComputeStakeModifierV2 (pindexPrev : index_ptr) (kernel : Z) : Z :=
  match pindexPrev with
  | [] => 0
  | prev :: _ => Hash (@put _ ser_uint256 kernel ++ @put _ ser_uint256 (nStakeModifier prev))
  end.
End modifier.

(** ** The kernel *)
Section kernel.
Context `{BNLib} `{Digests} `{ECLib} `{SigEnv}.
Variables (nStakeMinAge nStakeMinConfirmations : Z).

(** The verdict, [hashProofOfStake] and [targetProofOfStake] (nothing when they are not set);
    the outer [None] is an output index out of range. *)
Definition CheckStakeKernelHashV2 (pindexPrev : CBlockIndex) (nBits nTimeBlockFrom : Z) (txPrev : CTransaction)
    (prevout : COutPoint) (nTimeTx : Z) : option (bool * option (Z * Z)) :=
  if nTimeTx <? nTime txPrev then Some (false, None) else
  if nTimeTx <? u32 (nTimeBlockFrom + nStakeMinAge) then Some (false, None) else
  txout ← vout txPrev !! Z.to_nat (o_n prevout);
  let bnTarget := CBigNum.SetCompact nBits * CBigNum.of_int (nValue txout) in
  let targetProofOfStake := le_val (CBigNum.getuint256 bnTarget) in
  let ss := @put _ ser_uint256 (nStakeModifier pindexPrev) ++ @put _ ser_u32 (nTime txPrev) ++
    @put _ ser_uint256 (o_hash prevout) ++ @put _ ser_u32 (o_n prevout) ++ @put _ ser_u32 nTimeTx in
  let hashProofOfStake := Hash ss in
  Some (negb (bnTarget <? CBigNum.setuint256 (le_bytes 32 hashProofOfStake)), Some (hashProofOfStake, targetProofOfStake)).

Definition CheckStakeKernelHash (pindexPrev : CBlockIndex) (nBits : Z) (blockFrom : CBlock) (txPrev : CTransaction)
    (prevout : COutPoint) (nTimeTx : Z) : option (bool * option (Z * Z)) :=
  CheckStakeKernelHashV2 pindexPrev nBits (b_nTime blockFrom) txPrev prevout nTimeTx.

Definition CheckCoinStakeTimestamp (nTimeBlock nTimeTx : Z) : bool :=
  (nTimeBlock =? nTimeTx) && (Z.land nTimeTx STAKE_TIMESTAMP_MASK =? 0).

(** [txPrev.ReadFromDisk(txdb, prevout, txindex)]: the index, the transaction and the range of
    the output; the header of the block at a position. *)
Variables (txdb : gmap Z CTxIndex) (ReadTx : CDiskTxPos -> option CTransaction) (ReadHeader : Z -> Z -> option CBlock).
Definition ReadFromDisk (prevout : COutPoint) : option (CTransaction * CTxIndex) :=
  txindex ← txdb !! o_hash prevout;
  t ← ReadTx (pos txindex);
  if zlen (vout t) <=? o_n prevout then None else Some (t, txindex).

Definition CheckProofOfStake (pindexPrev : index_ptr) (t : CTransaction) (nBits : Z) (c : CSignatureCache) :
    outcome (Z * Z * CSignatureCache) :=
  if negb (Tx.IsCoinStake t) then Fail 0 else
  txin ← access (vin t !! 0%nat);
  match ReadFromDisk (prevout txin) with
  | None => Fail 1
  | Some (txPrev, txindex) =>
    '(ok, c) ← Inputs.VerifySignature txPrev t 0 SCRIPT_VERIFY_NONE 0 c;
    if negb ok then Fail 100 else
    match ReadHeader (p_nFile (pos txindex)) (p_nBlockPos (pos txindex)) with
    | None => Fail 0
    | Some block =>
      match Inputs.IsConfirmedInNPrevBlocks txindex pindexPrev (nStakeMinConfirmations - 1) with
      | Some _ => Fail 100
      | None =>
        prev ← access (head pindexPrev);
        '(ok, out) ← access (CheckStakeKernelHash prev nBits block txPrev (prevout txin) (nTime t));
        if negb ok then Fail 1 else
        match out with Some (hashProof, target) => Ok (hashProof, target, c) | None => Crash end
      end
    end
  end.

(** The search for a kernel; the second result is [*pBlockTime]. *)
Definition CheckKernel (pindexPrev : index_ptr) (nBits nTime : Z) (prevout : COutPoint) : option (bool * option Z) :=
  match ReadFromDisk prevout with
  | None => Some (false, None)
  | Some (txPrev, txindex) =>
    match ReadHeader (p_nFile (pos txindex)) (p_nBlockPos (pos txindex)) with
    | None => Some (false, None)
    | Some block =>
      if nTime <? b_nTime block + nStakeMinAge then Some (false, None) else
      match Inputs.IsConfirmedInNPrevBlocks txindex pindexPrev (nStakeMinConfirmations - 1) with
      | Some _ => Some (false, None)
      | None =>
        prev ← head pindexPrev;
        '(ok, _) ← CheckStakeKernelHash prev nBits block txPrev prevout (u32 nTime);
        Some (ok, Some (b_nTime block))
      end
    end
  end.
End kernel.
End StakeKernel.

(** ** Facts *)
Module KernelFacts.
Import StakeKernel.
Section modifier.
Context `{Digests}.
Variable mapBlockIndex : gmap Z CBlockIndex.

(** A candidate whose hash leads to its block. *)
Definition indexed (item : Z * Z) : Prop := exists b, mapBlockIndex !! item.2 = Some b /\ phashBlock b = item.2.

Lemma select_loop_spec l selected stop prev best : Forall indexed l ->
  (best = None -> exists item, item ∈ l /\ item.2 ∉ selected) ->
  exists b h, select_loop mapBlockIndex l selected stop prev best = Some (Some (b, h)) /\
    ((exists h0, best = Some (b, h0)) \/
     phashBlock b ∉ selected /\ phashBlock b ∈ map snd l /\ mapBlockIndex !! phashBlock b = Some b).
Proof.
  intros Hl. revert best. induction Hl as [|item l (b & Eb & Hb) Hl IH]; intros best Hbest; cbn [select_loop map].
  { destruct best as [[b h]|]; [exists b, h; split; [done|left; by eexists]|].
    destruct (Hbest eq_refl) as (item & Hi & _). by apply not_elem_of_nil in Hi. }
  rewrite Eb. cbn [mbind option_bind].
  destruct (bool_decide (is_Some best) && _) eqn:Estop.
  { apply andb_true_iff in Estop as [[[b0 h0] ->]%bool_decide_eq_true _]. exists b0, h0. split; [done|left; by eexists]. }
  destruct (bool_decide_reflect (phashBlock b ∈ selected)) as [Hsel|Hsel].
  { destruct (IH best) as (b' & h' & E & Hr).
    { intros Hn. destruct (Hbest Hn) as (i & [->|Hi]%elem_of_cons & Hni); [by rewrite <- Hb in Hni|by exists i]. }
    exists b', h'. split; [done|]. destruct Hr as [?|(? & ? & ?)]; [by left|right]. split; [done|]. split; [by right|done]. }
  set (best' := match best with Some _ => _ | None => _ end).
  destruct (IH best') as (b' & h' & E & Hr).
  { subst best'. destruct best as [[b1 h1]|]; [|done]. by case_match. }
  exists b', h'. split; [done|]. destruct Hr as [(h2 & E2)|(? & ? & ?)]; [|right; split; [done|split; [by right|done]]].
  assert (best' = Some (b, selection_hash b prev) \/ best' = best) as [E3|E3].
  { subst best'. destruct best as [[b1 h1]|]; [|by left]. destruct (selection_hash b prev <? h1); [by left|by right]. }
  - rewrite E3 in E2. injection E2 as -> _. right. split; [done|]. rewrite Hb. split; [by left|done].
  - left. exists h2. by rewrite <- E3.
Qed.

(** While fewer blocks are selected than there are candidates, one is left. *)
Lemma candidate_left (l : list (Z * Z)) (selected : gset Z) : NoDup (map snd l) -> (size selected < length l)%nat ->
  exists item, item ∈ l /\ item.2 ∉ selected.
Proof.
  intros Hnd Hs. destruct (decide (Forall (fun i => i.2 ∈ selected) l)) as [Ha|Hn].
  - exfalso. assert (list_to_set (map snd l) ⊆ selected) as Hsub.
    { intros x (i & -> & Hi)%elem_of_list_to_set%list_elem_of_fmap. rewrite Forall_forall in Ha. by apply Ha. }
    apply subseteq_size in Hsub. rewrite size_list_to_set, length_map in Hsub by done. lia.
  - apply not_Forall_Exists in Hn; [|apply _]. apply Exists_exists in Hn as (i & Hi & Hni). by exists i.
Qed.

(** The entropy bits of the selected blocks, the first one lowest. *)
Definition bits (sel : list CBlockIndex) : Z := foldr (fun b z => GetStakeEntropyBit b + 2 * z) 0 sel.

Lemma GetStakeEntropyBit_range b : 0 <= GetStakeEntropyBit b <= 1.
Proof.
  unfold GetStakeEntropyBit, BLOCK_STAKE_ENTROPY. rewrite Z.shiftr_land. change (Z.shiftr 2 1) with (Z.ones 1).
  rewrite Z.land_ones by lia. pose proof (Z.mod_pos_bound (Z.shiftr (nFlags b) 1) (2 ^ 1)). lia.
Qed.

Lemma bits_range sel : 0 <= bits sel < 2 ^ Z.of_nat (length sel).
Proof.
  induction sel as [|b sel IH]; [done|]. cbn [bits foldr length]. fold (bits sel).
  rewrite Nat2Z.inj_succ, Z.pow_succ_r by lia. pose proof (GetStakeEntropyBit_range b). lia.
Qed.

Lemma rounds_spec todo nRound l selected stop prev acc : Forall indexed l -> NoDup (map snd l) ->
  (size selected + todo <= length l)%nat -> 0 <= acc < 2 ^ Z.of_nat nRound ->
  exists sel, rounds mapBlockIndex todo nRound l selected stop prev acc = Some (acc + 2 ^ Z.of_nat nRound * bits sel) /\
    length sel = todo /\ NoDup (map phashBlock sel) /\
    forall b, b ∈ sel -> phashBlock b ∉ selected /\ phashBlock b ∈ map snd l /\ mapBlockIndex !! phashBlock b = Some b.
Proof.
  intros Hl Hnd. revert nRound selected stop acc. induction todo as [|todo IH]; intros nRound selected stop acc Hs Ha; cbn [rounds].
  { exists []. cbn [bits foldr map length]. rewrite Z.mul_0_r, Z.add_0_r. split; [done|]. split; [done|]. split; [constructor|].
    intros b Hb. by apply not_elem_of_nil in Hb. }
  unfold SelectBlockFromCandidates. set (stop' := stop + _).
  destruct (select_loop_spec l selected stop' prev None Hl) as (b & h & -> & [(h0 & E)|(Hb & Hbl & Hbm)]); [|done|].
  { intros _. apply candidate_left; [done|lia]. }
  cbn [mbind option_bind fmap option_fmap option_map fst].
  pose proof (GetStakeEntropyBit_range b) as He.
  assert (Z.lor acc (Z.shiftl (GetStakeEntropyBit b) (Z.of_nat nRound)) = acc + 2 ^ Z.of_nat nRound * GetStakeEntropyBit b) as ->.
  { rewrite Z.shiftl_mul_pow2, Z.lor_comm, lor_mul_add by lia. lia. }
  destruct (IH (S nRound) ({[phashBlock b]} ∪ selected) stop' (acc + 2 ^ Z.of_nat nRound * GetStakeEntropyBit b))
    as (sel & E & Hlen & Hnds & Hin).
  { rewrite size_union, size_singleton by set_solver. lia. }
  { rewrite Nat2Z.inj_succ, Z.pow_succ_r by lia. nia. }
  exists (b :: sel). split.
  { rewrite E. f_equal. cbn [bits foldr]. fold (bits sel). rewrite Nat2Z.inj_succ, Z.pow_succ_r by lia. lia. }
  split; [cbn [length]; lia|]. cbn [map]. split.
  { apply NoDup_cons. split; [|done]. intros (b' & Eb & Hb')%list_elem_of_fmap. apply Hin in Hb' as [Hn _]. set_solver. }
  intros b' [->|Hb']%elem_of_cons; [done|]. apply Hin in Hb' as (Hn & ? & ?). split; [set_solver|done].
Qed.

Lemma collect_prefix start pindex : exists l', map (fun b => (GetBlockTime b, phashBlock b)) pindex = collect start pindex ++ l'.
Proof.
  induction pindex as [|b l [l' IH]]; [by exists []|]. cbn [collect map]. destruct (_ <=? _); [|by eexists].
  exists l'. by rewrite IH.
Qed.

(** For a chain of indexed blocks with distinct hashes whose genesis block generated a modifier,
    [ComputeNextStakeModifier] does not fail: it keeps the last modifier, or gives a new one
    of at most 64 bits made of the entropy bits of distinct blocks of the chain. *)
Theorem ComputeNextStakeModifier_bits pindexPrev genesis :
  (forall b, b ∈ pindexPrev -> mapBlockIndex !! phashBlock b = Some b) -> NoDup (map phashBlock pindexPrev) ->
  last pindexPrev = Some genesis -> GeneratedStakeModifier genesis = true ->
  exists m g, ComputeNextStakeModifier mapBlockIndex pindexPrev = Some (m, g) /\
    if (g : bool)
    then exists sel, m = bits sel /\ NoDup (map phashBlock sel) /\ (forall b, b ∈ sel -> b ∈ pindexPrev) /\
      (length sel <= 64)%nat /\ 0 <= m < 2 ^ 64
    else exists b, b ∈ pindexPrev /\ GeneratedStakeModifier b = true /\ m = nStakeModifier b.
Proof.
  intros Hi Hnd Hg Hgen.
  assert (exists b, b ∈ pindexPrev /\ GeneratedStakeModifier b = true /\
    GetLastStakeModifier pindexPrev = Some (nStakeModifier b, GetBlockTime b)) as (b0 & Hb0 & Hgb0 & Elast).
  { clear Hi Hnd. unfold GetLastStakeModifier. induction pindexPrev as [|b [|b' l] IH]; [done| |].
    - injection Hg as ->. exists genesis. cbn [last_generated]. rewrite Hgen. split; [by left|done].
    - change (last_generated (b :: b' :: l)) with
        (if GeneratedStakeModifier b then b :: b' :: l else last_generated (b' :: l)).
      destruct (GeneratedStakeModifier b) eqn:Eb; [exists b; rewrite Eb; split; [by left|done]|].
      destruct (IH Hg) as (b1 & Hb1 & Hr). exists b1. split; [by right|done]. }
  destruct pindexPrev as [|prev rest] eqn:Ep; [done|]. rewrite <- Ep in *. unfold ComputeNextStakeModifier. rewrite Ep.
  rewrite <- Ep. rewrite Elast. cbn [mbind option_bind].
  destruct (_ <=? _).
  { exists (nStakeModifier b0), false. split; [done|]. by exists b0. }
  set (start := _ - _). set (l := merge_sort candidate_le _). 
  assert (l ≡ₚ collect start pindexPrev) as Hp.
  { unfold l. rewrite merge_sort_Permutation. symmetry. apply Permutation_rev. }
  destruct (collect_prefix start pindexPrev) as [l' El].
  assert (map snd (collect start pindexPrev) ++ map snd l' = map phashBlock pindexPrev) as Esnd.
  { rewrite <- map_app, <- El, map_map. done. }
  assert (Forall indexed l) as Hl.
  { rewrite Hp. apply Forall_forall. intros item Hin.
    assert (item ∈ map (fun b => (GetBlockTime b, phashBlock b)) pindexPrev) as (b & -> & Hb)%list_elem_of_fmap
      by (rewrite El; apply elem_of_app; by left).
    exists b. split; [by apply Hi|done]. }
  assert (NoDup (map snd l)) as Hndl.
  { rewrite Hp. rewrite <- Esnd in Hnd. by apply NoDup_app in Hnd as [? _]. }
  destruct (rounds_spec (Nat.min 64 (length l)) 0 l ∅ start (nStakeModifier b0) 0 Hl Hndl) as (sel & E & Hlen & Hnds & Hin);
    [rewrite size_empty; lia|simpl; lia|].
  rewrite E. cbn [mbind option_bind]. exists (bits sel), true. split; [do 2 f_equal; simpl; lia|].
  pose proof (bits_range sel) as Hr. rewrite Hlen in Hr.
  exists sel. split; [done|]. split; [done|]. split.
  - intros b Hb. apply Hin in Hb as (_ & Hbl & Hbm). rewrite Hp in Hbl.
    assert (phashBlock b ∈ map phashBlock pindexPrev) as (b' & Eb' & Hb')%list_elem_of_fmap.
    { rewrite <- Esnd. apply elem_of_app. by left. }
    specialize (Hi b' Hb'). rewrite <- Eb', Hbm in Hi. by injection Hi as ->.
  - split; [lia|]. split; [lia|]. eapply Z.lt_le_trans; [apply Hr|]. apply Z.pow_le_mono_r; lia.
Qed.
End modifier.

(** A genesis block with entropy bit 1 and one block twenty minutes later. *)
Definition genesis_index : CBlockIndex := mk_index 900 (Some 901) 0 0 0 0 0 0 6 5 OutPoint.null 0 3 1 0 0 0 0.
Definition second_index : CBlockIndex := mk_index 901 None 0 0 0 1 0 0 3 5 OutPoint.null 0 4 1 0 1200 0 0.
Definition toy_index : gmap Z CBlockIndex := <[900 := genesis_index]> (<[901 := second_index]> ∅).

Lemma ComputeNextStakeModifier_bits_witness :
  exists m, @ComputeNextStakeModifier dummy_digests toy_index [second_index; genesis_index] = Some (m, true) /\ 0 <= m < 2 ^ 64.
Proof.
  destruct (@ComputeNextStakeModifier_bits dummy_digests toy_index [second_index; genesis_index] genesis_index)
    as (m & g & E & Hg).
  - intros b [->|Hb]%elem_of_cons; [reflexivity|]. apply list_elem_of_singleton in Hb as ->. reflexivity.
  - apply NoDup_cons. split; [|apply NoDup_singleton]. intros Hx%list_elem_of_singleton. discriminate Hx.
  - reflexivity.
  - reflexivity.
  - destruct g; [|vm_compute in E; discriminate E]. exists m. split; [exact E|]. destruct Hg as (sel & _ & _ & _ & _ & Hr). exact Hr.
Defined.
End KernelFacts.
