(* ===== verification/BlockCheck.v ===== *)
(** * BlockCheck: the checks of a block that need no context (src/src/main.cpp)

    [CheckBlock] and [CheckBlockSignature] of [CBlock], over the checks of its
    transactions (TxCheck) and its Merkle tree (Block). *)

From S2P Require Import Prelude BigNum ScriptOps Serialize Crypto Keys Core SigHash Interp Standard TxCheck Block Chain.
Import Check.

Definition MAX_BLOCK_SIGOPS : Z := MAX_BLOCK_SIZE / 50.

Module BlockCheck.
Section check.
Context `{BNLib} `{Digests} `{ECLib}.
Variable scrypt_blockhash : bytes -> Z.
(** [Params().ProofOfWorkLimit()], [GetAdjustedTime()], [nMaxDatacarrierBytes]. *)
Variables (ProofOfWorkLimit adjusted_time nMaxDatacarrierBytes : Z).

Definition GetBlockTime (b : CBlock) : Z := b_nTime b.

(** The key that an unspendable output carries after [OP_RETURN]. *)
Definition carried_key (script : bytes) : option bytes :=
  '(opcode, _, pc) ← CScript.GetOp script;
  if negb (opcode =? OP_RETURN) then None else
  '(_, vchPushValue, _) ← CScript.GetOp pc;
  if Encoding.IsCompressedOrUncompressedPubKey vchPushValue then Some vchPushValue else None.

(** A proof-of-stake block has a second transaction with two outputs at least. *)
Definition CheckBlockSignature (b : CBlock) : bool :=
  if Block.IsProofOfWork b then bool_decide (vchBlockSig b = []) else
  if bool_decide (vchBlockSig b = []) then false else
  match vtx b with
  | _ :: tx :: _ =>
    match vout tx with
    | _ :: txout :: _ =>
      let '(ok, whichType, vSolutions) := Solver nMaxDatacarrierBytes (scriptPubKey txout) in
      if negb ok then false else
      let verify vchPubKey :=
        PubKey.Verify (PubKey.Set_ vchPubKey) (Block.GetHash scrypt_blockhash b) (vchBlockSig b) in
      if bool_decide (whichType = TX_PUBKEY) then
        match vSolutions with vchPubKey :: _ => verify vchPubKey | [] => false end
      else match carried_key (scriptPubKey txout) with Some vchPubKey => verify vchPubKey | None => false end
    | _ => false
    end
  | _ => false
  end.

(** The loop over the transactions: each is checked and is not newer than the block. *)
Fixpoint check_txs (block_time : Z) (l : list CTransaction) : verdict :=
  match l with
  | [] => Accept
  | tx :: l =>
    match CheckTransaction tx with
    | Reject nDoS => Reject nDoS
    | Accept => if block_time <? nTime tx then Reject 50 else check_txs block_time l
    end
  end.

(** The checks of a proof-of-stake block's first two transactions. *)
Definition check_stake (b : CBlock) : verdict :=
  match vtx b with
  | coinbase :: rest =>
    if negb (match vout coinbase with [o] => TxOut.IsEmpty o | _ => false end) then Reject 100 else
    match rest with
    | tx :: rest =>
      if negb (Tx.IsCoinStake tx) then Reject 100
      else if existsb Tx.IsCoinStake rest then Reject 100 else Accept
    | [] => Reject 100
    end
  | [] => Reject 100
  end.

Definition block_sigops (b : CBlock) : Z :=
  fold_left (fun nSigOps tx => u32 (nSigOps + GetLegacySigOpCount tx)) (vtx b) 0.

Definition CheckBlock (fCheckPOW fCheckMerkleRoot fCheckSig : bool) (b : CBlock) : verdict :=
  if bool_decide (vtx b = []) || (MAX_BLOCK_SIZE <? zlen (vtx b)) || (MAX_BLOCK_SIZE <? GetSerializeSize b)
  then Reject 100 else
  if fCheckPOW && Block.IsProofOfWork b
     && negb (Difficulty.CheckProofOfWork ProofOfWorkLimit (Block.GetPoWHash scrypt_blockhash b) (nBits b))
  then Reject 50 else
  if FutureDrift adjusted_time <? GetBlockTime b then Reject 0 else
  if negb (match vtx b with tx :: _ => Tx.IsCoinBase tx | [] => false end) then Reject 100 else
  if existsb Tx.IsCoinBase (tail (vtx b)) then Reject 100 else
  match (if Block.IsProofOfStake b then check_stake b else Accept) with
  | Reject nDoS => Reject nDoS
  | Accept =>
    if fCheckSig && negb (CheckBlockSignature b) then Reject 100 else
    match check_txs (GetBlockTime b) (vtx b) with
    | Reject nDoS => Reject nDoS
    | Accept =>
      let uniqueTx : gset Z := list_to_set (Merkle.block_txids b) in
      if negb (size uniqueTx =? length (vtx b))%nat then Reject 100 else
      if MAX_BLOCK_SIGOPS <? block_sigops b then Reject 100 else
      if fCheckMerkleRoot && negb (hashMerkleRoot b =? fst (Merkle.BuildMerkleTree (Merkle.block_txids b)))
      then Reject 100 else Accept
    end
  end.

(** ** Facts *)

Lemma unique_NoDup (l : list Z) : size (list_to_set l : gset Z) = length l <-> NoDup l.
Proof.
  split; [|apply size_list_to_set].
  induction l as [|x l IH]; intros E; [constructor|]. cbn [list_to_set length] in E.
  assert (size (list_to_set l : gset Z) <= length l)%nat as Hle.
  { clear. induction l as [|x l IH]; [done|]. cbn [list_to_set length].
    destruct (decide (x ∈ (list_to_set l : gset Z))) as [Hx|Hx].
    - rewrite (subseteq_union_1_L {[x]}) by set_solver. lia.
    - rewrite size_union, size_singleton by set_solver. lia. }
  destruct (decide (x ∈ (list_to_set l : gset Z))) as [Hx|Hx].
  - rewrite (subseteq_union_1_L {[x]}) in E by set_solver. lia.
  - rewrite size_union, size_singleton in E by set_solver.
    constructor; [by rewrite elem_of_list_to_set in Hx | apply IH; lia].
Qed.

Lemma check_txs_Accept block_time l :
  check_txs block_time l = Accept <->
  Forall (fun tx => CheckTransaction tx = Accept /\ nTime tx <= block_time) l.
Proof.
  induction l as [|tx l IH]; cbn [check_txs]; [by split|]. rewrite Forall_cons, <- IH.
  destruct (CheckTransaction tx); [|naive_solver].
  destruct (Z.ltb_spec block_time (nTime tx)); naive_solver lia.
Qed.

(** What a block that passes is. *)
Record good_block (fCheckPOW fCheckMerkleRoot fCheckSig : bool) (b : CBlock) : Prop := {
  gb_size : zlen (vtx b) <= MAX_BLOCK_SIZE /\ GetSerializeSize b <= MAX_BLOCK_SIZE;
  gb_pow : fCheckPOW = true -> Block.IsProofOfWork b = true ->
    Difficulty.CheckProofOfWork ProofOfWorkLimit (Block.GetPoWHash scrypt_blockhash b) (nBits b) = true;
  gb_time : GetBlockTime b <= FutureDrift adjusted_time;
  gb_coinbase : exists coinbase rest, vtx b = coinbase :: rest /\ Tx.IsCoinBase coinbase = true /\
    Forall (fun tx => Tx.IsCoinBase tx = false) rest;
  gb_stake : Block.IsProofOfStake b = true ->
    exists coinbase o stake rest, vtx b = coinbase :: stake :: rest /\ vout coinbase = [o] /\
      TxOut.IsEmpty o = true /\ Tx.IsCoinStake stake = true /\
      Forall (fun tx => Tx.IsCoinStake tx = false) rest;
  gb_sig : fCheckSig = true -> CheckBlockSignature b = true;
  gb_txs : Forall (fun tx => CheckTransaction tx = Accept /\ nTime tx <= GetBlockTime b) (vtx b);
  gb_unique : NoDup (Merkle.block_txids b);
  gb_sigops : block_sigops b <= MAX_BLOCK_SIGOPS;
  gb_merkle : fCheckMerkleRoot = true ->
    hashMerkleRoot b = fst (Merkle.BuildMerkleTree (Merkle.block_txids b)) }.

Lemma existsb_false {A} (f : A -> bool) l : existsb f l = false <-> Forall (fun x => f x = false) l.
Proof.
  induction l as [|x l IH]; cbn [existsb]; [by split|]. rewrite orb_false_iff, Forall_cons. tauto.
Qed.

Lemma check_stake_Accept b :
  check_stake b = Accept <->
  exists coinbase o stake rest, vtx b = coinbase :: stake :: rest /\ vout coinbase = [o] /\
    TxOut.IsEmpty o = true /\ Tx.IsCoinStake stake = true /\
    Forall (fun tx => Tx.IsCoinStake tx = false) rest.
Proof.
  unfold check_stake. split.
  - destruct (vtx b) as [|coinbase [|stake rest]]; [done| |].
    { by destruct (negb _). }
    destruct (vout coinbase) as [|o [|]] eqn:Eo; try done. intros E.
    destruct (TxOut.IsEmpty o) eqn:Ee; [|done]. destruct (Tx.IsCoinStake stake) eqn:Es; [|done].
    destruct (existsb Tx.IsCoinStake rest) eqn:Er; [done|]. apply existsb_false in Er.
    by exists coinbase, o, stake, rest.
  - intros (coinbase & o & stake & rest & -> & -> & -> & -> & Hr%existsb_false). by rewrite Hr.
Qed.

Lemma CheckBlock_good fp fm fs b : CheckBlock fp fm fs b = Accept <-> good_block fp fm fs b.
Proof.
  unfold CheckBlock. split.
  - intros E.
    destruct (bool_decide (vtx b = []) || _ || _) eqn:E1; [done|].
    apply orb_false_iff in E1 as [[_ E1]%orb_false_iff E2].
    destruct (fp && _ && _) eqn:E3; [done|]. destruct (FutureDrift _ <? _) eqn:E4; [done|].
    destruct (vtx b) as [|coinbase rest] eqn:Ev; [done|].
    destruct (Tx.IsCoinBase coinbase) eqn:Ec; [|done]. cbn [negb tail] in E.
    destruct (existsb Tx.IsCoinBase rest) eqn:Er; [done|].
    destruct (if Block.IsProofOfStake b then check_stake b else Accept) as [|d] eqn:Es; [|done].
    destruct (fs && _) eqn:Esig; [done|].
    destruct (check_txs (GetBlockTime b) (coinbase :: rest)) as [|d] eqn:Et; [|done].
    destruct (negb _) eqn:Eu in E; [done|]. destruct (MAX_BLOCK_SIGOPS <? block_sigops b) eqn:Eo; [done|].
    destruct (fm && _) eqn:Em; [done|].
    split.
    + rewrite Ev. lia.
    + intros -> Hw. rewrite Hw in E3. by apply negb_false_iff in E3.
    + lia.
    + exists coinbase, rest. by rewrite Ev, existsb_false in *.
    + intros Hs. rewrite Hs in Es. by apply check_stake_Accept.
    + intros ->. by apply negb_false_iff in Esig.
    + rewrite Ev. by apply check_txs_Accept.
    + apply negb_false_iff, Nat.eqb_eq in Eu. apply unique_NoDup. rewrite Eu.
      unfold Merkle.block_txids. by rewrite length_map, Ev.
    + lia.
    + intros ->. apply negb_false_iff in Em. by apply Z.eqb_eq.
  - intros [[G1 G2] Gp Gt (coinbase & rest & Ev & Ec & Er) Gs Gsig Gx Gu Go Gm].
    rewrite bool_decide_eq_false_2 by (by rewrite Ev).
    destruct (Z.ltb_spec MAX_BLOCK_SIZE (zlen (vtx b))); [lia|].
    destruct (Z.ltb_spec MAX_BLOCK_SIZE (GetSerializeSize b)); [lia|]. cbn [orb].
    assert (fp && Block.IsProofOfWork b && negb (Difficulty.CheckProofOfWork ProofOfWorkLimit
              (Block.GetPoWHash scrypt_blockhash b) (nBits b)) = false) as ->.
    { destruct fp, (Block.IsProofOfWork b) eqn:Ew; try done. by rewrite Gp. }
    destruct (Z.ltb_spec (FutureDrift adjusted_time) (GetBlockTime b)); [lia|].
    assert ((if Block.IsProofOfStake b then check_stake b else Accept) = Accept) as ->.
    { destruct (Block.IsProofOfStake b); [|done]. by apply check_stake_Accept, Gs. }
    assert (fs && negb (CheckBlockSignature b) = false) as -> by (destruct fs; [by rewrite Gsig|done]).
    apply check_txs_Accept in Gx as ->.
    apply unique_NoDup in Gu. rewrite Gu. unfold Merkle.block_txids at 1. rewrite length_map, Nat.eqb_refl.
    destruct (Z.ltb_spec MAX_BLOCK_SIGOPS (block_sigops b)); [lia|].
    assert (fm && negb (hashMerkleRoot b =? fst (Merkle.BuildMerkleTree (Merkle.block_txids b))) = false) as ->.
    { destruct fm; [|done]. rewrite Gm by done. by rewrite Z.eqb_refl. }
    rewrite Ev. cbn [tail]. rewrite Ec. cbn [negb]. by rewrite (proj2 (existsb_false _ _) Er).
Qed.
End check.
End BlockCheck.
Export BlockCheck.

(** ** Properties *)
Module BlockCheckTheorems.
Section theorems.
Context `{BNLib} `{Digests} `{ECLib}.
Context (scrypt_blockhash : bytes -> Z) (ProofOfWorkLimit adjusted_time nMaxDatacarrierBytes : Z).

(** C25. [CheckBlock] accepts exactly the good blocks: not too large; below the target when mined
    and not too far in the future; one coinbase, first; in a proof-of-stake block an empty
    coinbase and a single coinstake, second; signed as the flags ask; transactions that pass
    [CheckTransaction], are not newer than the block and have distinct hashes; few enough
    signature operations; and the Merkle root of its transactions. *)
Theorem CheckBlock_spec fCheckPOW fCheckMerkleRoot fCheckSig b :
  CheckBlock scrypt_blockhash ProofOfWorkLimit adjusted_time nMaxDatacarrierBytes fCheckPOW fCheckMerkleRoot fCheckSig b
    = Accept <->
  good_block scrypt_blockhash ProofOfWorkLimit adjusted_time nMaxDatacarrierBytes fCheckPOW fCheckMerkleRoot fCheckSig b.
Proof. apply CheckBlock_good. Qed.
End theorems.
End BlockCheckTheorems.
