(* ===== verification/Base58.v ===== *)
(** * Base58: base58 text, checksums and addresses (src/src/base58.h)

    The conversion between byte strings and base58 text by long division, the
    form with a checksum, and the addresses made of it. [BN_div] and [BN_mul]
    are the division and the multiplication of integers, as in BigNum. *)

From S2P Require Import Prelude BigNum Serialize Crypto Keys Core Standard.

Module Base58.

Definition pszBase58 : bytes := raw "123456789ABCDEFGHJKLMNPQRSTUVWXYZabcdefghijkmnopqrstuvwxyz"%text.

(** [isspace] in the "C" locale. *)
Definition isspace (c : byte) : bool := ((9 <=? uchar c) && (uchar c <=? 13)) || (uchar c =? 32).

Fixpoint skip_spaces (p : bytes) : bytes :=
  match p with
  | c :: rest => if isspace c then skip_spaces rest else p
  | [] => []
  end.

(** [strchr(l, c) - l] for a character that is not the terminator. *)
Fixpoint strchr (c : byte) (l : bytes) : option Z :=
  match l with
  | [] => None
  | b :: l => if decide (b = c) then Some 0 else Z.succ <$> strchr c l
  end.

Section codec.
Context `{BNLib}.

(** The division loop of [EncodeBase58]: the digits, least significant first. *)
Fixpoint encode_loop (fuel : nat) (bn : Z) : bytes :=
  match fuel with
  | O => []
  | S k =>
      if 0 <? bn then
        let dv := Z.quot bn 58 in
        let c := CBigNum.getulong (Z.rem bn 58) in
        (pszBase58 !!! Z.to_nat c) :: encode_loop k dv
      else []
  end.

(** Leading bytes (or characters) equal to [z]. *)
Fixpoint leading (z : byte) (l : bytes) : nat :=
  match l with
  | b :: l => if decide (b = z) then S (leading z l) else O
  | [] => O
  end.

(** A byte takes at most two base58 digits, so twice the length bounds the loop. *)
Definition EncodeBase58 (vch : bytes) : bytes :=
  let vchTmp := rev vch ++ [B#0] in
  let bn := CBigNum.setvch vchTmp in
  rev (encode_loop (2 * length vch) bn ++ replicate (leading B#0 vch) (pszBase58 !!! 0%nat)).

(** The multiplication loop of [DecodeBase58]; [None] where it returns false.
    [psz] is the text up to its terminator. *)
Fixpoint decode_loop (bn : Z) (p : bytes) : option Z :=
  match p with
  | [] => Some bn
  | c :: rest =>
      match strchr c pszBase58 with
      | None => if decide (skip_spaces p = []) then Some bn else None
      | Some i => decode_loop (bn * 58 + i) rest
      end
  end.

(** The sign byte that [getvch] adds. *)
Definition trim_sign (vch : bytes) : bytes :=
  match rev vch with
  | b1 :: b2 :: rest =>
      if (uchar b1 =? 0) && (128 <=? uchar b2) then rev (b2 :: rest) else vch
  | _ => vch
  end.

(** The result and [vchRet], which stays empty on failure. *)
Definition DecodeBase58 (psz : bytes) : bool * bytes :=
  let psz := skip_spaces psz in
  match decode_loop 0 psz with
  | None => (false, [])
  | Some bn =>
      (true, replicate (leading (pszBase58 !!! 0%nat) psz) B#0 ++ rev (trim_sign (CBigNum.getvch bn)))
  end.

Context `{Digests}.

Definition EncodeBase58Check (vchIn : bytes) : bytes :=
  EncodeBase58 (vchIn ++ take 4 (le_bytes 32 (Hash vchIn))).

Definition DecodeBase58Check (psz : bytes) : bool * bytes :=
  let '(ok, vchRet) := DecodeBase58 psz in
  if negb ok then (false, vchRet) else
  if (length vchRet <? 4)%nat then (false, []) else
  let body := take (length vchRet - 4) vchRet in
  if decide (take 4 (le_bytes 32 (Hash body)) = drop (length vchRet - 4) vchRet)
  then (true, body) else (false, []).

(** ** [CBase58Data] *)
Record CBase58Data := mk_data { vchVersion : bytes; vchData : bytes }.

Definition SetString (psz : bytes) (nVersionBytes : nat) : bool * CBase58Data :=
  let vchTemp := (DecodeBase58Check psz).2 in
  if (length vchTemp <? nVersionBytes)%nat then (false, mk_data [] [])
  else (true, mk_data (take nVersionBytes vchTemp) (drop nVersionBytes vchTemp)).

Definition ToString (d : CBase58Data) : bytes := EncodeBase58Check (vchVersion d ++ vchData d).

(** ** [CBitcoinAddress] *)
Record Base58Prefixes := mk_prefixes { PUBKEY_ADDRESS : bytes; SCRIPT_ADDRESS : bytes; SECRET_KEY : bytes }.
Definition main_prefixes : Base58Prefixes := mk_prefixes [B#25] [B#85] [B#45].
Definition testnet_prefixes : Base58Prefixes := mk_prefixes [B#65] [B#127] [B#58].

Variable Params : Base58Prefixes.

Definition Address_Set (dest : CTxDestination) (addr : CBase58Data) : bool * CBase58Data :=
  match dest with
  | CKeyID id => (true, mk_data (PUBKEY_ADDRESS Params) (le_bytes 20 id))
  | CScriptID id => (true, mk_data (SCRIPT_ADDRESS Params) (le_bytes 20 id))
  | CNoDestination => (false, addr)
  end.

Definition CBitcoinAddress (dest : CTxDestination) : CBase58Data := (Address_Set dest (mk_data [] [])).2.

Definition Address_IsValid (d : CBase58Data) : bool :=
  (length (vchData d) =? 20)%nat
  && (bool_decide (vchVersion d = PUBKEY_ADDRESS Params) || bool_decide (vchVersion d = SCRIPT_ADDRESS Params)).

Definition Address_Get (d : CBase58Data) : CTxDestination :=
  if negb (Address_IsValid d) then CNoDestination else
  let id := le_val (take 20 (vchData d)) in
  if bool_decide (vchVersion d = PUBKEY_ADDRESS Params) then CKeyID id
  else if bool_decide (vchVersion d = SCRIPT_ADDRESS Params) then CScriptID id
  else CNoDestination.

Definition Address_IsScript (d : CBase58Data) : bool :=
  Address_IsValid d && bool_decide (vchVersion d = SCRIPT_ADDRESS Params).

(** [GetKeyID]: the result and the identifier it sets. *)
Definition Address_GetKeyID (d : CBase58Data) : option Z :=
  if negb (Address_IsValid d) || negb (bool_decide (vchVersion d = PUBKEY_ADDRESS Params)) then None
  else Some (le_val (take 20 (vchData d))).

(** ** [CBitcoinSecret] *)

(** [None] is the failed assertion. *)
Definition Secret_SetKey (vchSecret : CKey) : option CBase58Data :=
  if fValid vchSecret
  then Some (mk_data (SECRET_KEY Params)
               (take 32 (k_vch vchSecret) ++ if fCompressed vchSecret then [B#1] else []))
  else None.

(** [None]: [&vchData[0]] or [&vchData[32]] beyond the vector. *)
Definition Secret_GetKey (d : CBase58Data) : option CKey :=
  if (length (vchData d) <? 32)%nat then None
  else Some (PrivKey.Set_key (mk_key false false (replicate 32 B#0)) (take 32 (vchData d))
               (bool_decide (vchData d !! 32%nat = Some B#1))).

Definition Secret_IsValid (d : CBase58Data) : bool :=
  ((length (vchData d) =? 32)%nat
   || ((length (vchData d) =? 33)%nat && bool_decide (vchData d !! 32%nat = Some B#1)))
  && bool_decide (vchVersion d = SECRET_KEY Params).

End codec.
End Base58.
Export Base58.

(** ** Facts *)
Module Base58Facts.

(** *** Digits *)
Definition ch (d : Z) : byte := pszBase58 !!! Z.to_nat d.
Definition digit58 (d : Z) : Prop := 0 <= d < 58.
Definition fold58 (n : Z) (l : list Z) : Z := fold_left (fun n d => n * 58 + d) l n.

Fixpoint digits58 (fuel : nat) (n : Z) : list Z :=
  match fuel with
  | O => []
  | S k => if 0 <? n then n mod 58 :: digits58 k (n / 58) else []
  end.

Lemma strchr_ch d : digit58 d -> strchr (ch d) pszBase58 = Some d.
Proof.
  intros Hd.
  apply (bool_decide_eq_true_1 (strchr (ch d) pszBase58 = Some d)).
  revert d Hd. apply (Bytes.check_below 58 (fun d => bool_decide (strchr (ch d) pszBase58 = Some d))).
  vm_compute. reflexivity.
Qed.

Lemma ch_not_space d : digit58 d -> isspace (ch d) = false.
Proof.
  intros Hd. apply negb_true_iff. revert d Hd.
  apply (Bytes.check_below 58 (fun d => negb (isspace (ch d)))). vm_compute. reflexivity.
Qed.

Lemma ch_inj_zero d : digit58 d -> ch d = ch 0 -> d = 0.
Proof.
  intros Hd E. pose proof (strchr_ch d Hd) as H. rewrite E, (strchr_ch 0) in H; [|unfold digit58; lia].
  by injection H.
Qed.

Lemma ch_zeroes l : forall k, Forall digit58 l -> map ch l = replicate k (ch 0) -> l = replicate k 0.
Proof.
  induction l as [|d l IH]; intros [|k] Hl E; try done.
  apply Forall_cons in Hl as [Hd Hl]. injection E as Ed E.
  cbn [replicate]. f_equal; [by apply ch_inj_zero | by apply IH].
Qed.

Lemma strchr_Some c i : strchr c pszBase58 = Some i -> digit58 i /\ c = ch i.
Proof.
  assert (forall l j, strchr c l = Some j -> 0 <= j < zlen l /\ l !! Z.to_nat j = Some c) as H.
  { induction l as [|b l IH]; intros j E; cbn [strchr] in E; [done|]. rewrite zlen_cons.
    pose proof (zlen_nonneg l). case_decide as Hb.
    - injection E as <-. subst b. split; [lia|done].
    - apply fmap_Some in E as (k & Ek & ->). apply IH in Ek as [Hk El]. split; [lia|].
      by rewrite Z2Nat.inj_succ by lia. }
  intros E. apply H in E as [Hi El]. split; [exact Hi|].
  unfold ch. by rewrite (list_lookup_total_correct _ _ _ El).
Qed.

Lemma digits58_range fuel : forall n, Forall digit58 (digits58 fuel n).
Proof.
  induction fuel as [|k IH]; intros n; cbn [digits58]; [constructor|].
  destruct (0 <? n); constructor; [apply Z.mod_pos_bound; lia | apply IH].
Qed.

Lemma digits58_value fuel : forall n, 0 <= n < 58 ^ Z.of_nat fuel -> fold58 0 (rev (digits58 fuel n)) = n.
Proof.
  induction fuel as [|k IH]; intros n Hn; cbn [digits58]; [unfold fold58; cbn in *; lia|].
  destruct (Z.ltb_spec 0 n); [|unfold fold58; cbn; lia]. cbn [rev]. unfold fold58. rewrite fold_left_app.
  fold (fold58 0 (rev (digits58 k (n / 58)))). rewrite IH.
  - cbn [fold_left]. pose proof (Z.div_mod n 58 ltac:(lia)). lia.
  - rewrite Nat2Z.inj_succ, Z.pow_succ_r in Hn by lia.
    split; [apply Z.div_pos; lia | apply Z.div_lt_upper_bound; lia].
Qed.

Lemma fold58_app n l1 l2 : fold58 n (l1 ++ l2) = fold58 (fold58 n l1) l2.
Proof. apply fold_left_app. Qed.

Lemma fold58_zeroes k : fold58 0 (replicate k 0) = 0.
Proof. induction k as [|k IH]; [done|]. exact IH. Qed.

Lemma fold58_mono l : forall n, 0 <= n -> Forall digit58 l -> n * 58 ^ zlen l <= fold58 n l < (n + 1) * 58 ^ zlen l.
Proof.
  induction l as [|d l IH]; intros n Hn Hl.
  { change (58 ^ zlen []) with 1. cbn. lia. }
  apply Forall_cons in Hl as [Hd Hl]. unfold digit58 in Hd.
  change (fold58 n (d :: l)) with (fold58 (n * 58 + d) l).
  specialize (IH (n * 58 + d) ltac:(lia) Hl). pose proof (zlen_nonneg l).
  rewrite zlen_cons, Z.pow_add_r by lia.
  assert (0 < 58 ^ zlen l) by (apply Z.pow_pos_nonneg; lia). change (58 ^ 1) with 58. nia.
Qed.

(** A numeral without a leading zero is the one the division loop writes. *)
Lemma digits58_fold d l : digit58 d -> d <> 0 -> Forall digit58 l -> forall fuel,
  fold58 0 (d :: l) < 58 ^ Z.of_nat fuel -> digits58 fuel (fold58 0 (d :: l)) = rev (d :: l).
Proof.
  intros Hd Hd0. induction l as [|e l IH] using rev_ind; intros Hl fuel Hf.
  - cbn [fold58 fold_left] in *. unfold fold58 in *. cbn [fold_left] in *. unfold digit58 in Hd.
    destruct fuel as [|k]; [cbn in Hf; lia|]. cbn [digits58].
    destruct (Z.ltb_spec 0 (0 * 58 + d)); [|lia].
    rewrite Z.mod_small, Z.div_small by lia. by destruct k.
  - apply Forall_app in Hl as [Hl [He _]%Forall_cons]. unfold digit58 in He.
    change (d :: l ++ [e]) with ((d :: l) ++ [e]) in *. rewrite fold58_app in Hf |- *.
    set (m := fold58 0 (d :: l)) in *. change (fold58 m [e]) with (m * 58 + e) in *.
    assert (0 < m) as Hm.
    { unfold m. change (fold58 0 (d :: l)) with (fold58 (0 * 58 + d) l). unfold digit58 in Hd.
      pose proof (fold58_mono l (0 * 58 + d) ltac:(lia) Hl). pose proof (zlen_nonneg l).
      assert (0 < 58 ^ zlen l) by (apply Z.pow_pos_nonneg; lia). nia. }
    destruct fuel as [|k]; [change (58 ^ Z.of_nat 0) with 1 in Hf; lia|]. cbn [digits58].
    rewrite Nat2Z.inj_succ, Z.pow_succ_r in Hf by lia.
    destruct (Z.ltb_spec 0 (m * 58 + e)); [|lia].
    rewrite Z.add_comm, Z.mod_add, Z.mod_small, Z.div_add, Z.div_small, Z.add_0_l by lia.
    rewrite IH by (try done; lia). by rewrite rev_app_distr.
Qed.

(** The last digit that the division loop writes is not zero. *)
Lemma digits58_last fuel : forall n l d, 0 <= n < 58 ^ Z.of_nat fuel ->
  digits58 fuel n = l ++ [d] -> d <> 0.
Proof.
  induction fuel as [|k IH]; intros n l d Hn E; cbn [digits58] in E; [by destruct l|].
  rewrite Nat2Z.inj_succ, Z.pow_succ_r in Hn by lia.
  destruct (Z.ltb_spec 0 n); [|by destruct l].
  pose proof (Z.div_mod n 58 ltac:(lia)) as Hdm.
  destruct l as [|c l]; cbn [app] in E; injection E as Ec El.
  - subst d. intros Hz. destruct k as [|k]; [cbn in Hn; lia|]. cbn [digits58] in El.
    destruct (Z.ltb_spec 0 (n / 58)); [done|]. lia.
  - apply (IH (n / 58) l); [|done].
    split; [apply Z.div_pos; lia | apply Z.div_lt_upper_bound; lia].
Qed.

(** *** Leading zeroes *)
Lemma leading_split z l : exists r, l = replicate (leading z l) z ++ r /\ (forall b r', r = b :: r' -> b <> z).
Proof.
  induction l as [|b l (r & E & Hr)]; [by exists []|]. cbn [leading]. case_decide as Hb.
  - exists r. subst b. cbn [replicate app]. split; [by f_equal | done].
  - exists (b :: l). split; [done|]. intros b' r' E'. injection E' as <- _. done.
Qed.

Lemma leading_app z k r : (forall b r', r = b :: r' -> b <> z) -> leading z (replicate k z ++ r) = k.
Proof.
  intros Hr. induction k as [|k IH]; cbn [replicate app leading].
  - destruct r as [|b r]; [done|]. cbn [leading]. rewrite decide_False; [done|]. by eapply Hr.
  - by rewrite decide_True, IH.
Qed.

(** Big-endian numbers without a leading zero byte are determined by their value. *)
Lemma be_minimal_unique d1 d2 :
  (forall b r, d1 = b :: r -> b <> B#0) -> (forall b r, d2 = b :: r -> b <> B#0) ->
  be_val d1 = be_val d2 -> d1 = d2.
Proof.
  assert (forall b r, b <> B#0 -> 256 ^ zlen r <= be_val (b :: r)) as Hlow.
  { intros b r Hb. rewrite be_val_cons. pose proof (be_val_range r). pose proof (uchar_range b).
    assert (uchar b <> 0). { intros E. apply Hb, uchar_inj. by rewrite E, uchar_to_byte. }
    pose proof (zlen_nonneg r). assert (0 < 256 ^ zlen r) by (apply Z.pow_pos_nonneg; lia). nia. }
  assert (forall d d', (forall b r, d = b :: r -> b <> B#0) -> be_val d = be_val d' -> zlen d <= zlen d') as Hle.
  { intros [|b r] d' Hd E; [apply zlen_nonneg|]. specialize (Hlow b r (Hd _ _ eq_refl)).
    pose proof (be_val_range d'). rewrite zlen_cons.
    assert (zlen r < zlen d'); [|lia]. pose proof (zlen_nonneg d').
    apply (Z.pow_lt_mono_r_iff 256); [lia|lia|]. lia. }
  intros H1' H2' E. apply be_val_inj; [|done].
  pose proof (Hle d1 d2 H1' E). pose proof (Hle d2 d1 H2' (eq_sym E)). unfold zlen in *. lia.
Qed.

Lemma be_minimal_length m n k :
  be_val m = n -> (forall b r, m = b :: r -> b <> B#0) -> 0 <= k -> n < 256 ^ k -> zlen m <= k.
Proof.
  intros E Hm Hk Hn. destruct m as [|b r]; [change (zlen []) with 0; lia|].
  rewrite be_val_cons in E. pose proof (be_val_range r). pose proof (uchar_range b).
  assert (uchar b <> 0). { intros E0. apply (Hm b r eq_refl), uchar_inj. by rewrite E0, uchar_to_byte. }
  pose proof (zlen_nonneg r). assert (0 < 256 ^ zlen r) by (apply Z.pow_pos_nonneg; lia).
  rewrite zlen_cons. assert (zlen r < k); [|lia].
  apply (Z.pow_lt_mono_r_iff 256); [lia|lia|]. nia.
Qed.

End Base58Facts.
Export Base58Facts.

(** ** The codec *)
Module Base58Codec.
Import CompactFacts.
Section codec.
Context `{BNLibOk}.

Lemma encode_loop_digits fuel : forall n, 0 <= n -> encode_loop fuel n = map ch (digits58 fuel n).
Proof.
  induction fuel as [|k IH]; intros n Hn; cbn [encode_loop digits58 map]; [done|].
  destruct (Z.ltb_spec 0 n); [|done]. cbn [map].
  rewrite Z.quot_div_nonneg, Z.rem_mod_nonneg by lia.
  pose proof (Z.mod_pos_bound n 58 ltac:(lia)).
  unfold CBigNum.getulong. rewrite get_word_doc, Z.abs_eq by lia.
  destruct (Z.ltb_spec (n mod 58) (2 ^ 64)); [|lia]. f_equal. apply IH, Z.div_pos; lia.
Qed.

Lemma encode_value vch : zlen vch < 2 ^ 31 - 1 -> CBigNum.setvch (rev vch ++ [B#0]) = be_val vch.
Proof.
  intros Hl. rewrite setvch_value.
  - rewrite rev_app_distr, rev_involutive. cbn [rev app].
    rewrite mpi_value_nonneg; [|intros b r [= <- _]; by rewrite uchar_to_byte].
    rewrite be_val_cons, uchar_to_byte, Z.mod_0_l by lia. lia.
  - rewrite zlen_app. unfold zlen in *. rewrite length_rev. cbn. lia.
Qed.

Lemma be_val_fuel vch : 0 <= be_val vch < 58 ^ Z.of_nat (2 * length vch).
Proof.
  pose proof (be_val_range vch) as Hr. split; [lia|].
  apply (Z.lt_le_trans _ _ _ (proj2 Hr)). unfold zlen.
  rewrite Nat2Z.inj_mul, Z.pow_mul_r by lia. apply Z.pow_le_mono_l. lia.
Qed.

Lemma EncodeBase58_digits vch : zlen vch < 2 ^ 31 - 1 ->
  EncodeBase58 vch =
  map ch (replicate (leading B#0 vch) 0 ++ rev (digits58 (2 * length vch) (be_val vch))).
Proof.
  intros Hl. unfold EncodeBase58. rewrite encode_value by done.
  rewrite encode_loop_digits by apply be_val_fuel.
  rewrite rev_app_distr, map_app, map_rev. f_equal.
  rewrite rev_alt. change (rev_append ?l []) with (reverse l). rewrite reverse_replicate.
  symmetry. apply (fmap_replicate ch).
Qed.

Lemma decode_loop_digits l : forall n, Forall digit58 l -> decode_loop n (map ch l) = Some (fold58 n l).
Proof.
  induction l as [|d l IH]; intros n Hl; [done|]. apply Forall_cons in Hl as [Hd Hl].
  cbn [map decode_loop]. rewrite strchr_ch by done. by apply IH.
Qed.

Lemma skip_spaces_digits l : Forall digit58 l -> skip_spaces (map ch l) = map ch l.
Proof.
  intros Hl. destruct l as [|d l]; [done|]. apply Forall_cons in Hl as [Hd _].
  cbn [map skip_spaces]. by rewrite ch_not_space.
Qed.

(** The magnitude of a number: its bytes without the sign byte. *)
Lemma trim_sign_spec n : 0 <= n -> zlen (mpi_encode n) < 2 ^ 31 ->
  exists m, rev (trim_sign (CBigNum.getvch n)) = m /\ be_val m = n /\ (forall b r, m = b :: r -> b <> B#0).
Proof.
  intros Hn Hl. rewrite getvch_encode by done.
  destruct (mpi_encode_spec n) as [Hmin Hv]. destruct (mpi_encode n) as [|b r] eqn:E.
  { exists []. split; [done|]. split; [by rewrite <- Hv | done]. }
  assert (uchar b < 128) as Hb.
  { pose proof (mpi_value_mag (b :: r)) as Hmag. rewrite Hv in Hmag. cbn [mpi_neg] in Hmag.
    pose proof (proj1 (mpi_mag_lower b r Hmin)). destruct (Z.leb_spec 128 (uchar b)); lia. }
  assert (be_val (b :: r) = n) as Hbv.
  { rewrite <- Hv. symmetry. apply mpi_value_nonneg. intros b' r' [= <- _]. lia. }
  unfold trim_sign. rewrite rev_involutive. pose proof (uchar_range b).
  destruct (Z.eqb_spec (uchar b) 0) as [Hz|Hz].
  - destruct Hmin as [Hmin|(c & r' & -> & Hc)]; [rewrite Hz in Hmin; done|].
    destruct (Z.leb_spec 128 (uchar c)); [|lia]. cbn [andb].
    exists (c :: r'). rewrite rev_involutive. split; [done|]. split.
    + rewrite be_val_cons, Hz in Hbv. lia.
    + intros b' r'' [= <- _]. intros ->. rewrite uchar_to_byte in Hc. done.
  - exists (b :: r). split; [destruct r as [|c r']; cbn [andb]; apply rev_involutive|]. split; [done|].
    intros b' r' [= <- _] ->. by rewrite uchar_to_byte in Hz.
Qed.

Lemma encode_size n k : 0 <= n < 256 ^ Z.of_nat k -> (Z.of_nat k < 2 ^ 30) -> zlen (mpi_encode n) < 2 ^ 31.
Proof.
  intros Hn Hk. pose proof (length_mpi_encode_le n k) as Hl. unfold zlen.
  assert ((length (mpi_encode n) <= S k)%nat); [apply Hl; lia | lia].
Qed.

(** The text of a byte string decodes to it. *)
Lemma DecodeBase58_Encode vch : zlen vch < 2 ^ 30 -> DecodeBase58 (EncodeBase58 vch) = (true, vch).
Proof.
  intros Hl. rewrite EncodeBase58_digits by lia.
  destruct (leading_split B#0 vch) as (r & Evch & Hr). set (k := leading B#0 vch) in *.
  assert (be_val vch = be_val r) as Ev.
  { rewrite Evch at 1. by rewrite be_val_app, be_val_zeroes, Z.mul_0_l. }
  set (ds := digits58 (2 * length vch) (be_val vch)).
  assert (Forall digit58 (replicate k 0 ++ rev ds)) as Hds.
  { apply Forall_app. split; [apply Forall_replicate; unfold digit58; lia|].
    apply Forall_rev, digits58_range. }
  unfold DecodeBase58. rewrite skip_spaces_digits, decode_loop_digits by done.
  rewrite fold58_app, fold58_zeroes. unfold ds. rewrite digits58_value by apply be_val_fuel.
  destruct (trim_sign_spec (be_val vch)) as (m & -> & Em & Hm); [apply be_val_range| |].
  { apply (encode_size _ (length vch)); [apply be_val_range | unfold zlen in Hl; lia]. }
  assert (m = r) as -> by (apply be_minimal_unique; [done|done|congruence]).
  f_equal. transitivity (replicate k B#0 ++ r); [|done]. f_equal. f_equal.
  rewrite map_app. change (map ch (replicate k 0)) with (ch <$> replicate k 0). rewrite fmap_replicate.
  apply leading_app. fold ds. intros b r' E Hb. subst b.
  destruct (rev ds) as [|d l] eqn:Eds; [done|]. cbn [map] in E. injection E as Ed _.
  apply Forall_app in Hds as [_ [Hd Hl']%Forall_cons].
  assert (d = 0) as -> by (by apply ch_inj_zero).
  assert (fold58 0 (rev ds) = be_val vch) as Hf by apply digits58_value, be_val_fuel.
  rewrite Eds in Hf. change (fold58 0 (0 :: l)) with (fold58 0 l) in Hf.
  assert (ds = rev l ++ [0]) as E0 by (rewrite <- (rev_involutive ds), Eds; done).
  exact (digits58_last _ _ _ _ (be_val_fuel vch) E0 eq_refl).
Qed.

Lemma decode_loop_spaceless s : forall n bn,
  forallb (fun c => negb (isspace c)) s = true -> decode_loop n s = Some bn ->
  exists l, s = map ch l /\ Forall digit58 l /\ bn = fold58 n l.
Proof.
  induction s as [|c s IH]; intros n bn Hsp El.
  { injection El as <-. by exists []. }
  cbn [forallb] in Hsp. apply andb_true_iff in Hsp as [Hc Hsp]. cbn [decode_loop] in El.
  destruct (strchr c pszBase58) as [i|] eqn:Ei.
  - apply strchr_Some in Ei as [Hi ->]. destruct (IH _ _ Hsp El) as (l & -> & Hds & ->).
    exists (i :: l). by split; [|split; [constructor|]].
  - cbn [skip_spaces] in El. apply negb_true_iff in Hc. rewrite Hc in El. by rewrite decide_False in El.
Qed.

(** A text without spaces that decodes is the text of the result. *)
Lemma EncodeBase58_Decode s vch : zlen s < 2 ^ 29 -> forallb (fun c => negb (isspace c)) s = true ->
  DecodeBase58 s = (true, vch) -> EncodeBase58 vch = s.
Proof.
  intros Hl Hsp E. unfold DecodeBase58 in E.
  assert (skip_spaces s = s) as Es.
  { destruct s as [|c s]; [done|]. cbn in Hsp |- *. apply andb_true_iff in Hsp as [Hc _].
    by apply negb_true_iff in Hc as ->. }
  rewrite Es in E. clear Es.
  destruct (decode_loop 0 s) as [bn|] eqn:El; [|done].
  destruct (decode_loop_spaceless s 0 bn Hsp El) as (l & Es & Hds & Ebn).
  destruct (leading_split (ch 0) s) as (r & Esr & Hr). set (k := leading (ch 0) s) in *.
  change (pszBase58 !!! 0%nat) with (ch 0) in E. fold k in E. injection E as <-.
  assert (exists l', l = replicate k 0 ++ l' /\ r = map ch l') as (l' & -> & ->).
  { pose proof (eq_trans (eq_sym Es) Esr) as Esl.
    apply map_eq_app in Esl as (l1 & l' & -> & E1 & <-).
    exists l'. split; [|done]. f_equal. apply Forall_app in Hds as [Hds _]. by apply ch_zeroes. }
  rewrite fold58_app, fold58_zeroes in Ebn. apply Forall_app in Hds as [_ Hds].
  assert (0 <= bn < 58 ^ zlen l') as Hbn.
  { rewrite Ebn. pose proof (fold58_mono l' 0 ltac:(lia) Hds). lia. }
  assert (zlen l' <= zlen s) as Hls.
  { rewrite Esr, zlen_app. unfold zlen. rewrite length_map. lia. }
  destruct (trim_sign_spec bn) as (m & -> & Em & Hm); [lia| |].
  { apply (encode_size _ (length l')); [|unfold zlen in *; lia].
    split; [lia|]. apply (Z.lt_le_trans _ (58 ^ zlen l')); [lia|]. apply Z.pow_le_mono_l. unfold zlen. lia. }
  set (vch := replicate k B#0 ++ m).
  assert (be_val vch = bn) as Ev by (unfold vch; rewrite be_val_app, be_val_zeroes; lia).
  rewrite EncodeBase58_digits.
  - unfold vch at 1. rewrite leading_app by done. rewrite Ev, Esr, map_app.
    change (map ch (replicate k 0)) with (ch <$> replicate k 0). rewrite fmap_replicate. do 2 f_equal.
    pose proof (be_val_fuel vch) as Hf. rewrite Ev in Hf. rewrite Ebn in Hf |- *.
    destruct l' as [|d l']; [by destruct (2 * length vch)%nat|].
    apply Forall_cons in Hds as [Hd Hds].
    assert (d <> 0) by (intros ->; by eapply Hr).
    rewrite digits58_fold by (done || apply Hf). apply rev_involutive.
  - unfold vch. rewrite zlen_app.
    assert (zlen m <= zlen l') as Hml.
    { apply (be_minimal_length m bn); [done|done|apply zlen_nonneg|].
      apply (Z.lt_le_trans _ (58 ^ zlen l')); [lia|]. apply Z.pow_le_mono_l. unfold zlen. lia. }
    assert (zlen (replicate k B#0) + zlen l' = zlen s) as Hks.
    { rewrite Esr, zlen_app. unfold zlen. by rewrite length_map, !length_replicate. }
    lia.
Qed.
End codec.
End Base58Codec.

(** ** Theorems *)
Module Base58Theorems.
Import Base58Codec.
Section theorems.
Context `{BNLibOk} `{Digests}.

Lemma length_checksum v : length (take 4 (le_bytes 32 (Hash v))) = 4%nat.
Proof. by rewrite length_take, length_le_bytes. Qed.

Lemma DecodeBase58Check_Encode v : zlen v < 2 ^ 29 ->
  DecodeBase58Check (EncodeBase58Check v) = (true, v).
Proof.
  intros Hl. unfold DecodeBase58Check, EncodeBase58Check.
  rewrite DecodeBase58_Encode by (rewrite zlen_app; unfold zlen in *; rewrite length_checksum; lia).
  cbn [negb]. rewrite length_app, length_checksum.
  destruct (Nat.ltb_spec (length v + 4) 4); [lia|].
  replace (length v + 4 - 4)%nat with (length v) by lia.
  by rewrite take_app_length, drop_app_length, decide_True.
Qed.

(** Base58 text with a checksum is a faithful encoding: among the texts
    without spaces, the ones that [DecodeBase58Check] accepts are exactly the
    texts that [EncodeBase58Check] writes, and decoding gives back the bytes
    that were encoded. *)
Theorem base58check_exact s v :
  zlen s < 2 ^ 29 -> zlen v < 2 ^ 29 -> forallb (fun c => negb (isspace c)) s = true ->
  DecodeBase58Check s = (true, v) <-> s = EncodeBase58Check v.
Proof.
  intros Hs Hv Hsp. split; [|intros ->; by apply DecodeBase58Check_Encode].
  unfold DecodeBase58Check, EncodeBase58Check.
  destruct (DecodeBase58 s) as [ok r] eqn:E. destruct ok; cbn [negb]; [|done].
  destruct (Nat.ltb_spec (length r) 4) as [|Hr]; [done|].
  case_decide as Hc; [|done]. intros [= <-].
  rewrite Hc, take_drop. symmetry. by apply EncodeBase58_Decode.
Qed.

Context (Params : Base58Prefixes).

Lemma SetString_ToString d : length (vchVersion d) = 1%nat -> zlen (vchData d) < 2 ^ 28 ->
  SetString (ToString d) 1 = (true, d).
Proof.
  intros Hv Hd. unfold SetString, ToString.
  rewrite DecodeBase58Check_Encode by (rewrite zlen_app; unfold zlen in *; rewrite Hv; lia).
  cbn [snd]. rewrite length_app, Hv. destruct (Nat.ltb_spec (1 + length (vchData d)) 1); [lia|].
  rewrite take_app_length', drop_app_length' by done. by destruct d.
Qed.

(** An address written as text and read back is the same destination, for
    key hashes and script hashes, on any chain whose two address versions are
    single distinct bytes; no text is made for the absence of a destination. *)
Theorem address_roundtrip dest :
  length (PUBKEY_ADDRESS Params) = 1%nat -> length (SCRIPT_ADDRESS Params) = 1%nat ->
  PUBKEY_ADDRESS Params <> SCRIPT_ADDRESS Params ->
  match dest with CKeyID id | CScriptID id => 0 <= id < 2 ^ 160 | CNoDestination => True end ->
  (dest <> CNoDestination ->
   SetString (ToString (CBitcoinAddress Params dest)) 1 = (true, CBitcoinAddress Params dest)) /\
  Address_Get Params (CBitcoinAddress Params dest) = dest /\
  Address_IsScript Params (CBitcoinAddress Params dest) =
    match dest with CScriptID _ => true | _ => false end /\
  Address_GetKeyID Params (CBitcoinAddress Params dest) =
    match dest with CKeyID id => Some id | _ => None end.
Proof.
  intros Hp Hs Hne Hid.
  assert (forall id, length (le_bytes 20 id) = 20%nat) as Hl by (intros; apply length_le_bytes).
  assert (forall v id, length v = 1%nat -> SetString (ToString (mk_data v (le_bytes 20 id))) 1 = (true, mk_data v (le_bytes 20 id))) as Hss.
  { intros v id Hv. apply SetString_ToString; cbn [vchVersion vchData]; [done|]. unfold zlen. rewrite Hl. lia. }
  unfold CBitcoinAddress, Address_Get, Address_IsScript, Address_GetKeyID, Address_IsValid.
  destruct dest as [|id|id]; cbn [Address_Set snd vchData vchVersion].
  - by rewrite !andb_false_l.
  - rewrite Hl, (bool_decide_eq_true_2 (PUBKEY_ADDRESS Params = PUBKEY_ADDRESS Params)) by done.
    rewrite (bool_decide_eq_false_2 (PUBKEY_ADDRESS Params = SCRIPT_ADDRESS Params)) by done.
    cbn [Nat.eqb andb orb negb]. rewrite firstn_all2, le_val_bytes by (rewrite ?Hl; lia).
    split; [intros _; by apply Hss|done].
  - rewrite Hl, (bool_decide_eq_true_2 (SCRIPT_ADDRESS Params = SCRIPT_ADDRESS Params)) by done.
    rewrite (bool_decide_eq_false_2 (SCRIPT_ADDRESS Params = PUBKEY_ADDRESS Params)) by congruence.
    cbn [Nat.eqb andb orb negb]. rewrite firstn_all2, le_val_bytes by (rewrite ?Hl; lia).
    split; [intros _; by apply Hss|done].
Qed.

(** A private key written as text and read back is the same key. *)
Theorem secret_roundtrip k d :
  length (SECRET_KEY Params) = 1%nat -> length (k_vch k) = 32%nat -> Range.Check_ (k_vch k) = true ->
  Secret_SetKey Params k = Some d ->
  SetString (ToString d) 1 = (true, d) /\ Secret_IsValid Params d = true /\ Secret_GetKey d = Some k.
Proof.
  intros Hp Hl Hc. unfold Secret_SetKey. destruct (fValid k) eqn:Ev; [|done]. intros [= <-].
  rewrite firstn_all2 by lia. set (tail := if fCompressed k then [B#1] else []).
  assert (length tail <= 1)%nat by (unfold tail; destruct (fCompressed k); cbn; lia).
  split; [apply SetString_ToString; cbn [vchVersion vchData]; [done|];
          unfold zlen; rewrite length_app; lia|].
  unfold Secret_IsValid, Secret_GetKey. cbn [vchVersion vchData].
  rewrite !length_app, Hl, (bool_decide_eq_true_2 (SECRET_KEY Params = _)) by done.
  rewrite lookup_app_r, Hl by lia. rewrite take_app_length' by done.
  destruct (Nat.ltb_spec (32 + length tail) 32); [lia|].
  unfold PrivKey.Set_key, zlen. rewrite Hl, Hc. cbn [negb Z.eqb].
  destruct k as [fv fc v]. cbn in Ev, Hl, Hc. subst fv. unfold tail. cbn [fCompressed k_vch fValid].
  by destruct fc.
Qed.
End theorems.

Lemma base58check_exact_witness :
  @DecodeBase58Check ref_bn dummy_digests (@EncodeBase58Check ref_bn dummy_digests [B#0; B#7]) =
  (true, [B#0; B#7]).
Proof.
  apply (proj2 (@base58check_exact ref_bn ref_bn_ok dummy_digests
    (@EncodeBase58Check ref_bn dummy_digests [B#0; B#7]) [B#0; B#7] ltac:(vm_compute; reflexivity)
    ltac:(vm_compute; reflexivity) ltac:(vm_compute; reflexivity))).
  reflexivity.
Defined.

Lemma address_roundtrip_witness :
  @SetString ref_bn dummy_digests (@ToString ref_bn dummy_digests (CBitcoinAddress main_prefixes (CKeyID 12345))) 1 =
  (true, CBitcoinAddress main_prefixes (CKeyID 12345)).
Proof.
  apply (@address_roundtrip ref_bn ref_bn_ok dummy_digests main_prefixes (CKeyID 12345));
    [reflexivity | reflexivity | discriminate | lia | discriminate].
Defined.

End Base58Theorems.
