(* ===== verification/BlockConnect.v ===== *)
(** * BlockConnect: connecting and disconnecting a block (src/src/main.cpp)

    [GetCoinAge] of [CTransaction], [ConnectBlock] and [DisconnectBlock] of [CBlock],
    over the transactions (Connect), the context-free checks (BlockCheck) and the
    transaction database, whose tables are maps. *)

From S2P Require Import Prelude BigNum ScriptOps Serialize Crypto Keys Core SigHash Interp Standard Base58 TxCheck Block Chain Kernel Connect BlockCheck.
Import Check Inputs.

(** ** The transaction database (txdb-leveldb.cpp) *)
Record CDiskBlockIndex := mk_disk_index { di_index : CBlockIndex; hashPrev : Z; hashNext : Z }.
Record CTxDB := mk_txdb {
  tx_index : gmap Z CTxIndex;
  block_index : gmap Z CDiskBlockIndex;
  db_hashBestChain : option Z;
  db_bestInvalidTrust : option Z
}.

(** What blocks are connected with: the parameters of the chain, the state of the node that
    the code reads from globals, and reading a transaction or a block header from the block files. *)
Class NodeEnv := {
  scrypt_blockhash : bytes -> Z;
  ProofOfWorkLimit : Z;
  adjusted_time : Z;
  nMaxDatacarrierBytes : Z;
  prefixes : Base58Prefixes;
  nCoinbaseMaturity : Z;
  nStakeMinAge : Z;
  nStakeMinConfirmations : Z;
  pindexBest : index_ptr;
  nBestHeight : Z;
  TotalBlocksEstimate : Z;
  mempool_txs : gmap Z CTransaction;
  ReadTx : CDiskTxPos -> option CTransaction;
  ReadHeader : Z -> Z -> option CBlock
}.

Module TxDB.
Definition ReadTxIndex (db : CTxDB) (hash : Z) : option CTxIndex := tx_index db !! hash.

(** The constructor from a pointer; the block hash is computed from the header. *)
Definition of_index (b : CBlockIndex) (pprev : index_ptr) : CDiskBlockIndex :=
  mk_disk_index b (match pprev with p :: _ => phashBlock p | [] => 0 end) (default 0 (pnext b)).

Section hashes.
Context `{Digests} `{NodeEnv}.
Definition GetBlockHash (d : CDiskBlockIndex) : Z :=
  let b := di_index d in
  Block.GetHash scrypt_blockhash
    (mk_block (bi_nVersion b) (hashPrev d) (bi_hashMerkleRoot b) (bi_nTime b) (bi_nBits b) (bi_nNonce b) [] [] []).
Definition WriteBlockIndex (db : CTxDB) (d : CDiskBlockIndex) : CTxDB :=
  mk_txdb (tx_index db) (<[GetBlockHash d := d]> (block_index db)) (db_hashBestChain db) (db_bestInvalidTrust db).
End hashes.

Definition UpdateTxIndexes (db : CTxDB) (mapQueuedChanges : gmap Z CTxIndex) : CTxDB :=
  mk_txdb (mapQueuedChanges ∪ tx_index db) (block_index db) (db_hashBestChain db) (db_bestInvalidTrust db).
Definition WriteHashBestChain (db : CTxDB) (hash : Z) : CTxDB :=
  mk_txdb (tx_index db) (block_index db) (Some hash) (db_bestInvalidTrust db).
Definition WriteBestInvalidTrust (db : CTxDB) (trust : Z) : CTxDB :=
  mk_txdb (tx_index db) (block_index db) (db_hashBestChain db) (Some trust).
Definition with_tx_index (db : CTxDB) (m : gmap Z CTxIndex) : CTxDB :=
  mk_txdb m (block_index db) (db_hashBestChain db) (db_bestInvalidTrust db).
End TxDB.

Module BlockConnect.
Section connect.
Context `{BNLib} `{Digests} `{ECLib} `{SigEnv} `{NodeEnv}.

(** ** [CTransaction::GetCoinAge] *)
(** One input: what it adds to [bnCentSecond]. *)
Definition input_age (db : CTxDB) (t : CTransaction) (pindexPrev : index_ptr) (txin : CTxIn) : outcome Z :=
  match StakeKernel.ReadFromDisk (tx_index db) ReadTx (prevout txin) with
  | None => Ok 0
  | Some (txPrev, txindex) =>
    if nTime t <? nTime txPrev then Fail 0 else
    match ReadHeader (p_nFile (pos txindex)) (p_nBlockPos (pos txindex)) with
    | None => Fail 0
    | Some block =>
      if nTime t <? b_nTime block + nStakeMinAge then Ok 0 else
      match IsConfirmedInNPrevBlocks txindex pindexPrev (nStakeMinConfirmations - 1) with
      | Some _ => Ok 0
      | None =>
        txout ← access (vout txPrev !! Z.to_nat (o_n (prevout txin)));
        Ok (Z.quot (CBigNum.of_int (nValue txout) * (nTime t - nTime txPrev)) CENT)
      end
    end
  end.

Fixpoint age_loop (db : CTxDB) (t : CTransaction) (pindexPrev : index_ptr) (l : list CTxIn) (bnCentSecond : Z) : outcome Z :=
  match l with
  | [] => Ok bnCentSecond
  | txin :: l => age ← input_age db t pindexPrev txin; age_loop db t pindexPrev l (bnCentSecond + age)
  end.

Definition GetCoinAge (db : CTxDB) (t : CTransaction) (pindexPrev : index_ptr) : outcome Z :=
  if Tx.IsCoinBase t then Ok 0 else
  bnCentSecond ← age_loop db t pindexPrev (vin t) 0;
  Ok (CBigNum.getuint64 (Z.quot (Z.quot (bnCentSecond * CENT) COIN) (24 * 60 * 60))).

(** ** [CBlock::ConnectBlock] *)
Definition connect_flags : Z :=
  Z.lor SCRIPT_VERIFY_NOCACHE (Z.lor SCRIPT_VERIFY_NULLDUMMY (Z.lor SCRIPT_VERIFY_STRICTENC
    (Z.lor SCRIPT_VERIFY_ALLOW_EMPTY_SIG (Z.lor SCRIPT_VERIFY_FIX_HASHTYPE SCRIPT_VERIFY_CHECKLOCKTIMEVERIFY)))).

(** The local variables of the loop over the transactions. *)
Record connect_state := mk_connect {
  mapQueuedChanges : gmap Z CTxIndex;
  nFees : Z;
  nValueIn : Z;
  nValueOut : Z;
  nBurnCoins : Z;
  nStakeReward : Z;
  nSigOps : Z;
  nTxPos : Z;
  sig_cache : CSignatureCache
}.

(** The points go to the transaction, not to the block. *)
Definition keep_points {A} (o : outcome A) : outcome A := match o with Fail _ => Fail 0 | _ => o end.

(** A record with an output that is not spent yet must not be overwritten. *)
Definition overwrites (db : CTxDB) (hashTx : Z) : bool :=
  match TxDB.ReadTxIndex db hashTx with Some txindexOld => existsb DiskPos.IsNull (vSpent txindexOld) | None => false end.

Definition count_sigops (n nSigOps : Z) : outcome Z :=
  let nSigOps := u32 (nSigOps + n) in
  _ ← reject_if (MAX_BLOCK_SIGOPS <? nSigOps) 100;
  Ok nSigOps.

Definition connect_tx (db : CTxDB) (fJustCheck : bool) (pindex : index_ptr) (t : CTransaction) (s : connect_state) :
    outcome connect_state :=
  let hashTx := Tx.GetHash t in
  _ ← reject_if (overwrites db hashTx) 100;
  ops ← count_sigops (GetLegacySigOpCount t) (nSigOps s);
  this ← access (head pindex);
  let posThisTx := mk_pos (nFile this) (nBlockPos this) (nTxPos s) in
  let nTxPos := if fJustCheck then nTxPos s else u32 (nTxPos s + GetSerializeSize t) in
  let queue (changes : gmap Z CTxIndex) := <[hashTx := TxIndex.of_pos posThisTx (length (vout t))]> changes in
  if Tx.IsCoinBase t then
    out ← access (Tx.GetValueOut t);
    Ok (mk_connect (queue (mapQueuedChanges s)) (nFees s) (nValueIn s) (i64 (nValueOut s + out)) (nBurnCoins s)
          (nStakeReward s) ops nTxPos (sig_cache s))
  else
    mapInputs ← keep_points (FetchInputs ReadTx (tx_index db) mempool_txs t (mapQueuedChanges s) true false ∅).1;
    p2sh ← access (GetP2SHSigOpCount t mapInputs);
    ops ← count_sigops p2sh ops;
    nTxValueIn ← access (GetValueIn t mapInputs);
    nTxValueOut ← access (Tx.GetValueOut t);
    '(changes, burned, cache) ← keep_points (ConnectInputs nCoinbaseMaturity nBestHeight TotalBlocksEstimate t mapInputs
        (mapQueuedChanges s) posThisTx pindex (nBurnCoins s) true false connect_flags (sig_cache s));
    Ok (mk_connect (queue changes)
          (if Tx.IsCoinStake t then nFees s else i64 (nFees s + i64 (nTxValueIn - nTxValueOut)))
          (i64 (nValueIn s + nTxValueIn)) (i64 (nValueOut s + nTxValueOut)) burned
          (if Tx.IsCoinStake t then i64 (nTxValueOut - nTxValueIn) else nStakeReward s) ops nTxPos cache).

Fixpoint connect_txs (db : CTxDB) (fJustCheck : bool) (pindex : index_ptr) (l : list CTransaction) (s : connect_state) :
    outcome connect_state :=
  match l with
  | [] => Ok s
  | t :: l => s ← connect_tx db fJustCheck pindex t s; connect_txs db fJustCheck pindex l s
  end.

(** The check of the coinbase of a mined block. *)
Definition check_work_reward (b : CBlock) (nFees : Z) : outcome () :=
  best ← access (head pindexBest);
  coinbase ← access (vtx b !! 0%nat);
  out ← access (Tx.GetValueOut coinbase);
  reject_if (Reward.GetProofOfWorkReward (nHeight best) nFees <? out) 50.

Definition fund_address : bytes := raw "B83JheiAjBSHMdkbqrNbwWP7FwtgiFmRqa"%text.
Definition pays_fund (nCalculatedStakeReward : Z) (output : CTxOut) : bool :=
  bool_decide (ToString (CBitcoinAddress prefixes
    (default CNoDestination (ExtractDestination nMaxDatacarrierBytes (scriptPubKey output)))) = fund_address)
  && (u64 (nValue output) =? nCalculatedStakeReward / 5).

(** The checks of a proof-of-stake block; the comparison of the rewards is unsigned. *)
Definition check_stake_reward (db : CTxDB) (pindex : CBlockIndex) (pprev : index_ptr) (b : CBlock) (nFees nStakeReward : Z) :
    outcome () :=
  coinstake ← access (vtx b !! 1%nat);
  nCoinAge ← keep_points (GetCoinAge db coinstake pprev);
  let nCalculatedStakeReward := Reward.GetProofOfStakeReward nCoinAge nFees in
  _ ← reject_if (nCalculatedStakeReward <? u64 nStakeReward) 100;
  reject_if ((25 <? nHeight pindex) && negb (existsb (pays_fund nCalculatedStakeReward) (vout coinstake))) 100.

Definition with_mint (mint supply : Z) (b : CBlockIndex) : CBlockIndex :=
  mk_index (phashBlock b) (pnext b) (nFile b) (nBlockPos b) (nChainTrust b) (nHeight b) mint supply
    (nFlags b) (nStakeModifier b) (prevoutStake b) (nStakeTime b) (hashProof b)
    (bi_nVersion b) (bi_hashMerkleRoot b) (bi_nTime b) (bi_nBits b) (bi_nNonce b).

(** The supply is computed with the burnt coins as an unsigned number. *)
Definition record_supply (s : connect_state) (pprev : index_ptr) (pindex : CBlockIndex) : CBlockIndex :=
  with_mint (i64 (nValueOut s - nValueIn s + nFees s))
    (i64 (match pprev with p :: _ => nMoneySupply p | [] => 0 end + nValueOut s - nValueIn s - nBurnCoins s)) pindex.

Definition first_pos (fJustCheck : bool) (pindex : CBlockIndex) (b : CBlock) : Z :=
  if fJustCheck then 1
  else u32 (nBlockPos pindex + GetSerializeSize Block.SetNull - 2 * GetSizeOfCompactSize 0
            + GetSizeOfCompactSize (zlen (vtx b))).

(** The database, the block's index record and the signature cache afterwards. *)
Definition ConnectBlock (db : CTxDB) (pindex : index_ptr) (fJustCheck : bool) (b : CBlock) (c : CSignatureCache) :
    outcome (CTxDB * CBlockIndex * CSignatureCache) :=
  match CheckBlock scrypt_blockhash ProofOfWorkLimit adjusted_time nMaxDatacarrierBytes (negb fJustCheck)
          (negb fJustCheck) false b with
  | Reject nDoS => Fail nDoS
  | Accept =>
    this ← access (head pindex);
    let pprev := tail pindex in
    s ← connect_txs db fJustCheck pindex (vtx b) (mk_connect ∅ 0 0 0 0 0 0 (first_pos fJustCheck this b) c);
    _ ← (if Block.IsProofOfWork b then check_work_reward b (nFees s) else Ok ());
    _ ← (if Block.IsProofOfStake b then check_stake_reward db this pprev b (nFees s) (nStakeReward s) else Ok ());
    let this := record_supply s pprev this in
    let db := TxDB.WriteBlockIndex db (TxDB.of_index this pprev) in
    if fJustCheck then Ok (db, this, sig_cache s) else
    let db := TxDB.UpdateTxIndexes db (mapQueuedChanges s) in
    let db := match pprev with
      | p :: pp =>
        let blockindexPrev := TxDB.of_index p pp in
        TxDB.WriteBlockIndex db (mk_disk_index (di_index blockindexPrev) (hashPrev blockindexPrev) (phashBlock this))
      | [] => db
      end in
    Ok (db, this, sig_cache s)
  end.

(** ** [CBlock::DisconnectBlock] *)
(** The transactions in the order of [l]. *)
Fixpoint disconnect_txs (l : list CTransaction) (txdb : gmap Z CTxIndex) : outcome (gmap Z CTxIndex) :=
  match l with
  | [] => Ok txdb
  | t :: l => txdb ← keep_points (DisconnectInputs t txdb); disconnect_txs l txdb
  end.

Definition DisconnectBlock (db : CTxDB) (pindex : index_ptr) (b : CBlock) : outcome CTxDB :=
  m ← disconnect_txs (rev (vtx b)) (tx_index db);
  let db := TxDB.with_tx_index db m in
  Ok (match tail pindex with
      | p :: pp =>
        let blockindexPrev := TxDB.of_index p pp in
        TxDB.WriteBlockIndex db (mk_disk_index (di_index blockindexPrev) (hashPrev blockindexPrev) 0)
      | [] => db
      end).
End connect.
End BlockConnect.
Export BlockConnect.
