(* ===== verification/BlockConnectFacts.v ===== *)
(** * BlockConnectFacts: theorems on connecting and disconnecting blocks

    [DisconnectBlock] undoes [ConnectBlock] on the transaction index, and the coins that an
    accepted proof-of-stake block mints are bounded by its stake reward. *)

From S2P Require Import Prelude BigNum ScriptOps Serialize Crypto Keys Core SigHash Interp InterpFacts Standard Base58 TxCheck Block Chain Kernel Connect BlockCheck BlockConnect.
Import Check Inputs Spent ConnectFacts.

Module Undo.
Section undo.
Context `{BNLib} `{Digests} `{ECLib} `{SigEnv} `{NodeEnv}.

(** The inputs whose outputs are marked. *)
Definition spent_inputs (t : CTransaction) : list CTxIn := if Tx.IsCoinBase t then [] else vin t.

(** Free markers have one form in the records. *)
Definition normal (D : gmap Z CTxIndex) : Prop :=
  forall o p, spent_at D o = Some p -> DiskPos.IsNull p = true -> p = DiskPos.SetNull.

(** The effect of connecting one transaction on the index seen through the queued changes. *)
Record connected (t : CTransaction) (p : CDiskTxPos) (D D' : gmap Z CTxIndex) : Prop := {
  cd_not_null : DiskPos.IsNull p = false;
  cd_index : D' = <[Tx.GetHash t := TxIndex.of_pos p (length (vout t))]> (mark p (map prevout (spent_inputs t)) D);
  cd_distinct : NoDup (map key (map prevout (spent_inputs t)));
  cd_free : forall o, o ∈ map prevout (spent_inputs t) -> spent_at D o = Some DiskPos.SetNull }.

Lemma keep_points_Ok {A} (o : outcome A) a : keep_points o = Ok a -> o = Ok a.
Proof. by destruct o. Qed.

Lemma FetchInputs_Ok_valid ReadFromDisk txdb mempool t pool fBlock fMiner m m' :
  (FetchInputs ReadFromDisk txdb mempool t pool fBlock fMiner m).1 = Ok m' ->
  FetchInputs ReadFromDisk txdb mempool t pool fBlock fMiner m = (Ok m', false).
Proof.
  unfold FetchInputs. destruct (Tx.IsCoinBase t); [by intros [= ->]|].
  destruct (fetch_loop _ _ _ _ _ _ _ _); [|done|done]. destruct (range_loop _ _); by intros [= ->].
Qed.

Lemma connect_tx_connected db j this pprev t s s' :
  nFile this <> UINT_MAX -> normal (mapQueuedChanges s ∪ tx_index db) ->
  connect_tx db j (this :: pprev) t s = Ok s' ->
  exists p, connected t p (mapQueuedChanges s ∪ tx_index db) (mapQueuedChanges s' ∪ tx_index db).
Proof.
  intros Hf Hn E. unfold connect_tx in E. cbn [head access mbind outcome_bind] in E.
  set (p := mk_pos (nFile this) (nBlockPos this) (nTxPos s)) in E.
  assert (DiskPos.IsNull p = false) as Hp by by apply Z.eqb_neq.
  exists p. apply bind_Ok in E as (u & _ & E). apply bind_Ok in E as (ops & _ & E).
  destruct (Tx.IsCoinBase t) eqn:Hcb.
  - apply bind_Ok in E as (out & _ & E). injection E as <-. cbn [mapQueuedChanges].
    split; [done|..]; unfold spent_inputs; rewrite Hcb; cbn [map].
    + by rewrite <- insert_union_l.
    + apply NoDup_nil_2.
    + intros o Ho. by apply not_elem_of_nil in Ho.
  - apply bind_Ok in E as (m & Em & E). apply keep_points_Ok, FetchInputs_Ok_valid in Em.
    apply bind_Ok in E as (p2sh & _ & E). apply bind_Ok in E as (ops2 & _ & E).
    apply bind_Ok in E as (vi & _ & E). apply bind_Ok in E as (vo & _ & E).
    apply bind_Ok in E as ([[changes burned] cache] & Ec & E). apply keep_points_Ok in Ec.
    injection E as <-. cbn [mapQueuedChanges].
    destruct (connect_marks _ _ _ _ _ true false _ Hp _ _ _ _ _ _ _ _ _ _ _ eq_refl Hcb Em Hn Ec) as (Ed & Hnd & Hfree).
    split; [done|..]; unfold spent_inputs; rewrite Hcb; [|done|done].
    by rewrite <- insert_union_l, Ed.
Qed.

Lemma disconnect_loop_insert l D D' h x : h ∉ map o_hash (map prevout l) ->
  disconnect_loop l D = Ok D' -> disconnect_loop l (<[h := x]> D) = Ok (<[h := x]> D').
Proof.
  revert D. induction l as [|txin l IH]; intros D Hh E; cbn [disconnect_loop] in *; [by injection E as ->|].
  cbn [map] in Hh. apply not_elem_of_cons in Hh as [Hh1 Hh2]. rewrite lookup_insert_ne by done.
  destruct (D !! o_hash (prevout txin)) as [ti|]; [|done]. destruct (_ <=? _); [done|].
  rewrite insert_insert_ne by done. by apply IH.
Qed.

Definition indexed_inputs (t : CTransaction) : Prop := forall txin, txin ∈ vin t -> 0 <= o_n (prevout txin).

(** Disconnecting a transaction undoes connecting it. *)
Lemma connected_undo t p D D' : connected t p D D' -> D !! Tx.GetHash t = None -> indexed_inputs t ->
  DisconnectInputs t D' = Ok D.
Proof.
  intros [Hp -> Hnd Hfree] Hnew Hn. unfold DisconnectInputs.
  assert (forall l D1 D2, l = spent_inputs t -> disconnect_loop l D1 = Ok D2 ->
    (if Tx.IsCoinBase t then Ok D1 else disconnect_loop (vin t) D1) = Ok D2) as Hl.
  { intros l D1 D2 -> E. unfold spent_inputs in E. destruct (Tx.IsCoinBase t); done. }
  erewrite Hl; [|reflexivity|].
  2: { apply disconnect_loop_insert.
    - intros (o & Eo & Ho)%list_elem_of_fmap. specialize (Hfree o Ho). unfold spent_at in Hfree.
      by rewrite <- Eo, Hnew in Hfree.
    - eapply disconnect_marked; try done. intros txin Hin. apply Hn. unfold spent_inputs in Hin.
      destruct (Tx.IsCoinBase t); [by apply not_elem_of_nil in Hin|done]. }
  cbn [mbind outcome_bind]. f_equal. by apply delete_insert_id.
Qed.

Lemma connected_normal t p D D' : connected t p D D' -> normal D -> normal D'.
Proof.
  intros [Hp -> _ Hfree] Hn o q Eq Hq. unfold spent_at in Eq.
  destruct (decide (Tx.GetHash t = o_hash o)) as [Eh|Hne].
  - rewrite Eh, lookup_insert_eq in Eq. cbn in Eq. by apply lookup_replicate in Eq as [-> _].
  - rewrite lookup_insert_ne in Eq by done. change (spent_at (mark p (map prevout (spent_inputs t)) D) o = Some q) in Eq.
    destruct (decide (key o ∈ map key (map prevout (spent_inputs t)))) as [Hk|Hk].
    + rewrite mark_spent in Eq; [|intros o' Ho'; rewrite Hfree by done; by eexists|by left].
      injection Eq as <-. congruence.
    + rewrite mark_spent_ne in Eq by done. by apply (Hn o).
Qed.

Lemma normal_empty : normal ∅.
Proof. intros o p Ep. unfold spent_at in Ep. by rewrite lookup_empty in Ep. Qed.
Lemma normal_insert h q n D : normal D -> normal (<[h := TxIndex.of_pos q n]> D).
Proof.
  intros Hn o p Ep Hp. unfold spent_at in Ep. destruct (decide (h = o_hash o)) as [->|Hne].
  - rewrite lookup_insert_eq in Ep. cbn in Ep. by apply lookup_replicate in Ep as [-> _].
  - rewrite lookup_insert_ne in Ep by done. by apply (Hn o).
Qed.

Lemma connected_lookup t p D D' h : connected t p D D' -> h <> Tx.GetHash t -> D !! h = None -> D' !! h = None.
Proof.
  intros [_ -> _ _] Hh Hd. rewrite lookup_insert_ne by done. by apply mark_None.
Qed.

Lemma disconnect_txs_app l l' D :
  disconnect_txs (l ++ l') D = disconnect_txs l D ≫= disconnect_txs l'.
Proof.
  revert D. induction l as [|t l IH]; intros D; [done|]. cbn [app disconnect_txs]. rewrite outcome_assoc.
  destruct (keep_points _) as [D1| |]; cbn [mbind outcome_bind]; [apply IH|done|done].
Qed.

(** Disconnecting the transactions in reverse order undoes connecting them in order. *)
Lemma connect_txs_undo db this pprev l s s' :
  nFile this <> UINT_MAX -> normal (mapQueuedChanges s ∪ tx_index db) ->
  NoDup (map Tx.GetHash l) -> (forall t, t ∈ l -> (mapQueuedChanges s ∪ tx_index db) !! Tx.GetHash t = None) ->
  (forall t, t ∈ l -> indexed_inputs t) ->
  connect_txs db false (this :: pprev) l s = Ok s' ->
  disconnect_txs (rev l) (mapQueuedChanges s' ∪ tx_index db) = Ok (mapQueuedChanges s ∪ tx_index db).
Proof.
  intros Hf. revert s. induction l as [|t l IH]; intros s Hn Hnd Hnew Hidx E; cbn [connect_txs] in E.
  { by injection E as ->. }
  apply bind_Ok in E as (s1 & E1 & E). apply connect_tx_connected in E1 as [p Hc]; [|done|done].
  cbn [map] in Hnd. apply NoDup_cons in Hnd as [Ht Hnd].
  cbn [rev]. rewrite disconnect_txs_app, (IH s1).
  - cbn [mbind outcome_bind disconnect_txs].
    rewrite (connected_undo _ _ _ _ Hc); [done|apply Hnew; by left|apply Hidx; by left].
  - by apply (connected_normal _ _ _ _ Hc).
  - done.
  - intros t' Ht'. apply (connected_lookup _ _ _ _ _ Hc); [|apply Hnew; by right].
    intros Eh. apply Ht. rewrite <- Eh. by apply list_elem_of_fmap_2.
  - intros t' Ht'. apply Hidx. by right.
  - done.
Qed.
End undo.
End Undo.

(** *** Money, modulo the width of the counters *)
Module Mint.
Section mint.
Context `{BNLib} `{Digests} `{ECLib} `{SigEnv} `{NodeEnv}.

Lemma i64_shift z : exists k, i64 z = z + k * 2 ^ 64.
Proof.
  unfold i64, swrap. exists (- ((z + 2 ^ 63) / 2 ^ 64)).
  pose proof (Z.div_mod (z + 2 ^ 63) (2 ^ 64)). change (64 - 1) with 63. lia.
Qed.
Lemma i64_period z k : i64 (z + k * 2 ^ 64) = i64 z.
Proof.
  unfold i64, swrap. replace (z + k * 2 ^ 64 + 2 ^ (64 - 1)) with (z + 2 ^ (64 - 1) + k * 2 ^ 64) by lia.
  by rewrite Z_mod_plus_full.
Qed.
Lemma i64_equal a b k : a = b + k * 2 ^ 64 -> i64 a = i64 b.
Proof. intros ->. apply i64_period. Qed.
Lemma i64_idemp z : i64 (i64 z) = i64 z.
Proof. apply swrap_id; [done|]. by apply swrap_range. Qed.
Lemma u64_i64 z : u64 (i64 z) = u64 z.
Proof. destruct (i64_shift z) as [k ->]. unfold u64. apply Z_mod_plus_full. Qed.

Lemma value_loop_i64 n l v : i64 n = n -> Tx.value_loop n l = Some v -> i64 v = v.
Proof.
  revert n. induction l as [|o l IH]; intros n Hn E; cbn [Tx.value_loop] in E; [by injection E as <-|].
  destruct (_ || _); [done|]. by apply IH in E; [|apply i64_idemp].
Qed.
Lemma GetValueOut_i64 t v : Tx.GetValueOut t = Some v -> i64 v = v.
Proof. by apply value_loop_i64. Qed.

(** What the counters say has been minted so far: [nMint] before it is stored. *)
Definition minted (s : connect_state) : Z := i64 (nValueOut s - nValueIn s + nFees s).

(** What one transaction does to the counters. *)
Lemma connect_tx_minted db j pindex t s s' : connect_tx db j pindex t s = Ok s' ->
  exists in_ out, Tx.GetValueOut t = Some out /\ (Tx.IsCoinBase t = true -> in_ = 0) /\
    let own := if Tx.IsCoinBase t || Tx.IsCoinStake t then i64 (out - in_) else 0 in
    minted s' = i64 (minted s + own) /\
    nStakeReward s' = if negb (Tx.IsCoinBase t) && Tx.IsCoinStake t then own else nStakeReward s.
Proof.
  unfold connect_tx. intros E. apply bind_Ok in E as (u & _ & E). apply bind_Ok in E as (ops & _ & E).
  apply bind_Ok in E as (this & _ & E). destruct (Tx.IsCoinBase t) eqn:Hcb; cbn [orb negb andb].
  - apply bind_Ok in E as (out & Eo%access_Ok & E). injection E as <-. exists 0, out. split; [done|]. split; [done|].
    unfold minted. cbn [nValueOut nValueIn nFees nStakeReward]. split; [|done].
    destruct (i64_shift (nValueOut s + out)) as [k1 ->], (i64_shift (nValueOut s - nValueIn s + nFees s)) as [k2 ->],
      (i64_shift (out - 0)) as [k3 ->]. apply (i64_equal _ _ (k1 - k2 - k3)). lia.
  - apply bind_Ok in E as (m & _ & E). apply bind_Ok in E as (p2sh & _ & E). apply bind_Ok in E as (ops2 & _ & E).
    apply bind_Ok in E as (vi & _ & E). apply bind_Ok in E as (vo & Eo%access_Ok & E).
    apply bind_Ok in E as ([[changes burned] cache] & _ & E). injection E as <-. exists vi, vo. split; [done|]. split; [done|].
    unfold minted. cbn [nValueOut nValueIn nFees nStakeReward].
    destruct (i64_shift (nValueOut s + vo)) as [k1 ->], (i64_shift (nValueIn s + vi)) as [k2 ->].
    destruct (i64_shift (nValueOut s - nValueIn s + nFees s)) as [k3 ->].
    destruct (Tx.IsCoinStake t).
    + split; [|done]. destruct (i64_shift (vo - vi)) as [k4 ->]. apply (i64_equal _ _ (k1 - k2 - k3 - k4)). lia.
    + split; [|done]. destruct (i64_shift (nFees s + i64 (vi - vo))) as [k4 ->], (i64_shift (vi - vo)) as [k5 ->].
      apply (i64_equal _ _ (k1 - k2 - k3 + k4 + k5)). lia.
Qed.

(** Ordinary transactions mint nothing. *)
Lemma connect_txs_minted db j pindex l s s' :
  Forall (fun t => Tx.IsCoinBase t = false /\ Tx.IsCoinStake t = false) l ->
  connect_txs db j pindex l s = Ok s' -> minted s' = minted s /\ nStakeReward s' = nStakeReward s.
Proof.
  intros Hl. revert s. induction Hl as [|t l [Hb Hs] Hl IH]; intros s E; cbn [connect_txs] in E; [by injection E as ->|].
  apply bind_Ok in E as (s1 & E1 & E). apply connect_tx_minted in E1 as (vi & vo & _ & _ & Em & Er).
  rewrite Hb, Hs in Em, Er. cbn [orb negb andb] in Em, Er. rewrite Z.add_0_r in Em. unfold minted at 2 in Em.
  rewrite i64_idemp in Em. change (minted s1 = minted s) in Em. rewrite <- Em, <- Er. by apply IH.
Qed.
End mint.
End Mint.

(** ** Properties *)
Module BlockConnectTheorems.
Import Undo Mint.
Section theorems.
Context `{BNLib} `{Digests} `{ECLib} `{SigEnv} `{NodeEnv}.

(** What an accepted block has passed. *)
Lemma ConnectBlock_Ok db this pprev j b c db' this' c' : ConnectBlock db (this :: pprev) j b c = Ok (db', this', c') ->
  good_block scrypt_blockhash ProofOfWorkLimit adjusted_time nMaxDatacarrierBytes (negb j) (negb j) false b /\
  exists s, connect_txs db j (this :: pprev) (vtx b) (mk_connect ∅ 0 0 0 0 0 0 (first_pos j this b) c) = Ok s /\
    (Block.IsProofOfWork b = true -> check_work_reward b (nFees s) = Ok ()) /\
    (Block.IsProofOfStake b = true -> check_stake_reward db this pprev b (nFees s) (nStakeReward s) = Ok ()) /\
    this' = record_supply s pprev this /\
    db_hashBestChain db' = db_hashBestChain db /\
    tx_index db' = if j then tx_index db else mapQueuedChanges s ∪ tx_index db.
Proof.
  unfold ConnectBlock. intros E. destruct (CheckBlock _ _ _ _ _ _ _ _) eqn:Ec; [|done].
  apply CheckBlock_good in Ec. split; [done|]. cbn [head tail access mbind outcome_bind] in E.
  apply bind_Ok in E as (s & Es & E). apply bind_Ok in E as ([] & Ew & E). apply bind_Ok in E as ([] & Ek & E).
  exists s. split; [done|]. split; [by intros Hw; rewrite Hw in Ew|]. split; [by intros Hk; rewrite Hk in Ek|].
  destruct j; [by injection E as <- <- <-|]. destruct pprev; by injection E as <- <- <-.
Qed.

(** C11. [DisconnectBlock] undoes [ConnectBlock]: when a block whose transactions are new to the
    index has been connected, disconnecting it succeeds, gives back the transaction index as it
    was, leaves the best chain alone and clears the successor of the previous block on disk. *)
Theorem DisconnectBlock_undoes db this pprev b c db' this' c' :
  nFile this <> UINT_MAX -> normal (tx_index db) ->
  (forall t, t ∈ vtx b -> indexed_inputs t) -> (forall t, t ∈ vtx b -> tx_index db !! Tx.GetHash t = None) ->
  ConnectBlock db (this :: pprev) false b c = Ok (db', this', c') ->
  exists db'', DisconnectBlock db' (this' :: pprev) b = Ok db'' /\ tx_index db'' = tx_index db /\
    db_hashBestChain db'' = db_hashBestChain db /\
    forall p pp, pprev = p :: pp ->
      hashNext <$> block_index db'' !! TxDB.GetBlockHash (TxDB.of_index p pp) = Some 0.
Proof.
  intros Hf Hn Hidx Hnew E. apply ConnectBlock_Ok in E as (Hgood & s & Es & _ & _ & _ & Eb & Et).
  apply connect_txs_undo in Es; cbn [mapQueuedChanges] in *; rewrite ?(left_id_L ∅ (∪)) in *; try done.
  2: apply (gb_unique _ _ _ _ _ _ _ _ Hgood).
  unfold DisconnectBlock. rewrite Et, Es. cbn [mbind outcome_bind tail]. eexists. split; [reflexivity|].
  destruct pprev as [|p pp]; [done|]. split; [done|]. split; [done|]. intros p' pp' [= <- <-]. cbn [block_index].
  unfold TxDB.WriteBlockIndex. cbn [block_index].
  change (TxDB.GetBlockHash (mk_disk_index (di_index (TxDB.of_index p pp)) (hashPrev (TxDB.of_index p pp)) 0))
    with (TxDB.GetBlockHash (TxDB.of_index p pp)).
  by rewrite lookup_insert_eq.
Qed.

(** The coinbase of a proof-of-stake block pays nothing. *)
Lemma empty_coinbase t o : vout t = [o] -> TxOut.IsEmpty o = true -> Tx.GetValueOut t = Some 0.
Proof.
  intros Eo [Hv%Z.eqb_eq _]%andb_true_iff. unfold Tx.GetValueOut. rewrite Eo. cbn [Tx.value_loop]. by rewrite Hv.
Qed.

(** C12. What an accepted block mints.  In a proof-of-stake block the recorded mint is the reward of
    the coinstake, read as an unsigned number it is at most [GetProofOfStakeReward] of the coin age
    and the fees, and after height 25 an output pays a fifth of that reward to the fund.  In a mined
    block without coinstakes it is the value of the coinbase, at most [GetProofOfWorkReward] of the
    fees.  Nothing bounds what a mined block with a coinstake mints, and such blocks are accepted
    ([unbounded_coinstake]). *)
Theorem ConnectBlock_mint db this pprev j b c db' this' c' :
  ConnectBlock db (this :: pprev) j b c = Ok (db', this', c') ->
  exists s, connect_txs db j (this :: pprev) (vtx b) (mk_connect ∅ 0 0 0 0 0 0 (first_pos j this b) c) = Ok s /\
  (Block.IsProofOfStake b = true ->
    exists coinstake nCoinAge, vtx b !! 1%nat = Some coinstake /\ GetCoinAge db coinstake pprev = Ok nCoinAge /\
      nMint this' = nStakeReward s /\ u64 (nMint this') <= Reward.GetProofOfStakeReward nCoinAge (nFees s) /\
      (25 < nHeight this ->
       exists output, output ∈ vout coinstake /\ pays_fund (Reward.GetProofOfStakeReward nCoinAge (nFees s)) output = true)) /\
  (Block.IsProofOfWork b = true -> Forall (fun t => Tx.IsCoinStake t = false) (vtx b) ->
    exists coinbase best, vtx b !! 0%nat = Some coinbase /\ head pindexBest = Some best /\
      Tx.GetValueOut coinbase = Some (nMint this') /\ nMint this' <= Reward.GetProofOfWorkReward (nHeight best) (nFees s)).
Proof.
  intros E. apply ConnectBlock_Ok in E as (Hgood & s & Es & Hw & Hk & -> & _). exists s. split; [done|].
  destruct (gb_coinbase _ _ _ _ _ _ _ _ Hgood) as (coinbase & rest & Ev & Hcb & Hrest). split.
  - intros Hpos. specialize (Hk Hpos). destruct (gb_stake _ _ _ _ _ _ _ _ Hgood Hpos) as (cb' & o & stake & rest' & Ev' & Eo & Hempty & Hstake & Hns).
    rewrite Ev in Ev'. injection Ev' as <- ->. apply Forall_cons in Hrest as [Hsb Hrest].
    unfold check_stake_reward in Hk. rewrite Ev in Hk. cbn [lookup list_lookup access mbind outcome_bind] in Hk.
    apply bind_Ok in Hk as (age & Ea%keep_points_Ok & Hk). apply bind_Ok in Hk as (u & Hle%reject_if_Ok & Hfund%reject_if_Ok).
    exists stake, age. rewrite Ev. split; [done|]. split; [done|].
    rewrite Ev in Es. cbn [connect_txs] in Es. apply bind_Ok in Es as (s1 & E1 & Es). apply bind_Ok in Es as (s2 & E2 & Es).
    apply connect_tx_minted in E1 as (in1 & out1 & Eo1 & Hin1 & Em1 & Er1).
    apply connect_tx_minted in E2 as (in2 & out2 & _ & _ & Em2 & Er2).
    apply connect_txs_minted in Es as [Em Er].
    2: { rewrite Forall_forall in *. intros t Ht. split; auto. }
    rewrite (empty_coinbase _ _ Eo Hempty) in Eo1. injection Eo1 as <-. rewrite Hin1, Hcb in Em1 by done.
    rewrite Hsb, Hstake in Em2, Er2. cbn [orb negb andb] in *.
    change (minted s1 = 0) in Em1. rewrite Em1, Z.add_0_l, i64_idemp, <- Er2, <- Er in Em2. rewrite <- Em in Em2.
    change (nMint (record_supply s pprev this)) with (minted s). rewrite Em2. split; [done|]. split; [lia|].
    intros Hh. destruct (Z.ltb_spec 25 (nHeight this)); [|lia]. cbn [andb] in Hfund. apply negb_false_iff in Hfund.
    apply existsb_exists in Hfund as (output & Hin & Hp). exists output. split; [by apply list_elem_of_In|done].
  - intros Hpow Hns. specialize (Hw Hpow). unfold check_work_reward in Hw. rewrite Ev in Hw |- *.
    apply bind_Ok in Hw as (best & Eb%access_Ok & Hw). cbn [lookup list_lookup access mbind outcome_bind] in Hw.
    apply bind_Ok in Hw as (out & Eo%access_Ok & Hle%reject_if_Ok). exists coinbase, best. split; [done|]. split; [done|].
    rewrite Ev in Es, Hns. cbn [connect_txs] in Es. apply bind_Ok in Es as (s1 & E1 & Es).
    apply connect_tx_minted in E1 as (in1 & out1 & Eo1 & Hin1 & Em1 & _). apply Forall_cons in Hns as [_ Hns].
    apply connect_txs_minted in Es as [Em _]; [|rewrite Forall_forall in *; intros t Ht; split; auto].
    rewrite Eo in Eo1. injection Eo1 as <-. rewrite Hin1, Hcb, Z.sub_0_r in Em1 by done. cbn [orb] in Em1.
    change (nMint (record_supply s pprev this)) with (minted s). rewrite Em, Em1.
    change (i64 (minted (mk_connect ∅ 0 0 0 0 0 0 (first_pos j this b) c) + i64 out)) with (i64 (0 + i64 out)).
    rewrite Z.add_0_l, i64_idemp.
    assert (i64 out = out) as ->; [|split; [done|lia]]. by apply (GetValueOut_i64 coinbase).
Qed.
End theorems.
End BlockConnectTheorems.

(** ** Examples: a mined block with a payment, and a staked block *)
Module BlockConnectExamples.
Definition toy_header : CBlock := mk_block 7 0 0 1000 0x1d00ffff 0 [] [] [].
Definition savings_tx : CTransaction :=
  mk_tx 1 1000 [mk_txin (mk_outpoint 77 0) [] 0] [mk_txout (10 ^ 12) [B#OP_1; B#OP_NOP]] 0.
Definition toy_files (p : CDiskTxPos) : option CTransaction :=
  if decide (p = mk_pos 1 100 80) then Some funding_tx else if decide (p = mk_pos 1 100 180) then Some savings_tx else None.
#[local] Instance toy_node : NodeEnv := {|
  scrypt_blockhash _ := 0; ProofOfWorkLimit := 2 ^ 236; adjusted_time := 100000; nMaxDatacarrierBytes := 80;
  prefixes := main_prefixes; nCoinbaseMaturity := 10; nStakeMinAge := 6 * 60 * 60; nStakeMinConfirmations := 10;
  pindexBest := [BlockIndex.default]; nBestHeight := 0; TotalBlocksEstimate := -1; mempool_txs := ∅;
  ReadTx := toy_files; ReadHeader _ _ := Some toy_header |}.
#[local] Existing Instances ref_bn dummy_digests dummy_ec toy_env.

Definition coinbase_tx (value : Z) (script : bytes) : CTransaction :=
  mk_tx 1 5000 [mk_txin OutPoint.null [B#OP_1; B#OP_1] 0] [mk_txout value script] 0.
Definition block_of (txs : list CTransaction) : CBlock :=
  mk_block 7 901 (Merkle.BuildMerkleTree (map Tx.GetHash txs)).1 90000 0x1d00ffff 0 txs [] [].
Definition mined_block : CBlock := block_of [coinbase_tx 5000 [B#OP_1; B#OP_NOP]; spending_tx].
(** A coinstake that spends the savings after a day and earns one coin. *)
Definition coinstake_tx : CTransaction :=
  mk_tx 1 90000 [mk_txin (mk_outpoint (Tx.GetHash savings_tx) 0) [] 0]
    [mk_txout 0 []; mk_txout (10 ^ 12 + COIN) [B#OP_1; B#OP_NOP]] 0.
Definition staked_block : CBlock := block_of [coinbase_tx 0 []; coinstake_tx].

Definition prev_index : CBlockIndex := mk_index 901 None 1 50 1 1 0 0 0 0 OutPoint.null 0 0 7 0 1000 0x1d00ffff 0.
Definition this_index : CBlockIndex := mk_index 902 None 1 300 2 2 0 0 0 0 OutPoint.null 0 0 7 0 90000 0x1d00ffff 0.
Definition toy_db : CTxDB :=
  mk_txdb (<[Tx.GetHash savings_tx := TxIndex.of_pos (mk_pos 1 100 180) 1]> funding_db) ∅ (Some 901) None.
Definition toy_ConnectBlock (b : CBlock) : outcome (CTxDB * CBlockIndex * CSignatureCache) :=
  ConnectBlock toy_db [this_index; prev_index] false b empty_cache.

Definition connects (o : outcome (CTxDB * CBlockIndex * CSignatureCache)) : bool := match o with Ok _ => true | _ => false end.
Lemma connects_Ok o : connects o = true -> exists db i c, o = Ok (db, i, c).
Proof. destruct o as [[[db i] c]| |]; [by exists db, i, c|discriminate|discriminate]. Qed.

Example coinstake_age : GetCoinAge toy_db coinstake_tx [prev_index] = Ok 10300.
Proof. vm_compute. reflexivity. Qed.
(** A coinstake that pays out less than it spends is refused as paying too much: the difference is
    compared as an unsigned number. *)
Example generous_coinstake_refused :
  toy_ConnectBlock (block_of [coinbase_tx 0 []; mk_tx 1 90000 (vin coinstake_tx) [mk_txout 0 []; mk_txout (10 ^ 12 - 1) [B#OP_1; B#OP_NOP]] 0])
    = Fail 100.
Proof. vm_compute. reflexivity. Qed.

(** A mined block may contain a coinstake that is not its second transaction; nothing bounds what it mints. *)
Definition minting_block : CBlock :=
  block_of [coinbase_tx 5000 [B#OP_1; B#OP_NOP]; spending_tx;
    mk_tx 1 90000 (vin coinstake_tx) [mk_txout 0 []; mk_txout (10 ^ 12 + 1000000 * COIN) [B#OP_1; B#OP_NOP]] 0].
Example unbounded_coinstake :
  (match toy_ConnectBlock minting_block with Ok (_, this, _) => Some (nMint this) | _ => None end) = Some (5000 + 1000000 * COIN).
Proof. vm_compute. reflexivity. Qed.

Lemma toy_db_normal : Undo.normal (tx_index toy_db).
Proof.
  unfold toy_db. cbn [tx_index]. apply Undo.normal_insert. unfold funding_db.
  rewrite <- insert_empty. apply Undo.normal_insert, Undo.normal_empty.
Qed.

Lemma DisconnectBlock_undoes_witness : exists db' this' db'',
  DisconnectBlock db' [this'; prev_index] mined_block = Ok db'' /\ tx_index db'' = tx_index toy_db.
Proof.
  destruct (connects_Ok (toy_ConnectBlock mined_block)) as (db' & i & c' & E); [vm_compute; reflexivity|].
  destruct (BlockConnectTheorems.DisconnectBlock_undoes toy_db this_index [prev_index] mined_block empty_cache db' i c') as (db'' & Ed & Et & _).
  - discriminate.
  - exact toy_db_normal.
  - intros t Ht txin Hin. apply Z.leb_le. apply (forallb_elem (fun txin => 0 <=? o_n (prevout txin)) (vin t)); [|exact Hin].
    apply (forallb_elem (fun t => forallb (fun txin => 0 <=? o_n (prevout txin)) (vin t)) (vtx mined_block)); [|exact Ht].
    vm_compute. reflexivity.
  - intros t Ht.
    assert (match tx_index toy_db !! Tx.GetHash t with Some _ => false | None => true end = true) as Hnew.
    { apply (forallb_elem (fun t => match tx_index toy_db !! Tx.GetHash t with Some _ => false | None => true end)
        (vtx mined_block)); [vm_compute; reflexivity|exact Ht]. }
    destruct (tx_index toy_db !! Tx.GetHash t); [discriminate Hnew|reflexivity].
  - exact E.
  - exists db', i, db''. split; [exact Ed|exact Et].
Defined.

Lemma ConnectBlock_mint_witness : exists db' this' c', toy_ConnectBlock staked_block = Ok (db', this', c') /\
  exists nCoinAge fees, u64 (nMint this') <= Reward.GetProofOfStakeReward nCoinAge fees.
Proof.
  destruct (connects_Ok (toy_ConnectBlock staked_block)) as (db' & i & c' & E); [vm_compute; reflexivity|].
  exists db', i, c'. split; [exact E|].
  destruct (BlockConnectTheorems.ConnectBlock_mint toy_db this_index [prev_index] false staked_block empty_cache db' i c')
    as (s & _ & Hs & _); [exact E|].
  destruct (Hs ltac:(vm_compute; reflexivity)) as (stake & age & _ & _ & _ & Hle & _). exists age, (nFees s). exact Hle.
Defined.
End BlockConnectExamples.
