(* ===== verification/Accept.v ===== *)
(** * Accept: accepting a loose transaction to the memory pool (src/src/main.cpp)

    [AcceptToMemoryPool] combines the checks of a transaction (TxCheck, Connect) and adds the
    transaction to the pool (Mempool). *)

From S2P Require Import Prelude BigNum ScriptOps Serialize Crypto Keys Core SigHash Interp InterpFacts Standard Base58 TxCheck Block Mempool Chain Kernel Connect BlockCheck BlockConnect BlockConnectFacts.
Import Check Inputs.

Definition MAX_TX_SIGOPS : Z := MAX_BLOCK_SIGOPS / 5.

Module Accept.
Section accept.
Context `{BNLib} `{Digests} `{ECLib} `{SigEnv} `{NodeEnv}.
(** [TestNet()], and whether the limiter of free transactions is over its limit (a decaying
    average in floating point, of the sizes that went through it). *)
Variables (TestNet over_free_limit : bool).

(** The checks before the inputs are looked up. *)
Definition check_loose (db : CTxDB) (pool : CTxMemPool) (t : CTransaction) : outcome () :=
  match CheckTransaction t with
  | Reject nDoS => Fail nDoS
  | Accept =>
    _ ← reject_if (Tx.IsCoinBase t) 100;
    _ ← reject_if (Tx.IsCoinStake t) 100;
    _ ← reject_if (negb TestNet && bool_decide (is_Some (IsStandardTx nMaxDatacarrierBytes nBestHeight adjusted_time t))) 0;
    _ ← reject_if (Pool.exists_ (Tx.GetHash t) pool) 0;
    _ ← reject_if (existsb (fun txin => bool_decide (is_Some (mapNextTx pool !! prevout txin))) (vin t)) 0;
    reject_if (bool_decide (is_Some (tx_index db !! Tx.GetHash t))) 0
  end.

(** The fees; the rate limit of transactions that pay less than [MIN_RELAY_TX_FEE]. *)
Definition check_relay_fee (t : CTransaction) (mapInputs : MapPrevTx) (fLimitFree : bool) : outcome () :=
  value_in ← access (GetValueIn t mapInputs);
  value_out ← access (Tx.GetValueOut t);
  let nFees := i64 (value_in - value_out) in
  let txMinFee := GetMinFee 1000 GMF_RELAY (GetSerializeSize t) in
  _ ← reject_if ((fLimitFree && (nFees <? txMinFee)) || (negb fLimitFree && (nFees <? MIN_TX_FEE))) 0;
  reject_if (fLimitFree && (nFees <? MIN_RELAY_TX_FEE) && over_free_limit) 0.

(** The checks of the inputs; the signature cache afterwards. *)
Definition check_loose_inputs (t : CTransaction) (mapInputs : MapPrevTx) (fLimitFree : bool) (c : CSignatureCache) :
    outcome CSignatureCache :=
  c ← (if TestNet then Ok c else
       '(standard, c) ← access (AreInputsStandard nMaxDatacarrierBytes t mapInputs c);
       _ ← reject_if (negb standard) 0;
       Ok c);
  p2sh ← access (GetP2SHSigOpCount t mapInputs);
  _ ← reject_if (MAX_TX_SIGOPS <? u32 (GetLegacySigOpCount t + p2sh)) 0;
  _ ← check_relay_fee t mapInputs fLimitFree;
  let connect nBurnCoins flags c :=
    ConnectInputs nCoinbaseMaturity nBestHeight TotalBlocksEstimate t mapInputs ∅ (mk_pos 1 1 1) pindexBest nBurnCoins
      false false flags c in
  '(_, nBurnCoins, c) ← connect 0 STANDARD_SCRIPT_VERIFY_FLAGS c;
  '(_, _, c) ← connect nBurnCoins MANDATORY_SCRIPT_VERIFY_FLAGS c;
  Ok c.

(** The pool and the signature cache, and [*pfMissingInputs]. *)
Definition AcceptToMemoryPool (db : CTxDB) (pool : CTxMemPool) (t : CTransaction) (fLimitFree : bool) (c : CSignatureCache) :
    outcome (CTxMemPool * CSignatureCache) * bool :=
  match check_loose db pool t with
  | Fail d => (Fail d, false)
  | Crash => (Crash, false)
  | Ok _ =>
    match FetchInputs ReadTx (tx_index db) mempool_txs t ∅ false false ∅ with
    | (Fail d, fInvalid) => (Fail d, negb fInvalid)
    | (Crash, _) => (Crash, false)
    | (Ok mapInputs, _) =>
      (c ← check_loose_inputs t mapInputs fLimitFree c;
       Ok (Pool.addUnchecked (Tx.GetHash t) t pool, c), false)
    end
  end.
End accept.
End Accept.
Export Accept.

(** ** Facts *)
Module AcceptFacts.
Import MempoolFacts Spent ConnectFacts.
Section facts.
Context `{BNLib} `{Digests} `{ECLib} `{SigEnv} `{NodeEnv}.

(** A transaction outside a block finds its inputs in the database, or else in the pool. *)
Definition sources (txdb : gmap Z CTxIndex) (pool : gmap Z CTransaction) (m : MapPrevTx) : Prop :=
  forall h ti tp, m !! h = Some (ti, tp) -> txdb !! h = Some ti \/ txdb !! h = None /\ pool !! h = Some tp.

Lemma fetch_input_sources txdb pool txin m m' :
  sources txdb pool m -> fetch_input ReadTx txdb pool ∅ false false txin m = Ok m' -> sources txdb pool m'.
Proof.
  unfold fetch_input. intros Hm. destruct (m !! o_hash (prevout txin)) as [x|]; [by intros [= <-]|]. cbn [orb].
  destruct (txdb !! o_hash (prevout txin)) as [ti|] eqn:Ed.
  - destruct (if decide _ then _ else _) as [tp|]; [|done]. intros [= <-] h ti' tp' [[<- [= <- <-]]|[_ E]]%lookup_insert_Some;
      [by left|by apply Hm].
  - destruct (pool !! o_hash (prevout txin)) as [tp|] eqn:Ep; [|done].
    intros [= <-] h ti' tp' [[<- [= <- <-]]|[_ E]]%lookup_insert_Some; [by right|by apply Hm].
Qed.

Lemma fetch_loop_sources txdb pool l m m' :
  sources txdb pool m -> fetch_loop ReadTx txdb pool ∅ false false l m = Ok m' -> sources txdb pool m'.
Proof.
  revert m. induction l as [|txin l IH]; intros m Hm E; cbn [fetch_loop] in E; [by injection E as <-|].
  apply bind_Ok in E as (m1 & E1 & E). apply (IH m1); [|done]. by apply (fetch_input_sources _ _ txin m).
Qed.

Lemma FetchInputs_sources txdb pool t m b : Tx.IsCoinBase t = false ->
  FetchInputs ReadTx txdb pool t ∅ false false ∅ = (Ok m, b) -> sources txdb pool m /\ Forall (ready m) (vin t).
Proof.
  intros Hcb E. unfold FetchInputs in E. rewrite Hcb in E.
  destruct (fetch_loop _ _ _ _ _ _ _ _) as [m1| |] eqn:Ef; [|done|done].
  destruct (range_loop _ _) eqn:Er; [|done|done]. injection E as <- <-. split; [|by apply range_loop_spec in Er].
  apply fetch_loop_sources in Ef; [done|]. intros h ti tp Eh. by rewrite lookup_empty in Eh.
Qed.

(** The pool beside the index: consistent in itself, disjoint from the index, and every output it
    spends belongs to a transaction of the pool or of the index. *)
Record pool_beside (db : CTxDB) (pool : CTxMemPool) : Prop := {
  pb_ok : pool_ok pool;
  pb_disjoint h : is_Some (mapTx pool !! h) -> tx_index db !! h = None;
  pb_closed o x : mapNextTx pool !! o = Some x -> is_Some (mapTx pool !! o_hash o) \/ is_Some (tx_index db !! o_hash o)
}.

Lemma CheckTransaction_distinct t : CheckTransaction t = TxCheck.Accept -> NoDup (map prevout (vin t)).
Proof.
  unfold CheckTransaction. repeat (case_bool_decide; [done|]). destruct (_ <? _); [done|].
  destruct (check_outputs _ _ _); [|done]. destruct (check_duplicates ∅ (vin t)) eqn:Ed; [|done].
  intros _. by apply CheckFacts.check_duplicates_spec in Ed as [Hnd _].
Qed.

Record loose (TestNet : bool) (db : CTxDB) (pool : CTxMemPool) (t : CTransaction) : Prop := {
  lo_checked : CheckTransaction t = TxCheck.Accept;
  lo_base : Tx.IsCoinBase t = false;
  lo_stake : Tx.IsCoinStake t = false;
  lo_standard : TestNet = false -> IsStandardTx nMaxDatacarrierBytes nBestHeight adjusted_time t = None;
  lo_new : mapTx pool !! Tx.GetHash t = None;
  lo_free txin : txin ∈ vin t -> mapNextTx pool !! prevout txin = None;
  lo_unknown : tx_index db !! Tx.GetHash t = None
}.

Lemma check_loose_Ok TestNet db pool t : check_loose TestNet db pool t = Ok () <-> loose TestNet db pool t.
Proof.
  unfold check_loose. split.
  - destruct (CheckTransaction t) eqn:Ec; [|done]. intros E.
    apply bind_Ok in E as (u1 & E1%reject_if_Ok & E). apply bind_Ok in E as (u2 & E2%reject_if_Ok & E).
    apply bind_Ok in E as (u3 & E3%reject_if_Ok & E). apply bind_Ok in E as (u4 & E4%reject_if_Ok & E).
    apply bind_Ok in E as (u5 & E5%reject_if_Ok & E6%reject_if_Ok).
    split; try done.
    + intros ->. cbn [negb andb] in E3. apply bool_decide_eq_false in E3. by apply eq_None_not_Some.
    + apply bool_decide_eq_false in E4. by apply eq_None_not_Some.
    + apply CheckFacts.existsb_Forall in E5. rewrite Forall_forall in E5. intros txin Hin.
      specialize (E5 txin Hin). apply bool_decide_eq_false in E5. by apply eq_None_not_Some.
    + apply bool_decide_eq_false in E6. by apply eq_None_not_Some.
  - intros [-> -> -> Hs Hn Hf Hu]. unfold Pool.exists_. rewrite Hn, Hu.
    assert (negb TestNet && bool_decide (is_Some (IsStandardTx nMaxDatacarrierBytes nBestHeight adjusted_time t)) = false) as ->.
    { destruct TestNet; [done|]. by rewrite Hs. }
    assert (existsb (fun txin => bool_decide (is_Some (mapNextTx pool !! prevout txin))) (vin t) = false) as ->.
    { apply CheckFacts.existsb_Forall, Forall_forall. intros txin Hin. by rewrite Hf. }
    done.
Qed.

Lemma AcceptToMemoryPool_Ok TestNet limited db pool t fLimitFree c pool' c' missing :
  AcceptToMemoryPool TestNet limited db pool t fLimitFree c = (Ok (pool', c'), missing) ->
  loose TestNet db pool t /\ pool' = Pool.addUnchecked (Tx.GetHash t) t pool /\ missing = false /\
  exists m, sources (tx_index db) mempool_txs m /\ Forall (ready m) (vin t) /\
    check_loose_inputs TestNet limited t m fLimitFree c = Ok c'.
Proof.
  unfold AcceptToMemoryPool. destruct (check_loose TestNet db pool t) as [[]| |] eqn:El; [|done|done].
  apply check_loose_Ok in El. destruct (FetchInputs _ _ _ _ _ _ _ _) as [[m| |] b] eqn:Ef; [|done|done].
  intros [= E <-]. apply bind_Ok in E as (c1 & Ec & E). injection E as <- <-.
  split; [done|]. split; [done|]. split; [done|]. exists m.
  apply FetchInputs_sources in Ef as [Hs Hr]; [done|apply El].
Qed.

Lemma ready_index m txin : 0 <= o_n (prevout txin) -> ready m txin ->
  exists ti tp k, m !! o_hash (prevout txin) = Some (ti, tp) /\ (k < length (vout tp))%nat /\ o_n (prevout txin) = Z.of_nat k.
Proof.
  intros Hn (ti & tp & E & Hv & _). exists ti, tp, (Z.to_nat (o_n (prevout txin))). unfold zlen in Hv. split; [done|]. lia.
Qed.

Lemma loose_addable TestNet db pool t m : pool_beside db pool -> mempool_txs = mapTx pool ->
  (forall txin, txin ∈ vin t -> 0 <= o_n (prevout txin)) ->
  loose TestNet db pool t -> sources (tx_index db) mempool_txs m -> Forall (ready m) (vin t) -> addable pool t.
Proof.
  intros [Hok Hd Hc] Hp Hidx Hl Hs Hr. rewrite Forall_forall in Hr. rewrite Hp in Hs.
  assert (forall txin, txin ∈ vin t -> exists ti tp k, (tx_index db !! o_hash (prevout txin) = Some ti \/
    tx_index db !! o_hash (prevout txin) = None /\ mapTx pool !! o_hash (prevout txin) = Some tp) /\
    (k < length (vout tp))%nat /\ o_n (prevout txin) = Z.of_nat k) as Hin.
  { intros txin Hin. destruct (ready_index m txin (Hidx txin Hin) (Hr txin Hin)) as (ti & tp & k & E & Hk).
    exists ti, tp, k. split; [by apply Hs|done]. }
  split.
  - apply Hl.
  - apply CheckTransaction_distinct, Hl.
  - apply Hl.
  - intros txin tp Hx Ep. destruct (Hin txin Hx) as (ti & tp' & k & [Ed|[_ Ep']] & Hk).
    + rewrite Hd in Ed; [done|by eexists].
    + exists k. rewrite Ep in Ep'. by injection Ep' as ->.
  - intros txin Hx Eh. destruct (Hin txin Hx) as (ti & tp' & k & [Ed|[_ Ep']] & _); rewrite Eh in *.
    + by rewrite (lo_unknown _ _ _ _ Hl) in Ed.
    + by rewrite (lo_new _ _ _ _ Hl) in Ep'.
  - intros o x Eo Eh. destruct (Hc o x Eo) as [[y Ey]|[y Ey]]; rewrite Eh in Ey.
    + by rewrite (lo_new _ _ _ _ Hl) in Ey.
    + by rewrite (lo_unknown _ _ _ _ Hl) in Ey.
Qed.

(** C31. [AcceptToMemoryPool] keeps the pool consistent beside the transaction index: no
    transaction is in both, no output is spent twice, and every output spent belongs to a
    transaction of the pool, where it exists, or of the index. *)
Theorem AcceptToMemoryPool_invariant TestNet limited db pool t fLimitFree c pool' c' missing :
  pool_beside db pool -> mempool_txs = mapTx pool ->
  (forall txin, txin ∈ vin t -> 0 <= o_n (prevout txin)) ->
  AcceptToMemoryPool TestNet limited db pool t fLimitFree c = (Ok (pool', c'), missing) ->
  pool_beside db pool' /\ mapTx pool' = <[Tx.GetHash t := t]> (mapTx pool).
Proof.
  intros Hpb Hp Hidx E. apply AcceptToMemoryPool_Ok in E as (Hl & -> & _ & m & Hs & Hr & _).
  pose proof (loose_addable _ _ _ _ _ Hpb Hp Hidx Hl Hs Hr) as Ha. split; [|done].
  destruct Hpb as [Hok Hd Hc]. split.
  - by apply addUnchecked_pool_ok.
  - intros h. cbn [Pool.addUnchecked Pool.touch mapTx]. intros [y [[<- _]|[_ Ey]]%lookup_insert_Some]; [apply Hl|].
    apply Hd. by eexists.
  - intros o [h i]. cbn [Pool.addUnchecked Pool.touch mapTx mapNextTx]. intros Eo.
    apply link_inputs_lookup in Eo; [|apply Ha|apply Ha].
    assert (forall tp, mapTx pool !! o_hash o = Some tp -> is_Some (<[Tx.GetHash t := t]> (mapTx pool) !! o_hash o)) as Hold.
    { intros tp Etp. apply lookup_insert_is_Some'. right. by eexists. }
    destruct Eo as [Eo|(_ & k & inp & _ & Ei & <-)].
    + destruct (Hc o (h, i) Eo) as [[tp Etp]|]; [left; by apply (Hold tp)|by right].
    + rewrite Forall_forall in Hr. apply list_elem_of_lookup_2 in Ei. destruct (Hr inp Ei) as (ti & tp & Em & _).
      apply Hs in Em as [Ed|[_ Ep]]; [right; by eexists|left; rewrite Hp in Ep; by apply (Hold tp)].
Qed.

(** *** The fee for relaying *)
(** At least [MIN_RELAY_TX_FEE] for every thousand bytes begun. *)
Lemma GetMinFee_relay n : 0 <= n < 2 ^ 32 -> (1 + n / 1000) * MIN_RELAY_TX_FEE <= GetMinFee 1000 GMF_RELAY n.
Proof.
  intros Hn. unfold GetMinFee. change (2 ^ 32) with 4294967296 in Hn.
  set (fee := i64 ((1 + n / 1000) * MIN_RELAY_TX_FEE)).
  assert ((1 + n / 1000) * MIN_RELAY_TX_FEE = fee /\ MIN_RELAY_TX_FEE <= fee <= 42949680000) as [-> Hfee].
  { unfold fee. change MIN_RELAY_TX_FEE with 10000. rewrite i64_id by (pose proof (Z.div_mod n 1000); pose proof (Z.mod_pos_bound n 1000); lia).
    pose proof (Z.div_mod n 1000); pose proof (Z.mod_pos_bound n 1000); lia. }
  assert (fee <= MAX_MONEY) as Hmax by (rewrite MAX_MONEY_eq; lia).
  assert (forall f, fee <= f -> fee <= (if negb (MoneyRange f) then MAX_MONEY else f)) as Hcap.
  { intros f Hf. by destruct (negb _). }
  change (negb (1000 =? 1)) with true. cbn [andb]. change MAX_BLOCK_SIZE_GEN with 500000.
  destruct (Z.leb_spec (500000 / 2) (u32 (1000 + n))); [|by apply Hcap].
  destruct (Z.leb_spec 500000 (u32 (1000 + n))) as [?|Hlt]; [done|]. apply Hcap.
  assert (1 <= 500000 / (500000 - u32 (1000 + n)) <= 500000) as Hq.
  { assert (0 < 500000 - u32 (1000 + n) <= 500000) as Hd by (unfold u32 in *; pose proof (Z.mod_pos_bound (1000 + n) (2 ^ 32)); lia).
    split; [by apply Z.div_le_lower_bound; lia|]. apply Z.div_le_upper_bound; nia. }
  change MIN_RELAY_TX_FEE with 10000 in *. rewrite i64_id by nia. nia.
Qed.

(** The limiter of free transactions is never consulted: a transaction that it would apply to,
    paying less than [MIN_RELAY_TX_FEE], has already been refused for its fee.  So acceptance does not
    depend on the limiter. *)
Theorem free_limiter_unused TestNet db pool t fLimitFree c :
  AcceptToMemoryPool TestNet true db pool t fLimitFree c = AcceptToMemoryPool TestNet false db pool t fLimitFree c.
Proof.
  assert (forall m, check_relay_fee true t m fLimitFree = check_relay_fee false t m fLimitFree) as Hfee.
  { intros m. unfold check_relay_fee. destruct (GetValueIn t m) as [vi|]; [|done].
    destruct (Tx.GetValueOut t) as [vo|]; [|done]. cbn [access mbind outcome_bind].
    assert (0 <= GetSerializeSize t < 2 ^ 32) as Hs by (cbn [GetSerializeSize]; by apply Z.mod_pos_bound).
    assert (0 <= GetSerializeSize t / 1000) by (apply Z.div_pos; lia).
    apply GetMinFee_relay in Hs. change MIN_RELAY_TX_FEE with 10000 in *. destruct fLimitFree; [|done]. cbn [andb orb negb].
    destruct (Z.ltb_spec (i64 (vi - vo)) (GetMinFee 1000 GMF_RELAY (GetSerializeSize t))); [done|].
    destruct (Z.ltb_spec (i64 (vi - vo)) 10000); [lia|done]. }
  assert (forall m, check_loose_inputs TestNet true t m fLimitFree c = check_loose_inputs TestNet false t m fLimitFree c) as Hin.
  { intros m. unfold check_loose_inputs. do 3 (apply outcome_bind_ext; intros ?). by rewrite Hfee. }
  unfold AcceptToMemoryPool. destruct (check_loose _ _ _ _); [|done|done].
  destruct (FetchInputs _ _ _ _ _ _ _ _) as [[m| |] b]; [|done|done]. by rewrite Hin.
Qed.

Lemma check_loose_inputs_Ok TestNet limited t m fLimitFree c c' :
  check_loose_inputs TestNet limited t m fLimitFree c = Ok c' ->
  (TestNet = false -> exists c1, AreInputsStandard nMaxDatacarrierBytes t m c = Some (true, c1)) /\
  (exists p2sh, GetP2SHSigOpCount t m = Some p2sh /\ u32 (GetLegacySigOpCount t + p2sh) <= MAX_TX_SIGOPS) /\
  check_relay_fee limited t m fLimitFree = Ok () /\
  forall flags, flags = STANDARD_SCRIPT_VERIFY_FLAGS \/ flags = MANDATORY_SCRIPT_VERIFY_FLAGS ->
    exists nBurn c1 r, ConnectInputs nCoinbaseMaturity nBestHeight TotalBlocksEstimate t m ∅ (mk_pos 1 1 1) pindexBest nBurn
      false false flags c1 = Ok r.
Proof.
  unfold check_loose_inputs. intros E. apply bind_Ok in E as (c0 & Ec & E).
  apply bind_Ok in E as (p2sh & Ep%access_Ok & E). apply bind_Ok in E as (u1 & Eo%reject_if_Ok & E).
  apply bind_Ok in E as ([] & Ef & E). apply bind_Ok in E as ([[p1 b1] c1] & E1 & E).
  apply bind_Ok in E as ([[p2 b2] c2] & E2 & E). split; [|split; [|split; [done|]]].
  - intros ->. apply bind_Ok in Ec as ([st c3] & Es%access_Ok & Ec). apply bind_Ok in Ec as (u & Er%reject_if_Ok & _).
    destruct st; [|done]. by exists c3.
  - exists p2sh. split; [done|lia].
  - intros flags [->| ->]; [by exists 0, c0, (p1, b1, c1)|by exists b1, c1, (p2, b2, c2)].
Qed.

(** *** What the relay policy asks of the inputs *)
Lemma args_small w sols : ScriptSigArgsExpected w sols <= 256.
Proof.
  unfold ScriptSigArgsExpected. destruct w; try lia. destruct sols as [|[|b l] sols]; try lia. pose proof (uchar_range b). lia.
Qed.

(** The input spends an output of a known form and its script leaves as many elements as that
    form takes; with a redeem script of a known form, one more than that takes. *)
Definition spends_known (t : CTransaction) (m : MapPrevTx) (i : nat) (txin : CTxIn) : Prop :=
  exists prev w sols stk c1 c2, GetOutputFor txin m = Some prev /\
    Solver nMaxDatacarrierBytes (scriptPubKey prev) = (true, w, sols) /\
    EvalScript [] (scriptSig txin) t i SCRIPT_VERIFY_NONE 0 c1 = (true, stk, c2) /\
    0 <= ScriptSigArgsExpected w sols /\
    if decide (w = TX_SCRIPTHASH) then
      exists subscript w2 sols2, last stk = Some subscript /\ Solver nMaxDatacarrierBytes subscript = (true, w2, sols2) /\
        0 <= ScriptSigArgsExpected w2 sols2 /\ zlen stk = 1 + ScriptSigArgsExpected w2 sols2
    else zlen stk = ScriptSigArgsExpected w sols.

(** The redeem script has no known form and at most 15 signature operations. *)
Definition spends_other (t : CTransaction) (m : MapPrevTx) (i : nat) (txin : CTxIn) : Prop :=
  exists prev sols stk c1 c2 subscript, GetOutputFor txin m = Some prev /\
    Solver nMaxDatacarrierBytes (scriptPubKey prev) = (true, TX_SCRIPTHASH, sols) /\
    EvalScript [] (scriptSig txin) t i SCRIPT_VERIFY_NONE 0 c1 = (true, stk, c2) /\ last stk = Some subscript /\
    (Solver nMaxDatacarrierBytes subscript).1.1 = false /\ CScript.GetSigOpCount true subscript <= 15.

(** All the inputs are of the first kind, or those before one of the second kind: the code looks
    no further than that one. *)
Inductive known_inputs (t : CTransaction) (m : MapPrevTx) : nat -> list CTxIn -> Prop :=
| known_nil i : known_inputs t m i []
| known_cons i txin l : spends_known t m i txin -> known_inputs t m (S i) l -> known_inputs t m i (txin :: l)
| known_other i txin l : spends_other t m i txin -> known_inputs t m i (txin :: l).

Lemma args_match_Next stk n : 0 <= n <= 512 -> args_match stk n = Next -> zlen stk = n.
Proof.
  unfold args_match, u32. intros Hn. rewrite Z.mod_small by lia.
  destruct (Z.eqb_spec (zlen stk) n); [done|]. by intros [=].
Qed.

Lemma input_standard_known t m i txin c r c' : input_standard nMaxDatacarrierBytes t m i txin c = Some (r, c') ->
  match r with Next => spends_known t m i txin | Return b => b = true -> spends_other t m i txin end.
Proof.
  unfold input_standard. destruct (GetOutputFor txin m) as [prev|] eqn:Ep; [|done]. cbn [mbind option_bind].
  destruct (Solver _ (scriptPubKey prev)) as [[ok w] sols] eqn:Es. destruct ok; cbn [negb]; [|by intros [= <- <-]].
  destruct (Z.ltb_spec (ScriptSigArgsExpected w sols) 0) as [?|Hn]; [by intros [= <- <-]|].
  destruct (EvalScript [] _ _ _ _ _ c) as [[ok stk] c1] eqn:Ee. destruct ok; cbn [negb]; [|by intros [= <- <-]].
  pose proof (args_small w sols) as Hs. case_bool_decide as Hw.
  - subst w. destruct (last stk) as [sub|] eqn:El; [|by intros [= <- <-]].
    destruct (Solver _ sub) as [[ok w2] sols2] eqn:Es2. destruct ok.
    + destruct (Z.ltb_spec (ScriptSigArgsExpected w2 sols2) 0) as [?|Hn2]; [by intros [= <- <-]|]. intros [= Er <-].
      pose proof (args_small w2 sols2) as Hs2.
      destruct r as [|b]; [|unfold args_match in Er; destruct (negb _); [by injection Er as <-|done]].
      apply args_match_Next in Er; [|lia]. exists prev, TX_SCRIPTHASH, sols, stk, c, c1. do 4 (split; [done|]).
      rewrite decide_True by done. by exists sub, w2, sols2.
    + intros [= <- <-] Hb. exists prev, sols, stk, c, c1, sub. do 4 (split; [done|]). rewrite Es2. split; [done|].
      change MAX_P2SH_SIGOPS with 15 in Hb. lia.
  - intros [= Er <-]. destruct r as [|b]; [|unfold args_match in Er; destruct (negb _); [by injection Er as <-|done]].
    apply args_match_Next in Er; [|lia]. exists prev, w, sols, stk, c, c1. do 4 (split; [done|]). by rewrite decide_False.
Qed.

Lemma AreInputsStandard_known t m c c' : Tx.IsCoinBase t = false ->
  AreInputsStandard nMaxDatacarrierBytes t m c = Some (true, c') -> known_inputs t m 0 (vin t).
Proof.
  unfold AreInputsStandard. intros ->. generalize 0%nat (vin t). intros i l. revert i c.
  induction l as [|txin l IH]; intros i c; cbn [inputs_standard]; [constructor|].
  destruct (input_standard _ _ _ _ _ _) as [[r c1]|] eqn:Ei; [|done]. cbn [mbind option_bind].
  apply input_standard_known in Ei. destruct r as [|b].
  - intros E. apply known_cons; [done|]. by apply (IH _ c1).
  - intros [= -> <-]. by apply known_other, Ei.
Qed.

(** The value of the inputs is the sum of the outputs they spend. *)
Lemma value_in_sum t m pindex l prevs z v : Forall2 (input_ok nCoinbaseMaturity t m pindex) l prevs ->
  0 <= z -> z + sum_out prevs <= MAX_MONEY -> value_in m z l = Some v -> v = z + sum_out prevs.
Proof.
  intros Hp. revert z. induction Hp as [|txin prev l prevs Hi Hp IH]; intros z Hz Hs E; cbn [value_in] in E.
  { injection E as <-. change (sum_out []) with 0. lia. }
  destruct Hi as (ti & tp & Em & Ev & _ & _ & _ & Hv). unfold GetOutputFor in E. rewrite Em in E. cbn [mbind option_bind] in E.
  destruct (_ <=? _); [done|]. rewrite Ev in E. cbn [mbind option_bind] in E.
  change (sum_out (prev :: prevs)) with (nValue prev + sum_out prevs) in *.
  assert (0 <= sum_out prevs).
  { clear -Hp. induction Hp as [|a b l l' (_ & _ & _ & _ & _ & _ & _ & Hb) _ IH]; [done|].
    change (sum_out (b :: l')) with (nValue b + sum_out l'). lia. }
  rewrite MAX_MONEY_eq in *. rewrite i64_id in E by lia. apply IH in E; lia.
Qed.

(** What the spent outputs are worth is in range. *)
Lemma ConnectInputs_range t m pool p pindex nBurn flags c r : Tx.IsCoinBase t = false ->
  ConnectInputs nCoinbaseMaturity nBestHeight TotalBlocksEstimate t m pool p pindex nBurn false false flags c = Ok r ->
  exists prevs, Forall2 (input_ok nCoinbaseMaturity t m pindex) (vin t) prevs /\ sum_out prevs <= MAX_MONEY.
Proof.
  intros Hcb E. unfold ConnectInputs in E. rewrite Hcb in E. apply bind_Ok in E as (v & Ev & _).
  apply check_loop_spec in Ev as (prevs & Hp & -> & Hv); [|rewrite MAX_MONEY_eq; lia]. exists prevs. split; [done|]. lia.
Qed.

Lemma input_ok_unique t m pindex l ps ps' : Forall2 (input_ok nCoinbaseMaturity t m pindex) l ps ->
  Forall2 (input_ok nCoinbaseMaturity t m pindex) l ps' -> ps = ps'.
Proof.
  intros Ha. revert ps'. induction Ha as [|x p l ps (ti & tp & Em & Ep & _) _ IH]; intros ps' Hb; inversion Hb as [|? p' ? ps'' Hp Hb']; subst; [done|].
  destruct Hp as (ti' & tp' & Em' & Ep' & _). rewrite Em in Em'. injection Em' as <- <-. rewrite Ep in Ep'. injection Ep' as <-.
  f_equal. by apply IH.
Qed.

(** The fee that the relay policy asks for is paid out of what the inputs are worth. *)
Lemma relay_fee_paid limited t m pindex prevs : Tx.IsCoinBase t = false ->
  Forall (fun o => in_s 64 (nValue o)) (vout t) -> Forall2 (input_ok nCoinbaseMaturity t m pindex) (vin t) prevs ->
  sum_out (vout t) <= sum_out prevs <= MAX_MONEY -> check_relay_fee limited t m true = Ok () ->
  sum_out (vout t) + (1 + GetSerializeSize t / 1000) * MIN_RELAY_TX_FEE <= sum_out prevs.
Proof.
  intros Hcb Ho Hp Hs E. unfold check_relay_fee, GetValueIn in E. rewrite Hcb in E.
  apply bind_Ok in E as (vi & Ei%access_Ok & E). apply bind_Ok in E as (vo & Eo%access_Ok & E).
  apply bind_Ok in E as (u & Ef%reject_if_Ok & _).
  rewrite (GetValueOut_spec t Ho) in Eo. destruct (forallb _ (vout t)) eqn:Ef'; [|done].
  destruct (Z.leb_spec (sum_out (vout t)) MAX_MONEY); [|done]. injection Eo as <-.
  assert (0 <= sum_out (vout t)) by (by apply sum_out_nonneg).
  apply (value_in_sum t m pindex (vin t) prevs) in Ei; [|done|lia|lia]. subst vi.
  rewrite Z.add_0_l, MAX_MONEY_eq in *. rewrite i64_id in Ef by lia.
  assert (0 <= GetSerializeSize t < 2 ^ 32) as Hn by (cbn [GetSerializeSize]; by apply Z.mod_pos_bound).
  apply GetMinFee_relay in Hn. cbn [andb orb negb] in Ef. lia.
Qed.

(** What a transaction in the pool promises beyond the rules of the chain, [prevs] being the
    outputs that it spends. *)
Record relayed (TestNet fLimitFree : bool) (t : CTransaction) (m : MapPrevTx) (prevs : list CTxOut) : Prop := {
  rl_inputs : TestNet = false -> known_inputs t m 0 (vin t);
  rl_sigops : exists p2sh, GetP2SHSigOpCount t m = Some p2sh /\ u32 (GetLegacySigOpCount t + p2sh) <= 4000;
  rl_fee : fLimitFree = true -> sum_out (vout t) + (1 + GetSerializeSize t / 1000) * MIN_RELAY_TX_FEE <= sum_out prevs
}.

Lemma accepted_relayed TestNet limited t m fLimitFree c c' : Tx.IsCoinBase t = false -> Tx.IsCoinStake t = false ->
  Forall (fun o => in_s 64 (nValue o)) (vout t) -> check_loose_inputs TestNet limited t m fLimitFree c = Ok c' ->
  exists prevs, Forall2 (input_ok nCoinbaseMaturity t m pindexBest) (vin t) prevs /\
    sum_out (vout t) + MIN_TX_FEE <= sum_out prevs /\ relayed TestNet fLimitFree t m prevs.
Proof.
  intros Hcb Hcs Ho E. apply check_loose_inputs_Ok in E as (Hin & (p2sh & Ep & Hops) & Hfee & Hc).
  destruct (Hc STANDARD_SCRIPT_VERIFY_FLAGS) as (nBurn & c1 & [[p b] c2] & E); [by left|].
  pose proof E as (prevs & Hp & Hmax)%ConnectInputs_range; [|done].
  apply ConnectInputs_accepts in E as (_ & _ & _ & (prevs' & Hp' & Hsum) & _); [|done|done|done].
  rewrite (input_ok_unique _ _ _ _ _ _ Hp' Hp) in Hsum. specialize (Hsum Hcs).
  exists prevs. split; [done|]. split; [done|]. split.
  - intros Ht. destruct (Hin Ht) as [c3 Es]. by apply AreInputsStandard_known in Es.
  - exists p2sh. split; [done|]. exact Hops.
  - intros ->. apply (relay_fee_paid limited t m pindexBest); try done. change MIN_TX_FEE with 10000 in Hsum. lia.
Qed.

(** C30. A transaction that [AcceptToMemoryPool] accepts passes [CheckTransaction], is neither
    coinbase nor coinstake, is standard unless on the test network, is new and in conflict with
    nothing in the pool; its inputs are found in the index or the pool, are unspent, mature and worth
    the outputs and the minimal fee; its scripts verify with the standard and with the mandatory
    flags alone.  Unless on the test network its inputs spend outputs of the known forms with the
    right number of arguments (up to the first with a redeem script of another form, which has at most
    15 signature operations); it has at most 4000 signature operations; and with the limit on free
    transactions it pays [MIN_RELAY_TX_FEE] for every thousand bytes begun. *)
Theorem AcceptToMemoryPool_sound TestNet limited db pool t fLimitFree c pool' c' missing :
  Forall (fun o => in_s 64 (nValue o)) (vout t) ->
  AcceptToMemoryPool TestNet limited db pool t fLimitFree c = (Ok (pool', c'), missing) ->
  loose TestNet db pool t /\ exists m prevs,
    sources (tx_index db) mempool_txs m /\ Forall2 (input_ok nCoinbaseMaturity t m pindexBest) (vin t) prevs /\
    (forall o, o ∈ map prevout (vin t) -> exists p, spent_at (index_of m) o = Some p /\ DiskPos.IsNull p = true) /\
    sum_out (vout t) + MIN_TX_FEE <= sum_out prevs /\
    (forall i txin flags, vin t !! i = Some txin ->
      flags = STANDARD_SCRIPT_VERIFY_FLAGS \/ flags = MANDATORY_SCRIPT_VERIFY_FLAGS ->
      exists txindex txPrev c1 c2, m !! o_hash (prevout txin) = Some (txindex, txPrev) /\
        VerifySignature txPrev t i flags 0 c1 = Ok (true, c2)) /\
    relayed TestNet fLimitFree t m prevs.
Proof.
  intros Hv E. apply AcceptToMemoryPool_Ok in E as (Hl & -> & _ & m & Hs & _ & E). split; [done|].
  destruct (accepted_relayed _ _ _ _ _ _ _ (lo_base _ _ _ _ Hl) (lo_stake _ _ _ _ Hl) Hv E) as (prevs & Hp & Hsum & Hr).
  apply check_loose_inputs_Ok in E as (_ & _ & _ & Hc).
  assert (forall flags, flags = STANDARD_SCRIPT_VERIFY_FLAGS \/ flags = MANDATORY_SCRIPT_VERIFY_FLAGS ->
    (forall o, o ∈ map prevout (vin t) -> exists p, spent_at (index_of m) o = Some p /\ DiskPos.IsNull p = true) /\
    (forall i txin, vin t !! i = Some txin -> verified nBestHeight TotalBlocksEstimate t false flags m i (prevout txin))) as Hflags.
  { intros flags Hf. destruct (Hc flags Hf) as (nBurn & c1 & [[p b] c2] & E).
    apply ConnectInputs_accepts in E as (_ & Hsp & Hver & _); [by split|done|apply Hl|done]. }
  destruct (Hflags STANDARD_SCRIPT_VERIFY_FLAGS) as (Hsp & _); [by left|].
  exists m, prevs. do 4 (split; [done|]). split; [|done].
  intros i txin flags Ei Hf. destruct (Hflags flags Hf) as (_ & Hver). by apply (Hver i txin Ei).
Qed.
End facts.
End AcceptFacts.

Module AcceptExamples.
Import MempoolFacts Spent ConnectFacts AcceptFacts BlockConnectExamples.
#[local] Existing Instances ref_bn dummy_digests dummy_ec toy_env toy_node.

Definition accepted (o : outcome (CTxMemPool * CSignatureCache) * bool) : bool := match o with (Ok _, _) => true | _ => false end.
Lemma accepted_Ok o : accepted o = true -> exists p c m, o = (Ok (p, c), m).
Proof. destruct o as [[[p c]| |] m]; [by exists p, c, m|discriminate|discriminate]. Qed.

Definition toy_accept (t : CTransaction) : outcome (CTxMemPool * CSignatureCache) * bool :=
  AcceptToMemoryPool true false toy_db Pool.empty_pool t true empty_cache.
Lemma toy_accepts : exists pool' c' missing, toy_accept spending_tx = (Ok (pool', c'), missing).
Proof. apply accepted_Ok. vm_compute. reflexivity. Qed.

(** An input that is neither in the index nor in the pool is reported as missing. *)
Example missing_input : toy_accept (mk_tx 1 2000 [mk_txin (mk_outpoint 5 0) [] 0] (vout spending_tx) 0) = (Fail 0, true).
Proof. vm_compute. reflexivity. Qed.

Lemma empty_beside : pool_beside toy_db Pool.empty_pool.
Proof.
  split.
  - apply empty_ok.
  - intros h [x Ex]. unfold Pool.empty_pool in Ex. cbn [mapTx] in Ex. rewrite lookup_empty in Ex. discriminate Ex.
  - intros o x Ex. unfold Pool.empty_pool in Ex. cbn [mapNextTx] in Ex. rewrite lookup_empty in Ex. discriminate Ex.
Qed.

Lemma AcceptToMemoryPool_invariant_witness : exists pool',
  pool_beside toy_db pool' /\ mapTx pool' = <[Tx.GetHash spending_tx := spending_tx]> ∅.
Proof.
  destruct toy_accepts as (pool' & c' & missing & E). exists pool'.
  refine (AcceptToMemoryPool_invariant true false toy_db Pool.empty_pool spending_tx true empty_cache pool' c' missing _ _ _ _).
  - exact empty_beside.
  - reflexivity.
  - exact spending_indices.
  - exact E.
Defined.

(** A payment to a key, on the main network. *)
Definition key_script : bytes := pushes [toy_pk] ++ [B#OP_CHECKSIG].
Definition relay_funding : CTransaction :=
  mk_tx 1 1000 [mk_txin (mk_outpoint 77 1) [] 0] [mk_txout 1000000 key_script] 0.
Definition relay_node : NodeEnv := {|
  scrypt_blockhash _ := 0; ProofOfWorkLimit := 2 ^ 236; adjusted_time := 100000; nMaxDatacarrierBytes := 80;
  prefixes := main_prefixes; nCoinbaseMaturity := 10; nStakeMinAge := 6 * 60 * 60; nStakeMinConfirmations := 10;
  pindexBest := [BlockIndex.default]; nBestHeight := 0; TotalBlocksEstimate := -1; mempool_txs := ∅;
  ReadTx p := if decide (p = mk_pos 1 100 80) then Some relay_funding else None; ReadHeader _ _ := None |}.
Definition relay_db : CTxDB :=
  mk_txdb {[Tx.GetHash relay_funding := TxIndex.of_pos (mk_pos 1 100 80) 1]} ∅ (Some 901) None.
Definition relay_tx (value : Z) (sig : valtype) : CTransaction :=
  mk_tx 1 2000 [mk_txin (mk_outpoint (Tx.GetHash relay_funding) 0) (pushes [sig]) 0xffffffff] [mk_txout value key_script] 0.
Definition relay (t : CTransaction) : outcome (CTxMemPool * CSignatureCache) * bool :=
  @AcceptToMemoryPool _ _ _ _ relay_node false false relay_db Pool.empty_pool t true empty_cache.
Definition signed_tx : CTransaction := relay_tx 900000 (toy_der ++ [B#1]).

Example small_fee_refused : relay (relay_tx 999999 (toy_der ++ [B#1])) = (Fail 0, false).
Proof. vm_compute. reflexivity. Qed.
Example extra_argument_refused :
  relay (mk_tx 1 2000 [mk_txin (mk_outpoint (Tx.GetHash relay_funding) 0) (pushes [[]; toy_der ++ [B#1]]) 0xffffffff]
    [mk_txout 900000 key_script] 0) = (Fail 0, false).
Proof. vm_compute. reflexivity. Qed.

Lemma AcceptToMemoryPool_sound_witness : @loose _ relay_node false relay_db Pool.empty_pool signed_tx /\
  exists m, @known_inputs _ _ _ _ relay_node signed_tx m 0 (vin signed_tx).
Proof.
  destruct (accepted_Ok (relay signed_tx)) as (pool' & c' & missing & E); [vm_compute; reflexivity|].
  destruct (@AcceptToMemoryPool_sound _ _ _ _ relay_node false false relay_db Pool.empty_pool signed_tx true empty_cache pool' c' missing)
    as (Hl & m & prevs & _ & _ & _ & _ & _ & [Hin _ _]).
  - constructor; [|constructor]. split; [discriminate|reflexivity].
  - exact E.
  - split; [exact Hl|]. exists m. apply Hin. reflexivity.
Defined.
End AcceptExamples.
