(* ===== verification/Checkpoints.v ===== *)
(** * Checkpoints: hardened and synchronized checkpoints (src/src/checkpoints.cpp) *)

From S2P Require Import Prelude BigNum Serialize Crypto Keys Core Block Chain.

Module Checkpoints.
Definition nCheckpointSpan : Z := 500.

(** A [std::map] from heights to hashes: the pairs in the order of the heights. *)
Definition MapCheckpoints : Type := list (Z * Z).
Definition mapCheckpoints : MapCheckpoints :=
  [(0, 0x00000198707c071cdb39cc8332eccfe889013ad88b65a63673672b0bda8177e7)].
Definition mapCheckpointsTestnet : MapCheckpoints := [].

Section network.
Variable TestNet : bool.
Definition checkpoints : MapCheckpoints := if TestNet then mapCheckpointsTestnet else mapCheckpoints.

Fixpoint find_height (nHeight : Z) (l : MapCheckpoints) : option Z :=
  match l with
  | [] => None
  | (h, hash) :: l => if h =? nHeight then Some hash else find_height nHeight l
  end.

Definition CheckHardened (nHeight hash : Z) : bool :=
  match find_height nHeight checkpoints with None => true | Some h => hash =? h end.

Definition GetTotalBlocksEstimate : Z := match last checkpoints with None => 0 | Some (h, _) => h end.

(** The hash of the last checkpoint that is in the index, for which the code returns the object. *)
Fixpoint last_checkpoint {A} (mapBlockIndex : gmap Z A) (l : MapCheckpoints) : option A :=
  match l with
  | [] => None
  | (_, hash) :: l => match mapBlockIndex !! hash with Some b => Some b | None => last_checkpoint mapBlockIndex l end
  end.
Definition GetLastCheckpoint {A} (mapBlockIndex : gmap Z A) : option A := last_checkpoint mapBlockIndex (rev checkpoints).
End network.

(** The search for a block [nCheckpointSpan] below the best one, which is at [height]. *)
Fixpoint select_sync (height : Z) (pindex : index_ptr) : index_ptr :=
  match pindex with
  | b :: (_ :: _) as pprev => if height <? nHeight b + nCheckpointSpan then select_sync height pprev else pindex
  | _ => pindex
  end.
Definition AutoSelectSyncCheckpoint (pindexBest : index_ptr) : index_ptr :=
  match pindexBest with best :: _ => select_sync (nHeight best) pindexBest | [] => [] end.

(** [None] is a null best block. *)
Definition CheckSync (pindexBest : index_ptr) (nHeight' : Z) : option bool :=
  match AutoSelectSyncCheckpoint pindexBest with
  | sync :: _ => Some (negb (nHeight' <=? nHeight sync))
  | [] => None
  end.
End Checkpoints.

(** ** Facts *)
Module CheckpointFacts.
Import Checkpoints.

(** The heights of a chain go down by one to the genesis block. *)
Fixpoint numbered (pindex : index_ptr) : Prop :=
  match pindex with
  | [] => True
  | b :: pprev => nHeight b = Z.of_nat (length pprev) /\ numbered pprev
  end.

Lemma select_sync_numbered height pindex b : numbered pindex -> head pindex = Some b ->
  nHeight b <= height -> (height < nCheckpointSpan + nHeight b \/ nHeight b = Z.max 0 (height - nCheckpointSpan)) ->
  exists s, head (select_sync height pindex) = Some s /\ nHeight s = Z.max 0 (height - nCheckpointSpan).
Proof.
  revert b. induction pindex as [|b0 pprev IH]; intros b Hn Hh Hle Hb; [done|]. injection Hh as ->.
  destruct Hn as [Hb0 Hn]. destruct pprev as [|b1 pprev].
  - exists b. split; [done|]. cbn [length] in Hb0. unfold nCheckpointSpan in *. lia.
  - cbn [select_sync]. destruct (Z.ltb_spec height (nHeight b + nCheckpointSpan)) as [Hlt|Hge].
    + apply (IH b1 Hn eq_refl).
      * destruct Hn as [Hb1 _]. cbn [length] in *. lia.
      * destruct Hn as [Hb1 _]. cbn [length] in *. unfold nCheckpointSpan in *. lia.
    + exists b. split; [done|]. unfold nCheckpointSpan in *. lia.
Qed.

(** On a chain whose heights are numbered from the genesis block, [CheckSync] accepts exactly the
    heights above the block [nCheckpointSpan] below the best one (above the genesis block on a
    shorter chain): reorganisations cannot go deeper. *)
Theorem CheckSync_span best pprev h : numbered (best :: pprev) ->
  CheckSync (best :: pprev) h = Some (Z.max 0 (nHeight best - nCheckpointSpan) <? h).
Proof.
  intros Hn. unfold CheckSync, AutoSelectSyncCheckpoint.
  destruct (select_sync_numbered (nHeight best) (best :: pprev) best Hn eq_refl) as (s & Es & Hs); [lia|unfold nCheckpointSpan; lia|].
  destruct (select_sync (nHeight best) (best :: pprev)) as [|s' l]; [done|]. injection Es as ->. f_equal. rewrite Hs.
  destruct (Z.leb_spec h (Z.max 0 (nHeight best - nCheckpointSpan))), (Z.ltb_spec (Z.max 0 (nHeight best - nCheckpointSpan)) h); try done; lia.
Qed.

Fixpoint toy_numbers (n : nat) : index_ptr :=
  match n with
  | O => []
  | S n => mk_index (Z.of_nat n) None 0 0 0 (Z.of_nat n) 0 0 0 0 OutPoint.null 0 0 0 0 0 0 0 :: toy_numbers n
  end.
Lemma toy_numbered n : numbered (toy_numbers n).
Proof.
  assert (forall n, length (toy_numbers n) = n) as Hl by (intros k; induction k as [|k IH]; [done|cbn; by rewrite IH]).
  induction n as [|n IH]; [done|]. cbn [toy_numbers numbered]. by rewrite Hl.
Qed.

Lemma CheckSync_span_witness : CheckSync (toy_numbers 601) 100 = Some false /\ CheckSync (toy_numbers 601) 101 = Some true.
Proof.
  change (toy_numbers 601) with (mk_index 600 None 0 0 0 600 0 0 0 0 OutPoint.null 0 0 0 0 0 0 0 :: toy_numbers 600).
  split; rewrite CheckSync_span; try reflexivity; exact (toy_numbered 601).
Defined.
End CheckpointFacts.
