(* ===== verification/Activate.v ===== *)
(** * Activate: the block tree and the best chain (src/src/main.cpp)

    [AddToBlockIndex], [SetBestChain], [SetBestChainInner], [Reorganize] and
    [InvalidChainFound].  The objects of the block index live in a store: a
    [CBlockIndex*] is the hash of the block, and a record holds the object with its
    [pprev].  The functions that only follow [pprev] get the list of objects that they
    would meet ([ptr]).

    A function returns the state with its result; [None] is an exception, a failed
    assertion or a null pointer that is followed. *)

From S2P Require Import Prelude BigNum ScriptOps Serialize Crypto Keys Core SigHash Interp Standard Base58 TxCheck Block Mempool Chain Kernel Connect BlockCheck BlockConnect Accept Checkpoints.

Abbreviation BlockStore := (gmap Z (CBlockIndex * option Z)).

Record ChainState := mk_chain {
  mapBlockIndex : BlockStore;
  pindexGenesisBlock : option Z;
  best_block : option Z;
  hashBestChain : Z;
  best_height : Z;
  nBestChainTrust : Z;
  nBestInvalidTrust : Z;
  setStakeSeen : gset (COutPoint * Z);
  txdb : CTxDB;
  mempool : CTxMemPool;
  cache : CSignatureCache
}.

Module Tree.
(** ** Following [pprev] *)
Fixpoint follow (fuel : nat) (m : BlockStore) (p : option Z) : index_ptr :=
  match fuel, p with
  | S fuel, Some h => match m !! h with Some (b, pprev) => b :: follow fuel m pprev | None => [] end
  | _, _ => []
  end.
(** No chain is longer than the store. *)
Definition ptr (m : BlockStore) (p : option Z) : index_ptr := follow (size m) m p.

Definition with_pnext (next : option Z) (b : CBlockIndex) : CBlockIndex :=
  mk_index (phashBlock b) next (nFile b) (nBlockPos b) (nChainTrust b) (nHeight b) (nMint b) (nMoneySupply b)
    (nFlags b) (nStakeModifier b) (prevoutStake b) (nStakeTime b) (hashProof b)
    (bi_nVersion b) (bi_hashMerkleRoot b) (bi_nTime b) (bi_nBits b) (bi_nNonce b).
Definition set_pnext (h : Z) (next : option Z) (m : BlockStore) : BlockStore :=
  alter (fun n => (with_pnext next n.1, n.2)) h m.
Definition set_object (h : Z) (b : CBlockIndex) (m : BlockStore) : BlockStore := alter (fun n => (b, n.2)) h m.

(** ** The fork of two branches *)
(** The inner loop: [plonger] goes down to a height. *)
Fixpoint descend (fuel : nat) (m : BlockStore) (plonger height : Z) : outcome Z :=
  match fuel with
  | O => Crash
  | S fuel =>
    '(b, pprev) ← access (m !! plonger);
    if height <? nHeight b then
      match pprev with Some p => descend fuel m p height | None => Fail 0 end
    else Ok plonger
  end.

Fixpoint fork_loop (fuel : nat) (m : BlockStore) (pfork plonger : Z) : outcome Z :=
  match fuel with
  | O => Crash
  | S fuel =>
    if pfork =? plonger then Ok pfork else
    '(b, pprev) ← access (m !! pfork);
    plonger ← descend (size m) m plonger (nHeight b);
    if pfork =? plonger then Ok pfork else
    match pprev with Some p => fork_loop fuel m p plonger | None => Fail 0 end
  end.
Definition find_fork (m : BlockStore) (pfork plonger : Z) : outcome Z := fork_loop (size m) m pfork plonger.

(** The blocks from [p] down to [pfork], which is not one of them. *)
Fixpoint branch (fuel : nat) (m : BlockStore) (p : option Z) (pfork : Z) : outcome (list Z) :=
  match fuel with
  | O => Crash
  | S fuel =>
    h ← access p;
    if h =? pfork then Ok [] else
    '(_, pprev) ← access (m !! h);
    l ← branch fuel m pprev pfork;
    Ok (h :: l)
  end.
End Tree.
Export Tree.

Module Activate.
(** The [activeBatch] of a [CTxDB] object: none, or the database as the object reads it, the disk
    with the batch over it ([ScanBatch]).  Writes go to the batch when there is one, else to the
    disk, which is [txdb] of the state. *)
Abbreviation Batch := (option CTxDB).

Section activate.
Context `{BNLib} `{Digests} `{ECLib} `{SigEnv} `{NodeEnv}.
(** The block stored at a position of the block files, and the network. *)
Variable ReadBlock : Z -> Z -> option CBlock.
Variables (TestNet over_free_limit : bool) (HashGenesisBlock : Z).

(** The globals that connecting a block reads. *)
Definition env (s : ChainState) : NodeEnv := {|
  scrypt_blockhash := scrypt_blockhash; ProofOfWorkLimit := ProofOfWorkLimit; adjusted_time := adjusted_time;
  nMaxDatacarrierBytes := nMaxDatacarrierBytes; prefixes := prefixes; nCoinbaseMaturity := nCoinbaseMaturity;
  nStakeMinAge := nStakeMinAge; nStakeMinConfirmations := nStakeMinConfirmations;
  pindexBest := ptr (mapBlockIndex s) (best_block s); nBestHeight := best_height s;
  TotalBlocksEstimate := Checkpoints.GetTotalBlocksEstimate TestNet; mempool_txs := mapTx (mempool s);
  ReadTx := ReadTx; ReadHeader := ReadHeader |}.

Definition BlockHash (b : CBlock) : Z := Block.GetHash scrypt_blockhash b.

(** [block.ReadFromDisk(pindex)]. *)
Definition ReadFromDisk (m : BlockStore) (h : Z) : option CBlock :=
  '(b, _) ← m !! h;
  block ← ReadBlock (nFile b) (nBlockPos b);
  if BlockHash block =? phashBlock b then Some block else None.

Definition with_index (m : BlockStore) (s : ChainState) : ChainState :=
  mk_chain m (pindexGenesisBlock s) (best_block s) (hashBestChain s) (best_height s) (nBestChainTrust s)
    (nBestInvalidTrust s) (setStakeSeen s) (txdb s) (mempool s) (cache s).
Definition with_pool (p : CTxMemPool) (c : CSignatureCache) (s : ChainState) : ChainState :=
  mk_chain (mapBlockIndex s) (pindexGenesisBlock s) (best_block s) (hashBestChain s) (best_height s) (nBestChainTrust s)
    (nBestInvalidTrust s) (setStakeSeen s) (txdb s) p c.
Definition with_db (db : CTxDB) (s : ChainState) : ChainState :=
  mk_chain (mapBlockIndex s) (pindexGenesisBlock s) (best_block s) (hashBestChain s) (best_height s) (nBestChainTrust s)
    (nBestInvalidTrust s) (setStakeSeen s) db (mempool s) (cache s).

(** ** Transactions of the database *)
Definition db_read (s : ChainState) (activeBatch : Batch) : CTxDB := default (txdb s) activeBatch.
Definition db_write (db : CTxDB) (s : ChainState) (activeBatch : Batch) : ChainState * Batch :=
  match activeBatch with Some _ => (s, Some db) | None => (with_db db s, None) end.
(** [assert(!activeBatch)]. *)
Definition TxnBegin (s : ChainState) (activeBatch : Batch) : option Batch :=
  match activeBatch with None => Some (Some (txdb s)) | Some _ => None end.
(** [assert(activeBatch)]. *)
Definition TxnCommit (s : ChainState) (activeBatch : Batch) : option (ChainState * Batch) :=
  db ← activeBatch; Some (with_db db s, None).
Definition TxnAbort (activeBatch : Batch) : Batch := None.

(** ** [InvalidChainFound] *)
(** [CTxDB().WriteBestInvalidTrust] writes through an object of its own, which has no batch. *)
Definition raise_invalid_trust (trust : Z) (s : ChainState) : ChainState :=
  if nBestInvalidTrust s <? trust then
    mk_chain (mapBlockIndex s) (pindexGenesisBlock s) (best_block s) (hashBestChain s) (best_height s)
      (nBestChainTrust s) trust (setStakeSeen s) (TxDB.WriteBestInvalidTrust (txdb s) trust) (mempool s) (cache s)
  else s.

(** The log entries follow [pprev] of the block and of the best block. *)
Definition InvalidChainFound (s : ChainState) (pindexNew : Z) : option ChainState :=
  '(b, pprev) ← mapBlockIndex s !! pindexNew;
  let s := raise_invalid_trust (nChainTrust b) s in
  p ← pprev; _ ← mapBlockIndex s !! p;
  '(best, best_prev) ← (h ← best_block s; mapBlockIndex s !! h);
  _ ← (if nHeight best =? 0 then Some () else p ← best_prev; _ ← mapBlockIndex s !! p; Some ());
  Some s.

(** ** [Reorganize] *)
(** The loop that disconnects, with the transactions to resurrect.  A block that cannot be
    disconnected ends it; what its transactions have written to the batch by then is not kept
    track of, every caller drops the batch. *)
Fixpoint disconnect_blocks (s : ChainState) (activeBatch : Batch) (l : list Z) (vResurrect : list CTransaction) :
    ChainState * Batch * outcome (list CTransaction) :=
  match l with
  | [] => (s, activeBatch, Ok vResurrect)
  | h :: l =>
    match mapBlockIndex s !! h, ReadFromDisk (mapBlockIndex s) h with
    | None, _ => (s, activeBatch, Crash)
    | _, None => (s, activeBatch, Fail 0)
    | Some (b, _), Some block =>
      match DisconnectBlock (db_read s activeBatch) (ptr (mapBlockIndex s) (Some h)) block with
      | Ok db =>
        let '(s, activeBatch) := db_write db s activeBatch in
        let queued := filter (fun tx => negb (Tx.IsCoinBase tx || Tx.IsCoinStake tx)
          && (Checkpoints.GetTotalBlocksEstimate TestNet <? nHeight b) = true) (vtx block) in
        disconnect_blocks s activeBatch l (queued ++ vResurrect)
      | Fail _ => (s, activeBatch, Fail 0)
      | Crash => (s, activeBatch, Crash)
      end
    end
  end.

(** The loop that connects.  The supply recorded in the objects of the blocks connected so far
    stays when a later one fails. *)
Fixpoint connect_blocks (s : ChainState) (activeBatch : Batch) (l : list Z) (c : CSignatureCache) (vDelete : list CTransaction) :
    ChainState * Batch * outcome (CSignatureCache * list CTransaction) :=
  match l with
  | [] => (s, activeBatch, Ok (c, vDelete))
  | h :: l =>
    match ReadFromDisk (mapBlockIndex s) h with
    | None => (s, activeBatch, Fail 0)
    | Some block =>
      match @ConnectBlock _ _ _ _ (env s) (db_read s activeBatch) (ptr (mapBlockIndex s) (Some h)) false block c with
      | Ok (db, this, c) =>
        let '(s, activeBatch) := db_write db (with_index (set_object h this (mapBlockIndex s)) s) activeBatch in
        connect_blocks s activeBatch l c (vDelete ++ vtx block)
      | Fail d => (s, activeBatch, Fail 0)
      | Crash => (s, activeBatch, Crash)
      end
    end
  end.

(** [pindex->pprev->pnext = next] for the blocks of a branch. *)
Definition link_prev (next : Z -> option Z) (m : BlockStore) (h : Z) : BlockStore :=
  match m !! h with Some (_, Some p) => set_pnext p (next h) m | _ => m end.

Fixpoint resurrect (s : ChainState) (l : list CTransaction) : option ChainState :=
  match l with
  | [] => Some s
  | tx :: l =>
    match (@AcceptToMemoryPool _ _ _ _ (env s) TestNet over_free_limit (txdb s) (mempool s) tx false (cache s)).1 with
    | Ok (p, c) => resurrect (with_pool p c s) l
    | Fail _ => resurrect s l
    | Crash => None
    end
  end.

(** [mempool.remove(tx)] and, when [conflicts], [mempool.removeConflicts(tx)]. *)
Fixpoint forget (conflicts : bool) (l : list CTransaction) (p : CTxMemPool) : option CTxMemPool :=
  match l with
  | [] => Some p
  | tx :: l =>
    let fuel q := S (size (mapTx q)) in
    p ← Pool.remove (fuel p) false tx p;
    p ← (if conflicts then Pool.removeConflicts (fuel p) tx p else Some p);
    forget conflicts l p
  end.

(** The memory structures change only once the database has committed. *)
Definition Reorganize (s : ChainState) (activeBatch : Batch) (pindexNew : Z) : option (ChainState * Batch * bool) :=
  best ← best_block s;
  let m := mapBlockIndex s in
  let branches :=
    pfork ← find_fork m best pindexNew;
    vDisconnect ← branch (S (size m)) m (Some best) pfork;
    vConnect ← branch (S (size m)) m (Some pindexNew) pfork;
    Ok (vDisconnect, rev vConnect) in
  match branches with
  | Crash => None
  | Fail _ => Some (s, activeBatch, false)
  | Ok (vDisconnect, vConnect) =>
    match disconnect_blocks s activeBatch vDisconnect [] with
    | (_, _, Crash) => None
    | (s, activeBatch, Fail _) => Some (s, activeBatch, false)
    | (s, activeBatch, Ok vResurrect) =>
      match connect_blocks s activeBatch vConnect (cache s) [] with
      | (_, _, Crash) => None
      | (s, activeBatch, Fail _) => Some (s, activeBatch, false)
      | (s, activeBatch, Ok (c, vDelete)) =>
        '(b, _) ← mapBlockIndex s !! pindexNew;
        let '(s, activeBatch) := db_write (TxDB.WriteHashBestChain (db_read s activeBatch) (phashBlock b)) s activeBatch in
        '(s, activeBatch) ← TxnCommit s activeBatch;
        let m := foldl (link_prev (fun _ => None)) (mapBlockIndex s) vDisconnect in
        let m := foldl (link_prev Some) m vConnect in
        s ← resurrect (with_index m (with_pool (mempool s) c s)) vResurrect;
        p ← forget true vDelete (mempool s);
        Some (with_pool p (cache s) s, activeBatch, true)
      end
    end
  end.

(** ** [SetBestChainInner] *)
Definition SetBestChainInner (s : ChainState) (activeBatch : Batch) (block : CBlock) (pindexNew : Z) :
    option (ChainState * Batch * bool) :=
  match @ConnectBlock _ _ _ _ (env s) (db_read s activeBatch) (ptr (mapBlockIndex s) (Some pindexNew)) false block (cache s) with
  | Crash => None
  | Fail _ =>
    let activeBatch := TxnAbort activeBatch in
    s ← InvalidChainFound s pindexNew;
    Some (s, activeBatch, false)
  | Ok (db, this, c) =>
    let s := with_index (set_object pindexNew this (mapBlockIndex s)) s in
    let '(s, activeBatch) := db_write (TxDB.WriteHashBestChain db (BlockHash block)) s activeBatch in
    '(s, activeBatch) ← TxnCommit s activeBatch;
    '(_, pprev) ← mapBlockIndex s !! pindexNew;
    p ← pprev; _ ← mapBlockIndex s !! p;
    let s := with_index (set_pnext p (Some pindexNew) (mapBlockIndex s)) s in
    pool ← forget false (vtx block) (mempool s);
    Some (with_pool pool c s, activeBatch, true)
  end.

(** ** [SetBestChain] *)
(** The blocks above the first one that has more trust than the best block: [pindexIntermediate]
    and [vpindexSecondary], in the order in which they are connected. *)
Fixpoint intermediate (fuel : nat) (m : BlockStore) (best_trust pindex : Z) (vpindexSecondary : list Z) : option (Z * list Z) :=
  match fuel with
  | O => None
  | S fuel =>
    '(_, pprev) ← m !! pindex;
    match pprev with
    | None => Some (pindex, vpindexSecondary)
    | Some p =>
      '(b, _) ← m !! p;
      if best_trust <? nChainTrust b then intermediate fuel m best_trust p (pindex :: vpindexSecondary)
      else Some (pindex, vpindexSecondary)
    end
  end.

(** Errors end the loop and are not reported. *)
Fixpoint connect_further (s : ChainState) (activeBatch : Batch) (l : list Z) : option (ChainState * Batch) :=
  match l with
  | [] => Some (s, activeBatch)
  | h :: l =>
    match ReadFromDisk (mapBlockIndex s) h with
    | None => Some (s, activeBatch)
    | Some block =>
      activeBatch ← TxnBegin s activeBatch;
      '(s, activeBatch, ok) ← SetBestChainInner s activeBatch block h;
      if (ok : bool) then connect_further s activeBatch l else Some (s, activeBatch)
    end
  end.

(** The database and the index, before the globals are set. *)
Definition connect_best (s : ChainState) (activeBatch : Batch) (block : CBlock) (pindexNew : Z) :
    option (ChainState * Batch * bool) :=
  activeBatch ← TxnBegin s activeBatch;
  if bool_decide (pindexGenesisBlock s = None) && (BlockHash block =? HashGenesisBlock) then
    let '(s, activeBatch) := db_write (TxDB.WriteHashBestChain (db_read s activeBatch) (BlockHash block)) s activeBatch in
    '(s, activeBatch) ← TxnCommit s activeBatch;
    Some (mk_chain (mapBlockIndex s) (Some pindexNew) (best_block s) (hashBestChain s) (best_height s) (nBestChainTrust s)
      (nBestInvalidTrust s) (setStakeSeen s) (txdb s) (mempool s) (cache s), activeBatch, true)
  else if hashPrevBlock block =? hashBestChain s then SetBestChainInner s activeBatch block pindexNew
  else
    '(best, _) ← (h ← best_block s; mapBlockIndex s !! h);
    '(pindexIntermediate, vpindexSecondary) ← intermediate (S (size (mapBlockIndex s))) (mapBlockIndex s) (nChainTrust best) pindexNew [];
    '(s, activeBatch, ok) ← Reorganize s activeBatch pindexIntermediate;
    if negb ok then
      let activeBatch := TxnAbort activeBatch in
      s ← InvalidChainFound s pindexNew;
      Some (s, activeBatch, false)
    else
    '(s, activeBatch) ← connect_further s activeBatch vpindexSecondary;
    Some (s, activeBatch, true).

Definition SetBestChain (s : ChainState) (activeBatch : Batch) (block : CBlock) (pindexNew : Z) :
    option (ChainState * Batch * bool) :=
  '(s, activeBatch, ok) ← connect_best s activeBatch block pindexNew;
  if negb ok then Some (s, activeBatch, false) else
  '(b, pprev) ← mapBlockIndex s !! pindexNew;
  _ ← (if nHeight b =? 0 then Some () else p ← pprev; _ ← mapBlockIndex s !! p; Some ());
  Some (mk_chain (mapBlockIndex s) (pindexGenesisBlock s) (Some pindexNew) (BlockHash block) (nHeight b) (nChainTrust b)
    (nBestInvalidTrust s) (setStakeSeen s) (txdb s) (Pool.AddTransactionsUpdated 1 (mempool s)) (cache s), activeBatch, true).

(** ** [CBlock::AddToBlockIndex] *)
Definition with_tree (height trust proof : Z) (hash : Z) (b : CBlockIndex) : CBlockIndex :=
  mk_index hash (pnext b) (nFile b) (nBlockPos b) trust height (nMint b) (nMoneySupply b)
    (nFlags b) (nStakeModifier b) (prevoutStake b) (nStakeTime b) proof
    (bi_nVersion b) (bi_hashMerkleRoot b) (bi_nTime b) (bi_nBits b) (bi_nNonce b).

(** The new object; [Fail] is the error, a proof-of-stake block has a kernel. *)
Definition new_index (m : BlockStore) (file blockpos : Z) (block : CBlock) (proof : Z) : outcome (CBlockIndex * option Z) :=
  let hash := BlockHash block in
  let parent := m !! hashPrevBlock block in
  let pprev := if parent then Some (hashPrevBlock block) else None in
  let b := BlockIndex.of_block file blockpos block in
  let b := with_tree (match parent with Some (p, _) => nHeight p + 1 | None => 0 end)
    ((match parent with Some (p, _) => nChainTrust p | None => 0 end + BlockIndex.GetBlockTrust b) mod 2 ^ 256) proof hash b in
  let '(b, ok) := BlockIndex.SetStakeEntropyBit (Block.GetStakeEntropyBit scrypt_blockhash block) b in
  if negb ok then Fail 0 else
  match StakeKernel.ComputeNextStakeModifier (fst <$> m) (ptr m pprev) with
  | None => Fail 0
  | Some (nStakeModifier, fGeneratedStakeModifier) =>
    let b := BlockIndex.SetStakeModifier nStakeModifier fGeneratedStakeModifier b in
    kernel ← (if Block.IsProofOfWork block then Ok hash
              else tx ← access (vtx block !! 1%nat); txin ← access (vin tx !! 0%nat); Ok (o_hash (prevout txin)));
    Ok (BlockIndex.with_modifier (StakeKernel.ComputeStakeModifierV2 (ptr m pprev) kernel) b, pprev)
  end.

Definition AddToBlockIndex (s : ChainState) (block : CBlock) (file blockpos proof : Z) : option (ChainState * bool) :=
  let hash := BlockHash block in
  if bool_decide (is_Some (mapBlockIndex s !! hash)) then Some (s, false) else
  match new_index (mapBlockIndex s) file blockpos block proof with
  | Crash => None
  | Fail _ => Some (s, false)
  | Ok (b, pprev) =>
    let m := <[hash := (b, pprev)]> (mapBlockIndex s) in
    let seen := if BlockIndex.IsProofOfStake b then {[(prevoutStake b, nStakeTime b)]} ∪ setStakeSeen s else setStakeSeen s in
    let s := mk_chain m (pindexGenesisBlock s) (best_block s) (hashBestChain s) (best_height s) (nBestChainTrust s)
      (nBestInvalidTrust s) seen (txdb s) (mempool s) (cache s) in
    activeBatch ← TxnBegin s None;
    let '(s, activeBatch) := db_write (TxDB.WriteBlockIndex (db_read s activeBatch) (TxDB.of_index b (ptr m pprev))) s activeBatch in
    '(s, activeBatch) ← TxnCommit s activeBatch;
    if nBestChainTrust s <? nChainTrust b then '(s, _, ok) ← SetBestChain s activeBatch block hash; Some (s, ok) else Some (s, true)
  end.
End activate.
End Activate.
Export Activate.
