(* ===== verification/ActivateFacts.v ===== *)
(** * ActivateFacts: the fork of two branches, and the invariant of the best chain *)

From S2P Require Import Prelude BigNum ScriptOps Serialize Crypto Keys Core SigHash Interp Standard Base58 TxCheck Block Mempool Chain Kernel Connect BlockCheck BlockConnect BlockConnectFacts Accept Checkpoints Activate.

(** ** The block tree *)
Module TreeFacts.
Section tree.
Variable m : BlockStore.

(** Every block but one has its parent in the store, one below it. *)
Record tree : Prop := {
  tree_root h b : m !! h = Some (b, None) -> nHeight b = 0;
  tree_one h h' b b' : m !! h = Some (b, None) -> m !! h' = Some (b', None) -> h = h';
  tree_parent h b p : m !! h = Some (b, Some p) ->
    0 < nHeight b /\ exists b' pp, m !! p = Some (b', pp) /\ nHeight b = nHeight b' + 1
}.

(** [anc h a]: the block [a] is [h] or is met from it by following [pprev]. *)
Inductive anc : Z -> Z -> Prop :=
| anc_refl h : anc h h
| anc_step h b p a : m !! h = Some (b, Some p) -> anc p a -> anc h a.

Definition height (h : Z) : Z := match m !! h with Some (b, _) => nHeight b | None => 0 end.

Hypothesis wf : tree.

Lemma height_step h b p : m !! h = Some (b, Some p) -> height h = height p + 1 /\ is_Some (m !! p) /\ 0 <= height p.
Proof.
  intros E. destruct (tree_parent wf h b p E) as (Hpos & b' & pp & Ep & Hh). unfold height. rewrite E, Ep.
  split; [done|]. split; [by eexists|lia].
Qed.

Lemma height_nonneg h : 0 <= height h.
Proof.
  unfold height. destruct (m !! h) as [[b [p|]]|] eqn:E; [|by rewrite (tree_root wf h b E)|done].
  destruct (tree_parent wf h b p E) as [? _]. lia.
Qed.

Lemma anc_stored h a : anc h a -> is_Some (m !! h) -> is_Some (m !! a).
Proof. induction 1 as [|h b p a E Ha IH]; [done|]. intros _. apply IH. by apply height_step in E as (_ & ? & _). Qed.

Lemma anc_height h a : anc h a -> height a <= height h.
Proof. induction 1 as [|h b p a E Ha IH]; [done|]. apply height_step in E. lia. Qed.

Lemma anc_trans h a a' : anc h a -> anc a a' -> anc h a'.
Proof. induction 1 as [|h b p a E Ha IH]; [done|]. intros Ha'. apply (anc_step h b p); auto. Qed.

(** Two ancestors of a block are on one line. *)
Lemma anc_linear h a a' : anc h a -> anc h a' -> height a' <= height a -> anc a a'.
Proof.
  intros Ha. revert a'. induction Ha as [h|h b p a E Ha IH]; intros a' Ha' Hh; [done|].
  destruct Ha' as [h|h b' p' a' E' Ha'].
  - apply anc_height in Ha. apply height_step in E. lia.
  - rewrite E in E'. injection E' as <- <-. by apply IH.
Qed.

Lemma anc_same_height h a a' : anc h a -> anc h a' -> height a = height a' -> a = a'.
Proof.
  intros Ha Ha' Hh. assert (anc a a') as H by (apply (anc_linear h); auto; lia).
  destruct H as [|x b p y E H]; [done|]. apply anc_height in H. apply height_step in E. lia.
Qed.

(** A block at height [n] has [n + 1] ancestors, so heights stay below the size of the store. *)
Lemma ancestors_set n h : is_Some (m !! h) -> height h = Z.of_nat n ->
  exists X : gset Z, X ⊆ dom m /\ size X = S n /\ forall a, a ∈ X -> height a <= height h.
Proof.
  revert h. induction n as [|n IH]; intros h Hs Hh.
  - exists {[h]}. split; [apply singleton_subseteq_l; by apply elem_of_dom|]. split; [apply size_singleton|].
    intros a ->%elem_of_singleton. done.
  - destruct Hs as [[b [p|]] E].
    + apply height_step in E as E'. destruct E' as (Hh' & Hp & _). destruct (IH p Hp ltac:(lia)) as (X & HX & Hsize & Hle).
      exists ({[h]} ∪ X). split; [|split].
      * apply union_least; [|done]. apply singleton_subseteq_l, elem_of_dom. by eexists.
      * rewrite size_union, size_singleton; [lia|]. apply disjoint_singleton_l. intros Hx%Hle. lia.
      * intros a [->%elem_of_singleton|Ha%Hle]%elem_of_union; lia.
    + unfold height in Hh. rewrite E, (tree_root wf h b E) in Hh. lia.
Qed.

Lemma height_size h : is_Some (m !! h) -> (Z.to_nat (height h) < size m)%nat.
Proof.
  intros Hs. pose proof (height_nonneg h). destruct (ancestors_set (Z.to_nat (height h)) h Hs ltac:(lia)) as (X & HX & Hsize & _).
  apply subseteq_size in HX. rewrite size_dom in HX. lia.
Qed.

(** *** The loops *)
Lemma descend_spec fuel h k : is_Some (m !! h) -> 0 <= k -> (Z.to_nat (height h - k) < fuel)%nat ->
  exists h', descend fuel m h k = Ok h' /\ anc h h' /\ height h' = Z.min (height h) k.
Proof.
  revert h. induction fuel as [|fuel IH]; intros h Hs Hk Hf; [lia|]. cbn [descend]. destruct Hs as [[b pprev] E].
  assert (nHeight b = height h) as Hb by (unfold height; by rewrite E). rewrite E. cbn [access mbind outcome_bind]. rewrite Hb.
  destruct (Z.ltb_spec k (height h)).
  - destruct pprev as [p|].
    + apply height_step in E as E'. destruct E' as (Hh & Hp & _). destruct (IH p Hp Hk) as (h' & -> & Ha & Hh'); [lia|].
      exists h'. split; [done|]. split; [by apply (anc_step h b p)|]. lia.
    + apply tree_root in E; [|done]. lia.
  - exists h. split; [done|]. split; [constructor|lia].
Qed.

(** The last common ancestor. *)
Definition meet (x y f : Z) : Prop := anc x f /\ anc y f /\ forall a, anc x a -> anc y a -> anc f a.

Lemma meet_step_right x y y' f : anc y y' -> height y' = Z.min (height y) (height x) -> meet x y' f -> meet x y f.
Proof.
  intros Hy Hh (Hx & Hy' & Hleast). split; [done|]. split; [by apply (anc_trans y y')|].
  intros a Hxa Hya. apply Hleast; [done|]. apply (anc_linear y); [done|done|].
  apply anc_height in Hxa, Hya. lia.
Qed.

Lemma meet_step_left x b p y f : m !! x = Some (b, Some p) -> ~ anc y x -> meet p y f -> meet x y f.
Proof.
  intros E Hx (Hp & Hy & Hleast). split; [by apply (anc_step x b p)|]. split; [done|].
  intros a Hxa Hya. apply Hleast; [|done]. destruct Hxa as [x|x b' p' a E' Ha]; [done|].
  rewrite E in E'. by injection E' as <- <-.
Qed.

Lemma fork_loop_spec fuel x y : is_Some (m !! x) -> is_Some (m !! y) -> (Z.to_nat (height x) < fuel)%nat ->
  exists f, fork_loop fuel m x y = Ok f /\ meet x y f.
Proof.
  revert x y. induction fuel as [|fuel IH]; intros x y Hx Hy Hf; [lia|]. cbn [fork_loop].
  destruct (Z.eqb_spec x y) as [->|Hne].
  { exists y. split; [done|]. split; [constructor|]. split; [constructor|done]. }
  destruct Hx as [[b pprev] E].
  assert (nHeight b = height x) as Hb by (unfold height; by rewrite E). rewrite E. cbn [access mbind outcome_bind]. rewrite Hb.
  destruct (descend_spec (size m) y (height x) Hy (height_nonneg x)) as (y' & -> & Hy' & Hh').
  { pose proof (height_size y Hy). pose proof (height_nonneg x). lia. }
  cbn [mbind outcome_bind]. destruct (Z.eqb_spec x y') as [->|Hne'].
  { exists y'. split; [done|]. split; [constructor|]. split; [done|done]. }
  assert (is_Some (m !! y')) as Hs' by (by apply (anc_stored y)).
  destruct pprev as [p|].
  - apply height_step in E as E'. destruct E' as (Hh & Hp & _).
    destruct (IH p y' Hp Hs') as (f & -> & Hmeet); [pose proof (height_nonneg p); lia|].
    exists f. split; [done|]. apply (meet_step_right x y y' f Hy'); [lia|]. apply (meet_step_left x b p); [done| |done].
    intros Ha. pose proof (anc_height _ _ Ha). apply Hne'. apply (anc_same_height y'); [done|constructor|lia].
  - exfalso. pose proof (height_nonneg y'). apply tree_root in E as E0; [|done].
    destruct Hs' as [[b' [p'|]] E']; [apply height_step in E' as Hq; pose proof (height_nonneg p'); lia|].
    apply Hne'. by apply (tree_one wf x y' b b').
Qed.
End tree.

(** C19. In a block tree the search for the fork of two branches terminates, within the fuel of the
    model, and finds the last common ancestor of the two blocks. *)
Theorem find_fork_meet m x y : tree m -> is_Some (m !! x) -> is_Some (m !! y) ->
  exists f, find_fork m x y = Ok f /\ meet m x y f.
Proof. intros Ht Hx Hy. apply fork_loop_spec; [done|done|done|]. by apply height_size. Qed.
End TreeFacts.

(** ** What activating a chain leaves alone *)
Module ActivateFacts.
Section activate.
Context `{BNLib} `{Digests} `{ECLib} `{SigEnv} `{NodeEnv}.
Context (ReadBlock : Z -> Z -> option CBlock) (TestNet over_free_limit : bool) (HashGenesisBlock : Z).

(** The part of an object that never changes once it is in the store. *)
Definition shape (n : CBlockIndex * option Z) : Z * Z * Z * option Z :=
  (phashBlock n.1, nHeight n.1, nChainTrust n.1, n.2).
Definition same_blocks (m m' : BlockStore) : Prop := shape <$> m = shape <$> m'.
#[local] Instance same_blocks_equiv : Equivalence same_blocks.
Proof. split; unfold same_blocks; [done|by intros m m' ->|by intros m m' m'' -> ->]. Qed.

Lemma same_lookup m m' h n : same_blocks m m' -> m !! h = Some n -> exists n', m' !! h = Some n' /\ shape n' = shape n.
Proof.
  intros Hs E. assert (shape <$> m' !! h = Some (shape n)) as E' by (by rewrite <- lookup_fmap, <- Hs, lookup_fmap, E).
  apply fmap_Some in E' as (n' & E' & Hn). by exists n'.
Qed.

Lemma alter_same h f m : (forall n, m !! h = Some n -> shape (f n) = shape n) -> same_blocks m (alter f h m).
Proof.
  intros Hf. unfold same_blocks. apply map_eq. intros h'. rewrite !lookup_fmap.
  destruct (decide (h' = h)) as [->|Hne]; [|by rewrite lookup_alter_ne].
  rewrite lookup_alter_eq. destruct (m !! h) as [n|] eqn:E; [|done]. cbn. by rewrite Hf.
Qed.
Lemma set_pnext_same h next m : same_blocks m (set_pnext h next m).
Proof. by apply alter_same. Qed.
Lemma link_prev_same next l m : same_blocks m (foldl (link_prev next) m l).
Proof.
  revert m. induction l as [|h l IH]; intros m; [done|]. cbn [foldl]. rewrite <- IH. unfold link_prev.
  destruct (m !! h) as [[b [p|]]|]; [apply set_pnext_same|done|done].
Qed.

Lemma ptr_cons m h b pp : m !! h = Some (b, pp) -> exists l, ptr m (Some h) = b :: l.
Proof.
  intros E. unfold ptr. destruct (size m) eqn:Es.
  - apply map_size_empty_inv in Es. subst. by rewrite lookup_empty in E.
  - cbn [follow]. rewrite E. by eexists.
Qed.
Lemma ptr_None m h : m !! h = None -> ptr m (Some h) = [].
Proof. intros E. unfold ptr. destruct (size m); [done|]. cbn [follow]. by rewrite E. Qed.

(** The objects are the same but for the mint and the supply that [ConnectBlock] records. *)
Definition recorded (m m' : BlockStore) : Prop :=
  forall h, exists mint supply, m' !! h = (fun n => (with_mint mint supply n.1, n.2)) <$> m !! h.
#[local] Instance recorded_preorder : PreOrder recorded.
Proof.
  split.
  - intros m h. destruct (m !! h) as [[[] p]|]; [by eexists _, _|by exists 0, 0].
  - intros m m' m'' Ha Hb h. destruct (Ha h) as (i & j & Ea), (Hb h) as (k & l & Eb). exists k, l.
    rewrite Eb, Ea. by destruct (m !! h).
Qed.
Lemma record_object m h b p mint supply : m !! h = Some (b, p) -> recorded m (set_object h (with_mint mint supply b) m).
Proof.
  intros E h'. unfold set_object. destruct (decide (h' = h)) as [->|Hne].
  - exists mint, supply. by rewrite lookup_alter_eq, E.
  - rewrite lookup_alter_ne by done. exact (@reflexivity _ recorded _ m h').
Qed.

Lemma connect_same E m h db j block c db' this c' :
  @ConnectBlock _ _ _ _ E db (ptr m (Some h)) j block c = Ok (db', this, c') ->
  same_blocks m (set_object h this m) /\ recorded m (set_object h this m).
Proof.
  intros Ec. destruct (m !! h) as [[b pp]|] eqn:Eh.
  - destruct (ptr_cons m h b pp Eh) as [l El]. rewrite El in Ec.
    apply BlockConnectTheorems.ConnectBlock_Ok in Ec as (_ & s & _ & _ & _ & -> & _).
    split; [|by apply (record_object m h b pp)]. apply alter_same. intros n. rewrite Eh. by intros [= <-].
  - rewrite (ptr_None m h Eh) in Ec. unfold ConnectBlock in Ec. by destruct (CheckBlock _ _ _ _ _ _ _ _).
Qed.

(** The globals of the best chain and the shape of the index are as before. *)
Record moved (s s' : ChainState) : Prop := {
  mv_blocks : same_blocks (mapBlockIndex s) (mapBlockIndex s');
  mv_genesis : pindexGenesisBlock s' = pindexGenesisBlock s;
  mv_best : best_block s' = best_block s;
  mv_hash : hashBestChain s' = hashBestChain s;
  mv_height : best_height s' = best_height s;
  mv_trust : nBestChainTrust s' = nBestChainTrust s;
  mv_seen : setStakeSeen s' = setStakeSeen s
}.
(** Besides, the database on disk, the pool, the signature cache and the trust of the best
    invalid chain are as before. *)
Record kept (s s' : ChainState) : Prop := {
  kp_moved : moved s s';
  kp_index : recorded (mapBlockIndex s) (mapBlockIndex s');
  kp_db : txdb s' = txdb s;
  kp_pool : mempool s' = mempool s;
  kp_cache : cache s' = cache s;
  kp_trust : nBestInvalidTrust s' = nBestInvalidTrust s
}.
(** All is as before but for the trust of the best invalid chain, which the block [h] raises to its
    own when that is more: in memory, and then on disk too. *)
Record refused (h : Z) (s s' : ChainState) : Prop := {
  rf_moved : moved s s';
  rf_index : recorded (mapBlockIndex s) (mapBlockIndex s');
  rf_pool : mempool s' = mempool s;
  rf_cache : cache s' = cache s;
  rf_tx_index : tx_index (txdb s') = tx_index (txdb s);
  rf_block_index : block_index (txdb s') = block_index (txdb s);
  rf_best : db_hashBestChain (txdb s') = db_hashBestChain (txdb s);
  rf_trust : exists b pprev, mapBlockIndex s !! h = Some (b, pprev) /\
    nBestInvalidTrust s' = Z.max (nBestInvalidTrust s) (nChainTrust b) /\
    db_bestInvalidTrust (txdb s') =
      if nBestInvalidTrust s <? nChainTrust b then Some (nChainTrust b) else db_bestInvalidTrust (txdb s)
}.

#[local] Instance moved_preorder : PreOrder moved.
Proof.
  split; [by split|]. intros s s' s'' [] []. split; try (etransitivity; eassumption). all: congruence.
Qed.

Lemma moved_with_index s m : same_blocks (mapBlockIndex s) m -> moved s (with_index m s).
Proof. by split. Qed.

(** Marking a chain as invalid after an attempt that changed nothing else. *)
Lemma InvalidChainFound_refused s s1 h s' : kept s s1 -> InvalidChainFound s1 h = Some s' -> refused h s s'.
Proof.
  intros [Hm Hi Hdb Hp Hc Ht]. unfold InvalidChainFound. destruct (mapBlockIndex s1 !! h) as [[b pp]|] eqn:Eh; [|done].
  assert (exists b0 pp0, mapBlockIndex s !! h = Some (b0, pp0) /\ nChainTrust b0 = nChainTrust b) as (b0 & pp0 & E0 & Eb).
  { destruct (same_lookup (mapBlockIndex s1) (mapBlockIndex s) h _ (symmetry (mv_blocks _ _ Hm)) Eh) as ([b0 pp0] & E0 & Hn).
    exists b0, pp0. split; [done|]. unfold shape in Hn. cbn in Hn. congruence. }
  cbn [mbind option_bind]. cbv zeta. set (s2 := raise_invalid_trust _ s1).
  destruct pp as [p|]; [|done]. cbn [mbind option_bind].
  destruct (mapBlockIndex s2 !! p); [|done]. cbn [mbind option_bind]. destruct (best_block s2 ≫= _) as [[best bp]|]; [|done]. cbn [mbind option_bind].
  destruct (if nHeight best =? 0 then _ else _); [|done]. cbn [mbind option_bind]. intros [= <-].
  unfold s2, raise_invalid_trust. rewrite Ht. destruct (Z.ltb_spec (nBestInvalidTrust s) (nChainTrust b)).
  - split; cbn; rewrite ?Hdb; try done.
    + destruct Hm. by split.
    + exists b0, pp0. split; [done|]. rewrite Eb, (proj2 (Z.ltb_lt _ _)) by done. split; [lia|done].
  - split; rewrite ?Hdb; try done. exists b0, pp0. split; [done|]. rewrite Eb, (proj2 (Z.ltb_ge _ _)) by done. split; [lia|done].
Qed.

(** In a transaction the loops write to the batch only. *)
Lemma disconnect_blocks_same s db l res s' batch r :
  disconnect_blocks ReadBlock TestNet s (Some db) l res = (s', batch, r) -> s' = s /\ is_Some batch.
Proof.
  revert db res. induction l as [|h l IH]; intros db res E; cbn [disconnect_blocks] in E; [by injection E as <- <- _|].
  destruct (mapBlockIndex s !! h) as [[b pp]|]; [|by injection E as <- <- _].
  destruct (ReadFromDisk _ _ _) as [block|]; [|by injection E as <- <- _].
  destruct (DisconnectBlock _ _ _) as [db'|d|]; [by apply IH in E|by injection E as <- <- _..].
Qed.

Lemma connect_blocks_same s db l c del s' batch r :
  connect_blocks ReadBlock TestNet s (Some db) l c del = (s', batch, r) ->
  is_Some batch /\ exists m, s' = with_index m s /\ same_blocks (mapBlockIndex s) m /\ recorded (mapBlockIndex s) m.
Proof.
  assert (forall s, s = with_index (mapBlockIndex s) s) as Hself by (by intros []).
  revert s db c del. induction l as [|h l IH]; intros s db c del E; cbn [connect_blocks] in E.
  { injection E as <- <- _. split; [done|]. by exists (mapBlockIndex s). }
  destruct (ReadFromDisk _ _ _) as [block|]; [|injection E as <- <- _; split; [done|]; by exists (mapBlockIndex s)].
  destruct (ConnectBlock _ _ _ _ _) as [[[db' this] c']|d|] eqn:Ec;
    [|injection E as <- <- _; split; [done|]; by exists (mapBlockIndex s)..].
  apply connect_same in Ec as [Hs Hr]. cbn [db_write] in E. apply IH in E as (Hb & m & -> & Hm & Hrm). split; [done|].
  exists m. split; [done|]. split; etransitivity; eassumption.
Qed.

Lemma resurrect_moved s l s' : resurrect TestNet over_free_limit s l = Some s' ->
  exists p c, s' = with_pool p c s.
Proof.
  revert s. induction l as [|tx l IH]; intros s E; cbn [resurrect] in E.
  { injection E as <-. exists (mempool s), (cache s). by destruct s. }
  destruct (AcceptToMemoryPool _ _ _ _ _ _ _) as [[[p c]|d|] b]; cbn in E; [|by apply IH in E|done].
  apply IH in E as (p' & c' & ->). by exists p', c'.
Qed.

(** In a transaction [SetBestChainInner] ends it: it commits it, or drops it. *)
Lemma SetBestChainInner_spec s block h s' batch ok :
  SetBestChainInner TestNet s (Some (txdb s)) block h = Some (s', batch, ok) ->
  batch = None /\
  if ok then moved s s' /\ db_hashBestChain (txdb s') = Some (BlockHash block) else refused h s s'.
Proof.
  unfold SetBestChainInner. destruct (ConnectBlock _ _ _ _ _) as [[[db this] c]|d|] eqn:Ec; [|..|done].
  - apply connect_same in Ec as [Hs _]. cbn.
    destruct (set_object h this (mapBlockIndex s) !! h) as [[b [p|]]|]; [|done|done]. cbn.
    destruct (set_object h this (mapBlockIndex s) !! p); [|done]. cbn.
    destruct (forget _ _ _) as [pool|]; [|done]. intros [= <- <- <-]. split; [done|]. split; [|done]. split; try done. cbn.
    etransitivity; [exact Hs|]. apply set_pnext_same.
  - intros E. destruct (InvalidChainFound s h) as [s1|] eqn:Ei; [|done]. injection E as <- <- <-. split; [done|].
    apply (InvalidChainFound_refused s s); [by split|done].
Qed.

Lemma Reorganize_spec s h s' batch ok :
  Reorganize ReadBlock TestNet over_free_limit s (Some (txdb s)) h = Some (s', batch, ok) ->
  if ok then batch = None /\ moved s s' else kept s s'.
Proof.
  unfold Reorganize. destruct (best_block s) as [best|]; [|done]. cbn [mbind option_bind].
  destruct (_ ≫= _) as [[vd vc]|d|]; [|by intros [= <- <- <-]|done].
  destruct (disconnect_blocks _ _ _ _ _ _) as [[s0 b0] r0] eqn:Ed.
  apply disconnect_blocks_same in Ed as [-> [db ->]].
  destruct r0 as [vr|d|]; [|by intros [= <- <- <-]|done].
  destruct (connect_blocks _ _ _ _ _ _ _) as [[s1 b1] r1] eqn:Ec.
  apply connect_blocks_same in Ec as ([db1 ->] & m & -> & Hm & Hrm).
  destruct r1 as [[c1 del]|d|]; [|intros [= <- <- <-]; split; [by apply moved_with_index|done..]|done].
  cbn. destruct (m !! h) as [[b pp]|]; [|done]. cbn.
  destruct (resurrect _ _ _ _) as [s2|] eqn:Er; [|done]. cbn.
  apply resurrect_moved in Er as (p & c & ->). destruct (forget _ _ _) as [pool|]; [|done]. intros [= <- <- <-].
  split; [done|]. split; try done. cbn. etransitivity; [exact Hm|]. etransitivity; [apply link_prev_same|apply link_prev_same].
Qed.

Lemma connect_further_moved s l s' batch :
  connect_further ReadBlock TestNet s None l = Some (s', batch) -> batch = None /\ moved s s'.
Proof.
  revert s. induction l as [|h l IH]; intros s E; cbn [connect_further] in E; [by injection E as <- <-|].
  destruct (ReadFromDisk _ _ _) as [block|]; [|by injection E as <- <-]. cbn [TxnBegin mbind option_bind] in E.
  destruct (SetBestChainInner _ _ _ _ _) as [[[s1 b1] ok]|] eqn:Ei; [|done]. cbn in E.
  apply SetBestChainInner_spec in Ei as [-> Ei]. destruct ok; [|injection E as <- <-; split; [done|]; apply Ei].
  apply IH in E as [-> E]. split; [done|]. etransitivity; [apply Ei|exact E].
Qed.

Lemma connect_best_spec s block h s' batch ok :
  connect_best ReadBlock TestNet over_free_limit HashGenesisBlock s None block h = Some (s', batch, ok) ->
  batch = None /\
  if ok then same_blocks (mapBlockIndex s) (mapBlockIndex s') /\ setStakeSeen s' = setStakeSeen s else refused h s s'.
Proof.
  unfold connect_best. cbn [TxnBegin mbind option_bind]. destruct (bool_decide _ && _); [by intros [= <- <- <-]|].
  destruct (_ =? hashBestChain s).
  { intros [-> E]%SetBestChainInner_spec. split; [done|]. destruct ok; [|done]. split; apply E. }
  destruct (best_block s ≫= _) as [[best bp]|]; [|done]. cbn [mbind option_bind].
  destruct (intermediate _ _ _ _ _) as [[inter further]|]; [|done]. cbn.
  destruct (Reorganize _ _ _ _ _ _) as [[[s1 b1] ok1]|] eqn:Er; [|done]. cbn. apply Reorganize_spec in Er.
  destruct ok1; cbn [negb].
  - destruct Er as [-> Er]. destruct (connect_further _ _ _ _ _) as [[s2 b2]|] eqn:Ef; [|done]. intros [= <- <- <-].
    apply connect_further_moved in Ef as [-> Ef]. assert (moved s s2) as Hm by (etransitivity; eassumption).
    split; [done|]. split; apply Hm.
  - destruct (InvalidChainFound s1 h) as [s2|] eqn:Ei; [|done]. intros [= <- <- <-]. split; [done|].
    by apply (InvalidChainFound_refused s s1).
Qed.

(** What [SetBestChain] reports. *)
Lemma SetBestChain_cases s block h s' batch ok :
  SetBestChain ReadBlock TestNet over_free_limit HashGenesisBlock s None block h = Some (s', batch, ok) ->
  batch = None /\
  if ok then
    same_blocks (mapBlockIndex s) (mapBlockIndex s') /\ setStakeSeen s' = setStakeSeen s /\
    best_block s' = Some h /\ hashBestChain s' = BlockHash block /\
    exists n, mapBlockIndex s' !! h = Some n /\ best_height s' = nHeight n.1 /\ nBestChainTrust s' = nChainTrust n.1
  else refused h s s'.
Proof.
  unfold SetBestChain. destruct (connect_best _ _ _ _ _ _ _ _) as [[[s1 b1] ok1]|] eqn:Ec; [|done]. cbn.
  apply connect_best_spec in Ec as [-> Ec]. destruct ok1; cbn [negb]; [|by intros [= <- <- <-]].
  destruct (mapBlockIndex s1 !! h) as [[b pp]|] eqn:Eh; [|done]. cbn.
  destruct (if nHeight b =? 0 then _ else _); [|done]. intros [= <- <- <-]. destruct Ec as [Hs Hseen]. split; [done|].
  do 4 (split; [done|]). by exists (b, pp).
Qed.

(** C14. When [SetBestChain], called outside a transaction of the database, refuses a block, the
    transaction it began is over and what went to its batch is gone: the transaction
    index, the block records and the best hash on disk, the memory pool, the signature
    cache and the globals of the best chain are what they were.  What changes is the trust
    of the best invalid chain, raised to that of the refused block where that is more, in
    memory and on disk; and the objects of the index may keep the mint and the supply
    recorded while they were being connected, but are otherwise the same. *)
Theorem SetBestChain_atomic s block h s' activeBatch :
  SetBestChain ReadBlock TestNet over_free_limit HashGenesisBlock s None block h = Some (s', activeBatch, false) ->
  activeBatch = None /\ refused h s s'.
Proof. apply SetBestChain_cases. Qed.

(** *** The invariant of the best chain *)
(** The globals describe one block of the index; a block is stored under its hash. *)
Record coherent (s : ChainState) : Prop := {
  co_hash h n : mapBlockIndex s !! h = Some n -> phashBlock n.1 = h;
  co_best h : best_block s = Some h -> hashBestChain s = h /\
    exists n, mapBlockIndex s !! h = Some n /\ best_height s = nHeight n.1 /\ nBestChainTrust s = nChainTrust n.1;
  co_new : best_block s = None -> nBestChainTrust s = 0
}.

Lemma same_hashes m m' : same_blocks m m' -> (forall h n, m !! h = Some n -> phashBlock n.1 = h) ->
  forall h n, m' !! h = Some n -> phashBlock n.1 = h.
Proof.
  intros Hs Hm h n E. apply symmetry in Hs. destruct (same_lookup _ _ _ _ Hs E) as (n' & E' & Hn).
  apply Hm in E'. unfold shape in Hn. congruence.
Qed.

Lemma coherent_moved s s' : moved s s' -> coherent s -> coherent s'.
Proof.
  intros [Hs _ Hb Hh Hht Ht _] [C1 C2 C3]. split.
  - by apply (same_hashes _ _ Hs).
  - intros h. rewrite Hb, Hh, Hht, Ht. intros [Eh (n & En & H1' & H2')]%C2. split; [done|].
    destruct (same_lookup _ _ _ _ Hs En) as (n' & En' & Hn). exists n'. unfold shape in Hn. split; [done|]. split; congruence.
  - by rewrite Hb, Ht.
Qed.

Lemma new_index_shape m file blockpos block proof n :
  new_index m file blockpos block proof = Ok n -> phashBlock n.1 = BlockHash block.
Proof.
  unfold new_index. destruct (BlockIndex.SetStakeEntropyBit _ _) as [b ok] eqn:Eb.
  destruct (negb ok); [done|]. destruct (StakeKernel.ComputeNextStakeModifier _ _) as [[modifier gen]|]; [|done].
  destruct (if Block.IsProofOfWork block then _ else _) as [k| |]; [|done|done]. cbn [mbind outcome_bind]. intros [= <-].
  unfold BlockIndex.SetStakeEntropyBit in Eb. destruct (1 <? _); injection Eb as <- _;
    unfold BlockIndex.SetStakeModifier; by destruct gen.
Qed.

(** Adding a block keeps the invariant. *)
Lemma add_best s block file blockpos proof s' ok : coherent s ->
  AddToBlockIndex ReadBlock TestNet over_free_limit HashGenesisBlock s block file blockpos proof = Some (s', ok) ->
  coherent s' /\ nBestChainTrust s <= nBestChainTrust s' /\
  (forall h n, mapBlockIndex s !! h = Some n -> exists n', mapBlockIndex s' !! h = Some n' /\ shape n' = shape n) /\
  (ok = true -> exists n, mapBlockIndex s' !! BlockHash block = Some n /\ nChainTrust n.1 <= nBestChainTrust s').
Proof.
  intros Hc. unfold AddToBlockIndex. case_bool_decide as Hdup.
  { intros [= <- <-]. split; [done|]. split; [done|]. split; [|done]. intros h n E. by exists n. }
  apply eq_None_not_Some in Hdup. destruct (new_index _ _ _ _ _) as [[b pprev]|d|] eqn:En; [|..|done].
  2: { intros [= <- <-]. split; [done|]. split; [done|]. split; [|done]. intros h n E. by exists n. }
  apply new_index_shape in En. cbn in En.
  set (m := <[BlockHash block := (b, pprev)]> (mapBlockIndex s)).
  cbn [TxnBegin TxnCommit db_write db_read default mbind option_bind]. set (s1 := with_db _ _).
  assert (forall h n, mapBlockIndex s !! h = Some n -> m !! h = Some n) as Hold.
  { intros h n E. unfold m. rewrite lookup_insert_ne; [done|]. intros <-. by rewrite Hdup in E. }
  assert (m !! BlockHash block = Some (b, pprev)) as Hnew by apply lookup_insert_eq.
  assert (coherent s1) as Hc1.
  { destruct Hc as [C1 C2 C3]. split; cbn.
    - intros h n [[<- <-]|[_ E]]%lookup_insert_Some; [done|by apply C1].
    - intros h [Eh (n & E & Hn)]%C2. split; [done|]. exists n. split; [by apply Hold|done].
    - done. }
  destruct (Z.ltb_spec (nBestChainTrust s1) (nChainTrust b)) as [Hlt|Hle].
  - destruct (SetBestChain _ _ _ _ _ _ _ _) as [[[s2 b2] ok2]|] eqn:E; [|done]. intros [= -> ->].
    apply SetBestChain_cases in E as [_ E]. destruct ok.
    + destruct E as (Hs & _ & Hb & Hh & n & E & Hht & Ht).
      destruct (same_lookup _ _ _ _ Hs Hnew) as (n' & E' & Hn). rewrite E in E'. injection E' as <-. unfold shape in Hn. cbn in Hn.
      change (nBestChainTrust s1) with (nBestChainTrust s) in Hlt.
      assert (nChainTrust n.1 = nChainTrust b) as Htb by congruence. split; [|split; [lia|split]].
      * split; [apply (same_hashes _ _ Hs), Hc1| |by rewrite Hb]. intros h'. rewrite Hb. intros [= <-]. split; [done|]. by exists n.
      * intros h' n0 E0. apply (same_lookup _ _ _ _ Hs). by apply Hold.
      * intros _. exists n. split; [done|]. lia.
    + destruct E as [Hm _ _ _ _ _ _ _]. split; [by apply (coherent_moved s1)|]. destruct Hm as [Hs _ _ _ _ Ht _].
      change (nBestChainTrust s1) with (nBestChainTrust s) in Ht. split; [lia|]. split; [|done].
      intros h' n0 E0. apply (same_lookup _ _ _ _ Hs). by apply Hold.
  - intros [= <- <-]. split; [done|]. split; [done|]. split; [intros h n E; exists n; split; [by apply Hold|done]|].
    intros _. by exists (b, pprev).
Qed.

(** C13. The best chain is always the one with most trust that was adopted: after [AddToBlockIndex] the
    globals [pindexBest], [hashBestChain], [nBestHeight] and [nBestChainTrust] describe one
    block of the index, the best trust has not gone down, every block stays where it
    was, and if the block was added it is in the index and has no more trust than the best. *)
Theorem AddToBlockIndex_best s block file blockpos proof s' ok : coherent s ->
  AddToBlockIndex ReadBlock TestNet over_free_limit HashGenesisBlock s block file blockpos proof = Some (s', ok) ->
  coherent s' /\ nBestChainTrust s <= nBestChainTrust s' /\
  (forall h n, mapBlockIndex s !! h = Some n -> exists n', mapBlockIndex s' !! h = Some n' /\ shape n' = shape n) /\
  (ok = true -> exists n, mapBlockIndex s' !! BlockHash block = Some n /\ nChainTrust n.1 <= nBestChainTrust s').
Proof. apply add_best. Qed.

(** *** Extending the best chain *)
Lemma remove_single p t : exists p', Pool.remove (S (size (mapTx p))) false t p = Some p' /\
  mapTx p' = delete (Tx.GetHash t) (mapTx p).
Proof.
  cbn [Pool.remove]. destruct (mapTx p !! Tx.GetHash t) eqn:E.
  - eexists. by split.
  - exists p. split; [done|]. by rewrite delete_id.
Qed.

Lemma forget_removes l p : exists p', forget false l p = Some p' /\
  (forall t, t ∈ l -> mapTx p' !! Tx.GetHash t = None) /\ (forall h, mapTx p !! h = None -> mapTx p' !! h = None).
Proof.
  revert p. induction l as [|t l IH]; intros p.
  - exists p. split; [done|]. split; [|done]. intros t Ht. by apply not_elem_of_nil in Ht.
  - cbn [forget]. destruct (remove_single p t) as (p1 & -> & E1). cbn [mbind option_bind].
    destruct (IH p1) as (p' & -> & Hl & Hp). exists p'. split; [done|]. split.
    + intros t' [->|Ht]%elem_of_cons; [|by apply Hl]. apply Hp. by rewrite E1, lookup_delete_eq.
    + intros h Eh. apply Hp. rewrite E1. by apply lookup_delete_None; right.
Qed.

(** C15. A block on top of the best chain that [ConnectBlock] accepts becomes the best block: nothing
    else can make [SetBestChain] fail.  The database then has its transaction index and
    its hash, its parent points to it, and the pool has none of its transactions. *)
Theorem SetBestChain_extends s block h b p db' this c' :
  pindexGenesisBlock s <> None -> hashPrevBlock block = hashBestChain s ->
  mapBlockIndex s !! h = Some (b, Some p) -> is_Some (mapBlockIndex s !! p) ->
  @ConnectBlock _ _ _ _ (env TestNet s) (txdb s) (ptr (mapBlockIndex s) (Some h)) false block (cache s) = Ok (db', this, c') ->
  exists s', SetBestChain ReadBlock TestNet over_free_limit HashGenesisBlock s None block h = Some (s', None, true) /\
    best_block s' = Some h /\ hashBestChain s' = BlockHash block /\
    db_hashBestChain (txdb s') = Some (BlockHash block) /\ tx_index (txdb s') = tx_index db' /\
    (forall t, t ∈ vtx block -> mapTx (mempool s') !! Tx.GetHash t = None) /\
    exists n, mapBlockIndex s' !! p = Some n /\ pnext n.1 = Some h.
Proof.
  intros Hg Hprev Eh Hp Ec. unfold SetBestChain, connect_best. cbn [TxnBegin mbind option_bind]. rewrite bool_decide_eq_false_2 by done. cbn [andb].
  rewrite Hprev, Z.eqb_refl. unfold SetBestChainInner. change (db_read s (Some (txdb s))) with (txdb s). rewrite Ec.
  cbn [db_write TxnCommit mbind option_bind mapBlockIndex with_index with_db mempool].
  set (m := set_object h this (mapBlockIndex s)).
  assert (m !! h = Some (this, Some p)) as E1 by (unfold m, set_object; by rewrite lookup_alter_eq, Eh).
  assert (is_Some (m !! p)) as [n En] by (unfold m, set_object; by apply lookup_alter_is_Some).
  rewrite E1. cbn [mbind option_bind]. rewrite En. cbn [mbind option_bind].
  destruct (forget_removes (vtx block) (mempool s)) as (pool & -> & Hl & _). cbn [mbind option_bind negb mapBlockIndex with_pool with_index].
  set (m2 := set_pnext p (Some h) m).
  assert (exists b2, m2 !! h = Some (b2, Some p)) as [b2 E2].
  { unfold m2, set_pnext. destruct (decide (h = p)) as [<-|Hne]; [rewrite lookup_alter_eq, E1; by eexists|].
    rewrite lookup_alter_ne, E1 by done. by eexists. }
  assert (m2 !! p = Some (with_pnext (Some h) n.1, n.2)) as E3 by (unfold m2, set_pnext; by rewrite lookup_alter_eq, En).
  rewrite E2. cbn [mbind option_bind].
  assert ((if nHeight b2 =? 0 then Some () else _ ← m2 !! p; Some ()) = Some ()) as E4 by (rewrite E3; by destruct (_ =? _)).
  cbn [mbind option_bind] in E4 |- *. rewrite E4.
  eexists. split; [reflexivity|]. do 4 (split; [done|]). split; [exact Hl|]. eexists. by split.
Qed.
End activate.
End ActivateFacts.
