(* ===== verification/AcceptBlock.v ===== *)
(** * AcceptBlock: the checks of a block in its context (src/src/main.cpp)

    [AcceptBlock] of [CBlock]: what a block must satisfy on top of its parent before it
    enters the index (Activate). *)

From S2P Require Import Prelude BigNum ScriptOps Serialize Crypto Keys Core SigHash Interp Standard Base58 TxCheck Block Mempool Chain Kernel Connect BlockCheck BlockConnect Accept Checkpoints Activate ActivateFacts.
Import Check ActivateFacts.

Module AcceptBlock.
Section accept.
Context `{BNLib} `{Digests} `{ECLib} `{SigEnv} `{NodeEnv}.
Variable ReadBlock : Z -> Z -> option CBlock.
Variables (TestNet over_free_limit : bool) (HashGenesisBlock LastPOWBlock bnProofOfStakeLimit : Z).
(** Where the block is written, if the disk has room. *)
Variable WriteToDisk : CBlock -> option (Z * Z).

(** The checks against the parent that need no proof. *)
Definition check_context (s : ChainState) (block : CBlock) (prev : CBlockIndex) (pindexPrev : index_ptr) : outcome () :=
  let height := nHeight prev + 1 in
  let time := BlockCheck.GetBlockTime block in
  _ ← reject_if (b_nVersion block <? 7) 100;
  _ ← reject_if (Block.IsProofOfWork block && (LastPOWBlock <? height)) 100;
  coinbase ← access (vtx block !! 0%nat);
  _ ← reject_if (FutureDrift (nTime coinbase) <? time) 50;
  _ ← (if Block.IsProofOfStake block then
         coinstake ← access (vtx block !! 1%nat);
         reject_if (negb (StakeKernel.CheckCoinStakeTimestamp time (nTime coinstake))) 50
       else Ok ());
  target ← access (Difficulty.GetNextTargetRequired ProofOfWorkLimit bnProofOfStakeLimit pindexPrev (Block.IsProofOfStake block));
  _ ← reject_if (negb (nBits block =? target)) 100;
  _ ← reject_if ((time <=? BlockIndex.GetPastTimeLimit prev) || (FutureDrift time <? BlockIndex.GetBlockTime prev)) 0;
  _ ← reject_if (negb (forallb (fun tx => IsFinalTx (best_height s) adjusted_time tx height time) (vtx block))) 10;
  reject_if (negb (Checkpoints.CheckHardened TestNet height (BlockHash block))) 100.

(** [hashProof] and the signature cache. *)
Definition check_proof (s : ChainState) (block : CBlock) (pindexPrev : index_ptr) : outcome (Z * CSignatureCache) :=
  if Block.IsProofOfStake block then
    coinstake ← access (vtx block !! 1%nat);
    '(hashProof, _, c) ← keep_points (StakeKernel.CheckProofOfStake nStakeMinAge nStakeMinConfirmations (tx_index (txdb s)) ReadTx
      ReadHeader pindexPrev coinstake (nBits block) (cache s));
    Ok (hashProof, c)
  else Ok (Block.GetPoWHash scrypt_blockhash block, cache s).

(** The coinbase script starts with the height. *)
Definition starts_with_height (block : CBlock) (height : Z) : outcome bool :=
  coinbase ← access (vtx block !! 0%nat);
  txin ← access (vin coinbase !! 0%nat);
  let expect := CScript.push_int64 [] height in
  Ok (bool_decide (take (length expect) (scriptSig txin) = expect)).

Definition check_accept (s : ChainState) (block : CBlock) : outcome (Z * CSignatureCache) :=
  _ ← reject_if (Block.CURRENT_VERSION <? b_nVersion block) 100;
  _ ← reject_if (bool_decide (is_Some (mapBlockIndex s !! BlockHash block))) 0;
  match mapBlockIndex s !! hashPrevBlock block with
  | None => Fail 10
  | Some (prev, _) =>
    let pindexPrev := ptr (mapBlockIndex s) (Some (hashPrevBlock block)) in
    _ ← check_context s block prev pindexPrev;
    '(hashProof, c) ← check_proof s block pindexPrev;
    synced ← access (Checkpoints.CheckSync (ptr (mapBlockIndex s) (best_block s)) (nHeight prev + 1));
    _ ← reject_if (negb synced) 0;
    starts ← starts_with_height block (nHeight prev + 1);
    _ ← reject_if (negb starts) 100;
    Ok (hashProof, c)
  end.

(** The state and the verdict; [None] as in Activate. *)
Definition AcceptBlock (s : ChainState) (block : CBlock) : option (ChainState * verdict) :=
  match check_accept s block with
  | Crash => None
  | Fail nDoS => Some (s, Reject nDoS)
  | Ok (hashProof, c) =>
    let s := with_pool (mempool s) c s in
    match WriteToDisk block with
    | None => Some (s, Reject 0)
    | Some (file, blockpos) =>
      '(s, ok) ← AddToBlockIndex ReadBlock TestNet over_free_limit HashGenesisBlock s block file blockpos hashProof;
      Some (s, if (ok : bool) then TxCheck.Accept else Reject 0)
    end
  end.
End accept.
End AcceptBlock.
Export AcceptBlock.

(** ** Facts *)
Module AcceptBlockFacts.
Section facts.
Context `{BNLib} `{Digests} `{ECLib} `{SigEnv} `{NodeEnv}.
Context (ReadBlock : Z -> Z -> option CBlock) (TestNet over_free_limit : bool).
Context (HashGenesisBlock LastPOWBlock bnProofOfStakeLimit : Z) (WriteToDisk : CBlock -> option (Z * Z)).

(** What the context requires of a block on top of [prev]. *)
Record fits (s : ChainState) (block : CBlock) (prev : CBlockIndex) : Prop := {
  fit_version : b_nVersion block = 7;
  fit_new : mapBlockIndex s !! BlockHash block = None;
  fit_pow : Block.IsProofOfWork block = true -> nHeight prev + 1 <= LastPOWBlock;
  fit_target : Difficulty.GetNextTargetRequired ProofOfWorkLimit bnProofOfStakeLimit
    (ptr (mapBlockIndex s) (Some (hashPrevBlock block))) (Block.IsProofOfStake block) = Some (nBits block);
  fit_time : bi_nTime prev < b_nTime block;
  fit_final : Forall (fun tx => IsFinalTx (best_height s) adjusted_time tx (nHeight prev + 1) (b_nTime block) = true) (vtx block);
  fit_checkpoint : Checkpoints.CheckHardened TestNet (nHeight prev + 1) (BlockHash block) = true;
  fit_sync : Checkpoints.CheckSync (ptr (mapBlockIndex s) (best_block s)) (nHeight prev + 1) = Some true;
  fit_height : exists coinbase txin, vtx block !! 0%nat = Some coinbase /\ vin coinbase !! 0%nat = Some txin /\
    CScript.push_int64 [] (nHeight prev + 1) `prefix_of` scriptSig txin;
  fit_stake : Block.IsProofOfStake block = true -> exists coinstake proof target c,
    vtx block !! 1%nat = Some coinstake /\ nTime coinstake = b_nTime block /\ Z.land (nTime coinstake) 15 = 0 /\
    StakeKernel.CheckProofOfStake nStakeMinAge nStakeMinConfirmations (tx_index (txdb s)) ReadTx ReadHeader
      (ptr (mapBlockIndex s) (Some (hashPrevBlock block))) coinstake (nBits block) (cache s) = Ok (proof, target, c)
}.

Lemma starts_with_height_true block h : starts_with_height block h = Ok true ->
  exists coinbase txin, vtx block !! 0%nat = Some coinbase /\ vin coinbase !! 0%nat = Some txin /\
    CScript.push_int64 [] h `prefix_of` scriptSig txin.
Proof.
  intros E. apply bind_Ok in E as (cb & Ec%access_Ok & E). apply bind_Ok in E as (txin & Ei%access_Ok & E).
  injection E as E. apply bool_decide_eq_true in E. exists cb, txin. split; [done|]. split; [done|].
  exists (drop (length (CScript.push_int64 [] h)) (scriptSig txin)).
  rewrite <- (take_drop (length (CScript.push_int64 [] h)) (scriptSig txin)) at 1. by rewrite E.
Qed.

Lemma check_accept_fits s block r : check_accept TestNet LastPOWBlock bnProofOfStakeLimit s block = Ok r ->
  exists prev pp, mapBlockIndex s !! hashPrevBlock block = Some (prev, pp) /\ fits s block prev.
Proof.
  unfold check_accept. intros E. apply bind_Ok in E as (u1 & E1%reject_if_Ok & E).
  apply bind_Ok in E as (u2 & E2%reject_if_Ok & E). apply bool_decide_eq_false, eq_None_not_Some in E2.
  destruct (mapBlockIndex s !! hashPrevBlock block) as [[prev pp]|]; [|done]. exists prev, pp. split; [done|].
  apply bind_Ok in E as (u3 & Ec & E). apply bind_Ok in E as ([proof c] & Ep & E).
  apply bind_Ok in E as (synced & Es%access_Ok & E). apply bind_Ok in E as (u4 & Ey%reject_if_Ok & E).
  apply bind_Ok in E as (starts & Eh & E). apply bind_Ok in E as (u5 & Et%reject_if_Ok & _).
  apply negb_false_iff in Ey, Et. subst synced starts. apply starts_with_height_true in Eh.
  unfold check_context in Ec. apply bind_Ok in Ec as (v1 & F1%reject_if_Ok & Ec).
  apply bind_Ok in Ec as (v2 & F2%reject_if_Ok & Ec). apply bind_Ok in Ec as (cb & Fc%access_Ok & Ec).
  apply bind_Ok in Ec as (v3 & F3%reject_if_Ok & Ec). apply bind_Ok in Ec as (v4 & F4 & Ec).
  apply bind_Ok in Ec as (target & Ft%access_Ok & Ec). apply bind_Ok in Ec as (v5 & F5%reject_if_Ok & Ec).
  apply bind_Ok in Ec as (v6 & F6%reject_if_Ok & Ec). apply bind_Ok in Ec as (v7 & F7%reject_if_Ok & F8%reject_if_Ok).
  apply negb_false_iff in F5, F7, F8. apply Z.eqb_eq in F5. subst target. apply orb_false_iff in F6 as [F6 _].
  unfold BlockIndex.GetPastTimeLimit, BlockIndex.GetBlockTime, BlockCheck.GetBlockTime in *.
  split; try done.
  - unfold Block.CURRENT_VERSION in E1. lia.
  - intros Hw. rewrite Hw in F2. cbn [andb] in F2. lia.
  - lia.
  - apply Forall_forall. intros tx. by apply (forallb_elem _ _ _ F7).
  - intros Hs. rewrite Hs in F4. apply bind_Ok in F4 as (coinstake & Fs%access_Ok & F4%reject_if_Ok).
    apply negb_false_iff, andb_true_iff in F4 as [F41%Z.eqb_eq F42%Z.eqb_eq].
    unfold check_proof in Ep. rewrite Hs, Fs in Ep. cbn [access mbind outcome_bind] in Ep.
    apply bind_Ok in Ep as ([[p t] c2] & Ep & _). exists coinstake, p, t, c2.
    split; [done|]. split; [done|]. split; [done|].
    by destruct (StakeKernel.CheckProofOfStake _ _ _ _ _ _ _ _ _) as [[[? ?] ?]| |]; cbn in Ep; [injection Ep as -> -> ->|..].
Qed.

Lemma with_pool_coherent s p c : coherent s -> coherent (with_pool p c s).
Proof. intros [C1 C2 C3]. by split. Qed.

(** C26. A block that [AcceptBlock] accepts fits its parent: the current version, the next difficulty
    target, a later time, final transactions, a height above the checkpoints that its coinbase
    states, mined only up to the last proof-of-work height, and otherwise a coinstake at the time of
    the block whose kernel passes [CheckProofOfStake].  It is then in the index, and the
    globals describe a best block with at least its trust. *)
Theorem AcceptBlock_fits s block s' : coherent s ->
  AcceptBlock ReadBlock TestNet over_free_limit HashGenesisBlock LastPOWBlock bnProofOfStakeLimit WriteToDisk s block
    = Some (s', TxCheck.Accept) ->
  (exists prev pp, mapBlockIndex s !! hashPrevBlock block = Some (prev, pp) /\ fits s block prev) /\
  coherent s' /\ exists n, mapBlockIndex s' !! BlockHash block = Some n /\ nChainTrust n.1 <= nBestChainTrust s'.
Proof.
  unfold AcceptBlock. intros Hc. destruct (check_accept _ _ _ _ _) as [[proof c]| |] eqn:Ek; [|done|done].
  apply check_accept_fits in Ek. destruct (WriteToDisk block) as [[file blockpos]|]; [|done].
  destruct (AddToBlockIndex _ _ _ _ _ _ _ _ _) as [[s1 ok]|] eqn:Ea; [|done]. cbn [mbind option_bind].
  destruct ok; [|done]. intros [= <-]. split; [done|].
  apply add_best in Ea as (Hc' & _ & _ & Hn); [|by apply with_pool_coherent]. split; [done|]. by apply Hn.
Qed.
End facts.
End AcceptBlockFacts.
