(* ===== verification/OrphanBlocks.v ===== *)
(** * OrphanBlocks: blocks whose parent is not known yet (src/src/main.cpp)

    [mapOrphanBlocks] holds them under their hash, [mapOrphanBlocksByPrev] under the hash of
    their parent, [setStakeSeenOrphan] their coinstakes and [nOrphanBlocksSize] the bytes they
    take.  Both maps hold the same pointers to objects that no operation changes, so the
    model stores the objects. *)

From S2P Require Import Prelude BigNum Serialize Crypto Keys Core Block.

Record COrphanBlock := mk_orphan_block {
  hashBlock : Z;
  hashPrev : Z;
  stake : COutPoint * Z;
  vchBlock : bytes
}.

Record OrphanPool := mk_orphan_pool {
  mapOrphanBlocks : gmap Z COrphanBlock;
  (** A [std::multimap]: ordered by the key, equal keys in the order of insertion. *)
  mapOrphanBlocksByPrev : list (Z * COrphanBlock);
  setStakeSeenOrphan : gset (COutPoint * Z);
  nOrphanBlocksSize : Z
}.

(** ** The operations of [std::multimap] that the code uses; an iterator is a position *)
Module Multimap.
Section multimap.
Context {V : Type}.
Definition find (key : Z) (l : list (Z * V)) : option nat := fst <$> list_find (fun e => e.1 = key) l.
Definition count (key : Z) (l : list (Z * V)) : nat := length (filter (fun e => e.1 = key) l).
(** From [lower_bound(key)] to [upper_bound(key)]. *)
Definition equal_range (key : Z) (l : list (Z * V)) : list V := map snd (filter (fun e => e.1 = key) l).
Definition erase (key : Z) (l : list (Z * V)) : list (Z * V) := filter (fun e => e.1 <> key) l.
Fixpoint insert (e : Z * V) (l : list (Z * V)) : list (Z * V) :=
  match l with
  | [] => [e]
  | e' :: l' => if e'.1 <=? e.1 then e' :: insert e l' else e :: l
  end.
End multimap.
End Multimap.

Module OrphanBlocks.
(** ** The root of a chain of orphans *)
(** The [do] loop of [GetOrphanRoot], at the entry of [key]. *)
Fixpoint root_loop (fuel : nat) (m : gmap Z COrphanBlock) (key : Z) (it : COrphanBlock) : option Z :=
  match fuel with
  | O => None
  | S fuel =>
    match m !! hashPrev it with
    | None => Some key
    | Some it2 => root_loop fuel m (hashPrev it) it2
    end
  end.
Definition GetOrphanRoot (m : gmap Z COrphanBlock) (hash : Z) : option Z :=
  match m !! hash with None => Some hash | Some it => root_loop (size m) m hash it end.

Fixpoint wanted_loop (fuel : nat) (m : gmap Z COrphanBlock) (pblockOrphan : COrphanBlock) : option Z :=
  match fuel with
  | O => None
  | S fuel =>
    match m !! hashPrev pblockOrphan with
    | Some o => wanted_loop fuel m o
    | None => Some (hashPrev pblockOrphan)
    end
  end.
Definition WantedByOrphan (m : gmap Z COrphanBlock) (pblockOrphan : COrphanBlock) : option Z :=
  wanted_loop (S (size m)) m pblockOrphan.

(** ** [PruneOrphanBlocks] *)
(** The inner loop: from an orphan to one that depends on it. *)
Fixpoint successor_loop (fuel : nat) (l : list (Z * COrphanBlock)) (it : nat) : option nat :=
  match fuel with
  | O => None
  | S fuel =>
    '(_, o) ← l !! it;
    match Multimap.find (hashBlock o) l with
    | None => Some it
    | Some it2 => successor_loop fuel l it2
    end
  end.

(** What an iteration erases. *)
Definition erase_at (it : nat) (s : OrphanPool) : option OrphanPool :=
  '(_, o) ← mapOrphanBlocksByPrev s !! it;
  Some (mk_orphan_pool (delete (hashBlock o) (mapOrphanBlocks s)) (delete it (mapOrphanBlocksByPrev s))
    (setStakeSeenOrphan s ∖ {[stake o]}) (u64 (nOrphanBlocksSize s - zlen (vchBlock o)))).

(** [insecure_rand k] is the random number of the k-th iteration; the position is an [int]. *)
Fixpoint prune_loop (fuel : nat) (insecure_rand : nat -> Z) (nMaxOrphanBlocksSize : Z) (k : nat) (s : OrphanPool) :
    option OrphanPool :=
  if nOrphanBlocksSize s <=? nMaxOrphanBlocksSize then Some s else
  match fuel with
  | O => None
  | S fuel =>
    let l := mapOrphanBlocksByPrev s in
    if bool_decide (l = []) then None else
    let pos := i32 (insecure_rand k mod zlen l) in
    if pos <? 0 then None else
    it ← successor_loop (length l) l (Z.to_nat pos);
    s ← erase_at it s;
    prune_loop fuel insecure_rand nMaxOrphanBlocksSize (S k) s
  end.
(** [maxorphanblocksmib] is the option of that name. *)
Definition PruneOrphanBlocks (insecure_rand : nat -> Z) (maxorphanblocksmib : Z) (s : OrphanPool) : option OrphanPool :=
  prune_loop (length (mapOrphanBlocksByPrev s)) insecure_rand (u64 (maxorphanblocksmib * 2 ^ 20)) 0 s.

(** The insertions of [ProcessBlock]. *)
Definition add_orphan (o : COrphanBlock) (fProofOfStake : bool) (s : OrphanPool) : OrphanPool :=
  mk_orphan_pool
    (match mapOrphanBlocks s !! hashBlock o with None => <[hashBlock o := o]> (mapOrphanBlocks s) | Some _ => mapOrphanBlocks s end)
    (Multimap.insert (hashPrev o, o) (mapOrphanBlocksByPrev s))
    (if fProofOfStake then {[stake o]} ∪ setStakeSeenOrphan s else setStakeSeenOrphan s)
    (u64 (nOrphanBlocksSize s + zlen (vchBlock o))).

(** What the work queue of [ProcessBlock] erases for an orphan with the coinstake [st], its
    entry by parent apart. *)
Definition release (o : COrphanBlock) (st : COutPoint * Z) (s : OrphanPool) : OrphanPool :=
  mk_orphan_pool (delete (hashBlock o) (mapOrphanBlocks s)) (mapOrphanBlocksByPrev s)
    (setStakeSeenOrphan s ∖ {[st]}) (u64 (nOrphanBlocksSize s - zlen (vchBlock o))).
Definition erase_parent (hash : Z) (s : OrphanPool) : OrphanPool :=
  mk_orphan_pool (mapOrphanBlocks s) (Multimap.erase hash (mapOrphanBlocksByPrev s)) (setStakeSeenOrphan s) (nOrphanBlocksSize s).
End OrphanBlocks.
Export OrphanBlocks.

(** ** Facts *)
Module OrphanBlocksFacts.
Abbreviation orphan_map := (gmap Z COrphanBlock).

(** No orphan is its own ancestor: some numbering grows from each orphan to its children. *)
Definition acyclic (m : orphan_map) : Prop :=
  exists rank : Z -> nat, forall h o, m !! h = Some o -> is_Some (m !! hashPrev o) -> (rank (hashPrev o) < rank h)%nat.

(** An orphan and its parent, both held. *)
Definition parent (m : orphan_map) (h p : Z) : Prop := exists o, m !! h = Some o /\ hashPrev o = p /\ is_Some (m !! p).

Definition entries (m : orphan_map) : list (Z * COrphanBlock) := map (fun e => (hashPrev e.2, e.2)) (map_to_list m).
Definition total (l : list (Z * COrphanBlock)) : Z := foldr (fun e n => zlen (vchBlock e.2) + n) 0 l.

(** The two maps hold the same blocks, the size is the sum of their sizes, and every recorded
    coinstake is that of a block that is held. *)
Record consistent (s : OrphanPool) : Prop := {
  con_key h o : mapOrphanBlocks s !! h = Some o -> hashBlock o = h;
  con_prev : mapOrphanBlocksByPrev s ≡ₚ entries (mapOrphanBlocks s);
  con_size : nOrphanBlocksSize s = u64 (total (mapOrphanBlocksByPrev s));
  con_stake st : st ∈ setStakeSeenOrphan s -> exists h o, mapOrphanBlocks s !! h = Some o /\ stake o = st
}.

Lemma acyclic_sub (m m' : orphan_map) : m' ⊆ m -> acyclic m -> acyclic m'.
Proof.
  intros Hs [rank Hr]. exists rank. intros h o Ho [p Hp]. apply (Hr h o); [by eapply lookup_weaken|].
  exists p. by eapply lookup_weaken.
Qed.

(** *** The root of a chain of orphans *)
Definition below (rank : Z -> nat) (n : nat) (m : orphan_map) : orphan_map := filter (fun e => (rank e.1 < n)%nat) m.

Lemma below_lt rank n k o (m : orphan_map) : m !! k = Some o -> (rank k < n)%nat ->
  (size (below rank (rank k) m) < size (below rank n m))%nat.
Proof.
  intros Hk Hn. apply map_subset_size. apply map_subset_alt. split.
  - apply map_subseteq_spec. intros i x [E Hi]%map_lookup_filter_Some. apply map_lookup_filter_Some. cbn in *. split; [done|lia].
  - exists k. split; [apply map_lookup_filter_None; right; intros x _; cbn; lia|].
    exists o. apply map_lookup_filter_Some. by split.
Qed.

Lemma root_loop_spec rank m fuel key o :
  (forall h o, m !! h = Some o -> is_Some (m !! hashPrev o) -> (rank (hashPrev o) < rank h)%nat) ->
  m !! key = Some o -> (size (below rank (rank key) m) < fuel)%nat ->
  exists r ro, root_loop fuel m key o = Some r /\ wanted_loop fuel m o = Some (hashPrev ro) /\
    rtc (parent m) key r /\ m !! r = Some ro /\ m !! hashPrev ro = None.
Proof.
  intros Hr. revert key o. induction fuel as [|fuel IH]; intros key o Hk Hf; [lia|]. cbn [root_loop wanted_loop].
  destruct (m !! hashPrev o) as [p|] eqn:Ep.
  - assert (rank (hashPrev o) < rank key)%nat as Hlt by (apply (Hr key o Hk); by exists p).
    pose proof (below_lt rank (rank key) _ _ _ Ep Hlt).
    destruct (IH (hashPrev o) p Ep) as (r & ro & E1 & E2 & Hc & E3); [lia|]. exists r, ro. split; [done|]. split; [done|].
    split; [|done]. eapply rtc_l; [|exact Hc]. exists o. split; [done|]. split; [done|]. by exists p.
  - exists key, o. split; [done|]. split; [done|]. split; [apply rtc_refl|done].
Qed.

(** The searches for the first block of a chain of orphans terminate when no orphan is its own
    ancestor: [GetOrphanRoot] returns the ancestor whose parent is not held, and
    [WantedByOrphan] that missing parent. *)
Theorem GetOrphanRoot_root m hash o : acyclic m -> m !! hash = Some o ->
  exists r ro, GetOrphanRoot m hash = Some r /\ WantedByOrphan m o = Some (hashPrev ro) /\
    rtc (parent m) hash r /\ m !! r = Some ro /\ m !! hashPrev ro = None.
Proof.
  intros [rank Hr] Ho. unfold GetOrphanRoot, WantedByOrphan. rewrite Ho.
  assert (size (below rank (rank hash) m) < size m)%nat as Hlt.
  { apply map_subset_size, map_subset_alt. split; [apply map_filter_subseteq|].
    exists hash. split; [|by exists o]. apply map_lookup_filter_None. right. intros x _. cbn. lia. }
  destruct (root_loop_spec rank m (size m) hash o Hr Ho Hlt) as (r & ro & E1 & _ & H1).
  destruct (root_loop_spec rank m (S (size m)) hash o Hr Ho ltac:(lia)) as (r2 & ro2 & E2 & E3 & Hc & H2).
  assert (r2 = r) as ->.
  { destruct H1 as (Hc' & Hr1 & Hn), H2 as [Hr2 Hn2]. clear -Hr1 Hc Hc' Hn Hr2 Hn2.
    induction Hc' as [x|x y z (o & Ho & <- & Hp) Hc' IH].
    - destruct Hc as [x|x y z (o & Ho & <- & [p Hp]) Hc]; congruence.
    - destruct Hc as [x|x y' z' (o' & Ho' & <- & _) Hc]; [destruct Hp; congruence|].
      apply IH; try done. congruence. }
  exists r, ro. split; [done|]. split; [|done]. destruct H1 as (_ & H1 & _), H2 as [H2 _]. congruence.
Qed.

(** *** The multimap *)
Lemma find_Some {V} key (l : list (Z * V)) i : Multimap.find key l = Some i -> exists v, l !! i = Some (key, v).
Proof.
  unfold Multimap.find. intros ([j [k v]] & E & ->)%fmap_Some. apply list_find_Some in E as (E & <- & _). by exists v.
Qed.
Lemma find_None {V} key (l : list (Z * V)) e : Multimap.find key l = None -> e ∈ l -> e.1 <> key.
Proof.
  intros Hf%fmap_None He. apply list_find_None in Hf. rewrite Forall_forall in Hf. by apply Hf.
Qed.
Lemma insert_perm {V} e (l : list (Z * V)) : Multimap.insert e l ≡ₚ e :: l.
Proof.
  induction l as [|e' l IH]; [done|]. cbn [Multimap.insert]. destruct (_ <=? _); [|done].
  rewrite IH. apply Permutation_swap.
Qed.

Lemma total_perm l l' : l ≡ₚ l' -> total l = total l'.
Proof. induction 1; cbn [total foldr] in *; unfold total in *; lia. Qed.
Lemma total_nonneg l : 0 <= total l.
Proof. induction l as [|e l IH]; cbn [total foldr]; [lia|]. pose proof (zlen_nonneg (vchBlock e.2)). unfold total in IH. lia. Qed.

Lemma entries_delete (m : orphan_map) h o : m !! h = Some o -> entries m ≡ₚ (hashPrev o, o) :: entries (delete h m).
Proof. intros Ho. unfold entries. by rewrite <- (map_to_list_delete m h o Ho). Qed.
Lemma entries_insert (m : orphan_map) h o : m !! h = None -> entries (<[h := o]> m) ≡ₚ (hashPrev o, o) :: entries m.
Proof. intros Ho. unfold entries. by rewrite map_to_list_insert. Qed.

Section held.
Context (s : OrphanPool) (Hs : consistent s).

Lemma entry_iff e : e ∈ mapOrphanBlocksByPrev s <-> e.1 = hashPrev e.2 /\ mapOrphanBlocks s !! hashBlock e.2 = Some e.2.
Proof.
  rewrite (con_prev s Hs). unfold entries. rewrite list_elem_of_fmap. split.
  - intros ([h o] & -> & He%elem_of_map_to_list). cbn in *. by rewrite (con_key s Hs h o He).
  - destruct e as [k o]. cbn. intros [-> Ho]. exists (hashBlock o, o). split; [done|]. by apply elem_of_map_to_list.
Qed.

Lemma held_length : length (mapOrphanBlocksByPrev s) = size (mapOrphanBlocks s).
Proof. rewrite (con_prev s Hs). unfold entries. rewrite length_map. apply length_map_to_list. Qed.

(** Dropping the entry of one orphan from both maps. *)
Lemma drop_consistent o l sz : mapOrphanBlocks s !! hashBlock o = Some o ->
  mapOrphanBlocksByPrev s ≡ₚ (hashPrev o, o) :: l -> sz = u64 (nOrphanBlocksSize s - zlen (vchBlock o)) ->
  consistent (mk_orphan_pool (delete (hashBlock o) (mapOrphanBlocks s)) l (setStakeSeenOrphan s ∖ {[stake o]}) sz).
Proof.
  intros Ho Hl ->. split; cbn.
  - intros h o' [_ E]%lookup_delete_Some. by apply (con_key s Hs).
  - apply (Permutation_cons_inv (a := (hashPrev o, o))). rewrite <- Hl, (con_prev s Hs). by apply entries_delete.
  - rewrite (con_size s Hs), (total_perm _ _ Hl). cbn [total foldr snd]. unfold u64. rewrite Zminus_mod_idemp_l. f_equal. unfold total. lia.
  - intros st [Hst Hne]%elem_of_difference. rewrite elem_of_singleton in Hne.
    destruct (con_stake s Hs st Hst) as (h & o' & Ho' & <-). exists h, o'. split; [|done].
    apply lookup_delete_Some. split; [|done]. intros <-. congruence.
Qed.

Lemma erase_at_spec it k o : mapOrphanBlocksByPrev s !! it = Some (k, o) ->
  exists s', erase_at it s = Some s' /\ consistent s' /\ mapOrphanBlocks s' = delete (hashBlock o) (mapOrphanBlocks s) /\
    mapOrphanBlocks s !! hashBlock o = Some o /\ length (mapOrphanBlocksByPrev s) = S (length (mapOrphanBlocksByPrev s')).
Proof.
  intros E. destruct (proj1 (entry_iff (k, o)) (list_elem_of_lookup_2 _ _ _ E)) as [Ek Ho]. cbn in Ek, Ho. subst k.
  pose proof (delete_Permutation _ _ _ E) as Hp. unfold erase_at. rewrite E. cbn [mbind option_bind].
  eexists. split; [done|]. split; [by apply drop_consistent|]. split; [done|]. split; [done|].
  by apply Permutation_length in Hp.
Qed.

(** The orphan on which the inner loop stops has no children. *)
Lemma successor_loop_spec rank fuel it k o :
  (forall h o, mapOrphanBlocks s !! h = Some o -> is_Some (mapOrphanBlocks s !! hashPrev o) -> (rank (hashPrev o) < rank h)%nat) ->
  mapOrphanBlocksByPrev s !! it = Some (k, o) ->
  (length (filter (fun e => rank (hashBlock o) < rank (hashBlock e.2))%nat (mapOrphanBlocksByPrev s)) < fuel)%nat ->
  exists it' k' o', successor_loop fuel (mapOrphanBlocksByPrev s) it = Some it' /\
    mapOrphanBlocksByPrev s !! it' = Some (k', o') /\
    forall h c, mapOrphanBlocks s !! h = Some c -> hashPrev c <> hashBlock o'.
Proof.
  intros Hr. revert it k o. induction fuel as [|fuel IH]; intros it k o E Hf; [lia|]. cbn [successor_loop]. rewrite E.
  cbn [mbind option_bind]. destruct (Multimap.find _ _) as [it2|] eqn:Ef.
  - apply find_Some in Ef as (c & Ec). apply (IH it2 (hashBlock o) c Ec).
    pose proof (list_elem_of_lookup_2 _ _ _ Ec) as Hin.
    destruct (proj1 (entry_iff _) Hin) as [Ep Hc]. cbn in Ep, Hc.
    destruct (proj1 (entry_iff _) (list_elem_of_lookup_2 _ _ _ E)) as [_ Ho]. cbn in Ho.
    assert (rank (hashBlock o) < rank (hashBlock c))%nat as Hlt.
    { rewrite Ep. apply (Hr _ c Hc). rewrite <- Ep. by exists o. }
    enough (length (filter (fun e => rank (hashBlock c) < rank (hashBlock e.2))%nat (mapOrphanBlocksByPrev s)) <
      length (filter (fun e => rank (hashBlock o) < rank (hashBlock e.2))%nat (mapOrphanBlocksByPrev s)))%nat by lia.
    revert Hin Hlt. clear. induction (mapOrphanBlocksByPrev s) as [|e l IH]; [by intros ?%not_elem_of_nil|].
    assert (rank (hashBlock o) < rank (hashBlock c) ->
      length (filter (fun e => rank (hashBlock c) < rank (hashBlock e.2))%nat l) <=
      length (filter (fun e => rank (hashBlock o) < rank (hashBlock e.2))%nat l))%nat as Hle.
    { intros Hlt. clear IH. induction l as [|x l IHl]; [done|]. rewrite !filter_cons.
      repeat case_decide; cbn [length]; lia. }
    intros [<-|Hin]%elem_of_cons Hlt.
    + rewrite !filter_cons. rewrite decide_False by (cbn; lia). rewrite decide_True by (cbn; lia). cbn [length].
      specialize (Hle Hlt). lia.
    + specialize (IH Hin Hlt). rewrite !filter_cons. repeat case_decide; cbn [length]; lia.
  - exists it, k, o. split; [done|]. split; [done|]. intros h c Hc Ep.
    assert ((hashPrev c, c) ∈ mapOrphanBlocksByPrev s) as Hin.
    { apply entry_iff. cbn. split; [done|]. by rewrite (con_key s Hs h c Hc). }
    by apply (find_None _ _ _ Ef Hin).
Qed.
End held.

(** *** Pruning *)
(** [m'] is [m] without some blocks and all their descendants. *)
Definition pruned (m m' : orphan_map) : Prop :=
  m' ⊆ m /\ forall h o, m' !! h = Some o -> is_Some (m !! hashPrev o) -> is_Some (m' !! hashPrev o).

Lemma pruned_trans m1 m2 m3 : pruned m1 m2 -> pruned m2 m3 -> pruned m1 m3.
Proof.
  intros [S1 C1] [S2 C2]. split; [by etrans|]. intros h o Ho Hp. apply (C2 h o Ho), (C1 h o); [by eapply lookup_weaken|done].
Qed.

Lemma prune_loop_spec rand max fuel k s : consistent s -> acyclic (mapOrphanBlocks s) ->
  0 <= max -> zlen (mapOrphanBlocksByPrev s) < 2 ^ 31 -> (length (mapOrphanBlocksByPrev s) <= fuel)%nat ->
  exists s', prune_loop fuel rand max k s = Some s' /\ consistent s' /\ nOrphanBlocksSize s' <= max /\
    pruned (mapOrphanBlocks s) (mapOrphanBlocks s').
Proof.
  intros Hs Ha Hm. revert k s Hs Ha. induction fuel as [|fuel IH]; intros k s Hs Ha Hz Hf; cbn [prune_loop].
  - destruct (Z.leb_spec (nOrphanBlocksSize s) max) as [Hle|Hgt].
    { exists s. split; [done|]. split; [done|]. split; [done|]. by split. }
    exfalso. rewrite (con_size s Hs) in Hgt. destruct (mapOrphanBlocksByPrev s); [change (max < 0) in Hgt; lia|cbn in Hf; lia].
  - destruct (Z.leb_spec (nOrphanBlocksSize s) max) as [Hle|Hgt].
    { exists s. split; [done|]. split; [done|]. split; [done|]. by split. }
    destruct (decide (mapOrphanBlocksByPrev s = [])) as [E|E].
    { rewrite (con_size s Hs), E in Hgt. change (max < 0) in Hgt. lia. }
    rewrite bool_decide_eq_false_2 by done.
    assert (0 < zlen (mapOrphanBlocksByPrev s)) as Hpos.
    { unfold zlen. destruct (mapOrphanBlocksByPrev s); [done|cbn; lia]. }
    pose proof (Z.mod_pos_bound (rand k) _ Hpos) as Hb.
    unfold i32. rewrite (swrap_id 32) by (unfold in_s; lia).
    destruct (Z.ltb_spec (rand k mod zlen (mapOrphanBlocksByPrev s)) 0); [lia|].
    destruct (lookup_lt_is_Some_2 (mapOrphanBlocksByPrev s) (Z.to_nat (rand k mod zlen (mapOrphanBlocksByPrev s))))
      as [[key o] Eo]; [unfold zlen in *; lia|].
    destruct Ha as [rank Hr].
    destruct (successor_loop_spec s Hs rank (length (mapOrphanBlocksByPrev s)) _ key o Hr Eo) as (it & key' & o' & -> & Ei & Hc).
    { clear -Eo. apply list_elem_of_lookup_2 in Eo.
      induction (mapOrphanBlocksByPrev s) as [|e l IH]; [by apply not_elem_of_nil in Eo|].
      assert (length (filter (fun e => rank (hashBlock o) < rank (hashBlock e.2))%nat l) <= length l)%nat by apply length_filter.
      rewrite filter_cons. apply elem_of_cons in Eo as [<-|Eo].
      - rewrite decide_False by (cbn; lia). cbn [length]. lia.
      - specialize (IH Eo). case_decide; cbn [length]; lia. }
    cbn [mbind option_bind].
    destruct (erase_at_spec s Hs it key' o' Ei) as (s1 & -> & Hs1 & Em & Ho' & El). cbn [mbind option_bind].
    assert (pruned (mapOrphanBlocks s) (mapOrphanBlocks s1)) as Hp.
    { rewrite Em. split; [apply delete_subseteq|]. intros h c [_ Hc']%lookup_delete_Some [p Hp]. exists p.
      apply lookup_delete_Some. split; [|done]. intros E'. by apply (Hc h c Hc'). }
    destruct (IH (S k) s1 Hs1) as (s' & Es & Hs' & Hsz & Hp').
    + apply (acyclic_sub (mapOrphanBlocks s)); [apply Hp|by exists rank].
    + unfold zlen in *. lia.
    + lia.
    + exists s'. split; [done|]. split; [done|]. split; [done|]. by eapply pruned_trans.
Qed.

(** Pruning terminates and brings the size of the orphan blocks within the limit; it removes a
    block only after all the blocks that depend on it, keeps the maps consistent, and removes
    nothing when the limit is respected already. *)
Theorem PruneOrphanBlocks_limit rand mib s : consistent s -> acyclic (mapOrphanBlocks s) ->
  zlen (mapOrphanBlocksByPrev s) < 2 ^ 31 ->
  exists s', PruneOrphanBlocks rand mib s = Some s' /\ consistent s' /\ nOrphanBlocksSize s' <= u64 (mib * 2 ^ 20) /\
    pruned (mapOrphanBlocks s) (mapOrphanBlocks s') /\ (nOrphanBlocksSize s <= u64 (mib * 2 ^ 20) -> s' = s).
Proof.
  intros Hs Ha Hz. unfold PruneOrphanBlocks.
  assert (0 <= u64 (mib * 2 ^ 20)) as Hm by (unfold u64; apply Z.mod_pos_bound; lia).
  destruct (prune_loop_spec rand _ (length (mapOrphanBlocksByPrev s)) 0 s Hs Ha Hm Hz) as (s' & E & Hc & Hl & Hp); [lia|].
  exists s'. repeat (split; [done|]). intros Hle.
  destruct (length (mapOrphanBlocksByPrev s)) eqn:El; cbn [prune_loop] in E; rewrite (proj2 (Z.leb_le _ _) Hle) in E; congruence.
Qed.

(** Whatever the shape of the chains of orphans, a pruning that returns keeps the maps consistent. *)
Lemma prune_loop_consistent rand max fuel k s s' : consistent s -> prune_loop fuel rand max k s = Some s' ->
  consistent s' /\ mapOrphanBlocks s' ⊆ mapOrphanBlocks s /\ nOrphanBlocksSize s' <= max.
Proof.
  revert k s. induction fuel as [|fuel IH]; intros k s Hs E; cbn [prune_loop] in E;
    (destruct (Z.leb_spec (nOrphanBlocksSize s) max) as [Hle|_]; [by injection E as <-|]); [done|].
  destruct (bool_decide _); [done|]. destruct (_ <? 0); [done|].
  destruct (successor_loop _ _ _) as [it|]; [|done]. cbn [mbind option_bind] in E.
  destruct (erase_at it s) as [s1|] eqn:Ee; [|done]. cbn [mbind option_bind] in E.
  pose proof Ee as Ee'. unfold erase_at in Ee'.
  destruct (mapOrphanBlocksByPrev s !! it) as [[key o]|] eqn:Ei; [|done]. clear Ee'.
  destruct (erase_at_spec s Hs it key o Ei) as (s2 & Ee2 & Hs1 & Em & _). rewrite Ee in Ee2. injection Ee2 as <-.
  destruct (IH _ _ Hs1 E) as (? & Hsub & ?). split; [done|]. split; [|done]. etrans; [exact Hsub|].
  rewrite Em. apply delete_subseteq.
Qed.

(** *** Inserting an orphan *)
Lemma add_orphan_consistent o pos s : consistent s -> mapOrphanBlocks s !! hashBlock o = None ->
  consistent (add_orphan o pos s) /\ mapOrphanBlocks (add_orphan o pos s) = <[hashBlock o := o]> (mapOrphanBlocks s).
Proof.
  intros Hs Hn. unfold add_orphan. rewrite Hn. split; [|done].
  split; cbn [mapOrphanBlocks mapOrphanBlocksByPrev setStakeSeenOrphan nOrphanBlocksSize].
  - intros h o' [[<- <-]|[_ E]]%lookup_insert_Some; [done|]. by apply (con_key s Hs).
  - rewrite insert_perm, entries_insert by done. constructor. apply (con_prev s Hs).
  - rewrite (total_perm _ _ (insert_perm _ _)), (con_size s Hs). cbn [total foldr snd].
    unfold u64. rewrite Zplus_mod_idemp_l. f_equal. unfold total. lia.
  - intros st Hst. assert (st = stake o \/ st ∈ setStakeSeenOrphan s) as [->|Hst'] by (destruct pos; set_solver).
    + exists (hashBlock o), o. by rewrite lookup_insert_eq.
    + destruct (con_stake s Hs st Hst') as (h & o' & Ho & <-). exists h, o'. split; [|done].
      rewrite lookup_insert_ne by congruence. done.
Qed.

(** *** Two orphans, the second above the first *)
Definition no_blocks : OrphanPool := mk_orphan_pool ∅ [] ∅ 0.
Lemma no_blocks_consistent : consistent no_blocks.
Proof. split; [done|done|done|set_solver]. Qed.

Definition toy_orphan (h p : Z) : COrphanBlock := mk_orphan_block h p (OutPoint.null, h) [B#1; B#2; B#3].
Definition two_orphans : OrphanPool := add_orphan (toy_orphan 3 2) true (add_orphan (toy_orphan 2 1) true no_blocks).
Lemma two_orphans_consistent : consistent two_orphans.
Proof. by do 2 (apply add_orphan_consistent; [|done]). Qed.
Lemma two_orphans_acyclic : acyclic (mapOrphanBlocks two_orphans).
Proof.
  change (mapOrphanBlocks two_orphans) with (<[3 := toy_orphan 3 2]> (<[2 := toy_orphan 2 1]> (∅ : orphan_map))).
  exists Z.to_nat. intros h o [[<- <-]|[_ [[<- <-]|[_ E]]%lookup_insert_Some]]%lookup_insert_Some _; [cbn; lia..|done].
Qed.

Lemma GetOrphanRoot_root_witness : exists r, GetOrphanRoot (mapOrphanBlocks two_orphans) 3 = Some r /\ r = 2.
Proof.
  destruct (GetOrphanRoot_root (mapOrphanBlocks two_orphans) 3 (toy_orphan 3 2)) as (r & ro & E & _).
  - exact two_orphans_acyclic.
  - reflexivity.
  - exists r. split; [exact E|]. vm_compute in E. by injection E.
Defined.

Lemma PruneOrphanBlocks_limit_witness :
  exists s', PruneOrphanBlocks (fun _ => 1) 0 two_orphans = Some s' /\ nOrphanBlocksSize s' <= 0.
Proof.
  destruct (PruneOrphanBlocks_limit (fun _ => 1) 0 two_orphans) as (s' & E & _ & Hl & _).
  - exact two_orphans_consistent.
  - exact two_orphans_acyclic.
  - vm_compute. reflexivity.
  - exists s'. split; [exact E|exact Hl].
Defined.
End OrphanBlocksFacts.
