(* ===== verification/ProcessBlock.v ===== *)
(** * ProcessBlock: a block arrives (src/src/main.cpp)

    [ProcessBlock] with its helpers: the checks on arrival, the holding area for blocks without
    a parent (OrphanBlocks), [AcceptBlock], and the work queue that accepts the orphans that
    waited for the block. *)

From S2P Require Import Prelude BigNum ScriptOps Serialize Crypto Keys Core SigHash Interp Standard Base58 TxCheck Block Mempool Chain Locator Kernel Connect BlockCheck BlockConnect Accept Checkpoints Activate ActivateFacts AcceptBlock OrphanBlocks.
Import Check OrphanBlocksFacts.

(** ** The work queue, for any way of accepting a block *)
Module WorkQueue.
Section queue.
Context `{Digests} {St : Type}.
Variable accept : St -> CBlock -> option (St * bool).

(** [block.BuildMerkleTree()] fills the memory-only tree. *)
Definition built_tree (b : CBlock) : CBlock :=
  mk_block (b_nVersion b) (hashPrevBlock b) (hashMerkleRoot b) (b_nTime b) (nBits b) (nNonce b) (vtx b) (vchBlockSig b)
    (Merkle.BuildMerkleTree (Merkle.block_txids b)).2.

(** The inner loop, over the orphans of one parent. *)
Fixpoint try_orphans (l : list COrphanBlock) (st : St) (s : OrphanPool) (vWorkQueue : list Z) :
    option (St * OrphanPool * list Z) :=
  match l with
  | [] => Some (st, s, vWorkQueue)
  | o :: l =>
    b ← (get (vchBlock o)).1;
    let block := built_tree b in
    '(st, ok) ← accept st block;
    try_orphans l st (release o (Block.GetProofOfStake block) s)
      (if (ok : bool) then vWorkQueue ++ [hashBlock o] else vWorkQueue)
  end.

Fixpoint work_loop (fuel i : nat) (st : St) (s : OrphanPool) (vWorkQueue : list Z) : option (St * OrphanPool * list Z) :=
  match fuel with
  | O => None
  | S fuel =>
    match vWorkQueue !! i with
    | None => Some (st, s, vWorkQueue)
    | Some hash =>
      '(st, s, vWorkQueue) ← try_orphans (Multimap.equal_range hash (mapOrphanBlocksByPrev s)) st s vWorkQueue;
      work_loop fuel (S i) st (erase_parent hash s) vWorkQueue
    end
  end.
(** Each orphan enters the queue once at most. *)
Definition process_queue (hash : Z) (st : St) (s : OrphanPool) : option (St * OrphanPool * list Z) :=
  work_loop (2 + size (mapOrphanBlocks s)) 0 st s [hash].
End queue.
End WorkQueue.
Export WorkQueue.

(** What [ProcessBlock] tells the peer or does about it. *)
Inductive PeerEvent :=
  | Misbehaving (howmuch : Z)
  | PushGetBlocks (locator : list Z) (hashEnd : Z)
  | AskForBlock (hash : Z).

Record CNode := mk_node {
  pn_nVersion : Z;
  pindexLastGetBlocksBegin : option Z;
  hashLastGetBlocksEnd : Z;
  (** Newest last. *)
  pn_events : list PeerEvent
}.

Record NodeState := mk_node_state {
  chain : ChainState;
  orphan_blocks : OrphanPool;
  (** The static variables of [IsInitialBlockDownload]. *)
  nLastUpdate : Z;
  pindexLastBest : option Z
}.

Module ProcessBlock.
Section process.
Context `{BNLib} `{Digests} `{ECLib} `{SigEnv} `{NodeEnv}.
Variable ReadBlock : Z -> Z -> option CBlock.
Variables (TestNet over_free_limit : bool) (HashGenesisBlock LastPOWBlock bnProofOfStakeLimit : Z).
Variable WriteToDisk : CBlock -> option (Z * Z).
(** [fReindex || fImporting], [GetTime()], the random numbers of one call and the option for
    the size of the holding area. *)
Variables (loading : bool) (time : Z) (insecure_rand : nat -> Z) (maxorphanblocksmib : Z).

Definition CANONICAL_BLOCK_SIG_VERSION : Z := 60016.
Definition CANONICAL_BLOCK_SIG_LOW_S_VERSION : Z := 60018.

(** ** Talking to the peer *)
Definition tell (e : PeerEvent) (pfrom : option CNode) : option CNode :=
  n ← pfrom;
  Some (mk_node (pn_nVersion n) (pindexLastGetBlocksBegin n) (hashLastGetBlocksEnd n) (pn_events n ++ [e])).

Definition push_getblocks (m : BlockStore) (pindexBegin : option Z) (hashEnd : Z) (n : CNode) : CNode :=
  if bool_decide (pindexBegin = pindexLastGetBlocksBegin n) && (hashEnd =? hashLastGetBlocksEnd n) then n
  else mk_node (pn_nVersion n) pindexBegin hashEnd
    (pn_events n ++ [PushGetBlocks (Locator.Set_ HashGenesisBlock (ptr m pindexBegin)) hashEnd]).

(** [None] is a best block that is not in the index. *)
Definition IsInitialBlockDownload (s : NodeState) : option (bool * NodeState) :=
  match best_block (chain s) with
  | None => Some (true, s)
  | Some best =>
    if best_height (chain s) <? Checkpoints.GetTotalBlocksEstimate TestNet then Some (true, s) else
    let s := if bool_decide (pindexLastBest s = Some best) then s
             else mk_node_state (chain s) (orphan_blocks s) time (Some best) in
    if time - nLastUpdate s <? 15 then
      '(b, _) ← mapBlockIndex (chain s) !! best;
      Some (BlockIndex.GetBlockTime b <? time - 8 * 60 * 60, s)
    else Some (false, s)
  end.

Definition IsCanonicalBlockSignature (b : CBlock) (checkLowS : bool) : bool :=
  if Block.IsProofOfWork b then bool_decide (vchBlockSig b = []) else
  if checkLowS then Encoding.IsLowDERSignature (vchBlockSig b) false else Encoding.IsDERSignature (vchBlockSig b) false.

Definition with_sig (sig : bytes) (b : CBlock) : CBlock :=
  mk_block (b_nVersion b) (hashPrevBlock b) (hashMerkleRoot b) (b_nTime b) (nBits b) (nNonce b) (vtx b) sig (vMerkleTree b).

(** The two tests on the encoding of the signature; [None] stops the block. *)
Definition check_encoding (pfrom : option CNode) (b : CBlock) : option CNode * option CBlock :=
  if negb (IsCanonicalBlockSignature b false) then
    (match pfrom with
     | Some n => if CANONICAL_BLOCK_SIG_VERSION <=? pn_nVersion n then tell (Misbehaving 100) pfrom else pfrom
     | None => None
     end, None)
  else if negb (IsCanonicalBlockSignature b true) then
    let '(ok, sig) := PrivKey.EnsureLowS (vchBlockSig b) in
    let lowered := if ok : bool then Some (with_sig sig b) else None in
    match pfrom with
    | Some n =>
      if CANONICAL_BLOCK_SIG_LOW_S_VERSION <=? pn_nVersion n then (tell (Misbehaving 100) pfrom, None) else (pfrom, lowered)
    | None => (None, lowered)
    end
  else (pfrom, Some b).

(** A block that does not build on the best chain must not be older than the last checkpoint. *)
Definition too_old (c : ChainState) (b : CBlock) : option bool :=
  if hashPrevBlock b =? hashBestChain c then Some false else
  match Checkpoints.AutoSelectSyncCheckpoint (ptr (mapBlockIndex c) (best_block c)) with
  | [] => None
  | pcheckpoint :: _ => Some (BlockCheck.GetBlockTime b - bi_nTime pcheckpoint <? 0)
  end.

(** A stake seen before is allowed only when an orphan waits for the block. *)
Definition duplicate_stake (seen : gset (COutPoint * Z)) (o : OrphanPool) (b : CBlock) (hash : Z) : bool :=
  Block.IsProofOfStake b && bool_decide (Block.GetProofOfStake b ∈ seen)
  && (Multimap.count hash (mapOrphanBlocksByPrev o) =? 0)%nat.

(** The block goes to the holding area, and the peer is asked for what is missing. *)
Definition hold_orphan (s : NodeState) (pfrom : option CNode) (b : CBlock) (hash : Z) :
    option (NodeState * option CNode * verdict) :=
  match pfrom with
  | None => Some (s, None, TxCheck.Accept)
  | Some n =>
    if duplicate_stake (setStakeSeenOrphan (orphan_blocks s)) (orphan_blocks s) b hash then Some (s, pfrom, Reject 0) else
    pool ← PruneOrphanBlocks insecure_rand maxorphanblocksmib (orphan_blocks s);
    let pblock2 := mk_orphan_block hash (hashPrevBlock b) (Block.GetProofOfStake b) (put b) in
    let pool := add_orphan pblock2 (Block.IsProofOfStake b) pool in
    let s := mk_node_state (chain s) pool (nLastUpdate s) (pindexLastBest s) in
    root ← GetOrphanRoot (mapOrphanBlocks pool) hash;
    let pfrom := Some (push_getblocks (mapBlockIndex (chain s)) (best_block (chain s)) root n) in
    '(downloading, s) ← IsInitialBlockDownload s;
    if (downloading : bool) then Some (s, pfrom, TxCheck.Accept) else
    wanted ← WantedByOrphan (mapOrphanBlocks pool) pblock2;
    Some (s, tell (AskForBlock wanted) pfrom, TxCheck.Accept)
  end.

Definition accept_block (c : ChainState) (b : CBlock) : option (ChainState * verdict) :=
  AcceptBlock ReadBlock TestNet over_free_limit HashGenesisBlock LastPOWBlock bnProofOfStakeLimit WriteToDisk c b.
Definition accept_orphan (c : ChainState) (b : CBlock) : option (ChainState * bool) :=
  '(c, v) ← accept_block c b;
  Some (c, match v with TxCheck.Accept => true | Reject _ => false end).

(** The state, the peer and the verdict: [Reject] with [nDoS] of the block is [false].  [None] is an
    exception, a null pointer that is followed, or a loop that does not end. *)
Definition ProcessBlock (s : NodeState) (pfrom : option CNode) (b : CBlock) : option (NodeState * option CNode * verdict) :=
  let hash := BlockHash b in
  let c := chain s in
  if bool_decide (is_Some (mapBlockIndex c !! hash)) then Some (s, pfrom, Reject 0) else
  if bool_decide (is_Some (mapOrphanBlocks (orphan_blocks s) !! hash)) then Some (s, pfrom, Reject 0) else
  if negb loading && duplicate_stake (setStakeSeen c) (orphan_blocks s) b hash then Some (s, pfrom, Reject 0) else
  old ← too_old c b;
  if (old : bool) then Some (s, tell (Misbehaving 1) pfrom, Reject 0) else
  match check_encoding pfrom b with
  | (pfrom, None) => Some (s, pfrom, Reject 0)
  | (pfrom, Some b) =>
    match BlockCheck.CheckBlock scrypt_blockhash ProofOfWorkLimit adjusted_time nMaxDatacarrierBytes true true true b with
    | Reject nDoS => Some (s, pfrom, Reject nDoS)
    | TxCheck.Accept =>
      if bool_decide (mapBlockIndex c !! hashPrevBlock b = None) then hold_orphan s pfrom b hash else
      '(c, v) ← accept_block c b;
      match v with
      | Reject nDoS => Some (mk_node_state c (orphan_blocks s) (nLastUpdate s) (pindexLastBest s), pfrom, Reject nDoS)
      | TxCheck.Accept =>
        '(c, pool, _) ← process_queue accept_orphan hash c (orphan_blocks s);
        Some (mk_node_state c pool (nLastUpdate s) (pindexLastBest s), pfrom, TxCheck.Accept)
      end
    end
  end.
End process.
End ProcessBlock.
Export ProcessBlock.

(** ** Facts *)
Module WorkQueueFacts.
Import BlockFacts.
Section facts.
Context `{Digests} {St : Type} (accept : St -> CBlock -> option (St * bool)).

(** [vchBlock] is a block with the hash, the parent and the coinstake noted beside it. *)
Definition carries (hash_of : CBlock -> Z) (m : orphan_map) : Prop :=
  forall h o, m !! h = Some o -> exists b, wf_block b /\ vchBlock o = put b /\ hash_of b = h /\
    hashPrevBlock b = hashPrev o /\ Block.GetProofOfStake b = stake o.

(** The reference: from the hashes accepted and the orphans offered so far, an orphan whose parent was
    accepted and that was not offered before is offered; it is accepted or not. *)
Inductive offers (m : orphan_map) : list Z -> gset Z -> St -> list Z -> gset Z -> St -> Prop :=
  | offers_done acc off st : offers m acc off st acc off st
  | offers_next acc off st h o b st1 ok acc' off' st' :
      m !! h = Some o -> hashPrev o ∈ acc -> h ∉ off -> vchBlock o = put b -> wf_block b ->
      accept st (built_tree b) = Some (st1, ok) ->
      offers m (if ok then acc ++ [h] else acc) ({[h]} ∪ off) st1 acc' off' st' -> offers m acc off st acc' off' st'.

Lemma offers_trans m acc off st acc1 off1 st1 acc2 off2 st2 :
  offers m acc off st acc1 off1 st1 -> offers m acc1 off1 st1 acc2 off2 st2 -> offers m acc off st acc2 off2 st2.
Proof. induction 1; [done|]. intros. eapply offers_next; eauto. Qed.

Definition remaining (off : gset Z) (m : orphan_map) : orphan_map := filter (fun e => e.1 ∉ off) m.
Definition with_prev (l : list (Z * COrphanBlock)) (s : OrphanPool) : OrphanPool :=
  mk_orphan_pool (mapOrphanBlocks s) l (setStakeSeenOrphan s) (nOrphanBlocksSize s).

Lemma remaining_delete off m h : delete h (remaining off m) = remaining ({[h]} ∪ off) m.
Proof.
  apply map_eq. intros k. apply option_eq. intros x.
  rewrite lookup_delete_Some. unfold remaining. rewrite !map_lookup_filter_Some. cbn. set_solver.
Qed.
Lemma remaining_empty m : remaining ∅ m = m.
Proof. apply map_filter_id. set_solver. Qed.

Lemma consistent_perm l s : l ≡ₚ mapOrphanBlocksByPrev s -> consistent s -> consistent (with_prev l s).
Proof.
  intros Hl [C1 C2 C3 C4]. split; [exact C1|by rewrite <- C2| |exact C4].
  change (nOrphanBlocksSize s = u64 (total l)). by rewrite (total_perm _ _ Hl).
Qed.

Lemma range_perm {V} key (l : list (Z * V)) : map (fun o => (key, o)) (Multimap.equal_range key l) ++ Multimap.erase key l ≡ₚ l.
Proof.
  unfold Multimap.equal_range, Multimap.erase. induction l as [|[k v] l IH]; [done|]. rewrite !filter_cons. cbn [fst].
  destruct (decide (k = key)) as [->|Hne].
  - rewrite decide_False by (intros Hf; by apply Hf). cbn [map app snd]. by constructor.
  - rewrite decide_True by done. rewrite <- Permutation_middle. by constructor.
Qed.

Section run.
Context (hash_of : CBlock -> Z) (m : orphan_map) (Hm : carries hash_of m).

Lemma try_orphans_spec hash l st s q off rest :
  consistent (with_prev (map (fun o => (hash, o)) l ++ rest) s) -> mapOrphanBlocks s = remaining off m -> hash ∈ q ->
  match try_orphans accept l st s q with
  | None => exists st b, accept st b = None
  | Some (st', s', q') => exists off' new, offers m q off st q' off' st' /\ mapOrphanBlocks s' = remaining off' m /\
      off ⊆ off' /\ consistent (with_prev rest s') /\ mapOrphanBlocksByPrev s' = mapOrphanBlocksByPrev s /\
      Forall (fun o => hashBlock o ∈ off') l /\ q' = q ++ new /\
      (length q' + size (mapOrphanBlocks s') <= length q + size (mapOrphanBlocks s))%nat
  end.
Proof.
  revert st s q off. induction l as [|o l IH]; intros st s q off Hs Em Hq; cbn [try_orphans].
  { exists off, []. split; [constructor|]. rewrite app_nil_r. done. }
  destruct (proj1 (entry_iff _ Hs (hash, o))) as [Ep Ho]; [cbn; set_solver|]. cbn in Ep, Ho.
  pose proof Ho as Ho'. rewrite Em in Ho'. apply map_lookup_filter_Some in Ho' as [Hmo Hoff]. cbn in Hoff.
  destruct (Hm _ _ Hmo) as (b & Hb & Ev & _ & _ & Est). rewrite Ev.
  rewrite <- (app_nil_r (put b)), (get_put b [] Hb). cbn [mbind option_bind fst].
  destruct (accept st (built_tree b)) as [[st1 ok]|] eqn:Ea; [|by exists st, (built_tree b)]. cbn [mbind option_bind].
  change (Block.GetProofOfStake (built_tree b)) with (Block.GetProofOfStake b). rewrite Est.
  set (s1 := release o (stake o) s). set (q1 := if ok then q ++ [hashBlock o] else q).
  assert (mapOrphanBlocks s1 = remaining ({[hashBlock o]} ∪ off) m) as Em1.
  { cbn. rewrite Em. apply remaining_delete. }
  assert (size (mapOrphanBlocks s) = S (size (mapOrphanBlocks s1))) as Esz.
  { cbn. rewrite <- (insert_delete_id (mapOrphanBlocks s) (hashBlock o) o Ho) at 1.
    rewrite map_size_insert_None; [done|apply lookup_delete_eq]. }
  specialize (IH st1 s1 q1 ({[hashBlock o]} ∪ off)).
  destruct (try_orphans accept l st1 s1 q1) as [[[st' s'] q']|].
  - destruct IH as (off' & new & Hof & Em' & Hsub & Hs' & Epr & Hall & Eq & Hlen).
    + apply (drop_consistent _ Hs o (map (fun o => (hash, o)) l ++ rest)); [done| |done]. cbn. by rewrite Ep.
    + done.
    + unfold q1. destruct ok; [apply elem_of_app; by left|done].
    + exists off', (if ok then hashBlock o :: new else new).
      split. { eapply offers_next; [exact Hmo|by rewrite <- Ep|done|done|done|exact Ea|done]. }
      split; [done|]. split; [etrans; [apply union_subseteq_r|exact Hsub]|]. split; [done|]. split; [by rewrite Epr|].
      split; [constructor; [by apply Hsub, elem_of_union_l, elem_of_singleton|done]|]. unfold q1 in *.
      split; [rewrite Eq; destruct ok; by rewrite <- ?app_assoc|].
      destruct ok; rewrite ?length_app in *; cbn [length] in *; lia.
  - apply IH; [|done|unfold q1; destruct ok; [apply elem_of_app; by left|done]].
    apply (drop_consistent _ Hs o (map (fun o => (hash, o)) l ++ rest)); [done| |done]. cbn. by rewrite Ep.
Qed.

(** The orphans of the hashes before [i] in the queue have been offered. *)
Lemma work_loop_spec fuel i st s q off : consistent s -> mapOrphanBlocks s = remaining off m ->
  (i <= length q)%nat -> (length q + size (mapOrphanBlocks s) < fuel + i)%nat ->
  (forall h o, m !! h = Some o -> hashPrev o ∈ take i q -> h ∈ off) ->
  match work_loop accept fuel i st s q with
  | None => exists st b, accept st b = None
  | Some (st', s', q') => exists off', offers m q off st q' off' st' /\ mapOrphanBlocks s' = remaining off' m /\
      consistent s' /\ forall h o, m !! h = Some o -> hashPrev o ∈ q' -> h ∈ off'
  end.
Proof.
  revert i st s q off. induction fuel as [|fuel IH]; intros i st s q off Hs Em Hi Hf Hc; [lia|]. cbn [work_loop].
  destruct (q !! i) as [hash|] eqn:Eq.
  - pose proof (range_perm hash (mapOrphanBlocksByPrev s)) as Hp.
    pose proof (try_orphans_spec hash (Multimap.equal_range hash (mapOrphanBlocksByPrev s)) st s q off
      (Multimap.erase hash (mapOrphanBlocksByPrev s)) (consistent_perm _ _ Hp Hs) Em (list_elem_of_lookup_2 _ _ _ Eq)) as Ht.
    destruct (try_orphans _ _ _ _ _) as [[[st1 s1] q1]|]; [|done]. cbn [mbind option_bind].
    destruct Ht as (off1 & new & Hof & Em1 & Hsub & Hs1 & Epr & Hall & -> & Hlen).
    assert (S i <= length q)%nat as Hi' by (apply lookup_lt_Some in Eq; lia).
    assert (erase_parent hash s1 = with_prev (Multimap.erase hash (mapOrphanBlocksByPrev s)) s1) as Er.
    { unfold erase_parent. by rewrite Epr. }
    assert (forall h o, m !! h = Some o -> hashPrev o ∈ take (S i) (q ++ new) -> h ∈ off1) as Hc1.
    { intros h o Ho Hin. rewrite take_app_le in Hin by lia. rewrite (take_S_r _ _ _ Eq) in Hin.
      apply elem_of_app in Hin as [Hin|Hin]; [apply Hsub; by eapply Hc|]. apply list_elem_of_singleton in Hin.
      destruct (decide (h ∈ off)) as [?|Hn]; [by apply Hsub|].
      assert (mapOrphanBlocks s !! h = Some o) as Hso by (rewrite Em; by apply map_lookup_filter_Some).
      rewrite <- (con_key s Hs h o Hso). rewrite Forall_forall in Hall. apply Hall.
      unfold Multimap.equal_range. apply list_elem_of_fmap. exists (hash, o). split; [done|].
      apply list_elem_of_filter. split; [done|]. apply (entry_iff s Hs). cbn. split; [done|].
      by rewrite (con_key s Hs h o Hso). }
    rewrite <- Er in Hs1.
    specialize (IH (S i) st1 (erase_parent hash s1) (q ++ new) off1 Hs1 Em1 ltac:(rewrite length_app; lia) ltac:(cbn; lia) Hc1).
    destruct (work_loop _ _ _ _ _ _) as [[[st' s'] q']|]; [|done].
    destruct IH as (off' & Hof' & H'). exists off'. split; [by eapply offers_trans|done].
  - exists off. split; [constructor|]. split; [done|]. split; [done|]. apply lookup_ge_None in Eq.
    intros h o Ho Hin. apply (Hc h o Ho). by rewrite take_ge by lia.
Qed.
End run.

(** What the queue has done when it returns, and that only a failure of [accept] stops it. *)
Lemma process_queue_spec hash_of hash st s : consistent s -> carries hash_of (mapOrphanBlocks s) ->
  match process_queue accept hash st s with
  | None => exists st b, accept st b = None
  | Some (st', s', q) => exists off, offers (mapOrphanBlocks s) [hash] ∅ st q off st' /\
      (forall h o, mapOrphanBlocks s !! h = Some o -> hashPrev o ∈ q -> h ∈ off) /\
      mapOrphanBlocks s' = remaining off (mapOrphanBlocks s) /\ consistent s'
  end.
Proof.
  intros Hs Hm. unfold process_queue.
  pose proof (work_loop_spec hash_of _ Hm (2 + size (mapOrphanBlocks s)) 0 st s [hash] ∅ Hs) as Hw.
  destruct (work_loop _ _ _ _ _ _) as [[[st' s'] q]|].
  - destruct Hw as (off & H1 & H2 & H3 & H4); [by rewrite remaining_empty|cbn; lia..|by intros ? ? _ ?%not_elem_of_nil|].
    by exists off.
  - apply Hw; [by rewrite remaining_empty|cbn; lia..|by intros ? ? _ ?%not_elem_of_nil].
Qed.

(** C28. The work queue terminates and resolves the orphans that waited for a block: each orphan whose
    parent was accepted is offered to [AcceptBlock] exactly once, after its parent, it leaves the
    holding area whether it is accepted or not, and all the others stay. *)
Theorem process_queue_resolves hash_of hash st s : consistent s -> carries hash_of (mapOrphanBlocks s) ->
  (forall st b, is_Some (accept st b)) ->
  exists st' s' q off, process_queue accept hash st s = Some (st', s', q) /\
    offers (mapOrphanBlocks s) [hash] ∅ st q off st' /\
    (forall h o, mapOrphanBlocks s !! h = Some o -> hashPrev o ∈ q -> h ∈ off) /\
    mapOrphanBlocks s' = remaining off (mapOrphanBlocks s) /\ consistent s'.
Proof.
  intros Hs Hm Ha. pose proof (process_queue_spec hash_of hash st s Hs Hm) as Hq.
  destruct (process_queue _ _ _ _) as [[[st' s'] q]|].
  - destruct Hq as (off & Hq). by exists st', s', q, off.
  - destruct Hq as (st' & b & E). destruct (Ha st' b). congruence.
Qed.
End facts.
End WorkQueueFacts.

Module ProcessBlockFacts.
Import BlockFacts WorkQueueFacts ActivateFacts.
Section facts.
Context `{BNLib} `{Digests} `{ECLib} `{SigEnv} `{NodeEnv}.
Context (ReadBlock : Z -> Z -> option CBlock).
Context (TestNet over_free_limit : bool) (HashGenesisBlock LastPOWBlock bnProofOfStakeLimit : Z).
Context (WriteToDisk : CBlock -> option (Z * Z)).
Context (loading : bool) (time : Z) (insecure_rand : nat -> Z) (maxorphanblocksmib : Z).

#[local] Abbreviation accept_block := (ProcessBlock.accept_block ReadBlock TestNet over_free_limit HashGenesisBlock LastPOWBlock
  bnProofOfStakeLimit WriteToDisk).
#[local] Abbreviation accept_orphan := (ProcessBlock.accept_orphan ReadBlock TestNet over_free_limit HashGenesisBlock LastPOWBlock
  bnProofOfStakeLimit WriteToDisk).

(** *** [AcceptBlock] adds one hash to the index at most *)
Definition added (h : Z) (c c' : ChainState) : Prop :=
  forall k, is_Some (mapBlockIndex c' !! k) -> k = h \/ is_Some (mapBlockIndex c !! k).

Lemma same_blocks_lookup m m' k : same_blocks m m' -> is_Some (m' !! k) -> is_Some (m !! k).
Proof.
  intros Hs Hk. apply (f_equal (fun m => m !! k)) in Hs. rewrite !lookup_fmap in Hs.
  destruct Hk as [n Hk]. rewrite Hk in Hs. cbn in Hs. by apply fmap_Some in Hs as (n' & -> & _).
Qed.

Lemma AddToBlockIndex_added c block file blockpos proof c' ok :
  AddToBlockIndex ReadBlock TestNet over_free_limit HashGenesisBlock c block file blockpos proof = Some (c', ok) ->
  added (BlockHash block) c c'.
Proof.
  unfold AddToBlockIndex, added. case_bool_decide; [intros [= <- <-]; by right|].
  destruct (new_index _ _ _ _ _) as [[b pprev]|d|]; [|intros [= <- <-]; by right|done].
  set (m := <[BlockHash block := (b, pprev)]> (mapBlockIndex c)).
  assert (forall k, is_Some (m !! k) -> k = BlockHash block \/ is_Some (mapBlockIndex c !! k)) as Hm.
  { intros k [n Hn]. apply lookup_insert_Some in Hn as [[<- _]|[_ Hn]]; [by left|right; by exists n]. }
  cbn [TxnBegin TxnCommit db_write db_read default mbind option_bind]. destruct (_ <? _).
  - destruct (SetBestChain _ _ _ _ _ _ _ _) as [[[c1 batch] ok1]|] eqn:E; [|done]. intros [= -> ->] k Hk.
    apply SetBestChain_cases in E as [_ E]. apply Hm. assert (same_blocks m (mapBlockIndex c')) as Hs.
    { destruct ok; [apply E|]. exact (mv_blocks _ _ (rf_moved _ _ _ E)). }
    by apply (same_blocks_lookup m (mapBlockIndex c')).
  - intros [= <- <-]. exact Hm.
Qed.

Lemma accept_block_spec c b c' v : coherent c -> accept_block c b = Some (c', v) ->
  coherent c' /\ added (BlockHash b) c c' /\ (forall k, is_Some (mapBlockIndex c !! k) -> is_Some (mapBlockIndex c' !! k)) /\
  (v = TxCheck.Accept -> is_Some (mapBlockIndex c' !! BlockHash b)).
Proof.
  intros Hc. unfold ProcessBlock.accept_block, AcceptBlock. destruct (check_accept _ _ _ _ _) as [[proof ca]|d|]; [| |done].
  2: { intros [= <- <-]. split; [done|]. split; [by right|]. by split. }
  destruct (WriteToDisk b) as [[file blockpos]|].
  2: { intros [= <- <-]. split; [by apply AcceptBlockFacts.with_pool_coherent|]. split; [by right|]. by split. }
  destruct (AddToBlockIndex _ _ _ _ _ _ _ _ _) as [[c1 ok]|] eqn:Ea; [|done]. cbn [mbind option_bind]. intros [= <- <-].
  pose proof (AddToBlockIndex_added _ _ _ _ _ _ _ Ea) as Hadd.
  apply add_best in Ea as (Hc' & _ & Hold & Hnew); [|by apply AcceptBlockFacts.with_pool_coherent].
  split; [done|]. split; [exact Hadd|]. split.
  - intros k [n Hn]. destruct (Hold k n Hn) as (n' & Hn' & _). by exists n'.
  - destruct ok; [|done]. intros _. destruct Hnew as (n & Hn & _); [done|]. by exists n.
Qed.

Lemma accept_orphan_spec c b c' ok : coherent c -> accept_orphan c b = Some (c', ok) ->
  coherent c' /\ added (BlockHash b) c c' /\ (forall k, is_Some (mapBlockIndex c !! k) -> is_Some (mapBlockIndex c' !! k)).
Proof.
  intros Hc. unfold ProcessBlock.accept_orphan. fold accept_block.
  destruct (accept_block c b) as [[c1 v]|] eqn:E; [|done]. cbn [mbind option_bind]. intros [= <- _].
  by apply accept_block_spec in E as (? & ? & ? & _).
Qed.

Lemma put_block_inj b b' : wf_block b -> wf_block b' -> put b = put b' -> b = b'.
Proof.
  intros Hb Hb' E. pose proof (get_put b [] Hb) as E1. rewrite E, (get_put b' [] Hb') in E1. congruence.
Qed.

(** Offering orphans adds to the index only hashes of orphans that were offered. *)
Lemma offers_index m acc off c acc' off' c' : offers accept_orphan m acc off c acc' off' c' -> carries BlockHash m -> coherent c ->
  coherent c' /\ off ⊆ off' /\ (forall k, is_Some (mapBlockIndex c !! k) -> is_Some (mapBlockIndex c' !! k)) /\
  (forall k, is_Some (mapBlockIndex c' !! k) -> is_Some (mapBlockIndex c !! k) \/ k ∈ off') /\
  (forall h, h ∈ acc -> h ∈ acc').
Proof.
  intros Ho Hm. induction Ho as [acc off c|acc off c h o b c1 ok acc' off' c' Eo Hp Hn Ev Hb Ea Ho IH]; intros Hc.
  { split; [done|]. split; [done|]. split; [done|]. split; [by left|done]. }
  destruct (Hm h o Eo) as (b' & Hb' & Ev' & Eh & _). rewrite Ev in Ev'. apply put_block_inj in Ev' as <-; [|done..].
  apply accept_orphan_spec in Ea as (Hc1 & Hadd & Hkeep); [|done]. change (BlockHash (built_tree b)) with (BlockHash b) in Hadd.
  destruct (IH Hc1) as (Hc' & Hoff & Hk & Hk' & Hacc).
  split; [done|]. split; [etrans; [apply union_subseteq_r|exact Hoff]|]. split; [auto|]. split.
  - intros k Hi. destruct (Hk' k Hi) as [[->|?]%Hadd|?]; [right|by left|by right].
    by apply Hoff, elem_of_union_l, elem_of_singleton.
  - intros h' Hh'. apply Hacc. destruct ok; [apply elem_of_app; by left|done].
Qed.

(** *** The invariant of the holding area *)
(** The maps of orphans are consistent, each orphan carries its block, and no orphan is in the index. *)
Record well (s : NodeState) : Prop := {
  well_chain : coherent (chain s);
  well_pool : consistent (orphan_blocks s);
  well_carries : carries BlockHash (mapOrphanBlocks (orphan_blocks s));
  well_apart h : is_Some (mapOrphanBlocks (orphan_blocks s) !! h) -> mapBlockIndex (chain s) !! h = None
}.

Lemma IsInitialBlockDownload_same s d s' : IsInitialBlockDownload TestNet time s = Some (d, s') ->
  chain s' = chain s /\ orphan_blocks s' = orphan_blocks s.
Proof.
  unfold IsInitialBlockDownload. destruct (best_block (chain s)) as [best|]; [|by intros [= _ <-]].
  destruct (_ <? _); [by intros [= _ <-]|]. case_bool_decide; cbn.
  - destruct (_ <? 15); [|by intros [= _ <-]]. destruct (mapBlockIndex _ !! _) as [[b pp]|]; [|done]. by intros [= _ <-].
  - destruct (_ <? 15); [|by intros [= _ <-]]. destruct (mapBlockIndex _ !! _) as [[b pp]|]; [|done]. by intros [= _ <-].
Qed.

(** What became of a block that arrived: it is held, it is in the index and no orphan waits for it any
    longer, or nobody sent it and it was dropped. *)
Inductive settled (s : NodeState) (pfrom : option CNode) (b : CBlock) (s' : NodeState) : Prop :=
  | is_held o : mapOrphanBlocks (orphan_blocks s') !! BlockHash b = Some o -> hashPrev o = hashPrevBlock b ->
      mapBlockIndex (chain s) !! hashPrevBlock b = None -> chain s' = chain s -> settled s pfrom b s'
  | is_indexed : is_Some (mapBlockIndex (chain s') !! BlockHash b) ->
      (forall h o, mapOrphanBlocks (orphan_blocks s') !! h = Some o -> hashPrev o <> BlockHash b) -> settled s pfrom b s'
  | is_dropped : pfrom = None -> s' = s -> mapBlockIndex (chain s) !! hashPrevBlock b = None -> settled s pfrom b s'.

#[local] Abbreviation hold := (ProcessBlock.hold_orphan TestNet HashGenesisBlock time insecure_rand maxorphanblocksmib).

Lemma hold_orphan_spec s pfrom b s' p' v : well s -> wf_block b ->
  mapBlockIndex (chain s) !! BlockHash b = None -> mapBlockIndex (chain s) !! hashPrevBlock b = None ->
  mapOrphanBlocks (orphan_blocks s) !! BlockHash b = None ->
  hold s pfrom b (BlockHash b) = Some (s', p', v) ->
  well s' /\ chain s' = chain s /\ (v = TxCheck.Accept -> settled s pfrom b s') /\ (v <> TxCheck.Accept -> s' = s).
Proof.
  intros [W1 W2 W3 W4] Hb Hn Hp Ho. unfold ProcessBlock.hold_orphan. destruct pfrom as [n|].
  2: { intros [= <- _ <-]. split; [by split|]. split; [done|]. split; [|done]. intros _. by apply is_dropped. }
  destruct (duplicate_stake _ _ _ _); [intros [= <- _ <-]; split; [by split|done]|].
  destruct (PruneOrphanBlocks _ _ _) as [pool|] eqn:Epr; [|done]. cbn [mbind option_bind].
  apply prune_loop_consistent in Epr as (Hpool & Hsub & _); [|done].
  set (o := mk_orphan_block (BlockHash b) (hashPrevBlock b) (Block.GetProofOfStake b) (put b)).
  set (pool1 := add_orphan o (Block.IsProofOfStake b) pool).
  destruct (add_orphan_consistent o (Block.IsProofOfStake b) pool Hpool) as [Hpool1 Em].
  { cbn. by apply (lookup_weaken_None _ (mapOrphanBlocks (orphan_blocks s))). }
  fold pool1 in Hpool1, Em. cbn [hashBlock o] in Em.
  assert (mapOrphanBlocks pool1 !! BlockHash b = Some o) as Hheld by (rewrite Em; apply lookup_insert_eq).
  set (s1 := mk_node_state (chain s) pool1 (nLastUpdate s) (pindexLastBest s)).
  assert (well s1) as Hw.
  { split; [done|done| |]; change (orphan_blocks s1) with pool1; change (chain s1) with (chain s).
    - intros h o'. rewrite Em. intros [[<- <-]|[_ E]]%lookup_insert_Some; [by exists b|].
      apply W3. by eapply lookup_weaken.
    - intros h. rewrite Em. intros [o' [[<- _]|[_ E]]%lookup_insert_Some]; [done|]. apply W4. exists o'. by eapply lookup_weaken. }
  assert (forall s2, chain s2 = chain s1 -> orphan_blocks s2 = orphan_blocks s1 ->
    well s2 /\ chain s2 = chain s /\ settled s (Some n) b s2) as Hgood.
  { intros s2 Ec Epool. split; [destruct Hw; split; by rewrite ?Ec, ?Epool|]. split; [by rewrite Ec|].
    apply (is_held _ _ _ _ o); [|done|done|by rewrite Ec]. rewrite Epool. exact Hheld. }
  clearbody pool1 s1. destruct (GetOrphanRoot _ _) as [root|]; [|done]. cbn [mbind option_bind].
  destruct (IsInitialBlockDownload _ _ _) as [[d s2]|] eqn:Ei; [|done]. cbn [mbind option_bind].
  apply IsInitialBlockDownload_same in Ei as [Ec Epool]. destruct (Hgood s2 Ec Epool) as (G1 & G2 & G3).
  destruct d; [by intros [= <- _ <-]|]. destruct (WantedByOrphan _ _); [|done]. cbn [mbind option_bind]. by intros [= <- _ <-].
Qed.

Lemma check_encoding_block pfrom b p b1 : check_encoding pfrom b = (p, Some b1) ->
  (b1 = b \/ exists sig, PrivKey.EnsureLowS (vchBlockSig b) = (true, sig) /\ b1 = with_sig sig b) /\ (p = None <-> pfrom = None).
Proof.
  unfold check_encoding. destruct (negb _); [done|]. destruct (negb _); [|by intros [= <- <-]; split; [left|]].
  destruct (PrivKey.EnsureLowS (vchBlockSig b)) as [ok sig]. destruct pfrom as [n|]; [destruct (_ <=? _)|]; [done| |];
    (destruct ok; intros [= <- <-]; split; [|done]; right; by exists sig).
Qed.

(** The acceptance of a block with a known parent, and of the orphans that waited for it. *)
Lemma resolve_spec s b c c2 pool q upd last : well s -> mapOrphanBlocks (orphan_blocks s) !! BlockHash b = None ->
  accept_block (chain s) b = Some (c, TxCheck.Accept) ->
  process_queue accept_orphan (BlockHash b) c (orphan_blocks s) = Some (c2, pool, q) ->
  well (mk_node_state c2 pool upd last) /\ is_Some (mapBlockIndex c2 !! BlockHash b) /\
  (forall h o, mapOrphanBlocks pool !! h = Some o -> hashPrev o <> BlockHash b).
Proof.
  intros [W1 W2 W3 W4] Ho Ea Eq. apply accept_block_spec in Ea as (Hc & Hadd & _ & Hin); [|done].
  pose proof (process_queue_spec accept_orphan BlockHash (BlockHash b) c (orphan_blocks s) W2 W3) as Hq. rewrite Eq in Hq.
  destruct Hq as (off & Hof & Hclosed & Em & Hpool).
  apply offers_index in Hof as (Hc2 & _ & Hkeep & Hnew & Hacc); [|done|done].
  assert (forall h o, mapOrphanBlocks pool !! h = Some o -> mapOrphanBlocks (orphan_blocks s) !! h = Some o /\ h ∉ off) as Hrem.
  { intros h o. rewrite Em. unfold remaining. rewrite map_lookup_filter_Some. by intros [? ?]. }
  split; [|split; [by apply Hkeep, Hin|]].
  - split; cbn [chain orphan_blocks]; [done|done| |].
    + intros h o [Hh _]%Hrem. by apply W3.
    + intros h [o [Hh Hoff]%Hrem]. apply eq_None_not_Some. intros [[->|Hk]%Hadd|Hk]%Hnew; [congruence| |done].
      rewrite (W4 h) in Hk by (by exists o). by apply is_Some_None in Hk.
  - intros h o [Hh Hoff]%Hrem Ep. apply Hoff, (Hclosed h o Hh). rewrite Ep. apply Hacc. by apply list_elem_of_singleton.
Qed.

#[local] Abbreviation ProcessBlock := (ProcessBlock.ProcessBlock ReadBlock TestNet over_free_limit HashGenesisBlock LastPOWBlock
  bnProofOfStakeLimit WriteToDisk loading time insecure_rand maxorphanblocksmib).

(** C27. [ProcessBlock] keeps the holding area sound: its two maps, its size and its coinstakes agree, each
    orphan carries its block, and no block is both held and in the index.  A block that is
    reported as processed is in one of three cases: it is held for want of its parent; it is in
    the index, with no orphan left waiting for it; or its parent is missing and no peer sent it, as
    when blocks are imported from a file, and then it has been dropped although the report
    is the same.  A refused block leaves the holding area as it was. *)
Theorem ProcessBlock_settles s pfrom b s' p' v : well s -> wf_block b ->
  (forall sig, PrivKey.EnsureLowS (vchBlockSig b) = (true, sig) -> zlen sig <= MAX_SIZE) ->
  ProcessBlock s pfrom b = Some (s', p', v) ->
  well s' /\ (v = TxCheck.Accept -> settled s pfrom b s') /\ (v <> TxCheck.Accept -> orphan_blocks s' = orphan_blocks s).
Proof.
  intros Hw Hb Hlow. unfold ProcessBlock.ProcessBlock.
  case_bool_decide as Hn; [by intros [= <- _ <-]|]. case_bool_decide as Ho; [by intros [= <- _ <-]|].
  apply eq_None_not_Some in Hn, Ho. destruct (negb loading && _); [by intros [= <- _ <-]|].
  destruct (too_old _ _) as [[|]|]; [by intros [= <- _ <-]| |done]. cbn [mbind option_bind].
  destruct (check_encoding pfrom b) as [p [b1|]] eqn:Es; [|by intros [= <- _ <-]].
  apply check_encoding_block in Es as [Hb1 Hpn].
  assert (wf_block b1 /\ BlockHash b1 = BlockHash b /\ hashPrevBlock b1 = hashPrevBlock b) as (Hwf & Eh & Ep).
  { destruct Hb1 as [->|(sig & Esig & ->)]; [done|]. split; [|done].
    destruct Hb as (? & ? & ? & ? & ? & ? & ? & _ & ?). repeat (split; [done|]). split; [by apply Hlow|done]. }
  assert (forall s', settled s p b1 s' -> settled s pfrom b s') as Hset.
  { intros s1 []; rewrite ?Eh, ?Ep in *; [by eapply is_held|by apply is_indexed|].
    apply is_dropped; [by apply Hpn|done|done]. }
  rewrite <- Eh in Hn, Ho |- *. clear Hb1 Hb Hlow Eh Ep.
  destruct (BlockCheck.CheckBlock _ _ _ _ _ _ _ _); [|by intros [= <- _ <-]].
  case_bool_decide as Hp.
  { intros E%hold_orphan_spec; [|done..]. destruct E as (W & _ & Hs & Hr). split; [done|]. split; [auto|]. intros Hv. by rewrite (Hr Hv). }
  destruct (accept_block (chain s) b1) as [[c v1]|] eqn:Ea; [|done]. cbn [mbind option_bind]. destruct v1 as [|nDoS].
  - destruct (process_queue _ _ _ _) as [[[c2 pool] q]|] eqn:Eq; [|done]. cbn [mbind option_bind]. intros [= <- _ <-].
    destruct (resolve_spec s b1 c c2 pool q (nLastUpdate s) (pindexLastBest s) Hw Ho Ea Eq) as (W & Hi & Hr).
    split; [done|]. split; [|done]. intros _. apply Hset. by apply is_indexed.
  - intros [= <- _ <-]. split; [|done]. apply accept_block_spec in Ea as (Hc & Hadd & _); [|apply Hw].
    destruct Hw as [W1 W2 W3 W4]. split; cbn [chain orphan_blocks]; [done|done|done|].
    intros h Hh. apply eq_None_not_Some. intros [->|Hk]%Hadd.
    + rewrite Ho in Hh. by apply is_Some_None in Hh.
    + rewrite (W4 h Hh) in Hk. by apply is_Some_None in Hk.
Qed.
End facts.
End ProcessBlockFacts.
