(* ===== verification/ActivateExamples.v ===== *)
(** * ActivateExamples: a small block tree on which the theorems of ActivateFacts are applied *)

From S2P Require Import Prelude BigNum ScriptOps Serialize Crypto Keys Core SigHash Interp InterpFacts Standard Base58 TxCheck Block Mempool Chain Kernel Connect BlockCheck BlockConnect BlockConnectFacts Accept Checkpoints Activate ActivateFacts AcceptBlock.
Import BlockConnectExamples TreeFacts ActivateFacts AcceptBlockFacts.
(** Digests that tell the blocks of the example apart. *)
Definition mixed_digest (n : nat) (m : bytes) : bytes :=
  le_bytes n (fold_left (fun z b => (z * 1000003 + uchar b + 1) mod 2 ^ 127) m 7).
Definition mixed_digests : Digests := {|
  SHA256 := mixed_digest 32; SHA1 := mixed_digest 20; RIPEMD160 := mixed_digest 20;
  HMAC_SHA512 k m := mixed_digest 64 (k ++ m) |}.
#[local] Existing Instances ref_bn mixed_digests dummy_ec toy_env toy_node.

(** A mined block on top of [prev] whose coinbase earns [value]. *)
Definition mined (prev time value : Z) : CBlock :=
  let coinbase := mk_tx 1 time [mk_txin OutPoint.null [B#OP_1; B#OP_1] 0] [mk_txout value [B#OP_1; B#OP_NOP]] 0 in
  mk_block 7 prev (Merkle.BuildMerkleTree [Tx.GetHash coinbase]).1 time 0x1d00ffff 0 [coinbase] [] [].

Definition block_G : CBlock := Eval vm_compute in mined 0 1000 5.
Definition hash_G : Z := Eval vm_compute in BlockHash block_G.
Definition block_A1 : CBlock := Eval vm_compute in mined hash_G 1100 5.
Definition hash_A1 : Z := Eval vm_compute in BlockHash block_A1.
Definition block_A2 : CBlock := Eval vm_compute in mined hash_A1 1200 5.
Definition hash_A2 : Z := Eval vm_compute in BlockHash block_A2.
Definition block_B1 : CBlock := Eval vm_compute in mined hash_G 1300 5.
Definition hash_B1 : Z := Eval vm_compute in BlockHash block_B1.
Definition block_B2 : CBlock := Eval vm_compute in mined hash_B1 1400 5.
Definition hash_B2 : Z := Eval vm_compute in BlockHash block_B2.
(** Three blocks that earn more than their reward. *)
Definition block_B3 : CBlock := Eval vm_compute in mined hash_B2 1500 (20 * COIN).
Definition hash_B3 : Z := Eval vm_compute in BlockHash block_B3.
Definition block_C1 : CBlock := Eval vm_compute in mined hash_A1 1600 (20 * COIN).
Definition hash_C1 : Z := Eval vm_compute in BlockHash block_C1.
Definition block_F2 : CBlock := Eval vm_compute in mined hash_B1 1700 (20 * COIN).
Definition hash_F2 : Z := Eval vm_compute in BlockHash block_F2.

Definition toy_block (file blockpos : Z) : option CBlock :=
  [block_G; block_A1; block_A2; block_B1; block_B2; block_B3; block_C1; block_F2] !! Z.to_nat blockpos.

Definition toy_object (hash blockpos height trust : Z) (block : CBlock) : CBlockIndex :=
  mk_index hash None 1 blockpos trust height 0 0 (if height =? 0 then BlockIndex.BLOCK_STAKE_MODIFIER else 0) 0 OutPoint.null 0 0 7 (hashMerkleRoot block) (b_nTime block) 0x1d00ffff 0.
Definition toy_store : BlockStore := list_to_map [
  (hash_G, (toy_object hash_G 0 0 10 block_G, None));
  (hash_A1, (toy_object hash_A1 1 1 20 block_A1, Some hash_G));
  (hash_A2, (toy_object hash_A2 2 2 30 block_A2, Some hash_A1));
  (hash_B1, (toy_object hash_B1 3 1 20 block_B1, Some hash_G));
  (hash_B2, (toy_object hash_B2 4 2 30 block_B2, Some hash_B1));
  (hash_B3, (toy_object hash_B3 5 3 40 block_B3, Some hash_B2));
  (hash_C1, (toy_object hash_C1 6 2 30 block_C1, Some hash_A1));
  (hash_F2, (toy_object hash_F2 7 2 30 block_F2, Some hash_B1))].
Example eight_blocks : size toy_store = 8%nat.
Proof. vm_compute. reflexivity. Qed.
Definition toy_chain : ChainState :=
  mk_chain toy_store (Some hash_G) (Some hash_A1) hash_A1 1 20 0 ∅ (mk_txdb ∅ ∅ (Some hash_A1) None) Pool.empty_pool empty_cache.

Definition toy_best (block : CBlock) (h : Z) : option (ChainState * Batch * bool) :=
  SetBestChain toy_block true false hash_G toy_chain None block h.
Definition summary (o : option (ChainState * Batch * bool)) : option (option Z * Z * option Z * bool) :=
  match o with Some (s, _, ok) => Some (best_block s, hashBestChain s, db_hashBestChain (txdb s), ok) | None => None end.

(** The next block is adopted, a block that earns too much is refused, and a branch with more
    trust makes the best chain change. *)
Example adopts : summary (toy_best block_A2 hash_A2) = Some (Some hash_A2, hash_A2, Some hash_A2, true).
Proof. vm_compute. reflexivity. Qed.
(** The branch of [block_F2] is refused when its second block is, after the best block has been
    disconnected and the first block of the branch connected in the batch. *)
Example refuses_branch : summary (toy_best block_F2 hash_F2) = Some (Some hash_A1, hash_A1, Some hash_A1, false).
Proof. vm_compute. reflexivity. Qed.
Example dirty_batch :
  match Reorganize toy_block true false toy_chain (Some (txdb toy_chain)) hash_F2 with
  | Some (s, Some batch, false) => (size (tx_index (txdb s)), size (tx_index batch)) = (0%nat, 1%nat)
  | _ => False
  end.
Proof. vm_compute. reflexivity. Qed.
Example refuses : summary (toy_best block_C1 hash_C1) = Some (Some hash_A1, hash_A1, Some hash_A1, false).
Proof. vm_compute. reflexivity. Qed.
Example reorganizes : summary (toy_best block_B2 hash_B2) = Some (Some hash_B2, hash_B2, Some hash_B2, true).
Proof. vm_compute. reflexivity. Qed.
(** When the block above the intermediate one is refused, memory and database disagree: the globals
    name the refused block, the database the block below it. *)
Example secondary_failure : summary (toy_best block_B3 hash_B3) = Some (Some hash_B3, hash_B3, Some hash_B2, true).
Proof. vm_compute. reflexivity. Qed.

(** *** The store is a tree: an executable test *)
Definition tree_entry (m : BlockStore) (root : Z) (e : Z * (CBlockIndex * option Z)) : bool :=
  match e.2.2 with
  | None => (nHeight e.2.1 =? 0) && (e.1 =? root)
  | Some p => (0 <? nHeight e.2.1) && match m !! p with Some (b, _) => nHeight e.2.1 =? nHeight b + 1 | None => false end
  end.
Definition check_entries (f : Z * (CBlockIndex * option Z) -> bool) (m : BlockStore) : bool := forallb f (map_to_list m).

Lemma check_entries_sound f m h n : check_entries f m = true -> m !! h = Some n -> f (h, n) = true.
Proof.
  intros Hf E. apply (forallb_elem f (map_to_list m)); [exact Hf|]. by apply elem_of_map_to_list.
Qed.

Lemma tree_sound root m : check_entries (tree_entry m root) m = true -> tree m.
Proof.
  intros Hm. split.
  - intros h b E. apply (check_entries_sound _ _ _ _ Hm) in E. apply andb_true_iff in E as [E _]. by apply Z.eqb_eq.
  - intros h h' b b' E E'. apply (check_entries_sound _ _ _ _ Hm) in E, E'.
    apply andb_true_iff in E as [_ E%Z.eqb_eq]. apply andb_true_iff in E' as [_ E'%Z.eqb_eq]. cbn in E, E'. by rewrite E, E'.
  - intros h b p E. apply (check_entries_sound _ _ _ _ Hm) in E. apply andb_true_iff in E as [Hp E]. cbn in Hp, E.
    split; [by apply Z.ltb_lt|]. destruct (m !! p) as [[b' pp]|]; [|done]. exists b', pp. split; [done|]. by apply Z.eqb_eq.
Qed.

Lemma toy_tree : tree toy_store.
Proof. apply (tree_sound hash_G). vm_compute. reflexivity. Qed.

Lemma toy_stored h : bool_decide (is_Some (toy_store !! h)) = true -> is_Some (toy_store !! h).
Proof. apply bool_decide_eq_true. Qed.

Lemma find_fork_meet_witness : exists f, find_fork toy_store hash_A2 hash_B2 = Ok f /\ meet toy_store hash_A2 hash_B2 f.
Proof.
  refine (find_fork_meet toy_store hash_A2 hash_B2 _ _ _).
  - exact toy_tree.
  - apply toy_stored. vm_compute. reflexivity.
  - apply toy_stored. vm_compute. reflexivity.
Defined.

(** *** Applying the theorems on the best chain *)
Definition result (o : option (ChainState * bool)) : option bool := match o with Some (_, ok) => Some ok | None => None end.
Lemma result_Some o ok : result o = Some ok -> exists s, o = Some (s, ok).
Proof. destruct o as [[s b]|]; [|discriminate]. intros E. injection E as ->. by exists s. Qed.
Definition best_result (o : option (ChainState * Batch * bool)) : option bool :=
  match o with Some (_, _, ok) => Some ok | None => None end.
Lemma best_result_Some o ok : best_result o = Some ok -> exists s batch, o = Some (s, batch, ok).
Proof. destruct o as [[[s batch] b]|]; [|discriminate]. intros E. injection E as ->. by exists s, batch. Qed.

(** A branch that fails in the middle: nothing of it is left, but its trust is recorded. *)
Lemma SetBestChain_atomic_witness : exists s', toy_best block_F2 hash_F2 = Some (s', None, false) /\
  refused hash_F2 toy_chain s' /\ tx_index (txdb s') = ∅ /\ db_bestInvalidTrust (txdb s') = Some 30.
Proof.
  destruct (best_result_Some (toy_best block_F2 hash_F2) false) as (s' & batch & E); [vm_compute; reflexivity|].
  destruct (SetBestChain_atomic toy_block true false hash_G toy_chain block_F2 hash_F2 s' batch) as [Hb Hr]; [exact E|].
  exists s'. split; [rewrite E, Hb; reflexivity|]. split; [exact Hr|].
  destruct Hr as [_ _ _ _ Hi _ _ (b & pp & Eh & _ & Ht)]. split; [exact Hi|]. rewrite Ht.
  assert (nChainTrust b = 30) as ->; [|reflexivity].
  assert (nChainTrust <$> (fst <$> mapBlockIndex toy_chain !! hash_F2) = Some 30) as E30 by (vm_compute; reflexivity).
  rewrite Eh in E30. injection E30 as E30. exact E30.
Defined.

Lemma toy_coherent : coherent toy_chain.
Proof.
  split.
  - intros h n E. apply Z.eqb_eq. change ((fun e : Z * (CBlockIndex * option Z) => phashBlock e.2.1 =? e.1) (h, n) = true).
    apply (check_entries_sound _ toy_store); [vm_compute; reflexivity|exact E].
  - intros h E. injection E as <-. split; [reflexivity|]. exists (toy_object hash_A1 1 1 20 block_A1, Some hash_G).
    split; [vm_compute; reflexivity|]. split; reflexivity.
  - discriminate.
Qed.

Definition block_A3 : CBlock := Eval vm_compute in mined hash_A1 1700 5.
Definition toy_add (block : CBlock) : option (ChainState * bool) := AddToBlockIndex toy_block true false hash_G toy_chain block 1 2 0.

Lemma AddToBlockIndex_best_witness : exists s' ok, toy_add block_A3 = Some (s', ok) /\ coherent s' /\ 20 <= nBestChainTrust s'.
Proof.
  destruct (result_Some (toy_add block_A3) true) as (s' & E); [vm_compute; reflexivity|].
  exists s', true. split; [exact E|].
  destruct (AddToBlockIndex_best toy_block true false hash_G toy_chain block_A3 1 2 0 s' true) as (Hc & Ht & _).
  - exact toy_coherent.
  - exact E.
  - split; [exact Hc|exact Ht].
Defined.

Lemma SetBestChain_extends_witness : exists s', toy_best block_A2 hash_A2 = Some (s', None, true) /\ best_block s' = Some hash_A2.
Proof.
  destruct (connects_Ok (@ConnectBlock _ _ _ _ (env true toy_chain) (txdb toy_chain) (ptr toy_store (Some hash_A2)) false block_A2 empty_cache))
    as (db' & this & c' & E); [vm_compute; reflexivity|].
  destruct (SetBestChain_extends toy_block true false hash_G toy_chain block_A2 hash_A2
    (toy_object hash_A2 2 2 30 block_A2) hash_A1 db' this c') as (s' & Es & Hb & _).
  - discriminate.
  - vm_compute. reflexivity.
  - vm_compute. reflexivity.
  - apply toy_stored. vm_compute. reflexivity.
  - exact E.
  - exists s'. split; [exact Es|exact Hb].
Defined.

(** *** Accepting a block: its coinbase states the height *)
Definition stating (opcode : Z) : CBlock :=
  let coinbase := mk_tx 1 1800 [mk_txin OutPoint.null [B#opcode; B#OP_1] 0] [mk_txout 5 [B#OP_1; B#OP_NOP]] 0 in
  mk_block 7 hash_A1 (Merkle.BuildMerkleTree [Tx.GetHash coinbase]).1 1800 0x1e100000 0 [coinbase] [] [].
Definition block_D2 : CBlock := Eval vm_compute in stating OP_2.
Definition toy_AcceptBlock (block : CBlock) : option (ChainState * verdict) :=
  AcceptBlock toy_block true false hash_G 100 (2 ^ 236) (fun _ => Some (1, 8)) toy_chain block.
Definition verdict_of (o : option (ChainState * verdict)) : option verdict := match o with Some (_, v) => Some v | None => None end.
Lemma verdict_Some o v : verdict_of o = Some v -> exists s, o = Some (s, v).
Proof. destruct o as [[s w]|]; [|discriminate]. intros E. injection E as ->. by exists s. Qed.

Example wrong_height : verdict_of (toy_AcceptBlock (stating OP_3)) = Some (Reject 100).
Proof. vm_compute. reflexivity. Qed.

Lemma AcceptBlock_fits_witness : exists s', toy_AcceptBlock block_D2 = Some (s', TxCheck.Accept) /\ coherent s'.
Proof.
  destruct (verdict_Some (toy_AcceptBlock block_D2) TxCheck.Accept) as (s' & E); [vm_compute; reflexivity|].
  exists s'. split; [exact E|].
  destruct (AcceptBlock_fits toy_block true false hash_G 100 (2 ^ 236) (fun _ => Some (1, 8)) toy_chain block_D2 s') as (_ & Hc & _).
  - exact toy_coherent.
  - exact E.
  - exact Hc.
Defined.
