(* ===== verification/ProcessExamples.v ===== *)
(** * ProcessExamples: blocks that arrive out of order, on the tree of ActivateExamples *)

From S2P Require Import Prelude BigNum ScriptOps Serialize Crypto Keys Core SigHash Interp InterpFacts Standard Base58 TxCheck Block Mempool Chain Kernel Connect BlockCheck BlockConnect BlockConnectFacts Accept Checkpoints Activate ActivateFacts AcceptBlock OrphanBlocks ProcessBlock ActivateExamples.
Import BlockFacts BlockConnectExamples TreeFacts ActivateFacts OrphanBlocksFacts WorkQueueFacts ProcessBlockFacts.
#[local] Existing Instances ref_bn mixed_digests dummy_ec toy_env toy_node.

(** Two blocks above [block_D2]. *)
Definition hash_D2 : Z := Eval vm_compute in BlockHash block_D2.
Definition above (prev time opcode : Z) : CBlock :=
  let coinbase := mk_tx 1 time [mk_txin OutPoint.null [B#opcode; B#OP_1] 0] [mk_txout 5 [B#OP_1; B#OP_NOP]] 0 in
  mk_block 7 prev (Merkle.BuildMerkleTree [Tx.GetHash coinbase]).1 time 0x1e100000 0 [coinbase] [] [].
Definition block_D3 : CBlock := Eval vm_compute in above hash_D2 1900 OP_3.
Definition hash_D3 : Z := Eval vm_compute in BlockHash block_D3.
(** It states the wrong height. *)
Definition block_E4 : CBlock := Eval vm_compute in above hash_D3 2000 OP_7.
Definition hash_E4 : Z := Eval vm_compute in BlockHash block_E4.
Definition block_F5 : CBlock := Eval vm_compute in above hash_E4 2100 OP_8.
Definition hash_F5 : Z := Eval vm_compute in BlockHash block_F5.

Definition start : NodeState := mk_node_state toy_chain no_blocks 0 None.
Definition toy_peer : CNode := mk_node 70000 None 0 [].
Definition arrive (s : NodeState) (block : CBlock) : option (NodeState * option CNode * verdict) :=
  ProcessBlock toy_block true false hash_G 100 (2 ^ 236) (fun b => Some (1, 8)) false 5000 (fun _ => 0) 40 s (Some toy_peer) block.

Definition view (o : option (NodeState * option CNode * verdict)) :=
  match o with
  | Some (s, p, v) => Some (v, map fst (map_to_list (mapOrphanBlocks (orphan_blocks s))),
      bool_decide (is_Some (mapBlockIndex (chain s) !! hash_D2)), bool_decide (is_Some (mapBlockIndex (chain s) !! hash_D3)),
      pn_events <$> p)
  | None => None
  end.
Fixpoint arrivals (s : NodeState) (l : list CBlock) (block : CBlock) : option (NodeState * option CNode * verdict) :=
  match l with
  | [] => arrive s block
  | b :: l => '(s, _, _) ← arrive s b; arrivals s l block
  end.

(** A block without its parent is held, and the peer is asked for the parent. *)
Example holds : view (arrive start block_D3) =
  Some (TxCheck.Accept, [hash_D3], false, false, Some [PushGetBlocks [hash_A1; hash_G; hash_G] hash_D3; AskForBlock hash_D2]).
Proof. vm_compute. reflexivity. Qed.
(** When the parent comes, both enter the index. *)
Example resolves : view (arrivals start [block_D3] block_D2) = Some (TxCheck.Accept, [], true, true, Some []).
Proof. vm_compute. reflexivity. Qed.
(** An orphan that is refused leaves the holding area; the orphans above it stay. *)
Example strands : view (arrivals start [block_D3; block_F5; block_E4] block_D2) =
  Some (TxCheck.Accept, [hash_F5], true, true, Some []).
Proof. vm_compute. reflexivity. Qed.
(** A block that is held already is refused. *)
Example twice : view (arrivals start [block_D3] block_D3) = Some (Reject 0, [hash_D3], false, false, Some []).
Proof. vm_compute. reflexivity. Qed.

(** *** The blocks are well formed *)
Ltac check_bounds := split; [vm_compute; discriminate | vm_compute; reflexivity].
Ltac check_wf :=
  repeat match goal with
  | |- in_u _ _ => check_bounds
  | |- in_s _ _ => check_bounds
  | |- _ <= _ => vm_compute; discriminate
  | |- _ = _ => vm_compute; reflexivity
  | |- Forall _ [] => constructor
  | |- Forall _ (_ :: _) => constructor
  | |- _ /\ _ => split
  | |- wf_txin _ => unfold wf_txin, wf_outpoint; cbn [prevout scriptSig nSequence o_hash o_n]
  | |- wf_txout _ => unfold wf_txout; cbn [nValue scriptPubKey]
  | |- wf_tx _ => unfold wf_tx; cbn [nVersion nTime vin vout nLockTime]
  end.
Lemma block_D2_wf : wf_block block_D2.
Proof.
  unfold wf_block, block_D2.
  cbn [b_nVersion hashPrevBlock hashMerkleRoot b_nTime nBits nNonce vtx vchBlockSig vMerkleTree]. check_wf.
Qed.
Lemma block_D3_wf : wf_block block_D3.
Proof.
  unfold wf_block, block_D3.
  cbn [b_nVersion hashPrevBlock hashMerkleRoot b_nTime nBits nNonce vtx vchBlockSig vMerkleTree]. check_wf.
Qed.

Lemma start_well : well start.
Proof.
  split.
  - exact toy_coherent.
  - exact no_blocks_consistent.
  - intros h o E. change ((∅ : orphan_map) !! h = Some o) in E. by rewrite lookup_empty in E.
  - intros h [o E]. change ((∅ : orphan_map) !! h = Some o) in E. by rewrite lookup_empty in E.
Qed.

Lemma arrive_Some s block : bool_decide (is_Some (arrive s block)) = true -> exists s' p' v, arrive s block = Some (s', p', v).
Proof. intros [[[s' p'] v] E]%bool_decide_eq_true. by exists s', p', v. Qed.

(** The second block arrives on the state that the first one left. *)
Lemma ProcessBlock_settles_witness : exists s' p', arrive start block_D3 = Some (s', p', TxCheck.Accept) /\ well s' /\
  settled start (Some toy_peer) block_D3 s'.
Proof.
  destruct (arrive_Some start block_D3) as (s' & p' & v & E); [vm_compute; reflexivity|].
  assert (v = TxCheck.Accept) as ->.
  { pose proof holds as Hv. rewrite E in Hv. cbn [view] in Hv. by injection Hv. }
  exists s', p'. split; [exact E|].
  destruct (ProcessBlock_settles toy_block true false hash_G 100 (2 ^ 236) (fun b => Some (1, 8)) false 5000 (fun _ => 0) 40
    start (Some toy_peer) block_D3 s' p' TxCheck.Accept) as (Hw & Hs & _).
  - exact start_well.
  - exact block_D3_wf.
  - intros sig. discriminate.
  - exact E.
  - split; [exact Hw|]. by apply Hs.
Defined.

Definition orphan_D3 : COrphanBlock := mk_orphan_block hash_D3 hash_D2 (Block.GetProofOfStake block_D3) (put block_D3).
Definition pool_D3 : OrphanPool := add_orphan orphan_D3 false no_blocks.
Lemma pool_D3_carries : carries BlockHash (mapOrphanBlocks pool_D3).
Proof.
  change (mapOrphanBlocks pool_D3) with (<[hash_D3 := orphan_D3]> (∅ : orphan_map)).
  intros h o [[<- <-]|[_ E]]%lookup_insert_Some; [|by rewrite lookup_empty in E].
  exists block_D3. split; [exact block_D3_wf|]. split; [reflexivity|]. split; [vm_compute; reflexivity|]. split; reflexivity.
Qed.

(** An acceptance that accepts everything and notes the hashes. *)
Definition note (st : list Z) (b : CBlock) : option (list Z * bool) := Some (st ++ [BlockHash b], true).
Lemma process_queue_resolves_witness : exists st' s' q, process_queue note hash_D2 [] pool_D3 = Some (st', s', q) /\ consistent s'.
Proof.
  destruct (process_queue_resolves note BlockHash hash_D2 [] pool_D3) as (st' & s' & q & off & E & _ & _ & _ & Hc).
  - by apply add_orphan_consistent; [exact no_blocks_consistent|].
  - exact pool_D3_carries.
  - intros st b. by eexists.
  - exists st', s', q. split; [exact E|exact Hc].
Defined.
