(* ===== verification/Catalog.v ===== *)
(** * Catalog: the data of a Qt translation catalogue and its lookup

    The data types of a [.ts] file ([qt/locale/bitcoin_fa.ts] is the catalogue
    the development carries), the reading of XML character data, the checks a
    catalogue must pass, and the interface the program uses it through: a
    translator, a function of a context and a source text, which is Qt's and
    stands here as a class with the documented law of
    [QCoreApplication::translate]. *)

From S2P Require Import Prelude.

(** ** Character data *)
Module Text.

(** The predefined entities of XML, the only ones a [.ts] file uses. *)
Definition entities : list (bytes * byte) :=
  [(raw "amp", "&"%byte); (raw "lt", "<"%byte); (raw "gt", ">"%byte);
   (raw "quot", Byte.x22); (raw "apos", "'"%byte)].

Fixpoint assoc (name : bytes) (table : list (bytes * byte)) : option byte :=
  match table with
  | [] => None
  | (n, b) :: rest => if decide (n = name) then Some b else assoc name rest
  end.

(** The characters a text denotes. [pending] holds the name of the entity
    being read, last byte first. [None]: an unknown or unterminated entity, or
    a bare [<]. *)
Fixpoint unescape_from (pending : option bytes) (l : bytes) : option bytes :=
  match l, pending with
  | [], None => Some []
  | [], Some _ => None
  | "&"%byte :: rest, None => unescape_from (Some []) rest
  | "<"%byte :: _, None => None
  | b :: rest, None => cons b <$> unescape_from None rest
  | ";"%byte :: rest, Some name =>
      match assoc (rev name) entities with
      | Some b => cons b <$> unescape_from None rest
      | None => None
      end
  | b :: rest, Some name => unescape_from (Some (b :: name)) rest
  end.

Definition unescape (t : text) : option bytes := unescape_from None (raw t).

(** The characters of a text that is known to be well formed. *)
Definition chars (t : text) : bytes := default [] (unescape t).

(** The inverse, as a writer of XML makes it. *)
Definition escape_byte (b : byte) : bytes :=
  match b with
  | "&"%byte => raw "&amp;"
  | "<"%byte => raw "&lt;"
  | ">"%byte => raw "&gt;"
  | Byte.x22 => raw "&quot;"
  | "'"%byte => raw "&apos;"
  | _ => [b]
  end.

Definition escape (l : bytes) : text := Text (concat (map escape_byte l)).

Lemma unescape_from_escape_byte b l :
  unescape_from None (escape_byte b ++ l) = cons b <$> unescape_from None l.
Proof. by destruct b. Qed.

(** Reading what was written gives the characters back. *)
Lemma unescape_escape l : unescape (escape l) = Some l.
Proof.
  unfold unescape, escape. cbn [raw]. induction l as [|b l IH]; [done|].
  cbn [map concat]. by rewrite unescape_from_escape_byte, IH.
Qed.

(** Well-formed UTF-8: [need] continuation bytes are awaited, the next one
    between [lo] and [hi] (the narrower ranges exclude overlong forms,
    surrogates and values above U+10FFFF). *)
Fixpoint utf8_from (need : nat) (lo hi : Z) (l : bytes) : bool :=
  match l, need with
  | [], O => true
  | [], S _ => false
  | b :: rest, S n =>
      (lo <=? uchar b) && (uchar b <=? hi) && utf8_from n 128 191 rest
  | b :: rest, O =>
      let u := uchar b in
      if u <? 128 then utf8_from 0 128 191 rest
      else if u <? 194 then false
      else if u <? 224 then utf8_from 1 128 191 rest
      else if u =? 224 then utf8_from 2 160 191 rest
      else if u =? 237 then utf8_from 2 128 159 rest
      else if u <? 240 then utf8_from 2 128 191 rest
      else if u =? 240 then utf8_from 3 144 191 rest
      else if u <? 244 then utf8_from 3 128 191 rest
      else if u =? 244 then utf8_from 3 128 143 rest
      else false
  end.

Definition utf8 (l : bytes) : bool := utf8_from 0 128 191 l.

(** The place markers of a text: [%1] to [%9], which [QString::arg] replaces,
    and [%n], the number of a plural form. *)
Fixpoint markers (l : bytes) : bytes :=
  match l with
  | "%"%byte :: rest =>
      match rest with
      | b :: _ =>
          if ((49 <=? uchar b) && (uchar b <=? 57)) || (uchar b =? 110)
          then b :: markers rest else markers rest
      | [] => []
      end
  | _ :: rest => markers rest
  | [] => []
  end.

End Text.
Export Text.

(** ** The catalogue *)
Module Catalogue.

(** [<location filename="..." line="+N"/>]: the line is relative to the
    previous location of the file, which is named where it changes. *)
Inductive location :=
  | In (filename : text) (line : Z)
  | At (line : Z).

(** The content of [<translation>]: a text, or the plural forms of a message
    with [numerus="yes"]. *)
Inductive forms :=
  | Plain (t : text)
  | NumerusForms (fs : list text).

(** [<translation>] and [<translation type="unfinished">]. *)
Inductive translation :=
  | Finished (f : forms)
  | Unfinished (f : forms).

Record message := Message {
  numerus : bool;
  locations : list location;
  source : text;
  translated : translation }.

Record context := TsContext {
  name : text;
  messages : list message }.

Record catalogue := TS {
  version : text;
  language : text;
  contexts : list context }.

Definition texts_of (f : forms) : list text :=
  match f with Plain t => [t] | NumerusForms fs => fs end.

(** *** Lookup *)

Definition has_source (src : bytes) (m : message) : bool :=
  bool_decide (unescape (source m) = Some src).

Definition has_name (ctx : bytes) (c : context) : bool :=
  bool_decide (unescape (name c) = Some ctx).

Definition lookup_message (cat : catalogue) (ctx src : bytes) : option message :=
  match List.find (has_name ctx) (contexts cat) with
  | Some c => List.find (has_source src) (messages c)
  | None => None
  end.

Definition forms_of (m : message) : forms :=
  match translated m with Finished f | Unfinished f => f end.

(** The characters of a text that is not empty. *)
Definition filled (t : text) : option bytes :=
  match unescape t with
  | Some (b :: l) => Some (b :: l)
  | _ => None
  end.

(** The text shown for a message, with its [%n] still to be replaced by the
    number: the first form, for a message with a number as for any other (Farsi
    has one plural form, and the first one answers where no number is given).
    [lrelease], as the Makefile runs it, leaves a message with an empty first
    form out, and then there is no translation. *)
Definition shown (m : message) : option bytes :=
  match texts_of (forms_of m) with
  | t :: _ => filled t
  | [] => None
  end.

Definition catalogue_translate (cat : catalogue) (ctx src : bytes) : bytes :=
  match lookup_message cat ctx src with
  | Some m => default src (shown m)
  | None => src
  end.

(** The translator is Qt's: [QCoreApplication::translate] answers from the
    installed catalogue and gives the source text back when the catalogue has
    no translation for it. *)
Class Translator (cat : catalogue) (translate : bytes -> bytes -> bytes) := {
  translate_shown ctx src m t :
    lookup_message cat ctx src = Some m -> shown m = Some t -> translate ctx src = t;
  translate_unknown ctx src :
    lookup_message cat ctx src ≫= shown = None -> translate ctx src = src }.

#[export] Instance catalogue_translator cat : Translator cat (catalogue_translate cat).
Proof.
  split; unfold catalogue_translate.
  - intros ctx src m t -> E. by rewrite E.
  - intros ctx src. by destruct (lookup_message _ _ _) as [m|]; [|done]; intros E; cbn in E; rewrite E.
Qed.

Lemma translator_unique cat f g ctx src :
  Translator cat f -> Translator cat g -> f ctx src = g ctx src.
Proof.
  intros F G. destruct (lookup_message cat ctx src ≫= shown) as [t|] eqn:E.
  - apply bind_Some in E as (m & Em & Et).
    by rewrite (translate_shown (translate := f) _ _ m t), (translate_shown (translate := g) _ _ m t).
  - by rewrite (translate_unknown (translate := f)), (translate_unknown (translate := g)).
Qed.

(** *** Checks *)

(** A text that reads as a non-empty string of UTF-8. *)
Definition readable (t : text) : Prop :=
  utf8 (raw t) = true /\ exists b l, unescape t = Some (b :: l).

Definition same_markers (src t : text) : Prop :=
  forall b, b ∈ markers (chars src) <-> b ∈ markers (chars t).

(** The forms a message has: the plural forms of the language for a message
    with a number, one text otherwise. *)
Definition has_forms (plurals : nat) (numerus : bool) (f : forms) : Prop :=
  match f with
  | Plain _ => numerus = false
  | NumerusForms fs => numerus = true /\ length fs = plurals
  end.

(** A finished translation has every form, readable, with the place markers of
    the source and no others; an unfinished one has only empty forms. *)
Definition well_translated (plurals : nat) (m : message) : Prop :=
  match translated m with
  | Finished f =>
      has_forms plurals (numerus m) f /\
      Forall (fun t => readable t /\ same_markers (source m) t) (texts_of f)
  | Unfinished f =>
      has_forms plurals (numerus m) f /\ Forall (fun t => raw t = []) (texts_of f)
  end.

Definition well_formed (plurals : nat) (m : message) : Prop :=
  readable (source m) /\ locations m <> [] /\ well_translated plurals m.

(** The same, decided. *)
Definition text_ok (t : text) : bool :=
  utf8 (raw t) && match unescape t with Some (_ :: _) => true | _ => false end.

Definition markers_ok (src t : text) : bool :=
  let a := markers (chars src) in
  let b := markers (chars t) in
  forallb (fun m => bool_decide (m ∈ b)) a && forallb (fun m => bool_decide (m ∈ a)) b.

Definition forms_ok (plurals : nat) (numerus : bool) (f : forms) : bool :=
  match f with
  | Plain _ => negb numerus
  | NumerusForms fs => numerus && bool_decide (length fs = plurals)
  end.

Definition translation_ok (plurals : nat) (m : message) : bool :=
  match translated m with
  | Finished f =>
      forms_ok plurals (numerus m) f
      && forallb (fun t => text_ok t && markers_ok (source m) t) (texts_of f)
  | Unfinished f =>
      forms_ok plurals (numerus m) f && forallb (fun t => bool_decide (raw t = [])) (texts_of f)
  end.

Definition message_ok (plurals : nat) (m : message) : bool :=
  text_ok (source m) && bool_decide (locations m <> []) && translation_ok plurals m.

(** The first location of a context names its file. *)
Definition located (c : context) : bool :=
  match messages c with
  | m :: _ => match locations m with In _ _ :: _ => true | _ => false end
  | [] => false
  end.

Fixpoint distinct (l : list bytes) : bool :=
  match l with
  | [] => true
  | t :: rest => forallb (fun u => negb (bool_decide (t = u))) rest && distinct rest
  end.

Definition context_ok (plurals : nat) (c : context) : bool :=
  text_ok (name c) && located c && forallb (message_ok plurals) (messages c)
  && distinct (map (fun m => chars (source m)) (messages c)).

Definition catalogue_ok (plurals : nat) (cat : catalogue) : bool :=
  forallb (context_ok plurals) (contexts cat)
  && distinct (map (fun c => chars (name c)) (contexts cat)).

Lemma forallb_Forall {A} (f : A -> bool) (P : A -> Prop) l :
  (forall x, f x = true -> P x) -> forallb f l = true -> Forall P l.
Proof. intros H Hl. apply Forall_forall. intros x Hx. rewrite forallb_forall in Hl. apply H, Hl. by apply list_elem_of_In. Qed.

Lemma text_ok_spec t : text_ok t = true -> readable t.
Proof.
  unfold text_ok, readable. rewrite andb_true_iff. intros [-> H]. split; [done|].
  destruct (unescape t) as [[|b l]|]; try done. by exists b, l.
Qed.

Lemma markers_ok_spec src t : markers_ok src t = true -> same_markers src t.
Proof.
  unfold markers_ok, same_markers. rewrite andb_true_iff, !forallb_forall. intros [H K] b.
  split; intros Hb%list_elem_of_In.
  - exact (bool_decide_eq_true_1 _ (H b Hb)).
  - exact (bool_decide_eq_true_1 _ (K b Hb)).
Qed.

Lemma forms_ok_spec plurals n f : forms_ok plurals n f = true -> has_forms plurals n f.
Proof.
  destruct f; cbn; [by destruct n|]. rewrite andb_true_iff. intros [-> H].
  split; [done|]. exact (bool_decide_eq_true_1 _ H).
Qed.

Lemma message_ok_spec plurals m : message_ok plurals m = true -> well_formed plurals m.
Proof.
  unfold message_ok, well_formed, well_translated, translation_ok.
  rewrite !andb_true_iff. intros [[Hs Hl] Ht].
  split; [by apply text_ok_spec|]. split; [exact (bool_decide_eq_true_1 _ Hl)|].
  destruct (translated m) as [f|f]; apply andb_true_iff in Ht as [Hf Ht];
    (split; [by apply forms_ok_spec|]); revert Ht; apply forallb_Forall; intros t.
  - rewrite andb_true_iff. intros [H K]. split; [by apply text_ok_spec | by apply markers_ok_spec].
  - intros H. exact (bool_decide_eq_true_1 _ H).
Qed.

(** With distinct keys, the first match is the only one. *)
Lemma find_distinct {A} (key : A -> text) (l : list A) x b s :
  distinct (map (fun y => chars (key y)) l) = true -> x ∈ l -> unescape (key x) = Some (b :: s) ->
  List.find (fun y => bool_decide (unescape (key y) = Some (b :: s))) l = Some x.
Proof.
  intros Hd Hx Hk. induction l as [|y l IH]; [by apply elem_of_nil in Hx|].
  cbn [map distinct] in Hd. apply andb_true_iff in Hd as [Hy Hd]. cbn [List.find].
  apply elem_of_cons in Hx as [->|Hx]; [by rewrite bool_decide_eq_true_2|].
  rewrite bool_decide_eq_false_2; [by apply IH|]. intros E.
  rewrite forallb_forall in Hy.
  assert (negb (bool_decide (chars (key y) = chars (key x))) = true) as H.
  { apply Hy, in_map_iff. exists x. split; [done | by apply list_elem_of_In]. }
  apply negb_true_iff, bool_decide_eq_false_1 in H. apply H. unfold chars. by rewrite E, Hk.
Qed.

Section Checked.
Context (plurals : nat) (cat : catalogue) (Hok : catalogue_ok plurals cat = true).

Lemma context_checked c : c ∈ contexts cat -> context_ok plurals c = true.
Proof.
  intros Hc%list_elem_of_In. unfold catalogue_ok in Hok. apply andb_true_iff in Hok as [H _].
  rewrite forallb_forall in H. by apply H.
Qed.

Lemma message_checked c m : c ∈ contexts cat -> m ∈ messages c -> well_formed plurals m.
Proof.
  intros Hc%context_checked Hm%list_elem_of_In. unfold context_ok in Hc.
  rewrite !andb_true_iff in Hc. destruct Hc as [[_ Hc] _]. rewrite forallb_forall in Hc.
  by apply message_ok_spec, Hc.
Qed.

(** Every message is found under the name of its context and its source. *)
Lemma lookup_checked c m : c ∈ contexts cat -> m ∈ messages c ->
  lookup_message cat (chars (name c)) (chars (source m)) = Some m.
Proof.
  intros Hc Hm. pose proof (context_checked c Hc) as Hk. unfold context_ok in Hk.
  rewrite !andb_true_iff in Hk. destruct Hk as [[[Hn _] _] Hd].
  apply text_ok_spec in Hn as (_ & b & l & En).
  destruct (message_checked c m Hc Hm) as [(_ & b' & l' & Es) _].
  assert (chars (name c) = b :: l) as -> by (unfold chars; by rewrite En).
  assert (chars (source m) = b' :: l') as -> by (unfold chars; by rewrite Es).
  unfold lookup_message, has_name, has_source.
  unfold catalogue_ok in Hok. apply andb_true_iff in Hok as [_ Hnames].
  by rewrite (find_distinct name (contexts cat) c b l Hnames Hc En), (find_distinct source _ m b' l' Hd Hm Es).
Qed.

End Checked.

End Catalogue.
Export Catalogue.
