(* ===== verification/CatalogFa1.v ===== *)
(** * CatalogFa1: the Farsi translations, AboutDialog to GUIUtil::HelpMessageBox

    The messages of [qt/locale/bitcoin_fa.ts], one definition per [<context>]
    element; a context of more than 150 lines is cut between messages. The
    texts are the bytes of the file, entities included. *)

From S2P Require Import Prelude Catalog.

Local Open Scope text_scope.

Definition fa_AboutDialog : context := TsContext "AboutDialog" [
  Message false [In "../forms/aboutdialog.ui" 14]
    "About Bws"
    (Unfinished (Plain no_text));
  Message false [At 39]
    "&lt;b&gt;Bws&lt;/b&gt; version"
    (Unfinished (Plain no_text));
  Message false [At 41]
    "Copyright © 2009-2014 The Bitcoin developers
Copyright © 2012-2014 The NovaCoin developers
Copyright © 2014 The Bws developers"
    (Unfinished (Plain no_text));
  Message false [At 15]
    "
This is experimental software.

Distributed under the MIT/X11 software license, see the accompanying file COPYING or &lt;a href=&quot;http://www.opensource.org/licenses/mit-license.php&quot;&gt;http://www.opensource.org/licenses/mit-license.php&lt;/a&gt;.

This product includes software developed by the OpenSSL Project for use in the OpenSSL Toolkit (&lt;a href=&quot;https://www.openssl.org/&quot;&gt;https://www.openssl.org/&lt;/a&gt;) and cryptographic software written by Eric Young (&lt;a href=&quot;mailto:eay@cryptsoft.com&quot;&gt;eay@cryptsoft.com&lt;/a&gt;) and UPnP software written by Thomas Bernard."
    (Unfinished (Plain no_text))].

Definition fa_AddressBookPage : context := TsContext "AddressBookPage" [
  Message false [In "../forms/addressbookpage.ui" 14]
    "Address Book"
    (Unfinished (Plain no_text));
  Message false [At 22]
    "Double-click to edit address or label"
    (Finished (Plain "برای ویرایش نشانی یا برچسب دوبار کلیک کنید"));
  Message false [At 24]
    "Create a new address"
    (Finished (Plain "ایجاد نشانی جدید"));
  Message false [At 10]
    "Copy the currently selected address to the system clipboard"
    (Finished (Plain "نشانی انتخاب شده را در حافظهٔ سیستم کپی کن!"));
  Message false [At (-7)]
    "&amp;New Address"
    (Unfinished (Plain no_text));
  Message false [At (-43)]
    "These are your Bws addresses for receiving payments. You may want to give a different one to each sender so you can keep track of who is paying you."
    (Unfinished (Plain no_text));
  Message false [At 53]
    "&amp;Copy Address"
    (Finished (Plain "&amp;کپی نشانی"));
  Message false [At 7]
    "Show &amp;QR Code"
    (Unfinished (Plain no_text));
  Message false [At 7]
    "Sign a message to prove you own a Bws address"
    (Unfinished (Plain no_text));
  Message false [At 3]
    "Sign &amp;Message"
    (Unfinished (Plain no_text));
  Message false [At 17]
    "Delete the currently selected address from the list"
    (Finished (Plain "حذف نشانی انتخاب‌شده از لیست"));
  Message false [At (-10)]
    "Verify a message to ensure it was signed with a specified Bws address"
    (Unfinished (Plain no_text));
  Message false [At 3]
    "&amp;Verify Message"
    (Unfinished (Plain no_text));
  Message false [At 10]
    "&amp;Delete"
    (Finished (Plain "&amp;حذف"));
  Message false [In "../addressbookpage.cpp" 66]
    "Copy &amp;Label"
    (Finished (Plain "کپی و برچسب‌&amp;گذاری"));
  Message false [At 1]
    "&amp;Edit"
    (Finished (Plain "&amp;ویرایش"));
  Message false [At 248]
    "Export Address Book Data"
    (Unfinished (Plain no_text));
  Message false [At 1]
    "Comma separated file (*.csv)"
    (Finished (Plain "پروندهٔ نوع CSV جداشونده با کاما (*.csv)"));
  Message false [At 13]
    "Error exporting"
    (Unfinished (Plain no_text));
  Message false [At 0]
    "Could not write to file %1."
    (Unfinished (Plain no_text))].

Definition fa_AddressTableModel : context := TsContext "AddressTableModel" [
  Message false [In "../addresstablemodel.cpp" 145]
    "Label"
    (Finished (Plain "برچسب"));
  Message false [At 0]
    "Address"
    (Finished (Plain "نشانی"));
  Message false [At 36]
    "(no label)"
    (Finished (Plain "(بدون برچسب)"))].

Definition fa_AskPassphraseDialog_1 : list message := [
  Message false [In "../forms/askpassphrasedialog.ui" 26]
    "Passphrase Dialog"
    (Finished (Plain "پنجرهٔ گذرواژه"));
  Message false [At 21]
    "Enter passphrase"
    (Finished (Plain "گذرواژه را وارد کنید"));
  Message false [At 14]
    "New passphrase"
    (Finished (Plain "گذرواژهٔ جدید"));
  Message false [At 14]
    "Repeat new passphrase"
    (Finished (Plain "تکرار گذرواژهٔ جدید"));
  Message false [At 33]
    "Serves to disable the trivial sendmoney when OS account compromised. Provides no real security."
    (Unfinished (Plain no_text));
  Message false [At 3]
    "For staking only"
    (Unfinished (Plain no_text));
  Message false [In "../askpassphrasedialog.cpp" 38]
    "Encrypt wallet"
    (Finished (Plain "رمزنگاری کیف پول"));
  Message false [At 7]
    "This operation needs your wallet passphrase to unlock the wallet."
    (Finished (Plain "انجام این عملیات نیازمند گذرواژهٔ کیف پول شما برای باز کردن قفل آن است."));
  Message false [At 5]
    "Unlock wallet"
    (Finished (Plain "باز کردن قفل کیف پول"));
  Message false [At 3]
    "This operation needs your wallet passphrase to decrypt the wallet."
    (Finished (Plain "انجام این عملیات نیازمند گذرواژهٔ کیف پول شما برای رمزگشایی کردن آن است."));
  Message false [At 5]
    "Decrypt wallet"
    (Finished (Plain "رمزگشایی کیف پول"));
  Message false [At 3]
    "Change passphrase"
    (Finished (Plain "تغییر گذرواژه"));
  Message false [At 1]
    "Enter the old and new passphrase to the wallet."
    (Finished (Plain "گذرواژهٔ قدیمی و جدید کیف پول را وارد کنید."));
  Message false [At 45]
    "Confirm wallet encryption"
    (Finished (Plain "تأیید رمزنگاری کیف پول"));
  Message false [At 1]
    "Warning: If you encrypt your wallet and lose your passphrase, you will &lt;b&gt;LOSE ALL OF YOUR COINS&lt;/b&gt;!"
    (Unfinished (Plain no_text));
  Message false [At 0]
    "Are you sure you wish to encrypt your wallet?"
    (Finished (Plain "آیا مطمئن هستید که می‌خواهید کیف پول خود را رمزنگاری کنید؟"));
  Message false [At 15]
    "IMPORTANT: Any previous backups you have made of your wallet file should be replaced with the newly generated, encrypted wallet file. For security reasons, previous backups of the unencrypted wallet file will become useless as soon as you start using the new, encrypted wallet."
    (Finished (Plain "مهم: هر نسخهٔ پشتیبانی که تا کنون از کیف پول خود تهیه کرده‌اید، باید با کیف پول رمزنگاری شدهٔ جدید جایگزین شود. به دلایل امنیتی، پروندهٔ قدیمی کیف پول بدون رمزنگاری، تا زمانی که از کیف پول رمزنگاری‌شدهٔ جدید استفاده نکنید، غیرقابل استفاده خواهد بود."));
  Message false [At 103; At 24]
    "Warning: The Caps Lock key is on!"
    (Finished (Plain "هشدار: کلید Caps Lock روشن است!"));
  Message false [At (-133); At 60]
    "Wallet encrypted"
    (Finished (Plain "کیف پول رمزنگاری شد"));
  Message false [At (-140)]
    "Enter the new passphrase to the wallet.&lt;br/&gt;Please use a passphrase of &lt;b&gt;ten or more random characters&lt;/b&gt;, or &lt;b&gt;eight or more words&lt;/b&gt;."
    (Unfinished (Plain no_text));
  Message false [At 82]
    "Bws will close now to finish the encryption process. Remember that encrypting your wallet cannot fully protect your coins from being stolen by malware infecting your computer."
    (Unfinished (Plain no_text));
  Message false [At 13; At 7; At 44; At 6]
    "Wallet encryption failed"
    (Finished (Plain "رمزنگاری کیف پول با خطا مواجه شد"));
  Message false [At (-56)]
    "Wallet encryption failed due to an internal error. Your wallet was not encrypted."
    (Finished (Plain "رمزنگاری کیف پول بنا به یک خطای داخلی با شکست مواجه شد. کیف پول شما رمزنگاری نشد."));
  Message false [At 7; At 50]
    "The supplied passphrases do not match."
    (Finished (Plain "گذرواژه‌های داده شده با هم تطابق ندارند."));
  Message false [At (-38)]
    "Wallet unlock failed"
    (Finished (Plain "بازگشایی قفل کیف‌پول با شکست مواجه شد"));
  Message false [At 1; At 12; At 19]
    "The passphrase entered for the wallet decryption was incorrect."
    (Finished (Plain "گذرواژهٔ وارد شده برای رمزگشایی کیف پول نادرست بود."));
  Message false [At (-20)]
    "Wallet decryption failed"
    (Finished (Plain "رمزگشایی ناموفق کیف پول"));
  Message false [At 14]
    "Wallet passphrase was successfully changed."
    (Finished (Plain "گذرواژهٔ کیف پول با موفقیت عوض شد."))].

Definition fa_AskPassphraseDialog : context := TsContext "AskPassphraseDialog"
  (fa_AskPassphraseDialog_1).

Definition fa_BitcoinGUI_1 : list message := [
  Message false [In "../bitcoingui.cpp" 297]
    "Sign &amp;message..."
    (Finished (Plain "&amp;امضای پیام..."));
  Message false [At (-64)]
    "Show general overview of wallet"
    (Finished (Plain "نمایش بررسی اجمالی کیف پول"));
  Message false [At 17]
    "&amp;Transactions"
    (Finished (Plain "&amp;تراکنش‌ها"));
  Message false [At 1]
    "Browse transaction history"
    (Finished (Plain "مرور تاریخچهٔ تراکنش‌ها"));
  Message false [At 5]
    "&amp;Address Book"
    (Unfinished (Plain no_text));
  Message false [At 1]
    "Edit the list of stored addresses and labels"
    (Unfinished (Plain no_text));
  Message false [At (-18)]
    "Show the list of addresses for receiving payments"
    (Unfinished (Plain no_text));
  Message false [At 34]
    "E&amp;xit"
    (Finished (Plain "&amp;خروج"));
  Message false [At 1]
    "Quit application"
    (Finished (Plain "خروج از برنامه"));
  Message false [At 4]
    "Show information about Bws"
    (Unfinished (Plain no_text));
  Message false [At 2]
    "About &amp;Qt"
    (Finished (Plain "دربارهٔ &amp;کیوت"));
  Message false [At 1]
    "Show information about Qt"
    (Finished (Plain "نمایش اطلاعات دربارهٔ کیوت"));
  Message false [At 2]
    "&amp;Options..."
    (Finished (Plain "&amp;تنظیمات..."));
  Message false [At 4]
    "&amp;Encrypt Wallet..."
    (Finished (Plain "&amp;رمزنگاری کیف پول..."));
  Message false [At 2]
    "&amp;Backup Wallet..."
    (Finished (Plain "&amp;پیشتیبان‌گیری از کیف پول..."));
  Message false [At 2]
    "&amp;Change Passphrase..."
    (Finished (Plain "&amp;تغییر گذرواژه..."));
  Message false [At 9]
    "&amp;Export..."
    (Unfinished (Plain no_text));
  Message false [At (-55)]
    "Send coins to a Bws address"
    (Unfinished (Plain no_text));
  Message false [At 39]
    "Modify configuration options for Bws"
    (Unfinished (Plain no_text));
  Message false [At 17]
    "Export the data in the current tab to a file"
    (Unfinished (Plain no_text));
  Message false [At (-13)]
    "Encrypt or decrypt wallet"
    (Unfinished (Plain no_text));
  Message false [At 2]
    "Backup wallet to another location"
    (Finished (Plain "تهیهٔ پشتیبان از کیف پول در یک مکان دیگر"));
  Message false [At 2]
    "Change the passphrase used for wallet encryption"
    (Finished (Plain "تغییر گذرواژهٔ مورد استفاده در رمزنگاری کیف پول"));
  Message false [At 10]
    "&amp;Debug window"
    (Finished (Plain "پنجرهٔ ا&amp;شکال‌زدایی"));
  Message false [At 1]
    "Open debugging and diagnostic console"
    (Finished (Plain "باز کردن کنسول خطایابی و اشکال‌زدایی"));
  Message false [At (-5)]
    "&amp;Verify message..."
    (Finished (Plain "با&amp;زبینی پیام..."));
  Message false [At (-214); At 555]
    "Bws"
    (Unfinished (Plain no_text));
  Message false [At (-555)]
    "Wallet"
    (Finished (Plain "کیف پول"));
  Message false [At 193]
    "&amp;About Bws"
    (Unfinished (Plain no_text))].

Definition fa_BitcoinGUI_2 : list message := [
  Message false [At 9]
    "&amp;Show / Hide"
    (Finished (Plain "&amp;نمایش/ عدم نمایش"));
  Message false [At 8]
    "Unlock wallet"
    (Unfinished (Plain no_text));
  Message false [At 1]
    "&amp;Lock Wallet"
    (Unfinished (Plain no_text));
  Message false [At 1]
    "Lock wallet"
    (Unfinished (Plain no_text));
  Message false [At 32]
    "&amp;File"
    (Finished (Plain "&amp;پرونده"));
  Message false [At 8]
    "&amp;Settings"
    (Finished (Plain "&amp;تنظیمات"));
  Message false [At 8]
    "&amp;Help"
    (Finished (Plain "&amp;کمک‌رسانی"));
  Message false [At 17]
    "Tabs toolbar"
    (Finished (Plain "نوارابزار برگه‌ها"));
  Message false [At 46; At 9]
    "[testnet]"
    (Finished (Plain "[شبکهٔ آزمایش]"));
  Message false [At 0; At 58]
    "Bws client"
    (Unfinished (Plain no_text));
  Message true [At 70]
    "%n active connection(s) to Bws network"
    (Unfinished (NumerusForms [no_text]));
  Message false [At 6]
    "Not staking because wallet is locked"
    (Unfinished (Plain no_text));
  Message false [At 2]
    "Not staking because wallet is offline"
    (Unfinished (Plain no_text));
  Message false [At 2]
    "Not staking because wallet is syncing"
    (Unfinished (Plain no_text));
  Message false [At 2]
    "Not staking because you don&apos;t have mature coins"
    (Unfinished (Plain no_text));
  Message false [At (-812)]
    "&amp;Dashboard"
    (Unfinished (Plain no_text));
  Message false [At 6]
    "&amp;Receive"
    (Unfinished (Plain no_text));
  Message false [At 6]
    "&amp;Send"
    (Unfinished (Plain no_text));
  Message false [At 49]
    "&amp;Unlock Wallet..."
    (Unfinished (Plain no_text));
  Message false [At 277]
    "Up to date"
    (Finished (Plain "وضعیت به‌روز"));
  Message false [At 43]
    "Catching up..."
    (Finished (Plain "به‌روز رسانی..."));
  Message false [At 113]
    "Confirm transaction fee"
    (Unfinished (Plain no_text));
  Message false [At 27]
    "Sent transaction"
    (Finished (Plain "تراکنش ارسال شد"));
  Message false [At 1]
    "Incoming transaction"
    (Finished (Plain "تراکنش دریافت شد"));
  Message false [At 1]
    "Date: %1
Amount: %2
Type: %3
Address: %4
"
    (Finished (Plain "تاریخ: %1
مبلغ: %2
نوع: %3
نشانی: %4
"));
  Message false [At 100; At 15]
    "URI handling"
    (Unfinished (Plain no_text));
  Message false [At (-15); At 15]
    "URI can not be parsed! This can be caused by an invalid Bws address or malformed URI parameters."
    (Unfinished (Plain no_text))].

Definition fa_BitcoinGUI_3 : list message := [
  Message false [At 9]
    "Wallet is &lt;b&gt;not encrypted&lt;/b&gt;"
    (Unfinished (Plain no_text));
  Message false [At 8]
    "Wallet is &lt;b&gt;encrypted&lt;/b&gt; and currently &lt;b&gt;unlocked&lt;/b&gt;"
    (Finished (Plain "کیف پول &lt;b&gt;رمزنگاری شده&lt;/b&gt; است و هم‌اکنون &lt;b&gt;باز&lt;/b&gt; است"));
  Message false [At 8]
    "Wallet is &lt;b&gt;encrypted&lt;/b&gt; and currently &lt;b&gt;locked&lt;/b&gt;"
    (Finished (Plain "کیف پول &lt;b&gt;رمزنگاری شده&lt;/b&gt; است و هم‌اکنون &lt;b&gt;قفل&lt;/b&gt; است"));
  Message false [At 24]
    "Backup Wallet"
    (Unfinished (Plain no_text));
  Message false [At 0]
    "Wallet Data (*.dat)"
    (Unfinished (Plain no_text));
  Message false [At 3]
    "Backup Failed"
    (Unfinished (Plain no_text));
  Message false [At 0]
    "There was an error trying to save the wallet data to the new location."
    (Unfinished (Plain no_text));
  Message true [At 91]
    "%n second(s)"
    (Unfinished (NumerusForms [no_text]));
  Message true [At 4]
    "%n minute(s)"
    (Unfinished (NumerusForms [no_text]));
  Message true [At (-429); At 433]
    "%n hour(s)"
    (Finished (NumerusForms ["%n ساعت"]));
  Message false [At (-456)]
    "Processed %1 blocks of transaction history."
    (Unfinished (Plain no_text));
  Message true [At 27; At 433]
    "%n day(s)"
    (Finished (NumerusForms ["%n روز"]));
  Message true [At (-429); At 6]
    "%n week(s)"
    (Unfinished (NumerusForms [no_text]));
  Message false [At 0]
    "%1 and %2"
    (Unfinished (Plain no_text));
  Message true [At 0]
    "%n year(s)"
    (Unfinished (NumerusForms [no_text]));
  Message false [At 5]
    "%1 behind"
    (Unfinished (Plain no_text));
  Message false [At 15]
    "Last received block was generated %1 ago."
    (Unfinished (Plain no_text));
  Message false [At 2]
    "Transactions after this will not yet be visible."
    (Unfinished (Plain no_text));
  Message false [At 23]
    "Error"
    (Unfinished (Plain no_text));
  Message false [At 3]
    "Warning"
    (Unfinished (Plain no_text));
  Message false [At 3]
    "Information"
    (Unfinished (Plain no_text));
  Message false [At 69]
    "This transaction is over the size limit. You can still send it for a fee of %1, which goes to the nodes that process your transaction and helps to support the network. Do you want to pay the fee?"
    (Unfinished (Plain no_text));
  Message false [At 324]
    "Not staking"
    (Unfinished (Plain no_text));
  Message false [In "../bitcoin.cpp" 104]
    "A fatal error occurred. Bws can no longer continue safely and will quit."
    (Unfinished (Plain no_text))].

Definition fa_BitcoinGUI : context := TsContext "BitcoinGUI"
  (fa_BitcoinGUI_1 ++ fa_BitcoinGUI_2 ++ fa_BitcoinGUI_3).

Definition fa_ClientModel : context := TsContext "ClientModel" [
  Message false [In "../clientmodel.cpp" 119]
    "Network Alert"
    (Finished (Plain "پیام شبکه"))].

Definition fa_CoinControlDialog_1 : list message := [
  Message false [In "../forms/coincontroldialog.ui" 14]
    "Coin Control"
    (Unfinished (Plain no_text));
  Message false [At 31]
    "Quantity:"
    (Unfinished (Plain no_text));
  Message false [At 32]
    "Bytes:"
    (Unfinished (Plain no_text));
  Message false [At 48]
    "Amount:"
    (Finished (Plain "مبلغ:"));
  Message false [At 48]
    "Fee:"
    (Unfinished (Plain no_text));
  Message false [At 35]
    "Low Output:"
    (Unfinished (Plain no_text));
  Message false [In "../coincontroldialog.cpp" 493]
    "no"
    (Unfinished (Plain no_text));
  Message false [In "../forms/coincontroldialog.ui" 51]
    "After Fee:"
    (Unfinished (Plain no_text));
  Message false [At 35]
    "Change:"
    (Unfinished (Plain no_text));
  Message false [At 69]
    "(un)select all"
    (Unfinished (Plain no_text));
  Message false [At 13]
    "Tree mode"
    (Unfinished (Plain no_text));
  Message false [At 16]
    "List mode"
    (Unfinished (Plain no_text));
  Message false [At 45]
    "Amount"
    (Finished (Plain "مبلغ"));
  Message false [At 5]
    "Label"
    (Unfinished (Plain no_text));
  Message false [At 5]
    "Address"
    (Finished (Plain "نشانی"));
  Message false [At 5]
    "Date"
    (Finished (Plain "تاریخ"));
  Message false [At 5]
    "Confirmations"
    (Unfinished (Plain no_text));
  Message false [At 3]
    "Confirmed"
    (Finished (Plain "تأیید شده"));
  Message false [At 5]
    "Priority"
    (Unfinished (Plain no_text));
  Message false [In "../coincontroldialog.cpp" (-456)]
    "Copy address"
    (Finished (Plain "کپی نشانی"));
  Message false [At 1]
    "Copy label"
    (Finished (Plain "کپی برچسب"));
  Message false [At 1; At 26]
    "Copy amount"
    (Finished (Plain "کپی مقدار"));
  Message false [At (-25)]
    "Copy transaction ID"
    (Finished (Plain "کپی شناسهٔ تراکنش"));
  Message false [At 24]
    "Copy quantity"
    (Unfinished (Plain no_text));
  Message false [At 2]
    "Copy fee"
    (Unfinished (Plain no_text));
  Message false [At 1]
    "Copy after fee"
    (Unfinished (Plain no_text));
  Message false [At 1]
    "Copy bytes"
    (Unfinished (Plain no_text));
  Message false [At 1]
    "Copy low output"
    (Unfinished (Plain no_text));
  Message false [At 1]
    "Copy change"
    (Unfinished (Plain no_text))].

Definition fa_CoinControlDialog_2 : list message := [
  Message false [At 423]
    "DUST"
    (Unfinished (Plain no_text));
  Message false [At 0]
    "yes"
    (Unfinished (Plain no_text));
  Message false [At 9]
    "This label turns red, if the transaction size is bigger than 10000 bytes.

 This means a fee of at least %1 per kb is required.

 Can vary +/- 1 Byte per input."
    (Unfinished (Plain no_text));
  Message false [At 1]
    "This label turns red, if any recipient receives an amount smaller than %1.

 This means a fee of at least %2 is required.

 Amounts below 0.546 times the minimum relay fee are shown as DUST."
    (Unfinished (Plain no_text));
  Message false [At 1]
    "This label turns red, if the change is smaller than %1.

 This means a fee of at least %2 is required."
    (Unfinished (Plain no_text));
  Message false [At 35; At 58]
    "(no label)"
    (Finished (Plain "(بدون برچسب)"));
  Message false [At (-9)]
    "change from %1 (%2)"
    (Unfinished (Plain no_text));
  Message false [At 1]
    "(change)"
    (Unfinished (Plain no_text))].

Definition fa_CoinControlDialog : context := TsContext "CoinControlDialog"
  (fa_CoinControlDialog_1 ++ fa_CoinControlDialog_2).

Definition fa_EditAddressDialog : context := TsContext "EditAddressDialog" [
  Message false [In "../forms/editaddressdialog.ui" 14]
    "Edit Address"
    (Finished (Plain "ویرایش نشانی"));
  Message false [At 11]
    "&amp;Label"
    (Finished (Plain "&amp;برچسب"));
  Message false [At 10]
    "The label associated with this address book entry"
    (Unfinished (Plain no_text));
  Message false [At 7]
    "&amp;Address"
    (Finished (Plain "&amp;نشانی"));
  Message false [At 10]
    "The address associated with this address book entry. This can only be modified for sending addresses."
    (Unfinished (Plain no_text));
  Message false [In "../editaddressdialog.cpp" 21]
    "New receiving address"
    (Finished (Plain "نشانی دریافتی جدید"));
  Message false [At 4]
    "New sending address"
    (Finished (Plain "نشانی ارسالی جدید"));
  Message false [At 3]
    "Edit receiving address"
    (Finished (Plain "ویرایش نشانی دریافتی"));
  Message false [At 4]
    "Edit sending address"
    (Finished (Plain "ویرایش نشانی ارسالی"));
  Message false [At 76]
    "The entered address &quot;%1&quot; is already in the address book."
    (Finished (Plain "نشانی وارد شده «%1» در حال حاضر در دفترچه وجود دارد."));
  Message false [At (-5)]
    "The entered address &quot;%1&quot; is not a valid Bws address."
    (Unfinished (Plain no_text));
  Message false [At 10]
    "Could not unlock wallet."
    (Finished (Plain "نمی‌توان کیف پول را رمزگشایی کرد."));
  Message false [At 5]
    "New key generation failed."
    (Finished (Plain "ایجاد کلید جدید با شکست مواجه شد."))].

Definition fa_GUIUtil_HelpMessageBox : context := TsContext "GUIUtil::HelpMessageBox" [
  Message false [In "../guiutil.cpp" 426; At 12]
    "Bws-Qt"
    (Unfinished (Plain no_text));
  Message false [At (-12)]
    "version"
    (Unfinished (Plain no_text));
  Message false [At 2]
    "Usage:"
    (Unfinished (Plain no_text));
  Message false [At 1]
    "command-line options"
    (Unfinished (Plain no_text));
  Message false [At 4]
    "UI options"
    (Unfinished (Plain no_text));
  Message false [At 1]
    "Set language, for example &quot;de_DE&quot; (default: system locale)"
    (Unfinished (Plain no_text));
  Message false [At 1]
    "Start minimized"
    (Unfinished (Plain no_text));
  Message false [At 1]
    "Show splash screen on startup (default: 1)"
    (Unfinished (Plain no_text))].
