(* ===== verification/CatalogFa2.v ===== *)
(** * CatalogFa2: the Farsi translations, OptionsDialog to TrafficGraphWidget

    The messages of [qt/locale/bitcoin_fa.ts], one definition per [<context>]
    element; a context of more than 150 lines is cut between messages. The
    texts are the bytes of the file, entities included. *)

From S2P Require Import Prelude Catalog.

Local Open Scope text_scope.

Definition fa_OptionsDialog_1 : list message := [
  Message false [In "../forms/optionsdialog.ui" 14]
    "Options"
    (Finished (Plain "گزینه‌ها"));
  Message false [At 16]
    "&amp;Main"
    (Finished (Plain "&amp;عمومی"));
  Message false [At 6]
    "Optional transaction fee per kB that helps make sure your transactions are processed quickly. Most transactions are 1 kB. Fee 0.01 recommended."
    (Unfinished (Plain no_text));
  Message false [At 15]
    "Pay transaction &amp;fee"
    (Finished (Plain "پرداخت &amp;کارمزد تراکنش"));
  Message false [At 31]
    "Reserved amount does not participate in staking and is therefore spendable at any time."
    (Unfinished (Plain no_text));
  Message false [At 15]
    "Reserve"
    (Unfinished (Plain no_text));
  Message false [At 31]
    "Automatically start Bws after logging in to the system."
    (Unfinished (Plain no_text));
  Message false [At 3]
    "&amp;Start Bws on system login"
    (Unfinished (Plain no_text));
  Message false [At 21]
    "&amp;Network"
    (Finished (Plain "&amp;شبکه"));
  Message false [At 6]
    "Automatically open the Bws client port on the router. This only works when your router supports UPnP and it is enabled."
    (Unfinished (Plain no_text));
  Message false [At 3]
    "Map port using &amp;UPnP"
    (Finished (Plain "نگاشت درگاه شبکه با استفاده از پروتکل &amp;UPnP"));
  Message false [At 19]
    "Proxy &amp;IP:"
    (Finished (Plain "آ&amp;ی‌پی پراکسی:"));
  Message false [At 19]
    "IP address of the proxy (e.g. 127.0.0.1)"
    (Unfinished (Plain no_text));
  Message false [At 7]
    "&amp;Port:"
    (Finished (Plain "&amp;درگاه:"));
  Message false [At 19]
    "Port of the proxy (e.g. 9050)"
    (Finished (Plain "درگاه پراکسی (مثال 9050)"));
  Message false [At (-57)]
    "Connect to the Bws network through a SOCKS5 proxy (e.g. when connecting through Tor)."
    (Unfinished (Plain no_text));
  Message false [At 3]
    "&amp;Connect through SOCKS5 proxy:"
    (Unfinished (Plain no_text));
  Message false [At 90]
    "&amp;Window"
    (Finished (Plain "&amp;پنجره"));
  Message false [At 6]
    "Show only a tray icon after minimizing the window."
    (Finished (Plain "تنها بعد از کوچک کردن پنجره، tray icon را نشان بده."));
  Message false [At 3]
    "&amp;Minimize to the tray instead of the taskbar"
    (Finished (Plain "&amp;کوچک کردن به سینی به‌جای نوار وظیفه"));
  Message false [At 7]
    "Minimize instead of exit the application when the window is closed. When this option is enabled, the application will be closed only after selecting Quit in the menu."
    (Finished (Plain "مخفی کردن در نوار کناری به‌جای خروج هنگام بستن پنجره. زمانی که این گزینه فعال است، برنامه فقط با استفاده از گزینهٔ خروج در منو قابل بسته شدن است."));
  Message false [At 3]
    "M&amp;inimize on close"
    (Finished (Plain "کوچک کردن &amp;در زمان بسته شدن"));
  Message false [At 21]
    "&amp;Display"
    (Finished (Plain "&amp;نمایش"));
  Message false [At 8]
    "User Interface &amp;language:"
    (Finished (Plain "زبان &amp;رابط کاربری:"));
  Message false [At 13]
    "The user interface language can be set here. This setting will take effect after restarting Bws."
    (Unfinished (Plain no_text));
  Message false [At 11]
    "&amp;Unit to show amounts in:"
    (Finished (Plain "&amp;واحد نمایش مبالغ:"));
  Message false [At 13]
    "Choose the default subdivision unit to show in the interface and when sending coins."
    (Finished (Plain "انتخاب واحد پول مورد استفاده برای نمایش در پنجره‌ها و برای ارسال سکه."));
  Message false [At 9]
    "Whether to show coin control features or not."
    (Unfinished (Plain no_text));
  Message false [At 3]
    "Display coin &amp;control features (experts only!)"
    (Unfinished (Plain no_text));
  Message false [At 7]
    "Use black visual theme (requires restart)"
    (Unfinished (Plain no_text))].

Definition fa_OptionsDialog_2 : list message := [
  Message false [At 71]
    "&amp;OK"
    (Finished (Plain "&amp;تأیید"));
  Message false [At 7]
    "&amp;Cancel"
    (Finished (Plain "&amp;لغو"));
  Message false [At 10]
    "&amp;Apply"
    (Unfinished (Plain no_text));
  Message false [In "../optionsdialog.cpp" 47]
    "default"
    (Finished (Plain "پیش‌فرض"));
  Message false [At 147; At 9]
    "Warning"
    (Unfinished (Plain no_text));
  Message false [At (-9); At 9]
    "This setting will take effect after restarting Bws."
    (Unfinished (Plain no_text));
  Message false [At 29]
    "The supplied proxy address is invalid."
    (Finished (Plain "آدرس پراکسی داده شده صحیح نیست."))].

Definition fa_OptionsDialog : context := TsContext "OptionsDialog"
  (fa_OptionsDialog_1 ++ fa_OptionsDialog_2).

Definition fa_OverviewPage : context := TsContext "OverviewPage" [
  Message false [In "../forms/overviewpage.ui" 14]
    "Form"
    (Finished (Plain "فرم"));
  Message false [At 46; At 247]
    "The displayed information may be out of date. Your wallet automatically synchronizes with the Bws network after a connection is established, but this process has not completed yet."
    (Unfinished (Plain no_text));
  Message false [At (-173)]
    "Stake:"
    (Unfinished (Plain no_text));
  Message false [At 32]
    "Unconfirmed:"
    (Unfinished (Plain no_text));
  Message false [At (-113)]
    "Wallet"
    (Finished (Plain "کیف پول"));
  Message false [At 49]
    "Spendable:"
    (Unfinished (Plain no_text));
  Message false [At 16]
    "Your current spendable balance"
    (Finished (Plain "تراز علی‌الحساب شما"));
  Message false [At 80]
    "Immature:"
    (Finished (Plain "نارسیده:"));
  Message false [At 13]
    "Mined balance that has not yet matured"
    (Finished (Plain "تراز استخراج شده از معدن که هنوز بالغ نشده است"));
  Message false [At 23]
    "Total:"
    (Finished (Plain "جمع کل:"));
  Message false [At 16]
    "Your current total balance"
    (Finished (Plain "تراز کل فعلی شما"));
  Message false [At 50]
    "&lt;b&gt;Recent transactions&lt;/b&gt;"
    (Finished (Plain "&lt;b&gt;تراکنش‌های اخیر&lt;/b&gt;"));
  Message false [At (-118)]
    "Total of transactions that have yet to be confirmed, and do not yet count toward the current balance"
    (Unfinished (Plain no_text));
  Message false [At (-32)]
    "Total of coins that was staked, and do not yet count toward the current balance"
    (Unfinished (Plain no_text));
  Message false [In "../overviewpage.cpp" 116; At 1]
    "out of sync"
    (Finished (Plain "ناهمگام"))].

Definition fa_PaymentServer : context := TsContext "PaymentServer" [
  Message false [In "../paymentserver.cpp" 107]
    "Cannot start bws: click-to-pay handler"
    (Unfinished (Plain no_text))].

Definition fa_QRCodeDialog : context := TsContext "QRCodeDialog" [
  Message false [In "../forms/qrcodedialog.ui" 14]
    "QR Code Dialog"
    (Unfinished (Plain no_text));
  Message false [At 59]
    "Request Payment"
    (Unfinished (Plain no_text));
  Message false [At 56]
    "Amount:"
    (Unfinished (Plain no_text));
  Message false [At (-44)]
    "Label:"
    (Unfinished (Plain no_text));
  Message false [At 19]
    "Message:"
    (Unfinished (Plain no_text));
  Message false [At 71]
    "&amp;Save As..."
    (Unfinished (Plain no_text));
  Message false [In "../qrcodedialog.cpp" 62]
    "Error encoding URI into QR Code."
    (Unfinished (Plain no_text));
  Message false [At 40]
    "The entered amount is invalid, please check."
    (Unfinished (Plain no_text));
  Message false [At 23]
    "Resulting URI too long, try to reduce the text for label / message."
    (Unfinished (Plain no_text));
  Message false [At 25]
    "Save QR Code"
    (Unfinished (Plain no_text));
  Message false [At 0]
    "PNG Images (*.png)"
    (Unfinished (Plain no_text))].

Definition fa_RPCConsole_1 : list message := [
  Message false [In "../forms/rpcconsole.ui" 46]
    "Client name"
    (Finished (Plain "نام کلاینت"));
  Message false [At 10; At 23; At 26; At 23; At 23; At 36; At 53; At 23]
    "N/A"
    (Finished (Plain "ناموجود"));
  Message false [At (-194)]
    "Client version"
    (Finished (Plain "نسخهٔ کلاینت"));
  Message false [At (-45)]
    "&amp;Information"
    (Finished (Plain "&amp;اطلاعات"));
  Message false [At 68]
    "Using OpenSSL version"
    (Finished (Plain "نسخهٔ OpenSSL استفاده شده"));
  Message false [At 49]
    "Startup time"
    (Finished (Plain "زمان آغاز به کار"));
  Message false [At 29]
    "Network"
    (Finished (Plain "شبکه"));
  Message false [At 7]
    "Number of connections"
    (Finished (Plain "تعداد ارتباطات"));
  Message false [At 23]
    "On testnet"
    (Unfinished (Plain no_text));
  Message false [At 23]
    "Block chain"
    (Finished (Plain "زنجیرهٔ بلوک‌ها"));
  Message false [At 7]
    "Current number of blocks"
    (Finished (Plain "تعداد فعلی بلوک‌ها"));
  Message false [At 197]
    "&amp;Network Traffic"
    (Unfinished (Plain no_text));
  Message false [At 52]
    "&amp;Clear"
    (Unfinished (Plain no_text));
  Message false [At 13]
    "Totals"
    (Unfinished (Plain no_text));
  Message false [At 64; In "../rpcconsole.cpp" 352]
    "In:"
    (Unfinished (Plain no_text));
  Message false [At 80; In "../rpcconsole.cpp" 1]
    "Out:"
    (Unfinished (Plain no_text));
  Message false [At (-383)]
    "Last block time"
    (Finished (Plain "زمان آخرین بلوک"));
  Message false [At 52]
    "&amp;Open"
    (Finished (Plain "با&amp;ز کردن"));
  Message false [At 16]
    "Command-line options"
    (Unfinished (Plain no_text));
  Message false [At 7]
    "Show the Bws-Qt help message to get a list with possible Bws command-line options."
    (Unfinished (Plain no_text));
  Message false [At 3]
    "&amp;Show"
    (Unfinished (Plain no_text));
  Message false [At 24]
    "&amp;Console"
    (Finished (Plain "&amp;کنسول"));
  Message false [At (-237)]
    "Build date"
    (Finished (Plain "ساخت تاریخ"));
  Message false [At (-104)]
    "Bws - Debug window"
    (Unfinished (Plain no_text));
  Message false [At 25]
    "Bws Core"
    (Unfinished (Plain no_text));
  Message false [At 256]
    "Debug log file"
    (Finished (Plain "فایلِ لاگِ اشکال زدایی"));
  Message false [At 7]
    "Open the Bws debug log file from the current data directory. This can take a few seconds for large log files."
    (Unfinished (Plain no_text));
  Message false [At 102]
    "Clear console"
    (Finished (Plain "پاکسازی کنسول"))].

Definition fa_RPCConsole_2 : list message := [
  Message false [In "../rpcconsole.cpp" (-28)]
    "Welcome to the Bws RPC console."
    (Unfinished (Plain no_text));
  Message false [At 1]
    "Use up and down arrows to navigate history, and &lt;b&gt;Ctrl-L&lt;/b&gt; to clear screen."
    (Finished (Plain "دکمه‌های بالا و پایین برای پیمایش تاریخچه و &lt;b&gt;Ctrl-L&lt;/b&gt; برای پاک کردن صفحه."));
  Message false [At 1]
    "Type &lt;b&gt;help&lt;/b&gt; for an overview of available commands."
    (Finished (Plain "برای نمایش یک مرور کلی از دستورات ممکن، عبارت &lt;b&gt;help&lt;/b&gt; را بنویسید."));
  Message false [At 134]
    "%1 B"
    (Unfinished (Plain no_text));
  Message false [At 2]
    "%1 KB"
    (Unfinished (Plain no_text));
  Message false [At 2]
    "%1 MB"
    (Unfinished (Plain no_text));
  Message false [At 2]
    "%1 GB"
    (Unfinished (Plain no_text));
  Message false [At 7]
    "%1 m"
    (Unfinished (Plain no_text));
  Message false [At 5]
    "%1 h"
    (Unfinished (Plain no_text));
  Message false [At 2]
    "%1 h %2 m"
    (Unfinished (Plain no_text))].

Definition fa_RPCConsole : context := TsContext "RPCConsole"
  (fa_RPCConsole_1 ++ fa_RPCConsole_2).

Definition fa_SendCoinsDialog_1 : list message := [
  Message false [In "../forms/sendcoinsdialog.ui" 14; In "../sendcoinsdialog.cpp" 179; At 5; At 5; At 5; At 6; At 5; At 5]
    "Send Coins"
    (Finished (Plain "ارسال سکه"));
  Message false [At 76]
    "Coin Control Features"
    (Unfinished (Plain no_text));
  Message false [At 20]
    "Inputs..."
    (Unfinished (Plain no_text));
  Message false [At 7]
    "automatically selected"
    (Unfinished (Plain no_text));
  Message false [At 19]
    "Insufficient funds!"
    (Unfinished (Plain no_text));
  Message false [At 77]
    "Quantity:"
    (Unfinished (Plain no_text));
  Message false [At 22; At 35]
    "0"
    (Unfinished (Plain no_text));
  Message false [At (-19)]
    "Bytes:"
    (Unfinished (Plain no_text));
  Message false [At 51]
    "Amount:"
    (Finished (Plain "مبلغ:"));
  Message false [At 54]
    "Fee:"
    (Unfinished (Plain no_text));
  Message false [At 35]
    "Low Output:"
    (Unfinished (Plain no_text));
  Message false [At 19]
    "no"
    (Unfinished (Plain no_text));
  Message false [At 32]
    "After Fee:"
    (Unfinished (Plain no_text));
  Message false [At 35]
    "Change"
    (Unfinished (Plain no_text));
  Message false [At 50]
    "custom change address"
    (Unfinished (Plain no_text));
  Message false [At 106]
    "Send to multiple recipients at once"
    (Finished (Plain "ارسال به چند دریافت‌کنندهٔ به‌طور همزمان"));
  Message false [At 3]
    "Add &amp;Recipient"
    (Finished (Plain "&amp;دریافت‌کنندهٔ جدید"));
  Message false [At 16]
    "Remove all transaction fields"
    (Unfinished (Plain no_text));
  Message false [At 3]
    "Clear &amp;All"
    (Finished (Plain "پاکسازی &amp;همه"));
  Message false [At 24]
    "Balance:"
    (Finished (Plain "تزار:"));
  Message false [At 47]
    "Confirm the send action"
    (Finished (Plain "عملیات ارسال را تأیید کنید"));
  Message false [At 3]
    "S&amp;end"
    (Finished (Plain "&amp;ارسال"));
  Message false [In "../sendcoinsdialog.cpp" (-171)]
    "Enter a Bws address (e.g. DPpauUHW4ksipzUQhKKVAxscM6UonAAjhX)"
    (Unfinished (Plain no_text));
  Message false [At 15]
    "Copy quantity"
    (Unfinished (Plain no_text));
  Message false [At 1]
    "Copy amount"
    (Finished (Plain "کپی مقدار"));
  Message false [At 1]
    "Copy fee"
    (Unfinished (Plain no_text));
  Message false [At 1]
    "Copy after fee"
    (Unfinished (Plain no_text));
  Message false [At 1]
    "Copy bytes"
    (Unfinished (Plain no_text))].

Definition fa_SendCoinsDialog_2 : list message := [
  Message false [At 1]
    "Copy low output"
    (Unfinished (Plain no_text));
  Message false [At 1]
    "Copy change"
    (Unfinished (Plain no_text));
  Message false [At 85]
    "&lt;b&gt;%1&lt;/b&gt; to %2 (%3)"
    (Unfinished (Plain no_text));
  Message false [At 5]
    "Confirm send coins"
    (Finished (Plain "ارسال سکه را تأیید کنید"));
  Message false [At 1]
    "Are you sure you want to send %1?"
    (Unfinished (Plain no_text));
  Message false [At 0]
    " and "
    (Unfinished (Plain no_text));
  Message false [At 29]
    "The recipient address is not valid, please recheck."
    (Finished (Plain "نشانی گیرنده معتبر نیست؛ لطفا دوباره بررسی کنید."));
  Message false [At 5]
    "The amount to pay must be larger than 0."
    (Finished (Plain "مبلغ پرداخت باید بیشتر از ۰ باشد."));
  Message false [At 5]
    "The amount exceeds your balance."
    (Finished (Plain "میزان پرداخت از تراز شما بیشتر است."));
  Message false [At 5]
    "The total exceeds your balance when the %1 transaction fee is included."
    (Finished (Plain "با احتساب هزینهٔ %1 برای هر تراکنش، مجموع میزان پرداختی از مبلغ تراز شما بیشتر می‌شود."));
  Message false [At 6]
    "Duplicate address found, can only send to each address once per send operation."
    (Finished (Plain "یک نشانی تکراری پیدا شد. در هر عملیات ارسال، به هر نشانی فقط مبلغ می‌توان ارسال کرد."));
  Message false [At 5]
    "Error: Transaction creation failed!"
    (Unfinished (Plain no_text));
  Message false [At 5]
    "Error: The transaction was rejected. This might happen if some of the coins in your wallet were already spent, such as if you used a copy of wallet.dat and coins were spent in the copy but not marked as spent here."
    (Unfinished (Plain no_text));
  Message false [At 241]
    "WARNING: Invalid Bws address"
    (Unfinished (Plain no_text));
  Message false [At 13]
    "(no label)"
    (Finished (Plain "(بدون برچسب)"));
  Message false [At 4]
    "WARNING: unknown change address"
    (Unfinished (Plain no_text))].

Definition fa_SendCoinsDialog : context := TsContext "SendCoinsDialog"
  (fa_SendCoinsDialog_1 ++ fa_SendCoinsDialog_2).

Definition fa_SendCoinsEntry : context := TsContext "SendCoinsEntry" [
  Message false [In "../forms/sendcoinsentry.ui" 14]
    "Form"
    (Unfinished (Plain no_text));
  Message false [At 15]
    "A&amp;mount:"
    (Finished (Plain "A&amp;مبلغ :"));
  Message false [At 13]
    "Pay &amp;To:"
    (Finished (Plain "پرداخ&amp;ت به:"));
  Message false [At 34]
    "The address to send the payment to (e.g. DPpauUHW4ksipzUQhKKVAxscM6UonAAjhX)"
    (Unfinished (Plain no_text));
  Message false [At 60; In "../sendcoinsentry.cpp" 26]
    "Enter a label for this address to add it to your address book"
    (Finished (Plain "برای این نشانی یک برچسب وارد کنید تا در دفترچهٔ آدرس ذخیره شود"));
  Message false [At (-78)]
    "&amp;Label:"
    (Finished (Plain "&amp;برچسب:"));
  Message false [At 28]
    "Choose address from address book"
    (Unfinished (Plain no_text));
  Message false [At 10]
    "Alt+A"
    (Finished (Plain "Alt+A"));
  Message false [At 7]
    "Paste address from clipboard"
    (Finished (Plain "چسباندن نشانی از حافظهٔ سیستم"));
  Message false [At 10]
    "Alt+P"
    (Finished (Plain "Alt+P"));
  Message false [At 7]
    "Remove this recipient"
    (Unfinished (Plain no_text));
  Message false [In "../sendcoinsentry.cpp" 1]
    "Enter a Bws address (e.g. DPpauUHW4ksipzUQhKKVAxscM6UonAAjhX)"
    (Unfinished (Plain no_text))].

Definition fa_SignVerifyMessageDialog_1 : list message := [
  Message false [In "../forms/signverifymessagedialog.ui" 14]
    "Signatures - Sign / Verify a Message"
    (Finished (Plain "امضاها - امضا / تأیید یک پیام"));
  Message false [At 13; At 124]
    "&amp;Sign Message"
    (Finished (Plain "ا&amp;مضای پیام"));
  Message false [At (-118)]
    "You can sign messages with your addresses to prove you own them. Be careful not to sign anything vague, as phishing attacks may try to trick you into signing your identity over to them. Only sign fully-detailed statements you agree to."
    (Finished (Plain "برای احراز اینکه پیام‌ها از جانب شما هستند، می‌توانید آن‌ها را با نشانی خودتان امضا کنید. مراقب باشید چیزی که بدان اطمینان ندارید را امضا نکنید زیرا حملات فیشینگ ممکن است بخواهند از.پیامی با امضای شما سوءاستفاده کنند. تنها مواردی را که حاوی اطلاعات دقیق و قابل قبول برای شما هستند امضا کنید."));
  Message false [At 18]
    "The address to sign the message with (e.g. DPpauUHW4ksipzUQhKKVAxscM6UonAAjhX)"
    (Unfinished (Plain no_text));
  Message false [At 10; At 203]
    "Choose an address from the address book"
    (Unfinished (Plain no_text));
  Message false [At (-193); At 203]
    "Alt+A"
    (Finished (Plain "Alt+A"));
  Message false [At (-193)]
    "Paste address from clipboard"
    (Finished (Plain "چسباندن نشانی از حافظهٔ سیستم"));
  Message false [At 10]
    "Alt+P"
    (Finished (Plain "Alt+P"));
  Message false [At 12]
    "Enter the message you want to sign here"
    (Finished (Plain "پیامی را که می‌خواهید امضا کنید در اینجا وارد کنید"));
  Message false [At 24]
    "Copy the current signature to the system clipboard"
    (Finished (Plain "امضای فعلی را به حافظهٔ سیستم کپی کن"));
  Message false [At 21]
    "Sign the message to prove you own this Bws address"
    (Unfinished (Plain no_text));
  Message false [At 17]
    "Reset all sign message fields"
    (Finished (Plain "بازنشانی تمام فیلدهای پیام"));
  Message false [At 3; At 146]
    "Clear &amp;All"
    (Finished (Plain "پاک &amp;کردن همه"));
  Message false [At (-87); At 70]
    "&amp;Verify Message"
    (Finished (Plain "&amp;شناسایی پیام"));
  Message false [At (-64)]
    "Enter the signing address, message (ensure you copy line breaks, spaces, tabs, etc. exactly) and signature below to verify the message. Be careful not to read more into the signature than what is in the signed message itself, to avoid being tricked by a man-in-the-middle attack."
    (Finished (Plain "برای شناسایی پیام، نشانیِ امضا کننده و متن پیام را وارد کنید. (مطمئن شوید که فاصله‌ها، تب‌ها و خطوط را عیناً کپی می‌کنید.) مراقب باشید در امضا چیزی بیشتر از آنچه در پیام می‌بینید وجود نداشته باشد تا فریب دزدان اینترنتی و حملات از نوع MITM را نخورید."));
  Message false [At 21]
    "The address the message was signed with (e.g. DPpauUHW4ksipzUQhKKVAxscM6UonAAjhX)"
    (Unfinished (Plain no_text));
  Message false [At 40]
    "Verify the message to ensure it was signed with the specified Bws address"
    (Unfinished (Plain no_text));
  Message false [At 17]
    "Reset all verify message fields"
    (Finished (Plain "بازنشانی تمام فیلدهای پیام"));
  Message false [In "../signverifymessagedialog.cpp" 27; At 3]
    "Enter a Bws address (e.g. DPpauUHW4ksipzUQhKKVAxscM6UonAAjhX)"
    (Unfinished (Plain no_text));
  Message false [At (-2)]
    "Click &quot;Sign Message&quot; to generate signature"
    (Finished (Plain "برای ایجاد یک امضای جدید روی «امضای پیام» کلیک کنید"));
  Message false [At 3]
    "Enter Bws signature"
    (Unfinished (Plain no_text));
  Message false [At 85; At 81]
    "The entered address is invalid."
    (Finished (Plain "نشانی وارد شده نامعتبر است."));
  Message false [At (-81); At 8; At 73; At 8]
    "Please check the address and try again."
    (Finished (Plain "لطفاً نشانی را بررسی کنید و دوباره تلاش کنید."));
  Message false [At (-81); At 81]
    "The entered address does not refer to a key."
    (Finished (Plain "نشانی وارد شده به هیچ کلیدی اشاره نمی‌کند."));
  Message false [At (-73)]
    "Wallet unlock was cancelled."
    (Finished (Plain "عملیات باز کرن قفل کیف پول لغو شد."));
  Message false [At 8]
    "Private key for the entered address is not available."
    (Finished (Plain "کلید خصوصی برای نشانی وارد شده در دسترس نیست."));
  Message false [At 12]
    "Message signing failed."
    (Finished (Plain "امضای پیام با شکست مواجه شد."))].

Definition fa_SignVerifyMessageDialog_2 : list message := [
  Message false [At 5]
    "Message signed."
    (Finished (Plain "پیام امضا شد."));
  Message false [At 59]
    "The signature could not be decoded."
    (Finished (Plain "امضا نمی‌تواند کدگشایی شود."));
  Message false [At 0; At 13]
    "Please check the signature and try again."
    (Finished (Plain "لطفاً امضا را بررسی نموده و دوباره تلاش کنید."));
  Message false [At 0]
    "The signature did not match the message digest."
    (Finished (Plain "امضا با خلاصهٔ پیام مطابقت ندارد."));
  Message false [At 7]
    "Message verification failed."
    (Finished (Plain "شناسایی پیام با شکست مواجه شد."));
  Message false [At 5]
    "Message verified."
    (Finished (Plain "پیام شناسایی شد."))].

Definition fa_SignVerifyMessageDialog : context := TsContext "SignVerifyMessageDialog"
  (fa_SignVerifyMessageDialog_1 ++ fa_SignVerifyMessageDialog_2).

Definition fa_TrafficGraphWidget : context := TsContext "TrafficGraphWidget" [
  Message false [In "../trafficgraphwidget.cpp" 75]
    "KB/s"
    (Unfinished (Plain no_text))].
