(* ===== verification/CatalogFa3.v ===== *)
(** * CatalogFa3: the Farsi translations, TransactionDesc to bitcoin-core

    The messages of [qt/locale/bitcoin_fa.ts], one definition per [<context>]
    element; a context of more than 150 lines is cut between messages. The
    texts are the bytes of the file, entities included. *)

From S2P Require Import Prelude Catalog.

Local Open Scope text_scope.

Definition fa_TransactionDesc_1 : list message := [
  Message false [In "../transactiondesc.cpp" 25]
    "Open until %1"
    (Finished (Plain "باز تا %1"));
  Message false [At 6]
    "conflicted"
    (Unfinished (Plain no_text));
  Message false [At 2]
    "%1/offline"
    (Finished (Plain "%1/آفلاین"));
  Message false [At 2]
    "%1/unconfirmed"
    (Finished (Plain "%1/تأیید نشده"));
  Message false [At 2]
    "%1 confirmations"
    (Finished (Plain "%1 تأییدیه"));
  Message false [At 17]
    "Status"
    (Finished (Plain "وضعیت"));
  Message true [At 7]
    ", broadcast through %n node(s)"
    (Finished (NumerusForms ["، پخش از طریق %n گره"]));
  Message false [At 4]
    "Date"
    (Finished (Plain "تاریخ"));
  Message false [At 7]
    "Source"
    (Finished (Plain "منبع"));
  Message false [At 0]
    "Generated"
    (Finished (Plain "تولید شده"));
  Message false [At 5; At 13]
    "From"
    (Finished (Plain "فرستنده"));
  Message false [At 1; At 19; At 58]
    "To"
    (Finished (Plain "گیرنده"));
  Message false [At (-74); At 2]
    "own address"
    (Finished (Plain "آدرس شما"));
  Message false [At (-2)]
    "label"
    (Finished (Plain "برچسب"));
  Message false [At 34; At 12; At 45; At 17; At 30]
    "Credit"
    (Finished (Plain "بدهی"));
  Message true [At (-102)]
    "matures in %n more block(s)"
    (Finished (NumerusForms ["بلوغ در %n بلوک دیگر"]));
  Message false [At 2]
    "not accepted"
    (Finished (Plain "پذیرفته نشد"));
  Message false [At 44; At 8; At 15; At 30]
    "Debit"
    (Finished (Plain "اعتبار"));
  Message false [At (-39)]
    "Transaction fee"
    (Finished (Plain "هزینهٔ تراکنش"));
  Message false [At 16]
    "Net amount"
    (Finished (Plain "مبلغ خالص"));
  Message false [At 6]
    "Message"
    (Finished (Plain "پیام"));
  Message false [At 2]
    "Comment"
    (Finished (Plain "نظر"));
  Message false [At 2]
    "Transaction ID"
    (Finished (Plain "شناسهٔ تراکنش"));
  Message false [At 3]
    "Generated coins must mature 30 blocks before they can be spent. When you generated this block, it was broadcast to the network to be added to the block chain. If it fails to get into the chain, its state will change to &quot;not accepted&quot; and it won&apos;t be spendable. This may occasionally happen if another node generates a block within a few seconds of yours."
    (Unfinished (Plain no_text));
  Message false [At 7]
    "Debug information"
    (Finished (Plain "اطلاعات اشکال‌زدایی"));
  Message false [At 8]
    "Transaction"
    (Finished (Plain "تراکنش"));
  Message false [At 5]
    "Inputs"
    (Finished (Plain "ورودی‌ها"))].

Definition fa_TransactionDesc_2 : list message := [
  Message false [At 21]
    "Amount"
    (Finished (Plain "مبلغ"));
  Message false [At 1]
    "true"
    (Finished (Plain "درست"));
  Message false [At 0]
    "false"
    (Finished (Plain "نادرست"));
  Message false [At (-202)]
    ", has not been successfully broadcast yet"
    (Finished (Plain "، هنوز با موفقیت ارسال نشده"));
  Message true [At (-36)]
    "Open for %n more block(s)"
    (Unfinished (NumerusForms [no_text]));
  Message false [At 67]
    "unknown"
    (Finished (Plain "ناشناس"))].

Definition fa_TransactionDesc : context := TsContext "TransactionDesc"
  (fa_TransactionDesc_1 ++ fa_TransactionDesc_2).

Definition fa_TransactionDescDialog : context := TsContext "TransactionDescDialog" [
  Message false [In "../forms/transactiondescdialog.ui" 14]
    "Transaction details"
    (Finished (Plain "جزئیات تراکنش"));
  Message false [At 6]
    "This pane shows a detailed description of the transaction"
    (Finished (Plain "این پانل شامل توصیف کاملی از جزئیات تراکنش است"))].

Definition fa_TransactionTableModel : context := TsContext "TransactionTableModel" [
  Message false [In "../transactiontablemodel.cpp" 231]
    "Date"
    (Finished (Plain "تاریخ"));
  Message false [At 0]
    "Type"
    (Finished (Plain "نوع"));
  Message false [At 0]
    "Address"
    (Finished (Plain "نشانی"));
  Message false [At 0]
    "Amount"
    (Finished (Plain "مبلغ"));
  Message false [At 52]
    "Open until %1"
    (Finished (Plain "باز شده تا %1"));
  Message false [At 12]
    "Confirmed (%1 confirmations)"
    (Finished (Plain "تأیید شده (%1 تأییدیه)"));
  Message true [At (-15)]
    "Open for %n more block(s)"
    (Finished (NumerusForms ["باز برای %n بلوک دیگر"]));
  Message false [At 6]
    "Offline"
    (Unfinished (Plain no_text));
  Message false [At 3]
    "Unconfirmed"
    (Unfinished (Plain no_text));
  Message false [At 3]
    "Confirming (%1 of %2 recommended confirmations)"
    (Unfinished (Plain no_text));
  Message false [At 6]
    "Conflicted"
    (Unfinished (Plain no_text));
  Message false [At 3]
    "Immature (%1 confirmations, will be available after %2)"
    (Unfinished (Plain no_text));
  Message false [At 3]
    "This block was not received by any other nodes and will probably not be accepted!"
    (Finished (Plain "این بلوک از هیچ همتای دیگری دریافت نشده است و احتمال می‌رود پذیرفته نشود!"));
  Message false [At 3]
    "Generated but not accepted"
    (Finished (Plain "تولید شده ولی قبول نشده"));
  Message false [At 42]
    "Received with"
    (Finished (Plain "دریافت‌شده با"));
  Message false [At 2]
    "Received from"
    (Finished (Plain "دریافت‌شده از"));
  Message false [At 3]
    "Sent to"
    (Finished (Plain "ارسال‌شده به"));
  Message false [At 2]
    "Payment to yourself"
    (Finished (Plain "پر داخت به خودتان"));
  Message false [At 2]
    "Mined"
    (Finished (Plain "استخراج‌شده"));
  Message false [At 38]
    "(n/a)"
    (Finished (Plain "(ناموجود)"));
  Message false [At 194]
    "Transaction status. Hover over this field to show number of confirmations."
    (Finished (Plain "وضعیت تراکنش. نشانگر را روی این فیلد نگه دارید تا تعداد تأییدیه‌ها نشان داده شود."));
  Message false [At 2]
    "Date and time that the transaction was received."
    (Finished (Plain "تاریخ و ساعت دریافت تراکنش."));
  Message false [At 2]
    "Type of transaction."
    (Finished (Plain "نوع تراکنش."));
  Message false [At 2]
    "Destination address of transaction."
    (Finished (Plain "نشانی مقصد تراکنش."));
  Message false [At 2]
    "Amount removed from or added to balance."
    (Finished (Plain "مبلغ کسر شده و یا اضافه شده به تراز."))].

Definition fa_TransactionView_1 : list message := [
  Message false [In "../transactionview.cpp" 54; At 17]
    "All"
    (Finished (Plain "همه"));
  Message false [At (-16)]
    "Today"
    (Finished (Plain "امروز"));
  Message false [At 1]
    "This week"
    (Finished (Plain "این هفته"));
  Message false [At 1]
    "This month"
    (Finished (Plain "این ماه"));
  Message false [At 1]
    "Last month"
    (Finished (Plain "ماه گذشته"));
  Message false [At 1]
    "This year"
    (Finished (Plain "امسال"));
  Message false [At 1]
    "Range..."
    (Finished (Plain "محدوده..."));
  Message false [At 12]
    "Received with"
    (Finished (Plain "دریافت‌شده با "));
  Message false [At 2]
    "Sent to"
    (Finished (Plain "ارسال به"));
  Message false [At 2]
    "To yourself"
    (Finished (Plain "به خودتان"));
  Message false [At 1]
    "Mined"
    (Finished (Plain "استخراج‌شده"));
  Message false [At 1]
    "Other"
    (Finished (Plain "دیگر"));
  Message false [At 7]
    "Enter address or label to search"
    (Finished (Plain "برای جست‌‌وجو نشانی یا برچسب را وارد کنید"));
  Message false [At 7]
    "Min amount"
    (Finished (Plain "مبلغ حداقل"));
  Message false [At 34]
    "Copy address"
    (Finished (Plain "کپی نشانی"));
  Message false [At 1]
    "Copy label"
    (Finished (Plain "کپی برچسب"));
  Message false [At 1]
    "Copy amount"
    (Finished (Plain "کپی مقدار"));
  Message false [At 1]
    "Copy transaction ID"
    (Finished (Plain "کپی شناسهٔ تراکنش"));
  Message false [At 1]
    "Edit label"
    (Finished (Plain "ویرایش برچسب"));
  Message false [At 1]
    "Show transaction details"
    (Finished (Plain "نمایش جزئیات تراکنش"));
  Message false [At 138]
    "Export Transaction Data"
    (Unfinished (Plain no_text));
  Message false [At 1]
    "Comma separated file (*.csv)"
    (Finished (Plain "پروندهٔ نوع CSV جداشونده با کاما (*.csv)"));
  Message false [At 8]
    "Confirmed"
    (Finished (Plain "تأیید شده"));
  Message false [At 1]
    "Date"
    (Finished (Plain "تاریخ"));
  Message false [At 1]
    "Type"
    (Finished (Plain "نوع"));
  Message false [At 1]
    "Label"
    (Finished (Plain "برچسب"));
  Message false [At 1]
    "Address"
    (Finished (Plain "نشانی"));
  Message false [At 1]
    "Amount"
    (Finished (Plain "مبلغ"));
  Message false [At 1]
    "ID"
    (Finished (Plain "شناسه"))].

Definition fa_TransactionView_2 : list message := [
  Message false [At 4]
    "Error exporting"
    (Unfinished (Plain no_text));
  Message false [At 0]
    "Could not write to file %1."
    (Unfinished (Plain no_text));
  Message false [At 100]
    "Range:"
    (Finished (Plain "محدوده:"));
  Message false [At 8]
    "to"
    (Finished (Plain "به"))].

Definition fa_TransactionView : context := TsContext "TransactionView"
  (fa_TransactionView_1 ++ fa_TransactionView_2).

Definition fa_WalletModel : context := TsContext "WalletModel" [
  Message false [In "../walletmodel.cpp" 212]
    "Sending..."
    (Unfinished (Plain no_text))].

Definition fa_bitcoin_core_1 : list message := [
  Message false [In "../bitcoinstrings.cpp" 8]
    "Bws version"
    (Unfinished (Plain no_text));
  Message false [At 1]
    "Usage:"
    (Finished (Plain "استفاده:"));
  Message false [At 1]
    "Send command to -server or bwsd"
    (Unfinished (Plain no_text));
  Message false [At 1]
    "List commands"
    (Finished (Plain "نمایش لیست فرمان‌ها"));
  Message false [At 1]
    "Get help for a command"
    (Finished (Plain "راهنمایی در مورد یک دستور"));
  Message false [At 1]
    "Options:"
    (Finished (Plain "گزینه‌ها:"));
  Message false [At 2]
    "Specify configuration file (default: bws.conf)"
    (Unfinished (Plain no_text));
  Message false [At 1]
    "Specify pid file (default: bwsd.pid)"
    (Unfinished (Plain no_text));
  Message false [At 2]
    "Specify wallet file (within data directory)"
    (Unfinished (Plain no_text));
  Message false [At (-1)]
    "Specify data directory"
    (Finished (Plain "مشخص کردن دایرکتوری داده‌ها"));
  Message false [At 163]
    "%s, you must set a rpcpassword in the configuration file:
%s
It is recommended you use the following random password:
rpcuser=bwsrpc
rpcpassword=%s
(you do not need to remember this password)
The username and password MUST NOT be the same.
If the file does not exist, create it with owner-readable-only file permissions.
It is also recommended to set alertnotify so you are notified of problems;
for example: alertnotify=echo %%s | mail -s &quot;Bws Alert&quot; admin@foo.com
"
    (Unfinished (Plain no_text));
  Message false [At (-161)]
    "Set database cache size in megabytes (default: 25)"
    (Finished (Plain "تنظیم اندازهٔ کَش پایگاه‌داده برحسب مگابایت (پیش‌فرض: ۲۵)"));
  Message false [At 1]
    "Set database disk log size in megabytes (default: 100)"
    (Unfinished (Plain no_text));
  Message false [At 5]
    "Listen for connections on &lt;port&gt; (default: 48200 or testnet: 58200)"
    (Unfinished (Plain no_text));
  Message false [At 1]
    "Maintain at most &lt;n&gt; connections to peers (default: 125)"
    (Finished (Plain "حداکثر &lt;n&gt; اتصال با همتایان برقرار شود (پیش‌فرض: ۱۲۵)"));
  Message false [At 3]
    "Connect to a node to retrieve peer addresses, and disconnect"
    (Finished (Plain "اتصال به یک گره برای دریافت آدرس‌های همتا و قطع اتصال پس از اتمام عملیات"));
  Message false [At 1]
    "Specify your own public address"
    (Finished (Plain "آدرس عمومی خود را مشخص کنید"));
  Message false [At 4]
    "Bind to given address. Use [host]:port notation for IPv6"
    (Unfinished (Plain no_text));
  Message false [At 1]
    "Query for peer addresses via DNS lookup, if low on addresses (default: 1 unless -connect)"
    (Unfinished (Plain no_text));
  Message false [At 3]
    "Always query for peer addresses via DNS lookup (default: 0)"
    (Unfinished (Plain no_text));
  Message false [At 4]
    "Threshold for disconnecting misbehaving peers (default: 100)"
    (Finished (Plain "حد آستانه برای قطع ارتباط با همتایان بدرفتار (پیش‌فرض: ۱۰۰)"));
  Message false [At 1]
    "Number of seconds to keep misbehaving peers from reconnecting (default: 86400)"
    (Finished (Plain "مدت زمان جلوگیری از اتصال مجدد همتایان بدرفتار، به ثانیه (پیش‌فرض: ۸۴۶۰۰)"));
  Message false [At 153]
    "An error occurred while setting up the RPC port %u for listening on IPv4: %s"
    (Finished (Plain "هنگام تنظیم پورت RPC %u برای گوش دادن روی IPv4 خطایی رخ داده است: %s"));
  Message false [At (-126)]
    "Listen for JSON-RPC connections on &lt;port&gt; (default: 48210 or testnet: 27058)"
    (Unfinished (Plain no_text));
  Message false [At (-16)]
    "Accept command line and JSON-RPC commands"
    (Finished (Plain "پذیرش دستورات خط فرمان و دستورات JSON-RPC"));
  Message false [At 1]
    "Run in the background as a daemon and accept commands"
    (Finished (Plain "اجرا در پشت زمینه به‌صورت یک سرویس و پذیرش دستورات"));
  Message false [At 1]
    "Use the test network"
    (Finished (Plain "استفاده از شبکهٔ آزمایش"));
  Message false [At (-23)]
    "Accept connections from outside (default: 1 if no -proxy or -connect)"
    (Finished (Plain "پذیرش اتصالات از بیرون (پیش فرض:1 بدون پراکسی یا اتصال)"))].

Definition fa_bitcoin_core_2 : list message := [
  Message false [At 160]
    "An error occurred while setting up the RPC port %u for listening on IPv6, falling back to IPv4: %s"
    (Unfinished (Plain no_text));
  Message false [At (-84)]
    "Warning: -paytxfee is set very high! This is the transaction fee you will pay if you send a transaction."
    (Finished (Plain "هشدار: مبلغ paytxfee بسیار بالایی تنظیم شده است! این مبلغ هزینه‌ای است که شما برای تراکنش‌ها پرداخت می‌کنید."));
  Message false [At 46]
    "Warning: Please check that your computer&apos;s date and time are correct! If your clock is wrong Bws will not work properly."
    (Unfinished (Plain no_text));
  Message false [At (-19)]
    "Warning: error reading wallet.dat! All keys read correctly, but transaction data or address book entries might be missing or incorrect."
    (Unfinished (Plain no_text));
  Message false [At (-16)]
    "Warning: wallet.dat corrupt, data salvaged! Original wallet.dat saved as wallet.{timestamp}.bak in %s; if your balance or transactions are incorrect you should restore from a backup."
    (Unfinished (Plain no_text));
  Message false [At (-31)]
    "Attempt to recover private keys from a corrupt wallet.dat"
    (Unfinished (Plain no_text));
  Message false [At 5]
    "Block creation options:"
    (Finished (Plain "بستن گزینه ایجاد"));
  Message false [At (-66)]
    "Connect only to the specified node(s)"
    (Finished (Plain "تنها در گره (های) مشخص شده متصل شوید"));
  Message false [At 4]
    "Discover own IP address (default: 1 when listening and no -externalip)"
    (Finished (Plain "آدرس آی.پی. خود را شناسایی کنید (پیش فرض:1 در زمان when listening وno -externalip)"));
  Message false [At 97]
    "Failed to listen on any port. Use -listen=0 if you want this."
    (Finished (Plain "شنیدن هر گونه درگاه انجام پذیر نیست. ازlisten=0  برای اینکار استفاده کیند."));
  Message false [At (-2)]
    "Invalid -tor address: &apos;%s&apos;"
    (Unfinished (Plain no_text));
  Message false [At 4]
    "Invalid amount for -reservebalance=&lt;amount&gt;"
    (Unfinished (Plain no_text));
  Message false [At (-85)]
    "Maximum per-connection receive buffer, &lt;n&gt;*1000 bytes (default: 5000)"
    (Finished (Plain "حداکثر بافر دریافت شده بر اساس اتصال &lt;n&gt;*  1000 بایت  (پیش فرض:5000)"));
  Message false [At 1]
    "Maximum per-connection send buffer, &lt;n&gt;*1000 bytes (default: 1000)"
    (Finished (Plain "حداکثر بافر دریافت شده بر اساس اتصال &lt;n&gt;*  1000 بایت  (پیش فرض:1000)"));
  Message false [At (-16)]
    "Only connect to nodes in network &lt;net&gt; (IPv4, IPv6 or Tor)"
    (Finished (Plain "تنها =به گره ها در شبکه متصا شوید  &lt;net&gt; (IPv4, IPv6 or Tor)"));
  Message false [At 30]
    "Prepend debug output with timestamp"
    (Unfinished (Plain no_text));
  Message false [At 36]
    "SSL options: (see the Bitcoin Wiki for SSL setup instructions)"
    (Finished (Plain "گزینه ssl (به ویکیbitcoin برای راهنمای راه اندازی ssl مراجعه شود)"));
  Message false [At (-34)]
    "Send trace/debug info to console instead of debug.log file"
    (Finished (Plain "اطلاعات ردگیری/اشکال‌زدایی را به جای فایل لاگ اشکال‌زدایی به کنسول بفرستید"));
  Message false [At 33]
    "Set maximum block size in bytes (default: 250000)"
    (Unfinished (Plain no_text));
  Message false [At (-1)]
    "Set minimum block size in bytes (default: 0)"
    (Finished (Plain "حداقل سایز بلاک بر اساس بایت تنظیم شود (پیش فرض: 0)"));
  Message false [At (-33)]
    "Shrink debug.log file on client startup (default: 1 when no -debug)"
    (Finished (Plain "فایل debug.log  را در startup مشتری کوچک کن (پیش فرض:1 اگر اشکال زدایی روی نداد)"));
  Message false [At (-41)]
    "Specify connection timeout in milliseconds (default: 5000)"
    (Finished (Plain "(میلی ثانیه )فاصله ارتباط خاص"));
  Message false [At 28]
    "Use UPnP to map the listening port (default: 0)"
    (Finished (Plain "از UPnP  برای شناسایی درگاه شنیداری استفاده کنید (پیش فرض:0)"));
  Message false [At (-1)]
    "Use UPnP to map the listening port (default: 1 when listening)"
    (Finished (Plain "از UPnP  برای شناسایی درگاه شنیداری استفاده کنید (پیش فرض:1 در زمان شنیدن)"));
  Message false [At (-25)]
    "Use proxy to reach tor hidden services (default: same as -proxy)"
    (Unfinished (Plain no_text));
  Message false [At 45]
    "Username for JSON-RPC connections"
    (Finished (Plain "JSON-RPC شناسه برای ارتباطات"));
  Message false [At 50]
    "Verifying database integrity..."
    (Unfinished (Plain no_text));
  Message false [At 43]
    "Error: Wallet locked, unable to create transaction!"
    (Unfinished (Plain no_text));
  Message false [At 2]
    "Error: This transaction requires a transaction fee of at least %s because of its amount, complexity, or use of recently received funds!"
    (Unfinished (Plain no_text));
  Message false [At 3]
    "Error: Transaction creation failed!"
    (Unfinished (Plain no_text))].

Definition fa_bitcoin_core_3 : list message := [
  Message false [At 2]
    "Error: The transaction was rejected! This might happen if some of the coins in your wallet were already spent, such as if you used a copy of wallet.dat and coins were spent in the copy but not marked as spent here."
    (Unfinished (Plain no_text));
  Message false [At (-15)]
    "Warning"
    (Unfinished (Plain no_text));
  Message false [At 1]
    "Information"
    (Unfinished (Plain no_text));
  Message false [At (-7)]
    "Warning: This version is obsolete, upgrade required!"
    (Finished (Plain "هشدار: این نسخه قدیمی است، روزآمدسازی مورد نیاز است"));
  Message false [At (-23)]
    "wallet.dat corrupt, salvage failed"
    (Unfinished (Plain no_text));
  Message false [At (-55)]
    "Password for JSON-RPC connections"
    (Finished (Plain "JSON-RPC عبارت عبور برای ارتباطات"));
  Message false [At (-47)]
    "Connect through SOCKS5 proxy"
    (Unfinished (Plain no_text));
  Message false [At 17]
    "Sync time with other nodes. Disable if time on your system is precise e.g. syncing with NTP (default: 1)"
    (Unfinished (Plain no_text));
  Message false [At 12]
    "When creating transactions, ignore inputs with value less than this (default: 0.01)"
    (Unfinished (Plain no_text));
  Message false [At 6]
    "Output debugging information (default: 0, supplying &lt;category&gt; is optional)"
    (Unfinished (Plain no_text));
  Message false [At 2]
    "If &lt;category&gt; is not supplied, output all debugging information."
    (Unfinished (Plain no_text));
  Message false [At 1]
    "&lt;category&gt; can be:"
    (Unfinished (Plain no_text));
  Message false [At 4]
    "Enter regression test mode, which uses a special chain in which blocks can be solved instantly. This is intended for regression testing tools and app development."
    (Unfinished (Plain no_text));
  Message false [At 8]
    "Allow JSON-RPC connections from specified IP address"
    (Finished (Plain "از آدرس آی پی خاص JSON-RPC قبول ارتباطات"));
  Message false [At 1]
    "Send commands to node running on &lt;ip&gt; (default: 127.0.0.1)"
    (Finished (Plain "(127.0.0.1پیش فرض: ) &amp;lt;ip&amp;gt; دادن فرمانها برای استفاده گره ها روی"));
  Message false [At 1]
    "Wait for RPC server to start"
    (Unfinished (Plain no_text));
  Message false [At 1]
    "Set the number of threads to service RPC calls (default: 4)"
    (Unfinished (Plain no_text));
  Message false [At 1]
    "Execute command when the best block changes (%s in cmd is replaced by block hash)"
    (Finished (Plain "زمانی که بهترین بلاک تغییر کرد، دستور را اجرا کن (%s در cmd با block hash جایگزین شده است)"));
  Message false [At 3]
    "Execute command when a wallet transaction changes (%s in cmd is replaced by TxID)"
    (Finished (Plain "هنگامی که یک تراکنش در کیف پولی رخ می دهد، دستور را اجرا کن(%s در دستورات بوسیله ی TxID جایگزین می شود)"));
  Message false [At 3]
    "Require a confirmations for change (default: 0)"
    (Unfinished (Plain no_text));
  Message false [At 1]
    "Execute command when a relevant alert is received (%s in cmd is replaced by message)"
    (Unfinished (Plain no_text));
  Message false [At 3]
    "Upgrade wallet to latest format"
    (Finished (Plain "wallet  را به جدیدترین فرمت روزآمد کنید"));
  Message false [At 1]
    "Set key pool size to &lt;n&gt; (default: 100)"
    (Finished (Plain " (100پیش فرض:)&amp;lt;n&amp;gt; گذاشتن اندازه کلید روی "));
  Message false [At 1]
    "Rescan the block chain for missing wallet transactions"
    (Finished (Plain "اسکان مجدد زنجیر بلوکها برای گم والت معامله"));
  Message false [At 3]
    "How thorough the block verification is (0-6, default: 1)"
    (Unfinished (Plain no_text));
  Message false [At 1]
    "Imports blocks from external blk000?.dat file"
    (Unfinished (Plain no_text));
  Message false [At 1]
    "Keep at most &lt;n&gt; MiB of unconnectable blocks in memory (default: %u)"
    (Unfinished (Plain no_text));
  Message false [At 5]
    "Use OpenSSL (https) for JSON-RPC connections"
    (Finished (Plain "JSON-RPCبرای ارتباطات   استفاده کنید OpenSSL (https)"));
  Message false [At 1]
    "Server certificate file (default: server.cert)"
    (Finished (Plain " (server.certپیش فرض: )گواهی نامه سرور"));
  Message false [At 1]
    "Server private key (default: server.pem)"
    (Finished (Plain "(server.pemپیش فرض: ) کلید خصوصی سرور"))].

Definition fa_bitcoin_core_4 : list message := [
  Message false [At 5]
    "Error: Unsupported argument -socks found. Setting SOCKS version isn&apos;t possible anymore, only SOCKS5 proxies are supported."
    (Unfinished (Plain no_text));
  Message false [At 8]
    "Initialization sanity check failed. Bws is shutting down."
    (Unfinished (Plain no_text));
  Message false [At 20]
    "Error loading block database"
    (Unfinished (Plain no_text));
  Message false [At 29]
    "Error: Wallet unlocked for staking only, unable to create transaction."
    (Unfinished (Plain no_text));
  Message false [At (-14)]
    "Error: Disk space is low!"
    (Unfinished (Plain no_text));
  Message false [At 1]
    "This is a pre-release test build - use at your own risk - do not use for mining or merchant applications"
    (Unfinished (Plain no_text));
  Message false [At (-135)]
    "This help message"
    (Finished (Plain "پیام کمکی"));
  Message false [At 100]
    "Wallet %s resides outside data directory %s."
    (Unfinished (Plain no_text));
  Message false [At 46]
    "Unable to bind to %s on this computer (bind returned error %d, %s)"
    (Finished (Plain "امکان اتصال به %s از این رایانه وجود ندارد ( bind returned error %d, %s)"));
  Message false [At (-136)]
    "Allow DNS lookups for -addnode, -seednode and -connect"
    (Finished (Plain "به DNS اجازه بده تا برای addnode ، seednode و اتصال جستجو کند"));
  Message false [At 121]
    "Loading addresses..."
    (Finished (Plain "بار گیری آدرس ها"));
  Message false [At (-10)]
    "Error loading wallet.dat: Wallet corrupted"
    (Finished (Plain "خطا در بارگیری wallet.dat: کیف پول خراب شده است"));
  Message false [At 4]
    "Error loading wallet.dat: Wallet requires newer version of Bws"
    (Unfinished (Plain no_text));
  Message false [At 1]
    "Wallet needed to be rewritten: restart Bws to complete"
    (Unfinished (Plain no_text));
  Message false [At 1]
    "Error loading wallet.dat"
    (Finished (Plain "خطا در بارگیری wallet.dat"));
  Message false [At (-15)]
    "Invalid -proxy address: &apos;%s&apos;"
    (Finished (Plain "آدرس پراکسی اشتباه %s"));
  Message false [At (-1)]
    "Unknown network specified in -onlynet: &apos;%s&apos;"
    (Finished (Plain "شبکه مشخص شده غیرقابل شناسایی در onlynet: &apos;%s&apos;"));
  Message false [At 3]
    "Cannot resolve -bind address: &apos;%s&apos;"
    (Finished (Plain "آدرس قابل اتصال- شناسایی نیست %s"));
  Message false [At 2]
    "Cannot resolve -externalip address: &apos;%s&apos;"
    (Finished (Plain "آدرس خارجی قابل اتصال- شناسایی نیست %s"));
  Message false [At (-22)]
    "Invalid amount for -paytxfee=&lt;amount&gt;: &apos;%s&apos;"
    (Finished (Plain "میزان وجه اشتباه برای paytxfee=&lt;میزان وجه&gt;: %s"));
  Message false [At 59]
    "Sending..."
    (Unfinished (Plain no_text));
  Message false [At 5]
    "Invalid amount"
    (Finished (Plain "میزان وجه اشتباه"));
  Message false [At 1]
    "Insufficient funds"
    (Finished (Plain "بود جه نا کافی "));
  Message false [At (-41)]
    "Loading block index..."
    (Finished (Plain "بار گیری شاخص بلوک"));
  Message false [At (-105)]
    "Add a node to connect to and attempt to keep the connection open"
    (Finished (Plain "به اتصال یک گره اضافه کنید و اتصال را باز نگاه دارید"));
  Message false [At 131]
    "Unable to bind to %s on this computer. Bws is probably already running."
    (Unfinished (Plain no_text));
  Message false [At (-108)]
    "Fee per KB to add to transactions you send"
    (Unfinished (Plain no_text));
  Message false [At 40]
    "How many blocks to check at startup (default: 500, 0 = all)"
    (Unfinished (Plain no_text));
  Message false [At 11]
    "Acceptable ciphers (default: TLSv1.2+HIGH:TLSv1+HIGH:!SSLv2:!aNULL:!eNULL:!3DES:@STRENGTH)"
    (Unfinished (Plain no_text));
  Message false [At 3]
    "Warning: Deprecated argument -debugnet ignored, use -debug=net"
    (Unfinished (Plain no_text))].

Definition fa_bitcoin_core_5 : list message := [
  Message false [At 8]
    "Invalid amount for -mininput=&lt;amount&gt;: &apos;%s&apos;"
    (Unfinished (Plain no_text));
  Message false [At 3]
    "Cannot obtain a lock on data directory %s. Bws is probably already running."
    (Unfinished (Plain no_text));
  Message false [At 4]
    "Error initializing wallet database environment %s!"
    (Unfinished (Plain no_text));
  Message false [At 15]
    "Loading wallet..."
    (Finished (Plain "بار گیری والت"));
  Message false [At 8]
    "Cannot downgrade wallet"
    (Finished (Plain "امکان تنزل نسخه در wallet وجود ندارد"));
  Message false [At 1]
    "Cannot write default address"
    (Finished (Plain "آدرس پیش فرض قابل ذخیره نیست"));
  Message false [At 1]
    "Rescanning..."
    (Finished (Plain "اسکان مجدد"));
  Message false [At 2]
    "Done loading"
    (Finished (Plain "بار گیری انجام شده است"));
  Message false [At 33]
    "To use the %s option"
    (Finished (Plain "برای استفاده از %s از انتخابات"));
  Message false [At (-27)]
    "Error"
    (Finished (Plain "خطا"));
  Message false [At 22]
    "You must set rpcpassword=&lt;password&gt; in the configuration file:
%s
If the file does not exist, create it with owner-readable-only file permissions."
    (Finished (Plain "%s، شما باید یک rpcpassword  را در فایل پیکربندی تنظیم کنید :⏎%s⏎ اگر فایل ایجاد نشد، یک فایل فقط متنی ایجاد کنید.
"))].

Definition fa_bitcoin_core : context := TsContext "bitcoin-core"
  (fa_bitcoin_core_1 ++ fa_bitcoin_core_2 ++ fa_bitcoin_core_3 ++ fa_bitcoin_core_4 ++ fa_bitcoin_core_5).
