(* ===== verification/Format.v ===== *)
(** * Format: tinyformat ([tinyformat.h], [strprintf])

    The formatted output of the program: the conversion-specification parser
    and the formatter of [tinyformat.h], over a model of the part of
    [std::ostream] they use. Values are the types the program formats other
    than floating point: [std::string], C strings, integers of a width, and
    [char]. The error macro throws, so every operation returns a sum. *)

From S2P Require Import Prelude Catalog.

(** ** The output stream *)
Module Stream.

Inductive adjustfield := adjust_none | adjust_left | adjust_internal.
Inductive basefield := base_none | base_dec | base_oct | base_hex.
Inductive floatfield := float_none | float_fixed | float_scientific.

(** [std::ostringstream]: what was written and the format state. *)
Record stream := Stream {
  written : bytes;
  width : Z;
  precision : Z;
  fill : byte;
  adjust : adjustfield;
  base : basefield;
  float : floatfield;
  showbase : bool;
  showpoint : bool;
  showpos : bool;
  boolalpha : bool;
  uppercase : bool }.

(** A new stream, flags [skipws | dec]. *)
Definition new_stream : stream :=
  Stream [] 0 6 " "%byte adjust_none base_dec float_none false false false false false.

Definition set_width (w : Z) (s : stream) : stream :=
  Stream (written s) w (precision s) (fill s) (adjust s) (base s) (float s)
    (showbase s) (showpoint s) (showpos s) (boolalpha s) (uppercase s).
Definition set_precision (p : Z) (s : stream) : stream :=
  Stream (written s) (width s) p (fill s) (adjust s) (base s) (float s)
    (showbase s) (showpoint s) (showpos s) (boolalpha s) (uppercase s).
Definition set_fill (b : byte) (s : stream) : stream :=
  Stream (written s) (width s) (precision s) b (adjust s) (base s) (float s)
    (showbase s) (showpoint s) (showpos s) (boolalpha s) (uppercase s).
Definition set_adjust (a : adjustfield) (s : stream) : stream :=
  Stream (written s) (width s) (precision s) (fill s) a (base s) (float s)
    (showbase s) (showpoint s) (showpos s) (boolalpha s) (uppercase s).
Definition set_base (b : basefield) (s : stream) : stream :=
  Stream (written s) (width s) (precision s) (fill s) (adjust s) b (float s)
    (showbase s) (showpoint s) (showpos s) (boolalpha s) (uppercase s).
Definition set_float (f : floatfield) (s : stream) : stream :=
  Stream (written s) (width s) (precision s) (fill s) (adjust s) (base s) f
    (showbase s) (showpoint s) (showpos s) (boolalpha s) (uppercase s).
Definition set_showbase (b : bool) (s : stream) : stream :=
  Stream (written s) (width s) (precision s) (fill s) (adjust s) (base s) (float s)
    b (showpoint s) (showpos s) (boolalpha s) (uppercase s).
Definition set_showpoint (b : bool) (s : stream) : stream :=
  Stream (written s) (width s) (precision s) (fill s) (adjust s) (base s) (float s)
    (showbase s) b (showpos s) (boolalpha s) (uppercase s).
Definition set_showpos (b : bool) (s : stream) : stream :=
  Stream (written s) (width s) (precision s) (fill s) (adjust s) (base s) (float s)
    (showbase s) (showpoint s) b (boolalpha s) (uppercase s).
Definition set_boolalpha (b : bool) (s : stream) : stream :=
  Stream (written s) (width s) (precision s) (fill s) (adjust s) (base s) (float s)
    (showbase s) (showpoint s) (showpos s) b (uppercase s).
Definition set_uppercase (b : bool) (s : stream) : stream :=
  Stream (written s) (width s) (precision s) (fill s) (adjust s) (base s) (float s)
    (showbase s) (showpoint s) (showpos s) (boolalpha s) b.

(** [out.write]: unformatted. *)
Definition write (t : bytes) (s : stream) : stream :=
  Stream (written s ++ t) (width s) (precision s) (fill s) (adjust s) (base s) (float s)
    (showbase s) (showpoint s) (showpos s) (boolalpha s) (uppercase s).

(** [tmpStream.copyfmt(out)]: an empty stream with the format state of [s]. *)
Definition copyfmt (s : stream) : stream :=
  Stream [] (width s) (precision s) (fill s) (adjust s) (base s) (float s)
    (showbase s) (showpoint s) (showpos s) (boolalpha s) (uppercase s).

(** A formatted insertion of [prefix ++ body], padded to the width; internal
    padding goes after the prefix. Every insertion resets the width. *)
Definition put (prefix body : bytes) (s : stream) : stream :=
  let pad := replicate (Z.to_nat (width s - Z.of_nat (length (prefix ++ body)))) (fill s) in
  set_width 0
    (write (match adjust s with
            | adjust_left => prefix ++ body ++ pad
            | adjust_internal => prefix ++ pad ++ body
            | adjust_none => pad ++ prefix ++ body
            end) s).

(** *** Digits *)

Definition digit (upper : bool) (d : Z) : byte :=
  to_byte (if d <? 10 then 48 + d else (if upper then 55 else 87) + d).

(** The digits of [n] in base [b], most significant first; [fuel] digits are
    enough when [n < b ^ fuel]. *)
Fixpoint int_digits_from (fuel : nat) (upper : bool) (b n : Z) (acc : bytes) : bytes :=
  match fuel with
  | O => acc
  | S k =>
      let acc := digit upper (n mod b) :: acc in
      if n <? b then acc else int_digits_from k upper b (n / b) acc
  end.

(** Sixty-four digits hold every 64-bit value in every base from 2 on. *)
Definition int_digits (upper : bool) (b n : Z) : bytes := int_digits_from 64 upper b n [].

(** The decimal text of an integer. *)
Definition decimal (z : Z) : bytes :=
  if z <? 0 then "-"%byte :: int_digits false 10 (- z) else int_digits false 10 z.

(** Insertion of an integer of [w] bits: decimal keeps the sign, octal and
    hexadecimal print the value modulo [2 ^ w]. *)
Definition put_int (w : Z) (signed : bool) (z : Z) (s : stream) : stream :=
  match base s with
  | base_oct =>
      let u := z mod 2 ^ w in
      put [] ((if showbase s && negb (u =? 0) then ["0"%byte] else []) ++ int_digits false 8 u) s
  | base_hex =>
      let u := z mod 2 ^ w in
      put (if showbase s && negb (u =? 0)
           then ["0"%byte; if uppercase s then "X"%byte else "x"%byte] else [])
        (int_digits (uppercase s) 16 u) s
  | _ =>
      put (if z <? 0 then ["-"%byte] else if showpos s && signed then ["+"%byte] else [])
        (int_digits false 10 (Z.abs z)) s
  end.

(** Insertion of a pointer: hexadecimal with its prefix, flags kept. *)
Definition put_pointer (addr : Z) (s : stream) : stream :=
  let s' := put_int 64 false addr (set_base base_hex (set_showbase true (set_uppercase false s))) in
  set_uppercase (uppercase s) (set_showbase (showbase s) (set_base (base s) s')).

End Stream.
Export Stream.

(** ** tinyformat *)
Module Tinyformat.

(** The texts [TINYFORMAT_ERROR] throws. *)
Inductive error :=
  | TooManyConversions
  | NotEnoughConversions
  | ConversionA
  | ConversionN
  | EndOfString
  | CannotConvert.

Inductive value :=
  | VString (s : bytes)
  | VCString (addr : Z) (s : bytes)
  | VInt (w : Z) (signed : bool) (z : Z)
  | VChar (b : byte).

Definition Flag_None : Z := 0.
Definition Flag_TruncateToPrecision : Z := Z.shiftl 1 0.
Definition Flag_SpacePadPositive : Z := Z.shiftl 1 1.
Definition Flag_VariableWidth : Z := Z.shiftl 1 2.
Definition Flag_VariablePrecision : Z := Z.shiftl 1 3.

Definition has_flag (extra flag : Z) : bool := negb (Z.land extra flag =? 0).

(** [signed char] value of a [char]. *)
Definition char_val (b : byte) : Z := swrap 8 (uchar b).

Definition is_digit (b : byte) : bool := (48 <=? uchar b) && (uchar b <=? 57).

(** [parseIntAndAdvance]: the integer and the rest of the string. *)
Fixpoint parseIntAndAdvance (i : Z) (c : bytes) : Z * bytes :=
  match c with
  | b :: rest =>
      if is_digit b then parseIntAndAdvance (i32 (10 * i + (uchar b - 48))) rest else (i, c)
  | [] => (i, c)
  end.

(** [convertToInt]. *)
Definition convertToInt (v : value) : error + Z :=
  match v with
  | VString _ | VCString _ _ => inl CannotConvert
  | VInt _ _ z => inr (i32 z)
  | VChar b => inr (char_val b)
  end.

(** [formatValue]: [conv] is the character before [fmtEnd]. *)
Definition formatValue (conv : byte) (v : value) (out : stream) : stream :=
  match v with
  | VChar b =>
      match conv with
      | "u"%byte | "d"%byte | "i"%byte | "o"%byte | "X"%byte | "x"%byte =>
          put_int 32 true (char_val b) out
      | _ => put [] [b] out
      end
  | VInt w signed z =>
      if decide (conv = "c"%byte) then put [] [to_byte z] out else put_int w signed z out
  | VCString addr s =>
      if decide (conv = "p"%byte) then put_pointer addr out else put [] s out
  | VString s => put [] s out
  end.

(** [printFormatStringLiteral]: the text up to the next conversion
    specification, with [%%] read as one [%], and the rest. *)
Fixpoint printFormatStringLiteral (fmt : bytes) : bytes * bytes :=
  match fmt with
  | [] => ([], [])
  | "%"%byte :: ("%"%byte :: rest) =>
      let (t, r) := printFormatStringLiteral rest in ("%"%byte :: t, r)
  | "%"%byte :: _ => ([], fmt)
  | b :: rest => let (t, r) := printFormatStringLiteral rest in (b :: t, r)
  end.

(** *** [streamStateFromFormat], step by step *)

Definition reset_state (out : stream) : stream :=
  Stream (written out) 0 6 " "%byte adjust_none base_none float_none false false false false false.

(** 1) Flags. *)
Fixpoint parseFlags (out : stream) (extra : Z) (c : bytes) : stream * Z * bytes :=
  match c with
  | "#"%byte :: rest => parseFlags (set_showbase true (set_showpoint true out)) extra rest
  | "0"%byte :: rest =>
      parseFlags (match adjust out with
                  | adjust_left => out
                  | _ => set_adjust adjust_internal (set_fill "0"%byte out)
                  end) extra rest
  | "-"%byte :: rest => parseFlags (set_adjust adjust_left (set_fill " "%byte out)) extra rest
  | " "%byte :: rest =>
      parseFlags out (if showpos out then extra else Z.lor extra Flag_SpacePadPositive) rest
  | "+"%byte :: rest => parseFlags (set_showpos true out) (Z.ldiff extra Flag_SpacePadPositive) rest
  | _ => (out, extra, c)
  end.

(** 2) Width: digits, then possibly an asterisk. *)
Definition parseWidth (variableWidth : Z) (out : stream) (extra : Z) (c : bytes)
    : stream * Z * bool * bytes :=
  let '(out, set, c) :=
    match c with
    | b :: _ => if is_digit b then let (w, c) := parseIntAndAdvance 0 c in (set_width w out, true, c)
                else (out, false, c)
    | [] => (out, false, c)
    end in
  match c with
  | "*"%byte :: rest =>
      let '(out, vw) :=
        if variableWidth <? 0
        then (set_adjust adjust_left (set_fill " "%byte out), i32 (- variableWidth))
        else (out, variableWidth) in
      (set_width vw out, Z.lor extra Flag_VariableWidth, true, rest)
  | _ => (out, extra, set, c)
  end.

(** 3) Precision. *)
Definition parsePrecision (variablePrecision : Z) (out : stream) (extra : Z) (c : bytes)
    : stream * Z * bool * bytes :=
  match c with
  | "."%byte :: c =>
      let '(p, extra, c) :=
        match c with
        | "*"%byte :: rest => (variablePrecision, Z.lor extra Flag_VariablePrecision, rest)
        | "-"%byte :: rest => (0, extra, snd (parseIntAndAdvance 0 rest))
        | b :: _ => if is_digit b then let (p, c) := parseIntAndAdvance 0 c in (p, extra, c)
                    else (0, extra, c)
        | [] => (0, extra, c)
        end in
      (set_precision p out, extra, true, c)
  | _ => (out, extra, false, c)
  end.

(** 4) The length modifiers, ignored. *)
Fixpoint skipLength (c : bytes) : bytes :=
  match c with
  | "l"%byte :: rest | "h"%byte :: rest | "L"%byte :: rest
  | "j"%byte :: rest | "z"%byte :: rest | "t"%byte :: rest => skipLength rest
  | _ => c
  end.

(** 5) The conversion character: the new state, the flags and whether the
    conversion is one of [u], [d], [i], [o], [x], [X], [p]. *)
Definition conversion (precisionSet : bool) (conv : byte) (out : stream) (extra : Z)
    : error + stream * Z * bool :=
  match conv with
  | "u"%byte | "d"%byte | "i"%byte => inr (set_base base_dec out, extra, true)
  | "o"%byte => inr (set_base base_oct out, extra, true)
  | "X"%byte => inr (set_base base_hex (set_uppercase true out), extra, true)
  | "x"%byte | "p"%byte => inr (set_base base_hex out, extra, true)
  | "E"%byte => inr (set_base base_dec (set_float float_scientific (set_uppercase true out)), extra, false)
  | "e"%byte => inr (set_base base_dec (set_float float_scientific out), extra, false)
  | "F"%byte => inr (set_float float_fixed (set_uppercase true out), extra, false)
  | "f"%byte => inr (set_float float_fixed out, extra, false)
  | "G"%byte => inr (set_float float_none (set_base base_dec (set_uppercase true out)), extra, false)
  | "g"%byte => inr (set_float float_none (set_base base_dec out), extra, false)
  | "a"%byte | "A"%byte => inl ConversionA
  | "s"%byte =>
      inr (set_boolalpha true out,
           if precisionSet then Z.lor extra Flag_TruncateToPrecision else extra, false)
  | "n"%byte => inl ConversionN
  | _ => inr (out, extra, false)
  end.

Record spec_state := SpecState {
  sp_out : stream;
  sp_extra : Z;
  sp_conv : byte;
  sp_end : bytes }.

Definition streamStateFromFormat (out : stream) (fmtStart : bytes)
    (variableWidth variablePrecision : Z) : error + spec_state :=
  match fmtStart with
  | "%"%byte :: c =>
      let '(out, extra, c) := parseFlags (reset_state out) Flag_None c in
      let '(out, extra, widthSet, c) := parseWidth variableWidth out extra c in
      let '(out, extra, precisionSet, c) := parsePrecision variablePrecision out extra c in
      match skipLength c with
      | [] => inl EndOfString
      | conv :: rest =>
          match conversion precisionSet conv out extra with
          | inl e => inl e
          | inr (out, extra, intConversion) =>
              inr (SpecState
                     (if intConversion && precisionSet && negb widthSet
                      then set_fill "0"%byte (set_adjust adjust_internal (set_width (precision out) out))
                      else out)
                     extra conv rest)
          end
      end
  | _ => inl NotEnoughConversions
  end.

(** *** [FormatIterator] *)

Record iterator := Iterator {
  it_out : stream;
  it_fmt : bytes;
  it_extraFlags : Z;
  it_wantWidth : bool;
  it_wantPrecision : bool;
  it_variableWidth : Z;
  it_variablePrecision : Z }.

Definition new_iterator (out : stream) (fmt : bytes) : iterator :=
  Iterator out fmt Flag_None false false 0 0.

(** [finish]: the rest of the format must be literal. *)
Definition finish (it : iterator) : error + stream :=
  let (t, rest) := printFormatStringLiteral (it_fmt it) in
  match rest with
  | [] => inr (write t (it_out it))
  | _ => inl TooManyConversions
  end.

(** [formatCStringTruncate]: at most [truncLen] characters, C strings only. *)
Definition formatCStringTruncate (v : value) (truncLen : Z) (out : stream) : option stream :=
  match v with
  | VCString _ s => Some (write (take (Z.to_nat truncLen) s) out)
  | _ => None
  end.

(** The special cases that go through a temporary stream. *)
Definition formatThroughString (extra : Z) (conv : byte) (v : value) (out : stream) : stream :=
  let tmp := copyfmt out in
  let tmp := if has_flag extra Flag_SpacePadPositive then set_showpos true tmp else tmp in
  let tmp :=
    match (if has_flag extra Flag_TruncateToPrecision
           then formatCStringTruncate v (precision out) tmp else None) with
    | Some tmp => tmp
    | None => formatValue conv v tmp
    end in
  let result :=
    if has_flag extra Flag_SpacePadPositive
    then map (fun b => if decide (b = "+"%byte) then " "%byte else b) (written tmp)
    else written tmp in
  if has_flag extra Flag_TruncateToPrecision && (i32 (precision out) <? Z.of_nat (length result))
  then write (take (Z.to_nat (precision out)) result) out
  else put [] result out.

(** The end of [accept]: the value is formatted with the state just parsed. *)
Definition formatOne (sp : spec_state) (v : value) : stream :=
  if has_flag (sp_extra sp) (Z.lor Flag_SpacePadPositive Flag_TruncateToPrecision)
  then formatThroughString (sp_extra sp) (sp_conv sp) v (sp_out sp)
  else formatValue (sp_conv sp) v (sp_out sp).

Definition formatWith (it : iterator) (sp : spec_state) (v : value) : iterator :=
  Iterator (formatOne sp v) (sp_end sp) Flag_None (it_wantWidth it) (it_wantPrecision it)
    (it_variableWidth it) (it_variablePrecision it).

(** [accept] once a specification with an asterisk is under way: the value is
    the width or the precision still wanted, or the value to format with
    both. *)
Definition acceptVariable (it : iterator) (v : value) : error + iterator :=
  if it_wantWidth it || it_wantPrecision it then
    match convertToInt v with
    | inl e => inl e
    | inr i =>
        inr (if it_wantWidth it
             then Iterator (it_out it) (it_fmt it) (it_extraFlags it) false (it_wantPrecision it)
                    i (it_variablePrecision it)
             else Iterator (it_out it) (it_fmt it) (it_extraFlags it) false false
                    (it_variableWidth it) i)
    end
  else
    match streamStateFromFormat (it_out it) (it_fmt it) (it_variableWidth it)
            (it_variablePrecision it) with
    | inl e => inl e
    | inr sp => inr (formatWith it sp v)
    end.

Definition has_variable (extra : Z) : bool :=
  has_flag extra (Z.lor Flag_VariableWidth Flag_VariablePrecision).

Definition accept (it : iterator) (v : value) : error + iterator :=
  if (it_extraFlags it =? Flag_None) && negb (it_wantWidth it) && negb (it_wantPrecision it) then
    let (t, fmt) := printFormatStringLiteral (it_fmt it) in
    match streamStateFromFormat (write t (it_out it)) fmt 0 0 with
    | inl e => inl e
    | inr sp =>
        let it := Iterator (sp_out sp) fmt (sp_extra sp)
                    (has_flag (sp_extra sp) Flag_VariableWidth)
                    (has_flag (sp_extra sp) Flag_VariablePrecision)
                    (it_variableWidth it) (it_variablePrecision it) in
        if has_variable (sp_extra sp) then acceptVariable it v else inr (formatWith it sp v)
    end
  else acceptVariable it v.

(** [detail::format]: each value in turn, then [finish]. *)
Fixpoint formatAll (it : iterator) (args : list value) : error + stream :=
  match args with
  | [] => finish it
  | v :: rest =>
      match accept it v with
      | inl e => inl e
      | inr it => formatAll it rest
      end
  end.

(** [fmt.c_str()] read as a C string: up to the first zero byte. *)
Fixpoint c_str (s : bytes) : bytes :=
  match s with
  | [] => []
  | b :: rest => if decide (b = Byte.x00) then [] else b :: c_str rest
  end.

(** [tfm::format], which the program calls [strprintf]. *)
Definition format (fmt : bytes) (args : list value) : error + bytes :=
  match formatAll (new_iterator new_stream (c_str fmt)) args with
  | inl e => inl e
  | inr out => inr (written out)
  end.

Definition strprintf : bytes -> list value -> error + bytes := format.

End Tinyformat.
Export Tinyformat.
