(* ===== verification/FormatFacts.v ===== *)
(** * FormatFacts: what [strprintf] computes

    A reference definition of formatted output, one conversion at a time and
    without the iterator's state; the proof that tinyformat computes it; and
    the closed form for the formats made of plain conversions, with the exact
    conditions under which an exception is thrown. *)

From S2P Require Import Prelude Catalog Format.

(** ** Reference *)
Module Reference.

(** The text of one value under a specification read on an empty stream. *)
Definition valueText (sp : spec_state) (v : value) : bytes := written (formatOne sp v).

Definition emit (t : bytes) (r : error + bytes) : error + bytes :=
  match r with inl e => inl e | inr u => inr (t ++ u) end.

(** One conversion with its width and precision known, then the rest. *)
Definition one (spec : bytes) (w p : Z) (v : value) (rest : bytes -> error + bytes)
    : error + bytes :=
  match streamStateFromFormat new_stream spec w p with
  | inl e => inl e
  | inr sp => emit (valueText sp v) (rest (sp_end sp))
  end.

Definition with_int (v : value) (k : Z -> error + bytes) : error + bytes :=
  match convertToInt v with inl e => inl e | inr i => k i end.

(** Literal text, a specification, as many values as it takes, and again. *)
Fixpoint reference (fmt : bytes) (args : list value) : error + bytes :=
  let (t, spec) := printFormatStringLiteral fmt in
  match args with
  | [] => match spec with [] => inr t | _ => inl TooManyConversions end
  | v1 :: args1 =>
      match streamStateFromFormat new_stream spec 0 0 with
      | inl e => inl e
      | inr sp =>
          emit t
            (match has_flag (sp_extra sp) Flag_VariableWidth,
                   has_flag (sp_extra sp) Flag_VariablePrecision, args1 with
             | false, false, _ => one spec 0 0 v1 (fun r => reference r args1)
             | true, false, v2 :: args2 =>
                 with_int v1 (fun w => one spec w 0 v2 (fun r => reference r args2))
             | false, true, v2 :: args2 =>
                 with_int v1 (fun p => one spec 0 p v2 (fun r => reference r args2))
             | true, true, v2 :: v3 :: args3 =>
                 with_int v1 (fun w => with_int v2 (fun p =>
                   one spec w p v3 (fun r => reference r args3)))
             | true, true, [v2] => with_int v1 (fun _ => with_int v2 (fun _ => inl TooManyConversions))
             | _, _, [] => with_int v1 (fun _ => inl TooManyConversions)
             end)
      end
  end.

End Reference.
Export Reference.

(** ** The state of the stream does not leak from one conversion to the next *)
Module Frame.

(** [s] with [w] already written before. *)
Definition after (w : bytes) (s : stream) : stream :=
  Stream (w ++ written s) (width s) (precision s) (fill s) (adjust s) (base s) (float s)
    (showbase s) (showpoint s) (showpos s) (boolalpha s) (uppercase s).

Lemma after_put w p b s : put p b (after w s) = after w (put p b s).
Proof. unfold put, after, set_width, write. cbn. by rewrite <- app_assoc. Qed.

Lemma after_put_int w n sg z s : put_int n sg z (after w s) = after w (put_int n sg z s).
Proof. unfold put_int. cbn [base after]. destruct (base s); apply after_put. Qed.

Lemma after_formatValue w c v s : formatValue c v (after w s) = after w (formatValue c v s).
Proof.
  destruct v as [t|a t|n sg z|b]; cbn [formatValue].
  - apply after_put.
  - case_decide; [|apply after_put].
    unfold put_pointer.
    change (set_base base_hex (set_showbase true (set_uppercase false (after w s))))
      with (after w (set_base base_hex (set_showbase true (set_uppercase false s)))).
    by rewrite after_put_int.
  - case_decide; [apply after_put | apply after_put_int].
  - destruct c; (apply after_put || apply after_put_int).
Qed.

Lemma after_formatThroughString w e c v s :
  formatThroughString e c v (after w s) = after w (formatThroughString e c v s).
Proof.
  unfold formatThroughString. change (copyfmt (after w s)) with (copyfmt s).
  cbn [precision after].
  case_match; [|apply after_put].
  unfold after, write. cbn. by rewrite app_assoc.
Qed.

Definition after_spec (w : bytes) (sp : spec_state) : spec_state :=
  SpecState (after w (sp_out sp)) (sp_extra sp) (sp_conv sp) (sp_end sp).

Lemma after_formatOne w sp v : formatOne (after_spec w sp) v = after w (formatOne sp v).
Proof.
  unfold formatOne, after_spec. cbn [sp_extra sp_out sp_conv].
  destruct (has_flag _ _); [apply after_formatThroughString | apply after_formatValue].
Qed.

Lemma after_parseFlags w c : forall s e,
  parseFlags (after w s) e c =
  let '(s', e', c') := parseFlags s e c in (after w s', e', c').
Proof.
  induction c as [|b c IH]; intros s e; [done|].
  destruct b; try reflexivity; cbn [parseFlags].
  all: match goal with
       | |- context [adjust (after _ ?s)] => cbn [adjust after]; destruct (adjust s)
       | |- context [showpos (after _ ?s)] => cbn [showpos after]; destruct (showpos s)
       | _ => idtac
       end.
  all: etransitivity; [|apply IH]; reflexivity.
Qed.

Lemma after_parseWidth w vw s e c :
  parseWidth vw (after w s) e c =
  let '(s', e', b, c') := parseWidth vw s e c in (after w s', e', b, c').
Proof.
  unfold parseWidth. destruct c as [|b c]; [done|].
  destruct (is_digit b).
  - destruct (parseIntAndAdvance 0 (b :: c)) as [i [|[] r]]; try reflexivity.
    by destruct (vw <? 0).
  - destruct b; try reflexivity. by destruct (vw <? 0).
Qed.

Lemma after_parsePrecision w vp s e c :
  parsePrecision vp (after w s) e c =
  let '(s', e', b, c') := parsePrecision vp s e c in (after w s', e', b, c').
Proof.
  unfold parsePrecision. destruct c as [|b c]; [done|]. destruct b; try reflexivity.
  by destruct (match c with [] => _ | _ => _ end) as [[p e'] c'].
Qed.

Lemma after_conversion w b c s e :
  conversion b c (after w s) e =
  match conversion b c s e with
  | inl er => inl er
  | inr (s', e', i) => inr (after w s', e', i)
  end.
Proof. by destruct c. Qed.

(** A specification is read from a reset state: only what was written is
    left of the stream before it. *)
Lemma streamStateFromFormat_frame s spec vw vp :
  streamStateFromFormat s spec vw vp =
  match streamStateFromFormat new_stream spec vw vp with
  | inl e => inl e
  | inr sp => inr (after_spec (written s) sp)
  end.
Proof.
  unfold streamStateFromFormat. destruct spec as [|b c]; [done|]. destruct b; try reflexivity.
  replace (reset_state s) with (after (written s) (reset_state new_stream))
    by (unfold after, reset_state; cbn; by rewrite app_nil_r).
  rewrite after_parseFlags. destruct (parseFlags _ _ _) as [[s1 e1] c1].
  rewrite after_parseWidth. destruct (parseWidth _ _ _ _) as [[[s2 e2] b2] c2].
  rewrite after_parsePrecision. destruct (parsePrecision _ _ _ _) as [[[s3 e3] b3] c3].
  destruct (skipLength c3) as [|k r]; [done|].
  rewrite after_conversion. destruct (conversion _ _ _ _) as [|[[s4 e4] i]]; [done|].
  by destruct (i && b3 && negb b2).
Qed.

End Frame.
Export Frame.

(** ** Flags, and the independence of the width and precision arguments *)
Module Flags.

Lemma has_flag_lor e f g : has_flag (Z.lor e f) g = has_flag e g || has_flag f g.
Proof.
  unfold has_flag. rewrite Z.land_lor_distr_l.
  destruct (Z.eqb_spec (Z.land e g) 0) as [->|Ha]; cbn [negb orb]; [done|].
  destruct (Z.eqb_spec (Z.lor (Z.land e g) (Z.land f g)) 0) as [Hb|]; [|done].
  by apply Z.lor_eq_0_iff in Hb as [??].
Qed.

Lemma has_flag_ldiff e f g : has_flag e g = false -> has_flag (Z.ldiff e f) g = false.
Proof.
  unfold has_flag. rewrite !negb_false_iff, !Z.eqb_eq. intros E.
  rewrite Z.ldiff_land, <- Z.land_assoc, (Z.land_comm (Z.lnot f)), Z.land_assoc, E.
  apply Z.land_0_l.
Qed.

Lemma parseFlags_variable c : forall s e s' e' c' f,
  has_flag Flag_SpacePadPositive f = false -> has_flag e f = false ->
  parseFlags s e c = (s', e', c') -> has_flag e' f = false.
Proof.
  induction c as [|b c IH]; intros s e s' e' c' f Hf He E; [by inversion E; subst|].
  destruct b; try (by inversion E; subst); cbn [parseFlags] in E;
    (eapply IH; [exact Hf| |exact E]); try exact He.
  - case_match; [exact He|]. rewrite has_flag_lor, He. exact Hf.
  - by apply has_flag_ldiff.
Qed.

Lemma parseWidth_independent w s e c :
  let '(_, e', _, _) := parseWidth 0 s e c in
  has_flag e' Flag_VariableWidth = false -> parseWidth w s e c = parseWidth 0 s e c.
Proof.
  unfold parseWidth.
  destruct (match c with [] => _ | _ => _ end) as [[s1 set] [|b r]]; [done|].
  destruct b; try done. cbn. intros E. by rewrite has_flag_lor, orb_true_r in E.
Qed.

Lemma parseWidth_shape w s e c :
  let '(_, e1, b1, c1) := parseWidth 0 s e c in
  let '(_, e2, b2, c2) := parseWidth w s e c in e1 = e2 /\ b1 = b2 /\ c1 = c2.
Proof.
  unfold parseWidth.
  destruct (match c with [] => _ | _ => _ end) as [[s1 set] [|b r]]; [done|].
  destruct b; try done. by destruct (w <? 0).
Qed.

Lemma parsePrecision_shape p s1 s2 e c :
  let '(_, e1, b1, c1) := parsePrecision 0 s1 e c in
  let '(_, e2, b2, c2) := parsePrecision p s2 e c in e1 = e2 /\ b1 = b2 /\ c1 = c2.
Proof.
  unfold parsePrecision. destruct c as [|b c]; [done|]. destruct b; try done.
  destruct c as [|b c]; [done|].
  destruct b; try done; cbn; by destruct (parseIntAndAdvance _ _).
Qed.

Lemma parsePrecision_independent p s e c :
  let '(_, e', _, _) := parsePrecision 0 s e c in
  has_flag e' Flag_VariablePrecision = false -> parsePrecision p s e c = parsePrecision 0 s e c.
Proof.
  unfold parsePrecision. destruct c as [|b c]; [done|]. destruct b; try done.
  destruct c as [|b c]; [done|].
  destruct b; try done; cbn; try (by destruct (parseIntAndAdvance _ _)); try done.
  intros E. by rewrite has_flag_lor, orb_true_r in E.
Qed.

(** The flags only grow after the width. *)
Lemma parsePrecision_flags p s e c f :
  let '(_, e', _, _) := parsePrecision p s e c in has_flag e f = true -> has_flag e' f = true.
Proof.
  unfold parsePrecision. destruct c as [|b c]; [done|]. destruct b; try done.
  destruct c as [|b c]; [done|].
  destruct b; try done; cbn; try (by destruct (parseIntAndAdvance _ _)); try done.
  intros E. by rewrite has_flag_lor, E.
Qed.

Lemma conversion_flags b c s e s' e' i f :
  conversion b c s e = inr (s', e', i) -> has_flag e f = true -> has_flag e' f = true.
Proof.
  intros E Hf. destruct c; cbn in E; try discriminate E; injection E as <- <- <-; try exact Hf.
  destruct b; [by rewrite has_flag_lor, Hf | exact Hf].
Qed.

Lemma conversion_shape b c s1 s2 e :
  match conversion b c s1 e, conversion b c s2 e with
  | inl x, inl y => x = y
  | inr (_, e1, i1), inr (_, e2, i2) => e1 = e2 /\ i1 = i2
  | _, _ => False
  end.
Proof. by destruct c. Qed.

End Flags.
Export Flags.

(** ** Reading a specification *)
Module Spec.

Lemma parseFlags_written c : forall s e s' e' c',
  parseFlags s e c = (s', e', c') -> written s' = written s.
Proof.
  induction c as [|b c IH]; intros s e s' e' c' E; [by inversion E|].
  destruct b; try (by inversion E); cbn [parseFlags] in E; apply IH in E; try exact E.
  by destruct (adjust s).
Qed.

Lemma parseWidth_written w s e c s' e' b c' :
  parseWidth w s e c = (s', e', b, c') -> written s' = written s.
Proof.
  unfold parseWidth. intros E.
  destruct (match c with [] => _ | _ => _ end) as [[s1 set] c1] eqn:E1.
  assert (written s1 = written s) as <-.
  { destruct c as [|k r]; [by injection E1 as <- _ _|].
    destruct (is_digit k); [destruct (parseIntAndAdvance _ _)|]; by injection E1 as <- _ _. }
  destruct c1 as [|k r]; [by injection E as <- _ _ _|].
  destruct k; try (by injection E as <- _ _ _).
  destruct (w <? 0); by injection E as <- _ _ _.
Qed.

Lemma parsePrecision_written p s e c s' e' b c' :
  parsePrecision p s e c = (s', e', b, c') -> written s' = written s.
Proof.
  unfold parsePrecision. intros E. destruct c as [|k r]; [by injection E as <- _ _ _|].
  destruct k; try (by injection E as <- _ _ _).
  destruct (match r with [] => _ | _ => _ end) as [[q e1] c1]. by injection E as <- _ _ _.
Qed.

Lemma conversion_written b c s e s' e' i :
  conversion b c s e = inr (s', e', i) -> written s' = written s.
Proof. intros E. destruct c; cbn in E; try discriminate E; by injection E as <- _ _. Qed.

Lemma streamState_written spec w p sp :
  streamStateFromFormat new_stream spec w p = inr sp -> written (sp_out sp) = [].
Proof.
  unfold streamStateFromFormat. intros E. destruct spec as [|b c]; [done|].
  destruct b; try discriminate E.
  destruct (parseFlags _ _ _) as [[s1 e1] c1] eqn:E1. apply parseFlags_written in E1.
  destruct (parseWidth _ _ _ _) as [[[s2 e2] b2] c2] eqn:E2. apply parseWidth_written in E2.
  destruct (parsePrecision _ _ _ _) as [[[s3 e3] b3] c3] eqn:E3. apply parsePrecision_written in E3.
  destruct (skipLength c3) as [|k r]; [done|].
  destruct (conversion _ _ _ _) as [|[[s4 e4] i]] eqn:E4; [done|]. apply conversion_written in E4.
  injection E as <-. cbn [sp_out].
  destruct (i && b3 && negb b2); cbn; by rewrite E4, E3, E2, E1.
Qed.

Lemma growing b c s e s' e' i f :
  conversion b c s e = inr (s', e', i) -> has_flag e' f = false -> has_flag e f = false.
Proof.
  intros E Hf. destruct (has_flag e f) eqn:He; [|done].
  by rewrite (conversion_flags _ _ _ _ _ _ _ _ E He) in Hf.
Qed.

(** A specification without an asterisk for the width does not read the
    width argument. *)
Lemma streamState_no_width spec w p sp :
  streamStateFromFormat new_stream spec 0 0 = inr sp ->
  has_flag (sp_extra sp) Flag_VariableWidth = false ->
  streamStateFromFormat new_stream spec w p = streamStateFromFormat new_stream spec 0 p.
Proof.
  unfold streamStateFromFormat. intros E Hf. destruct spec as [|b c]; [done|].
  destruct b; try discriminate E.
  destruct (parseFlags _ _ _) as [[s1 e1] c1].
  pose proof (parseWidth_independent w s1 e1 c1) as Hw.
  destruct (parseWidth 0 _ _ _) as [[[s2 e2] b2] c2].
  pose proof (parsePrecision_flags 0 s2 e2 c2 Flag_VariableWidth) as Hp.
  destruct (parsePrecision 0 _ _ _) as [[[s3 e3] b3] c3].
  destruct (skipLength c3) as [|k r]; [done|].
  destruct (conversion _ _ _ _) as [|[[s4 e4] i]] eqn:E4; [done|].
  injection E as <-. cbn [sp_extra] in Hf. apply (growing _ _ _ _ _ _ _ _ E4) in Hf.
  rewrite Hw; [done|]. destruct (has_flag e2 _); [by rewrite Hp in Hf | done].
Qed.

(** Likewise for the precision. *)
Lemma streamState_no_precision spec w p sp :
  streamStateFromFormat new_stream spec 0 0 = inr sp ->
  has_flag (sp_extra sp) Flag_VariablePrecision = false ->
  streamStateFromFormat new_stream spec w p = streamStateFromFormat new_stream spec w 0.
Proof.
  unfold streamStateFromFormat. intros E Hf. destruct spec as [|b c]; [done|].
  destruct b; try discriminate E.
  destruct (parseFlags _ _ _) as [[s1 e1] c1].
  pose proof (parseWidth_shape w s1 e1 c1) as Hw.
  destruct (parseWidth 0 _ _ _) as [[[s2 e2] b2] c2].
  destruct (parseWidth w _ _ _) as [[[s2' e2'] b2'] c2'].
  destruct Hw as (<- & <- & <-).
  pose proof (parsePrecision_shape 0 s2 s2' e2 c2) as Hs.
  pose proof (parsePrecision_independent p s2' e2 c2) as Hp.
  destruct (parsePrecision 0 s2 _ _) as [[[s3 e3] b3] c3].
  destruct (parsePrecision 0 s2' _ _) as [[[s3' e3'] b3'] c3'].
  destruct Hs as (<- & <- & <-).
  destruct (skipLength c3) as [|k r] eqn:Ek; [done|].
  destruct (conversion _ _ s3 _) as [|[[s4 e4] i]] eqn:E4; [done|].
  injection E as <-. cbn [sp_extra] in Hf. apply (growing _ _ _ _ _ _ _ _ E4) in Hf.
  by rewrite (Hp Hf), Ek.
Qed.

Lemma literal_chr b fmt : b <> "%"%byte ->
  printFormatStringLiteral (b :: fmt) =
  let (t, r) := printFormatStringLiteral fmt in (b :: t, r).
Proof. by destruct b. Qed.

Lemma literal_conv c fmt : c <> "%"%byte ->
  printFormatStringLiteral ("%"%byte :: c :: fmt) = ([], "%"%byte :: c :: fmt).
Proof. by destruct c. Qed.

(** The scan for the next specification is idempotent. *)
Lemma literal_rest fmt :
  printFormatStringLiteral (snd (printFormatStringLiteral fmt)) =
  ([], snd (printFormatStringLiteral fmt)).
Proof.
  revert fmt. fix IH 1. intros [|b rest]; [done|].
  destruct (decide (b = "%"%byte)) as [->|Hb].
  - destruct rest as [|c rest]; [done|].
    destruct (decide (c = "%"%byte)) as [->|Hc].
    + specialize (IH rest). cbn [printFormatStringLiteral].
      by destruct (printFormatStringLiteral rest).
    + rewrite literal_conv by done. by apply literal_conv.
  - specialize (IH rest). rewrite literal_chr by done.
    by destruct (printFormatStringLiteral rest).
Qed.

End Spec.
Export Spec.

(** A C string without terminator inside is read whole. *)
Lemma c_str_no_nul s : Forall (fun c => c <> B#0) s -> c_str s = s.
Proof. induction 1 as [|c s Hc _ IH]; [done|]. cbn [c_str]. rewrite decide_False by done. by rewrite IH. Qed.

(** ** tinyformat computes the reference *)
Module Refines.

Definition result_text (r : error + stream) : error + bytes :=
  match r with inl e => inl e | inr s => inr (written s) end.

Lemma emit_app a b r : emit (a ++ b) r = emit a (emit b r).
Proof. destruct r; cbn; [done | by rewrite app_assoc]. Qed.

Lemma emit_nil r : emit [] r = r.
Proof. by destruct r. Qed.

Definition idle (it : iterator) : Prop :=
  it_extraFlags it = Flag_None /\ it_wantWidth it = false /\ it_wantPrecision it = false.

(** What the rest of the arguments must satisfy: the induction hypothesis. *)
Definition refines (rest : list value) : Prop :=
  forall it, idle it ->
    result_text (formatAll it rest) = emit (written (it_out it)) (reference (it_fmt it) rest).

(** The value of a conversion, in whatever state of the stream. *)
Lemma format_value_step out spec w p v rest (k : spec_state -> iterator) :
  refines rest ->
  (forall sp, it_extraFlags (k sp) = Flag_None /\ it_wantWidth (k sp) = false /\
              it_wantPrecision (k sp) = false /\ it_fmt (k sp) = sp_end sp /\
              it_out (k sp) = formatOne sp v) ->
  result_text (match streamStateFromFormat out spec w p with
               | inl e => inl e
               | inr sp => formatAll (k sp) rest
               end) =
  emit (written out) (one spec w p v (fun r => reference r rest)).
Proof.
  intros Href Hk. rewrite streamStateFromFormat_frame. unfold one.
  destruct (streamStateFromFormat new_stream spec w p) as [e|sp] eqn:E; [done|].
  destruct (Hk (after_spec (written out) sp)) as (He & Hw & Hp & Hf & Ho).
  rewrite (Href _ (conj He (conj Hw Hp))), Hf, Ho, after_formatOne.
  cbn [written after sp_end after_spec]. by rewrite <- emit_app.
Qed.

(** Width and precision known, a specification under way. *)
Lemma accept_ready out spec e w p v rest :
  refines rest -> e <> Flag_None ->
  result_text (formatAll (Iterator out spec e false false w p) (v :: rest)) =
  emit (written out) (one spec w p v (fun r => reference r rest)).
Proof.
  intros Href He. cbn [formatAll]. unfold accept. cbn [it_extraFlags it_wantWidth it_wantPrecision].
  destruct (Z.eqb_spec e Flag_None) as [|_]; [done|]. cbn [andb].
  unfold acceptVariable. cbn [it_wantWidth it_wantPrecision it_out it_fmt it_variableWidth it_variablePrecision orb].
  erewrite <- (format_value_step out spec w p v rest
    (fun sp => formatWith (Iterator out spec e false false w p) sp v)); [|exact Href|done].
  by destruct (streamStateFromFormat out spec w p).
Qed.

(** The arguments ran out in the middle of a specification. *)
Lemma finish_mid fmt c it :
  it_fmt it = snd (printFormatStringLiteral fmt) -> it_fmt it = "%"%byte :: c ->
  formatAll it [] = inl TooManyConversions.
Proof.
  intros E Ec. cbn [formatAll]. unfold finish.
  rewrite E, literal_rest, <- E, Ec. reflexivity.
Qed.

Lemma has_variable_or e :
  has_variable e = has_flag e Flag_VariableWidth || has_flag e Flag_VariablePrecision.
Proof.
  unfold has_variable, has_flag.
  rewrite !(Z.land_comm e), Z.land_lor_distr_l.
  destruct (Z.eqb_spec (Z.land Flag_VariableWidth e) 0) as [->|Ha]; cbn [negb orb]; [done|].
  destruct (Z.eqb_spec (Z.lor (Z.land Flag_VariableWidth e) (Z.land Flag_VariablePrecision e)) 0)
    as [Hb|]; [|done].
  by apply Z.lor_eq_0_iff in Hb as [??].
Qed.

Lemma has_flag_some e f : has_flag e f = true -> e <> Flag_None.
Proof. intros E ->. by rewrite (Z.land_0_l f : Z.land Flag_None f = 0) in E || discriminate E. Qed.

Lemma one_ext spec w p w' p' v k :
  streamStateFromFormat new_stream spec w p = streamStateFromFormat new_stream spec w' p' ->
  one spec w p v k = one spec w' p' v k.
Proof. unfold one. by intros ->. Qed.

(** The state after the first value of a specification with an asterisk. *)
Definition pending (out : stream) (spec : bytes) (e : Z) (ww wp : bool) (w p : Z) : iterator :=
  Iterator out spec e ww wp w p.

Lemma accept_pending out spec e ww wp w p v rest :
  e <> Flag_None -> ww || wp = true ->
  formatAll (pending out spec e ww wp w p) (v :: rest) =
  match convertToInt v with
  | inl er => inl er
  | inr i => formatAll (if ww then pending out spec e false wp i p
                        else pending out spec e false false w i) rest
  end.
Proof.
  intros He Hw. cbn [formatAll]. unfold accept, pending. cbn [it_extraFlags it_wantWidth it_wantPrecision].
  destruct (Z.eqb_spec e Flag_None) as [|_]; [done|]. cbn [andb].
  unfold acceptVariable. cbn [it_wantWidth it_wantPrecision it_out it_fmt it_extraFlags it_variableWidth it_variablePrecision].
  rewrite Hw. destruct (convertToInt v); [done|]. by destruct ww.
Qed.

(** The first value of a specification, from an idle iterator. *)
Lemma accept_first it v rest t spec :
  idle it -> printFormatStringLiteral (it_fmt it) = (t, spec) ->
  formatAll it (v :: rest) =
  match streamStateFromFormat new_stream spec 0 0 with
  | inl e => inl e
  | inr sp =>
      let out := after (written (it_out it) ++ t) (sp_out sp) in
      let ww := has_flag (sp_extra sp) Flag_VariableWidth in
      let wp := has_flag (sp_extra sp) Flag_VariablePrecision in
      if has_variable (sp_extra sp)
      then formatAll (pending out spec (sp_extra sp) ww wp (it_variableWidth it)
                        (it_variablePrecision it)) (v :: rest)
      else formatAll (formatWith
                        (pending out spec (sp_extra sp) ww wp (it_variableWidth it)
                           (it_variablePrecision it))
                        (after_spec (written (it_out it) ++ t) sp) v) rest
  end.
Proof.
  intros (He & Hw & Hp) El. cbn [formatAll]. unfold accept at 1.
  rewrite He, Hw, Hp, El, streamStateFromFormat_frame. cbn [Z.eqb Flag_None andb negb].
  destruct (streamStateFromFormat new_stream spec 0 0) as [|sp]; [done|].
  cbn [after_spec sp_extra sp_out written write].
  destruct (has_variable (sp_extra sp)) eqn:Hv; [|done].
  unfold accept. cbn [pending it_extraFlags it_wantWidth it_wantPrecision].
  destruct (Z.eqb_spec (sp_extra sp) Flag_None) as [E|_]; [|done].
  by rewrite E in Hv.
Qed.

(** Both asterisks, one, or none: the values a specification takes. *)
Lemma pending_refines out spec e ww wp w p c fmt args :
  ww || wp = true -> ww = has_flag e Flag_VariableWidth -> wp = has_flag e Flag_VariablePrecision ->
  spec = snd (printFormatStringLiteral fmt) -> spec = "%"%byte :: c ->
  (forall rest, length rest < length args -> refines rest)%nat ->
  (ww = false -> forall p', streamStateFromFormat new_stream spec w p' =
                            streamStateFromFormat new_stream spec 0 p') ->
  (wp = false -> forall w', streamStateFromFormat new_stream spec w' p =
                            streamStateFromFormat new_stream spec w' 0) ->
  result_text (formatAll (pending out spec e ww wp w p) args) =
  emit (written out)
    (match ww, wp, args with
     | true, false, v1 :: v2 :: args2 =>
         with_int v1 (fun w => one spec w 0 v2 (fun r => reference r args2))
     | false, true, v1 :: v2 :: args2 =>
         with_int v1 (fun p => one spec 0 p v2 (fun r => reference r args2))
     | true, true, v1 :: v2 :: v3 :: args3 =>
         with_int v1 (fun w => with_int v2 (fun p =>
           one spec w p v3 (fun r => reference r args3)))
     | true, true, [v1; v2] => with_int v1 (fun _ => with_int v2 (fun _ => inl TooManyConversions))
     | _, _, [v1] => with_int v1 (fun _ => inl TooManyConversions)
     | _, _, _ => inl TooManyConversions
     end).
Proof.
  intros Hww Eww Ewp Espec Ec IH Hw Hp.
  assert (forall it, it_fmt it = spec -> formatAll it [] = inl TooManyConversions) as Hmid.
  { intros it Ei. by apply (finish_mid fmt c); rewrite Ei. }
  assert (e <> Flag_None) as He.
  { intros ->. by rewrite Eww, Ewp in Hww. }
  clear Eww Ewp.
  destruct args as [|v1 [|v2 args2]].
  - rewrite Hmid by done. by destruct ww, wp.
  - rewrite accept_pending by done. unfold with_int.
    destruct (convertToInt v1) as [er|i]; [by destruct ww, wp|].
    rewrite Hmid by (by destruct ww). by destruct ww, wp.
  - rewrite accept_pending by done. unfold with_int.
    destruct (convertToInt v1) as [er|i].
    { destruct ww, wp; try done. by destruct args2. }
    destruct ww, wp; try done.
    + rewrite accept_pending by done.
      destruct (convertToInt v2) as [er|j]; [by destruct args2|].
      destruct args2 as [|v3 args3]; [by rewrite Hmid|].
      apply accept_ready; [apply IH; cbn; lia | done].
    + etransitivity; [apply accept_ready; [apply IH; cbn; lia | done]|].
      f_equal. by apply one_ext, Hp.
    + etransitivity; [apply accept_ready; [apply IH; cbn; lia | done]|].
      f_equal. by apply one_ext, Hw.
Qed.

Lemma formatAll_refines args : refines args.
Proof.
  remember (length args) as n eqn:En. revert args En.
  induction n as [n IHn] using lt_wf_ind. intros args ->.
  assert (forall rest, (length rest < length args)%nat -> refines rest) as IH.
  { intros rest Hl. by apply (IHn (length rest) Hl). }
  clear IHn. intros it Hidle.
  destruct (printFormatStringLiteral (it_fmt it)) as [t spec] eqn:El.
  assert (spec = snd (printFormatStringLiteral (it_fmt it))) as Espec by (by rewrite El).
  destruct args as [|v1 args1].
  { cbn [formatAll reference]. unfold finish. rewrite El. by destruct spec. }
  rewrite (accept_first it v1 args1 t spec Hidle El).
  cbn [reference]. rewrite El.
  destruct (streamStateFromFormat new_stream spec 0 0) as [|sp] eqn:E; [done|].
  pose proof (streamState_written _ _ _ _ E) as Hw0. cbv zeta.
  rewrite has_variable_or.
  destruct (has_flag (sp_extra sp) Flag_VariableWidth || has_flag (sp_extra sp) Flag_VariablePrecision)
    eqn:Hv.
  - assert (exists c, spec = "%"%byte :: c) as [c Ec].
    { destruct spec as [|b c]; [done|]. destruct b; try done. by exists c. }
    erewrite (pending_refines _ _ _ _ _ _ _ c _ _ Hv eq_refl eq_refl Espec Ec IH).
    + cbn [written after]. rewrite Hw0, app_nil_r, emit_app. do 2 f_equal.
      destruct (has_flag _ Flag_VariableWidth), (has_flag _ Flag_VariablePrecision); try done.
      all: destruct args1 as [|? [|??]]; done.
    + intros Hn p'. by apply (streamState_no_width _ _ _ _ E).
    + intros Hn w'. by apply (streamState_no_precision _ _ _ _ E).
  - apply orb_false_iff in Hv as [-> ->].
    rewrite (IH args1); [|cbn; lia|done].
    cbn [formatWith pending it_out it_fmt after_spec sp_end].
    rewrite after_formatOne. cbn [written after]. unfold one. rewrite E.
    by rewrite !emit_app.
Qed.

End Refines.
Export Refines.

Lemma strprintf_reference' fmt args : strprintf fmt args = reference (c_str fmt) args.
Proof.
  unfold strprintf, format.
  pose proof (formatAll_refines args (new_iterator new_stream (c_str fmt))) as H.
  rewrite emit_nil in H. etransitivity; [|apply H; done].
  by destruct (formatAll _ args).
Qed.

(** C35. [strprintf] is the reference: literal text, then conversions taken one
    at a time, each reading its own specification from a reset state and
    consuming the values it asks for (one, and one more for each asterisk);
    nothing of the stream's or the iterator's state leaks from one conversion
    to the next. Too few values, too many, a value that is not an integer for
    an asterisk, and the refused conversions are errors in both. *)
Theorem strprintf_reference fmt args : strprintf fmt args = reference (c_str fmt) args.
Proof. exact (strprintf_reference' fmt args). Qed.

(** ** Formats of plain conversions *)
Module Plain.

(** The conversions the messages of the program use, without flags, width or
    precision. *)
Definition plain (c : byte) : bool :=
  match c with "s"%byte | "d"%byte | "i"%byte | "u"%byte => true | _ => false end.

Inductive piece :=
  | Chr (b : byte)
  | Conv (c : byte).

Fixpoint plain_pieces (fmt : bytes) : option (list piece) :=
  match fmt with
  | [] => Some []
  | "%"%byte :: rest =>
      match rest with
      | "%"%byte :: rest' => cons (Chr "%"%byte) <$> plain_pieces rest'
      | c :: rest' => if plain c then cons (Conv c) <$> plain_pieces rest' else None
      | [] => None
      end
  | Byte.x00 :: _ => None
  | b :: rest => cons (Chr b) <$> plain_pieces rest
  end.

(** The text of a value under a plain conversion. *)
Definition show (c : byte) (v : value) : bytes :=
  match v with
  | VString s | VCString _ s => s
  | VInt _ _ z => decimal z
  | VChar b => if decide (c = "s"%byte) then [b] else decimal (char_val b)
  end.

Fixpoint render (ps : list piece) (args : list value) : error + bytes :=
  match ps, args with
  | [], [] => inr []
  | [], _ :: _ => inl NotEnoughConversions
  | Chr b :: ps, _ => emit [b] (render ps args)
  | Conv c :: ps, v :: args => emit (show c v) (render ps args)
  | Conv _ :: _, [] => inl TooManyConversions
  end.

Definition is_conv (p : piece) : bool := match p with Conv _ => true | Chr _ => false end.
Definition arity (ps : list piece) : nat := length (List.filter is_conv ps).

Lemma put_unpadded p b s : width s = 0 -> adjust s = adjust_none ->
  written (put p b s) = written s ++ p ++ b.
Proof.
  intros Hw Ha. unfold put, write, set_width. cbn [written]. rewrite Hw, Ha.
  by replace (Z.to_nat _) with O by lia.
Qed.

Lemma put_int_decimal w sg z s :
  width s = 0 -> adjust s = adjust_none -> showpos s = false ->
  (base s = base_dec \/ base s = base_none) ->
  written (put_int w sg z s) = written s ++ decimal z.
Proof.
  intros Hw Ha Hs Hb. unfold put_int, decimal.
  destruct Hb as [-> | ->]; rewrite put_unpadded, Hs by done; cbn [andb];
    (destruct (Z.ltb_spec z 0); [by rewrite Z.abs_neq by lia | by rewrite Z.abs_eq by lia]).
Qed.

(** The specification [%c] of a plain conversion. *)
Definition plain_state (c : byte) (rest : bytes) : spec_state :=
  SpecState
    (if decide (c = "s"%byte) then set_boolalpha true (reset_state new_stream)
     else set_base base_dec (reset_state new_stream))
    Flag_None c rest.

Lemma streamState_plain c rest : plain c = true ->
  streamStateFromFormat new_stream ("%"%byte :: c :: rest) 0 0 = inr (plain_state c rest).
Proof. intros E. destruct c; try discriminate E; reflexivity. Qed.

Lemma valueText_plain c rest v : plain c = true -> valueText (plain_state c rest) v = show c v.
Proof.
  intros E. unfold valueText, formatOne.
  change (has_flag _ _) with false. cbv iota. cbn [sp_conv sp_out plain_state].
  assert (c <> "c"%byte /\ c <> "p"%byte) as [Hc Hp] by (by destruct c).
  assert (forall p b, written (put p b (if decide (c = "s"%byte)
            then set_boolalpha true (reset_state new_stream)
            else set_base base_dec (reset_state new_stream))) = p ++ b) as Hput.
  { intros p b. by case_decide; rewrite put_unpadded. }
  assert (forall w sg z, written (put_int w sg z (if decide (c = "s"%byte)
            then set_boolalpha true (reset_state new_stream)
            else set_base base_dec (reset_state new_stream))) = decimal z) as Hint.
  { intros w sg z. case_decide; rewrite put_int_decimal by (try done; by (left + right)); done. }
  destruct v as [t|a t|w sg z|b]; cbn [formatValue show].
  - apply Hput.
  - rewrite decide_False by done. apply Hput.
  - rewrite decide_False by done. apply Hint.
  - destruct c; try discriminate E; (exact (Hint 32 true (char_val b)) || exact (Hput [] [b])).
Qed.

Lemma reference_nil args :
  reference [] args = match args with [] => inr [] | _ => inl NotEnoughConversions end.
Proof. by destruct args. Qed.

Lemma emit_cons b t r : emit (b :: t) r = emit [b] (emit t r).
Proof. by destruct r. Qed.

Lemma reference_literal t fmt' fmt args :
  printFormatStringLiteral fmt =
    (t ++ fst (printFormatStringLiteral fmt'), snd (printFormatStringLiteral fmt')) ->
  reference fmt args = emit t (reference fmt' args).
Proof.
  intros E. destruct args; cbn [reference]; rewrite E;
    destruct (printFormatStringLiteral fmt') as [t' spec]; cbn [fst snd].
  - by destruct spec.
  - destruct (streamStateFromFormat new_stream spec 0 0) as [|sp]; [done|]. apply emit_app.
Qed.

Lemma reference_conv c fmt args : plain c = true ->
  reference ("%"%byte :: c :: fmt) args =
  match args with
  | [] => inl TooManyConversions
  | v :: args' => emit (show c v) (reference fmt args')
  end.
Proof.
  intros E.
  assert (printFormatStringLiteral ("%"%byte :: c :: fmt) = ([], "%"%byte :: c :: fmt)) as El
    by (destruct c; (discriminate E || reflexivity)).
  destruct args as [|v args]; cbn [reference]; rewrite El; [done|].
  rewrite streamState_plain by done. rewrite emit_nil.
  change (has_flag (sp_extra (plain_state c fmt)) Flag_VariableWidth) with false.
  change (has_flag (sp_extra (plain_state c fmt)) Flag_VariablePrecision) with false.
  cbv iota. unfold one. by rewrite streamState_plain, valueText_plain.
Qed.

Lemma plain_pieces_chr b fmt : b <> "%"%byte -> b <> Byte.x00 ->
  plain_pieces (b :: fmt) = cons (Chr b) <$> plain_pieces fmt.
Proof. by destruct b. Qed.

Lemma plain_pieces_conv c fmt : c <> "%"%byte ->
  plain_pieces ("%"%byte :: c :: fmt) =
  if plain c then cons (Conv c) <$> plain_pieces fmt else None.
Proof. by destruct c. Qed.

Lemma reference_plain ps : forall fmt args,
  plain_pieces fmt = Some ps -> c_str fmt = fmt /\ reference fmt args = render ps args.
Proof.
  induction ps as [ps IH] using (induction_ltof1 _ (@length piece)); unfold ltof in IH.
  intros [|b fmt] args E.
  { injection E as <-. split; [done|]. by rewrite reference_nil; destruct args. }
  destruct (decide (b = Byte.x00)) as [->|H0]; [discriminate E|].
  destruct (decide (b = "%"%byte)) as [->|Hb].
  - destruct fmt as [|c fmt]; [discriminate E|].
    destruct (decide (c = "%"%byte)) as [->|Hc].
    + apply fmap_Some in E as (q & Eq & ->).
      destruct (IH q ltac:(cbn; lia) fmt args Eq) as [Hc Hr]. split.
      * cbn [c_str]. rewrite !decide_False by done. by rewrite Hc.
      * transitivity (emit ["%"%byte] (reference fmt args)); [|by rewrite Hr; destruct args].
        apply reference_literal. cbn [printFormatStringLiteral].
        by destruct (printFormatStringLiteral fmt).
    + rewrite plain_pieces_conv in E by done. destruct (plain c) eqn:Hp; [|done].
      apply fmap_Some in E as (q & Eq & ->). split.
      * destruct (IH q ltac:(cbn; lia) fmt [] Eq) as [Hs _].
        cbn [c_str]. rewrite !decide_False by (first [done | by intros ->]). by rewrite Hs.
      * rewrite reference_conv by done. destruct args as [|v args]; [done|].
        destruct (IH q ltac:(cbn; lia) fmt args Eq) as [_ Hr]. by rewrite Hr.
  - rewrite plain_pieces_chr in E by done. apply fmap_Some in E as (q & Eq & ->).
    destruct (IH q ltac:(cbn; lia) fmt args Eq) as [Hc Hr]. split.
    + cbn [c_str]. rewrite decide_False by done. by rewrite Hc.
    + transitivity (emit [b] (reference fmt args)); [|by rewrite Hr; destruct args].
      apply reference_literal. rewrite literal_chr by done.
      by destruct (printFormatStringLiteral fmt).
Qed.

Lemma render_arity ps : forall args,
  match render ps args with
  | inr _ => length args = arity ps
  | inl TooManyConversions => (length args < arity ps)%nat
  | inl NotEnoughConversions => (arity ps < length args)%nat
  | inl _ => False
  end.
Proof.
  unfold arity. induction ps as [|[b|c] ps IH]; intros args; cbn [render List.filter is_conv length].
  - destruct args; cbn; lia.
  - specialize (IH args). destruct args; cbn [render]; by destruct (render ps _).
  - destruct args as [|v args]; cbn [length]; [lia|].
    specialize (IH args). destruct (render ps args) as [[]|]; cbn [emit]; (lia || done).
Qed.

End Plain.
Export Plain.

(** ** Theorems *)

Lemma strprintf_render fmt ps args :
  plain_pieces fmt = Some ps -> strprintf fmt args = render ps args.
Proof.
  intros E. destruct (reference_plain ps fmt args E) as [Hc Hr].
  by rewrite strprintf_reference', Hc.
Qed.

Lemma strprintf_exact fmt ps args :
  plain_pieces fmt = Some ps -> length args = arity ps ->
  exists t, strprintf fmt args = inr t /\ render ps args = inr t.
Proof.
  intros E Hl. rewrite (strprintf_render fmt ps args E).
  pose proof (render_arity ps args) as H.
  destruct (render ps args) as [[]|t]; try (lia || done). by exists t.
Qed.

Lemma strprintf_few fmt ps args :
  plain_pieces fmt = Some ps -> (length args < arity ps)%nat ->
  strprintf fmt args = inl TooManyConversions.
Proof.
  intros E Hl. rewrite (strprintf_render fmt ps args E). pose proof (render_arity ps args) as H.
  destruct (render ps args) as [[]|]; (lia || done).
Qed.

(** A format made of literal text, [%%] and plain [%s], [%d], [%i], [%u]
    conversions: [strprintf] gives the text with each conversion replaced by
    the string or the decimal of its value, when there are as many values as
    conversions; with fewer values it throws "too many conversion specifiers",
    with more "not enough". *)
Theorem strprintf_plain fmt ps args :
  plain_pieces fmt = Some ps ->
  match Nat.compare (length args) (arity ps) with
  | Eq => exists t, strprintf fmt args = inr t /\ render ps args = inr t
  | Lt => strprintf fmt args = inl TooManyConversions
  | Gt => strprintf fmt args = inl NotEnoughConversions
  end.
Proof.
  intros E. destruct (Nat.compare_spec (length args) (arity ps)) as [Hl|Hl|Hl].
  - by apply strprintf_exact.
  - by apply (strprintf_few fmt ps).
  - rewrite (strprintf_render fmt ps args E). pose proof (render_arity ps args) as H.
    destruct (render ps args) as [[]|]; (lia || done).
Qed.

Lemma strprintf_plain_witness :
  strprintf (raw "%s: %d%%"%text) [VString (raw "done"%text); VInt 32 true (-7)] =
  inr (raw "done: -7%"%text).
Proof.
  destruct (strprintf_plain (raw "%s: %d%%"%text)
    (match plain_pieces (raw "%s: %d%%"%text) with Some ps => ps | None => [] end)
    [VString (raw "done"%text); VInt 32 true (-7)] eq_refl) as (t & -> & E).
  rewrite <- E. reflexivity.
Defined.

(** *** Numbers are read back *)
Module Numbers.

Lemma uchar_digit d : 0 <= d < 10 -> uchar (digit false d) = 48 + d.
Proof.
  intros Hd. unfold digit. destruct (Z.ltb_spec d 10); [|lia].
  apply Bytes.uchar_to_byte_small. lia.
Qed.

Lemma int_digits_from_app fuel up b : forall n acc rest,
  int_digits_from fuel up b n acc ++ rest = int_digits_from fuel up b n (acc ++ rest).
Proof.
  induction fuel as [|k IH]; intros n acc rest; cbn [int_digits_from]; [done|].
  destruct (n <? b); [done|]. apply IH.
Qed.

Lemma parse_digit i d rest : 0 <= d < 10 ->
  parseIntAndAdvance i (digit false d :: rest) = parseIntAndAdvance (i32 (10 * i + d)) rest.
Proof.
  intros Hd. cbn [parseIntAndAdvance]. unfold is_digit. rewrite uchar_digit by done.
  destruct (Z.leb_spec 48 (48 + d)); [|lia]. destruct (Z.leb_spec (48 + d) 57); [|lia].
  cbn [andb]. do 2 f_equal. lia.
Qed.

Lemma parse_digits fuel : forall n acc,
  0 <= n < 2 ^ 31 -> n < 10 ^ Z.of_nat fuel ->
  parseIntAndAdvance 0 (int_digits_from fuel false 10 n acc) = parseIntAndAdvance n acc.
Proof.
  induction fuel as [|k IH]; intros n acc Hn Hf; cbn [int_digits_from].
  { replace n with 0 by (cbn in Hf; lia). done. }
  pose proof (Z.mod_pos_bound n 10 ltac:(lia)). pose proof (Z.div_mod n 10 ltac:(lia)) as Hd.
  destruct (Z.ltb_spec n 10).
  - rewrite parse_digit by lia. f_equal. rewrite Z.mod_small by lia.
    apply swrap_id; unfold in_s; cbn; lia.
  - rewrite IH; [| |].
    + rewrite parse_digit by lia. f_equal. rewrite <- Hd. apply swrap_id; unfold in_s; cbn; lia.
    + split; [apply Z.div_pos; lia|]. apply Z.div_lt_upper_bound; lia.
    + apply Z.div_lt_upper_bound; [lia|].
      rewrite Nat2Z.inj_succ, Z.pow_succ_r in Hf by lia. lia.
Qed.

End Numbers.
Export Numbers.

(** A non-negative [int] written by [strprintf] is read back by the parser
    of widths and precisions, which stops right after it. *)
Theorem decimal_read_back n rest :
  0 <= n < 2 ^ 31 -> match rest with b :: _ => is_digit b = false | [] => True end ->
  parseIntAndAdvance 0 (decimal n ++ rest) = (n, rest).
Proof.
  intros Hn Hr. unfold decimal, int_digits. destruct (Z.ltb_spec n 0); [lia|].
  rewrite int_digits_from_app, parse_digits; [| lia | cbn; lia].
  destruct rest as [|b r]; [done|]. cbn [app parseIntAndAdvance]. by rewrite Hr.
Qed.

Lemma decimal_read_back_witness :
  parseIntAndAdvance 0 (decimal 2147483647 ++ raw ".2f"%text) = (2147483647, raw ".2f"%text).
Proof. apply (decimal_read_back 2147483647 (raw ".2f"%text)); [lia | reflexivity]. Defined.
