(* ===== verification/Translate.v ===== *)
(** * Translate: the Farsi catalogue, and the program's messages through it

    The whole catalogue of [qt/locale/bitcoin_fa.ts], put together from its
    contexts; the translation function [_] of [ui_interface.h] with the slot
    [qt/bitcoin.cpp] connects to it; and every place where the program formats
    a translated message. The theorems say that the catalogue is well formed,
    that every message is found under its key, that translations keep the
    place markers of their sources, and which formatted messages survive
    translation. *)

From S2P Require Import Prelude Catalog CatalogFa1 CatalogFa2 CatalogFa3 Format FormatFacts.

(** ** The catalogue *)

Definition fa : catalogue := TS "2.1"%text "fa"%text
  [fa_AboutDialog; fa_AddressBookPage; fa_AddressTableModel; fa_AskPassphraseDialog;
   fa_BitcoinGUI; fa_ClientModel; fa_CoinControlDialog; fa_EditAddressDialog;
   fa_GUIUtil_HelpMessageBox; fa_OptionsDialog; fa_OverviewPage; fa_PaymentServer;
   fa_QRCodeDialog; fa_RPCConsole; fa_SendCoinsDialog; fa_SendCoinsEntry;
   fa_SignVerifyMessageDialog; fa_TrafficGraphWidget; fa_TransactionDesc;
   fa_TransactionDescDialog; fa_TransactionTableModel; fa_TransactionView; fa_WalletModel;
   fa_bitcoin_core].

(** Farsi has one plural form. *)
Definition fa_plurals : nat := 1.

(** ** The program's translation function *)
Module Messages.

(** [Translate] of [qt/bitcoin.cpp]: the context of every message of the core. *)
Definition Translate (translate : bytes -> bytes -> bytes) (psz : bytes) : bytes :=
  translate (raw "bitcoin-core"%text) psz.

(** [_]: the answer of the slot, or the text itself when none is connected. *)
Definition underscore (slot : option (bytes -> bytes)) (psz : bytes) : bytes :=
  match slot with
  | Some f => f psz
  | None => psz
  end.

#[export] Instance piece_eq_dec : EqDecision piece.
Proof. solve_decision. Defined.

(** A call [strprintf(_(psz), args)]: the C string, written here as character
    data, and the types of the arguments. *)
Inductive argtype := TString | TCString | TInt | TUnsigned | TUShort.

Definition has_type (v : value) (ty : argtype) : bool :=
  match ty, v with
  | TString, VString _ | TCString, VCString _ _ => true
  | TInt, VInt 32 true _ | TUnsigned, VInt 32 false _ | TUShort, VInt 16 false _ => true
  | _, _ => false
  end.

Record call := Call { psz : text; argtypes : list argtype }.

Definition run_call (slot : option (bytes -> bytes)) (c : call) (args : list value)
    : error + bytes :=
  strprintf (underscore slot (chars (psz c))) args.

Local Open Scope text_scope.

Definition help_maxorphanblocks : call :=
  Call "Keep at most &lt;n&gt; MiB of unconnectable blocks in memory (default: %u)" [TUnsigned].
Definition help_datacarriersize : call :=
  Call "Maximum size of data in data carrier transactions we relay and mine (default: %u)" [TUnsigned].
Definition init_paytxfee : call :=
  Call "Invalid amount for -paytxfee=&lt;amount&gt;: &apos;%s&apos;" [TString].
Definition init_mininput : call :=
  Call "Invalid amount for -mininput=&lt;amount&gt;: &apos;%s&apos;" [TString].
Definition init_wallet_outside : call :=
  Call "Wallet %s resides outside data directory %s." [TString; TString].
Definition init_lock : call :=
  Call "Cannot obtain a lock on data directory %s. Bws is probably already running." [TString].
Definition init_wallet_env : call :=
  Call "Error initializing wallet database environment %s!" [TString].
Definition init_wallet_salvaged : call :=
  Call "Warning: wallet.dat corrupt, data salvaged! Original wallet.dat saved as wallet.{timestamp}.bak in %s; if your balance or transactions are incorrect you should restore from a backup." [TString].
Definition init_onlynet : call :=
  Call "Unknown network specified in -onlynet: &apos;%s&apos;" [TString].
Definition init_proxy : call :=
  Call "Invalid -proxy address: &apos;%s&apos;" [TString].
Definition init_tor : call :=
  Call "Invalid -tor address: &apos;%s&apos;" [TString].
Definition init_bind : call :=
  Call "Cannot resolve -bind address: &apos;%s&apos;" [TString].
Definition init_externalip : call :=
  Call "Cannot resolve -externalip address: &apos;%s&apos;" [TString].
Definition wallet_fee : call :=
  Call "Error: This transaction requires a transaction fee of at least %s because of its amount, complexity, or use of recently received funds!" [TString].
Definition net_bind_in_use : call :=
  Call "Unable to bind to %s on this computer. Bws is probably already running." [TString].
Definition net_bind_error : call :=
  Call "Unable to bind to %s on this computer (bind returned error %d, %s)" [TString; TInt; TCString].
Definition rpc_option_server : call := Call "To use the %s option" [TCString].
Definition rpc_option_daemon : call := Call "To use the %s option" [TCString].
Definition rpc_set_password : call :=
  Call "%s, you must set a rpcpassword in the configuration file:
%s
It is recommended you use the following random password:
rpcuser=bwsrpc
rpcpassword=%s
(you do not need to remember this password)
The username and password MUST NOT be the same.
If the file does not exist, create it with owner-readable-only file permissions.
It is also recommended to set alertnotify so you are notified of problems;
for example: alertnotify=echo %%s | mail -s &quot;Bws Alert&quot; admin@foo.com
" [TString; TString; TString].
Definition rpc_port_ipv6 : call :=
  Call "An error occurred while setting up the RPC port %u for listening on IPv6, falling back to IPv4: %s" [TUShort; TCString].
Definition rpc_port_ipv4 : call :=
  Call "An error occurred while setting up the RPC port %u for listening on IPv4: %s" [TUShort; TCString].
Definition client_set_password : call :=
  Call "You must set rpcpassword=&lt;password&gt; in the configuration file:
%s
If the file does not exist, create it with owner-readable-only file permissions." [TString].

(** The calls of the daemon and of the graphical client. *)
Definition daemon_calls : list call :=
  [help_maxorphanblocks; help_datacarriersize; init_paytxfee; init_mininput;
   init_wallet_outside; init_lock; init_wallet_env; init_wallet_salvaged; init_onlynet;
   init_proxy; init_tor; init_bind; init_externalip; wallet_fee; net_bind_in_use;
   net_bind_error; rpc_option_server; rpc_option_daemon; rpc_set_password; rpc_port_ipv6;
   rpc_port_ipv4].

(** All of them: [client_set_password] is the command-line client's. *)
Definition calls : list call := daemon_calls ++ [client_set_password].

(** A format string is fit for a call: plain conversions only, one for each
    argument, the same ones in the same order as the untranslated string. *)
Definition conversions (fmt : bytes) : option (list piece) :=
  List.filter is_conv <$> plain_pieces fmt.

Definition fits (translate : bytes -> bytes -> bytes) (c : call) : bool :=
  match conversions (Translate translate (chars (psz c))), conversions (chars (psz c)) with
  | Some ps, Some ps0 => bool_decide (ps = ps0) && (length ps =? length (argtypes c))%nat
  | _, _ => false
  end.

End Messages.
Export Messages.

(** ** The checks, run *)
Module Evaluated.

Lemma fa_ok : catalogue_ok fa_plurals fa = true.
Proof. vm_compute. reflexivity. Qed.

Lemma calls_fit : forallb (fits (catalogue_translate fa)) daemon_calls = true.
Proof. vm_compute. reflexivity. Qed.

Lemma client_pieces :
  arity <$> plain_pieces (Translate (catalogue_translate fa) (chars (psz client_set_password)))
    = Some 2%nat /\
  arity <$> plain_pieces (chars (psz client_set_password)) = Some 1%nat.
Proof. vm_compute. by split. Qed.

(** A message of the catalogue through any translator. *)
Lemma translate_message translate c m :
  Translator fa translate -> c ∈ contexts fa -> m ∈ messages c ->
  translate (chars (name c)) (chars (source m)) = default (chars (source m)) (shown m).
Proof.
  intros T Hc Hm. pose proof (lookup_checked _ _ fa_ok c m Hc Hm) as El.
  destruct (shown m) as [t|] eqn:Es.
  - by apply (translate_shown (cat := fa) _ _ m).
  - cbn [default]. apply (translate_unknown (cat := fa) _ (chars (source m))).
    rewrite El. exact Es.
Qed.

(** What is shown for a well-translated message. *)
Lemma shown_translated m : well_translated fa_plurals m ->
  let t := default (chars (source m)) (shown m) in
  (if bool_decide (Forall (fun f => raw f = []) (texts_of (forms_of m)))
   then t = chars (source m)
   else exists f, f ∈ texts_of (forms_of m) /\ t = chars f /\ t <> []) /\
  forall b, b ∈ markers t <-> b ∈ markers (chars (source m)).
Proof.
  unfold well_translated, shown, forms_of. destruct (translated m) as [f|f]; intros [Hf Ht].
  - assert (exists t rest, texts_of f = t :: rest) as (t & rest & Et).
    { destruct f as [t|fs]; [by exists t, []|]. destruct Hf as [_ Hl]. destruct fs as [|t fs]; [done|]. by exists t, fs. }
    rewrite Et in *. apply Forall_cons in Ht as [((_ & k & l & E) & Hs) _].
    unfold filled. rewrite E. cbn [default]. assert (chars t = k :: l) as Ec by (unfold chars; by rewrite E).
    rewrite bool_decide_eq_false_2; [|intros [Hr _]%Forall_cons; unfold unescape in E; by rewrite Hr in E].
    split; [exists t; split; [apply list_elem_of_here|by rewrite Ec]|].
    intros b. rewrite (Hs b). by rewrite Ec.
  - rewrite bool_decide_eq_true_2 by done.
    destruct (texts_of f) as [|t rest]; [done|]. apply Forall_cons in Ht as [Hr _].
    unfold filled, unescape. by rewrite Hr.
Qed.

End Evaluated.
Export Evaluated.

(** ** Theorems *)

(** C33. Every message of the catalogue is well formed: its source and its
    finished translations are non-empty UTF-8 with known entities, it has a
    location, a message with a number has exactly the one plural form of the
    language and any other message one text, an unfinished translation is
    empty, and a finished one has the place markers [%1] to [%9] and [%n] of
    its source and no others. *)
Theorem fa_well_formed c m :
  c ∈ contexts fa -> m ∈ messages c -> well_formed fa_plurals m.
Proof. apply message_checked, fa_ok. Qed.

Lemma fa_well_formed_witness : exists m, m ∈ messages fa_AboutDialog /\ well_formed fa_plurals m.
Proof.
  eexists. split; [apply list_elem_of_here|].
  apply (fa_well_formed fa_AboutDialog); apply list_elem_of_here.
Defined.

(** C34. Whatever conforming translator answers, the text shown for a message
    is one of the message's own texts (the plural form of a message with a
    number) when it has one that is filled in, and its source when all are
    empty; and it has the place markers of the source and no others. So the
    [arg] calls and the number that follow [tr] replace the same markers in
    Farsi as in English. *)
Theorem fa_keeps_markers translate c m :
  Translator fa translate -> c ∈ contexts fa -> m ∈ messages c ->
  let t := translate (chars (name c)) (chars (source m)) in
  (if bool_decide (Forall (fun f => raw f = []) (texts_of (forms_of m)))
   then t = chars (source m)
   else exists f, f ∈ texts_of (forms_of m) /\ t = chars f /\ t <> []) /\
  forall b, b ∈ markers t <-> b ∈ markers (chars (source m)).
Proof.
  intros T Hc Hm. cbv zeta. rewrite (translate_message translate c m T Hc Hm).
  destruct (message_checked _ _ fa_ok c m Hc Hm) as (_ & _ & Hw). by apply shown_translated in Hw.
Qed.

(** A message with a number, and one without. *)
Lemma fa_keeps_markers_witness :
  exists m1 m2, m1 ∈ messages fa_ClientModel /\ m2 ∈ messages fa_TransactionDesc /\ numerus m2 = true /\
    ("1"%byte ∈ markers (catalogue_translate fa (chars (name fa_ClientModel)) (chars (source m1))) <->
     "1"%byte ∈ markers (chars (source m1))) /\
    "n"%byte ∈ markers (catalogue_translate fa (chars (name fa_TransactionDesc)) (chars (source m2))).
Proof.
  do 2 eexists. split; [apply list_elem_of_here|].
  split; [unfold fa_TransactionDesc; do 6 apply list_elem_of_further; apply list_elem_of_here|].
  split; [reflexivity|]. split.
  - apply (fa_keeps_markers (catalogue_translate fa) fa_ClientModel).
    + exact _.
    + repeat (apply list_elem_of_here || apply list_elem_of_further).
    + apply list_elem_of_here.
  - apply (fa_keeps_markers (catalogue_translate fa) fa_TransactionDesc).
    + exact _.
    + repeat (apply list_elem_of_here || apply list_elem_of_further).
    + unfold fa_TransactionDesc. do 6 apply list_elem_of_further. apply list_elem_of_here.
    + vm_compute. apply list_elem_of_here.
Defined.

(** C23. Formatted messages survive translation: for every call of [strprintf]
    on a translated text but one, the [client_set_password] of the command-line
    client (which throws, see [fa_client_password_throws]), in Farsi and without
    a translator, and for all arguments of the call's types, [strprintf] returns
    a text: the translation with the arguments put in for the same conversions,
    in the order of the untranslated string. *)
Theorem fa_calls_format translate c args :
  Translator fa translate -> c ∈ calls -> c <> client_set_password ->
  Forall2 (fun v ty => has_type v ty = true) args (argtypes c) ->
  exists ps ps0 t t0,
    plain_pieces (Translate translate (chars (psz c))) = Some ps /\
    plain_pieces (chars (psz c)) = Some ps0 /\
    List.filter is_conv ps = List.filter is_conv ps0 /\
    run_call (Some (Translate translate)) c args = inr t /\ render ps args = inr t /\
    run_call None c args = inr t0 /\ render ps0 args = inr t0.
Proof.
  intros T [Hc%list_elem_of_In | ->%list_elem_of_singleton]%elem_of_app Hne Hargs%Forall2_length; [|done].
  pose proof calls_fit as Hf. rewrite forallb_forall in Hf. specialize (Hf c Hc).
  unfold fits, conversions in Hf.
  replace (Translate (catalogue_translate fa) (chars (psz c)))
    with (Translate translate (chars (psz c))) in Hf by (apply (translator_unique fa); exact _).
  destruct (plain_pieces (Translate translate _)) as [ps|] eqn:Ep; [|done].
  destruct (plain_pieces (chars (psz c))) as [ps0|] eqn:Ep0; [|done].
  cbn [fmap option_fmap option_map] in Hf. apply andb_true_iff in Hf as [He Hl].
  apply bool_decide_eq_true_1 in He. apply Nat.eqb_eq in Hl.
  destruct (strprintf_exact _ ps args Ep) as (t & Et & Rt); [unfold arity; lia|].
  destruct (strprintf_exact _ ps0 args Ep0) as (t0 & Et0 & Rt0); [unfold arity; rewrite <- He; lia|].
  by exists ps, ps0, t, t0.
Qed.

Lemma fa_calls_format_witness :
  exists t, run_call (Some (Translate (catalogue_translate fa))) net_bind_error
    [VString (raw "[::]:8333"%text); VInt 32 true 13; VCString 0 (raw "Permission denied"%text)] = inr t.
Proof.
  destruct (fa_calls_format (catalogue_translate fa) net_bind_error
    [VString (raw "[::]:8333"%text); VInt 32 true 13; VCString 0 (raw "Permission denied"%text)])
    as (_ & _ & t & _ & _ & _ & _ & Et & _).
  - exact _.
  - unfold calls, daemon_calls. repeat (apply list_elem_of_here || apply list_elem_of_further).
  - discriminate.
  - repeat (constructor; [reflexivity|]). constructor.
  - exists t. exact Et.
Defined.

(** C39. The one message that does not: the Farsi text of "You must set
    rpcpassword" has two conversions where the source has one, so where the
    translator is connected the call throws "too many conversion specifiers"
    instead of telling the user what to set. Without a translator it works. *)
Theorem fa_client_password_throws translate path :
  Translator fa translate ->
  run_call (Some (Translate translate)) client_set_password [VString path] = inl TooManyConversions /\
  exists t, run_call None client_set_password [VString path] = inr t.
Proof.
  intros T. destruct client_pieces as [E2 E1]. unfold run_call, underscore.
  replace (Translate (catalogue_translate fa) (chars (psz client_set_password)))
    with (Translate translate (chars (psz client_set_password))) in E2
    by (apply (translator_unique fa); exact _).
  apply fmap_Some in E2 as (ps & Ep & Ha). apply fmap_Some in E1 as (ps0 & Ep0 & Ha0). split.
  - apply (strprintf_few _ ps _ Ep). rewrite <- Ha. apply le_n.
  - destruct (strprintf_exact _ ps0 [VString path] Ep0 Ha0) as (t & Et & _).
    exists t. exact Et.
Qed.

Lemma fa_client_password_throws_witness :
  run_call (Some (Translate (catalogue_translate fa))) client_set_password
    [VString (raw "/home/u/.bws/bws.conf"%text)] = inl TooManyConversions.
Proof.
  exact (proj1 (fa_client_password_throws (catalogue_translate fa)
    (raw "/home/u/.bws/bws.conf"%text) (catalogue_translator fa))).
Defined.
