(* ===== verification/Money.v ===== *)
(** * Money: amounts as text (src/src/util.cpp)

    [FormatMoney] and [ParseMoney]: over tinyformat (Format), whose [strprintf] writes the
    digits that the parser reads. *)

From S2P Require Import Prelude BigNum Serialize Crypto Keys Core Base58 Catalog Format FormatFacts.

Module Money.

(** The loop that counts the zeros to trim: at least two digits stay after the point.  [None] is an
    index out of range. *)
Fixpoint trim_loop (fuel : nat) (str : bytes) (i : Z) (nTrim : nat) : option nat :=
  match fuel with
  | O => None
  | S fuel =>
    if i <? 2 then None else
    c ← str !! Z.to_nat i;
    if decide (c = "0"%byte) then
      d ← str !! Z.to_nat (i - 2);
      if is_digit d then trim_loop fuel str (i - 1) (S nTrim) else Some nTrim
    else Some nTrim
  end.

(** [inl] is an exception of [strprintf]. *)
Definition FormatMoney (n : Z) (fPlus : bool) : option (error + bytes) :=
  let n_abs := if 0 <? n then n else i64 (- n) in
  let quotient := Z.quot n_abs COIN in
  let remainder := Z.rem n_abs COIN in
  match strprintf (raw "%d.%08d"%text) [VInt 64 true quotient; VInt 64 true remainder] with
  | inl e => Some (inl e)
  | inr str =>
    nTrim ← trim_loop (length str) str (zlen str - 1) 0;
    let str := take (length str - nTrim) str in
    Some (inr (if n <? 0 then "-"%byte :: str else if fPlus && (0 <? n) then "+"%byte :: str else str))
  end.

(** [atoi64] on the digits that [ParseMoney] has collected (ten at most, so that [strtoll] neither
    saturates nor meets a sign). *)
Definition atoi64 (digits : bytes) : Z := fold_left (fun z c => 10 * z + (uchar c - 48)) digits 0.

(** The digits after the point: [nUnits] and what is left. *)
Fixpoint units_loop (p : bytes) (nMult nUnits : Z) : Z * bytes :=
  match p with
  | c :: rest =>
    if is_digit c && (0 <? nMult) then units_loop rest (nMult / 10) (i64 (nUnits + nMult * (uchar c - 48)))
    else (nUnits, p)
  | [] => (nUnits, p)
  end.

(** The [for] loop: [strWhole], [nUnits] and what is left. *)
Fixpoint whole_loop (p strWhole : bytes) : option (bytes * Z * bytes) :=
  match p with
  | [] => Some (strWhole, 0, [])
  | c :: rest =>
    if decide (c = "."%byte) then let (nUnits, p) := units_loop rest (CENT * 10) 0 in Some (strWhole, nUnits, p)
    else if isspace c then Some (strWhole, 0, p)
    else if negb (is_digit c) then None
    else whole_loop rest (strWhole ++ [c])
  end.

Definition ParseMoney (pszIn : bytes) : option Z :=
  '(strWhole, nUnits, p) ← whole_loop (skip_spaces (c_str pszIn)) [];
  if negb (forallb isspace p) then None
  else if (10 <? length strWhole)%nat then None
  else if (nUnits <? 0) || (COIN <? nUnits) then None
  else Some (i64 (i64 (atoi64 strWhole * COIN) + nUnits)).
End Money.
Export Money.


(** ** Facts *)
Module MoneyFacts.
Definition sign (z : Z) : bytes := if z <? 0 then ["-"%byte] else [].
Definition digits_of (z : Z) : bytes := int_digits false 10 (Z.abs z).

(** What tinyformat's conversions [%d] and [%08d] write. *)
Lemma strprintf_raw q r : strprintf (raw "%d.%08d"%text) [VInt 64 true q; VInt 64 true r] =
  inr ((((replicate (Z.to_nat (0 - zlen (sign q ++ digits_of q))) " "%byte ++ sign q ++ digits_of q) ++ ["."%byte]) ++
    sign r ++ replicate (Z.to_nat (8 - zlen (sign r ++ digits_of r))) "0"%byte ++ digits_of r) ++ []).
Proof. reflexivity. Qed.

(** *** Digits and their number *)
Abbreviation all_digits l := (forallb is_digit l = true).

Lemma atoi64_from l z : fold_left (fun z c => 10 * z + (uchar c - 48)) l z = z * 10 ^ zlen l + atoi64 l.
Proof.
  unfold atoi64. revert z. induction l as [|c l IH]; intros z; cbn [fold_left]; [rewrite zlen_nil; lia|].
  rewrite IH, (IH (10 * 0 + _)), zlen_cons, Z.pow_add_r by (try apply zlen_nonneg; lia). lia.
Qed.
Lemma atoi64_app l l' : atoi64 (l ++ l') = atoi64 l * 10 ^ zlen l' + atoi64 l'.
Proof. unfold atoi64 at 1. rewrite fold_left_app, atoi64_from. done. Qed.
Lemma atoi64_snoc l c : atoi64 (l ++ [c]) = 10 * atoi64 l + (uchar c - 48).
Proof. unfold atoi64. by rewrite fold_left_app. Qed.
Lemma atoi64_cons c l : atoi64 (c :: l) = (uchar c - 48) * 10 ^ zlen l + atoi64 l.
Proof. unfold atoi64 at 1. cbn [fold_left]. rewrite atoi64_from. lia. Qed.

Lemma is_digit_range c : is_digit c = true -> 0 <= uchar c - 48 <= 9.
Proof. unfold is_digit. lia. Qed.
Lemma atoi64_range l : all_digits l -> 0 <= atoi64 l < 10 ^ zlen l.
Proof.
  induction l as [|c l IH]; cbn [forallb]; [by intros _|]. intros [Hc%is_digit_range Hl]%andb_true_iff.
  specialize (IH Hl). rewrite atoi64_cons, zlen_cons, Z.pow_add_r by (try apply zlen_nonneg; lia). nia.
Qed.
Lemma zeros_digits j : all_digits (replicate j "0"%byte) /\ atoi64 (replicate j "0"%byte) = 0.
Proof.
  induction j as [|j [IH1 IH2]]; [done|]. split; [exact IH1|]. cbn [replicate].
  rewrite atoi64_cons, IH2. reflexivity.
Qed.

(** The digits that tinyformat writes. *)
Lemma int_digits_spec fuel n acc : (0 < fuel)%nat -> 0 <= n < 10 ^ Z.of_nat fuel ->
  exists ds, int_digits_from fuel false 10 n acc = ds ++ acc /\ all_digits ds /\ atoi64 ds = n /\ ds <> [] /\
    forall k, 1 <= k -> n < 10 ^ k -> zlen ds <= k.
Proof.
  revert n acc. induction fuel as [|fuel IH]; intros n acc Hf Hn; [lia|]. cbn [int_digits_from].
  assert (0 <= n mod 10 < 10) as Hm by (apply Z.mod_pos_bound; lia).
  assert (is_digit (digit false (n mod 10)) = true) as Hd by (unfold is_digit; rewrite uchar_digit by done; lia).
  destruct (Z.ltb_spec n 10) as [Hs|Hb].
  - exists [digit false (n mod 10)]. split; [done|]. split; [cbn; by rewrite Hd|].
    split; [unfold atoi64; cbn [fold_left]; rewrite uchar_digit by done; rewrite Z.mod_small by lia; lia|]. split; [done|].
    intros k Hk _. unfold zlen. cbn. lia.
  - assert (0 < fuel)%nat as Hf' by (destruct fuel; [change (10 ^ Z.of_nat 1) with 10 in Hn|]; lia).
    rewrite Nat2Z.inj_succ, Z.pow_succ_r in Hn by lia.
    destruct (IH (n / 10) (digit false (n mod 10) :: acc) Hf') as (ds & -> & Hds & Ev & Hne & Hk).
    { split; [apply Z.div_pos; lia|apply Z.div_lt_upper_bound; lia]. }
    exists (ds ++ [digit false (n mod 10)]). split; [by rewrite <- app_assoc|].
    split; [rewrite forallb_app, Hds; cbn; by rewrite Hd|].
    split; [rewrite atoi64_snoc, Ev, uchar_digit by done; pose proof (Z.div_mod n 10); lia|].
    split; [by destruct ds|]. intros k Hk1 Hnk. rewrite zlen_app. change (zlen [_]) with 1.
    destruct (Z.eq_dec k 1) as [->|]; [change (10 ^ 1) with 10 in Hnk; lia|].
    enough (zlen ds <= k - 1) by lia. apply Hk; [lia|]. apply Z.div_lt_upper_bound; [lia|].
    rewrite <- Z.pow_succ_r by lia. by replace (Z.succ (k - 1)) with k by lia.
Qed.

Lemma digits_of_spec n : 0 <= n < 2 ^ 63 -> exists ds, digits_of n = ds /\ all_digits ds /\ atoi64 ds = n /\ ds <> [] /\
  forall k, 1 <= k -> n < 10 ^ k -> zlen ds <= k.
Proof.
  intros Hn. unfold digits_of, int_digits. rewrite Z.abs_eq by lia.
  destruct (int_digits_spec 64 n [] ltac:(lia)) as (ds & -> & H); [cbn; lia|]. exists ds. by rewrite app_nil_r.
Qed.

(** *** Writing *)
(** What is written between the sign and the trimmed zeros. *)
Lemma strprintf_money q r : 0 <= q < 2 ^ 63 -> 0 <= r < COIN ->
  exists f, strprintf (raw "%d.%08d"%text) [VInt 64 true q; VInt 64 true r] = inr (digits_of q ++ "."%byte :: f) /\
    all_digits f /\ zlen f = 8 /\ atoi64 f = r.
Proof.
  intros Hq Hr. change COIN with (10 ^ 8) in Hr. rewrite strprintf_raw.
  destruct (digits_of_spec r) as (ds & -> & Hd & Ev & _ & Hlen); [lia|]. specialize (Hlen 8 ltac:(lia) ltac:(lia)).
  assert (forall z, 0 <= z -> sign z = []) as Hsign.
  { intros z Hz. unfold sign. destruct (Z.ltb_spec z 0); [lia|done]. }
  rewrite !Hsign by lia. cbn [app]. exists (replicate (Z.to_nat (8 - zlen ds)) "0"%byte ++ ds).
  destruct (zeros_digits (Z.to_nat (8 - zlen ds))) as [Hz Ez].
  split; [|split; [by rewrite forallb_app, Hz|split; [rewrite zlen_app; unfold zlen at 1; rewrite length_replicate;
    pose proof (zlen_nonneg ds); lia|by rewrite atoi64_app, Ez]]].
  replace (Z.to_nat (0 - _)) with O by (pose proof (zlen_nonneg (digits_of q)); lia). cbn [replicate app].
  by rewrite app_nil_r, <- app_assoc.
Qed.

(** The loop stops with at least two digits left, and at a digit other than zero if more are left. *)
Definition trimmed (f g : bytes) (j : nat) : Prop :=
  f = g ++ replicate j "0"%byte /\ 2 <= zlen g /\ (zlen g = 2 \/ last g <> Some "0"%byte).

Lemma trim_loop_spec fuel p f z n : (length f <= fuel)%nat -> 2 <= zlen f -> all_digits f ->
  exists g j, trimmed f g j /\ trim_loop fuel (p ++ "."%byte :: f ++ z) (zlen p + zlen f) n = Some (n + j)%nat.
Proof.
  revert fuel z n. induction f as [|c f IH] using rev_ind; intros fuel z n Hf H2 Hd; [done|].
  rewrite length_app in Hf. cbn [length] in Hf. destruct fuel as [|fuel]; [lia|].
  rewrite forallb_app in Hd. apply andb_true_iff in Hd as [Hd Hc]. rewrite zlen_app in H2 |- *. change (zlen [c]) with 1 in *.
  pose proof (zlen_nonneg p) as Hp. cbn [trim_loop].
  destruct (Z.ltb_spec (zlen p + (zlen f + 1)) 2); [lia|]. rewrite <- app_assoc. cbn [app].
  assert ((p ++ "."%byte :: f ++ c :: z) !! Z.to_nat (zlen p + (zlen f + 1)) = Some c) as ->.
  { change (("."%byte :: f ++ c :: z)) with (("."%byte :: f) ++ c :: z). rewrite app_assoc. apply list_lookup_middle. rewrite !length_app. cbn. unfold zlen. lia. }
  cbn [mbind option_bind]. destruct (decide (c = "0"%byte)) as [->|Hne].
  2: { exists (f ++ [c]), O. split; [|by rewrite Nat.add_0_r]. split; [by rewrite app_nil_r|].
       rewrite zlen_app, last_snoc. change (zlen [c]) with 1. split; [lia|]. right. congruence. }
  destruct (decide (zlen f = 1)) as [E1|E1].
  - assert ((p ++ "."%byte :: f ++ "0"%byte :: z) !! Z.to_nat (zlen p + (zlen f + 1) - 2) = Some "."%byte) as ->.
    { apply list_lookup_middle. unfold zlen in *. lia. }
    cbn [mbind option_bind]. change (is_digit "."%byte) with false. cbn iota. exists (f ++ ["0"%byte]), O.
    split; [|by rewrite Nat.add_0_r]. split; [by rewrite app_nil_r|]. rewrite zlen_app. change (zlen ["0"%byte]) with 1.
    split; [lia|left; lia].
  - destruct (IH fuel ("0"%byte :: z) (S n)) as (g & j & (Ef & Hg) & El'); [lia..|done|].
    assert (exists d, (p ++ "."%byte :: f ++ "0"%byte :: z) !! Z.to_nat (zlen p + (zlen f + 1) - 2) = Some d /\ is_digit d = true)
      as (d' & -> & Hd').
    { destruct (lookup_lt_is_Some_2 f (length f - 2)) as [d' Ed]; [unfold zlen in *; lia|]. exists d'. split.
      - rewrite lookup_app_r by (unfold zlen in *; lia).
        replace (Z.to_nat _ - length p)%nat with (S (length f - 2)) by (unfold zlen in *; lia).
        transitivity ((f ++ "0"%byte :: z) !! (length f - 2)%nat); [reflexivity|]. rewrite lookup_app_l by (unfold zlen in *; lia). exact Ed.
      - apply (forallb_elem _ _ _ Hd). by eapply list_elem_of_lookup_2. }
    cbn [mbind option_bind]. rewrite Hd'. exists g, (S j). split.
    + split; [|exact Hg]. rewrite Ef, <- app_assoc. f_equal. by rewrite replicate_S_end.
    + replace (zlen p + (zlen f + 1) - 1) with (zlen p + zlen f) by lia. rewrite El'. f_equal. lia.
Qed.

(** The text of an amount: sign, whole coins, point, and two to eight decimals, more than two only
    when the last is not zero. *)
Record money_text (n : Z) (fPlus : bool) (whole f : bytes) : Prop := {
  mt_whole : all_digits whole /\ atoi64 whole = Z.abs n / COIN /\ whole <> [];
  mt_length k : 1 <= k -> Z.abs n / COIN < 10 ^ k -> zlen whole <= k;
  mt_digits : all_digits f /\ 2 <= zlen f <= 8;
  mt_value : atoi64 f * 10 ^ (8 - zlen f) = Z.abs n mod COIN;
  mt_short : zlen f = 2 \/ last f <> Some "0"%byte
}.
Definition money_sign (n : Z) (fPlus : bool) : bytes :=
  if n <? 0 then ["-"%byte] else if fPlus && (0 <? n) then ["+"%byte] else [].

Lemma FormatMoney_text n fPlus : - 2 ^ 63 < n < 2 ^ 63 ->
  exists whole f, FormatMoney n fPlus = Some (inr (money_sign n fPlus ++ whole ++ "."%byte :: f)) /\ money_text n fPlus whole f.
Proof.
  intros Hn. unfold FormatMoney.
  assert ((if 0 <? n then n else i64 (- n)) = Z.abs n) as ->.
  { destruct (Z.ltb_spec 0 n); [lia|]. unfold i64. rewrite swrap_id by (unfold in_s; lia). lia. }
  rewrite Z.quot_div_nonneg, Z.rem_mod_nonneg by (unfold COIN; lia).
  pose proof (Z.mod_pos_bound (Z.abs n) COIN ltac:(unfold COIN; lia)) as Hr.
  assert (0 <= Z.abs n / COIN < 2 ^ 63) as Hq.
  { split; [apply Z.div_pos; unfold COIN; lia|]. apply Z.div_lt_upper_bound; unfold COIN; lia. }
  destruct (strprintf_money _ _ Hq Hr) as (f & -> & Hf & Hlen & Ev).
  destruct (digits_of_spec _ Hq) as (whole & -> & Hw & Ew & Hwne & Hwk).
  destruct (trim_loop_spec (length (whole ++ "."%byte :: f)) whole f [] 0) as (g & j & (Ef & H2 & Hs) & Et).
  { rewrite length_app. cbn. lia. } { lia. } { exact Hf. }
  rewrite app_nil_r in Et. replace (zlen (whole ++ "."%byte :: f) - 1) with (zlen whole + zlen f).
  2: { rewrite zlen_app, zlen_cons. lia. }
  rewrite Et. cbn [mbind option_bind].
  assert (take (length (whole ++ "."%byte :: f) - (0 + j)) (whole ++ "."%byte :: f) = whole ++ "."%byte :: g) as ->.
  { rewrite Ef at 2. change ("."%byte :: g ++ replicate j "0"%byte) with (("."%byte :: g) ++ replicate j "0"%byte).
    rewrite app_assoc. apply take_app_length'. rewrite Ef, !length_app. cbn. rewrite length_app, length_replicate. lia. }
  rewrite Ef, forallb_app in Hf. apply andb_true_iff in Hf as [Hg _].
  rewrite Ef, zlen_app in Hlen. change (zlen (replicate j "0"%byte)) with (Z.of_nat (length (replicate j "0"%byte))) in Hlen.
  rewrite length_replicate in Hlen. exists whole, g. split.
  - unfold money_sign. destruct (n <? 0); [done|]. by destruct (fPlus && (0 <? n)).
  - split; [done|done|split; [done|lia]| |done]. rewrite <- Ev, Ef, atoi64_app, (proj2 (zeros_digits j)).
    unfold zlen at 2. rewrite length_replicate, Z.add_0_r. do 2 f_equal. lia.
Qed.

(** *** Reading *)
Abbreviation spaces l := (forallb isspace l = true).
Definition starts (f : byte -> bool) (p : bytes) : bool := match p with c :: _ => f c | [] => false end.

Lemma digit_not_space c : is_digit c = true -> isspace c = false /\ c <> "."%byte.
Proof. intros Hd%is_digit_range. split; [unfold isspace; lia|]. intros ->. cbn in Hd. lia. Qed.
Lemma space_not_digit c : isspace c = true -> is_digit c = false /\ c <> "."%byte.
Proof.
  intros Hs. split; [destruct (is_digit c) eqn:E; [|done]; apply digit_not_space in E as [E _]; congruence|]. by intros ->.
Qed.
Lemma spaces_start l : spaces l -> starts is_digit l = false.
Proof. destruct l as [|c l]; [done|]. cbn. intros [Hc _]%andb_true_iff. by apply space_not_digit. Qed.

Lemma skip_spaces_split p : exists lead, p = lead ++ skip_spaces p /\ spaces lead.
Proof.
  induction p as [|c p (lead & E & Hl)]; [by exists []|]. cbn [skip_spaces]. destruct (isspace c) eqn:Hc; [|by exists []].
  exists (c :: lead). split; [by rewrite E at 1|]. cbn. by rewrite Hc.
Qed.
Lemma skip_spaces_app lead p : spaces lead -> skip_spaces (lead ++ p) = skip_spaces p.
Proof.
  induction lead as [|c lead IH]; [done|]. cbn [forallb app skip_spaces]. intros [-> Hl]%andb_true_iff. by apply IH.
Qed.
Lemma skip_spaces_id p : starts isspace p = false -> skip_spaces p = p.
Proof. destruct p as [|c p]; [done|]. cbn. by intros ->. Qed.

(** [nMult] when [k] more digits count. *)
Definition mult (k : Z) : Z := if k =? 0 then 0 else 10 ^ (k - 1).
Lemma mult_next k : 0 < k <= 8 -> mult k / 10 = mult (k - 1) /\ 0 < mult k /\ mult k * 10 = 10 ^ k.
Proof.
  intros Hk. assert (k ∈ [1; 2; 3; 4; 5; 6; 7; 8]) as Hin by (rewrite !elem_of_cons; lia).
  assert (Forall (fun k => mult k / 10 = mult (k - 1) /\ 0 < mult k /\ mult k * 10 = 10 ^ k) [1; 2; 3; 4; 5; 6; 7; 8]) as Hall
    by (repeat constructor).
  exact (proj1 (Forall_forall _ _) Hall k Hin).
Qed.

Lemma units_step p k c : 0 < k <= 8 -> is_digit c = true -> forall u, 0 <= u -> u + 10 ^ k <= 2 ^ 63 - 1 ->
  units_loop (c :: p) (mult k) u = units_loop p (mult (k - 1)) (u + mult k * (uchar c - 48)) /\
  0 <= u + mult k * (uchar c - 48) /\ u + mult k * (uchar c - 48) + 10 ^ (k - 1) <= 2 ^ 63 - 1.
Proof.
  intros Hk Hc u Hu Hb. destruct (mult_next k Hk) as (Em & Hm & E10). pose proof (is_digit_range c Hc) as Hr.
  assert (10 ^ k = 10 * 10 ^ (k - 1)) as Ek by (rewrite <- Z.pow_succ_r by lia; f_equal; lia).
  cbn [units_loop]. rewrite Hc, (proj2 (Z.ltb_lt _ _) Hm). cbn [andb]. rewrite Em. unfold i64.
  rewrite swrap_id by (unfold in_s; nia). split; [done|]. nia.
Qed.

Lemma units_value f c k : 0 < k <= 8 -> zlen f <= k - 1 ->
  mult k * (uchar c - 48) + atoi64 f * 10 ^ (k - 1 - zlen f) = atoi64 (c :: f) * 10 ^ (k - zlen (c :: f)).
Proof.
  intros Hk Hf. destruct (mult_next k Hk) as (_ & _ & E10). rewrite atoi64_cons, zlen_cons.
  replace (k - (1 + zlen f)) with (k - 1 - zlen f) by lia. rewrite Z.mul_add_distr_r. f_equal.
  rewrite <- Z.mul_assoc, <- Z.pow_add_r by (pose proof (zlen_nonneg f); lia).
  replace (zlen f + (k - 1 - zlen f)) with (k - 1) by lia.
  assert (10 ^ k = 10 * 10 ^ (k - 1)) as Ek by (rewrite <- Z.pow_succ_r by lia; f_equal; lia). nia.
Qed.

Lemma units_loop_app f p k u : all_digits f -> zlen f <= k <= 8 -> starts is_digit p = false -> 0 <= u -> u + 10 ^ k <= 2 ^ 63 - 1 ->
  units_loop (f ++ p) (mult k) u = (u + atoi64 f * 10 ^ (k - zlen f), p).
Proof.
  revert k u. induction f as [|c f IH]; intros k u Hf Hk Hp Hu Hb.
  - cbn [app]. change (atoi64 []) with 0. rewrite Z.add_0_r. destruct p as [|c p]; [done|]. cbn in Hp. cbn [units_loop]. by rewrite Hp.
  - cbn [forallb] in Hf. apply andb_true_iff in Hf as [Hc Hf]. rewrite zlen_cons in Hk. pose proof (zlen_nonneg f).
    destruct (units_step (f ++ p) k c ltac:(lia) Hc u Hu Hb) as (E & Hu' & Hb'). cbn [app]. rewrite E, IH by (done || lia).
    f_equal. rewrite <- units_value by lia. lia.
Qed.

Lemma units_loop_split p k u : 0 <= k <= 8 -> 0 <= u -> u + 10 ^ k <= 2 ^ 63 - 1 ->
  exists f rest, p = f ++ rest /\ all_digits f /\ zlen f <= k /\
    units_loop p (mult k) u = (u + atoi64 f * 10 ^ (k - zlen f), rest).
Proof.
  assert (forall p k u, 0 <= k -> units_loop p (mult k) u = (u, p) -> exists f rest, p = f ++ rest /\ all_digits f /\ zlen f <= k /\
    units_loop p (mult k) u = (u + atoi64 f * 10 ^ (k - zlen f), rest)) as Hstop.
  { intros p' k' u' Hk' E. exists [], p'. rewrite E. change (atoi64 []) with 0. rewrite Z.mul_0_l, Z.add_0_r. done. }
  revert k u. induction p as [|c p IH]; intros k u Hk Hu Hb; [by apply Hstop; [lia|]|].
  destruct (is_digit c) eqn:Hc; [|apply Hstop; [lia|]; cbn [units_loop]; by rewrite Hc].
  destruct (decide (k = 0)) as [->|Hk0]; [apply Hstop; [lia|]; cbn [units_loop]; by rewrite andb_false_r|].
  destruct (units_step p k c ltac:(lia) Hc u Hu Hb) as (E & Hu' & Hb').
  destruct (IH (k - 1) _ ltac:(lia) Hu' Hb') as (f & rest & -> & Hf & Hlen & E').
  exists (c :: f), rest. split; [done|]. split; [cbn; by rewrite Hc|]. split; [rewrite zlen_cons; lia|].
  rewrite E, E'. f_equal. rewrite <- units_value by lia. lia.
Qed.

Lemma whole_loop_app ds q w : all_digits ds -> whole_loop (ds ++ q) w = whole_loop q (w ++ ds).
Proof.
  revert w. induction ds as [|c ds IH]; intros w; [by rewrite app_nil_r|]. cbn [forallb app whole_loop].
  intros [Hc Hd]%andb_true_iff. destruct (digit_not_space c Hc) as [-> Hp]. rewrite decide_False by done. rewrite Hc. cbn [negb].
  rewrite IH by done. by rewrite <- app_assoc.
Qed.

Lemma whole_loop_split p w whole u rest : whole_loop p w = Some (whole, u, rest) ->
  exists ds frac f, p = ds ++ frac ++ rest /\ whole = w ++ ds /\ all_digits ds /\ all_digits f /\ zlen f <= 8 /\
    (frac = "."%byte :: f \/ frac = [] /\ f = []) /\ u = atoi64 f * 10 ^ (8 - zlen f).
Proof.
  revert w. induction p as [|c p IH]; intros w; cbn [whole_loop].
  { intros [= <- <- <-]. exists [], [], []. rewrite !app_nil_r. do 4 (split; [done|]). split; [by vm_compute|]. split; [by right|done]. }
  destruct (decide (c = "."%byte)) as [->|Hp].
  - change (CENT * 10) with (mult 8). destruct (units_loop_split p 8 0) as (f & r & -> & Hf & Hlen & ->); [lia..|].
    intros [= <- <- <-]. exists [], ("."%byte :: f), f. rewrite !app_nil_r. do 5 (split; [done|]). split; [by left|lia].
  - destruct (isspace c).
    { intros [= <- <- <-]. exists [], [], []. rewrite !app_nil_r. do 4 (split; [done|]). split; [by vm_compute|]. split; [by right|done]. }
    destruct (is_digit c) eqn:Hc; [|done]. cbn [negb]. intros (ds & frac & f & -> & -> & Hd & H)%IH.
    exists (c :: ds), frac, f. split; [done|]. split; [by rewrite <- app_assoc|]. split; [cbn; by rewrite Hc|done].
Qed.

(** The texts that stand for [v]: spaces, at most ten digits, possibly a point and at most eight
    decimals, spaces. *)
Definition reads_as (s : bytes) (v : Z) : Prop := exists lead whole frac f trail,
  s = lead ++ whole ++ frac ++ trail /\ spaces lead /\ spaces trail /\
  all_digits whole /\ zlen whole <= 10 /\ all_digits f /\ zlen f <= 8 /\ (frac = "."%byte :: f \/ frac = [] /\ f = []) /\
  v = atoi64 whole * COIN + atoi64 f * 10 ^ (8 - zlen f).

Lemma units_range f : all_digits f -> zlen f <= 8 -> 0 <= atoi64 f * 10 ^ (8 - zlen f) < COIN.
Proof.
  intros Hf Hl. pose proof (atoi64_range f Hf) as Hr. pose proof (zlen_nonneg f).
  assert (10 ^ zlen f * 10 ^ (8 - zlen f) = COIN) as E by (rewrite <- Z.pow_add_r by lia; by replace (zlen f + (8 - zlen f)) with 8 by lia).
  assert (0 < 10 ^ (8 - zlen f)) by (apply Z.pow_pos_nonneg; lia). nia.
Qed.
Lemma amount_range whole u : all_digits whole -> zlen whole <= 10 -> 0 <= u < COIN ->
  i64 (i64 (atoi64 whole * COIN) + u) = atoi64 whole * COIN + u.
Proof.
  intros Hw Hl Hu. pose proof (atoi64_range whole Hw). assert (10 ^ zlen whole <= 10 ^ 10) by (apply Z.pow_le_mono_r; lia).
  change (10 ^ 10) with 10000000000 in *. unfold COIN in *.
  assert (in_s 64 (atoi64 whole * 100000000) /\ in_s 64 (atoi64 whole * 100000000 + u)) as [H1 H2] by (unfold in_s; lia).
  unfold i64. by rewrite (swrap_id 64 _ ltac:(lia) H1), (swrap_id 64 _ ltac:(lia) H2).
Qed.

Lemma ParseMoney_reads s v : ParseMoney s = Some v <-> reads_as (c_str s) v.
Proof.
  unfold ParseMoney, reads_as. generalize (c_str s) as p. clear s. intros p. split.
  - destruct (skip_spaces_split p) as (lead & E & Hl). destruct (whole_loop (skip_spaces p) []) as [[[whole u] trail]|] eqn:Ew; [|done].
    cbn [mbind option_bind]. apply whole_loop_split in Ew as (ds & frac & f & Es & -> & Hd & Hf & Hlen & Hfrac & ->).
    cbn [app]. destruct (forallb isspace trail) eqn:Ht; [|done]. cbn [negb].
    destruct (Nat.ltb_spec 10 (length ds)); [done|]. destruct (_ || _); [done|]. intros [= <-].
    exists lead, ds, frac, f, trail. rewrite <- Es. repeat (split; [first [exact E|done|unfold zlen; lia]|]).
    apply amount_range; [done|unfold zlen; lia|by apply units_range].
  - intros (lead & whole & frac & f & trail & -> & Hl & Ht & Hw & Hwl & Hf & Hfl & Hfrac & ->).
    rewrite skip_spaces_app by done.
    assert (exists trail', spaces trail' /\
      whole_loop (skip_spaces (whole ++ frac ++ trail)) [] = Some (whole, atoi64 f * 10 ^ (8 - zlen f), trail')) as (t' & Ht' & ->).
    { destruct Hfrac as [->|[-> ->]].
      - exists trail. split; [done|]. rewrite skip_spaces_id.
        2: { destruct whole as [|c whole]; [done|]. cbn in *. apply andb_true_iff in Hw as [Hc _]. by apply digit_not_space. }
        rewrite whole_loop_app by done. cbn [app whole_loop]. rewrite decide_True by done. change (CENT * 10) with (mult 8).
        rewrite units_loop_app by (done || lia || by apply spaces_start). done.
      - cbn [app]. change (atoi64 []) with 0. rewrite Z.mul_0_l. destruct whole as [|c whole].
        + cbn [app]. exists []. split; [done|]. rewrite <- (app_nil_r trail), skip_spaces_app by done. done.
        + exists trail. split; [done|]. rewrite skip_spaces_id.
          2: { cbn in *. apply andb_true_iff in Hw as [Hc _]. by apply digit_not_space. }
          rewrite whole_loop_app by done. cbn [app]. destruct trail as [|d trail]; [done|]. cbn [forallb] in Ht.
          apply andb_true_iff in Ht as [Hd _]. cbn [whole_loop]. destruct (space_not_digit d Hd) as [_ Hp].
          rewrite decide_False by done. by rewrite Hd. }
    cbn [mbind option_bind]. rewrite Ht'. cbn [negb]. destruct (Nat.ltb_spec 10 (length whole)); [unfold zlen in Hwl; lia|].
    pose proof (units_range f Hf Hfl). destruct (Z.ltb_spec (atoi64 f * 10 ^ (8 - zlen f)) 0); [lia|].
    destruct (Z.ltb_spec COIN (atoi64 f * 10 ^ (8 - zlen f))); [lia|]. cbn [orb]. by rewrite amount_range.
Qed.

Lemma digits_no_nul l : all_digits l -> Forall (fun c => c <> B#0) l.
Proof.
  intros Hl. apply Forall_forall. intros c Hc. apply (forallb_elem _ _ _ Hl), is_digit_range in Hc.
  intros ->. change (uchar B#0) with 0 in Hc. lia.
Qed.
Lemma sign_refused c s : c = "-"%byte \/ c = "+"%byte -> ParseMoney (c :: s) = None.
Proof. by intros [-> | ->]. Qed.

(** An amount is written as its sign, its whole coins in decimal without superfluous zeros, a
    point, and its remainder to eight decimals less the zeros at the end beyond the second decimal;
    and it is read back: [ParseMoney] returns the amount from its text without sign, up to ten
    digits of whole coins, and refuses a text with a sign. *)
Theorem money_roundtrip n fPlus : - 2 ^ 63 < n < 2 ^ 63 ->
  exists whole f s, s = money_sign n fPlus ++ whole ++ "."%byte :: f /\ FormatMoney n fPlus = Some (inr s) /\
    money_text n fPlus whole f /\
    (money_sign n fPlus = [] -> n < 10 ^ 18 -> ParseMoney s = Some n) /\
    (money_sign n fPlus <> [] -> ParseMoney s = None).
Proof.
  intros Hn. destruct (FormatMoney_text n fPlus Hn) as (whole & f & E & Ht). exists whole, f. eexists. split; [done|].
  split; [exact E|]. split; [exact Ht|]. destruct Ht as [(Hw & Ew & Hne) Hlen (Hf & Hl) Ev _]. split.
  - intros Es Hmax. assert (0 <= n) as Hpos.
    { unfold money_sign in Es. destruct (Z.ltb_spec n 0); [done|lia]. }
    rewrite Es. cbn [app]. apply ParseMoney_reads. rewrite c_str_no_nul.
    2: { apply Forall_app. split; [by apply digits_no_nul|]. constructor; [discriminate|by apply digits_no_nul]. }
    rewrite Z.abs_eq in * by done.
    exists [], whole, ("."%byte :: f), f, []. cbn [app]. rewrite app_nil_r. do 4 (split; [done|]).
    split; [apply Hlen; [lia|]; apply Z.div_lt_upper_bound; unfold COIN; lia|]. split; [done|]. split; [lia|]. split; [by left|].
    rewrite Ew, Ev. pose proof (Z.div_mod n COIN ltac:(unfold COIN; lia)). lia.
  - unfold money_sign. destruct (n <? 0); [by intros _; apply sign_refused; left|].
    destruct (fPlus && (0 <? n)); [by intros _; apply sign_refused; right|done].
Qed.

Lemma money_roundtrip_witness : exists s, FormatMoney 123450000 false = Some (inr s) /\ ParseMoney s = Some 123450000.
Proof.
  destruct (money_roundtrip 123450000 false) as (whole & f & s & _ & E & _ & Hr & _); [lia|].
  exists s. split; [exact E|]. apply Hr; [reflexivity|lia].
Defined.

(** [ParseMoney] accepts exactly the texts of its grammar, with their value in the smallest unit; no
    accepted text overflows. *)
Theorem ParseMoney_spec s v : ParseMoney s = Some v <-> reads_as (c_str s) v.
Proof. exact (ParseMoney_reads s v). Qed.

Example pays : FormatMoney 123450000 false = Some (inr (raw "1.2345"%text)).
Proof. vm_compute. reflexivity. Qed.
Example owes : FormatMoney (-300000000) true = Some (inr (raw "-3.00"%text)).
Proof. vm_compute. reflexivity. Qed.
(** A text without digits is zero. *)
Example empty_is_zero : ParseMoney [] = Some 0 /\ ParseMoney (raw " . "%text) = Some 0.
Proof. vm_compute. split; reflexivity. Qed.
Example nine_decimals : ParseMoney (raw "0.123456789"%text) = None.
Proof. vm_compute. reflexivity. Qed.
End MoneyFacts.
