(* ===== verification/Hex.v ===== *)
(** * Hex: hexadecimal text (src/src/util.h, util.cpp, uint256.h)

    [HexStr], [IsHex] and [ParseHex] on byte vectors, and [GetHex] and [SetHex] of [base_uint]
    (UInt).  A C string is the list of its bytes before the terminator. *)

From S2P Require Import Prelude UInt BigNum Serialize Crypto Keys Core Base58 Catalog Format FormatFacts.

Module Hex.
(** ** Byte vectors *)
Definition hexmap : bytes := raw "0123456789abcdef"%text.
Definition hex_digit (d : Z) : byte := nth (Z.to_nat d) hexmap B#0.

(** The loop of [HexStr]; [first] tells that [it == itbegin]. *)
Fixpoint hex_loop (fSpaces first : bool) (l : bytes) : bytes :=
  match l with
  | [] => []
  | val :: l =>
    (if fSpaces && negb first then [" "%byte] else []) ++
    hex_digit (Z.shiftr (uchar val) 4) :: hex_digit (Z.land (uchar val) 15) :: hex_loop fSpaces false l
  end.
Definition HexStr (vch : bytes) (fSpaces : bool) : bytes := hex_loop fSpaces true vch.

(** The table [phexdigit], by its ranges. *)
Definition phexdigit (c : byte) : Z :=
  let z := uchar c in
  if (48 <=? z) && (z <=? 57) then z - 48
  else if (65 <=? z) && (z <=? 70) then z - 55
  else if (97 <=? z) && (z <=? 102) then z - 87
  else -1.

Definition IsHex (str : bytes) : bool :=
  forallb (fun c => negb (phexdigit c <? 0)) str && (0 <? zlen str) && (zlen str mod 2 =? 0).

(** The loop of [ParseHex]: two characters at least each time round; the terminator is no digit. *)
Fixpoint parse_loop (fuel : nat) (psz : bytes) : bytes :=
  match fuel with
  | O => []
  | S fuel =>
    match skip_spaces psz with
    | c :: psz =>
      if phexdigit c =? -1 then [] else
      match psz with
      | d :: psz =>
        if phexdigit d =? -1 then []
        else to_byte (Z.lor (u8 (Z.shiftl (phexdigit c) 4)) (phexdigit d)) :: parse_loop fuel psz
      | [] => []
      end
    | [] => []
    end
  end.
Definition ParseHex (psz : bytes) : bytes := parse_loop (S (length psz)) (c_str psz).

(** ** Multi-word integers *)
(** The bytes of [pn] in memory. *)
Definition memory (a : base_uint) : bytes := concat (map (le_bytes 4) a).
Fixpoint from_memory (WIDTH : nat) (m : bytes) : base_uint :=
  match WIDTH with O => [] | S n => le_val (take 4 m) :: from_memory n (drop 4 m) end.

(** [sprintf] with [%02x] for each byte, the last one in memory first. *)
Definition hex_byte (b : byte) : bytes := [hex_digit (uchar b / 16); hex_digit (uchar b mod 16)].
Definition GetHex (a : base_uint) : bytes := concat (map hex_byte (rev (memory a))).

(** The table of [SetHex], which has zero where the other has -1. *)
Definition phexdigit0 (c : byte) : Z := if phexdigit c =? -1 then 0 else phexdigit c.

Definition skip_0x (psz : bytes) : bytes :=
  match psz with
  | "0"%byte :: c :: rest => if decide (c = "x"%byte \/ c = "X"%byte) then rest else psz
  | _ => psz
  end.

(** The digits from [pbegin] on. *)
Fixpoint hex_prefix (psz : bytes) : bytes :=
  match psz with
  | c :: psz => if negb (phexdigit0 c =? 0) || bool_decide (c = "0"%byte) then c :: hex_prefix psz else []
  | [] => []
  end.

(** The loop that fills [n] bytes from the last digit backwards. *)
Fixpoint fill_loop (n : nat) (digits : bytes) : bytes :=
  match n with
  | O => []
  | S n =>
    match digits with
    | [] => replicate (S n) B#0
    | [c] => to_byte (phexdigit0 c) :: replicate n B#0
    | c :: d :: digits => to_byte (Z.lor (phexdigit0 c) (Z.shiftl (phexdigit0 d) 4)) :: fill_loop n digits
    end
  end.

Definition SetHex (WIDTH : nat) (psz : bytes) : base_uint :=
  from_memory WIDTH (fill_loop (WIDTH * 4) (rev (hex_prefix (skip_0x (skip_spaces (c_str psz)))))).
End Hex.
Export Hex.

(** ** Facts *)
Module HexFacts.
Import UIntFacts.

(** *** Two digits are a byte *)
Lemma byte_cases (P : byte -> Prop) : (forall z, 0 <= z < 256 -> P (to_byte z)) -> forall b, P b.
Proof. intros HP b. rewrite <- (Bytes.to_byte_uchar b). apply HP, Bytes.uchar_range. Qed.

Definition digit_ok (d : Z) : bool :=
  (phexdigit (hex_digit d) =? d) && (phexdigit0 (hex_digit d) =? d) && negb (isspace (hex_digit d)) &&
  (negb (phexdigit0 (hex_digit d) =? 0) || bool_decide (hex_digit d = "0"%byte)) && negb (bool_decide (hex_digit d = B#0)) &&
  negb (bool_decide (hex_digit d = "x"%byte \/ hex_digit d = "X"%byte)).
Lemma digit_ok_below d : 0 <= d < 16 -> digit_ok d = true.
Proof. apply (Bytes.check_below 16). vm_compute. reflexivity. Qed.

Record hex_char (c : byte) (d : Z) : Prop := {
  hc_value : phexdigit c = d /\ phexdigit0 c = d;
  hc_space : isspace c = false;
  hc_prefix : negb (phexdigit0 c =? 0) || bool_decide (c = "0"%byte) = true;
  hc_nul : c <> B#0;
  hc_x : ~ (c = "x"%byte \/ c = "X"%byte)
}.
Lemma hex_digit_char d : 0 <= d < 16 -> hex_char (hex_digit d) d.
Proof.
  intros Hd%digit_ok_below. unfold digit_ok in Hd. rewrite !andb_true_iff, !negb_true_iff, !bool_decide_eq_false, !Z.eqb_eq in Hd.
  destruct Hd as (((((H1 & H2) & H3) & H4) & H5) & H6). by split.
Qed.

Lemma byte_halves b : let z := uchar b in
  Z.shiftr z 4 = z / 16 /\ Z.land z 15 = z mod 16 /\ 0 <= z / 16 < 16 /\ 0 <= z mod 16 < 16 /\
  to_byte (Z.lor (u8 (Z.shiftl (z / 16) 4)) (z mod 16)) = b /\ to_byte (Z.lor (z mod 16) (Z.shiftl (z / 16) 4)) = b.
Proof.
  cbv zeta. pose proof (Bytes.uchar_range b) as Hb.
  split; [by rewrite Z.shiftr_div_pow2|]. split; [by rewrite (Z.land_ones _ 4)|].
  split; [split; [apply Z.div_pos; lia|apply Z.div_lt_upper_bound; lia]|]. split; [apply Z.mod_pos_bound; lia|].
  assert (forall z, 0 <= z < 256 -> (Z.lor (u8 (Z.shiftl (z / 16) 4)) (z mod 16) =? z) && (Z.lor (z mod 16) (Z.shiftl (z / 16) 4) =? z) = true)
    as Hall by (apply (Bytes.check_below 256); vm_compute; reflexivity).
  specialize (Hall _ Hb). apply andb_true_iff in Hall as [->%Z.eqb_eq ->%Z.eqb_eq]. by rewrite Bytes.to_byte_uchar.
Qed.

(** *** Byte vectors *)
Lemma skip_char c d p : hex_char c d -> skip_spaces (c :: p) = c :: p.
Proof. intros [_ Hs _ _ _]. cbn [skip_spaces]. by rewrite Hs. Qed.

Lemma parse_hex_loop fSpaces first l fuel : (length l < fuel)%nat -> parse_loop fuel (hex_loop fSpaces first l) = l.
Proof.
  revert first fuel. induction l as [|b l IH]; intros first fuel Hf; [by destruct fuel|].
  destruct fuel as [|fuel]; [cbn in Hf; lia|]. cbn [length] in Hf. cbn [hex_loop].
  destruct (byte_halves b) as (E1 & E2 & H1 & H2 & Eb & _). rewrite E1, E2.
  destruct (hex_digit_char _ H1) as [[Hc _] Hs _ _ _], (hex_digit_char _ H2) as [[Hd _] _ _ _ _].
  set (c := hex_digit (uchar b / 16)) in *. set (d := hex_digit (uchar b mod 16)) in *.
  assert (skip_spaces ((if fSpaces && negb first then [" "%byte] else []) ++ c :: d :: hex_loop fSpaces false l) =
    c :: d :: hex_loop fSpaces false l) as Esk.
  { destruct (fSpaces && negb first); cbn [app skip_spaces]; [change (isspace " "%byte) with true; cbn iota|]; by rewrite Hs. }
  cbn [parse_loop]. rewrite Esk, Hc, Hd. destruct (Z.eqb_spec (uchar b / 16) (-1)); [lia|].
  destruct (Z.eqb_spec (uchar b mod 16) (-1)); [lia|]. rewrite Eb. f_equal. apply IH. lia.
Qed.

Definition hexchars (l : bytes) : Prop := Forall (fun c => exists d, 0 <= d < 16 /\ hex_char c d) l.

Lemma hex_loop_chars fSpaces first l : Forall (fun c => c <> B#0) (hex_loop fSpaces first l) /\
  (fSpaces = false -> hexchars (hex_loop fSpaces first l)) /\ (length l <= length (hex_loop fSpaces first l))%nat /\
  (fSpaces = false -> length (hex_loop fSpaces first l) = 2 * length l)%nat.
Proof.
  revert first. induction l as [|b l IH]; intros first; [split; [constructor|]; split; [constructor|]; by split|].
  destruct (IH false) as (H1 & H2 & H3 & H4). cbn [hex_loop]. destruct (byte_halves b) as (-> & -> & Hc & Hd & _).
  pose proof (hex_digit_char _ Hc) as Kc. pose proof (hex_digit_char _ Hd) as Kd. split.
  - apply Forall_app. split; [by destruct (_ && _); repeat constructor|]. constructor; [apply Kc|]. by constructor; [apply Kd|].
  - split; [|split].
    + intros ->. cbn [andb app]. constructor; [by exists (uchar b / 16)|]. constructor; [by exists (uchar b mod 16)|].
      by apply H2.
    + rewrite length_app. cbn [length]. lia.
    + intros ->. cbn [andb app length]. rewrite H4 by done. lia.
Qed.

(** Hexadecimal text of a byte vector, with or without spaces between the bytes, is read back; and
    without spaces it is what [IsHex] accepts, unless it is empty. *)
Theorem HexStr_ParseHex vch fSpaces :
  ParseHex (HexStr vch fSpaces) = vch /\ IsHex (HexStr vch false) = negb (bool_decide (vch = [])).
Proof.
  unfold HexStr, ParseHex, IsHex. destruct (hex_loop_chars fSpaces true vch) as (Hn & _ & Hl & _). split.
  - rewrite c_str_no_nul by done. apply parse_hex_loop. lia.
  - destruct (hex_loop_chars false true vch) as (_ & Hc & _ & Hlen). specialize (Hc eq_refl). specialize (Hlen eq_refl).
    assert (forallb (fun c => negb (phexdigit c <? 0)) (hex_loop false true vch) = true) as ->.
    { apply forallb_forall. intros c Hin%list_elem_of_In. destruct (proj1 (Forall_forall _ _) Hc c Hin) as (d & Hd & [[-> _] _ _ _ _]).
      destruct (Z.ltb_spec d 0); [lia|done]. }
    unfold zlen. rewrite Hlen, Nat2Z.inj_mul, Z.mul_comm, Z.mod_mul by lia. cbn [andb]. rewrite andb_true_r.
    by destruct vch; case_bool_decide.
Qed.

(** *** Multi-word integers *)
Lemma length_memory a : length (memory a) = (4 * length a)%nat.
Proof.
  unfold memory. induction a as [|x a IH]; [done|]. cbn [map concat length]. rewrite length_app, Bytes.length_le_bytes, IH. lia.
Qed.
Lemma from_memory_memory a : words a -> from_memory (length a) (memory a) = a.
Proof.
  unfold memory. induction 1 as [|x a Hx _ IH]; [done|]. cbn [map concat length from_memory].
  rewrite take_app_length' by (by rewrite Bytes.length_le_bytes). rewrite drop_app_length' by (by rewrite Bytes.length_le_bytes).
  rewrite IH, Bytes.le_val_bytes; [done|]. exact Hx.
Qed.

Lemma fill_hex m : fill_loop (length m) (concat (map (fun b => rev (hex_byte b)) m)) = m.
Proof.
  induction m as [|b m IH]; [done|].
  transitivity (to_byte (Z.lor (phexdigit0 (hex_digit (uchar b mod 16))) (Z.shiftl (phexdigit0 (hex_digit (uchar b / 16))) 4)) ::
    fill_loop (length m) (concat (map (fun b => rev (hex_byte b)) m))); [reflexivity|].
  destruct (byte_halves b) as (_ & _ & Hc & Hd & _ & Eb).
  destruct (hex_digit_char _ Hc) as [[_ ->] _ _ _ _], (hex_digit_char _ Hd) as [[_ ->] _ _ _ _]. by rewrite Eb, IH.
Qed.
Lemma rev_hex m : rev (concat (map hex_byte (rev m))) = concat (map (fun b => rev (hex_byte b)) m).
Proof.
  induction m as [|b m IH]; [done|]. cbn [rev map concat]. rewrite map_app, concat_app, rev_app_distr, IH. done.
Qed.
Lemma GetHex_chars a : hexchars (GetHex a).
Proof.
  unfold GetHex. induction (rev (memory a)) as [|b m IH]; [constructor|]. cbn [map concat hex_byte app].
  destruct (byte_halves b) as (_ & _ & Hc & Hd & _).
  constructor; [exists (uchar b / 16); split; [done|by apply hex_digit_char]|].
  constructor; [exists (uchar b mod 16); split; [done|by apply hex_digit_char]|exact IH].
Qed.

(** Text after the digits does not start with one. *)
Definition stops (rest : bytes) : Prop :=
  match rest with c :: _ => negb (phexdigit0 c =? 0) || bool_decide (c = "0"%byte) = false | [] => True end.
Lemma hex_prefix_app l rest : hexchars l -> stops rest -> hex_prefix (l ++ rest) = l.
Proof.
  intros Hl Hr. induction Hl as [|c l (d & _ & [_ _ Hp _ _]) _ IH].
  - destruct rest as [|c rest]; [done|]. cbn [app hex_prefix]. cbn in Hr. by rewrite Hr.
  - cbn [app hex_prefix]. by rewrite Hp, IH.
Qed.
Lemma skip_0x_hex l rest : hexchars l -> (2 <= length l)%nat -> skip_0x (l ++ rest) = l ++ rest.
Proof.
  intros Hl H2. destruct l as [|c [|d l]]; [cbn in H2; lia..|]. cbn [app].
  apply Forall_inv_tail, Forall_inv in Hl as (v & _ & [_ _ _ _ Hx]). unfold skip_0x.
  destruct c; try done. by rewrite decide_False.
Qed.
Lemma skip_hex l rest : hexchars l -> (1 <= length l)%nat -> skip_spaces (l ++ rest) = l ++ rest.
Proof.
  intros Hl H1. destruct l as [|c l]; [cbn in H1; lia|]. apply Forall_inv in Hl as (v & _ & Hc). by eapply skip_char.
Qed.

(** [GetHex] writes eight lower-case digits for each word, the most significant first, and [SetHex]
    reads the number back, from the plain text as after spaces and [0x], and whatever follows the
    digits. *)
Theorem uint_hex_roundtrip a prefix rest : words a -> a <> [] -> stops rest -> Forall (fun c => c <> B#0) rest ->
  prefix = [] \/ prefix = raw " "%text \/ prefix = raw "0x"%text ->
  zlen (GetHex a) = 8 * zlen a /\ SetHex (length a) (prefix ++ GetHex a ++ rest) = a.
Proof.
  intros Ha Hne Hr Hn Hp. pose proof (GetHex_chars a) as Hc.
  assert (length (GetHex a) = 8 * length a)%nat as Hlen.
  { unfold GetHex. transitivity (length (concat (map (fun b => rev (hex_byte b)) (memory a)))).
    - rewrite <- rev_hex. by rewrite length_rev.
    - transitivity (2 * length (memory a))%nat; [|rewrite length_memory; lia].
      induction (memory a) as [|b m IH]; [done|]. cbn [map concat].
      rewrite length_app, IH. change (length (rev (hex_byte b))) with 2%nat. cbn [length]. lia. }
  assert (1 <= length a)%nat as H1 by (destruct a; [done|cbn; lia]). split; [unfold zlen; lia|]. unfold SetHex.
  assert (Forall (fun c => c <> B#0) (GetHex a)) as Hnul.
  { eapply Forall_impl; [exact Hc|]. by intros c (d & _ & [_ _ _ Hd _]). }
  assert (skip_0x (skip_spaces (c_str (prefix ++ GetHex a ++ rest))) = GetHex a ++ rest) as ->.
  { rewrite c_str_no_nul by (apply Forall_app; split; [destruct Hp as [->|[->| ->]]; repeat constructor; discriminate|by apply Forall_app]).
    destruct Hp as [->|[->| ->]].
    - cbn [app]. rewrite skip_hex by (done || lia). apply skip_0x_hex; [done|lia].
    - change (raw " "%text ++ GetHex a ++ rest) with (" "%byte :: GetHex a ++ rest). cbn [skip_spaces].
      change (isspace " "%byte) with true. cbn iota. rewrite skip_hex by (done || lia). apply skip_0x_hex; [done|lia].
    - reflexivity. }
  rewrite hex_prefix_app by done. unfold GetHex. rewrite rev_hex.
  replace (length a * 4)%nat with (length (memory a)) by (rewrite length_memory; lia). rewrite fill_hex.
  by apply from_memory_memory.
Qed.

Lemma uint_hex_roundtrip_witness :
  SetHex 2 (raw "0x"%text ++ GetHex [0xdeadbeef; 7] ++ raw " tail"%text) = [0xdeadbeef; 7] /\
  GetHex [0xdeadbeef; 7] = raw "00000007deadbeef"%text.
Proof.
  split; [|vm_compute; reflexivity].
  apply (uint_hex_roundtrip [0xdeadbeef; 7] (raw "0x"%text) (raw " tail"%text)).
  - repeat constructor; vm_compute; discriminate || reflexivity.
  - discriminate.
  - reflexivity.
  - repeat constructor; discriminate.
  - right. right. reflexivity.
Defined.
End HexFacts.
