(* ===== verification/Base64.v ===== *)
(** * Base64: the base-64 and base-32 texts of byte vectors (src/src/util.cpp)

    [EncodeBase64], [DecodeBase64], [EncodeBase32] and [DecodeBase32]: the coders as the state
    machines of the code, with the bits left over as their state. *)

From S2P Require Import Prelude Catalog Format FormatFacts.

(** The state of a coder: its [switch] label, the bits left, and what has been written. *)
Record coder := mk_coder { mode : Z; left : Z; ret : bytes }.
Definition start_coder : coder := mk_coder 0 0 [].

Module Base64.
Definition pbase64 : bytes := raw "ABCDEFGHIJKLMNOPQRSTUVWXYZabcdefghijklmnopqrstuvwxyz0123456789+/"%text.
Definition char64 (i : Z) : byte := nth (Z.to_nat i) pbase64 B#0.

(** [decode64_table], by its ranges. *)
Definition decode64 (c : byte) : Z :=
  let z := uchar c in
  if z =? 43 then 62 else if z =? 47 then 63
  else if (48 <=? z) && (z <=? 57) then z + 4
  else if (65 <=? z) && (z <=? 90) then z - 65
  else if (97 <=? z) && (z <=? 122) then z - 71 else -1.

Definition encode64_step (s : coder) (b : byte) : coder :=
  let enc := uchar b in
  match mode s with
  | 0 => mk_coder 1 (Z.shiftl (Z.land enc 3) 4) (ret s ++ [char64 (Z.shiftr enc 2)])
  | 1 => mk_coder 2 (Z.shiftl (Z.land enc 15) 2) (ret s ++ [char64 (Z.lor (left s) (Z.shiftr enc 4))])
  | _ => mk_coder 0 (left s) (ret s ++ [char64 (Z.lor (left s) (Z.shiftr enc 6)); char64 (Z.land enc 63)])
  end.
Definition EncodeBase64 (pch : bytes) : bytes :=
  let s := fold_left encode64_step pch start_coder in
  if mode s =? 0 then ret s
  else ret s ++ [char64 (left s); "="%byte] ++ (if mode s =? 1 then ["="%byte] else []).

Definition decode64_step (s : coder) (dec : Z) : coder :=
  match mode s with
  | 0 => mk_coder 1 dec (ret s)
  | 1 => mk_coder 2 (Z.land dec 15) (ret s ++ [to_byte (Z.lor (Z.shiftl (left s) 2) (Z.shiftr dec 4))])
  | 2 => mk_coder 3 (Z.land dec 3) (ret s ++ [to_byte (Z.lor (Z.shiftl (left s) 4) (Z.shiftr dec 2))])
  | _ => mk_coder 0 (left s) (ret s ++ [to_byte (Z.lor (Z.shiftl (left s) 6) dec)])
  end.

(** The loop: it stops at the first character that is no digit, at the latest at the terminator. *)
Fixpoint decode64_loop (s : coder) (p : bytes) : coder * bytes :=
  match p with
  | [] => (s, [])
  | c :: rest => if decode64 c =? -1 then (s, p) else decode64_loop (decode64_step s (decode64 c)) rest
  end.

(** [p[i]], the terminator included. *)
Definition char_at (p : bytes) (i : nat) : byte := nth i p B#0.
(** [n] padding characters follow, and then no digit. *)
Definition padded (table : byte -> Z) (n : nat) (p : bytes) : bool :=
  forallb (fun i => bool_decide (char_at p i = "="%byte)) (seq 0 n) && (table (char_at p n) =? -1).

(** The bytes and [*pfInvalid]. *)
Definition DecodeBase64 (str : bytes) : bytes * bool :=
  let '(s, p) := decode64_loop start_coder (c_str str) in
  (ret s,
   match mode s with
   | 0 => false
   | 1 => true
   | 2 => negb ((left s =? 0) && padded decode64 2 p)
   | _ => negb ((left s =? 0) && padded decode64 1 p)
   end).
End Base64.

Module Base32.
Import Base64.
Definition pbase32 : bytes := raw "abcdefghijklmnopqrstuvwxyz234567"%text.
Definition char32 (i : Z) : byte := nth (Z.to_nat i) pbase32 B#0.

(** [decode32_table], by its ranges. *)
Definition decode32 (c : byte) : Z :=
  let z := uchar c in
  if (50 <=? z) && (z <=? 55) then z - 24
  else if (65 <=? z) && (z <=? 90) then z - 65
  else if (97 <=? z) && (z <=? 122) then z - 97 else -1.

Definition encode32_step (s : coder) (b : byte) : coder :=
  let enc := uchar b in
  match mode s with
  | 0 => mk_coder 1 (Z.shiftl (Z.land enc 7) 2) (ret s ++ [char32 (Z.shiftr enc 3)])
  | 1 => mk_coder 2 (Z.shiftl (Z.land enc 1) 4)
           (ret s ++ [char32 (Z.lor (left s) (Z.shiftr enc 6)); char32 (Z.land (Z.shiftr enc 1) 31)])
  | 2 => mk_coder 3 (Z.shiftl (Z.land enc 15) 1) (ret s ++ [char32 (Z.lor (left s) (Z.shiftr enc 4))])
  | 3 => mk_coder 4 (Z.shiftl (Z.land enc 3) 3)
           (ret s ++ [char32 (Z.lor (left s) (Z.shiftr enc 7)); char32 (Z.land (Z.shiftr enc 2) 31)])
  | _ => mk_coder 0 (left s) (ret s ++ [char32 (Z.lor (left s) (Z.shiftr enc 5)); char32 (Z.land enc 31)])
  end.
Definition nPadding (mode : Z) : nat := nth (Z.to_nat mode) [0; 6; 4; 3; 1]%nat O.
Definition EncodeBase32 (pch : bytes) : bytes :=
  let s := fold_left encode32_step pch start_coder in
  if mode s =? 0 then ret s else ret s ++ char32 (left s) :: replicate (nPadding (mode s)) "="%byte.

Definition decode32_step (s : coder) (dec : Z) : coder :=
  let push z := ret s ++ [to_byte z] in
  match mode s with
  | 0 => mk_coder 1 dec (ret s)
  | 1 => mk_coder 2 (Z.land dec 3) (push (Z.lor (Z.shiftl (left s) 3) (Z.shiftr dec 2)))
  | 2 => mk_coder 3 (Z.lor (Z.shiftl (left s) 5) dec) (ret s)
  | 3 => mk_coder 4 (Z.land dec 15) (push (Z.lor (Z.shiftl (left s) 1) (Z.shiftr dec 4)))
  | 4 => mk_coder 5 (Z.land dec 1) (push (Z.lor (Z.shiftl (left s) 4) (Z.shiftr dec 1)))
  | 5 => mk_coder 6 (Z.lor (Z.shiftl (left s) 5) dec) (ret s)
  | 6 => mk_coder 7 (Z.land dec 7) (push (Z.lor (Z.shiftl (left s) 2) (Z.shiftr dec 3)))
  | _ => mk_coder 0 (left s) (push (Z.lor (Z.shiftl (left s) 5) dec))
  end.
Fixpoint decode32_loop (s : coder) (p : bytes) : coder * bytes :=
  match p with
  | [] => (s, [])
  | c :: rest => if decode32 c =? -1 then (s, p) else decode32_loop (decode32_step s (decode32 c)) rest
  end.
Definition DecodeBase32 (str : bytes) : bytes * bool :=
  let '(s, p) := decode32_loop start_coder (c_str str) in
  (ret s,
   match mode s with
   | 0 => false
   | 1 | 3 | 6 => true
   | 2 => negb ((left s =? 0) && padded decode32 6 p)
   | 4 => negb ((left s =? 0) && padded decode32 4 p)
   | 5 => negb ((left s =? 0) && padded decode32 3 p)
   | _ => negb ((left s =? 0) && padded decode32 1 p)
   end).
End Base32.
Export Base64 Base32.

Example man : EncodeBase64 (raw "Man!"%text) = raw "TWFuIQ=="%text /\ EncodeBase32 (raw "foob"%text) = raw "mzxw6yq="%text.
Proof. vm_compute. split; reflexivity. Qed.

(** ** Facts *)
Module Base64Facts.

(** A boolean fact about two bytes, by computation. *)
Lemma check_pair (P : Z -> Z -> bool) :
  forallb (fun x => forallb (fun y => P (Z.of_nat x) (Z.of_nat y)) (seq 0 256)) (seq 0 256) = true ->
  forall a b, P (uchar a) (uchar b) = true.
Proof.
  intros HP a b. pose proof (Bytes.uchar_range a). pose proof (Bytes.uchar_range b).
  assert (forallb (fun y => P (uchar a) (Z.of_nat y)) (seq 0 256) = true) as Ha.
  { rewrite <- (Z2Nat.id (uchar a)) by lia. apply (proj1 (forallb_forall _ _) HP). apply in_seq. lia. }
  rewrite <- (Z2Nat.id (uchar b)) by lia. apply (proj1 (forallb_forall _ _) Ha). apply in_seq. lia.
Qed.

(** A digit of a base: it stands for its value and is neither the terminator nor unknown. *)
Definition digit_fact (table : byte -> Z) (char : Z -> byte) (d : Z) : bool :=
  (table (char d) =? d) && negb (bool_decide (char d = B#0)).
Lemma digits64 d : 0 <= d < 64 -> decode64 (char64 d) = d /\ char64 d <> B#0.
Proof.
  intros Hd. assert (digit_fact decode64 char64 d = true) as H.
  { revert d Hd. apply (Bytes.check_below 64). vm_compute. reflexivity. }
  unfold digit_fact in H. by rewrite andb_true_iff, negb_true_iff, Z.eqb_eq, bool_decide_eq_false in H.
Qed.
Lemma digits32 d : 0 <= d < 32 -> decode32 (char32 d) = d /\ char32 d <> B#0.
Proof.
  intros Hd. assert (digit_fact decode32 char32 d = true) as H.
  { revert d Hd. apply (Bytes.check_below 32). vm_compute. reflexivity. }
  unfold digit_fact in H. by rewrite andb_true_iff, negb_true_iff, Z.eqb_eq, bool_decide_eq_false in H.
Qed.

Definition below (n z : Z) : bool := (0 <=? z) && (z <? n).
Lemma below_iff n z : below n z = true <-> 0 <= z < n.
Proof. unfold below. rewrite andb_true_iff, Z.leb_le, Z.ltb_lt. done. Qed.

(** [k] bits of [x] on top of the bits of [y] above [m]: the digit that spans two bytes, with its parts. *)
Definition span (k m s : Z) (x y : Z) : Z := Z.lor (Z.shiftl (Z.land x (Z.ones k)) s) (Z.shiftr y m).
Definition span_fact (n k m s x y : Z) : bool :=
  below n (span k m s x y) && (Z.shiftr (span k m s x y) s =? Z.land x (Z.ones k)) &&
  (Z.land (span k m s x y) (Z.ones s) =? Z.shiftr y m).
Lemma span_spec n k m s a b : forallb (fun x => forallb (fun y => span_fact n k m s (Z.of_nat x) (Z.of_nat y)) (seq 0 256)) (seq 0 256) = true ->
  0 <= span k m s (uchar a) (uchar b) < n /\ Z.shiftr (span k m s (uchar a) (uchar b)) s = Z.land (uchar a) (Z.ones k) /\
  Z.land (span k m s (uchar a) (uchar b)) (Z.ones s) = Z.shiftr (uchar b) m.
Proof.
  intros Hc. pose proof (check_pair _ Hc a b) as H. unfold span_fact in H. rewrite !andb_true_iff, !Z.eqb_eq, below_iff in H.
  by destruct H as [[H1 H2] H3].
Qed.

(** *** Base 64 *)
Fixpoint text64 (l : bytes) : bytes :=
  match l with
  | [] => []
  | [x] => [char64 (Z.shiftr (uchar x) 2); char64 (Z.shiftl (Z.land (uchar x) 3) 4); "="%byte; "="%byte]
  | [x; y] => [char64 (Z.shiftr (uchar x) 2); char64 (span 2 4 4 (uchar x) (uchar y));
               char64 (Z.shiftl (Z.land (uchar y) 15) 2); "="%byte]
  | x :: y :: z :: l => [char64 (Z.shiftr (uchar x) 2); char64 (span 2 4 4 (uchar x) (uchar y));
               char64 (span 4 6 2 (uchar y) (uchar z)); char64 (Z.land (uchar z) 63)] ++ text64 l
  end.

(** Induction three bytes at a time. *)
Lemma triples_ind (P : bytes -> Prop) : P [] -> (forall x, P [x]) -> (forall x y, P [x; y]) ->
  (forall x y z l, P l -> P (x :: y :: z :: l)) -> forall l, P l.
Proof.
  intros H0 H1 H2 H3 l. assert (P l /\ (forall x, P (x :: l)) /\ forall x y, P (x :: y :: l)) as [H _]; [|exact H].
  induction l as [|z l (IH0 & IH1 & IH2)]; [done|]. split; [apply IH1|]. split; [intros; apply IH2|]. intros x y. by apply H3.
Qed.

Lemma EncodeBase64_text l : EncodeBase64 l = text64 l.
Proof.
  unfold EncodeBase64, start_coder.
  assert (forall l L r, let s := fold_left encode64_step l (mk_coder 0 L r) in
    (if mode s =? 0 then ret s else ret s ++ [char64 (left s); "="%byte] ++ (if mode s =? 1 then ["="%byte] else [])) = r ++ text64 l)
    as H; [|exact (H l 0 [])].
  clear. intros l. induction l as [|x|x y|x y z l IH] using triples_ind; intros L r.
  - cbn. by rewrite app_nil_r.
  - cbn. by rewrite <- app_assoc.
  - cbn. by rewrite <- !app_assoc.
  - cbn [fold_left encode64_step mode left ret]. cbv zeta in IH |- *. rewrite IH. cbn [text64]. by rewrite <- !app_assoc.
Qed.

Lemma decode64_char s d rest : 0 <= d < 64 -> decode64_loop s (char64 d :: rest) = decode64_loop (decode64_step s d) rest.
Proof.
  intros Hd. cbn [decode64_loop]. destruct (digits64 d Hd) as [-> _]. by destruct (Z.eqb_spec d (-1)); [lia|].
Qed.

(** The parts of a byte, and what the decoder makes of them. *)
Definition parts64 (x : Z) : bool :=
  below 64 (Z.shiftr x 2) && below 64 (Z.shiftl (Z.land x 3) 4) && below 64 (Z.shiftl (Z.land x 15) 2) && below 64 (Z.land x 63) &&
  (Z.lor (Z.shiftl (Z.shiftr x 2) 2) (Z.land x 3) =? x) && (Z.lor (Z.shiftl (Z.shiftr x 4) 4) (Z.land x 15) =? x) &&
  (Z.lor (Z.shiftl (Z.shiftr x 6) 6) (Z.land x 63) =? x) &&
  (Z.shiftr (Z.shiftl (Z.land x 3) 4) 4 =? Z.land x 3) && (Z.land (Z.shiftl (Z.land x 3) 4) 15 =? 0) &&
  (Z.shiftr (Z.shiftl (Z.land x 15) 2) 2 =? Z.land x 15) && (Z.land (Z.shiftl (Z.land x 15) 2) 3 =? 0).
Lemma parts64_spec b : parts64 (uchar b) = true.
Proof. revert b. intros b. apply (Bytes.check_below 256); [vm_compute; reflexivity|apply Bytes.uchar_range]. Qed.

Lemma span_2_4 a b : 0 <= span 2 4 4 (uchar a) (uchar b) < 64 /\
  Z.shiftr (span 2 4 4 (uchar a) (uchar b)) 4 = Z.land (uchar a) 3 /\ Z.land (span 2 4 4 (uchar a) (uchar b)) 15 = Z.shiftr (uchar b) 4.
Proof. apply (span_spec 64). vm_compute. reflexivity. Qed.
Lemma span_4_6 a b : 0 <= span 4 6 2 (uchar a) (uchar b) < 64 /\
  Z.shiftr (span 4 6 2 (uchar a) (uchar b)) 2 = Z.land (uchar a) 15 /\ Z.land (span 4 6 2 (uchar a) (uchar b)) 3 = Z.shiftr (uchar b) 6.
Proof. apply (span_spec 64). vm_compute. reflexivity. Qed.

(** The decoder returns the bytes, and what follows the text is padding. *)
Lemma decode64_text l L r : exists s p, decode64_loop (mk_coder 0 L r) (text64 l) = (s, p) /\ ret s = r ++ l /\
  match mode s with
  | 0 => true | 1 => false
  | 2 => (left s =? 0) && padded decode64 2 p
  | _ => (left s =? 0) && padded decode64 1 p
  end = true.
Proof.
  revert L r. induction l as [|x|x y|x y z l IH] using triples_ind; intros L r; cbn [text64 app].
  - eexists _, _. split; [reflexivity|]. cbn. by rewrite app_nil_r.
  - pose proof (parts64_spec x) as Hx. unfold parts64 in Hx. rewrite !andb_true_iff, !below_iff, !Z.eqb_eq in Hx.
    rewrite !decode64_char by tauto. cbn [decode64_step mode left ret decode64_loop].
    change (decode64 "="%byte =? -1) with true. cbn iota. eexists _, _. split; [reflexivity|]. cbn [mode left ret].
    destruct Hx as [[[[[[[_ Ex] _] _] E1] E2] _] _]. rewrite E1, E2, Ex, Bytes.to_byte_uchar. done.
  - pose proof (parts64_spec x) as Hx. pose proof (parts64_spec y) as Hy. unfold parts64 in Hx, Hy.
    rewrite !andb_true_iff, !below_iff, !Z.eqb_eq in Hx, Hy. destruct (span_2_4 x y) as (Hs & S1 & S2).
    rewrite !decode64_char by tauto. cbn [decode64_step mode left ret decode64_loop].
    change (decode64 "="%byte =? -1) with true. cbn iota. eexists _, _. split; [reflexivity|]. cbn [mode left ret].
    destruct Hx as [[[[[[[_ Ex] _] _] _] _] _] _], Hy as [[[[[[_ Ey] _] _] _] E1] E2].
    rewrite S1, S2, E1, E2, Ex, Ey, !Bytes.to_byte_uchar, <- app_assoc. done.
  - pose proof (parts64_spec x) as Hx. pose proof (parts64_spec y) as Hy. pose proof (parts64_spec z) as Hz.
    unfold parts64 in Hx, Hy, Hz. rewrite !andb_true_iff, !below_iff, !Z.eqb_eq in Hx, Hy, Hz.
    destruct (span_2_4 x y) as (Hs & S1 & S2), (span_4_6 y z) as (Hs' & S3 & S4).
    rewrite !decode64_char by tauto. cbn [decode64_step mode left ret].
    destruct Hx as [[[[[[[_ Ex] _] _] _] _] _] _], Hy as [[[[[[_ Ey] _] _] _] _] _], Hz as [[[[[_ Ez] _] _] _] _].
    rewrite S1, S2, S3, S4, Ex, Ey, Ez, !Bytes.to_byte_uchar, <- !app_assoc. cbn [app].
    destruct (IH (Z.shiftr (uchar z) 6) (r ++ [x; y; z])) as (s & p & E & Er & Hm).
    exists s, p. split; [exact E|]. by rewrite Er, <- app_assoc.
Qed.

(** *** Base 32 *)
Definition s32_1 (x y : byte) : Z := span 3 6 2 (uchar x) (uchar y).
Definition s32_3 (y z : byte) : Z := span 1 4 4 (uchar y) (uchar z).
Definition s32_4 (z u : byte) : Z := span 4 7 1 (uchar z) (uchar u).
Definition s32_6 (u v : byte) : Z := span 2 5 3 (uchar u) (uchar v).
Definition first32 (x : byte) : byte := char32 (Z.shiftr (uchar x) 3).
Definition mid32 (k : Z) (y : byte) : byte := char32 (Z.land (Z.shiftr (uchar y) k) 31).
Definition rest32 (mask s : Z) (y : byte) : byte := char32 (Z.shiftl (Z.land (uchar y) mask) s).

Definition pad (n : nat) : bytes := replicate n "="%byte.
Fixpoint text32 (l : bytes) : bytes :=
  match l with
  | [] => []
  | [x] => first32 x :: rest32 7 2 x :: pad 6
  | [x; y] => first32 x :: char32 (s32_1 x y) :: mid32 1 y :: rest32 1 4 y :: pad 4
  | [x; y; z] => first32 x :: char32 (s32_1 x y) :: mid32 1 y :: char32 (s32_3 y z) :: rest32 15 1 z :: pad 3
  | [x; y; z; u] => first32 x :: char32 (s32_1 x y) :: mid32 1 y :: char32 (s32_3 y z) :: char32 (s32_4 z u) ::
      mid32 2 u :: rest32 3 3 u :: pad 1
  | x :: y :: z :: u :: v :: l => first32 x :: char32 (s32_1 x y) :: mid32 1 y :: char32 (s32_3 y z) :: char32 (s32_4 z u) ::
      mid32 2 u :: char32 (s32_6 u v) :: char32 (Z.land (uchar v) 31) :: text32 l
  end.

Lemma fives_ind (P : bytes -> Prop) : P [] -> (forall x, P [x]) -> (forall x y, P [x; y]) -> (forall x y z, P [x; y; z]) ->
  (forall x y z u, P [x; y; z; u]) -> (forall x y z u v l, P l -> P (x :: y :: z :: u :: v :: l)) -> forall l, P l.
Proof.
  intros H0 H1 H2 H3 H4 H5 l.
  assert (P l /\ (forall x, P (x :: l)) /\ (forall x y, P (x :: y :: l)) /\ (forall x y z, P (x :: y :: z :: l)) /\
    forall x y z u, P (x :: y :: z :: u :: l)) as [H _]; [|exact H].
  induction l as [|v l (I0 & I1 & I2 & I3 & I4)]; [done|]. split; [apply I1|]. split; [intros; apply I2|].
  split; [intros; apply I3|]. split; [intros; apply I4|]. intros. by apply H5.
Qed.

Lemma EncodeBase32_text l : EncodeBase32 l = text32 l.
Proof.
  unfold EncodeBase32, start_coder.
  assert (forall l L r, let s := fold_left encode32_step l (mk_coder 0 L r) in
    (if mode s =? 0 then ret s else ret s ++ char32 (left s) :: replicate (nPadding (mode s)) "="%byte) = r ++ text32 l)
    as H; [|exact (H l 0 [])].
  clear. intros l. induction l as [|x|x y|x y z|x y z u|x y z u v l IH] using fives_ind; intros L r.
  1: cbn; by rewrite app_nil_r.
  1-4: cbn [fold_left encode32_step mode left ret]; cbv zeta; cbn [Z.eqb]; by rewrite <- ?app_assoc.
  cbn [fold_left encode32_step mode left ret]. cbv zeta in IH |- *. rewrite IH. by rewrite <- !app_assoc.
Qed.

Lemma decode32_char s d rest : 0 <= d < 32 -> decode32_loop s (char32 d :: rest) = decode32_loop (decode32_step s d) rest.
Proof.
  intros Hd. cbn [decode32_loop]. destruct (digits32 d Hd) as [-> _]. by destruct (Z.eqb_spec d (-1)); [lia|].
Qed.

Lemma s32_1_spec x y : 0 <= s32_1 x y < 32 /\ Z.shiftr (s32_1 x y) 2 = Z.land (uchar x) 7 /\ Z.land (s32_1 x y) 3 = Z.shiftr (uchar y) 6.
Proof. apply (span_spec 32). vm_compute. reflexivity. Qed.
Lemma s32_3_spec x y : 0 <= s32_3 x y < 32 /\ Z.shiftr (s32_3 x y) 4 = Z.land (uchar x) 1 /\ Z.land (s32_3 x y) 15 = Z.shiftr (uchar y) 4.
Proof. apply (span_spec 32). vm_compute. reflexivity. Qed.
Lemma s32_4_spec x y : 0 <= s32_4 x y < 32 /\ Z.shiftr (s32_4 x y) 1 = Z.land (uchar x) 15 /\ Z.land (s32_4 x y) 1 = Z.shiftr (uchar y) 7.
Proof. apply (span_spec 32). vm_compute. reflexivity. Qed.
Lemma s32_6_spec x y : 0 <= s32_6 x y < 32 /\ Z.shiftr (s32_6 x y) 3 = Z.land (uchar x) 3 /\ Z.land (s32_6 x y) 7 = Z.shiftr (uchar y) 5.
Proof. apply (span_spec 32). vm_compute. reflexivity. Qed.

Lemma first32_range x : 0 <= Z.shiftr (uchar x) 3 < 32.
Proof. apply below_iff. byte_check x. Qed.
Lemma mid32_range k x : k = 1 \/ k = 2 -> 0 <= Z.land (Z.shiftr (uchar x) k) 31 < 32.
Proof. intros [-> | ->]; apply below_iff; byte_check x. Qed.
Lemma last32_range x : 0 <= Z.land (uchar x) 31 < 32.
Proof. apply below_iff. byte_check x. Qed.
Lemma rest32_range mask s x : (mask, s) ∈ [(7, 2); (1, 4); (15, 1); (3, 3)] -> 0 <= Z.shiftl (Z.land (uchar x) mask) s < 32.
Proof.
  rewrite !elem_of_cons. intros Hk. apply below_iff.
  repeat (destruct Hk as [[= -> ->]|Hk]; [byte_check x|]). by apply not_elem_of_nil in Hk.
Qed.
(** The last digit before the padding has no bits but those of its byte. *)
Lemma last32 x :
  (Z.shiftr (Z.shiftl (Z.land (uchar x) 7) 2) 2 = Z.land (uchar x) 7 /\ Z.land (Z.shiftl (Z.land (uchar x) 7) 2) 3 = 0) /\
  (Z.shiftr (Z.shiftl (Z.land (uchar x) 1) 4) 4 = Z.land (uchar x) 1 /\ Z.land (Z.shiftl (Z.land (uchar x) 1) 4) 15 = 0) /\
  (Z.shiftr (Z.shiftl (Z.land (uchar x) 15) 1) 1 = Z.land (uchar x) 15 /\ Z.land (Z.shiftl (Z.land (uchar x) 15) 1) 1 = 0) /\
  (Z.shiftr (Z.shiftl (Z.land (uchar x) 3) 3) 3 = Z.land (uchar x) 3 /\ Z.land (Z.shiftl (Z.land (uchar x) 3) 3) 7 = 0).
Proof. split; [|split; [|split]]; split; byte_eq x. Qed.

(** The bytes, put together again from what the decoder holds. *)
Lemma join32 x : Z.lor (Z.shiftl (Z.shiftr (uchar x) 3) 3) (Z.land (uchar x) 7) = uchar x /\
  Z.lor (Z.shiftl (Z.lor (Z.shiftl (Z.shiftr (uchar x) 6) 5) (Z.land (Z.shiftr (uchar x) 1) 31)) 1) (Z.land (uchar x) 1) = uchar x /\
  Z.lor (Z.shiftl (Z.shiftr (uchar x) 4) 4) (Z.land (uchar x) 15) = uchar x /\
  Z.lor (Z.shiftl (Z.lor (Z.shiftl (Z.shiftr (uchar x) 7) 5) (Z.land (Z.shiftr (uchar x) 2) 31)) 2) (Z.land (uchar x) 3) = uchar x /\
  Z.lor (Z.shiftl (Z.shiftr (uchar x) 5) 5) (Z.land (uchar x) 31) = uchar x.
Proof. split; [|split; [|split; [|split]]]; byte_eq x. Qed.

Ltac next32 :=
  rewrite decode32_char by
    (apply first32_range || apply s32_1_spec || apply s32_3_spec || apply s32_4_spec || apply s32_6_spec || apply last32_range ||
     (apply mid32_range; by (left + right)) || (apply rest32_range; set_solver));
  cbn [decode32_step mode left ret].
(** What the decoder holds, in terms of the bytes. *)
Ltac join32_all :=
  repeat match goal with
  | |- context [s32_1 ?x ?y] => destruct (s32_1_spec x y) as (_ & -> & ->)
  | |- context [s32_3 ?x ?y] => destruct (s32_3_spec x y) as (_ & -> & ->)
  | |- context [s32_4 ?x ?y] => destruct (s32_4_spec x y) as (_ & -> & ->)
  | |- context [s32_6 ?x ?y] => destruct (s32_6_spec x y) as (_ & -> & ->)
  end.
Ltac finish32 x := destruct (last32 x) as ((L1 & L2) & (L3 & L4) & (L5 & L6) & (L7 & L8)); rewrite ?L1, ?L2, ?L3, ?L4, ?L5, ?L6, ?L7, ?L8.
Ltac join32_byte x := destruct (join32 x) as (J1 & J2 & J3 & J4 & J5); rewrite ?J1, ?J2, ?J3, ?J4, ?J5; clear J1 J2 J3 J4 J5.

Lemma decode32_text l L r : exists s p, decode32_loop (mk_coder 0 L r) (text32 l) = (s, p) /\ ret s = r ++ l /\
  match mode s with
  | 0 => true | 1 | 3 | 6 => false
  | 2 => (left s =? 0) && padded decode32 6 p
  | 4 => (left s =? 0) && padded decode32 4 p
  | 5 => (left s =? 0) && padded decode32 3 p
  | _ => (left s =? 0) && padded decode32 1 p
  end = true.
Proof.
  revert L r. induction l as [|x|x y|x y z|x y z u|x y z u v l IH] using fives_ind; intros L r; cbn [text32].
  - eexists _, _. split; [reflexivity|]. cbn. by rewrite app_nil_r.
  - unfold first32, rest32. do 2 next32. eexists _, _. split; [reflexivity|]. cbn [mode left ret].
    finish32 x. join32_byte x. by rewrite Bytes.to_byte_uchar.
  - unfold first32, mid32, rest32. do 4 next32. eexists _, _. split; [reflexivity|]. cbn [mode left ret].
    join32_all. finish32 y. join32_byte x. join32_byte y. by rewrite !Bytes.to_byte_uchar, <- !app_assoc.
  - unfold first32, mid32, rest32. do 5 next32. eexists _, _. split; [reflexivity|]. cbn [mode left ret].
    join32_all. finish32 z. join32_byte x. join32_byte y. join32_byte z. by rewrite !Bytes.to_byte_uchar, <- !app_assoc.
  - unfold first32, mid32, rest32. do 7 next32. eexists _, _. split; [reflexivity|]. cbn [mode left ret].
    join32_all. finish32 u. join32_byte x. join32_byte y. join32_byte z. join32_byte u.
    by rewrite !Bytes.to_byte_uchar, <- !app_assoc.
  - unfold first32, mid32. do 8 next32. join32_all. join32_byte x. join32_byte y. join32_byte z. join32_byte u. join32_byte v.
    rewrite !Bytes.to_byte_uchar, <- !app_assoc. cbn [app].
    destruct (IH (Z.shiftr (uchar v) 5) (r ++ [x; y; z; u; v])) as (s & p & E & Er & Hm).
    exists s, p. split; [exact E|]. by rewrite Er, <- app_assoc.
Qed.

(** *** No text contains the terminator *)
Lemma char64_no_nul d : 0 <= d < 64 -> char64 d <> B#0.
Proof. apply digits64. Qed.
Lemma char32_no_nul d : 0 <= d < 32 -> char32 d <> B#0.
Proof. apply digits32. Qed.
Lemma pad_no_nul n : Forall (fun c => c <> B#0) (pad n).
Proof. apply Forall_replicate. discriminate. Qed.

Lemma text64_no_nul l : Forall (fun c => c <> B#0) (text64 l).
Proof.
  induction l as [|x|x y|x y z l IH] using triples_ind; cbn [text64 app];
    repeat first [exact IH | apply List.Forall_cons | apply List.Forall_nil]; try discriminate; apply char64_no_nul;
    lazymatch goal with
    | |- context [span 2 4 4 (uchar ?a) (uchar ?b)] => exact (proj1 (span_2_4 a b))
    | |- context [span 4 6 2 (uchar ?a) (uchar ?b)] => exact (proj1 (span_4_6 a b))
    | |- context [uchar ?b] => apply below_iff; byte_check b
    end.
Qed.
Lemma text32_no_nul l : Forall (fun c => c <> B#0) (text32 l).
Proof.
  induction l as [|x|x y|x y z|x y z u|x y z u v l IH] using fives_ind; cbn [text32]; unfold first32, mid32, rest32;
    repeat first [apply pad_no_nul | exact IH | apply List.Forall_cons | apply List.Forall_nil];
    apply char32_no_nul;
    (apply first32_range || apply s32_1_spec || apply s32_3_spec || apply s32_4_spec || apply s32_6_spec || apply last32_range ||
     (apply mid32_range; by (left + right)) || (apply rest32_range; set_solver)).
Qed.

Lemma DecodeBase64_Encode pch : DecodeBase64 (EncodeBase64 pch) = (pch, false).
Proof.
  unfold DecodeBase64. rewrite EncodeBase64_text, c_str_no_nul by apply text64_no_nul. unfold start_coder.
  destruct (decode64_text pch 0 []) as (s & p & -> & -> & Hm). f_equal. destruct (mode s) as [|[[]|[]|]|]; by rewrite ?Hm.
Qed.
Lemma DecodeBase32_Encode pch : DecodeBase32 (EncodeBase32 pch) = (pch, false).
Proof.
  unfold DecodeBase32. rewrite EncodeBase32_text, c_str_no_nul by apply text32_no_nul. unfold start_coder.
  destruct (decode32_text pch 0 []) as (s & p & -> & -> & Hm). f_equal.
  destruct (mode s) as [|[[[]|[]|]|[[]|[]|]|]|]; by rewrite ?Hm.
Qed.

(** Decoding a base-64 text returns the bytes that were encoded and finds it valid, for every byte
    vector; and so for base 32. *)
Theorem base64_roundtrip pch :
  DecodeBase64 (EncodeBase64 pch) = (pch, false) /\ DecodeBase32 (EncodeBase32 pch) = (pch, false).
Proof. split; [apply DecodeBase64_Encode|apply DecodeBase32_Encode]. Qed.
End Base64Facts.
