(* ===== verification/NetAddr.v ===== *)
(** * NetAddr: network addresses (src/src/netbase.cpp, protocol.cpp)

    [CNetAddr], [CService] and [CAddress]: the classes of addresses, the groups that keep one
    operator from filling the address tables, and the names of hidden services. *)

From S2P Require Import Prelude Serialize Crypto Keys Core Catalog Format FormatFacts Base64.

(** [ip], sixteen bytes in network order. *)
Record CNetAddr := mk_netaddr { ip : bytes }.
Record CService := mk_service { netaddr : CNetAddr; port : Z }.
Record CAddress := mk_address { service : CService; nServices : Z; a_nTime : Z; nLastTry : Z }.

#[export] Instance CNetAddr_eq : EqDecision CNetAddr.
Proof. solve_decision. Defined.
#[export] Instance CService_eq : EqDecision CService.
Proof. solve_decision. Defined.
#[export] Instance CNetAddr_countable : Countable CNetAddr.
Proof. refine (inj_countable' (fun a => map uchar (ip a)) (fun l => mk_netaddr (map to_byte l)) _).
  intros [l]. f_equal. rewrite map_map. transitivity (map id l); [|apply map_id].
  apply map_ext. intros b. apply Bytes.to_byte_uchar. Defined.

(** [enum Network]. *)
Inductive Network := NET_UNROUTABLE | NET_IPV4 | NET_IPV6 | NET_TOR | NET_I2P.
#[export] Instance Network_eq : EqDecision Network.
Proof. solve_decision. Defined.
Definition net_code (n : Network) : Z :=
  match n with NET_UNROUTABLE => 0 | NET_IPV4 => 1 | NET_IPV6 => 2 | NET_TOR => 3 | NET_I2P => 4 end.

Module NetAddr.
Definition chars (l : list Z) : bytes := map to_byte l.
Definition pchIPv4 : bytes := chars [0; 0; 0; 0; 0; 0; 0; 0; 0; 0; 0xff; 0xff].
Definition pchOnionCat : bytes := chars [0xFD; 0x87; 0xD8; 0x7E; 0xEB; 0x43].
Definition pchGarliCat : bytes := chars [0xFD; 0x60; 0xDB; 0x4D; 0xDD; 0xB5].

(** [memcmp(ip, prefix, sizeof(prefix)) == 0]. *)
Definition has_prefix (prefix : bytes) (a : CNetAddr) : bool := bool_decide (take (length prefix) (ip a) = prefix).
Definition GetByte (a : CNetAddr) (n : nat) : Z := uchar (nth (15 - n) (ip a) B#0).

Definition null_addr : CNetAddr := mk_netaddr (replicate 16 B#0).

(** ** Classes of addresses *)
Definition IsIPv4 (a : CNetAddr) : bool := has_prefix pchIPv4 a.
Definition IsTor (a : CNetAddr) : bool := has_prefix pchOnionCat a.
Definition IsI2P (a : CNetAddr) : bool := has_prefix pchGarliCat a.
Definition IsIPv6 (a : CNetAddr) : bool := negb (IsIPv4 a) && negb (IsTor a) && negb (IsI2P a).

Definition IsRFC1918 (a : CNetAddr) : bool :=
  IsIPv4 a && ((GetByte a 3 =? 10) || ((GetByte a 3 =? 192) && (GetByte a 2 =? 168)) ||
    ((GetByte a 3 =? 172) && ((16 <=? GetByte a 2) && (GetByte a 2 <=? 31)))).
Definition IsRFC3927 (a : CNetAddr) : bool := IsIPv4 a && ((GetByte a 3 =? 169) && (GetByte a 2 =? 254)).
Definition IsRFC3849 (a : CNetAddr) : bool :=
  (GetByte a 15 =? 0x20) && (GetByte a 14 =? 0x01) && (GetByte a 13 =? 0x0D) && (GetByte a 12 =? 0xB8).
Definition IsRFC3964 (a : CNetAddr) : bool := (GetByte a 15 =? 0x20) && (GetByte a 14 =? 0x02).
Definition IsRFC6052 (a : CNetAddr) : bool := has_prefix (chars [0; 0x64; 0xFF; 0x9B; 0; 0; 0; 0; 0; 0; 0; 0]) a.
Definition IsRFC4380 (a : CNetAddr) : bool :=
  (GetByte a 15 =? 0x20) && (GetByte a 14 =? 0x01) && (GetByte a 13 =? 0) && (GetByte a 12 =? 0).
Definition IsRFC4862 (a : CNetAddr) : bool := has_prefix (chars [0xFE; 0x80; 0; 0; 0; 0; 0; 0]) a.
Definition IsRFC4193 (a : CNetAddr) : bool := Z.land (GetByte a 15) 0xFE =? 0xFC.
Definition IsRFC6145 (a : CNetAddr) : bool := has_prefix (chars [0; 0; 0; 0; 0; 0; 0; 0; 0xFF; 0xFF; 0; 0]) a.
Definition IsRFC4843 (a : CNetAddr) : bool :=
  (GetByte a 15 =? 0x20) && (GetByte a 14 =? 0x01) && (GetByte a 13 =? 0x00) && (Z.land (GetByte a 12) 0xF0 =? 0x10).

Definition IsLocal (a : CNetAddr) : bool :=
  if IsIPv4 a && ((GetByte a 3 =? 127) || (GetByte a 3 =? 0)) then true
  else has_prefix (chars [0; 0; 0; 0; 0; 0; 0; 0; 0; 0; 0; 0; 0; 0; 0; 1]) a.
Definition IsMulticast (a : CNetAddr) : bool := (IsIPv4 a && (Z.land (GetByte a 3) 0xF0 =? 0xE0)) || (GetByte a 15 =? 0xFF).

Definition IsValid (a : CNetAddr) : bool :=
  if has_prefix (drop 3 pchIPv4) a then false
  else if bool_decide (ip a = replicate 16 B#0) then false
  else if IsRFC3849 a then false
  else if IsIPv4 a && (bool_decide (drop 12 (ip a) = chars [255; 255; 255; 255]) || bool_decide (drop 12 (ip a) = chars [0; 0; 0; 0]))
  then false else true.

Definition IsRoutable (a : CNetAddr) : bool :=
  IsValid a && negb (IsRFC1918 a || IsRFC3927 a || IsRFC4862 a || (IsRFC4193 a && negb (IsTor a) && negb (IsI2P a)) ||
    IsRFC4843 a || IsLocal a).

Definition GetNetwork (a : CNetAddr) : Network :=
  if negb (IsRoutable a) then NET_UNROUTABLE
  else if IsIPv4 a then NET_IPV4 else if IsTor a then NET_TOR else if IsI2P a then NET_I2P else NET_IPV6.

(** ** Groups *)
(** The loop and the partial byte: [nBits] bits from byte [nStartByte] on. *)
Definition group_bytes (a : CNetAddr) (nStartByte nBits : nat) : bytes :=
  map (fun i => to_byte (GetByte a (15 - (nStartByte + i)))) (seq 0 (nBits / 8)) ++
  (if (0 <? nBits mod 8)%nat
   then [to_byte (Z.lor (GetByte a (15 - (nStartByte + nBits / 8))) (Z.shiftl 1 (Z.of_nat (nBits mod 8)) - 1))] else []).

Definition GetGroup (a : CNetAddr) : bytes :=
  let group nClass nStartByte nBits := to_byte nClass :: group_bytes a nStartByte nBits in
  if negb (IsRoutable a) then group (net_code NET_UNROUTABLE) 0%nat 0%nat
  else if IsIPv4 a || IsRFC6145 a || IsRFC6052 a then group (net_code NET_IPV4) 12%nat 16%nat
  else if IsRFC3964 a then group (net_code NET_IPV4) 2%nat 16%nat
  else if IsRFC4380 a then
    [to_byte (net_code NET_IPV4); to_byte (Z.lxor (GetByte a 3) 0xFF); to_byte (Z.lxor (GetByte a 2) 0xFF)]
  else if IsTor a then group (net_code NET_TOR) 6%nat 4%nat
  else if IsI2P a then group (net_code NET_I2P) 6%nat 4%nat
  else if (GetByte a 15 =? 0x20) && (GetByte a 14 =? 0x11) && (GetByte a 13 =? 0x04) && (GetByte a 12 =? 0x70)
  then group (net_code NET_IPV6) 0%nat 36%nat
  else group (net_code NET_IPV6) 0%nat 32%nat.

(** ** Reachability *)
Inductive Reachability := REACH_UNREACHABLE | REACH_DEFAULT | REACH_TEREDO | REACH_IPV6_WEAK | REACH_IPV4 | REACH_IPV6_STRONG | REACH_PRIVATE.
(** [Network] with the private extensions. *)
Inductive ExtNetwork := Net (n : Network) | NET_UNKNOWN | NET_TEREDO.
Definition GetExtNetwork (addr : option CNetAddr) : ExtNetwork :=
  match addr with
  | None => NET_UNKNOWN
  | Some a => if IsRFC4380 a then NET_TEREDO else Net (GetNetwork a)
  end.
Definition GetReachabilityFrom (a : CNetAddr) (paddrPartner : option CNetAddr) : Reachability :=
  if negb (IsRoutable a) then REACH_UNREACHABLE else
  let ourNet := GetExtNetwork (Some a) in
  let fTunnel := IsRFC3964 a || IsRFC6052 a || IsRFC6145 a in
  match GetExtNetwork paddrPartner with
  | Net NET_IPV4 => match ourNet with Net NET_IPV4 => REACH_IPV4 | _ => REACH_DEFAULT end
  | Net NET_IPV6 =>
    match ourNet with
    | NET_TEREDO => REACH_TEREDO
    | Net NET_IPV4 => REACH_IPV4
    | Net NET_IPV6 => if fTunnel then REACH_IPV6_WEAK else REACH_IPV6_STRONG
    | _ => REACH_DEFAULT
    end
  | Net NET_TOR => match ourNet with Net NET_IPV4 => REACH_IPV4 | Net NET_TOR => REACH_PRIVATE | _ => REACH_DEFAULT end
  | Net NET_I2P => match ourNet with Net NET_I2P => REACH_PRIVATE | _ => REACH_DEFAULT end
  | NET_TEREDO =>
    match ourNet with
    | NET_TEREDO => REACH_TEREDO | Net NET_IPV6 => REACH_IPV6_WEAK | Net NET_IPV4 => REACH_IPV4 | _ => REACH_DEFAULT
    end
  | NET_UNKNOWN | Net NET_UNROUTABLE =>
    match ourNet with
    | NET_TEREDO => REACH_TEREDO | Net NET_IPV6 => REACH_IPV6_WEAK | Net NET_IPV4 => REACH_IPV4
    | Net NET_I2P => REACH_PRIVATE | Net NET_TOR => REACH_PRIVATE | _ => REACH_DEFAULT
    end
  end.

(** ** Names *)
(** The name without the suffix, when it is longer than the suffix. *)
Definition strip_suffix (suffix strName : bytes) : option bytes :=
  let n := (length strName - length suffix)%nat in
  if (length suffix <? length strName)%nat && bool_decide (drop n strName = suffix) then Some (take n strName) else None.

(** [None] is [false]; the object is then unchanged. *)
Definition SetSpecial (strName : bytes) : option CNetAddr :=
  match strip_suffix (raw ".onion"%text) strName with
  | Some name =>
    let vchAddr := (DecodeBase32 name).1 in
    if (length vchAddr =? 16 - length pchOnionCat)%nat then Some (mk_netaddr (pchOnionCat ++ vchAddr)) else None
  | None =>
    match strip_suffix (raw ".oc.b32.i2p"%text) strName with
    | Some name =>
      let vchAddr := (DecodeBase32 name).1 in
      if (length vchAddr =? 16 - length pchGarliCat)%nat then Some (mk_netaddr (pchOnionCat ++ vchAddr)) else None
    | None => None
    end
  end.

Section names.
(** [getnameinfo] with [NI_NUMERICHOST], when it succeeds. *)
Variable getnameinfo : CNetAddr -> option bytes.

Definition pair (a : CNetAddr) (n : nat) : value := VInt 32 false (Z.lor (Z.shiftl (GetByte a (S n)) 8) (GetByte a n)).
Definition byte_value (a : CNetAddr) (n : nat) : value := VInt 32 false (GetByte a n).
Definition ToStringIP (a : CNetAddr) : error + bytes :=
  if IsTor a then inr (EncodeBase32 (drop 6 (ip a)) ++ raw ".onion"%text)
  else if IsI2P a then inr (EncodeBase32 (drop 6 (ip a)) ++ raw ".oc.b32.i2p"%text)
  else
    match getnameinfo a with
    | Some name => inr name
    | None =>
      if IsIPv4 a then strprintf (raw "%u.%u.%u.%u"%text) (map (byte_value a) [3; 2; 1; 0]%nat)
      else strprintf (raw "%x:%x:%x:%x:%x:%x:%x:%x"%text) (map (pair a) [14; 12; 10; 8; 6; 4; 2; 0]%nat)
    end.
End names.

(** ** Services *)
Definition GetKey (s : CService) : bytes := ip (netaddr s) ++ [to_byte (port s / 0x100); to_byte (Z.land (port s) 0xFF)].
End NetAddr.
Export NetAddr.

(** ** What a group is

    The specification of [GetGroup]: a network and a prefix of an address, in bits. *)
Module NetAddrSpec.
Definition byte_bits (b : byte) : list bool := map (Z.testbit (uchar b)) [7; 6; 5; 4; 3; 2; 1; 0].
Definition bits (l : bytes) : list bool := l ≫= byte_bits.

(** The IPv4 address of an IPv4 host or of the end of a tunnel (6to4, Teredo, translated addresses). *)
Definition linked_v4 (a : CNetAddr) : option bytes :=
  if IsIPv4 a || IsRFC6145 a || IsRFC6052 a then Some (drop 12 (ip a))
  else if IsRFC3964 a then Some (take 4 (drop 2 (ip a)))
  else if IsRFC4380 a then Some (map (fun b => to_byte (Z.lxor (uchar b) 0xFF)) (drop 12 (ip a)))
  else None.

(** The allocation the code gives /36 groups. *)
Definition wide (a : CNetAddr) : bool := bool_decide (take 4 (ip a) = chars [0x20; 0x11; 0x04; 0x70]).

Definition group_prefix (a : CNetAddr) : Network * list bool :=
  if negb (IsRoutable a) then (NET_UNROUTABLE, [])
  else match linked_v4 a with
  | Some v4 => (NET_IPV4, take 16 (bits v4))
  | None =>
    if IsTor a then (NET_TOR, take 4 (bits (drop 6 (ip a))))
    else if IsI2P a then (NET_I2P, take 4 (bits (drop 6 (ip a))))
    else (NET_IPV6, take (if wide a then 36%nat else 32%nat) (bits (ip a)))
  end.
End NetAddrSpec.
Export NetAddrSpec.

Module NetAddrFacts.
(** *** Bits of bytes *)
Definition of_bits (l : list bool) : Z := fold_left (fun z b => 2 * z + Z.b2z b) l 0.
(** A byte from its leading bits, the others set. *)
Definition fill (l : list bool) : byte := to_byte (of_bits (l ++ replicate (8 - length l) true)).

Lemma fill_byte b : fill (byte_bits b) = b.
Proof.
  apply Bytes.uchar_inj. unfold fill. rewrite Bytes.uchar_to_byte. unfold byte_bits. byte_eq b.
Qed.
Lemma byte_bits_fill l : (length l <= 8)%nat -> byte_bits (fill l) = l ++ replicate (8 - length l) true.
Proof. intros Hl. do 9 (destruct l as [|[] l]; [vm_compute; reflexivity| |]); exfalso; clear -Hl; cbn [length] in Hl; lia. Qed.

(** [n] bytes that hold a list of bits. *)
Fixpoint pack (n : nat) (l : list bool) : bytes :=
  match n with O => [] | S n => fill (take 8 l) :: pack n (drop 8 l) end.

Lemma pack_byte n b l : pack (S n) (byte_bits b ++ l) = b :: pack n l.
Proof.
  cbn [pack]. rewrite take_app_length' by reflexivity. rewrite drop_app_length' by reflexivity. by rewrite fill_byte.
Qed.
Lemma pack_last b l : l = byte_bits b -> pack 1 (take 4 l) = [to_byte (Z.lor (uchar b) 15)].
Proof.
  intros ->. cbn [pack]. f_equal. apply Bytes.uchar_inj. unfold fill. rewrite !Bytes.uchar_to_byte. unfold byte_bits. byte_eq b.
Qed.
Lemma length_pack n l : length (pack n l) = n.
Proof. revert l. induction n as [|n IH]; intros l; cbn [pack length]; by rewrite ?IH. Qed.

Lemma bits_pack n l : (length l <= 8 * n)%nat -> bits (pack n l) = l ++ replicate (8 * n - length l) true.
Proof.
  revert l. induction n as [|n IH]; intros l Hl.
  { destruct l; [reflexivity|cbn in Hl; lia]. }
  cbn [pack]. change (bits (?x :: ?r)) with (byte_bits x ++ bits r).
  rewrite byte_bits_fill by (rewrite length_take; lia). rewrite IH by (rewrite length_drop; lia).
  rewrite length_take, length_drop. destruct (decide (8 <= length l)%nat).
  - rewrite Nat.min_l, Nat.sub_diag by lia. cbn [replicate]. rewrite app_nil_r, app_assoc, take_drop.
    f_equal. f_equal. lia.
  - rewrite take_ge, drop_ge, Nat.min_r by lia. rewrite <- app_assoc. cbn [app]. f_equal.
    rewrite <- replicate_add. f_equal. lia.
Qed.
Lemma pack_inj n l l' :
  (length l <= 8 * n)%nat -> length l = length l' -> pack n l = pack n l' -> l = l'.
Proof.
  intros Hl Hlen Hp%(f_equal bits). rewrite !bits_pack in Hp by lia. by apply app_inj_1 in Hp as [-> _].
Qed.

(** *** The bytes of a group *)
Definition group_code (g : Network * list bool) : bytes := to_byte (net_code g.1) :: pack ((length g.2 + 7) / 8) g.2.
Definition group_size (g : Network * list bool) : Prop :=
  match g.1 with
  | NET_UNROUTABLE => length g.2 = 0%nat
  | NET_IPV4 => length g.2 = 16%nat
  | NET_TOR | NET_I2P => length g.2 = 4%nat
  | NET_IPV6 => length g.2 = 32%nat \/ length g.2 = 36%nat
  end.

Lemma group_code_inj g g' : group_size g -> group_size g' -> group_code g = group_code g' -> g = g'.
Proof.
  destruct g as [n l], g' as [n' l']. unfold group_code, group_size. cbn [fst snd]. intros Hg Hg' [= Hn Hp].
  assert (n = n') as <- by (destruct n, n'; vm_compute in Hn; congruence).
  pose proof (f_equal length Hp) as Hlen. rewrite !length_pack in Hlen.
  assert (length l = length l') as Hll.
  { destruct n; [congruence..| |congruence|congruence].
    destruct Hg as [E|E], Hg' as [E'|E']; rewrite E, E' in *; [reflexivity|discriminate Hlen..|reflexivity]. }
  f_equal. rewrite <- Hlen in Hp. apply pack_inj in Hp; [done| |done].
  change (fst (Nat.divmod (length l + 7) 7 0 7)) with ((length l + 7) / 8)%nat.
  pose proof (Nat.div_mod (length l + 7) 8 ltac:(lia)). pose proof (Nat.mod_upper_bound (length l + 7) 8 ltac:(lia)). lia.
Qed.

(** *** The group is the code of the prefix *)
Lemma sixteen (l : bytes) : length l = 16%nat ->
  exists b0 b1 b2 b3 b4 b5 b6 b7 b8 b9 b10 b11 b12 b13 b14 b15,
    l = [b0; b1; b2; b3; b4; b5; b6; b7; b8; b9; b10; b11; b12; b13; b14; b15].
Proof. intros Hl. do 16 (destruct l as [|? l]; [discriminate|]). destruct l; [|discriminate]. by repeat eexists. Qed.

Lemma group_bytes_whole a start n :
  group_bytes a start (8 * n) = map (fun i => to_byte (GetByte a (15 - (start + i)))) (seq 0 n).
Proof.
  unfold group_bytes. rewrite Nat.mul_comm, Nat.div_mul, Nat.Div0.mod_mul by lia. apply app_nil_r.
Qed.

Ltac at_bytes :=
  match goal with
  | H : length (ip ?a) = 16%nat |- _ =>
    destruct a as [l]; cbn [ip] in *;
    destruct (sixteen l H) as (b0 & b1 & b2 & b3 & b4 & b5 & b6 & b7 & b8 & b9 & b10 & b11 & b12 & b13 & b14 & b15 & ->)
  end.

Lemma prefix_size a : length (ip a) = 16%nat -> group_size (group_prefix a).
Proof.
  intros Hl. unfold group_prefix, group_size. destruct (IsRoutable a); cbn [negb fst snd length]; [|done].
  destruct (linked_v4 a) as [v|] eqn:Hv; cbn [fst snd].
  - assert (length v = 4%nat) as Hlen.
    { unfold linked_v4 in Hv. repeat case_match; simplify_eq; rewrite ?length_map, ?length_take, ?length_drop; lia. }
    destruct v as [|? [|? [|? [|? []]]]]; try discriminate. reflexivity.
  - clear Hv. destruct (IsTor a), (IsI2P a), (wide a); at_bytes; cbn [fst snd]; first [reflexivity|left; reflexivity|right; reflexivity].
Qed.

Lemma byte_eqb b z : 0 <= z < 256 -> (uchar b =? z) = bool_decide (b = to_byte z).
Proof.
  intros Hz. destruct (Z.eqb_spec (uchar b) z) as [<-|Hn].
  - by rewrite Bytes.to_byte_uchar, bool_decide_true.
  - rewrite bool_decide_false; [done|]. intros ->. by rewrite Bytes.uchar_to_byte_small in Hn.
Qed.

Lemma wide_bytes a : length (ip a) = 16%nat ->
  (GetByte a 15 =? 0x20) && (GetByte a 14 =? 0x11) && (GetByte a 13 =? 0x04) && (GetByte a 12 =? 0x70) = wide a.
Proof.
  intros Hl. at_bytes. unfold wide, GetByte. cbn [ip nth Nat.sub take]. rewrite !byte_eqb by lia.
  rewrite <- !bool_decide_and. apply bool_decide_ext. unfold chars. cbn [map]. naive_solver.
Qed.

(** The bytes the code takes are the packed bits of the prefix. *)
Lemma pack_two b0 b1 l : pack 2 (take 16 (bits (b0 :: b1 :: l))) = [b0; b1].
Proof.
  change (take 16 (bits (b0 :: b1 :: l))) with (byte_bits b0 ++ byte_bits b1 ++ take 0 (bits l)).
  by rewrite !pack_byte.
Qed.
Lemma pack_nibble b l : pack 1 (take 4 (bits (b :: l))) = [to_byte (Z.lor (uchar b) 15)].
Proof. change (take 4 (bits (b :: l))) with (take 4 (byte_bits b)). by apply pack_last. Qed.
Lemma pack_four b0 b1 b2 b3 l : pack 4 (take 32 (bits (b0 :: b1 :: b2 :: b3 :: l))) = [b0; b1; b2; b3].
Proof.
  change (take 32 (bits (b0 :: b1 :: b2 :: b3 :: l)))
    with (byte_bits b0 ++ byte_bits b1 ++ byte_bits b2 ++ byte_bits b3 ++ take 0 (bits l)).
  by rewrite !pack_byte.
Qed.
Lemma pack_wide b0 b1 b2 b3 b4 l :
  pack 5 (take 36 (bits (b0 :: b1 :: b2 :: b3 :: b4 :: l))) = [b0; b1; b2; b3; to_byte (Z.lor (uchar b4) 15)].
Proof.
  change (take 36 (bits (b0 :: b1 :: b2 :: b3 :: b4 :: l)))
    with (byte_bits b0 ++ byte_bits b1 ++ byte_bits b2 ++ byte_bits b3 ++ take 4 (byte_bits b4)).
  rewrite !pack_byte. by rewrite (pack_last b4).
Qed.

Lemma group_two a start : group_bytes a start 16 = [to_byte (GetByte a (15 - start)); to_byte (GetByte a (15 - S start))].
Proof. transitivity (group_bytes a start (8 * 2)); [reflexivity|]. rewrite group_bytes_whole. cbn [seq map]. by rewrite Nat.add_0_r, Nat.add_1_r. Qed.
Lemma group_nibble a start : group_bytes a start 4 = [to_byte (Z.lor (GetByte a (15 - start)) 15)].
Proof. unfold group_bytes. cbn. by rewrite Nat.add_0_r. Qed.

Lemma GetGroup_code a : length (ip a) = 16%nat -> GetGroup a = group_code (group_prefix a).
Proof.
  intros Hl. unfold GetGroup, group_prefix, group_code, linked_v4. rewrite wide_bytes by done.
  destruct (IsRoutable a); cbn [negb fst snd]; [|reflexivity].
  destruct (IsIPv4 a || IsRFC6145 a || IsRFC6052 a); cbn [fst snd].
  { rewrite group_two. at_bytes. cbn [drop ip]. f_equal. unfold GetByte. cbn [ip nth Nat.sub].
    change ((length (take 16 (bits [b12; b13; b14; b15])) + 7) / 8)%nat with 2%nat. by rewrite pack_two, !Bytes.to_byte_uchar. }
  destruct (IsRFC3964 a); cbn [fst snd].
  { rewrite group_two. at_bytes. cbn [drop take ip]. f_equal. unfold GetByte. cbn [ip nth Nat.sub].
    change ((length (take 16 (bits [b2; b3; b4; b5])) + 7) / 8)%nat with 2%nat. by rewrite pack_two, !Bytes.to_byte_uchar. }
  destruct (IsRFC4380 a); cbn [fst snd].
  { at_bytes. cbn [drop ip map]. f_equal. unfold GetByte. cbn [ip nth Nat.sub]. symmetry. apply pack_two. }
  destruct (IsTor a); cbn [fst snd]; [|destruct (IsI2P a); cbn [fst snd]; [|destruct (wide a)]]; rewrite ?group_nibble; at_bytes; f_equal.
  - symmetry. apply pack_nibble.
  - symmetry. apply pack_nibble.
  - etransitivity; [|symmetry; apply pack_wide]. unfold group_bytes, GetByte. cbn [Nat.div Nat.divmod Nat.modulo fst snd Nat.ltb Nat.leb seq map app Nat.add Nat.sub nth ip]. by rewrite ?Bytes.to_byte_uchar.
  - etransitivity; [|symmetry; apply pack_four]. unfold group_bytes, GetByte. cbn [Nat.div Nat.divmod Nat.modulo fst snd Nat.ltb Nat.leb seq map app Nat.add Nat.sub nth ip]. by rewrite ?Bytes.to_byte_uchar.
Qed.

(** Two addresses are in one group exactly when they are on the same network and agree on the bits
    that identify an operator there: a /16 of the IPv4 address, the address at the other end for a
    6to4, Teredo or translated address; four bits of a hidden service; a /32 of IPv6 and a /36 of one
    wide allocation. All unroutable addresses share a group of their own. *)
Theorem GetGroup_prefix a b :
  length (ip a) = 16%nat -> length (ip b) = 16%nat ->
  (GetGroup a = GetGroup b <-> group_prefix a = group_prefix b).
Proof.
  intros Ha Hb. rewrite !GetGroup_code by done. split; [|by intros ->].
  apply group_code_inj; by apply prefix_size.
Qed.

(** 12.34.9.9, and the Teredo client behind 12.34.56.78. *)
Definition plain_host : CNetAddr := mk_netaddr (pchIPv4 ++ chars [12; 34; 9; 9]).
Definition teredo_host : CNetAddr :=
  mk_netaddr (chars [0x20; 0x01; 0; 0; 1; 2; 3; 4; 5; 6; 7; 8; 0xFF - 12; 0xFF - 34; 0xFF - 56; 0xFF - 78]).
Lemma GetGroup_prefix_witness : GetGroup plain_host = GetGroup teredo_host.
Proof. apply (GetGroup_prefix plain_host teredo_host); vm_compute; reflexivity. Defined.

(** *** Names of hidden services *)
Lemma strip_suffix_app suffix name : name <> [] -> strip_suffix suffix (name ++ suffix) = Some name.
Proof.
  intros Hn. unfold strip_suffix. rewrite length_app.
  replace (length name + length suffix - length suffix)%nat with (length name) by lia.
  rewrite drop_app_length, take_app_length, bool_decide_true by done.
  destruct name; [done|]. cbn [length]. by rewrite (proj2 (Nat.ltb_lt _ _)) by lia.
Qed.
(** A text that ends otherwise has no such suffix. *)
Lemma strip_suffix_other suffix l tail :
  (length suffix <= length tail)%nat -> drop (length tail - length suffix) tail <> suffix ->
  strip_suffix suffix (l ++ tail) = None.
Proof.
  intros Hl Hd. unfold strip_suffix. rewrite length_app, drop_app_ge by lia. rewrite bool_decide_false.
  - by rewrite andb_false_r.
  - by replace (length l + length tail - length suffix - length l)%nat with (length tail - length suffix)%nat by lia.
Qed.

Lemma prefix_split prefix a : has_prefix prefix a = true -> ip a = prefix ++ drop (length prefix) (ip a).
Proof. unfold has_prefix. intros H%bool_decide_eq_true. rewrite <- (take_drop (length prefix) (ip a)) at 1. by rewrite H. Qed.

Lemma EncodeBase32_nonempty l : l <> [] -> EncodeBase32 l <> [].
Proof. intros Hl He. pose proof (Base64Facts.DecodeBase32_Encode l) as Hd. rewrite He in Hd. vm_compute in Hd. by simplify_eq. Qed.

(** A Tor address is read back from the name it is printed as. An I2P address is not: its name is
    read as the Tor address with the same last ten bytes, because [SetSpecial] copies the prefix of
    Tor for it as well. *)
Theorem special_names getnameinfo a :
  length (ip a) = 16%nat ->
  (IsTor a = true ->
   ToStringIP getnameinfo a = inr (EncodeBase32 (drop 6 (ip a)) ++ raw ".onion"%text) /\
   SetSpecial (EncodeBase32 (drop 6 (ip a)) ++ raw ".onion"%text) = Some a) /\
  (IsI2P a = true ->
   ToStringIP getnameinfo a = inr (EncodeBase32 (drop 6 (ip a)) ++ raw ".oc.b32.i2p"%text) /\
   exists b, SetSpecial (EncodeBase32 (drop 6 (ip a)) ++ raw ".oc.b32.i2p"%text) = Some b /\
     IsTor b = true /\ IsI2P b = false /\ drop 6 (ip b) = drop 6 (ip a)).
Proof.
  intros Hl. assert (length (drop 6 (ip a)) = 10%nat) as Hd by (rewrite length_drop; lia).
  assert (EncodeBase32 (drop 6 (ip a)) <> []) as Hne by (apply EncodeBase32_nonempty; by destruct (drop 6 (ip a))).
  unfold ToStringIP, SetSpecial. split; intros Hp; rewrite ?Hp.
  - split; [done|]. rewrite strip_suffix_app, Base64Facts.DecodeBase32_Encode by done. cbn [fst]. rewrite Hd.
    change (10 =? _)%nat with true. cbn match. f_equal. destruct a as [l]. cbn [ip] in *. f_equal.
    symmetry. apply (prefix_split _ (mk_netaddr l) Hp).
  - assert (IsTor a = false) as ->.
    { apply prefix_split in Hp. unfold IsTor, has_prefix. rewrite Hp. apply bool_decide_eq_false. by vm_compute. }
    split; [done|]. rewrite strip_suffix_other, strip_suffix_app, Base64Facts.DecodeBase32_Encode by first [done|vm_compute; lia].
    cbn [fst]. rewrite Hd. change (10 =? _)%nat with true. cbn match. eexists. split; [reflexivity|].
    unfold IsTor, IsI2P, has_prefix. cbn [ip]. rewrite drop_app_length'; [|done]. split; [|split; [|done]].
    + by apply bool_decide_eq_true.
    + by apply bool_decide_eq_false.
Qed.

(** The address of src/src/test/netbase_tests.cpp, and its I2P namesake. *)
Definition onion_host : CNetAddr := mk_netaddr (pchOnionCat ++ chars [0xED; 0xB1; 0x08; 0xE4; 0x35; 0x88; 0xE5; 0x46; 0x35; 0xCA]).
Example onion_host_name : raw "5wyqrzbvrdsumnok.onion"%text = EncodeBase32 (drop 6 (ip onion_host)) ++ raw ".onion"%text.
Proof. vm_compute. reflexivity. Qed.
Definition i2p_host : CNetAddr := mk_netaddr (pchGarliCat ++ drop 6 (ip onion_host)).
Lemma special_names_witness :
  SetSpecial (raw "5wyqrzbvrdsumnok.onion"%text) = Some onion_host /\
  exists b, SetSpecial (raw "5wyqrzbvrdsumnok.oc.b32.i2p"%text) = Some b /\ IsI2P b = false.
Proof.
  split.
  - destruct (special_names (fun _ => None) onion_host ltac:(vm_compute; reflexivity)) as [H _]. apply H. vm_compute. reflexivity.
  - destruct (special_names (fun _ => None) i2p_host ltac:(vm_compute; reflexivity)) as [_ H].
    destruct H as [_ (b & Hb & _ & Hi & _)]; [vm_compute; reflexivity|]. exists b. split; [exact Hb|exact Hi].
Defined.
End NetAddrFacts.
