(* ===== verification/AddrMan.v ===== *)
(** * AddrMan: the table of known addresses (src/src/addrman.h, addrman.cpp)

    [CAddrMan] with its two tables of buckets and its indexes, operation by operation, the
    consistency check the code runs on itself when compiled with DEBUG_ADDRMAN, and sequences of
    operations.  An operation returns [None] where an assertion of the code fails, where a counter of
    type [int] would overflow and where a reference to a deleted entry would be used; AddrManFacts
    shows that none of these happens. *)

From stdpp Require Import sorting.
From S2P Require Import Prelude Serialize Crypto Keys Core Catalog Format FormatFacts Base64 NetAddr.

(** [CAddrInfo]. *)
Record CAddrInfo := mk_info {
  address : CAddress;
  source : CNetAddr;
  nLastSuccess : Z;
  nAttempts : Z;
  nRefCount : Z;
  fInTried : bool;
  nRandomPos : Z
}.

(** [CAddrMan]. A slot of a bucket that holds -1 is absent from [vvTried] or [vvNew]; a slot is its
    bucket and its position there. *)
Record CAddrMan := mk_man {
  nKey : Z;
  nIdCount : Z;
  mapInfo : gmap Z CAddrInfo;
  mapAddr : gmap CNetAddr Z;
  vRandom : list Z;
  nTried : Z;
  vvTried : gmap (Z * Z) Z;
  nNew : Z;
  vvNew : gmap (Z * Z) Z
}.

Module AddrMan.
Definition ADDRMAN_TRIED_BUCKET_COUNT : Z := 256.
Definition ADDRMAN_NEW_BUCKET_COUNT : Z := 1024.
Definition ADDRMAN_BUCKET_SIZE : Z := 64.
Definition ADDRMAN_TRIED_BUCKETS_PER_GROUP : Z := 8.
Definition ADDRMAN_NEW_BUCKETS_PER_SOURCE_GROUP : Z := 64.
Definition ADDRMAN_NEW_BUCKETS_PER_ADDRESS : Z := 8.
Definition ADDRMAN_HORIZON_DAYS : Z := 30.
Definition ADDRMAN_RETRIES : Z := 3.
Definition ADDRMAN_MAX_FAILURES : Z := 10.
Definition ADDRMAN_MIN_FAIL_DAYS : Z := 7.
Definition ADDRMAN_GETADDR_MAX_PCT : Z := 23.
Definition ADDRMAN_GETADDR_MAX : Z := 2500.

Definition MAX_ID : Z := 2 ^ 31 - 1.

(** [GetRand] (util.cpp): [nRand] is the draw of [RAND_bytes] that leaves the loop. *)
Definition GetRand (nMax nRand : Z) : Z := if nMax =? 0 then 0 else nRand mod nMax.
Definition GetRandInt (nMax nRand : Z) : Z := GetRand nMax nRand.

(** ** Fields *)
Definition addr_of (i : CAddrInfo) : CNetAddr := netaddr (service (address i)).
Definition i_nTime (i : CAddrInfo) : Z := a_nTime (address i).
Definition i_nLastTry (i : CAddrInfo) : Z := nLastTry (address i).

Definition set_address (a : CAddress) (i : CAddrInfo) : CAddrInfo :=
  mk_info a (source i) (nLastSuccess i) (nAttempts i) (nRefCount i) (fInTried i) (nRandomPos i).
Definition set_nTime (t : Z) (i : CAddrInfo) : CAddrInfo :=
  set_address (mk_address (service (address i)) (nServices (address i)) t (nLastTry (address i))) i.
Definition set_nLastTry (t : Z) (i : CAddrInfo) : CAddrInfo :=
  set_address (mk_address (service (address i)) (nServices (address i)) (i_nTime i) t) i.
Definition set_nServices (v : Z) (i : CAddrInfo) : CAddrInfo :=
  set_address (mk_address (service (address i)) v (i_nTime i) (nLastTry (address i))) i.
Definition set_nLastSuccess (t : Z) (i : CAddrInfo) : CAddrInfo :=
  mk_info (address i) (source i) t (nAttempts i) (nRefCount i) (fInTried i) (nRandomPos i).
Definition set_nAttempts (n : Z) (i : CAddrInfo) : CAddrInfo :=
  mk_info (address i) (source i) (nLastSuccess i) n (nRefCount i) (fInTried i) (nRandomPos i).
Definition set_nRefCount (n : Z) (i : CAddrInfo) : CAddrInfo :=
  mk_info (address i) (source i) (nLastSuccess i) (nAttempts i) n (fInTried i) (nRandomPos i).
Definition set_fInTried (b : bool) (i : CAddrInfo) : CAddrInfo :=
  mk_info (address i) (source i) (nLastSuccess i) (nAttempts i) (nRefCount i) b (nRandomPos i).
Definition set_nRandomPos (p : Z) (i : CAddrInfo) : CAddrInfo :=
  mk_info (address i) (source i) (nLastSuccess i) (nAttempts i) (nRefCount i) (fInTried i) p.

Definition set_mapInfo (m : gmap Z CAddrInfo) (s : CAddrMan) : CAddrMan :=
  mk_man (nKey s) (nIdCount s) m (mapAddr s) (vRandom s) (nTried s) (vvTried s) (nNew s) (vvNew s).
Definition set_mapAddr (m : gmap CNetAddr Z) (s : CAddrMan) : CAddrMan :=
  mk_man (nKey s) (nIdCount s) (mapInfo s) m (vRandom s) (nTried s) (vvTried s) (nNew s) (vvNew s).
Definition set_vRandom (v : list Z) (s : CAddrMan) : CAddrMan :=
  mk_man (nKey s) (nIdCount s) (mapInfo s) (mapAddr s) v (nTried s) (vvTried s) (nNew s) (vvNew s).
Definition set_tried (n : Z) (vv : gmap (Z * Z) Z) (s : CAddrMan) : CAddrMan :=
  mk_man (nKey s) (nIdCount s) (mapInfo s) (mapAddr s) (vRandom s) n vv (nNew s) (vvNew s).
Definition set_nNew (n : Z) (s : CAddrMan) : CAddrMan :=
  mk_man (nKey s) (nIdCount s) (mapInfo s) (mapAddr s) (vRandom s) (nTried s) (vvTried s) n (vvNew s).
Definition set_vvNew (vv : gmap (Z * Z) Z) (s : CAddrMan) : CAddrMan :=
  mk_man (nKey s) (nIdCount s) (mapInfo s) (mapAddr s) (vRandom s) (nTried s) (vvTried s) (nNew s) vv.
(** An assignment through a reference to an entry. *)
Definition update (n : Z) (f : CAddrInfo -> CAddrInfo) (s : CAddrMan) : CAddrMan := set_mapInfo (alter f n (mapInfo s)) s.

(** ** Entries *)
(** The constructor, with [Init]. *)
Definition new_info (addrIn : CAddress) (addrSource : CNetAddr) : CAddrInfo :=
  mk_info (mk_address (service addrIn) (nServices addrIn) (a_nTime addrIn) 0) addrSource 0 0 0 false (-1).

(** [nLastTry && ...]: a number is true when it is not 0. *)
Definition IsTerrible (i : CAddrInfo) (nNow : Z) : bool :=
  if negb (i_nLastTry i =? 0) && (nNow - 60 <=? i_nLastTry i) then false
  else if nNow + 10 * 60 <? i_nTime i then true
  else if (i_nTime i =? 0) || (ADDRMAN_HORIZON_DAYS * 24 * 60 * 60 <? nNow - i_nTime i) then true
  else if (nLastSuccess i =? 0) && (ADDRMAN_RETRIES <=? nAttempts i) then true
  else if (ADDRMAN_MIN_FAIL_DAYS * 24 * 60 * 60 <? nNow - nLastSuccess i) && (ADDRMAN_MAX_FAILURES <=? nAttempts i) then true
  else false.

Section addrman.
Context `{Digests}.

(** ** Buckets *)
(** [(CHashWriter(SER_GETHASH, 0) << nKey << ...).GetHash().GetCheapHash()]; the fields written after
    the key are given as their bytes. *)
Definition cheap_hash (key : Z) (fields : bytes) : Z :=
  u64 (CHashWriter_GetHash (CHashWriter_write (CHashWriter_write [] (le_bytes 32 key)) fields)).
(** A [std::vector<unsigned char>], an [uint64_t], an [int] and a [char] as they are written. *)
Definition put_vector (v : bytes) : bytes := @Serialize.put _ ser_bytes v.
Definition put_u64 (n : Z) : bytes := le_bytes 8 n.
Definition put_nBucket (n : Z) : bytes := le_bytes 4 n.
Definition put_char (c : bool) : bytes := if c then raw "N"%text else raw "K"%text.

Definition GetTriedBucket (i : CAddrInfo) (key : Z) : Z :=
  let hash1 := cheap_hash key (put_vector (GetKey (service (address i)))) in
  let hash2 := cheap_hash key (put_vector (GetGroup (addr_of i)) ++ put_u64 (hash1 mod ADDRMAN_TRIED_BUCKETS_PER_GROUP)) in
  hash2 mod ADDRMAN_TRIED_BUCKET_COUNT.

Definition GetNewBucket (i : CAddrInfo) (key : Z) (src : CNetAddr) : Z :=
  let vchSourceGroupKey := GetGroup src in
  let hash1 := cheap_hash key (put_vector (GetGroup (addr_of i)) ++ put_vector vchSourceGroupKey) in
  let hash2 := cheap_hash key (put_vector vchSourceGroupKey ++ put_u64 (hash1 mod ADDRMAN_NEW_BUCKETS_PER_SOURCE_GROUP)) in
  hash2 mod ADDRMAN_NEW_BUCKET_COUNT.

Definition GetBucketPosition (i : CAddrInfo) (key : Z) (fNew : bool) (nBucket : Z) : Z :=
  let hash1 := cheap_hash key (put_char fNew ++ put_nBucket nBucket ++ put_vector (GetKey (service (address i)))) in
  hash1 mod ADDRMAN_BUCKET_SIZE.

(** ** Operations on the indexes *)
Definition Find (a : CNetAddr) (s : CAddrMan) : option (Z * CAddrInfo) :=
  match mapAddr s !! a with
  | None => None
  | Some nId => match mapInfo s !! nId with Some i => Some (nId, i) | None => None end
  end.

Definition Create (addr : CAddress) (addrSource : CNetAddr) (s : CAddrMan) : option (Z * CAddrMan) :=
  if MAX_ID <=? nIdCount s then None else
  let nId := nIdCount s in
  let info := set_nRandomPos (zlen (vRandom s)) (new_info addr addrSource) in
  Some (nId, mk_man (nKey s) (nId + 1) (<[nId := info]> (mapInfo s)) (<[netaddr (service addr) := nId]> (mapAddr s))
    (vRandom s ++ [nId]) (nTried s) (vvTried s) (nNew s) (vvNew s)).

(** The positions are [unsigned int]. *)
Definition SwapRandom (nRndPos1 nRndPos2 : Z) (s : CAddrMan) : option CAddrMan :=
  if nRndPos1 =? nRndPos2 then Some s
  else if negb ((nRndPos1 <? zlen (vRandom s)) && (nRndPos2 <? zlen (vRandom s))) then None
  else
    nId1 ← at_ (vRandom s) nRndPos1; nId2 ← at_ (vRandom s) nRndPos2;
    match mapInfo s !! nId1, mapInfo s !! nId2 with
    | Some _, Some _ =>
      Some (set_vRandom (<[Z.to_nat nRndPos2 := nId1]> (<[Z.to_nat nRndPos1 := nId2]> (vRandom s)))
        (update nId2 (set_nRandomPos nRndPos1) (update nId1 (set_nRandomPos nRndPos2) s)))
    | _, _ => None
    end.

Definition Delete (nId : Z) (s : CAddrMan) : option CAddrMan :=
  match mapInfo s !! nId with
  | None => None
  | Some info =>
    if fInTried info then None
    else if negb (nRefCount info =? 0) then None
    else
      s ← SwapRandom (u32 (nRandomPos info)) (u32 (zlen (vRandom s) - 1)) s;
      match vRandom s with
      | [] => None
      | v => Some (set_nNew (nNew s - 1) (set_mapInfo (delete nId (mapInfo s))
               (set_mapAddr (delete (addr_of info) (mapAddr s)) (set_vRandom (pop_back v) s))))
      end
  end.

(** An id without an entry gets one whose count is 0, and the assertion fails. *)
Definition ClearNew (nUBucket nUBucketPos : Z) (s : CAddrMan) : option CAddrMan :=
  match vvNew s !! (nUBucket, nUBucketPos) with
  | None => Some s
  | Some nIdDelete =>
    match mapInfo s !! nIdDelete with
    | None => None
    | Some infoDelete =>
      if negb (0 <? nRefCount infoDelete) then None else
      let count := nRefCount infoDelete - 1 in
      let s := set_vvNew (delete (nUBucket, nUBucketPos) (vvNew s)) (update nIdDelete (set_nRefCount count) s) in
      if count =? 0 then Delete nIdDelete s else Some s
    end
  end.

(** ** Between the tables *)
(** One round of the loop over the new buckets in [MakeTried]. *)
Definition unlink (nId : Z) (info : CAddrInfo) (s : CAddrMan) (bucket : Z) : CAddrMan :=
  let pos := GetBucketPosition info (nKey s) true bucket in
  if bool_decide (vvNew s !! (bucket, pos) = Some nId)
  then set_vvNew (delete (bucket, pos) (vvNew s)) (update nId (fun i => set_nRefCount (nRefCount i - 1) i) s)
  else s.
Definition buckets : list Z := map Z.of_nat (seq 0 1024).

(** The tried entry in the slot goes back to the new table. *)
Definition evict_tried (slot : Z * Z) (s : CAddrMan) : option CAddrMan :=
  match vvTried s !! slot with
  | None => Some s
  | Some nIdEvict =>
    match mapInfo s !! nIdEvict with
    | None => None
    | Some infoOld =>
      let s := set_tried (nTried s - 1) (delete slot (vvTried s)) (update nIdEvict (set_fInTried false) s) in
      let nUBucket := GetNewBucket infoOld (nKey s) (source infoOld) in
      let nUBucketPos := GetBucketPosition infoOld (nKey s) true nUBucket in
      s ← ClearNew nUBucket nUBucketPos s;
      match vvNew s !! (nUBucket, nUBucketPos), mapInfo s !! nIdEvict with
      | None, Some _ =>
        Some (set_nNew (nNew s + 1) (set_vvNew (<[(nUBucket, nUBucketPos) := nIdEvict]> (vvNew s))
          (update nIdEvict (set_nRefCount 1) s)))
      | _, _ => None
      end
    end
  end.

(** What follows the loop: the entry, now in no new bucket, goes to its tried bucket. *)
Definition move_tried (nId : Z) (s : CAddrMan) : option CAddrMan :=
  let s := set_nNew (nNew s - 1) s in
  info ← mapInfo s !! nId;
  if negb (nRefCount info =? 0) then None else
  let nKBucket := GetTriedBucket info (nKey s) in
  let nKBucketPos := GetBucketPosition info (nKey s) false nKBucket in
  s ← evict_tried (nKBucket, nKBucketPos) s;
  match vvTried s !! (nKBucket, nKBucketPos), mapInfo s !! nId with
  | None, Some _ =>
    Some (update nId (set_fInTried true) (set_tried (nTried s + 1) (<[(nKBucket, nKBucketPos) := nId]> (vvTried s)) s))
  | _, _ => None
  end.

Definition MakeTried (nId : Z) (s : CAddrMan) : option CAddrMan :=
  info ← mapInfo s !! nId; move_tried nId (fold_left (unlink nId info) buckets s).

(** ** The operations of the interface *)
(** [info != addr]: another port is another service. *)
Definition same_service (i : CAddrInfo) (addr : CService) : bool := bool_decide (service (address i) = addr).

Definition in_bucket (nId : Z) (info : CAddrInfo) (s : CAddrMan) (nB : Z) : bool :=
  bool_decide (vvNew s !! (nB, GetBucketPosition info (nKey s) true nB) = Some nId).
Definition Good_ (addr : CService) (time draw : Z) (s : CAddrMan) : option CAddrMan :=
  match Find (netaddr addr) s with
  | None => Some s
  | Some (nId, info) =>
    if negb (same_service info addr) then Some s else
    let info := set_nAttempts 0 (set_nTime (u32 time) (set_nLastTry time (set_nLastSuccess time info))) in
    let s := set_mapInfo (<[nId := info]> (mapInfo s)) s in
    if fInTried info then Some s else
    let nRnd := GetRandInt ADDRMAN_NEW_BUCKET_COUNT draw in
    if existsb (fun n => in_bucket nId info s ((n + nRnd) mod ADDRMAN_NEW_BUCKET_COUNT)) buckets
    then MakeTried nId s else Some s
  end.

(** The entry takes the slot. *)
Definition take_slot (nId nUBucket nUBucketPos : Z) (s : CAddrMan) : option CAddrMan :=
  s ← ClearNew nUBucket nUBucketPos s;
  pinfo ← mapInfo s !! nId;
  Some (set_vvNew (<[(nUBucket, nUBucketPos) := nId]> (vvNew s)) (update nId (set_nRefCount (nRefCount pinfo + 1)) s)).

(** Enters [nId] in the new bucket that its address and its source select. [nNow] is the time at
    which the entry that is there is judged. *)
Definition enter_new (nId : Z) (src : CNetAddr) (nNow : Z) (s : CAddrMan) : option CAddrMan :=
  pinfo ← mapInfo s !! nId;
  let nUBucket := GetNewBucket pinfo (nKey s) src in
  let nUBucketPos := GetBucketPosition pinfo (nKey s) true nUBucket in
  match vvNew s !! (nUBucket, nUBucketPos) with
  | None => take_slot nId nUBucket nUBucketPos s
  | Some nExisting =>
    if nExisting =? nId then Some s else
    infoExisting ← mapInfo s !! nExisting;
    if IsTerrible infoExisting nNow || ((1 <? nRefCount infoExisting) && (nRefCount pinfo =? 0)) then take_slot nId nUBucket nUBucketPos s
    else if nRefCount pinfo =? 0 then Delete nId s else Some s
  end.

(** What [Add_] does to an entry it knows. *)
Definition refresh (addr : CAddress) (nTimePenalty nNow : Z) (i : CAddrInfo) : CAddrInfo :=
  let fCurrentlyOnline := nNow - a_nTime addr <? 24 * 60 * 60 in
  let nUpdateInterval := if fCurrentlyOnline then 60 * 60 else 24 * 60 * 60 in
  let i := if negb (a_nTime addr =? 0) && ((i_nTime i =? 0) || (i_nTime i <? a_nTime addr - nUpdateInterval - nTimePenalty))
           then set_nTime (u32 (Z.max 0 (a_nTime addr - nTimePenalty))) i else i in
  set_nServices (Z.lor (nServices (address i)) (nServices addr)) i.

(** The state and the result; [nNow] and [nNow'] are the times of its two readings of the clock. *)
Definition Add_ (addr : CAddress) (src : CNetAddr) (nTimePenalty nNow nNow' draw : Z) (s : CAddrMan) : option (bool * CAddrMan) :=
  if negb (IsRoutable (netaddr (service addr))) then Some (false, s) else
  match Find (netaddr (service addr)) s with
  | Some (nId, info) =>
    let info := refresh addr nTimePenalty nNow info in
    let s := set_mapInfo (<[nId := info]> (mapInfo s)) s in
    if (a_nTime addr =? 0) || (negb (i_nTime info =? 0) && (a_nTime addr <=? i_nTime info)) then Some (false, s)
    else if fInTried info then Some (false, s)
    else if nRefCount info =? ADDRMAN_NEW_BUCKETS_PER_ADDRESS then Some (false, s)
    else
      let nFactor := 2 ^ Z.max 0 (nRefCount info) in
      if (1 <? nFactor) && negb (GetRandInt nFactor draw =? 0) then Some (false, s)
      else s ← enter_new nId src nNow' s; Some (false, s)
  | None =>
    '(nId, s) ← Create addr src s;
    let s := update nId (fun i => set_nTime (u32 (Z.max 0 (i_nTime i - nTimePenalty))) i) s in
    s ← enter_new nId src nNow' (set_nNew (nNew s + 1) s); Some (true, s)
  end.

Definition Attempt_ (addr : CService) (time : Z) (s : CAddrMan) : option CAddrMan :=
  match Find (netaddr addr) s with
  | None => Some s
  | Some (nId, info) =>
    if negb (same_service info addr) then Some s
    else
      let info := set_nAttempts (i32 (nAttempts info + 1)) (set_nLastTry time info) in
      Some (set_mapInfo (<[nId := info]> (mapInfo s)) s)
  end.

Definition Connected_ (addr : CService) (time : Z) (s : CAddrMan) : option CAddrMan :=
  match Find (netaddr addr) s with
  | None => Some s
  | Some (nId, info) =>
    if negb (same_service info addr) then Some s
    else if 20 * 60 <? time - i_nTime info then Some (set_mapInfo (<[nId := set_nTime (u32 time) info]> (mapInfo s)) s) else Some s
  end.

(** [draws] and [clock] are the random draws and the times of the rounds. *)
Fixpoint gather (fuel : nat) (nNodes : Z) (draws clock : Z -> Z) (n : Z) (vAddr : list CAddress) (s : CAddrMan) : option (list CAddress * CAddrMan) :=
  match fuel with
  | O => Some (vAddr, s)
  | S fuel =>
    if nNodes <=? zlen vAddr then Some (vAddr, s) else
    let nRndPos := GetRandInt (zlen (vRandom s) - n) (draws n) + n in
    s ← SwapRandom n nRndPos s;
    nId ← at_ (vRandom s) n;
    ai ← mapInfo s !! nId;
    gather fuel nNodes draws clock (n + 1) (if negb (IsTerrible ai (clock n)) then vAddr ++ [address ai] else vAddr) s
  end.
Definition GetAddr_ (draws clock : Z -> Z) (s : CAddrMan) : option (list CAddress * CAddrMan) :=
  let nNodes := u32 (u64 (ADDRMAN_GETADDR_MAX_PCT * zlen (vRandom s)) / 100) in
  let nNodes := if ADDRMAN_GETADDR_MAX <? nNodes then ADDRMAN_GETADDR_MAX else nNodes in
  gather (length (vRandom s)) nNodes draws clock 0 [] s.

(** [Clear], which the constructor runs on empty maps; [key] is [GetRandHash()]. *)
Definition Clear (key : Z) (s : CAddrMan) : CAddrMan := mk_man key 0 (mapInfo s) (mapAddr s) [] 0 ∅ 0 ∅.
Definition new_man (key : Z) : CAddrMan := Clear key (mk_man 0 0 ∅ ∅ [] 0 ∅ 0 ∅).

(** [Add] of several addresses: the number of them that were new. *)
Fixpoint add_each (vAddr : list CAddress) (src : CNetAddr) (nTimePenalty : Z) (clock clock' draws : Z -> Z) (k nAdd : Z) (s : CAddrMan) : option (Z * CAddrMan) :=
  match vAddr with
  | [] => Some (nAdd, s)
  | addr :: vAddr =>
    '(fRet, s) ← Add_ addr src nTimePenalty (clock k) (clock' k) (draws k) s;
    add_each vAddr src nTimePenalty clock clock' draws (k + 1) (nAdd + (if fRet : bool then 1 else 0)) s
  end.
Definition Add (vAddr : list CAddress) (src : CNetAddr) (nTimePenalty : Z) (clock clock' draws : Z -> Z) (s : CAddrMan) : option (bool * CAddrMan) :=
  '(nAdd, s) ← add_each vAddr src nTimePenalty clock clock' draws 0 0 s; Some (0 <? nAdd, s).

(** ** The consistency check *)
(** The entries in the order of their ids. *)
Definition id_le (a b : Z * CAddrInfo) : Prop := a.1 <= b.1.
#[local] Instance id_le_dec : RelDecision id_le := fun a b => decide (a.1 <= b.1).
Definition ordered_entries (s : CAddrMan) : list (Z * CAddrInfo) := merge_sort id_le (map_to_list (mapInfo s)).

(** One round of the loop over the entries; 0 is no error. [mapAddr[info]] is 0 for an unknown address. *)
Definition check_entry (s : CAddrMan) (e : Z * CAddrInfo) : Z :=
  let (n, info) := e in
  let table :=
    if fInTried info then
      if nLastSuccess info =? 0 then -1 else if negb (nRefCount info =? 0) then -2 else 0
    else
      if (nRefCount info <? 0) || (ADDRMAN_NEW_BUCKETS_PER_ADDRESS <? nRefCount info) then -3
      else if nRefCount info =? 0 then -4 else 0 in
  if negb (table =? 0) then table
  else if negb (default 0 (mapAddr s !! addr_of info) =? n) then -5
  else if (nRandomPos info <? 0) || (zlen (vRandom s) <=? nRandomPos info) ||
          negb (bool_decide (at_ (vRandom s) (nRandomPos info) = Some n)) then -14
  else if i_nLastTry info <? 0 then -6
  else if nLastSuccess info <? 0 then -8
  else 0.
(** The first error of a loop. *)
Fixpoint first_error {A} (check : A -> Z) (l : list A) : Z :=
  match l with
  | [] => 0
  | a :: l => if check a =? 0 then first_error check l else check a
  end.

Definition slots (nBuckets : nat) : list (Z * Z) :=
  n ← map Z.of_nat (seq 0 nBuckets); i ← map Z.of_nat (seq 0 64); [(n, i)].

Fixpoint check_tried (s : CAddrMan) (l : list (Z * Z)) (setTried : gset Z) : Z + gset Z :=
  match l with
  | [] => inr setTried
  | (n, i) :: l =>
    match vvTried s !! (n, i) with
    | None => check_tried s l setTried
    | Some id =>
      if negb (bool_decide (id ∈ setTried)) then inl (-11) else
      match mapInfo s !! id with
      | None => inl (-17)
      | Some info =>
        if negb (GetTriedBucket info (nKey s) =? n) then inl (-17)
        else if negb (GetBucketPosition info (nKey s) false n =? i) then inl (-18)
        else check_tried s l (setTried ∖ {[id]})
      end
    end
  end.
Fixpoint check_new (s : CAddrMan) (l : list (Z * Z)) (mapNew : gmap Z Z) : Z + gmap Z Z :=
  match l with
  | [] => inr mapNew
  | (n, i) :: l =>
    match vvNew s !! (n, i) with
    | None => check_new s l mapNew
    | Some id =>
      match mapNew !! id with
      | None => inl (-12)
      | Some count =>
        match mapInfo s !! id with
        | None => inl (-19)
        | Some info =>
          if negb (GetBucketPosition info (nKey s) true n =? i) then inl (-19)
          else check_new s l (if count - 1 =? 0 then delete id mapNew else <[id := count - 1]> mapNew)
        end
      end
    end
  end.

Definition tried_entries (s : CAddrMan) : gmap Z CAddrInfo := filter (fun e => fInTried e.2 = true) (mapInfo s).
Definition new_entries (s : CAddrMan) : gmap Z CAddrInfo := filter (fun e => fInTried e.2 = false) (mapInfo s).

Definition Check_ (s : CAddrMan) : Z :=
  if negb (zlen (vRandom s) =? nTried s + nNew s) then -7 else
  let err := first_error (check_entry s) (ordered_entries s) in
  if negb (err =? 0) then err else
  let setTried := dom (tried_entries s) in
  let mapNew := nRefCount <$> new_entries s in
  if negb (Z.of_nat (size setTried) =? nTried s) then -9
  else if negb (Z.of_nat (size mapNew) =? nNew s) then -10 else
  match check_tried s (slots 256) setTried with
  | inl err => err
  | inr setTried =>
    match check_new s (slots 1024) mapNew with
    | inl err => err
    | inr mapNew =>
      if negb (bool_decide (setTried = ∅)) then -13
      else if negb (bool_decide (mapNew = ∅)) then -15
      else if nKey s =? 0 then -16 else 0
    end
  end.
End addrman.
End AddrMan.
Export AddrMan.
