(* ===== verification/AddrManFacts.v ===== *)
(** * AddrManFacts: the invariant of the address tables

    [Inv fl d s]: the indexes of [s] agree, every entry that is not in the tried table is in some new
    bucket unless it is one of the floating ids [fl], and [nNew] is short of the entries of the new
    table by [d].  Between operations nothing floats and nothing is missing; inside an operation an
    entry may be out of all buckets.  Every operation of AddrMan keeps the invariant and succeeds, so
    the consistency check of the code finds nothing. *)

From stdpp Require Import sorting.
From S2P Require Import Prelude Serialize Crypto Keys Core Catalog Format FormatFacts Base64 NetAddr AddrMan.

(** ** Counting the entries of a map *)
Module Count.
Section count.
Context {K A : Type} `{Countable K}.
Implicit Types (P : A -> bool) (m : gmap K A).

Definition count P m : Z := Z.of_nat (size (filter (fun e => P e.2 = true) m)).

Lemma count_empty P : count P ∅ = 0.
Proof. unfold count. by rewrite map_filter_empty, map_size_empty. Qed.
Lemma count_nonneg P m : 0 <= count P m.
Proof. unfold count. lia. Qed.
Lemma count_insert P m k v : m !! k = None -> count P (<[k := v]> m) = count P m + Z.b2z (P v).
Proof.
  intros Hk. unfold count. destruct (P v) eqn:Hv; cbn [Z.b2z].
  - rewrite map_filter_insert_True by done. rewrite map_size_insert_None; [lia|].
    apply map_lookup_filter_None. auto.
  - rewrite map_filter_insert_False by (cbn; congruence). rewrite delete_id by done. lia.
Qed.
Lemma count_delete P m k v : m !! k = Some v -> count P (delete k m) = count P m - Z.b2z (P v).
Proof.
  intros Hk. rewrite <- (insert_delete_id m k v) at 2 by done. rewrite count_insert by apply lookup_delete_eq. lia.
Qed.
Lemma count_replace P m k v w : m !! k = Some v -> count P (<[k := w]> m) = count P m - Z.b2z (P v) + Z.b2z (P w).
Proof.
  intros Hk. rewrite <- insert_delete_eq, count_insert by apply lookup_delete_eq. by rewrite (count_delete P m k v).
Qed.
Lemma count_zero P m : count P m = 0 <-> forall k v, m !! k = Some v -> P v = false.
Proof.
  unfold count. rewrite (Nat2Z.inj_iff _ 0), map_size_empty_iff. split.
  - intros Hf k v Hk. destruct (P v) eqn:Hv; [|done]. exfalso.
    assert (filter (fun e => P e.2 = true) m !! k = Some v) as E by by apply map_lookup_filter_Some. by rewrite Hf in E.
  - intros Hf. apply map_empty_filter. intros k v Hk. cbn. rewrite (Hf k v Hk). discriminate.
Qed.
(** Only what [P] sees of the entries matters. *)
Lemma count_ext P m m' : (forall k, P <$> m' !! k = P <$> m !! k) -> count P m' = count P m.
Proof.
  intros He. unfold count. rewrite <- !size_dom. do 2 f_equal. apply set_eq. intros k. rewrite !elem_of_dom. unfold is_Some.
  setoid_rewrite map_lookup_filter_Some. specialize (He k).
  destruct (m' !! k) as [a|], (m !! k) as [b|]; cbn in He; try discriminate.
  - apply Some_inj in He. split; intros (c & [= <-] & Hc); eexists; (split; [reflexivity|]); cbn in *; congruence.
  - split; intros (c & [=] & _).
Qed.
End count.
End Count.
Export Count.

Module AddrManFacts.
Definition is_id (n v : Z) : bool := bool_decide (v = n).
(** The number of slots of the new table that hold an id. *)
Definition refs (vv : gmap (Z * Z) Z) (n : Z) : Z := count (is_id n) vv.
Definition untried (i : CAddrInfo) : bool := negb (fInTried i).

Lemma refs_insert vv k n m : vv !! k = None -> refs (<[k := n]> vv) m = refs vv m + Z.b2z (is_id m n).
Proof. apply count_insert. Qed.
Lemma refs_delete vv k n m : vv !! k = Some n -> refs (delete k vv) m = refs vv m - Z.b2z (is_id m n).
Proof. apply count_delete. Qed.
Lemma is_id_same n : is_id n n = true.
Proof. by apply bool_decide_eq_true. Qed.
Lemma is_id_other n m : n <> m -> is_id n m = false.
Proof. intros Hn. apply bool_decide_eq_false. congruence. Qed.
Lemma refs_zero vv n : refs vv n = 0 <-> forall k, vv !! k <> Some n.
Proof.
  unfold refs. rewrite count_zero. split.
  - intros Hr k Hk. specialize (Hr k n Hk). by rewrite is_id_same in Hr.
  - intros Hr k v Hk. apply is_id_other. intros ->. by apply (Hr k).
Qed.
Lemma refs_pos vv k n : vv !! k = Some n -> 0 < refs vv n.
Proof.
  intros Hk. pose proof (count_nonneg (is_id n) vv) as Hr. destruct (decide (refs vv n = 0)) as [E|E]; [|unfold refs in *; lia].
  apply refs_zero with (k := k) in E. done.
Qed.

Section facts.
Context `{Digests}.
Implicit Types (s : CAddrMan) (i : CAddrInfo).

Definition tried_slot (key : Z) (i : CAddrInfo) : Z * Z :=
  (GetTriedBucket i key, GetBucketPosition i key false (GetTriedBucket i key)).

(** What the table knows of one entry. *)
Record Entry (fl : gset Z) (s : CAddrMan) (n : Z) (i : CAddrInfo) : Prop := {
  entry_addr : mapAddr s !! addr_of i = Some n;
  entry_pos : at_ (vRandom s) (nRandomPos i) = Some n;
  entry_id : 0 <= n < nIdCount s;
  entry_tried : fInTried i = true -> vvTried s !! tried_slot (nKey s) i = Some n /\ 0 < nLastSuccess i;
  entry_refs : nRefCount i = refs (vvNew s) n;
  entry_max : nRefCount i <= ADDRMAN_NEW_BUCKETS_PER_ADDRESS;
  entry_live : fInTried i = false -> n ∉ fl -> 0 < nRefCount i;
  entry_times : 0 <= i_nLastTry i /\ 0 <= nLastSuccess i
}.

Record Inv (fl : gset Z) (d : Z) (s : CAddrMan) : Prop := {
  inv_entry n i : mapInfo s !! n = Some i -> Entry fl s n i;
  inv_info a n : mapAddr s !! a = Some n -> exists i, mapInfo s !! n = Some i /\ addr_of i = a;
  inv_random p n : vRandom s !! p = Some n -> exists i, mapInfo s !! n = Some i /\ nRandomPos i = Z.of_nat p;
  inv_new b p n : vvNew s !! (b, p) = Some n ->
    0 <= b < ADDRMAN_NEW_BUCKET_COUNT /\
    exists i, mapInfo s !! n = Some i /\ fInTried i = false /\ p = GetBucketPosition i (nKey s) true b;
  inv_tried sl n : vvTried s !! sl = Some n ->
    exists i, mapInfo s !! n = Some i /\ fInTried i = true /\ sl = tried_slot (nKey s) i;
  inv_ntried : nTried s = count fInTried (mapInfo s);
  inv_nnew : nNew s + d = count untried (mapInfo s);
  inv_bound : nKey s <> 0 /\ 0 <= nIdCount s <= MAX_ID
}.
Arguments entry_addr {_ _ _ _}. Arguments entry_pos {_ _ _ _}. Arguments entry_id {_ _ _ _}.
Arguments entry_tried {_ _ _ _}. Arguments entry_refs {_ _ _ _}. Arguments entry_max {_ _ _ _}.
Arguments entry_live {_ _ _ _}. Arguments entry_times {_ _ _ _}.
Arguments inv_entry {_ _ _}. Arguments inv_info {_ _ _}. Arguments inv_random {_ _ _}. Arguments inv_new {_ _ _}.
Arguments inv_tried {_ _ _}. Arguments inv_ntried {_ _ _}. Arguments inv_nnew {_ _ _}. Arguments inv_bound {_ _ _}.

(** Consistent between operations. *)
Definition consistent (s : CAddrMan) : Prop := Inv ∅ 0 s.

Ltac man := cbn [mapInfo mapAddr vRandom nTried vvTried nNew vvNew nKey nIdCount set_mapInfo set_mapAddr set_vRandom set_tried
  set_nNew set_vvNew update] in *.

(** ** Where an entry belongs depends on its address only *)
Lemma same_position i j key f b :
  service (address i) = service (address j) -> GetBucketPosition i key f b = GetBucketPosition j key f b.
Proof. unfold GetBucketPosition. by intros ->. Qed.
Lemma same_tried_slot i j key : service (address i) = service (address j) -> tried_slot key i = tried_slot key j.
Proof.
  intros Hs. unfold tried_slot. assert (GetTriedBucket i key = GetTriedBucket j key) as ->.
  - unfold GetTriedBucket, addr_of. by rewrite Hs.
  - by rewrite (same_position i j).
Qed.

(** ** The empty tables *)
Lemma Inv_empty key : key <> 0 -> consistent (new_man key).
Proof. intros Hkey. split; cbn; try (intros *; rewrite ?lookup_empty, ?lookup_nil; discriminate); first [reflexivity|unfold MAX_ID; lia]. Qed.

Lemma Inv_weaken fl fl' d s : fl ⊆ fl' -> Inv fl d s -> Inv fl' d s.
Proof.
  intros Hf HI. split; try apply HI. intros n i Hn. destruct (inv_entry HI n i Hn) as []. split; try done.
  intros Ht Hfl. apply entry_live0; [done|]. set_solver.
Qed.

(** Nothing of the tried table is in a new bucket. *)
Lemma tried_refs fl d s n i : Inv fl d s -> mapInfo s !! n = Some i -> fInTried i = true -> refs (vvNew s) n = 0.
Proof.
  intros HI Hn Ht. apply refs_zero. intros [b p] Hk. destruct (inv_new HI b p n Hk) as (_ & j & Hj & Hf & _). congruence.
Qed.

(** ** Changing what is known of an entry *)
Record harmless (i j : CAddrInfo) : Prop := {
  harmless_service : service (address j) = service (address i);
  harmless_refs : nRefCount j = nRefCount i;
  harmless_tried : fInTried j = fInTried i;
  harmless_pos : nRandomPos j = nRandomPos i;
  harmless_times : 0 <= i_nLastTry j /\ 0 <= nLastSuccess j;
  harmless_success : 0 < nLastSuccess i -> 0 < nLastSuccess j
}.

Lemma Inv_touch fl d s n i j :
  Inv fl d s -> mapInfo s !! n = Some i -> harmless i j -> Inv fl d (set_mapInfo (<[n := j]> (mapInfo s)) s).
Proof.
  intros HI Hn [Hs Hr Ht Hp Htm Hsu]. assert (addr_of j = addr_of i) as Ha by (unfold addr_of; by rewrite Hs).
  split; man.
  - intros m k Hk. destruct (decide (n = m)) as [<-|Hne].
    + rewrite lookup_insert_eq in Hk. apply Some_inj in Hk as <-. destruct (inv_entry HI n i Hn) as []. split; man; rewrite ?Hr, ?Ht, ?Hp, ?Ha; auto.
      intros Htr. rewrite (same_tried_slot j i) by done. destruct (entry_tried0 Htr). auto.
    + rewrite lookup_insert_ne in Hk by done. destruct (inv_entry HI m k Hk) as []. by split.
  - intros a m Hm. destruct (inv_info HI a m Hm) as (k & Hk & <-). destruct (decide (n = m)) as [<-|Hne].
    + assert (k = i) as -> by congruence. rewrite lookup_insert_eq. eauto.
    + rewrite lookup_insert_ne by done. eauto.
  - intros p m Hm. destruct (inv_random HI p m Hm) as (k & Hk & Hkp). destruct (decide (n = m)) as [<-|Hne].
    + assert (k = i) as -> by congruence. rewrite lookup_insert_eq. eexists. split; [done|]. lia.
    + rewrite lookup_insert_ne by done. eauto.
  - intros b p m Hm. destruct (inv_new HI b p m Hm) as (Hb & k & Hk & Hf & Hkp). split; [done|]. destruct (decide (n = m)) as [<-|Hne].
    + assert (k = i) as -> by congruence. rewrite lookup_insert_eq. eexists. rewrite (same_position j i) by done. split; [done|]. by rewrite Ht.
    + rewrite lookup_insert_ne by done. eauto.
  - intros sl m Hm. destruct (inv_tried HI sl m Hm) as (k & Hk & Hf & Hkp). destruct (decide (n = m)) as [<-|Hne].
    + assert (k = i) as -> by congruence. rewrite lookup_insert_eq. eexists. rewrite (same_tried_slot j i) by done. split; [done|]. by rewrite Ht.
    + rewrite lookup_insert_ne by done. eauto.
  - rewrite (count_replace _ _ _ i), Ht by done. rewrite (inv_ntried HI). lia.
  - rewrite (count_replace _ _ _ i) by done. unfold untried at 2 3. rewrite Ht, (inv_nnew HI). lia.
  - apply HI.
Qed.

(** ** The order of the entries *)
Lemma at_nat (v : list Z) (p : nat) : at_ v (Z.of_nat p) = v !! p.
Proof. unfold at_. rewrite (proj2 (Z.ltb_ge _ _)) by lia. by rewrite Nat2Z.id. Qed.
Lemma at_Some (v : list Z) p n : at_ v p = Some n -> 0 <= p < zlen v /\ v !! Z.to_nat p = Some n.
Proof.
  unfold at_. destruct (Z.ltb_spec p 0); [discriminate|]. intros Hn. pose proof (lookup_lt_Some _ _ _ Hn). unfold zlen.
  split; [lia|done].
Qed.
Lemma at_range (v : list Z) p : 0 <= p < zlen v -> exists n, at_ v p = Some n.
Proof.
  intros Hp. unfold at_, zlen in *. rewrite (proj2 (Z.ltb_ge _ _)) by lia. apply lookup_lt_is_Some_2. lia.
Qed.

Lemma random_NoDup fl d s : Inv fl d s -> NoDup (vRandom s).
Proof.
  intros HI. apply NoDup_alt. intros p q n Hp Hq.
  destruct (inv_random HI p n Hp) as (i & Hi & Hip), (inv_random HI q n Hq) as (j & Hj & Hjq). simplify_eq. lia.
Qed.
Lemma random_entry fl d s p n : Inv fl d s -> at_ (vRandom s) p = Some n ->
  exists i, mapInfo s !! n = Some i /\ nRandomPos i = p.
Proof.
  intros HI [Hp Hn]%at_Some. destruct (inv_random HI _ _ Hn) as (i & Hi & Hpos). exists i. split; [done|lia].
Qed.
(** Every entry is at one position. *)
Lemma random_size fl d s : Inv fl d s -> zlen (vRandom s) = Z.of_nat (size (mapInfo s)).
Proof.
  intros HI. unfold zlen. f_equal. rewrite <- size_dom, <- (size_list_to_set (C := gset Z)) by (by eapply random_NoDup).
  f_equal. apply set_eq. intros n. rewrite elem_of_list_to_set, elem_of_dom. split.
  - intros [p Hp]%list_elem_of_lookup. destruct (inv_random HI p n Hp) as (i & Hi & _). eauto.
  - intros [i Hi]. destruct (at_Some _ _ _ (entry_pos (inv_entry HI n i Hi))) as [_ Hl].
    by eapply list_elem_of_lookup_2.
Qed.
Lemma random_bound fl d s : Inv fl d s -> zlen (vRandom s) <= nIdCount s.
Proof.
  intros HI. pose proof (inv_bound HI).
  assert (vRandom s ⊆+ map Z.of_nat (seq 0 (Z.to_nat (nIdCount s)))) as Hs.
  { apply NoDup_submseteq; [by eapply random_NoDup|]. intros n [p Hp]%list_elem_of_lookup.
    destruct (inv_random HI p n Hp) as (i & Hi & _). pose proof (entry_id (inv_entry HI n i Hi)).
    apply list_elem_of_fmap. exists (Z.to_nat n). split; [lia|]. apply elem_of_seq. lia. }
  apply submseteq_length in Hs. rewrite length_map, length_seq in Hs. unfold zlen. lia.
Qed.

(** Two states that differ in the order of the entries only. *)
Record moved (s s' : CAddrMan) : Prop := {
  moved_info n : exists p, mapInfo s' !! n = set_nRandomPos p <$> mapInfo s !! n;
  moved_key : nKey s' = nKey s;
  moved_count : nIdCount s' = nIdCount s;
  moved_addr : mapAddr s' = mapAddr s;
  moved_ntried : nTried s' = nTried s;
  moved_tried : vvTried s' = vvTried s;
  moved_nnew : nNew s' = nNew s;
  moved_new : vvNew s' = vvNew s
}.
Lemma moved_refl s : moved s s.
Proof. split; try done. intros n. destruct (mapInfo s !! n) as [[]|] eqn:E; [|by exists 0]. eexists. cbn. reflexivity. Qed.
Lemma moved_some s s' n i : moved s s' -> mapInfo s !! n = Some i -> exists p, mapInfo s' !! n = Some (set_nRandomPos p i).
Proof. intros Hm Hn. destruct (moved_info _ _ Hm n) as [p Hp]. rewrite Hn in Hp. eauto. Qed.
Lemma moved_back s s' n j : moved s s' -> mapInfo s' !! n = Some j -> exists i p, mapInfo s !! n = Some i /\ j = set_nRandomPos p i.
Proof.
  intros Hm Hn. destruct (moved_info _ _ Hm n) as [p Hp]. rewrite Hn in Hp.
  destruct (mapInfo s !! n) as [i|]; [|discriminate]. apply Some_inj in Hp. eauto.
Qed.
Lemma moved_counts s s' P : moved s s' -> (forall p i, P (set_nRandomPos p i) = P i) -> count P (mapInfo s') = count P (mapInfo s).
Proof.
  intros Hm HP. apply count_ext. intros n. destruct (moved_info _ _ Hm n) as [p ->].
  destruct (mapInfo s !! n); cbn; by rewrite ?HP.
Qed.

Lemma Inv_moved fl d s s' :
  Inv fl d s -> moved s s' ->
  (forall n i, mapInfo s' !! n = Some i -> at_ (vRandom s') (nRandomPos i) = Some n) ->
  (forall p n, vRandom s' !! p = Some n -> exists i, mapInfo s' !! n = Some i /\ nRandomPos i = Z.of_nat p) ->
  Inv fl d s'.
Proof.
  intros HI Hm Hat Hr. split; try done.
  - intros n j Hj. destruct (moved_back _ _ _ _ Hm Hj) as (i & p & Hi & ->). destruct (inv_entry HI n i Hi) as []. destruct Hm.
    split; rewrite ?moved_addr0, ?moved_tried0, ?moved_key0, ?moved_count0, ?moved_new0; try done. by eapply Hat.
  - intros a n. rewrite (moved_addr _ _ Hm). intros Ha. destruct (inv_info HI a n Ha) as (i & Hi & <-).
    destruct (moved_some _ _ _ _ Hm Hi) as [p Hp]. eauto.
  - intros b p n. rewrite (moved_new _ _ Hm), (moved_key _ _ Hm). intros Hn. destruct (inv_new HI b p n Hn) as (Hb & i & Hi & Hf & Hp).
    split; [done|]. destruct (moved_some _ _ _ _ Hm Hi) as [q Hq]. eauto.
  - intros sl n. rewrite (moved_tried _ _ Hm), (moved_key _ _ Hm). intros Hn. destruct (inv_tried HI sl n Hn) as (i & Hi & Hf & Hp).
    destruct (moved_some _ _ _ _ Hm Hi) as [q Hq]. eauto.
  - rewrite (moved_ntried _ _ Hm), (moved_counts s s') by done. apply HI.
  - rewrite (moved_nnew _ _ Hm), (moved_counts s s') by done. apply HI.
  - rewrite (moved_key _ _ Hm), (moved_count _ _ Hm). apply HI.
Qed.

Lemma at_insert (v : list Z) p x r :
  0 <= p < zlen v -> at_ (<[Z.to_nat p := x]> v) r = if decide (r = p) then Some x else at_ v r.
Proof.
  intros Hp. unfold zlen in Hp. unfold at_. destruct (decide (r = p)) as [->|Hn].
  - rewrite (proj2 (Z.ltb_ge _ _)) by lia. apply list_lookup_insert_eq. lia.
  - destruct (Z.ltb_spec r 0); [done|]. apply list_lookup_insert_ne. lia.
Qed.
Lemma zlen_insert (v : list Z) k x : zlen (<[k := x]> v) = zlen v.
Proof. unfold zlen. by rewrite length_insert. Qed.
Lemma set_pos_id i : set_nRandomPos (nRandomPos i) i = i.
Proof. by destruct i. Qed.

(** A swap of two positions succeeds. *)
Lemma SwapRandom_ok fl d s p q :
  Inv fl d s -> 0 <= p < zlen (vRandom s) -> 0 <= q < zlen (vRandom s) ->
  exists s', SwapRandom p q s = Some s' /\ Inv fl d s' /\ moved s s' /\
    zlen (vRandom s') = zlen (vRandom s) /\ at_ (vRandom s') q = at_ (vRandom s) p /\ at_ (vRandom s') p = at_ (vRandom s) q /\
    (forall r, r <> p -> r <> q -> at_ (vRandom s') r = at_ (vRandom s) r).
Proof.
  intros HI Hp Hq. unfold SwapRandom. destruct (Z.eqb_spec p q) as [->|Hne].
  { exists s. split; [done|]. split; [done|]. split; [apply moved_refl|]. by repeat split. }
  rewrite (proj2 (Z.ltb_lt p _)), (proj2 (Z.ltb_lt q _)) by lia. cbn [andb negb].
  destruct (at_range _ _ Hp) as [n Hn], (at_range _ _ Hq) as [m Hm]. rewrite Hn, Hm. cbn [mbind option_bind].
  destruct (random_entry _ _ _ _ _ HI Hn) as (i & Hi & Hip), (random_entry _ _ _ _ _ HI Hm) as (j & Hj & Hjq).
  rewrite Hi, Hj. assert (n <> m) as Hnm by congruence.
  set (v := <[Z.to_nat q := n]> (<[Z.to_nat p := m]> (vRandom s))).
  assert (forall r, at_ v r = if decide (r = q) then Some n else if decide (r = p) then Some m else at_ (vRandom s) r) as Hv.
  { intros r. unfold v. by rewrite !at_insert by (rewrite ?zlen_insert; lia). }
  set (s' := set_vRandom v _).
  assert (forall k, mapInfo s' !! k = if decide (k = m) then Some (set_nRandomPos p j)
                                      else if decide (k = n) then Some (set_nRandomPos q i) else mapInfo s !! k) as Hk.
  { intros k. unfold s'. man. repeat case_decide; subst; by simplify_map_eq. }
  assert (moved s s') as Hmv.
  { split; try done. intros k. rewrite Hk. destruct (decide (k = m)) as [->|]; [exists p; by rewrite Hj|].
    destruct (decide (k = n)) as [->|]; [exists q; by rewrite Hi|].
    destruct (mapInfo s !! k) as [l|] eqn:E; [|by exists 0]. exists (nRandomPos l). cbn. by rewrite set_pos_id. }
  exists s'. split; [done|]. split; [|split; [done|]].
  2: { split; [unfold s', v; man; by rewrite !zlen_insert|]. unfold s'. man. rewrite !Hv.
       rewrite decide_True, (decide_False (P := p = q)), (decide_True (P := p = p)) by done. split; [done|split; [done|]].
       intros r Hr1 Hr2. by rewrite Hv, !decide_False by done. }
  apply (Inv_moved _ _ s); [done..| |].
  - intros k l. rewrite Hk. unfold s'. man. rewrite Hv. destruct (decide (k = m)) as [->|Hkm]; [|destruct (decide (k = n)) as [->|Hkn]].
    + intros [= <-]. cbn [nRandomPos set_nRandomPos]. by rewrite decide_False, decide_True.
    + intros [= <-]. cbn [nRandomPos set_nRandomPos]. by rewrite decide_True.
    + intros Hl. pose proof (entry_pos (inv_entry HI k l Hl)) as Hat. rewrite !decide_False; [done| |]; intros E; congruence.
  - intros r k. rewrite <- at_nat, Hk. unfold s'. man. rewrite Hv. destruct (decide (_ = q)) as [->|Hrq]; [|destruct (decide (_ = p)) as [->|Hrp]].
    + intros [= <-]. rewrite decide_False, decide_True by done. eauto.
    + intros [= <-]. rewrite decide_True by done. eauto.
    + intros Hr. destruct (random_entry _ _ _ _ _ HI Hr) as (l & Hl & Hlr). rewrite !decide_False; [by eauto| |]; intros E; congruence.
Qed.

(** ** Deleting an entry *)
(** The entry is gone, the others differ in their order only. *)
Record removed (n : Z) (s s' : CAddrMan) : Prop := {
  removed_entry : mapInfo s' !! n = None;
  removed_others m : m <> n -> exists p, mapInfo s' !! m = set_nRandomPos p <$> mapInfo s !! m;
  removed_key : nKey s' = nKey s;
  removed_count : nIdCount s' = nIdCount s;
  removed_tried : vvTried s' = vvTried s;
  removed_new : vvNew s' = vvNew s
}.

(** The last step: the entry at the end is taken off. *)
Lemma Inv_drop_last fl d s n i v :
  Inv fl d s -> mapInfo s !! n = Some i -> fInTried i = false -> nRefCount i = 0 -> vRandom s = v ++ [n] ->
  Inv (fl ∖ {[n]}) d (set_nNew (nNew s - 1) (set_mapInfo (delete n (mapInfo s))
    (set_mapAddr (delete (addr_of i) (mapAddr s)) (set_vRandom v s)))).
Proof.
  intros HI Hn Ht Hr Hv. pose proof (random_NoDup _ _ _ HI) as Hnd. rewrite Hv in Hnd.
  apply NoDup_app in Hnd as (_ & Hnd & _).
  pose proof (inv_entry HI n i Hn) as En. assert (forall k, vvNew s !! k <> Some n) as Hnew.
  { apply refs_zero. rewrite <- (entry_refs En). done. }
  split; man.
  - intros m j [Hm Hj]%lookup_delete_Some. destruct (inv_entry HI m j Hj) as []. split; man; try done.
    + rewrite lookup_delete_ne; [done|]. intros E. rewrite <- E, (entry_addr En) in entry_addr0. congruence.
    + rewrite Hv in entry_pos0. apply at_Some in entry_pos0 as [Hp Hl].
      rewrite <- (Z2Nat.id (nRandomPos j)), at_nat by lia.
      apply lookup_app_Some in Hl as [Hl|[_ Hl]]; [done|]. apply list_lookup_singleton_Some in Hl as [_ Hl]. congruence.
    + intros Hf Hfl. apply entry_live0; [done|]. set_solver.
  - intros a m [Ha Hm]%lookup_delete_Some. destruct (inv_info HI a m Hm) as (j & Hj & Hja). exists j. split; [|done].
    rewrite lookup_delete_ne; [done|]. intros <-. congruence.
  - intros p m Hm. destruct (inv_random HI p m) as (j & Hj & Hjp); [by rewrite Hv; apply lookup_app_l_Some|].
    exists j. split; [|done]. rewrite lookup_delete_ne; [done|]. intros <-.
    apply (Hnd n); [by eapply list_elem_of_lookup_2|]. by apply list_elem_of_singleton.
  - intros b p m Hm. destruct (inv_new HI b p m Hm) as (Hb & j & Hj & Hf). split; [done|]. exists j. split; [|done].
    rewrite lookup_delete_ne; [done|]. intros <-. by apply (Hnew (b, p)).
  - intros sl m Hm. destruct (inv_tried HI sl m Hm) as (j & Hj & Hf & Hs). exists j. split; [|done].
    rewrite lookup_delete_ne; [done|]. intros <-. congruence.
  - rewrite (count_delete _ _ _ i), Ht by done. cbn [Z.b2z]. rewrite (inv_ntried HI). lia.
  - rewrite (count_delete _ _ _ i) by done. unfold untried at 2. rewrite Ht. cbn [negb Z.b2z]. pose proof (inv_nnew HI). lia.
  - apply HI.
Qed.

Lemma last_at (v : list Z) n : at_ v (zlen v - 1) = Some n -> v = pop_back v ++ [n].
Proof.
  intros Hn. destruct (decide (v = [])) as [->|Hne]; [discriminate|]. destruct (snoc_inv v Hne) as (v' & x & ->).
  rewrite pop_back_app. f_equal. f_equal. rewrite zlen_app in Hn. replace (zlen v' + zlen [x] - 1) with (zlen v') in Hn by (unfold zlen; cbn [length]; lia).
  unfold zlen in Hn. rewrite at_nat, list_lookup_middle in Hn by done. congruence.
Qed.

Lemma Delete_ok fl d s n i :
  Inv fl d s -> mapInfo s !! n = Some i -> fInTried i = false -> nRefCount i = 0 ->
  exists s', Delete n s = Some s' /\ Inv (fl ∖ {[n]}) d s' /\ removed n s s'.
Proof.
  intros HI Hn Ht Hr. destruct (at_Some _ _ _ (entry_pos (inv_entry HI n i Hn))) as [Hp _].
  pose proof (random_bound _ _ _ HI). pose proof (inv_bound HI). unfold MAX_ID in *.
  unfold Delete. rewrite Hn, Ht, Hr. cbn [Z.eqb negb]. unfold u32. rewrite !Z.mod_small by lia.
  destruct (SwapRandom_ok _ _ s (nRandomPos i) (zlen (vRandom s) - 1) HI) as (s1 & -> & HI1 & Hm & Hlen & Hat & _); [lia..|].
  rewrite (entry_pos (inv_entry HI n i Hn)), <- Hlen in Hat. apply last_at in Hat.
  cbn [mbind option_bind]. destruct (moved_some _ _ _ _ Hm Hn) as [q Hq].
  destruct (vRandom s1) as [|z v1] eqn:Ev; [by apply app_cons_not_nil in Hat|]. rewrite <- Ev in *.
  eexists. split; [reflexivity|]. split; [by apply (Inv_drop_last _ _ s1 n (set_nRandomPos q i))|].
  destruct Hm. split; man; try done.
  - apply lookup_delete_eq.
  - intros m Hmn. rewrite lookup_delete_ne by done. apply moved_info0.
Qed.

(** ** Changing the new buckets of an entry *)
Definition recount (n : Z) (i : CAddrInfo) (c : Z) (vv : gmap (Z * Z) Z) (s : CAddrMan) : CAddrMan :=
  set_vvNew vv (set_mapInfo (<[n := set_nRefCount c i]> (mapInfo s)) s).

Lemma Inv_recount fl fl' d s n i c vv :
  Inv fl d s -> mapInfo s !! n = Some i -> fInTried i = false ->
  refs vv n = c -> c <= ADDRMAN_NEW_BUCKETS_PER_ADDRESS -> (n ∉ fl' -> 0 < c) ->
  (forall m, m <> n -> refs vv m = refs (vvNew s) m) -> (forall m, m <> n -> m ∉ fl' -> m ∉ fl) ->
  (forall b p m, vv !! (b, p) = Some m -> vvNew s !! (b, p) = Some m \/
    (m = n /\ 0 <= b < ADDRMAN_NEW_BUCKET_COUNT /\ p = GetBucketPosition i (nKey s) true b)) ->
  Inv fl' d (recount n i c vv s).
Proof.
  intros HI Hn Ht Hc Hmax Hlive Hothers Hfl Hslots. unfold recount. pose proof (inv_entry HI n i Hn) as En.
  assert (forall m j, mapInfo s !! m = Some j -> exists k, <[n := set_nRefCount c i]> (mapInfo s) !! m = Some k /\
    address k = address j /\ fInTried k = fInTried j /\ nRandomPos k = nRandomPos j) as Hkeep.
  { intros m j Hj. destruct (decide (n = m)) as [<-|Hne].
    - rewrite lookup_insert_eq. assert (j = i) as -> by congruence. by eexists.
    - rewrite lookup_insert_ne by done. by eexists. }
  split; man.
  - intros m j. destruct (decide (n = m)) as [<-|Hne].
    + rewrite lookup_insert_eq. intros [= <-]. destruct En. split; man; try done.
      all: cbn [fInTried nRefCount set_nRefCount]; auto; congruence.
    + rewrite lookup_insert_ne by done. intros Hj. destruct (inv_entry HI m j Hj). split; man; try done.
      * by rewrite Hothers.
      * auto.
  - intros a m Hm. destruct (inv_info HI a m Hm) as (j & Hj & Hja). destruct (Hkeep m j Hj) as (k & Hk & Ha & _).
    exists k. split; [done|]. unfold addr_of. by rewrite Ha.
  - intros p m Hm. destruct (inv_random HI p m Hm) as (j & Hj & Hjp). destruct (Hkeep m j Hj) as (k & Hk & _ & _ & Hp).
    exists k. split; [done|]. congruence.
  - intros b p m [Hm|(-> & Hb & Hp)]%Hslots.
    + destruct (inv_new HI b p m Hm) as (Hb & j & Hj & Hf & Hp). split; [done|].
      destruct (Hkeep m j Hj) as (k & Hk & Ha & Hkf & _). exists k. split; [done|]. split; [congruence|].
      rewrite Hp. apply same_position. by rewrite Ha.
    + split; [done|]. rewrite lookup_insert_eq. by eexists.
  - intros sl m Hm. destruct (inv_tried HI sl m Hm) as (j & Hj & Hf & Hs). destruct (Hkeep m j Hj) as (k & Hk & Ha & Hkf & _).
    exists k. split; [done|]. split; [congruence|]. rewrite Hs. apply same_tried_slot. by rewrite Ha.
  - rewrite (count_replace _ _ _ i) by done. cbn [fInTried set_nRefCount]. rewrite (inv_ntried HI). lia.
  - rewrite (count_replace _ _ _ i) by done. unfold untried at 2 3. cbn [fInTried set_nRefCount]. rewrite (inv_nnew HI). lia.
  - apply HI.
Qed.

(** A slot is cleared: its entry may be left without a bucket. *)
Lemma Inv_unslot fl d s k n i :
  Inv fl d s -> mapInfo s !! n = Some i -> vvNew s !! k = Some n ->
  Inv (if decide (nRefCount i = 1) then fl ∪ {[n]} else fl) d (recount n i (nRefCount i - 1) (delete k (vvNew s)) s) /\
  fInTried i = false /\ 0 < nRefCount i.
Proof.
  intros HI Hn Hk. pose proof (inv_entry HI n i Hn) as En. pose proof (refs_pos _ _ _ Hk) as Hpos. pose proof (entry_max En).
  rewrite <- (entry_refs En) in Hpos. destruct k as [b p]. destruct (inv_new HI b p n Hk) as (_ & j & Hj & Hf & _).
  assert (j = i) as -> by congruence. split; [|done].
  apply (Inv_recount fl); try done.
  - rewrite (refs_delete _ _ n), is_id_same by done. cbn. rewrite <- (entry_refs En). lia.
  - lia.
  - intros Hfl. case_decide; [set_solver|lia].
  - intros m Hm. rewrite (refs_delete _ _ n), is_id_other by done. cbn. lia.
  - intros m Hm Hfl. case_decide; set_solver.
  - intros b' p' m [_ Hm]%lookup_delete_Some. by left.
Qed.

(** An entry is put into an empty slot of its own. *)
Lemma Inv_slot fl d s n i b p :
  Inv fl d s -> mapInfo s !! n = Some i -> fInTried i = false -> nRefCount i < ADDRMAN_NEW_BUCKETS_PER_ADDRESS ->
  vvNew s !! (b, p) = None -> 0 <= b < ADDRMAN_NEW_BUCKET_COUNT -> p = GetBucketPosition i (nKey s) true b ->
  Inv (fl ∖ {[n]}) d (recount n i (nRefCount i + 1) (<[(b, p) := n]> (vvNew s)) s).
Proof.
  intros HI Hn Ht Hmax Hk Hb Hp. pose proof (inv_entry HI n i Hn) as En.
  pose proof (count_nonneg (is_id n) (vvNew s)) as Hr. fold (refs (vvNew s) n) in Hr. pose proof (entry_refs En).
  apply (Inv_recount fl); try done.
  - rewrite refs_insert, is_id_same by done. cbn. lia.
  - lia.
  - intros _. lia.
  - intros m Hm. rewrite refs_insert, is_id_other by done. cbn. lia.
  - set_solver.
  - intros b' p' m [[[= <- <-] <-]|[_ Hm]]%lookup_insert_Some; [right; auto|by left].
Qed.

Lemma update_insert n f s i : mapInfo s !! n = Some i -> update n f s = set_mapInfo (<[n := f i]> (mapInfo s)) s.
Proof.
  intros Hn. unfold update. f_equal. apply map_eq. intros k. destruct (decide (n = k)) as [<-|Hne].
  - by rewrite lookup_alter_eq, lookup_insert_eq, Hn.
  - by rewrite lookup_alter_ne, lookup_insert_ne.
Qed.

(** A slot is emptied; the entries that were not in it are kept. *)
Record cleared (k : Z * Z) (s s' : CAddrMan) : Prop := {
  cleared_others m i : mapInfo s !! m = Some i -> vvNew s !! k <> Some m ->
    exists q, mapInfo s' !! m = Some (set_nRandomPos q i);
  cleared_key : nKey s' = nKey s;
  cleared_count : nIdCount s' = nIdCount s;
  cleared_tried : vvTried s' = vvTried s;
  cleared_new : vvNew s' = delete k (vvNew s)
}.

Lemma ClearNew_ok fl d s b p :
  Inv fl d s -> exists s', ClearNew b p s = Some s' /\ Inv fl d s' /\ cleared (b, p) s s'.
Proof.
  intros HI. unfold ClearNew. destruct (vvNew s !! (b, p)) as [n|] eqn:Hk.
  2: { exists s. split; [done|]. split; [done|]. split; try done; [|by rewrite delete_id].
       intros m i Hm _. exists (nRandomPos i). by rewrite set_pos_id. }
  destruct (inv_new HI b p n Hk) as (_ & i & Hi & _). rewrite Hi.
  destruct (Inv_unslot fl d s (b, p) n i HI Hi Hk) as (HI1 & Hf & Hr). rewrite (proj2 (Z.ltb_lt 0 _)) by done. cbn [negb].
  rewrite (update_insert _ _ _ i) by done. change (set_vvNew _ _) with (recount n i (nRefCount i - 1) (delete (b, p) (vvNew s)) s).
  destruct (Z.eqb_spec (nRefCount i - 1) 0) as [E|E].
  - rewrite decide_True in HI1 by lia.
    destruct (Delete_ok _ _ _ n (set_nRefCount (nRefCount i - 1) i) HI1) as (s' & -> & HI' & Hrm).
    { unfold recount. man. apply lookup_insert_eq. } { done. } { done. }
    exists s'. split; [done|]. split; [eapply Inv_weaken, HI'; set_solver|].
    destruct Hrm. split; try done. intros m j Hm Hne. destruct (removed_others0 m) as [q Hq]; [congruence|].
    exists q. rewrite Hq. unfold recount. man. rewrite lookup_insert_ne by congruence. by rewrite Hm.
  - rewrite decide_False in HI1 by lia. eexists. split; [done|]. split; [done|]. split; try done.
    intros m j Hm Hne. exists (nRandomPos j). unfold recount. man. rewrite lookup_insert_ne by congruence. by rewrite set_pos_id.
Qed.

(** ** The loop of [MakeTried] over the new buckets *)
Lemma unlink_ok fl d s n i info b :
  Inv fl d s -> n ∈ fl -> mapInfo s !! n = Some i -> service (address i) = service (address info) ->
  exists c, let s' := unlink n info s b in
    Inv fl d s' /\ mapInfo s' !! n = Some (set_nRefCount c i) /\ nKey s' = nKey s /\ vvTried s' = vvTried s /\
    nIdCount s' = nIdCount s /\ nNew s' = nNew s /\
    (forall k, vvNew s' !! k = Some n -> vvNew s !! k = Some n /\ k <> (b, GetBucketPosition info (nKey s) true b)).
Proof.
  intros HI Hfl Hn Hs. cbn. unfold unlink. case_bool_decide as Hk.
  - exists (nRefCount i - 1). rewrite (update_insert _ _ _ i) by done.
    change (set_vvNew _ _) with (recount n i (nRefCount i - 1) (delete (b, GetBucketPosition info (nKey s) true b) (vvNew s)) s).
    destruct (Inv_unslot fl d s _ n i HI Hn Hk) as (HI1 & Hf & Hr).
    split; [case_decide; [by replace fl with (fl ∪ {[n]}) by set_solver|done]|].
    unfold recount. man. rewrite lookup_insert_eq. do 5 (split; [done|]). intros k [Hne Hk']%lookup_delete_Some. done.
  - exists (nRefCount i). split; [done|]. split; [by destruct i|]. do 4 (split; [done|]). intros k Hk'. split; [done|]. congruence.
Qed.

Lemma unlink_all fl d n info l s i :
  Inv fl d s -> n ∈ fl -> mapInfo s !! n = Some i -> service (address i) = service (address info) ->
  exists c, let s' := fold_left (unlink n info) l s in
    Inv fl d s' /\ mapInfo s' !! n = Some (set_nRefCount c i) /\ nKey s' = nKey s /\ vvTried s' = vvTried s /\
    nIdCount s' = nIdCount s /\ nNew s' = nNew s /\
    (forall k, vvNew s' !! k = Some n -> vvNew s !! k = Some n /\ forall b, b ∈ l -> k <> (b, GetBucketPosition info (nKey s) true b)).
Proof.
  revert s i. induction l as [|b l IH]; intros s i HI Hfl Hn Hs.
  - exists (nRefCount i). cbn [fold_left]. split; [done|]. split; [by destruct i|]. do 4 (split; [done|]).
    intros k Hk. split; [done|]. intros b Hb. by apply not_elem_of_nil in Hb.
  - cbn [fold_left]. destruct (unlink_ok fl d s n i info b HI Hfl Hn Hs) as (c & HI1 & Hn1 & Hkey & Htr & Hc & Hnew & Hk1).
    destruct (IH _ _ HI1 Hfl Hn1 Hs) as (c' & HI2 & Hn2 & Hkey2 & Htr2 & Hc2 & Hnew2 & Hk2). exists c'. cbn.
    split; [done|]. split; [done|]. do 4 (split; [congruence|]). intros k Hk. destruct (Hk2 k Hk) as [Hk3 Hl].
    destruct (Hk1 k Hk3) as [Hk4 Hb]. split; [done|]. intros b' [->|Hb']%elem_of_cons; [done|]. rewrite Hkey in Hl. auto.
Qed.

Lemma elem_of_buckets b : b ∈ buckets <-> 0 <= b < ADDRMAN_NEW_BUCKET_COUNT.
Proof.
  unfold buckets, ADDRMAN_NEW_BUCKET_COUNT. rewrite list_elem_of_fmap. setoid_rewrite elem_of_seq. split.
  - intros (k & -> & Hk). lia.
  - intros Hb. exists (Z.to_nat b). lia.
Qed.

(** After the loop the entry is in no bucket. *)
Lemma unlink_buckets fl d s n i :
  Inv fl d s -> n ∈ fl -> mapInfo s !! n = Some i ->
  let s' := fold_left (unlink n i) buckets s in
  Inv fl d s' /\ mapInfo s' !! n = Some (set_nRefCount 0 i) /\ (forall k, vvNew s' !! k <> Some n) /\
  nKey s' = nKey s /\ vvTried s' = vvTried s /\ nIdCount s' = nIdCount s /\ nNew s' = nNew s.
Proof.
  intros HI Hfl Hn. destruct (unlink_all fl d n i buckets s i HI Hfl Hn eq_refl) as (c & H').
  pose proof (fun b => proj2 (elem_of_buckets b)) as Hin. cbv zeta in *.
  generalize dependent (fold_left (unlink n i) buckets s). generalize dependent buckets.
  intros l Hl s' (HI' & Hn' & Hkey & Htr & Hc & Hnew & Hk).
  assert (forall k, vvNew s' !! k <> Some n) as Hnone.
  { intros [b p] Hb. destruct (Hk _ Hb) as [Hb0 Hall]. destruct (inv_new HI b p n Hb0) as (Hr & j & Hj & _ & ->).
    apply (Hall b); [by apply Hl|]. f_equal. congruence. }
  split; [done|]. split; [|done]. rewrite Hn'. do 2 f_equal.
  pose proof (entry_refs (inv_entry HI' n _ Hn')) as Hr. cbn in Hr. by rewrite (proj2 (refs_zero _ n)) in Hr.
Qed.

(** ** In and out of the tried table *)
Definition retry (n : Z) (i : CAddrInfo) (b : bool) (k : Z) (vv : gmap (Z * Z) Z) (s : CAddrMan) : CAddrMan :=
  set_tried k vv (set_mapInfo (<[n := set_fInTried b i]> (mapInfo s)) s).

Lemma Inv_retry fl fl' d s n i b vv :
  Inv fl d s -> mapInfo s !! n = Some i -> refs (vvNew s) n = 0 ->
  (forall sl m, vv !! sl = Some m -> (m <> n /\ vvTried s !! sl = Some m) \/ (m = n /\ b = true /\ sl = tried_slot (nKey s) i)) ->
  (forall sl m, m <> n -> vvTried s !! sl = Some m -> vv !! sl = Some m) ->
  (b = true -> vv !! tried_slot (nKey s) i = Some n /\ 0 < nLastSuccess i) ->
  (b = false -> n ∈ fl') -> (forall m, m <> n -> m ∉ fl' -> m ∉ fl) ->
  Inv fl' (d + Z.b2z (fInTried i) - Z.b2z b) (retry n i b (nTried s - Z.b2z (fInTried i) + Z.b2z b) vv s).
Proof.
  intros HI Hn Hr Hback Hthere Hb Hfl Hothers. unfold retry. pose proof (inv_entry HI n i Hn) as En.
  assert (forall m j, mapInfo s !! m = Some j -> m <> n -> <[n := set_fInTried b i]> (mapInfo s) !! m = Some j) as Hkeep.
  { intros m j Hj Hne. by rewrite lookup_insert_ne by congruence. }
  split; man.
  - intros m j. destruct (decide (n = m)) as [<-|Hne].
    + rewrite lookup_insert_eq. intros [= <-]. destruct En. split; man; try done.
      intros E Hnf. destruct Hnf. by apply Hfl.
    + rewrite lookup_insert_ne by done. intros Hj. destruct (inv_entry HI m j Hj). split; man; auto.
      intros Ht. destruct (entry_tried0 Ht). auto.
  - intros a m Hm. destruct (inv_info HI a m Hm) as (j & Hj & Hja). destruct (decide (m = n)) as [->|Hne]; [|eauto].
    rewrite lookup_insert_eq. assert (j = i) as -> by congruence. by eexists.
  - intros p m Hm. destruct (inv_random HI p m Hm) as (j & Hj & Hjp). destruct (decide (m = n)) as [->|Hne]; [|eauto].
    rewrite lookup_insert_eq. assert (j = i) as -> by congruence. by eexists.
  - intros q p m Hm. destruct (inv_new HI q p m Hm) as (Hq & j & Hj & Hf). split; [done|]. exists j. split; [|done].
    apply Hkeep; [done|]. intros ->. by apply refs_zero with (k := (q, p)) in Hr.
  - intros sl m [[Hne Hm]|(-> & -> & Hsl)]%Hback.
    + destruct (inv_tried HI sl m Hm) as (j & Hj & Hf). eauto.
    + rewrite lookup_insert_eq. by eexists.
  - rewrite (count_replace _ _ _ i) by done. cbn [fInTried set_fInTried]. rewrite (inv_ntried HI). lia.
  - rewrite (count_replace _ _ _ i) by done. unfold untried at 2 3. cbn [fInTried set_fInTried]. pose proof (inv_nnew HI).
    destruct (fInTried i), b; cbn [negb Z.b2z]; lia.
  - apply HI.
Qed.

Lemma Inv_nNew fl d s k : Inv fl d s -> Inv fl (d - k) (set_nNew (nNew s + k) s).
Proof. intros HI. split; man; try apply HI. - intros n i Hn. by destruct (inv_entry HI n i Hn). - pose proof (inv_nnew HI). lia. Qed.

Lemma new_bucket_range i key src : 0 <= GetNewBucket i key src < ADDRMAN_NEW_BUCKET_COUNT.
Proof. apply Z.mod_pos_bound. unfold ADDRMAN_NEW_BUCKET_COUNT. lia. Qed.

(** An eviction leaves the slot free and an entry that is in neither table alone. *)
Lemma evict_tried_ok fl d s sl n i :
  Inv fl d s -> mapInfo s !! n = Some i -> fInTried i = false -> (forall k, vvNew s !! k <> Some n) ->
  exists s' q, evict_tried sl s = Some s' /\ Inv fl d s' /\ vvTried s' !! sl = None /\
    mapInfo s' !! n = Some (set_nRandomPos q i) /\ (forall k, vvNew s' !! k <> Some n) /\ nKey s' = nKey s /\ nIdCount s' = nIdCount s.
Proof.
  intros HI Hn Ht Hout. unfold evict_tried. destruct (vvTried s !! sl) as [e|] eqn:Hsl.
  2: { exists s, (nRandomPos i). rewrite set_pos_id. by split_and!. }
  destruct (inv_tried HI sl e Hsl) as (o & Ho & Hot & ->). rewrite Ho.
  assert (e <> n) as Hen by congruence. pose proof (tried_refs _ _ _ _ _ HI Ho Hot) as Hr.
  assert (Inv (fl ∪ {[e]}) (d + 1) (retry e o false (nTried s - 1) (delete (tried_slot (nKey s) o) (vvTried s)) s)) as HI1.
  { pose proof (Inv_retry fl (fl ∪ {[e]}) d s e o false (delete (tried_slot (nKey s) o) (vvTried s)) HI Ho Hr) as HI1.
    rewrite Hot in HI1. cbn [Z.b2z] in HI1. rewrite Z.add_0_r, Z.sub_0_r in HI1. apply HI1; try done; [| |set_solver|set_solver].
    - intros sl' m [Hne Hm]%lookup_delete_Some. left. split; [|done]. intros ->. apply Hne.
      destruct (inv_tried HI sl' e Hm) as (o' & Ho' & _ & ->). congruence.
    - intros sl' m Hme Hm. rewrite lookup_delete_ne; [done|]. intros <-. congruence. }
  rewrite (update_insert _ _ _ o) by done.
  change (set_tried _ _ (set_mapInfo _ _)) with (retry e o false (nTried s - 1) (delete (tried_slot (nKey s) o) (vvTried s)) s).
  set (s1 := retry _ _ _ _ _ _) in *. change (nKey s1) with (nKey s).
  set (b := GetNewBucket o (nKey s) (source o)). set (p := GetBucketPosition o (nKey s) true b).
  destruct (ClearNew_ok _ _ _ b p HI1) as (s2 & -> & HI2 & Hcl). cbn [mbind option_bind].
  destruct (cleared_others _ _ _ Hcl e (set_fInTried false o)) as [q Hq].
  { unfold s1, retry. man. apply lookup_insert_eq. }
  { apply refs_zero. exact Hr. }
  destruct (cleared_others _ _ _ Hcl n i) as [q' Hq'].
  { unfold s1, retry. man. by rewrite lookup_insert_ne. }
  { apply Hout. }
  assert (vvNew s2 !! (b, p) = None) as Hfree by (rewrite (cleared_new _ _ _ Hcl); apply lookup_delete_eq).
  rewrite Hfree, Hq, (update_insert _ _ _ _ Hq).
  assert (nRefCount o = 0) as Hro by by rewrite (entry_refs (inv_entry HI e o Ho)).
  pose proof (Inv_slot _ _ _ e _ b p HI2 Hq eq_refl) as HI3. cbn [nRefCount set_nRandomPos set_fInTried] in HI3. rewrite Hro in HI3.
  eexists _, q'. split; [reflexivity|]. split; [|split_and!].
  - replace d with (d + 1 - 1) by lia.
    refine (Inv_nNew _ _ (recount e (set_nRandomPos q (set_fInTried false o)) 1 (<[(b, p) := e]> (vvNew s2)) s2) 1 _).
    eapply Inv_weaken, HI3; [set_solver|done|done|apply new_bucket_range|].
    rewrite (cleared_key _ _ _ Hcl). by apply same_position.
  - man. rewrite (cleared_tried _ _ _ Hcl). apply lookup_delete_eq.
  - man. by rewrite lookup_insert_ne.
  - intros k. man. rewrite (cleared_new _ _ _ Hcl). intros [[_ ?]|[_ [_ Hk]%lookup_delete_Some]]%lookup_insert_Some; [done|by apply (Hout k)].
  - man. by rewrite (cleared_key _ _ _ Hcl).
  - man. by rewrite (cleared_count _ _ _ Hcl).
Qed.

(** *** An entry of the new table is moved to the tried table *)
Lemma move_tried_ok s1 n i :
  Inv {[n]} 0 s1 -> mapInfo s1 !! n = Some (set_nRefCount 0 i) -> (forall k, vvNew s1 !! k <> Some n) ->
  fInTried i = false -> 0 < nLastSuccess i ->
  exists s' q, move_tried n s1 = Some s' /\ consistent s' /\ nIdCount s' = nIdCount s1 /\
    mapInfo s' !! n = Some (set_nRandomPos q (set_fInTried true (set_nRefCount 0 i))).
Proof.
  intros HI1 Hn1 Hout Ht Hsu. unfold move_tried. man. rewrite Hn1. cbn [mbind option_bind nRefCount set_nRefCount].
  cbn [Z.eqb negb]. change (GetTriedBucket (set_nRefCount 0 i) (nKey s1), GetBucketPosition (set_nRefCount 0 i) (nKey s1) false _)
    with (tried_slot (nKey s1) (set_nRefCount 0 i)).
  apply (Inv_nNew _ _ _ (-1)) in HI1.
  destruct (evict_tried_ok {[n]} 1 (set_nNew (nNew s1 - 1) s1) (tried_slot (nKey s1) (set_nRefCount 0 i)) n (set_nRefCount 0 i) HI1 Hn1 Ht Hout)
    as (s2 & q & -> & HI2 & Hfree & Hn2 & Hout2 & Hkey2 & Hc2).
  cbn [mbind option_bind]. rewrite Hfree, Hn2.
  rewrite (update_insert _ _ _ (set_nRandomPos q (set_nRefCount 0 i))) by done. eexists _, q. split; [reflexivity|]. split_and!.
  - pose proof (Inv_retry {[n]} ∅ 1 s2 n (set_nRandomPos q (set_nRefCount 0 i)) true (<[tried_slot (nKey s1) (set_nRefCount 0 i) := n]> (vvTried s2)) HI2 Hn2) as HI3.
    cbn [fInTried set_nRandomPos set_nRefCount] in HI3. rewrite Ht in HI3. cbn [Z.b2z] in HI3. rewrite Z.sub_0_r in HI3.
    man. assert (tried_slot (nKey s2) (set_nRandomPos q (set_nRefCount 0 i)) = tried_slot (nKey s1) (set_nRefCount 0 i)) as E.
    { rewrite Hkey2. by apply same_tried_slot. }
    rewrite E in HI3. apply HI3; try done.
    + by apply refs_zero.
    + intros sl m [[<- <-]|[Hne Hm]]%lookup_insert_Some; [by right|]. left. split; [|done]. intros ->.
      destruct (inv_tried HI2 sl n Hm) as (j & Hj & Hf & _). rewrite Hn2 in Hj. apply Some_inj in Hj as <-. cbn in Hf. congruence.
    + intros sl m Hne Hm. rewrite lookup_insert_ne; [done|]. intros <-. congruence.
    + intros _. by rewrite lookup_insert_eq.
    + set_solver.
  - man. congruence.
  - man. by rewrite lookup_insert_eq.
Qed.

Lemma MakeTried_ok s n i :
  consistent s -> mapInfo s !! n = Some i -> fInTried i = false -> 0 < nLastSuccess i ->
  exists s' q, MakeTried n s = Some s' /\ consistent s' /\ nIdCount s' = nIdCount s /\
    mapInfo s' !! n = Some (set_nRandomPos q (set_fInTried true (set_nRefCount 0 i))).
Proof.
  intros HI Hn Ht Hsu. unfold MakeTried. rewrite Hn. cbn [mbind option_bind].
  destruct (unlink_buckets {[n]} 0 s n i) as (HI1 & Hn1 & Hout & Hkey & _ & Hc & _); [by apply (Inv_weaken ∅)|set_solver|done|].
  destruct (move_tried_ok _ n i HI1 Hn1 Hout Ht Hsu) as (s' & q & H'). exists s', q. by rewrite <- Hc.
Qed.

(** ** The operations of the interface *)
Lemma Find_inv s a n i : Find a s = Some (n, i) -> mapAddr s !! a = Some n /\ mapInfo s !! n = Some i.
Proof. unfold Find. intros Hf. repeat case_match; by simplify_eq. Qed.
Lemma Find_none fl d s a : Inv fl d s -> Find a s = None -> mapAddr s !! a = None.
Proof.
  intros HI. unfold Find. destruct (mapAddr s !! a) as [n|] eqn:Ha; [|done].
  destruct (inv_info HI a n Ha) as (i & -> & _). discriminate.
Qed.

Lemma Good_ok s addr time draw :
  consistent s -> 0 < time -> exists s', Good_ addr time draw s = Some s' /\ consistent s' /\ nIdCount s' = nIdCount s.
Proof.
  intros HI Ht. unfold Good_. destruct (Find (netaddr addr) s) as [[n i]|] eqn:Hf; [|by eauto].
  apply Find_inv in Hf as [_ Hn]. destruct (negb (same_service i addr)); [by eauto|].
  set (j := set_nAttempts 0 (set_nTime (u32 time) (set_nLastTry time (set_nLastSuccess time i)))).
  assert (harmless i j) as Hh by (split; cbn; try done; lia).
  pose proof (Inv_touch _ _ s n i j HI Hn Hh) as HI1. change (fInTried j) with (fInTried i).
  destruct (fInTried i) eqn:Hit; [by eexists|].
  destruct (existsb _ buckets); [|by eexists].
  destruct (MakeTried_ok (set_mapInfo (<[n := j]> (mapInfo s)) s) n j HI1) as (s' & q & HM & HI2 & Hc & _);
    [man; apply lookup_insert_eq|done|done|]. by exists s'.
Qed.

Lemma Attempt_ok s addr time :
  consistent s -> 0 <= time -> exists s', Attempt_ addr time s = Some s' /\ consistent s' /\ nIdCount s' = nIdCount s.
Proof.
  intros HI Ht. unfold Attempt_. destruct (Find (netaddr addr) s) as [[n i]|] eqn:Hf; [|by eauto].
  apply Find_inv in Hf as [_ Hn]. destruct (negb (same_service i addr)); [by eauto|].
  eexists. split; [reflexivity|]. split; [|done]. apply (Inv_touch _ _ s n i); [done..|].
  destruct (entry_times (inv_entry HI n i Hn)). by split.
Qed.

Lemma Connected_ok s addr time :
  consistent s -> exists s', Connected_ addr time s = Some s' /\ consistent s' /\ nIdCount s' = nIdCount s.
Proof.
  intros HI. unfold Connected_. destruct (Find (netaddr addr) s) as [[n i]|] eqn:Hf; [|by eauto].
  apply Find_inv in Hf as [_ Hn]. destruct (negb (same_service i addr)); [by eauto|]. destruct (_ <? _); [|by eauto].
  eexists. split; [reflexivity|]. split; [|done]. apply (Inv_touch _ _ s n i); [done..|].
  destruct (entry_times (inv_entry HI n i Hn)). by split.
Qed.

(** *** Adding an address *)
Lemma Create_ok s addr src :
  consistent s -> mapAddr s !! netaddr (service addr) = None -> nIdCount s < MAX_ID ->
  exists i s', Create addr src s = Some (nIdCount s, s') /\ Inv {[nIdCount s]} 1 s' /\ mapInfo s' !! nIdCount s = Some i /\
    fInTried i = false /\ nRefCount i = 0 /\ address i = address (new_info addr src) /\
    nIdCount s' = nIdCount s + 1 /\ nNew s' = nNew s.
Proof.
  intros HI Ha Hc. unfold Create. rewrite (proj2 (Z.leb_gt _ _)) by done. set (n := nIdCount s) in *.
  set (i := set_nRandomPos (zlen (vRandom s)) (new_info addr src)). eexists i, _. split; [reflexivity|].
  assert (mapInfo s !! n = None) as Hnone.
  { destruct (mapInfo s !! n) as [j|] eqn:Hj; [|done]. pose proof (entry_id (inv_entry HI n j Hj)). lia. }
  assert (forall k, vvNew s !! k <> Some n) as Hnew.
  { intros [b p] Hk. destruct (inv_new HI b p n Hk) as (_ & j & Hj & _). congruence. }
  split; [|man; rewrite lookup_insert_eq; by split_and!].
  pose proof (inv_bound HI). split; man.
  - intros m j [[<- <-]|[Hne Hj]]%lookup_insert_Some.
    + split; man; try done.
      * by rewrite lookup_insert_eq.
      * cbn [nRandomPos i set_nRandomPos]. unfold zlen. rewrite at_nat. by apply list_lookup_middle.
      * lia.
      * symmetry. by apply refs_zero.
      * cbn. set_solver.
    + destruct (inv_entry HI m j Hj). split; man; try done.
      * rewrite lookup_insert_ne; [done|]. intros E. congruence.
      * apply at_Some in entry_pos0 as [Hp Hl]. rewrite <- (Z2Nat.id (nRandomPos j)), at_nat by lia. by apply lookup_app_l_Some.
      * lia.
      * intros Hf _. apply entry_live0; [done|set_solver].
  - intros a m [[<- <-]|[Hne Hm]]%lookup_insert_Some.
    + exists i. by rewrite lookup_insert_eq.
    + destruct (inv_info HI a m Hm) as (j & Hj & Hja). exists j. split; [|done]. rewrite lookup_insert_ne; [done|]. congruence.
  - intros p m [Hm|[Hp Hm]]%lookup_app_Some.
    + destruct (inv_random HI p m Hm) as (j & Hj & Hjp). exists j. split; [|done]. rewrite lookup_insert_ne; [done|]. congruence.
    + apply list_lookup_singleton_Some in Hm as [Hp0 <-]. exists i. rewrite lookup_insert_eq. split; [done|].
      cbn [nRandomPos i set_nRandomPos]. unfold zlen. lia.
  - intros b p m Hm. destruct (inv_new HI b p m Hm) as (Hb & j & Hj & Hf). split; [done|]. exists j. split; [|done].
    rewrite lookup_insert_ne; [done|]. congruence.
  - intros sl m Hm. destruct (inv_tried HI sl m Hm) as (j & Hj & Hf). exists j. split; [|done].
    rewrite lookup_insert_ne; [done|]. congruence.
  - rewrite count_insert by done. cbn. rewrite (inv_ntried HI). lia.
  - rewrite count_insert by done. unfold untried at 2. cbn [fInTried i set_nRandomPos new_info negb Z.b2z]. pose proof (inv_nnew HI). lia.
  - lia.
Qed.

(** An entry in some bucket does not float. *)
Lemma Inv_settled d s n : Inv {[n]} d s -> (forall i, mapInfo s !! n = Some i -> 0 < nRefCount i) -> Inv ∅ d s.
Proof.
  intros HI Hn. split; try apply HI. intros m j Hj. destruct (inv_entry HI m j Hj). split; try done.
  intros Hf _. destruct (decide (m = n)) as [->|Hne]; [by apply Hn|]. apply entry_live0; [done|set_solver].
Qed.

Lemma enter_new_ok s n i src now :
  Inv {[n]} 0 s -> mapInfo s !! n = Some i -> fInTried i = false -> nRefCount i < ADDRMAN_NEW_BUCKETS_PER_ADDRESS ->
  exists s', enter_new n src now s = Some s' /\ consistent s' /\ nIdCount s' = nIdCount s.
Proof.
  intros HI Hn Ht Hmax. unfold enter_new. rewrite Hn. cbn [mbind option_bind].
  set (b := GetNewBucket i (nKey s) src). set (p := GetBucketPosition i (nKey s) true b).
  assert (vvNew s !! (b, p) <> Some n -> exists s', take_slot n b p s = Some s' /\ consistent s' /\ nIdCount s' = nIdCount s) as Hins.
  { intros Hne. unfold take_slot. destruct (ClearNew_ok _ _ s b p HI) as (s1 & -> & HI1 & Hcl). cbn [mbind option_bind].
    destruct (cleared_others _ _ _ Hcl n i Hn Hne) as [q Hq]. rewrite Hq. cbn [mbind option_bind].
    rewrite (update_insert _ _ _ _ Hq). eexists. split; [reflexivity|]. split; [|man; by rewrite (cleared_count _ _ _ Hcl)].
    pose proof (Inv_slot _ _ s1 n _ b p HI1 Hq Ht Hmax) as HI2.
    eapply Inv_weaken, HI2; [set_solver|rewrite (cleared_new _ _ _ Hcl); apply lookup_delete_eq|apply new_bucket_range|].
    rewrite (cleared_key _ _ _ Hcl). by apply same_position. }
  destruct (vvNew s !! (b, p)) as [e|] eqn:He; [|by apply Hins].
  destruct (Z.eqb_spec e n) as [->|Hen].
  { exists s. split; [done|]. split; [|done]. apply (Inv_settled _ _ n HI). intros j Hj.
    rewrite (entry_refs (inv_entry HI n j Hj)). by eapply refs_pos. }
  destruct (inv_new HI b p e He) as (_ & o & Ho & _). rewrite Ho. cbn [mbind option_bind].
  destruct (IsTerrible o now || _); [apply Hins; congruence|].
  destruct (Z.eqb_spec (nRefCount i) 0) as [E|E].
  - destruct (Delete_ok _ _ s n i HI Hn Ht E) as (s' & -> & HI' & Hrm). exists s'. split; [done|].
    split; [eapply Inv_weaken, HI'; set_solver|apply Hrm].
  - exists s. split; [done|]. split; [|done]. apply (Inv_settled _ _ n HI). intros j Hj. assert (j = i) as -> by congruence.
    rewrite (entry_refs (inv_entry HI n i Hn)) in *. pose proof (count_nonneg (is_id n) (vvNew s)). unfold refs in *. lia.
Qed.

Lemma refresh_harmless i addr penalty now : 0 <= i_nLastTry i /\ 0 <= nLastSuccess i -> harmless i (refresh addr penalty now i).
Proof. intros Ht. unfold refresh. destruct (_ && _); by split. Qed.

Lemma Add_ok s addr src penalty now now' draw :
  consistent s -> nIdCount s < MAX_ID ->
  exists r s', Add_ addr src penalty now now' draw s = Some (r, s') /\ consistent s' /\ nIdCount s' <= nIdCount s + 1.
Proof.
  intros HI Hc. unfold Add_. destruct (IsRoutable _); cbn [negb]; [|eexists _, s; split; [done|]; split; [done|lia]].
  destruct (Find (netaddr (service addr)) s) as [[n i]|] eqn:Hf.
  - apply Find_inv in Hf as [_ Hn]. pose proof (inv_entry HI n i Hn) as En.
    pose proof (refresh_harmless i addr penalty now (entry_times En)) as Hh. pose proof (Inv_touch _ _ s n i _ HI Hn Hh) as HI1.
    set (j := refresh addr penalty now i) in *. set (s1 := set_mapInfo (<[n := j]> (mapInfo s)) s) in *.
    assert (mapInfo s1 !! n = Some j) as Hn1 by apply lookup_insert_eq.
    assert (exists r s', Some (false, s1) = Some (r, s') /\ consistent s' /\ nIdCount s' <= nIdCount s + 1) as Hs1.
    { eexists _, s1. split; [done|]. split; [done|]. unfold s1. man. lia. }
    repeat (case_match; [exact Hs1|]).
    destruct (enter_new_ok s1 n j src now') as (s' & -> & HI' & Hc'); [by apply (Inv_weaken ∅)|done|done| |].
    { pose proof (entry_max (inv_entry HI1 n j Hn1)). destruct (Z.eqb_spec (nRefCount j) ADDRMAN_NEW_BUCKETS_PER_ADDRESS); [done|lia]. }
    eexists _, s'. split; [done|]. split; [done|]. rewrite Hc'. unfold s1. man. lia.
  - destruct (Create_ok s addr src HI) as (i & s1 & -> & HI1 & Hn1 & Ht & Hr & Ha & Hc1 & Hnew); [by eapply Find_none|done|].
    cbn [mbind option_bind]. rewrite (update_insert _ _ _ _ Hn1). set (j := set_nTime _ i).
    assert (harmless i j) as Hh by (destruct (entry_times (inv_entry HI1 _ i Hn1)); by split).
    pose proof (Inv_touch _ _ s1 _ i j HI1 Hn1 Hh) as HI2. apply (Inv_nNew _ _ _ 1) in HI2.
    destruct (enter_new_ok _ (nIdCount s) j src now' HI2) as (s' & He & HI' & Hc'); [man; apply lookup_insert_eq|done|man; cbn; rewrite Hr; done|].
    man. rewrite He. cbn [mbind option_bind]. eexists _, s'. split; [done|]. split; [done|]. lia.
Qed.

Lemma add_each_ok l src penalty clock clock' draws k nAdd s :
  consistent s -> nIdCount s + zlen l <= MAX_ID ->
  exists r s', add_each l src penalty clock clock' draws k nAdd s = Some (r, s') /\ consistent s' /\ nIdCount s' <= nIdCount s + zlen l.
Proof.
  revert k nAdd s. induction l as [|a l IH]; intros k nAdd s HI Hc; cbn [add_each].
  - eexists _, s. split; [done|]. split; [done|]. unfold zlen. cbn [length]. lia.
  - rewrite zlen_cons in *. pose proof (zlen_nonneg l).
    destruct (Add_ok s a src penalty (clock k) (clock' k) (draws k) HI) as (r & s1 & -> & HI1 & Hc1); [lia|].
    cbn [mbind option_bind]. destruct (IH (k + 1) (nAdd + (if r then 1 else 0)) s1 HI1) as (r' & s' & -> & HI' & Hc'); [lia|].
    eexists _, s'. split; [done|]. split; [done|]. lia.
Qed.

(** *** Choosing addresses to give away *)
Lemma moved_trans s1 s2 s3 : moved s1 s2 -> moved s2 s3 -> moved s1 s3.
Proof.
  intros H1 H2. split; [|destruct H1, H2; congruence..]. intros n. destruct (moved_info _ _ H2 n) as [p2 ->], (moved_info _ _ H1 n) as [p1 ->].
  exists p2. by destruct (mapInfo s1 !! n).
Qed.

(** [a] is the address of the entry [id], which was not terrible when it was chosen. *)
Definition offered (clock : Z -> Z) (s : CAddrMan) (a : CAddress) (id : Z) : Prop :=
  exists i k, mapInfo s !! id = Some i /\ address i = a /\ IsTerrible i (clock k) = false.

Lemma offered_moved clock s s' a id : moved s s' -> offered clock s' a id -> offered clock s a id.
Proof.
  intros Hm (j & k & Hj & Ha & Ht). destruct (moved_back _ _ _ _ Hm Hj) as (i & p & Hi & ->). by exists i, k.
Qed.

Lemma gather_ok fuel nNodes draws clock n acc ids s0 s :
  consistent s -> moved s0 s -> 0 <= n -> n + Z.of_nat fuel = zlen (vRandom s) ->
  NoDup ids -> Forall2 (offered clock s0) acc ids -> (forall id, id ∈ ids -> exists p, p < n /\ at_ (vRandom s) p = Some id) ->
  zlen acc <= Z.max 0 nNodes ->
  exists l ids' s', gather fuel nNodes draws clock n acc s = Some (l, s') /\ consistent s' /\ moved s0 s' /\
    zlen l <= Z.max 0 nNodes /\ NoDup ids' /\ Forall2 (offered clock s0) l ids'.
Proof.
  revert n acc ids s. induction fuel as [|fuel IH]; intros n acc ids s HI Hm0 Hn Hlen Hnd Hacc Hids Hmax; cbn [gather].
  { eexists _, ids, s. by split_and!. }
  destruct (Z.leb_spec nNodes (zlen acc)); [eexists _, ids, s; by split_and!|].
  set (r := GetRandInt (zlen (vRandom s) - n) (draws n) + n).
  assert (n <= r < zlen (vRandom s)) as Hr.
  { unfold r, GetRandInt, GetRand. rewrite (proj2 (Z.eqb_neq _ 0)) by lia.
    pose proof (Z.mod_pos_bound (draws n) (zlen (vRandom s) - n) ltac:(lia)). lia. }
  destruct (SwapRandom_ok _ _ s n r HI) as (s1 & -> & HI1 & Hm & Hlen1 & _ & Hat & Hothers); [lia..|]. cbn [mbind option_bind].
  destruct (at_range (vRandom s1) n) as [id Hid]; [lia|]. rewrite Hid. cbn [mbind option_bind].
  destruct (random_entry _ _ _ _ _ HI1 Hid) as (i & Hi & _). rewrite Hi. cbn [mbind option_bind].
  pose proof (moved_trans _ _ _ Hm0 Hm) as Hm1. pose proof (random_NoDup _ _ _ HI1) as Hnd1.
  assert (forall id', id' ∈ ids -> exists p, p < n /\ at_ (vRandom s1) p = Some id') as Hids1.
  { intros id' (p & Hp & Hp')%Hids. exists p. split; [done|]. by rewrite Hothers by lia. }
  assert (id ∉ ids) as Hnew.
  { intros (p & Hp & Hp')%Hids1. apply at_Some in Hp' as [Hp0 Hp'], Hid as [_ Hid].
    pose proof (NoDup_lookup _ _ _ _ Hnd1 Hp' Hid). lia. }
  destruct (IsTerrible i (clock n)) eqn:Hterr; cbn [negb].
  - apply (IH (n + 1) acc ids s1); try done; [lia|lia|]. intros id' (p & Hp & Hp')%Hids1. exists p. split; [lia|done].
  - apply (IH (n + 1) (acc ++ [address i]) (ids ++ [id]) s1); try done; [lia|lia| | | |].
    + apply NoDup_app. split; [done|]. split; [|apply NoDup_singleton]. intros x Hx ->%list_elem_of_singleton. done.
    + apply Forall2_app; [done|]. constructor; [|constructor]. apply (offered_moved _ _ _ _ _ Hm1). by exists i, n.
    + intros id' [(p & Hp & Hp')%Hids1| ->%list_elem_of_singleton]%elem_of_app; [exists p; split; [lia|done]|exists n; split; [lia|done]].
    + rewrite zlen_app. change (zlen [address i]) with 1. lia.
Qed.

Lemma GetAddr_ok draws clock s :
  consistent s -> exists l ids s', GetAddr_ draws clock s = Some (l, s') /\ consistent s' /\ moved s s' /\
    100 * zlen l <= ADDRMAN_GETADDR_MAX_PCT * Z.of_nat (size (mapInfo s)) /\ zlen l <= ADDRMAN_GETADDR_MAX /\
    NoDup ids /\ Forall2 (offered clock s) l ids.
Proof.
  intros HI. pose proof (random_bound _ _ _ HI) as Hb. destruct (inv_bound HI) as [_ Hc]. pose proof (zlen_nonneg (vRandom s)) as H0.
  rewrite <- (random_size _ _ _ HI). unfold GetAddr_, ADDRMAN_GETADDR_MAX_PCT, ADDRMAN_GETADDR_MAX, MAX_ID in *.
  set (n := zlen (vRandom s)) in *. assert (u32 (u64 (23 * n) / 100) = 23 * n / 100) as ->.
  { unfold u32, u64. rewrite (Z.mod_small (23 * n)) by lia. apply Z.mod_small. pose proof (Z.div_pos (23 * n) 100).
    pose proof (Z.mul_div_le (23 * n) 100). lia. }
  pose proof (Z.mul_div_le (23 * n) 100 ltac:(lia)). pose proof (Z.div_pos (23 * n) 100 ltac:(lia) ltac:(lia)).
  destruct (gather_ok (length (vRandom s)) (if 2500 <? 23 * n / 100 then 2500 else 23 * n / 100) draws clock 0 [] [] s s)
    as (l & ids & s' & He & HI' & Hm & Hl & Hnd & Hoff).
  - done. - apply moved_refl. - done. - done. - apply NoDup_nil_2. - by constructor.
  - intros id Hid. by apply not_elem_of_nil in Hid. - unfold zlen. cbn [length]. lia.
  - exists l, ids, s'. destruct (Z.ltb_spec 2500 (23 * n / 100)); split_and!; try done; lia.
Qed.

(** ** Sequences of operations *)
Inductive op :=
| OpAdd (vAddr : list CAddress) (src : CNetAddr) (nTimePenalty : Z) (clock clock' draws : Z -> Z)
| OpGood (addr : CService) (time draw : Z)
| OpAttempt (addr : CService) (time : Z)
| OpConnected (addr : CService) (time : Z)
| OpGetAddr (draws clock : Z -> Z).

Definition run_op (o : op) (s : CAddrMan) : option CAddrMan :=
  match o with
  | OpAdd vAddr src penalty clock clock' draws => snd <$> Add vAddr src penalty clock clock' draws s
  | OpGood addr time draw => Good_ addr time draw s
  | OpAttempt addr time => Attempt_ addr time s
  | OpConnected addr time => Connected_ addr time s
  | OpGetAddr draws clock => snd <$> GetAddr_ draws clock s
  end.
Fixpoint run (l : list op) (s : CAddrMan) : option CAddrMan :=
  match l with [] => Some s | o :: l => s ← run_op o s; run l s end.

(** A connection succeeds at a time after 1970. *)
Definition sane (o : op) : Prop :=
  match o with OpGood _ time _ => 0 < time | OpAttempt _ time => 0 <= time | _ => True end.
(** The addresses an operation may enter. *)
Definition adds (o : op) : Z := match o with OpAdd vAddr _ _ _ _ _ => zlen vAddr | _ => 0 end.
Definition total_adds (l : list op) : Z := fold_right (fun o n => adds o + n) 0 l.

Lemma run_op_ok o s :
  consistent s -> sane o -> nIdCount s + adds o <= MAX_ID ->
  exists s', run_op o s = Some s' /\ consistent s' /\ nIdCount s' <= nIdCount s + adds o.
Proof.
  intros HI Hs Hc. destruct o as [l src penalty clock clock' draws|addr time draw|addr time|addr time|draws clock]; cbn [run_op adds sane] in *.
  - unfold Add. destruct (add_each_ok l src penalty clock clock' draws 0 0 s HI Hc) as (r & s' & -> & HI' & Hc'). cbn. eauto.
  - destruct (Good_ok s addr time draw HI Hs) as (s' & -> & HI' & Hc'). exists s'. split; [done|]. split; [done|lia].
  - destruct (Attempt_ok s addr time HI Hs) as (s' & -> & HI' & Hc'). exists s'. split; [done|]. split; [done|lia].
  - destruct (Connected_ok s addr time HI) as (s' & -> & HI' & Hc'). exists s'. split; [done|]. split; [done|lia].
  - destruct (GetAddr_ok draws clock s HI) as (l & ids & s' & -> & HI' & Hm & _). exists s'. split; [done|]. split; [done|].
    rewrite (moved_count _ _ Hm). lia.
Qed.

Lemma adds_nonneg l : 0 <= total_adds l.
Proof.
  induction l as [|o l IH]; cbn [total_adds fold_right]; [lia|]. fold (total_adds l).
  enough (0 <= adds o) by lia. destruct o; cbn [adds]; [apply zlen_nonneg|lia..].
Qed.
Lemma run_ok l s :
  consistent s -> Forall sane l -> nIdCount s + total_adds l <= MAX_ID -> exists s', run l s = Some s' /\ consistent s'.
Proof.
  revert s. induction l as [|o l IH]; intros s HI Hs Hc; cbn [run]; [by exists s|].
  cbn [total_adds fold_right] in Hc. fold (total_adds l) in Hc. pose proof (adds_nonneg l).
  apply Forall_cons in Hs as [Ho Hs].
  destruct (run_op_ok o s HI Ho) as (s1 & -> & HI1 & Hc1); [lia|]. cbn [mbind option_bind]. apply IH; [done|done|lia].
Qed.
End facts.
End AddrManFacts.
