(* ===== verification/AddrManCheck.v ===== *)
(** * AddrManCheck: the consistency check finds nothing

    Consistent tables pass [Check_], so no sequence of operations on a fresh [CAddrMan] fails an
    assertion or is reported as inconsistent; and the bounds that keep one network from filling the
    tables. *)

From stdpp Require Import sorting.
From S2P Require Import Prelude Serialize Crypto Keys Core Catalog Format FormatFacts Base64 NetAddr AddrMan AddrManFacts.

Module AddrManCheck.
Import AddrManFacts.

(** ** Slots *)
Lemma elem_of_slots k b p : (b, p) ∈ slots k <-> 0 <= b < Z.of_nat k /\ 0 <= p < 64.
Proof.
  unfold slots. rewrite list_elem_of_bind. setoid_rewrite list_elem_of_bind. setoid_rewrite list_elem_of_singleton.
  setoid_rewrite list_elem_of_fmap. setoid_rewrite elem_of_seq. split.
  - intros (b' & (p' & [= -> ->] & j & -> & Hj) & i & -> & Hi). lia.
  - intros [Hb Hp]. exists b. split; [|exists (Z.to_nat b); lia]. exists p. split; [done|]. exists (Z.to_nat p). lia.
Qed.
Lemma NoDup_numbers k : NoDup (map Z.of_nat (seq 0 k)).
Proof. apply (NoDup_fmap_2 Z.of_nat), NoDup_seq. Qed.
Lemma NoDup_slots k : NoDup (slots k).
Proof.
  apply NoDup_bind; [| |apply NoDup_numbers].
  - intros a b y _ _ (p & [= ->]%list_elem_of_singleton & _)%list_elem_of_bind (q & [= -> ->]%list_elem_of_singleton & _)%list_elem_of_bind. done.
  - intros a _. apply NoDup_bind; [| |apply NoDup_numbers].
    + intros p q y _ _ ->%list_elem_of_singleton [= ->]%list_elem_of_singleton. done.
    + intros p _. apply NoDup_singleton.
Qed.

#[local] Opaque slots.

(** The slots of a list that hold an id. *)
Definition holders (vv : gmap (Z * Z) Z) (l : list (Z * Z)) (n : Z) : Z :=
  Z.of_nat (length (filter (fun sl => vv !! sl = Some n) l)).
Lemma holders_cons vv sl l n : holders vv (sl :: l) n = Z.b2z (bool_decide (vv !! sl = Some n)) + holders vv l n.
Proof. unfold holders. rewrite filter_cons. case_decide as E; [rewrite bool_decide_true by done|rewrite bool_decide_false by done]; cbn [length Z.b2z]; lia. Qed.
Lemma holders_nonneg vv l n : 0 <= holders vv l n.
Proof. unfold holders. lia. Qed.
Lemma refs_holders vv l n : NoDup l -> (forall k m, vv !! k = Some m -> k ∈ l) -> refs vv n = holders vv l n.
Proof.
  intros Hl Hk. unfold refs, count, holders. f_equal. rewrite <- size_dom, <- (size_list_to_set (C := gset (Z * Z))) by by apply NoDup_filter.
  f_equal. apply set_eq. intros k. rewrite elem_of_dom, elem_of_list_to_set, list_elem_of_filter. unfold is_Some.
  setoid_rewrite map_lookup_filter_Some. cbn. split.
  - intros (m & Hm & Hid%bool_decide_eq_true). subst. eauto.
  - intros [Hn _]. exists n. split; [done|]. by apply bool_decide_eq_true.
Qed.

Section check.
Context `{Digests}.
Implicit Types (s : CAddrMan) (i : CAddrInfo).

Lemma position_range i key f b : 0 <= GetBucketPosition i key f b < 64.
Proof. apply Z.mod_pos_bound. unfold ADDRMAN_BUCKET_SIZE. lia. Qed.
Lemma tried_bucket_range i key : 0 <= GetTriedBucket i key < 256.
Proof. apply Z.mod_pos_bound. unfold ADDRMAN_TRIED_BUCKET_COUNT. lia. Qed.

(** ** The loops *)
Lemma first_error_none {A} (check : A -> Z) l : (forall a, a ∈ l -> check a = 0) -> first_error check l = 0.
Proof.
  induction l as [|a l IH]; intros Hl; cbn [first_error]; [done|]. rewrite (Hl a) by apply list_elem_of_here.
  apply IH. intros b Hb. apply Hl. by apply list_elem_of_further.
Qed.

Lemma check_entry_ok s n i : consistent s -> mapInfo s !! n = Some i -> check_entry s (n, i) = 0.
Proof.
  intros HI Hn. pose proof (inv_entry _ _ _ HI n i Hn) as [Ha Hp Hid Ht Hr Hm Hl [Ht1 Ht2]]. unfold check_entry.
  rewrite Ha, Hp. cbn [default]. rewrite Z.eqb_refl, bool_decide_true by done. cbn [negb].
  apply at_Some in Hp as [Hp _]. rewrite (proj2 (Z.ltb_ge (nRandomPos i) 0)), (proj2 (Z.leb_gt _ (nRandomPos i))) by lia.
  rewrite (proj2 (Z.ltb_ge (i_nLastTry i) 0)), (proj2 (Z.ltb_ge (nLastSuccess i) 0)) by lia. cbn [orb negb].
  destruct (fInTried i) eqn:Hf.
  - destruct (Ht eq_refl) as [_ Hs]. rewrite (proj2 (Z.eqb_neq (nLastSuccess i) 0)) by lia.
    by rewrite Hr, (tried_refs _ _ _ _ _ HI Hn Hf).
  - specialize (Hl eq_refl). rewrite (proj2 (Z.ltb_ge (nRefCount i) 0)), (proj2 (Z.ltb_ge _ (nRefCount i))) by (try done; set_solver by lia).
    rewrite (proj2 (Z.eqb_neq (nRefCount i) 0)) by (specialize (Hl (not_elem_of_empty _)); lia). done.
Qed.

Lemma check_tried_ok s l (S : gset Z) :
  consistent s -> NoDup l ->
  (forall n, n ∈ S <-> exists i, mapInfo s !! n = Some i /\ fInTried i = true /\ tried_slot (nKey s) i ∈ l) ->
  check_tried s l S = inr ∅.
Proof.
  intros HI. revert S. induction l as [|[b p] l IH]; intros S Hl HS; cbn [check_tried].
  { f_equal. apply set_eq. intros n. rewrite HS. setoid_rewrite elem_of_nil. set_solver. }
  apply NoDup_cons in Hl as [Hbp Hl]. destruct (vvTried s !! (b, p)) as [id|] eqn:Hv.
  - destruct (inv_tried _ _ _ HI (b, p) id Hv) as (i & Hi & Hf & Hs).
    rewrite bool_decide_true by (apply HS; exists i; rewrite <- Hs; split_and!; [done|done|apply list_elem_of_here]).
    rewrite Hi. unfold tried_slot in Hs. injection Hs as Hb Hp. cbn [negb]. rewrite <- Hb, Z.eqb_refl. cbn [negb].
    rewrite <- Hb in Hp. rewrite <- Hp, Z.eqb_refl. cbn [negb]. apply IH; [done|]. intros n.
    rewrite elem_of_difference, not_elem_of_singleton, HS. setoid_rewrite elem_of_cons. split.
    + intros [(j & Hj & Hjf & [E|Hjl]) Hne]; [|eauto].
      destruct (entry_tried _ _ _ _ (inv_entry _ _ _ HI n j Hj) Hjf) as [Hv' _]. congruence.
    + intros (j & Hj & Hjf & Hjl). split; [eauto 6|]. intros ->. assert (j = i) as -> by congruence.
      apply Hbp. unfold tried_slot in Hjl. by rewrite <- Hb, <- Hp in Hjl.
  - apply IH; [done|]. intros n. rewrite HS. setoid_rewrite elem_of_cons. split.
    + intros (j & Hj & Hjf & [E|Hjl]); [|eauto].
      destruct (entry_tried _ _ _ _ (inv_entry _ _ _ HI n j Hj) Hjf) as [Hv' _]. congruence.
    + intros (j & Hj & Hjf & Hjl). eauto 6.
Qed.

Lemma check_new_ok s l (M : gmap Z Z) :
  consistent s -> (forall n, M !! n = if 0 <? holders (vvNew s) l n then Some (holders (vvNew s) l n) else None) ->
  check_new s l M = inr ∅.
Proof.
  intros HI. revert M. induction l as [|[b p] l IH]; intros M HM; cbn [check_new].
  { f_equal. apply map_eq. intros n. rewrite HM, lookup_empty. done. }
  destruct (vvNew s !! (b, p)) as [id|] eqn:Hv.
  - destruct (inv_new _ _ _ HI b p id Hv) as (_ & i & Hi & _ & Hp). pose proof (holders_nonneg (vvNew s) l id) as Hh.
    assert (holders (vvNew s) ((b, p) :: l) id = 1 + holders (vvNew s) l id) as Hc by (rewrite holders_cons, Hv, bool_decide_true by done; done).
    rewrite HM, Hc, (proj2 (Z.ltb_lt 0 _)), Hi, <- Hp, Z.eqb_refl by lia. cbn [negb]. apply IH. intros n.
    replace (1 + holders (vvNew s) l id - 1) with (holders (vvNew s) l id) by lia.
    destruct (decide (n = id)) as [->|Hne].
    + destruct (Z.eqb_spec (holders (vvNew s) l id) 0) as [E|E].
      * by rewrite lookup_delete_eq, E.
      * rewrite lookup_insert_eq, (proj2 (Z.ltb_lt 0 _)) by lia. done.
    + assert (holders (vvNew s) ((b, p) :: l) n = holders (vvNew s) l n) as Hn.
      { rewrite holders_cons, Hv, bool_decide_false by congruence. done. }
      rewrite <- Hn, <- HM. case_match; [by rewrite lookup_delete_ne|by rewrite lookup_insert_ne].
  - apply IH. intros n. rewrite HM, holders_cons, Hv, bool_decide_false by discriminate. done.
Qed.

(** ** The sizes *)
Lemma count_both (m : gmap Z CAddrInfo) : count fInTried m + count untried m = Z.of_nat (size m).
Proof.
  induction m as [|n i m Hn Hf IH] using map_first_key_ind; [by rewrite !count_empty, map_size_empty|].
  rewrite !count_insert, map_size_insert_None by done. unfold untried at 2. destruct (fInTried i); cbn [negb Z.b2z]; lia.
Qed.
Lemma size_tried s : Z.of_nat (size (dom (tried_entries s))) = count fInTried (mapInfo s).
Proof. unfold tried_entries, count. by rewrite size_dom. Qed.
Lemma size_new s : Z.of_nat (size (nRefCount <$> new_entries s)) = count untried (mapInfo s).
Proof.
  unfold new_entries, count. rewrite map_size_fmap. do 2 f_equal. apply map_filter_ext. intros n i _. cbn. unfold untried.
  by destruct (fInTried i).
Qed.

Lemma tried_in_slots s n : consistent s ->
  n ∈ dom (tried_entries s) <-> exists i, mapInfo s !! n = Some i /\ fInTried i = true /\ tried_slot (nKey s) i ∈ slots 256.
Proof.
  intros HI. unfold tried_entries. rewrite elem_of_dom. unfold is_Some. setoid_rewrite map_lookup_filter_Some. cbn. split.
  - intros (i & Hi & Hf). exists i. split_and!; [done|done|]. unfold tried_slot. apply elem_of_slots.
    split; [exact (tried_bucket_range i (nKey s))|apply position_range].
  - intros (i & Hi & Hf & _). eauto.
Qed.

Lemma new_in_slots s k n : consistent s -> vvNew s !! k = Some n -> k ∈ slots 1024.
Proof.
  destruct k as [b p]. intros HI Hk. destruct (inv_new _ _ _ HI b p n Hk) as (Hb & i & _ & _ & ->).
  apply elem_of_slots. split; [exact Hb|apply position_range].
Qed.
Lemma counts_of_new s n : consistent s ->
  (nRefCount <$> new_entries s) !! n = if 0 <? refs (vvNew s) n then Some (refs (vvNew s) n) else None.
Proof.
  intros HI. unfold new_entries. rewrite lookup_fmap. destruct (mapInfo s !! n) as [i|] eqn:Hn.
  - pose proof (inv_entry _ _ _ HI n i Hn) as En. destruct (fInTried i) eqn:Hf.
    + rewrite (tried_refs _ _ _ _ _ HI Hn Hf). cbn. rewrite (proj2 (map_lookup_filter_None _ _ _)); [done|].
      right. intros j Hj. cbn. congruence.
    + rewrite (proj2 (map_lookup_filter_Some _ _ _ i)) by done. cbn. pose proof (entry_live _ _ _ _ En Hf (not_elem_of_empty n)) as Hl.
      rewrite (entry_refs _ _ _ _ En) in *. by rewrite (proj2 (Z.ltb_lt 0 _)).
  - rewrite (proj2 (map_lookup_filter_None _ _ _)) by by left. cbn. assert (refs (vvNew s) n = 0) as ->; [|done].
    apply refs_zero. intros [b p] Hk. destruct (inv_new _ _ _ HI b p n Hk) as (_ & j & Hj & _). congruence.
Qed.

Lemma Check_ok s : consistent s -> Check_ s = 0.
Proof.
  intros HI. unfold Check_. rewrite (random_size _ _ _ HI), size_tried, size_new, (inv_ntried _ _ _ HI).
  pose proof (inv_nnew _ _ _ HI) as Hn. rewrite Z.add_0_r in Hn. rewrite Hn, count_both, !Z.eqb_refl. cbn [negb].
  rewrite first_error_none.
  2: { intros [n i] Hi. apply check_entry_ok; [done|]. apply elem_of_map_to_list. unfold ordered_entries in Hi.
       by rewrite merge_sort_Permutation in Hi. }
  cbn [Z.eqb negb]. pose proof (NoDup_slots 256) as Hnd1. pose proof (NoDup_slots 1024) as Hnd2.
  rewrite (check_tried_ok s (slots 256)) by (auto using tried_in_slots).
  rewrite (check_new_ok s (slots 1024)).
  - rewrite !bool_decide_true by done. cbn [negb]. destruct (inv_bound _ _ _ HI) as [Hkey _]. by rewrite (proj2 (Z.eqb_neq _ _)).
  - done.
  - intros n. rewrite counts_of_new by done. rewrite (refs_holders _ (slots 1024)); [done|done|]. eauto using new_in_slots.
Qed.

(** C29. The tables of addresses stay consistent: from fresh tables with a key, every sequence of
    additions, successes, attempts, connections and requests for addresses runs without failing an
    assertion, and the consistency check of the code then reports no error; in whatever order the
    operations come and whatever the random draws and the times (those of successes being after the
    epoch), as long as fewer addresses are added than there are ids. *)
Theorem addrman_consistent key ops :
  key <> 0 -> Forall sane ops -> total_adds ops <= MAX_ID ->
  exists s, run ops (new_man key) = Some s /\ Check_ s = 0.
Proof.
  intros Hk Hs Hc. destruct (run_ok ops (new_man key) (Inv_empty key Hk) Hs Hc) as (s & -> & HI).
  exists s. split; [done|by apply Check_ok].
Qed.

Lemma offered_NoDup clock s l ids :
  consistent s -> NoDup ids -> Forall2 (offered clock s) l ids -> NoDup (map (fun a => netaddr (service a)) l).
Proof.
  intros HI. revert ids. induction l as [|a l IH]; intros ids Hnd Hoff; [apply NoDup_nil_2|].
  apply Forall2_cons_inv_l in Hoff as (id & ids' & Ha & Hl & ->). apply NoDup_cons in Hnd as [Hid Hnd].
  cbn [map]. apply NoDup_cons. split; [|by eapply IH]. intros (b & Hab & Hb)%list_elem_of_fmap. apply Hid.
  apply list_elem_of_lookup in Hb as [k Hk]. destruct (Forall2_lookup_l _ _ _ _ _ Hl Hk) as (id' & Hk' & Hb).
  destruct Ha as (i & t & Hi & <- & _), Hb as (j & u & Hj & <- & _).
  pose proof (entry_addr _ _ _ _ (inv_entry _ _ _ HI id i Hi)) as E1. pose proof (entry_addr _ _ _ _ (inv_entry _ _ _ HI id' j Hj)) as E2.
  unfold addr_of in *. rewrite Hab in E1. assert (id = id') as -> by congruence. by eapply list_elem_of_lookup_2.
Qed.

(** What is given away when a peer asks for addresses: at most 23 in a hundred of the known
    addresses and never more than 2500, all different, each of them known and not terrible when it
    was chosen; the tables change in their order only. *)
Theorem GetAddr_selects key ops draws clock :
  key <> 0 -> Forall sane ops -> total_adds ops <= MAX_ID ->
  exists s l s', run ops (new_man key) = Some s /\ GetAddr_ draws clock s = Some (l, s') /\ moved s s' /\
    100 * zlen l <= ADDRMAN_GETADDR_MAX_PCT * Z.of_nat (size (mapInfo s)) /\ zlen l <= ADDRMAN_GETADDR_MAX /\
    NoDup (map (fun a => netaddr (service a)) l) /\ Forall (fun a => exists id, offered clock s a id) l.
Proof.
  intros Hk Hs Hc. destruct (run_ok ops (new_man key) (Inv_empty key Hk) Hs Hc) as (s & Hrun & HI).
  destruct (GetAddr_ok draws clock s HI) as (l & ids & s' & He & _ & Hm & Hp & Hx & Hnd & Hoff).
  exists s, l, s'. do 5 (split; [done|]). split; [by eapply offered_NoDup|].
  clear -Hoff. induction Hoff; constructor; eauto.
Qed.

(** ** One group, few buckets *)
(** A source that controls one group of addresses reaches at most 64 of the 1024 new buckets with
    the addresses it sends, whatever they are; and the addresses of one group reach at most 8 of the
    256 tried buckets. *)
Theorem group_buckets key :
  (forall src, exists reach, (length reach <= 64)%nat /\
     forall i src', GetGroup src' = GetGroup src -> GetNewBucket i key src' ∈ reach) /\
  (forall a, exists reach, (length reach <= 8)%nat /\
     forall i, GetGroup (addr_of i) = GetGroup a -> GetTriedBucket i key ∈ reach).
Proof.
  split.
  - intros src. exists (map (fun k => cheap_hash key (put_vector (GetGroup src) ++ put_u64 (Z.of_nat k)) mod ADDRMAN_NEW_BUCKET_COUNT) (seq 0 64)).
    split; [by rewrite length_map, length_seq|]. intros i src' Hg. unfold GetNewBucket. rewrite Hg. cbv zeta.
    set (h := cheap_hash key (put_vector (GetGroup (addr_of i)) ++ put_vector (GetGroup src))). apply list_elem_of_fmap. exists (Z.to_nat (h mod ADDRMAN_NEW_BUCKETS_PER_SOURCE_GROUP)).
    pose proof (Z.mod_pos_bound h ADDRMAN_NEW_BUCKETS_PER_SOURCE_GROUP eq_refl) as Hr.
    rewrite Z2Nat.id by lia. split; [done|]. apply elem_of_seq. unfold ADDRMAN_NEW_BUCKETS_PER_SOURCE_GROUP in *. lia.
  - intros a. exists (map (fun k => cheap_hash key (put_vector (GetGroup a) ++ put_u64 (Z.of_nat k)) mod ADDRMAN_TRIED_BUCKET_COUNT) (seq 0 8)).
    split; [by rewrite length_map, length_seq|]. intros i Hg. unfold GetTriedBucket. rewrite Hg. cbv zeta.
    set (h := cheap_hash key (put_vector (GetKey (service (address i))))). apply list_elem_of_fmap. exists (Z.to_nat (h mod ADDRMAN_TRIED_BUCKETS_PER_GROUP)).
    pose proof (Z.mod_pos_bound h ADDRMAN_TRIED_BUCKETS_PER_GROUP eq_refl) as Hr.
    rewrite Z2Nat.id by lia. split; [done|]. apply elem_of_seq. unfold ADDRMAN_TRIED_BUCKETS_PER_GROUP in *. lia.
Qed.
End check.

(** ** A run *)
(** Digests that depend on every byte. *)
Definition poly_digest (n : nat) (m : bytes) : bytes :=
  le_bytes n (fold_left (fun h b => (h * 257 + uchar b + 1) mod 1000003) m 5).
Definition poly_digests : Digests := {|
  SHA256 := poly_digest 32; SHA1 := poly_digest 20; RIPEMD160 := poly_digest 20; HMAC_SHA512 k m := poly_digest 64 (k ++ m) |}.

(** Two hosts heard of from a third; one is connected to, the other fails; then a peer asks. *)
Definition host (d : Z) : CAddress :=
  mk_address (mk_service (mk_netaddr (pchIPv4 ++ chars [12; 34; 9; d])) 8333) 1 1600000000 0.
Definition sample : list op :=
  [OpAdd [host 1; host 2; host 1] (netaddr (service (host 3))) 0 (fun _ => 1600000100) (fun _ => 1600000100) (fun _ => 1);
   OpGood (service (host 1)) 1600000200 5;
   OpAttempt (service (host 2)) 1600000300;
   OpConnected (service (host 1)) 1600009000;
   OpGetAddr (fun _ => 3) (fun _ => 1600009001)].

Lemma sample_sane : Forall sane sample.
Proof. repeat (apply List.Forall_cons; [cbn [sane]; first [exact I|lia]|]). apply List.Forall_nil. Qed.
Lemma sample_adds : total_adds sample <= MAX_ID.
Proof. vm_compute. discriminate. Qed.

Lemma addrman_consistent_witness : exists s, @run poly_digests sample (new_man 7) = Some s /\ @Check_ poly_digests s = 0.
Proof. exact (@addrman_consistent poly_digests 7 sample ltac:(discriminate) sample_sane sample_adds). Defined.

Lemma GetAddr_selects_witness : exists s l s',
  @run poly_digests sample (new_man 7) = Some s /\ GetAddr_ (fun _ => 1) (fun _ => 1600009001) s = Some (l, s') /\
  zlen l <= ADDRMAN_GETADDR_MAX.
Proof.
  destruct (@GetAddr_selects poly_digests 7 sample (fun _ => 1) (fun _ => 1600009001) ltac:(discriminate) sample_sane sample_adds)
    as (s & l & s' & Hrun & He & _ & _ & Hl & _). exists s, l, s'. split; [exact Hrun|split; [exact He|exact Hl]].
Defined.

(** The first host ends in the tried table, the second stays new with one failed attempt. *)
Definition totals (o : option CAddrMan) : option (nat * Z * Z * Z) :=
  s ← o; Some (size (mapInfo s), nTried s, nNew s, nIdCount s).
Example sample_outcome : totals (@run poly_digests sample (new_man 7)) = Some (2%nat, 1, 1, 2).
Proof. vm_compute. reflexivity. Qed.

(** [Clear] leaves the entries behind: a table cleared after use is not consistent. *)
Example cleared_inconsistent :
  (s ← @run poly_digests (take 1 sample) (new_man 7); Some (@Check_ poly_digests (Clear 8 s))) = Some (-14).
Proof. vm_compute. reflexivity. Qed.
End AddrManCheck.
