(* ===== verification/Wallet.v ===== *)
(** * Wallet: the wallet's transactions and coins (src/src/wallet.h, wallet.cpp, main.cpp)

    [CMerkleTx] with its depth in the main chain, [CWalletTx] with its flags of
    spent outputs, the amounts and balances of [CWallet], and the outputs it
    offers for spending ([AvailableCoins], [AvailableCoinsForStaking]).

    The amounts a [CWalletTx] keeps in memory once they are computed, and the flag
    that a Merkle branch was already checked, are left out: an amount is
    computed when it is asked for.  A pointer to a wallet transaction is its key in
    [mapWallet]; the map is walked in the order of its keys.  [None] is an
    exception, or a call that does not return. *)

From S2P Require Import Prelude BigNum ScriptOps Serialize Crypto Keys Core SigHash Interp Standard Signing TxCheck Block Mempool Chain Connect BlockConnect Activate.
From stdpp Require Import sorting.
Import Merkle Pool Check.
Open Scope Z_scope.

Record CMerkleTx := mk_merkletx { m_tx : CTransaction; hashBlock : Z; vMerkleBranch : list Z; nIndex : Z }.

Record CWalletTx := mk_wallettx {
  w_merkle : CMerkleTx;
  vtxPrev : list CMerkleTx;
  vfSpent : list bool
}.
Definition w_tx (w : CWalletTx) : CTransaction := m_tx (w_merkle w).

Record CWallet := mk_wallet {
  keystore : CBasicKeyStore;
  mapWallet : gmap Z CWalletTx;
  mapAddressBook : list CTxDestination;
  fSplitBlock : bool
}.

Record COutput := mk_output { o_tx : Z; o_i : Z; o_depth : Z }.

(** ** The depth of a transaction in the main chain *)
Section depth.
Context `{Digests}.
Variable nCoinbaseMaturity : Z.
Variable s : ChainState.

(** [CBlockIndex::IsInMainChain]. *)
Definition IsInMainChain_block (hash : Z) (b : CBlockIndex) : bool :=
  bool_decide (is_Some (pnext b)) || bool_decide (best_block s = Some hash).

Definition GetDepthInMainChainINTERNAL (t : CMerkleTx) : option Z :=
  if (hashBlock t =? 0) || (nIndex t =? -1) then Some 0 else
  match mapBlockIndex s !! hashBlock t with
  | None => Some 0
  | Some (b, _) =>
    if negb (IsInMainChain_block (hashBlock t) b) then Some 0
    else if negb (CheckMerkleBranch (Tx.GetHash (m_tx t)) (vMerkleBranch t) (nIndex t) =? bi_hashMerkleRoot b) then Some 0
    else h ← best_block s; '(best, _) ← mapBlockIndex s !! h; Some (nHeight best - nHeight b + 1)
  end.

Definition GetDepthInMainChain (t : CMerkleTx) : option Z :=
  nResult ← GetDepthInMainChainINTERNAL t;
  Some (if (nResult =? 0) && negb (exists_ (Tx.GetHash (m_tx t)) (mempool s)) then -1 else nResult).

Definition IsInMainChain (t : CMerkleTx) : option bool :=
  nResult ← GetDepthInMainChainINTERNAL t; Some (0 <? nResult).

Definition GetBlocksToMaturity (t : CMerkleTx) : option Z :=
  if negb (Tx.IsCoinBase (m_tx t) || Tx.IsCoinStake (m_tx t)) then Some 0 else
  nDepth ← GetDepthInMainChain t;
  Some (Z.max 0 (nCoinbaseMaturity + 1 - nDepth)).
End depth.

(** ** The flags of spent outputs *)
Module SpentFlags.
Definition with_spent (v : list bool) (w : CWalletTx) : CWalletTx := mk_wallettx (w_merkle w) (vtxPrev w) v.

(** [vfSpent.resize(vout.size())]: new places are false. *)
Definition resize_spent (w : CWalletTx) : list bool :=
  take (length (vout (w_tx w))) (vfSpent w) ++ replicate (length (vout (w_tx w)) - length (vfSpent w)) false.

Definition mark (b : bool) (nOut : Z) (w : CWalletTx) : option CWalletTx :=
  if zlen (vout (w_tx w)) <=? nOut then None else Some (with_spent (<[Z.to_nat nOut := b]> (resize_spent w)) w).
Definition MarkSpent (nOut : Z) (w : CWalletTx) : option CWalletTx := mark true nOut w.
Definition MarkUnspent (nOut : Z) (w : CWalletTx) : option CWalletTx := mark false nOut w.

Definition IsSpent (nOut : Z) (w : CWalletTx) : option bool :=
  if zlen (vout (w_tx w)) <=? nOut then None
  else if zlen (vfSpent w) <=? nOut then Some false
  else vfSpent w !! Z.to_nat nOut.

(** [UpdateSpent]: whether any flag was set, and the transaction. *)
Fixpoint update_flags (vfNewSpent old : list bool) : bool * list bool :=
  match vfNewSpent, old with
  | n :: vfNewSpent, o :: old =>
    let '(r, l) := update_flags vfNewSpent old in ((n && negb o) || r, (n || o) :: l)
  | _, _ => (false, old)
  end.
Definition UpdateSpent (vfNewSpent : list bool) (w : CWalletTx) : bool * CWalletTx :=
  let '(r, l) := update_flags vfNewSpent (vfSpent w) in (r, with_spent l w).
End SpentFlags.
Import SpentFlags.

(** ** Amounts *)
Section amounts.
Context `{Digests} `{ECLib}.
Variable nMaxDatacarrierBytes : Z.
Implicit Types w : CWallet.

Definition IsMine_out w (txout : CTxOut) : option bool := IsMine nMaxDatacarrierBytes (keystore w) (scriptPubKey txout).

(** The wallet's output that an input spends, when there is one. *)
Definition prev_out w (txin : CTxIn) : option CTxOut :=
  prev ← mapWallet w !! o_hash (prevout txin);
  if o_n (prevout txin) <? zlen (vout (w_tx prev)) then at_ (vout (w_tx prev)) (o_n (prevout txin)) else None.

Definition IsMine_in w (txin : CTxIn) : option bool :=
  match prev_out w txin with None => Some false | Some txout => IsMine_out w txout end.

Definition GetDebit_in w (txin : CTxIn) : option Z :=
  match prev_out w txin with
  | None => Some 0
  | Some txout => m ← IsMine_out w txout; Some (if (m : bool) then nValue txout else 0)
  end.

Definition GetCredit_out w (txout : CTxOut) : option Z :=
  if negb (MoneyRange (nValue txout)) then None else
  m ← IsMine_out w txout; Some (if (m : bool) then nValue txout else 0).

Definition IsChange w (txout : CTxOut) : option bool :=
  match ExtractDestination nMaxDatacarrierBytes (scriptPubKey txout) with
  | None => Some false
  | Some address => Some (IsMine_dest (keystore w) address && negb (bool_decide (address ∈ mapAddressBook w)))
  end.
Definition GetChange_out w (txout : CTxOut) : option Z :=
  if negb (MoneyRange (nValue txout)) then None else
  c ← IsChange w txout; Some (if (c : bool) then nValue txout else 0).

(** The sums of [GetDebit], [GetCredit] and [GetChange]: an amount out of range throws. *)
Fixpoint sum_money {A} (f : A -> option Z) (n : Z) (l : list A) : option Z :=
  match l with
  | [] => Some n
  | a :: l => x ← f a; let n := i64 (n + x) in if negb (MoneyRange n) then None else sum_money f n l
  end.
Definition GetDebit w (tx : CTransaction) : option Z := sum_money (GetDebit_in w) 0 (vin tx).
Definition GetCredit w (tx : CTransaction) : option Z := sum_money (GetCredit_out w) 0 (vout tx).
Definition GetChange w (tx : CTransaction) : option Z := sum_money (GetChange_out w) 0 (vout tx).

Definition IsFromMe w (tx : CTransaction) : option bool := nDebit ← GetDebit w tx; Some (0 <? nDebit).
Variable nMinimumInputValue : Z.

(** [IsMine] of a transaction. *)
Fixpoint any_mine w (l : list CTxOut) : option bool :=
  match l with
  | [] => Some false
  | txout :: l =>
    m ← IsMine_out w txout;
    if (m : bool) && (nMinimumInputValue <=? nValue txout) then Some true else any_mine w l
  end.
Definition IsMine_tx w (tx : CTransaction) : option bool := any_mine w (vout tx).
End amounts.

(** The order of the keys of a map. *)
Definition key_le (a b : Z * CWalletTx) : Prop := Z.le a.1 b.1.
#[export] Instance key_le_dec a b : Decision (key_le a b).
Proof. unfold key_le. apply _. Defined.

(** ** Trust *)
Section trust.
Context `{Digests} `{ECLib} `{NodeEnv}.
Variable s : ChainState.
Variable fConfChange : bool.
Implicit Types w : CWallet.

Definition final (tx : CTransaction) : bool := IsFinalTx (best_height s) adjusted_time tx 0 0.

(** The loop of [IsTrusted] over its growing work queue; a round takes the first entry,
    and [mapPrev] is the map of the supporting transactions by their hashes. *)
Fixpoint trust_loop (fuel : nat) w (mapPrev : gmap Z CMerkleTx) (vWorkQueue : list CMerkleTx) : option bool :=
  match vWorkQueue with
  | [] => Some true
  | ptx :: vWorkQueue =>
    match fuel with
    | O => None
    | S fuel =>
      if negb (final (m_tx ptx)) then Some false else
      nPDepth ← GetDepthInMainChain s ptx;
      if 1 <=? nPDepth then trust_loop fuel w mapPrev vWorkQueue
      else if nPDepth <? 0 then Some false
      else
        mine ← IsFromMe nMaxDatacarrierBytes w (m_tx ptx);
        if negb mine then Some false else
        match mapM (fun txin => mapPrev !! o_hash (prevout txin)) (vin (m_tx ptx)) with
        | None => Some false
        | Some prevs => trust_loop fuel w mapPrev (vWorkQueue ++ prevs)
        end
    end
  end.

(** [mapPrev] when the loop has filled it. *)
Definition supporting (t : CWalletTx) : gmap Z CMerkleTx :=
  list_to_map (reverse (map (fun tx => (Tx.GetHash (m_tx tx), tx)) (vtxPrev t))).

(** The fuel is for the work queue, which is empty in the end because no
    transaction spends itself. *)
Definition IsTrusted (fuel : nat) w (t : CWalletTx) : option bool :=
  if negb (final (w_tx t)) then Some false else
  nDepth ← GetDepthInMainChain s (w_merkle t);
  if 1 <=? nDepth then Some true
  else if nDepth <? 0 then Some false
  else if fConfChange then Some false
  else
    mine ← IsFromMe nMaxDatacarrierBytes w (w_tx t);
    if negb mine then Some false else
    trust_loop fuel w (supporting t) [w_merkle t].

(** ** Balances and available coins *)
Variable trust_fuel : nat.
Variable nMinimumInputValue : Z.

(** The transactions in the order of the map. *)
Definition wallet_txs w : list (Z * CWalletTx) := merge_sort key_le (map_to_list (mapWallet w)).

(** The immaturity test of [GetCredit] and [GetAvailableCredit]. *)
Definition immature (t : CMerkleTx) : option bool :=
  nBlocks ← GetBlocksToMaturity nCoinbaseMaturity s t;
  Some ((Tx.IsCoinBase (m_tx t) || Tx.IsCoinStake (m_tx t)) && (0 <? nBlocks)).

Fixpoint unspent_credit w (t : CWalletTx) (i : Z) (l : list CTxOut) (nCredit : Z) : option Z :=
  match l with
  | [] => Some nCredit
  | txout :: l =>
    spent ← IsSpent i t;
    if (spent : bool) then unspent_credit w t (i + 1) l nCredit
    else
      c ← GetCredit_out nMaxDatacarrierBytes w txout;
      let nCredit := i64 (nCredit + c) in
      if negb (MoneyRange nCredit) then None else unspent_credit w t (i + 1) l nCredit
  end.
Definition GetAvailableCredit w (t : CWalletTx) : option Z :=
  im ← immature (w_merkle t);
  if (im : bool) then Some 0 else unspent_credit w t 0 (vout (w_tx t)) 0.

(** A total over the wallet. *)
Fixpoint total_over (f : CWalletTx -> option Z) (l : list (Z * CWalletTx)) (nTotal : Z) : option Z :=
  match l with
  | [] => Some nTotal
  | (_, t) :: l => x ← f t; total_over f l (i64 (nTotal + x))
  end.

Definition GetBalance w : option Z :=
  total_over (fun t =>
    trusted ← IsTrusted trust_fuel w t;
    if (trusted : bool) then GetAvailableCredit w t else Some 0) (wallet_txs w) 0.

Definition GetUnconfirmedBalance w : option Z :=
  total_over (fun t =>
    pending ← (if negb (final (w_tx t)) then Some true else
      trusted ← IsTrusted trust_fuel w t;
      if (trusted : bool) then Some false else nDepth ← GetDepthInMainChain s (w_merkle t); Some (nDepth =? 0));
    if (pending : bool) then GetAvailableCredit w t else Some 0) (wallet_txs w) 0.

Definition GetImmatureBalance w : option Z :=
  total_over (fun t =>
    if negb (Tx.IsCoinBase (w_tx t)) then Some 0 else
    nBlocks ← GetBlocksToMaturity nCoinbaseMaturity s (w_merkle t);
    if nBlocks <=? 0 then Some 0 else
    main ← IsInMainChain s (w_merkle t);
    if (main : bool) then GetCredit nMaxDatacarrierBytes w (w_tx t) else Some 0) (wallet_txs w) 0.

(** [GetStake] and [GetNewMint], which differ in the kind of transaction. *)
Definition total_immature w (kind : CTransaction -> bool) : option Z :=
  total_over (fun t =>
    if negb (kind (w_tx t)) then Some 0 else
    nBlocks ← GetBlocksToMaturity nCoinbaseMaturity s (w_merkle t);
    if nBlocks <=? 0 then Some 0 else
    nDepth ← GetDepthInMainChain s (w_merkle t);
    if nDepth <=? 0 then Some 0 else GetCredit nMaxDatacarrierBytes w (w_tx t)) (wallet_txs w) 0.
Definition GetStake w : option Z := total_immature w Tx.IsCoinStake.
Definition GetNewMint w : option Z := total_immature w Tx.IsCoinBase.

(** The coins chosen by the user; [None] is a null pointer. *)
Definition HasSelected (coinControl : option (list COutPoint)) : bool :=
  match coinControl with Some (_ :: _) => true | _ => false end.
Definition control_allows (coinControl : option (list COutPoint)) (hash i : Z) : bool :=
  match coinControl with
  | None | Some [] => true
  | Some sel => bool_decide (mk_outpoint hash i ∈ sel)
  end.

(** The outputs of a transaction that can be spent. *)
Fixpoint coins_of w (allows : Z -> bool) (hash nDepth : Z) (t : CWalletTx) (i : Z) (l : list CTxOut) : option (list COutput) :=
  match l with
  | [] => Some []
  | txout :: l =>
    spent ← IsSpent i t;
    take ← (if (spent : bool) then Some false else
            mine ← IsMine_out nMaxDatacarrierBytes w txout;
            Some ((mine : bool) && (nMinimumInputValue <=? nValue txout) && allows i));
    rest ← coins_of w allows hash nDepth t (i + 1) l;
    Some (if (take : bool) then mk_output hash i nDepth :: rest else rest)
  end.

(** The depth of a transaction whose coins are offered. *)
Definition spendable_depth w (fOnlyConfirmed : bool) (t : CWalletTx) : option (option Z) :=
  if negb (final (w_tx t)) then Some None else
  trusted ← (if fOnlyConfirmed then IsTrusted trust_fuel w t else Some true);
  if negb trusted then Some None else
  nBlocks ← GetBlocksToMaturity nCoinbaseMaturity s (w_merkle t);
  if Tx.IsCoinBase (w_tx t) && (0 <? nBlocks) then Some None
  else if Tx.IsCoinStake (w_tx t) && (0 <? nBlocks) then Some None
  else
    nDepth ← GetDepthInMainChain s (w_merkle t);
    Some (if nDepth <? 0 then None else Some nDepth).

Fixpoint collect_coins w (depth : CWalletTx -> option (option Z)) (allows : Z -> Z -> bool) (l : list (Z * CWalletTx)) :
    option (list COutput) :=
  match l with
  | [] => Some []
  | (hash, t) :: l =>
    d ← depth t;
    coins ← match d with None => Some [] | Some nDepth => coins_of w (allows hash) hash nDepth t 0 (vout (w_tx t)) end;
    rest ← collect_coins w depth allows l;
    Some (coins ++ rest)
  end.

Definition AvailableCoins w (fOnlyConfirmed : bool) (coinControl : option (list COutPoint)) : option (list COutput) :=
  collect_coins w (spendable_depth w fOnlyConfirmed) (control_allows coinControl) (wallet_txs w).

Definition staking_depth (nSpendTime : Z) (t : CWalletTx) : option (option Z) :=
  if nSpendTime <? u32 (nTime (w_tx t) + nStakeMinAge) then Some None else
  nDepth ← GetDepthInMainChain s (w_merkle t);
  if nDepth <? 1 then Some None
  else if nDepth <? nStakeMinConfirmations then Some None
  else
    nBlocks ← GetBlocksToMaturity nCoinbaseMaturity s (w_merkle t);
    Some (if 0 <? nBlocks then None else Some nDepth).

Definition AvailableCoinsForStaking w (nSpendTime : Z) : option (list COutput) :=
  collect_coins w (staking_depth nSpendTime) (fun _ _ => true) (wallet_txs w).

(** ** [WalletUpdateSpent] *)
Definition set_tx (hash : Z) (t : CWalletTx) w : CWallet :=
  mk_wallet (keystore w) (<[hash := t]> (mapWallet w)) (mapAddressBook w) (fSplitBlock w).

Fixpoint mark_inputs w (l : list CTxIn) : option CWallet :=
  match l with
  | [] => Some w
  | txin :: l =>
    let n := o_n (prevout txin) in
    match mapWallet w !! o_hash (prevout txin) with
    | None => mark_inputs w l
    | Some wtx =>
      if zlen (vout (w_tx wtx)) <=? n then mark_inputs w l else
      txout ← at_ (vout (w_tx wtx)) n;
      spent ← IsSpent n wtx;
      mine ← (if (spent : bool) then Some false else IsMine_out nMaxDatacarrierBytes w txout);
      if (mine : bool) then
        (* the log line asks for the credit, which can throw *)
        im ← immature (w_merkle wtx);
        _ ← (if (im : bool) then Some 0 else GetCredit nMaxDatacarrierBytes w (w_tx wtx));
        wtx ← MarkSpent n wtx;
        mark_inputs (set_tx (o_hash (prevout txin)) wtx w) l
      else mark_inputs w l
    end
  end.

(** [fBlock]: the own outputs of a transaction of the wallet are unspent again. *)
Fixpoint unmark_outputs w (hash i : Z) (l : list CTxOut) : option CWallet :=
  match l with
  | [] => Some w
  | txout :: l =>
    mine ← IsMine_out nMaxDatacarrierBytes w txout;
    if (mine : bool) then
      wtx ← mapWallet w !! hash;
      wtx ← MarkUnspent i wtx;
      unmark_outputs (set_tx hash wtx w) hash (i + 1) l
    else unmark_outputs w hash (i + 1) l
  end.

Definition WalletUpdateSpent w (tx : CTransaction) (fBlock : bool) : option CWallet :=
  w ← mark_inputs w (vin tx);
  if fBlock then unmark_outputs w (Tx.GetHash tx) 0 (vout tx) else Some w.
End trust.
