(* ===== verification/WalletFacts.v ===== *)
(** * WalletFacts: the trust of unconfirmed transactions, and the flags of spent outputs (src/src/wallet.h)

    [IsTrusted] walks the supporting transactions without remembering which it has
    seen, so its work can grow exponentially with the length of a chain of
    unconfirmed transactions; it ends because no transaction spends itself. *)

From S2P Require Import Prelude BigNum ScriptOps Serialize Crypto Keys Core SigHash Interp Standard Signing TxCheck Block Mempool Chain Connect BlockConnect Activate Wallet.
Import SpentFlags.
Open Scope Z_scope.

(** ** Termination of [IsTrusted] *)
Section trust.
Context `{Digests} `{ECLib} `{NodeEnv}.
Variable s : ChainState.
Variable fConfChange : bool.
Variable w : CWallet.

(** The rank of a transaction falls along its supporting inputs, no transaction has
    more than [width] of them, and its depth and debit can be computed. *)
Record supported (rank : Z -> nat) (width : nat) (mapPrev : gmap Z CMerkleTx) (t : CMerkleTx) : Prop := {
  sup_rank : forall txin prev, txin ∈ vin (m_tx t) -> mapPrev !! o_hash (prevout txin) = Some prev ->
    (rank (Tx.GetHash (m_tx prev)) < rank (Tx.GetHash (m_tx t)))%nat;
  sup_width : (length (vin (m_tx t)) <= width)%nat;
  sup_depth : is_Some (GetDepthInMainChain s t);
  sup_debit : is_Some (IsFromMe nMaxDatacarrierBytes w (m_tx t))
}.

(** The rounds that a queue can take. *)
Definition queue_cost (rank : Z -> nat) (width : nat) (l : list CMerkleTx) : nat :=
  foldr (fun t n => (S width ^ rank (Tx.GetHash (m_tx t)) + n)%nat) 0%nat l.

Lemma queue_cost_app rank width l1 l2 : queue_cost rank width (l1 ++ l2) = (queue_cost rank width l1 + queue_cost rank width l2)%nat.
Proof. induction l1 as [|t l1 IH]; [done|]. simpl. rewrite IH. lia. Qed.

Lemma queue_cost_below rank width l r : (1 <= r)%nat -> Forall (fun t => (rank (Tx.GetHash (m_tx t)) < r)%nat) l ->
  (queue_cost rank width l <= length l * S width ^ (r - 1))%nat.
Proof.
  intros Hr. induction 1 as [|t l Ht Hl IH]; [done|]. cbn [queue_cost foldr length]. fold (queue_cost rank width l).
  assert (S width ^ rank (Tx.GetHash (m_tx t)) <= S width ^ (r - 1))%nat by (apply Nat.pow_le_mono_r; lia). lia.
Qed.

Section queue.
Variable rank : Z -> nat.
Variable width : nat.
Variable mapPrev : gmap Z CMerkleTx.
Hypothesis Hprev : forall hash t, mapPrev !! hash = Some t -> supported rank width mapPrev t.

(** The transactions that an entry of the queue brings in. *)
Lemma prevs_cost t prevs : supported rank width mapPrev t ->
  mapM (fun txin => mapPrev !! o_hash (prevout txin)) (vin (m_tx t)) = Some prevs ->
  Forall (supported rank width mapPrev) prevs /\ (queue_cost rank width prevs < S width ^ rank (Tx.GetHash (m_tx t)))%nat.
Proof.
  intros [Hr Hw _ _] Hm. apply mapM_Some in Hm. set (r := rank (Tx.GetHash (m_tx t))) in *.
  assert (Forall (supported rank width mapPrev) prevs /\ Forall (fun t => (rank (Tx.GetHash (m_tx t)) < r)%nat) prevs) as [Hs Hk].
  { clear Hw. induction Hm as [|txin prev l prevs Hl Hm IH]; [done|].
    destruct IH as [? ?]; [intros ?? ?; apply Hr; by right|].
    split; constructor; [by eapply Hprev|done|apply (Hr txin); [by left|done]|done]. }
  split; [done|]. pose proof (Forall2_length _ _ _ Hm) as Hlen.
  destruct (decide (r = 0%nat)) as [E|].
  { destruct prevs as [|p prevs]; [rewrite E; simpl; lia|]. apply Forall_cons in Hk as [Hk _]. lia. }
  pose proof (queue_cost_below rank width prevs r ltac:(lia) Hk) as Hc.
  replace (S width ^ r)%nat with (S width ^ (r - 1) + width * S width ^ (r - 1))%nat
    by (replace r with (S (r - 1)) at 3 by lia; simpl; lia).
  assert (length prevs * S width ^ (r - 1) <= width * S width ^ (r - 1))%nat by (apply Nat.mul_le_mono_r; lia).
  assert (0 < S width ^ (r - 1))%nat by (apply Nat.neq_0_lt_0, Nat.pow_nonzero; lia). lia.
Qed.

Lemma trust_loop_returns vWorkQueue : Forall (supported rank width mapPrev) vWorkQueue ->
  exists b, forall fuel, (queue_cost rank width vWorkQueue <= fuel)%nat -> trust_loop s fuel w mapPrev vWorkQueue = Some b.
Proof.
  remember (queue_cost rank width vWorkQueue) as n eqn:En. revert vWorkQueue En.
  induction n as [n IH] using lt_wf_ind. intros [|t q] En Hq; [exists true; by intros []|].
  apply Forall_cons in Hq as [Ht Hq]. cbn [queue_cost foldr] in En. fold (queue_cost rank width q) in En.
  assert (0 < S width ^ rank (Tx.GetHash (m_tx t)))%nat by (apply Nat.neq_0_lt_0, Nat.pow_nonzero; lia).
  assert (forall (q' : list CMerkleTx) (k : nat -> option bool), Forall (supported rank width mapPrev) q' -> (queue_cost rank width q' < n)%nat ->
    (forall fuel, k (S fuel) = trust_loop s fuel w mapPrev q') -> exists b, forall fuel, (n <= fuel)%nat -> k fuel = Some b) as Hgo.
  { intros q' k Hq' Hc Hk. destruct (IH _ Hc q' eq_refl Hq') as [b Hb]. exists b. intros [|fuel] Hf; [lia|]. rewrite Hk. apply Hb. lia. }
  destruct (sup_depth _ _ _ _ Ht) as [d Ed]. destruct (sup_debit _ _ _ _ Ht) as [mine Em].
  assert (forall fuel : nat, (n <= fuel)%nat -> exists f, fuel = S f) as Hpos by (intros [|f] ?; [lia|by exists f]).
  destruct (final s (m_tx t)) eqn:Ef; [|exists false; intros fuel [f ->]%Hpos; cbn [trust_loop]; by rewrite Ef].
  destruct (Z.leb_spec 1 d) as [Hd|Hd].
  { apply (Hgo q); [done|lia|]. intros fuel. cbn [trust_loop]. rewrite Ef, Ed. cbn [negb mbind option_bind]. by rewrite (proj2 (Z.leb_le _ _) Hd). }
  destruct (d <? 0) eqn:Ed0; [|destruct mine; [destruct (mapM (fun txin => mapPrev !! o_hash (prevout txin)) (vin (m_tx t))) as [prevs|] eqn:Ep|]].
  2:{ destruct (prevs_cost t prevs Ht Ep) as [Hp Hc]. apply (Hgo (q ++ prevs)); [by apply Forall_app|rewrite queue_cost_app; lia|].
      intros fuel. cbn [trust_loop]. rewrite Ef, Ed. cbn [negb mbind option_bind]. rewrite (proj2 (Z.leb_gt _ _) Hd), Ed0, Em.
      cbn [negb mbind option_bind]. by rewrite Ep. }
  all: exists false; intros fuel [f ->]%Hpos; cbn [trust_loop]; rewrite Ef, Ed; cbn [negb mbind option_bind];
    rewrite (proj2 (Z.leb_gt _ _) Hd), Ed0, ?Em; cbn [negb mbind option_bind]; rewrite ?Ep; done.
Qed.
End queue.

(** [IsTrusted] returns: its work queue, which forgets what it has seen, takes no
    more rounds than a power of the number of inputs to the length of the longest
    chain of supporting transactions. *)
Theorem IsTrusted_terminates rank width t : let mapPrev := supporting t in
  supported rank width mapPrev (w_merkle t) -> (forall hash p, mapPrev !! hash = Some p -> supported rank width mapPrev p) ->
  exists b, forall fuel, (S width ^ rank (Tx.GetHash (w_tx t)) <= fuel)%nat -> IsTrusted s fConfChange fuel w t = Some b.
Proof.
  intros mapPrev Ht Hp. destruct (trust_loop_returns rank width mapPrev Hp [w_merkle t]) as [b Hb]; [by constructor|].
  destruct (sup_depth _ _ _ _ Ht) as [d Ed]. destruct (sup_debit _ _ _ _ Ht) as [mine Em]. change (m_tx (w_merkle t)) with (w_tx t) in Em.
  unfold IsTrusted. rewrite Ed, Em. cbn [mbind option_bind]. fold mapPrev.
  destruct (negb _); [by exists false|]. destruct (1 <=? d); [by exists true|]. destruct (d <? 0); [by exists false|].
  destruct fConfChange; [by exists false|]. destruct mine; [|by exists false]. cbn [negb]. exists b. intros fuel Hf. apply Hb.
  cbn [queue_cost foldr]. fold (w_tx t). lia.
Qed.
End trust.
