(* ===== verification/CoinSelect.v ===== *)
(** * CoinSelect: choosing the coins of a payment (src/src/wallet.cpp)

    [ApproximateBestSubset], [SelectCoinsMinConf], [SelectCoins] and
    [SelectCoinsForStaking].  Chance comes from [Draws]: the [k]-th shuffle, the
    [j]-th bit drawn in the [k]-th search, and the order in which [std::sort]
    leaves coins of one value.  A set of coins holds the pairs of a pointer and
    an index; a pointer to a wallet transaction is its key. *)

From S2P Require Import Prelude BigNum ScriptOps Serialize Crypto Keys Core SigHash Interp Standard Signing TxCheck Block Mempool Chain Connect BlockConnect Activate Wallet.
From stdpp Require Import sorting.
Open Scope Z_scope.

(** [pair<int64_t, pair<const CWalletTx*, unsigned int> >]. *)
Abbreviation coin := (Z * (Z * Z))%type.
Abbreviation CoinSet := (gset (Z * Z)).

Class Draws := {
  random_shuffle : nat -> list COutput -> list COutput;
  sort_by_value : nat -> list coin -> list coin;
  insecure_rand : nat -> nat -> bool
}.
(** What the standard library promises of the first two. *)
Class DrawsOk `{Draws} : Prop := {
  shuffle_doc k l : random_shuffle k l ≡ₚ l;
  sort_doc k l : sort_by_value k l ≡ₚ l;
  sort_sorted k l : Sorted (fun a b => b.1 <= a.1) (sort_by_value k l)
}.

(** ** [ApproximateBestSubset] *)
Record search := mk_search {
  vfIncluded : list bool; nTotal : Z; fReachedTarget : bool; vfBest : list bool; nBest : Z; drawn : nat }.

Section subset.
Variable rand : nat -> bool.
Variable nTargetValue : Z.

(** One coin in one pass; [first] is [nPass == 0]. *)
Definition try_coin (first : bool) (i : nat) (value : Z) (s : search) : search :=
  let pick := if first then rand (drawn s) else negb (nth i (vfIncluded s) false) in
  let drawn := if first then S (drawn s) else drawn s in
  if pick then
    let nTotal' := i64 (nTotal s + value) in
    let included := <[i := true]> (vfIncluded s) in
    if nTargetValue <=? nTotal' then
      let better := nTotal' <? nBest s in
      mk_search (<[i := false]> included) (i64 (nTotal' - value)) true (if better then included else vfBest s)
        (if better then nTotal' else nBest s) drawn
    else mk_search included nTotal' (fReachedTarget s) (vfBest s) (nBest s) drawn
  else mk_search (vfIncluded s) (nTotal s) (fReachedTarget s) (vfBest s) (nBest s) drawn.

Fixpoint pass_loop (first : bool) (i : nat) (l : list coin) (s : search) : search :=
  match l with
  | [] => s
  | c :: l => pass_loop first (S i) l (try_coin first i c.1 s)
  end.

(** Both passes; the second one only when the first did not reach the target. *)
Definition one_rep (vValue : list coin) (s : search) : search :=
  let s := mk_search (replicate (length vValue) false) 0 false (vfBest s) (nBest s) (drawn s) in
  let s := pass_loop true 0 vValue s in
  if fReachedTarget s then s else pass_loop false 0 vValue s.

Fixpoint rep_loop (iterations : nat) (vValue : list coin) (s : search) : search :=
  match iterations with
  | O => s
  | S iterations => if nBest s =? nTargetValue then s else rep_loop iterations vValue (one_rep vValue s)
  end.
End subset.

(** [vfBest] and [nBest]. *)
Definition ApproximateBestSubset (rand : nat -> bool) (vValue : list coin) (nTotalLower nTargetValue : Z) (iterations : nat) :
    list bool * Z :=
  let s := rep_loop rand nTargetValue iterations vValue
    (mk_search [] 0 false (replicate (length vValue) true) nTotalLower 0) in
  (vfBest s, nBest s).

(** ** [SelectCoinsMinConf] *)
Section select.
Context `{Digests} `{ECLib} `{NodeEnv} `{Draws}.
Variable w : CWallet.

(** [coinLowestLarger.first]. *)
Definition lowest_value (c : option coin) : Z := match c with Some c => c.1 | None => 2 ^ 63 - 1 end.

(** The scan over the outputs: it ends with the coin that is exactly the target, or
    with the least larger coin, the smaller ones and their total. *)
Inductive scanned := Exact (c : coin) | Scanned (coinLowestLarger : option coin) (vValue : list coin) (nTotalLower : Z).

Section scan.
Variables (nTargetValue nSpendTime nConfMine nConfTheirs : Z).

(** The coin of an output, if it has the confirmations and the time for it; [None] is a
    pointer to no transaction, or an index out of range. *)
Definition read_coin (out : COutput) : option (option coin) :=
  pcoin ← mapWallet w !! o_tx out;
  fromme ← (match vin (w_tx pcoin) with [] => Some false | _ => IsFromMe nMaxDatacarrierBytes w (w_tx pcoin) end);
  if o_depth out <? (if (fromme : bool) then nConfMine else nConfTheirs) then Some None
  else if nSpendTime <? nTime (w_tx pcoin) then Some None
  else txout ← at_ (vout (w_tx pcoin)) (o_i out); Some (Some (nValue txout, (o_tx out, u32 (o_i out)))).

Fixpoint scan_coins (l : list COutput) (larger : option coin) (vValue : list coin) (nTotalLower : Z) : option scanned :=
  match l with
  | [] => Some (Scanned larger vValue nTotalLower)
  | out :: l =>
    r ← read_coin out;
    match r with
    | None => scan_coins l larger vValue nTotalLower
    | Some c =>
      if c.1 =? nTargetValue then Some (Exact c)
      else if c.1 <? i64 (nTargetValue + CENT) then scan_coins l larger (vValue ++ [c]) (i64 (nTotalLower + c.1))
      else if c.1 <? lowest_value larger then scan_coins l (Some c) vValue nTotalLower
      else scan_coins l larger vValue nTotalLower
    end
  end.

Definition add_coin (c : coin) (r : CoinSet * Z) : CoinSet * Z := ({[c.2]} ∪ r.1, i64 (r.2 + c.1)).

Fixpoint add_chosen (vValue : list coin) (chosen : list bool) (r : CoinSet * Z) : CoinSet * Z :=
  match vValue, chosen with
  | c :: vValue, b :: chosen => add_chosen vValue chosen (if (b : bool) then add_coin c r else r)
  | _, _ => r
  end.

(** What follows the scan: result, [setCoinsRet] and [nValueRet]. *)
Definition pick_coins (iterations k : nat) (coinLowestLarger : option coin) (vValue : list coin) (nTotalLower : Z) : bool * (CoinSet * Z) :=
  if nTotalLower =? nTargetValue then (true, fold_left (fun r c => add_coin c r) vValue (∅, 0)) else
  if nTotalLower <? nTargetValue then
    match coinLowestLarger with
    | None => (false, (∅, 0))
    | Some c => (true, add_coin c (∅, 0))
    end
  else
    let vValue := sort_by_value k vValue in
    let '(best, nBest) := ApproximateBestSubset (insecure_rand (2 * k)) vValue nTotalLower nTargetValue iterations in
    let '(best, nBest) :=
      if negb (nBest =? nTargetValue) && (i64 (nTargetValue + CENT) <=? nTotalLower)
      then ApproximateBestSubset (insecure_rand (2 * k + 1)) vValue nTotalLower (i64 (nTargetValue + CENT)) iterations
      else (best, nBest) in
    match coinLowestLarger with
    | Some c =>
      if (negb (nBest =? nTargetValue) && (nBest <? i64 (nTargetValue + CENT))) || (c.1 <=? nBest)
      then (true, add_coin c (∅, 0))
      else (true, add_chosen vValue best (∅, 0))
    | None => (true, add_chosen vValue best (∅, 0))
    end.

(** [k] numbers the calls. *)
Definition SelectCoinsMinConf (k : nat) (vCoins : list COutput) : option (bool * (CoinSet * Z)) :=
  r ← scan_coins (random_shuffle k vCoins) None [] 0;
  match r with
  | Exact c => Some (true, add_coin c (∅, 0))
  | Scanned coinLowestLarger vValue nTotalLower => Some (pick_coins 1000 k coinLowestLarger vValue nTotalLower)
  end.
End scan.

(** ** [SelectCoins] *)
Variable s : ChainState.
Variable fConfChange : bool.
Variable trust_fuel : nat.
Variable nMinimumInputValue : Z.

Fixpoint add_selected (l : list COutput) (r : CoinSet * Z) : option (CoinSet * Z) :=
  match l with
  | [] => Some r
  | out :: l =>
    pcoin ← mapWallet w !! o_tx out;
    txout ← at_ (vout (w_tx pcoin)) (o_i out);
    add_selected l (add_coin (nValue txout, (o_tx out, u32 (o_i out))) r)
  end.

(** The three tries, with fewer and fewer confirmations. *)
Fixpoint try_confs (nTargetValue nSpendTime : Z) (k : nat) (vCoins : list COutput) (confs : list (Z * Z)) : option (bool * (CoinSet * Z)) :=
  match confs with
  | [] => Some (false, (∅, 0))
  | (nConfMine, nConfTheirs) :: confs =>
    '(ok, r) ← SelectCoinsMinConf nTargetValue nSpendTime nConfMine nConfTheirs k vCoins;
    if (ok : bool) then Some (true, r) else try_confs nTargetValue nSpendTime (S k) vCoins confs
  end.

(** The caller's set and value are empty; [k] numbers the first of the three tries. *)
Definition SelectCoins (nTargetValue nSpendTime : Z) (k : nat) (coinControl : option (list COutPoint)) : option (bool * (CoinSet * Z)) :=
  vCoins ← AvailableCoins s fConfChange trust_fuel nMinimumInputValue w true coinControl;
  if HasSelected coinControl then
    r ← add_selected vCoins (∅, 0); Some (nTargetValue <=? r.2, r)
  else try_confs nTargetValue nSpendTime k vCoins [(1, 10); (1, 1); (0, 1)].

(** ** [SelectCoinsForStaking] *)
Fixpoint staking_loop (nTargetValue : Z) (l : list COutput) (r : CoinSet * Z) : option (CoinSet * Z) :=
  match l with
  | [] => Some r
  | out :: l =>
    if nTargetValue <=? r.2 then Some r else
    pcoin ← mapWallet w !! o_tx out;
    txout ← at_ (vout (w_tx pcoin)) (o_i out);
    let c := (nValue txout, (o_tx out, u32 (o_i out))) in
    if nTargetValue <=? c.1 then Some (add_coin c r)
    else if c.1 <? i64 (nTargetValue + CENT) then staking_loop nTargetValue l (add_coin c r)
    else staking_loop nTargetValue l r
  end.
Definition SelectCoinsForStaking (nTargetValue nSpendTime : Z) : option (bool * (CoinSet * Z)) :=
  vCoins ← AvailableCoinsForStaking s nMinimumInputValue w nSpendTime;
  r ← staking_loop nTargetValue vCoins (∅, 0);
  Some (true, r).
End select.
