(* ===== verification/CoinSelectFacts.v ===== *)
(** * CoinSelectFacts: what the choice of coins promises (src/src/wallet.cpp) *)

From S2P Require Import Prelude BigNum ScriptOps Serialize Crypto Keys Core SigHash Interp Standard Signing TxCheck Block Mempool Chain Connect BlockConnect Activate Wallet CoinSelect.
From stdpp Require Import sorting.
Open Scope Z_scope.

(** ** Sums of coins *)
Definition sum_coins (l : list coin) : Z := foldr (fun c n => c.1 + n) 0 l.
Definition nonneg (l : list coin) : Prop := Forall (fun c => 0 <= c.1) l.

Lemma sum_coins_app l1 l2 : sum_coins (l1 ++ l2) = sum_coins l1 + sum_coins l2.
Proof. induction l1 as [|c l1 IH]; [done|]. simpl. rewrite IH. lia. Qed.

#[export] Instance sum_coins_perm : Proper ((≡ₚ) ==> (=)) sum_coins.
Proof. induction 1; simpl in *; lia. Qed.

Lemma sum_coins_nonneg l : nonneg l -> 0 <= sum_coins l.
Proof. induction 1; simpl in *; lia. Qed.

Lemma nonneg_sub l1 l2 : l1 ⊆+ l2 -> nonneg l2 -> nonneg l1.
Proof. intros (k & Hk)%submseteq_Permutation Hn. unfold nonneg in *. rewrite Hk in Hn. by apply Forall_app in Hn as [? _]. Qed.

Lemma sum_coins_sub l1 l2 : l1 ⊆+ l2 -> nonneg l2 -> sum_coins l1 <= sum_coins l2.
Proof.
  intros (k & Hk)%submseteq_Permutation Hn. rewrite (sum_coins_perm _ _ Hk), sum_coins_app.
  enough (nonneg k) as H%sum_coins_nonneg by lia. unfold nonneg in *. rewrite Hk in Hn. by apply Forall_app in Hn as [_ ?].
Qed.

Lemma coin_le_sum c l : c ∈ l -> nonneg l -> c.1 <= sum_coins l.
Proof.
  intros Hin Hn. pose proof (sum_coins_sub [c] l) as H. simpl in H. rewrite Z.add_0_r in H. apply H; [|done].
  by apply singleton_submseteq_l.
Qed.

(** The coins of a list of choices, and their total. *)
Fixpoint chosen_of (l : list coin) (b : list bool) : list coin :=
  match l, b with
  | c :: l, true :: b => c :: chosen_of l b
  | _ :: l, false :: b => chosen_of l b
  | _, _ => []
  end.
Definition csum (l : list coin) (b : list bool) : Z := sum_coins (chosen_of l b).

Lemma chosen_sublist l b : chosen_of l b `sublist_of` l.
Proof.
  revert b. induction l as [|c l IH]; intros [|[] b]; simpl; try apply sublist_nil_l; [by apply sublist_skip|by apply sublist_cons].
Qed.

Lemma csum_le l b : nonneg l -> 0 <= csum l b <= sum_coins l.
Proof.
  intros Hn. unfold csum. pose proof (chosen_sublist l b) as Hs. split.
  - apply sum_coins_nonneg. by eapply nonneg_sub; [apply sublist_submseteq|].
  - apply sum_coins_sub; [by apply sublist_submseteq|done].
Qed.

Lemma csum_insert l b i c : l !! i = Some c -> b !! i = Some false -> csum l (<[i := true]> b) = csum l b + c.1.
Proof.
  unfold csum. revert b i. induction l as [|x l IH]; intros [|y b] [|i]; try done; simpl.
  - intros [= ->] [= ->]. simpl. lia.
  - intros Hl Hb. destruct y; simpl; rewrite (IH b i Hl Hb); lia.
Qed.

Lemma csum_false l k : csum l (replicate k false) = 0.
Proof. unfold csum. revert k. induction l as [|c l IH]; intros [|k]; done || apply IH. Qed.
Lemma csum_true l : csum l (replicate (length l) true) = sum_coins l.
Proof. unfold csum. induction l as [|c l IH]; [done|]. simpl. by rewrite IH. Qed.

(** ** [ApproximateBestSubset] *)
Section subset.
Variable rand : nat -> bool.
Variable target : Z.
Variable vValue : list coin.
Hypothesis Hnn : nonneg vValue.
Hypothesis Hmax : sum_coins vValue < 2 ^ 62.

Record search_ok (s : search) : Prop := {
  ok_included : length (vfIncluded s) = length vValue;
  ok_total : nTotal s = csum vValue (vfIncluded s);
  ok_best_length : length (vfBest s) = length vValue;
  ok_best : nBest s = csum vValue (vfBest s);
  ok_target : target <= nBest s
}.

(** The coins from [i] on are not included yet. *)
Definition fresh_from (i : nat) (s : search) : Prop := forall j, (i <= j)%nat -> nth j (vfIncluded s) false = false.

Lemma try_coin_ok first i c s : vValue !! i = Some c -> search_ok s -> (first = true -> fresh_from i s) ->
  search_ok (try_coin rand target first i c.1 s) /\ (first = true -> fresh_from (S i) (try_coin rand target first i c.1 s)).
Proof.
  intros Hc [H1 H2 H3 H4 H5] Hf. unfold try_coin.
  set (d := if first then S (drawn s) else drawn s).
  destruct (if first then rand (drawn s) else negb (nth i (vfIncluded s) false)) eqn:Ep.
  2:{ split; [by split|]. intros -> j Hj. simpl. apply Hf; [done|lia]. }
  assert (i < length (vfIncluded s))%nat as Hi by (rewrite H1; by eapply lookup_lt_Some).
  assert (vfIncluded s !! i = Some false) as Hb.
  { destruct (lookup_lt_is_Some_2 _ _ Hi) as [b Hb]. assert (nth i (vfIncluded s) false = b) as En by (by apply nth_lookup_Some).
    destruct first; [rewrite (Hf eq_refl i) in En by lia|rewrite En in Ep]; destruct b; done. }
  pose proof (csum_insert vValue _ i c Hc Hb) as Hins. pose proof (csum_le vValue (<[i:=true]> (vfIncluded s)) Hnn) as Hle.
  pose proof (csum_le vValue (vfIncluded s) Hnn). rewrite H2, i64_id by lia. cbv zeta.
  destruct (Z.leb_spec target (csum vValue (vfIncluded s) + c.1)) as [Hge|Hlt].
  - rewrite i64_id by lia.
    assert (<[i:=false]> (<[i:=true]> (vfIncluded s)) = vfIncluded s) as Eb.
    { rewrite list_insert_insert_eq. by apply list_insert_id. }
    rewrite Eb. split.
    + split; simpl; [done|lia| | |]; destruct (_ <? nBest s); rewrite ?length_insert; done || lia.
    + intros -> j Hj. simpl. apply Hf; [done|lia].
  - split.
    + split; simpl; rewrite ?length_insert; done || lia.
    + intros -> j Hj. simpl. pose proof (Hf eq_refl j ltac:(lia)) as Hj'.
      rewrite nth_lookup in Hj' |- *. by rewrite list_lookup_insert_ne by lia.
Qed.

Lemma pass_loop_ok first l1 l2 s : vValue = l1 ++ l2 -> search_ok s -> (first = true -> fresh_from (length l1) s) ->
  search_ok (pass_loop rand target first (length l1) l2 s).
Proof.
  revert l1 s. induction l2 as [|c l2 IH]; intros l1 s Ev Hs Hf; [done|]. cbn [pass_loop].
  assert (vValue !! length l1 = Some c) as Hc by (rewrite Ev; by rewrite list_lookup_middle).
  destruct (try_coin_ok first (length l1) c s Hc Hs Hf) as [Hs' Hf'].
  pose proof (IH (l1 ++ [c]) _ ltac:(by rewrite Ev, <- app_assoc) Hs') as IH'.
  rewrite length_app, Nat.add_1_r in IH'. by apply IH'.
Qed.

Lemma one_rep_ok s : search_ok s -> search_ok (one_rep rand target vValue s).
Proof.
  intros [H1 H2 H3 H4 H5]. unfold one_rep. set (s0 := mk_search _ 0 false _ _ _).
  assert (search_ok s0) as Hs0 by (split; simpl; rewrite ?length_replicate, ?csum_false; done).
  pose proof (pass_loop_ok true [] vValue s0 eq_refl Hs0) as Hp. cbn [length] in Hp.
  assert (fresh_from 0 s0) as Hf.
  { intros j _. simpl. rewrite nth_lookup. destruct (replicate _ false !! j) eqn:E; [|done]. apply lookup_replicate in E as [-> _]. done. }
  specialize (Hp (fun _ => Hf)). destruct (fReachedTarget _); [done|]. by apply (pass_loop_ok false [] vValue _ eq_refl Hp).
Qed.

Lemma rep_loop_ok iterations s : search_ok s -> search_ok (rep_loop rand target iterations vValue s).
Proof.
  revert s. induction iterations as [|k IH]; intros s Hs; [done|]. cbn [rep_loop].
  destruct (nBest s =? target); [done|]. by apply IH, one_rep_ok.
Qed.

(** The search answers with a choice of coins and their total, which reaches the
    target when all the coins together do. *)
Lemma ApproximateBestSubset_ok iterations : target <= sum_coins vValue ->
  let r := ApproximateBestSubset rand vValue (sum_coins vValue) target iterations in
  length r.1 = length vValue /\ r.2 = csum vValue r.1 /\ target <= r.2.
Proof.
  intros Ht. unfold ApproximateBestSubset. simpl.
  destruct iterations as [|k]; cbn [rep_loop].
  { simpl. rewrite length_replicate, csum_true. done. }
  simpl. destruct (Z.eqb_spec (sum_coins vValue) target) as [E|_].
  { simpl. rewrite length_replicate, csum_true. done. }
  set (s0 := mk_search [] 0 false _ _ _).
  assert (search_ok (one_rep rand target vValue s0)) as Hs.
  { unfold one_rep. change (vfBest s0) with (replicate (length vValue) true). change (nBest s0) with (sum_coins vValue).
    pose proof (one_rep_ok (mk_search (replicate (length vValue) false) 0 false (replicate (length vValue) true) (sum_coins vValue) (drawn s0))) as Hr.
    apply Hr. split; simpl; rewrite ?length_replicate, ?csum_false, ?csum_true; done. }
  destruct (rep_loop_ok k _ Hs) as [_ _ H3 H4 H5]. done.
Qed.
End subset.

(** ** The scan over the outputs *)
Section scan.
Context `{Digests} `{ECLib} `{NodeEnv}.
Variable w : CWallet.
Variables target nSpendTime nConfMine nConfTheirs : Z.
Hypothesis Htarget : 0 <= target <= MAX_MONEY.
Let read := read_coin w nSpendTime nConfMine nConfTheirs.

(** The coins of the outputs that have the confirmations and the time. *)
Definition eligible (vCoins : list COutput) : list coin := omap (fun out => mjoin (read out)) vCoins.

Definition small (c : coin) : bool := c.1 <? target + CENT.

(** The least of the coins of a list that are not small. *)
Definition least_larger (l : list coin) (r : option coin) : Prop :=
  match r with
  | Some c => c ∈ l /\ small c = false /\ forall c', c' ∈ l -> small c' = false -> c.1 <= c'.1
  | None => forall c, c ∈ l -> small c = true
  end.

Lemma least_larger_skip l r c : small c = true -> least_larger l r -> least_larger (l ++ [c]) r.
Proof.
  intros Hc Hr. destruct r as [b|]; simpl in *.
  - destruct Hr as (Hb1 & Hb2 & Hb3). split; [by apply elem_of_app; left|]. split; [done|].
    intros c' [Hin| ->%list_elem_of_singleton]%elem_of_app; [by apply Hb3|congruence].
  - intros c' [Hin| ->%list_elem_of_singleton]%elem_of_app; [by apply Hr|done].
Qed.

Lemma least_larger_add l r c : small c = false -> c.1 < 2 ^ 63 - 1 -> least_larger l r ->
  least_larger (l ++ [c]) (if c.1 <? lowest_value r then Some c else r).
Proof.
  intros Hc Hmax Hr. destruct (Z.ltb_spec c.1 (lowest_value r)) as [Hlt|Hge].
  - simpl. split; [by apply elem_of_app; right; left|]. split; [done|].
    intros c' [Hin| ->%list_elem_of_singleton]%elem_of_app Hs; [|lia]. destruct r as [b|]; simpl in *.
    + destruct Hr as (_ & _ & Hb3). specialize (Hb3 c' Hin Hs). lia.
    + rewrite (Hr c' Hin) in Hs. done.
  - destruct r as [b|]; simpl in *; [|lia]. destruct Hr as (Hb1 & Hb2 & Hb3). split; [by apply elem_of_app; left|]. split; [done|].
    intros c' [Hin| ->%list_elem_of_singleton]%elem_of_app Hs; [by apply Hb3|done].
Qed.

(** What the scan has found after the outputs whose coins are [seen]. *)
Definition scan_result (all : list coin) (r : scanned) : Prop :=
  match r with
  | Exact c => c ∈ all /\ c.1 = target
  | Scanned larger vValue nTotalLower =>
    nTotalLower = sum_coins vValue /\ vValue = filter (fun c => small c = true) all /\ least_larger all larger /\
    Forall (fun c => c.1 <> target) all
  end.

Lemma eligible_cons out rc l : read out = Some rc -> eligible (out :: l) = option_list rc ++ eligible l.
Proof. intros E. unfold eligible. simpl. rewrite E. by destruct rc. Qed.

Lemma scan_coins_spec l seen larger vValue :
  Forall (fun out => is_Some (read out)) l -> nonneg (seen ++ eligible l) -> sum_coins (seen ++ eligible l) <= MAX_MONEY ->
  scan_result seen (Scanned larger vValue (sum_coins vValue)) ->
  exists r, scan_coins w target nSpendTime nConfMine nConfTheirs l larger vValue (sum_coins vValue) = Some r /\
    scan_result (seen ++ eligible l) r.
Proof.
  rewrite MAX_MONEY_eq in *.
  revert seen larger vValue. induction l as [|out l IH]; intros seen larger vValue Hr Hn Hs Hres.
  { eexists. split; [done|]. by rewrite app_nil_r. }
  apply Forall_cons in Hr as [[rc Erc] Hr]. cbn [scan_coins]. fold read. rewrite Erc. simpl mbind.
  rewrite (eligible_cons out rc l Erc) in *. destruct rc as [c|]; [|by apply IH]. simpl option_list in *. rewrite app_assoc in *.
  assert (c ∈ (seen ++ [c]) ++ eligible l) as Hin by (apply elem_of_app; left; apply elem_of_app; right; left).
  pose proof (coin_le_sum c _ Hin Hn) as Hle. pose proof (proj1 (Forall_forall _ _) Hn c Hin) as Hc0. simpl in Hc0.
  destruct (Z.eqb_spec c.1 target) as [E|Ne].
  { eexists. split; [done|]. simpl. by split. }
  rewrite i64_id by (unfold CENT; lia).
  destruct Hres as (_ & Hv & Hl & Hx).
  assert (Forall (fun c => c.1 <> target) (seen ++ [c])) as Hx' by (apply Forall_app; split; [done|by constructor]).
  change (c.1 <? target + CENT) with (small c). destruct (small c) eqn:Es.
  - assert (sum_coins vValue + c.1 = sum_coins (vValue ++ [c])) as Ev by (rewrite sum_coins_app; simpl; lia).
    assert (vValue ++ [c] = filter (fun c => small c = true) (seen ++ [c])) as Ef.
    { rewrite filter_app, Hv. f_equal. by rewrite filter_cons_True. }
    rewrite i64_id.
    + rewrite Ev. apply IH; [done|done|done|]. split; [done|]. split; [done|]. split; [by apply least_larger_skip|done].
    + rewrite Ev, Ef. assert (filter (fun c => small c = true) (seen ++ [c]) ⊆+ (seen ++ [c]) ++ eligible l) as Hsub
        by (apply submseteq_inserts_r, sublist_submseteq, sublist_filter).
      pose proof (sum_coins_nonneg _ (nonneg_sub _ _ Hsub Hn)). pose proof (sum_coins_sub _ _ Hsub Hn). lia.
  - assert (filter (fun c => small c = true) (seen ++ [c]) = vValue) as Ef.
    { rewrite filter_app, filter_cons_False, filter_nil, app_nil_r by (rewrite Es; done). done. }
    pose proof (least_larger_add seen larger c Es ltac:(lia) Hl) as Hl'.
    destruct (c.1 <? lowest_value larger); (apply IH; [done|done|done|]); (split; [done|split; [by rewrite Ef|by split]]).
Qed.
End scan.

(** ** The chosen set *)
Definition coins_set (l : list coin) : CoinSet := list_to_set (map snd l).

Lemma add_coins l r : nonneg l -> 0 <= r.2 -> r.2 + sum_coins l <= MAX_MONEY ->
  fold_left (fun r c => add_coin c r) l r = (coins_set l ∪ r.1, r.2 + sum_coins l).
Proof.
  rewrite MAX_MONEY_eq. intros Hn. revert r. induction Hn as [|c l Hc Hn IH]; intros r Hr Hs; simpl in *.
  { destruct r as [R v]. simpl. f_equal; [set_solver|lia]. }
  pose proof (sum_coins_nonneg l Hn). unfold add_coin at 2. rewrite i64_id by lia.
  rewrite IH by (simpl; lia). simpl. f_equal; [|lia]. unfold coins_set. simpl. set_solver.
Qed.

Lemma add_coins_empty l : nonneg l -> sum_coins l <= MAX_MONEY ->
  fold_left (fun r c => add_coin c r) l (∅, 0) = (coins_set l, sum_coins l).
Proof. intros Hn Hs. rewrite add_coins by (simpl; lia || done). simpl. f_equal. set_solver. Qed.

Lemma add_chosen_fold l b r : add_chosen l b r = fold_left (fun r c => add_coin c r) (chosen_of l b) r.
Proof. revert b r. induction l as [|c l IH]; intros [|[] b] r; done || apply IH. Qed.

(** The choice of a selection: some of the coins that may be used, which pay the
    target; what is left over is nothing or at least a cent, unless all the coins
    together leave less; and no single coin would do with less left over. *)
Record good_choice (coins : list coin) (target : Z) (r : CoinSet * Z) (chosen : list coin) : Prop := {
  choice_from : chosen ⊆+ coins;
  choice_set : r = (coins_set chosen, sum_coins chosen);
  choice_pays : target <= sum_coins chosen;
  choice_change : sum_coins chosen = target \/ target + CENT <= sum_coins chosen \/ sum_coins coins < target + CENT;
  choice_single : forall c, c ∈ coins -> c.1 = target \/ target + CENT <= c.1 -> sum_coins chosen <= c.1
}.

Lemma good_choice_perm coins1 coins2 target r chosen : coins1 ≡ₚ coins2 -> good_choice coins1 target r chosen ->
  good_choice coins2 target r chosen.
Proof.
  intros Hp [H1 H2 H3 H4 H5]. split; [by rewrite <- Hp|done|done|by rewrite <- (sum_coins_perm _ _ Hp)|].
  intros c Hc. apply H5. by rewrite Hp.
Qed.

Lemma chosen_add coins chosen target : nonneg coins -> sum_coins coins <= MAX_MONEY -> chosen ⊆+ coins -> target <= sum_coins chosen ->
  sum_coins chosen = target \/ target + CENT <= sum_coins chosen \/ sum_coins coins < target + CENT ->
  (forall c, c ∈ coins -> c.1 = target \/ target + CENT <= c.1 -> sum_coins chosen <= c.1) ->
  good_choice coins target (fold_left (fun r c => add_coin c r) chosen (∅, 0)) chosen.
Proof.
  intros Hn Hs Hsub Ht Hc H1. split; try done. apply add_coins_empty; [by eapply nonneg_sub|].
  pose proof (sum_coins_sub _ _ Hsub Hn). lia.
Qed.

(** ** [SelectCoinsMinConf] *)
Section minconf.
Context `{Digests} `{ECLib} `{NodeEnv} `{!Draws} `{!DrawsOk}.
Variable w : CWallet.
Variables target nSpendTime nConfMine nConfTheirs : Z.
Hypothesis Htarget : 0 <= target <= MAX_MONEY.
Let elig := eligible w nSpendTime nConfMine nConfTheirs.
Let readable (l : list COutput) : Prop := Forall (fun out => is_Some (read_coin w nSpendTime nConfMine nConfTheirs out)) l.

Lemma eligible_perm l1 l2 : l1 ≡ₚ l2 -> elig l1 ≡ₚ elig l2.
Proof. intros Hp. unfold elig, eligible. by rewrite Hp. Qed.

(** The subset that the two searches settle on. *)
Lemma two_searches iterations rand1 rand2 vValue : nonneg vValue -> sum_coins vValue <= MAX_MONEY -> target < sum_coins vValue ->
  let first := ApproximateBestSubset rand1 vValue (sum_coins vValue) target iterations in
  let r := if negb (first.2 =? target) && (target + CENT <=? sum_coins vValue)
           then ApproximateBestSubset rand2 vValue (sum_coins vValue) (target + CENT) iterations else first in
  r.2 = csum vValue r.1 /\ target <= r.2 /\ (r.2 = target \/ target + CENT <= r.2 \/ sum_coins vValue < target + CENT).
Proof.
  rewrite MAX_MONEY_eq in *. intros Hn Hs Hlt.
  destruct (ApproximateBestSubset_ok rand1 target vValue Hn ltac:(lia) iterations ltac:(lia)) as (_ & E1 & H1'). cbv zeta in *.
  set (first := ApproximateBestSubset rand1 _ _ _ _) in *. clearbody first.
  destruct (Z.eqb_spec first.2 target) as [E|Ne]; simpl; [by repeat split; auto|].
  destruct (Z.leb_spec (target + CENT) (sum_coins vValue)) as [Hle|Hgt]; [|repeat split; auto; lia].
  destruct (ApproximateBestSubset_ok rand2 (target + CENT) vValue Hn ltac:(lia) iterations Hle) as (_ & E2 & H2'). cbv zeta in *.
  set (second := ApproximateBestSubset rand2 _ _ _ _) in *. clearbody second. unfold CENT in *. repeat split; auto; lia.
Qed.

Section decided.
Variable coins : list coin.
Hypothesis Hn : nonneg coins.
Hypothesis Hs : sum_coins coins <= MAX_MONEY.
Hypothesis Hne : Forall (fun c => c.1 <> target) coins.
Let lower := filter (fun c => small target c = true) coins.

Lemma lower_sub : lower ⊆+ coins.
Proof. apply sublist_submseteq, sublist_filter. Qed.

Lemma lower_all : least_larger target coins None -> lower = coins.
Proof.
  simpl. unfold lower. clear Hn Hs Hne lower. induction coins as [|c l IH]; intros Ha; [done|].
  rewrite filter_cons_True by (apply Ha; by left). rewrite IH; [done|]. intros c' Hc. apply Ha. by right.
Qed.

Lemma larger_choice c : least_larger target coins (Some c) -> good_choice coins target (add_coin c (∅, 0)) [c].
Proof.
  intros (Hin & Hsm & Hleast). unfold small in *. rewrite Z.ltb_ge in Hsm. rewrite Forall_forall in Hne.
  change (add_coin c (∅, 0)) with (fold_left (fun r c => add_coin c r) [c] (∅, 0)).
  apply chosen_add; [done|done|by apply singleton_submseteq_l|..]; simpl; unfold CENT in *; [lia|lia|].
  intros c' Hc' [E|Hge]; [by destruct (Hne c' Hc')|]. specialize (Hleast c' Hc'). rewrite Z.ltb_ge in Hleast. lia.
Qed.

(** A choice among the small coins that no larger coin betters. *)
Lemma lower_choice chosen larger : least_larger target coins larger -> chosen ⊆+ lower -> target <= sum_coins chosen ->
  sum_coins chosen = target \/ target + CENT <= sum_coins chosen \/ (larger = None /\ sum_coins lower < target + CENT) ->
  match larger with Some c => sum_coins chosen <= c.1 | None => True end ->
  good_choice coins target (fold_left (fun r c => add_coin c r) chosen (∅, 0)) chosen.
Proof.
  intros Hl Hsub Ht Hc Hle. rewrite Forall_forall in Hne.
  apply chosen_add; [done|done|by transitivity lower; [|apply lower_sub]|done|..].
  - destruct Hc as [?|[?|[-> Hc]]]; [auto|auto|]. rewrite (lower_all Hl) in Hc. auto.
  - intros c Hin [E|Hge]; [by destruct (Hne c Hin)|]. destruct larger as [b|].
    + destruct Hl as (_ & _ & Hb). etrans; [exact Hle|]. apply Hb; [done|]. unfold small. by apply Z.ltb_ge.
    + specialize (Hl c Hin). unfold small in Hl. apply Z.ltb_lt in Hl. lia.
Qed.
End decided.

Definition selection (coins : list coin) (ok : bool) (r : CoinSet * Z) : Prop :=
  (ok = true /\ exists chosen, good_choice coins target r chosen) \/ (ok = false /\ r = (∅, 0) /\ sum_coins coins < target).

Lemma selection_perm coins1 coins2 ok r : coins1 ≡ₚ coins2 -> selection coins1 ok r -> selection coins2 ok r.
Proof.
  intros Hp [(-> & chosen & Hc)|(-> & -> & Hlt)]; [left|right].
  - split; [done|]. exists chosen. by eapply good_choice_perm.
  - by rewrite <- (sum_coins_perm _ _ Hp).
Qed.

(** What follows the scan. *)
Lemma pick_coins_ok iterations k coins larger : nonneg coins -> sum_coins coins <= MAX_MONEY -> Forall (fun c => c.1 <> target) coins ->
  least_larger target coins larger -> let lower := filter (fun c => small target c = true) coins in
  let '(ok, r) := pick_coins target iterations k larger lower (sum_coins lower) in selection coins ok r.
Proof.
  intros Hn Hs Hne Hl lower. pose proof (lower_sub coins) as Hsub. fold lower in Hsub.
  pose proof (nonneg_sub _ _ Hsub Hn) as Hn2. pose proof (sum_coins_sub _ _ Hsub Hn) as Hs2.
  unfold pick_coins. rewrite i64_id by (rewrite MAX_MONEY_eq in *; unfold CENT; lia).
  destruct (Z.eqb_spec (sum_coins lower) target) as [E|Ne].
  { left. split; [done|]. exists lower. apply (chosen_add coins lower); [done|done|done|lia|lia|]. unfold CENT. intros ? _. lia. }
  destruct (Z.ltb_spec (sum_coins lower) target) as [Hlt|Hge].
  { destruct larger as [c|].
    - left. split; [done|]. exists [c]. by apply larger_choice.
    - right. split; [done|]. split; [done|]. by rewrite <- (lower_all coins Hl). }
  pose proof (sort_doc k lower) as Hsort. pose proof (sum_coins_perm _ _ Hsort) as Esum.
  pose proof (two_searches iterations (insecure_rand (2 * k)) (insecure_rand (2 * k + 1)) (sort_by_value k lower)) as Htwo.
  rewrite Esum in Htwo. destruct Htwo as (E1 & Hle & Hc); [unfold nonneg; by rewrite Hsort|lia|lia|].
  destruct (ApproximateBestSubset (insecure_rand (2 * k)) _ _ _ _) as [best nBest]. cbn [snd] in E1, Hle, Hc.
  match type of E1 with snd ?f = _ => set (found := f) in *; clearbody found end. destruct found as [best' nBest']. cbn [fst snd] in E1, Hle, Hc. subst nBest'.
  pose proof (chosen_sublist (sort_by_value k lower) best') as Hch%sublist_submseteq.
  pose proof (transitivity Hch (Permutation_submseteq _ _ Hsort)) as Hch'. clear Hch. rename Hch' into Hch.
  pose proof (lower_choice coins Hn Hs Hne (chosen_of (sort_by_value k lower) best') larger Hl Hch Hle) as Hpick. rewrite <- add_chosen_fold in Hpick.
  destruct larger as [c|].
  - destruct (_ || _) eqn:E.
    + left. split; [done|]. exists [c]. by apply larger_choice.
    + apply orb_false_iff in E as [Ea Eb%Z.leb_gt]. unfold csum in *. left. split; [done|]. eexists. apply Hpick; [|lia].
      apply andb_false_iff in Ea as [Ea%negb_false_iff%Z.eqb_eq|Ea%Z.ltb_ge]; auto.
  - left. split; [done|]. eexists. apply Hpick; [|done]. unfold csum in *. destruct Hc as [?|[?|?]]; auto.
Qed.

Lemma SelectCoinsMinConf_ok k vCoins : readable vCoins -> nonneg (elig vCoins) -> sum_coins (elig vCoins) <= MAX_MONEY ->
  exists ok r, SelectCoinsMinConf w target nSpendTime nConfMine nConfTheirs k vCoins = Some (ok, r) /\ selection (elig vCoins) ok r.
Proof.
  intros Hr Hn Hs. pose proof (shuffle_doc k vCoins) as Hp. pose proof (eligible_perm _ _ Hp) as Hpe.
  assert (readable (random_shuffle k vCoins)) as Hr' by (unfold readable; by rewrite Hp).
  assert (nonneg (elig (random_shuffle k vCoins))) as Hn' by (unfold nonneg; by rewrite Hpe).
  assert (sum_coins (elig (random_shuffle k vCoins)) <= MAX_MONEY) as Hs' by (by rewrite (sum_coins_perm _ _ Hpe)).
  enough (exists ok r, SelectCoinsMinConf w target nSpendTime nConfMine nConfTheirs k vCoins = Some (ok, r) /\
    selection (elig (random_shuffle k vCoins)) ok r) as (ok & r & E & Hsel).
  { exists ok, r. split; [done|]. by eapply selection_perm. }
  clear Hp Hpe Hr Hn Hs. unfold SelectCoinsMinConf.
  destruct (scan_coins_spec w target nSpendTime nConfMine nConfTheirs Htarget (random_shuffle k vCoins) [] None []) as (r & Er & Hres);
    [done|done|done| |].
  { split; [done|]. split; [done|]. split; [|done]. simpl. intros c Hc. by apply elem_of_nil in Hc. }
  change (sum_coins []) with 0 in Er. rewrite Er. clear Er. cbn [mbind option_bind]. simpl app in Hres. fold (elig (random_shuffle k vCoins)) in Hres. set (coins := elig _) in *. clearbody coins.
  destruct r as [c|larger vValue nTotalLower].
  { destruct Hres as [Hin E]. exists true, (add_coin c (∅, 0)). split; [done|]. left. split; [done|]. exists [c].
    apply (chosen_add coins [c]); [done|done|by apply singleton_submseteq_l|..]; simpl; [lia|lia|]. unfold CENT. intros ? _. lia. }
  destruct Hres as (-> & -> & Hl & Hne).
  pose proof (pick_coins_ok 1000 k coins larger Hn' Hs' Hne Hl) as Hpick. cbv zeta in Hpick.
  destruct (pick_coins _ _ _ _ _ _) as [ok r]. by exists ok, r.
Qed.
End minconf.
