(* ===== verification/KeyPool.v ===== *)
(** * KeyPool: new keys and the pool of reserved ones (src/src/wallet.cpp, wallet.h)

    [GenerateNewKey], [TopUpKeyPool], the reservation of a key and its return,
    and [CReserveKey].  The records of the pool are in the database, as a map; the
    set of the indexes that are not reserved is in memory.  The wallet's
    key store is the plain one; whether a wallet is locked is an argument, since
    an encrypted store is not modelled, and neither is the copy of the keys in
    the database.  [None] is an exception or a failed assertion. *)

From S2P Require Import Prelude BigNum ScriptOps Serialize Crypto Keys Core SigHash Interp Standard Signing.
Import KeyStore.
Open Scope Z_scope.

(** The secret on which the loop of the [n]-th [MakeNewKey] ends, and the time. *)
Class KeyDraws := { new_secret : nat -> bytes; GetTime : Z }.

Record CKeyPool := mk_keypool { kp_nTime : Z; kp_vchPubKey : CPubKey }.

(** The part of [CWallet] that makes and keeps keys, with the pool's records in the
    database, and the number of keys made. *)
Record WalletKeys := mk_keys {
  wk_store : CBasicKeyStore;
  mapKeyMetadata : gmap Z Z;
  nTimeFirstKey : Z;
  nWalletVersion : Z;
  nWalletMaxVersion : Z;
  vchDefaultKey : CPubKey;
  setKeyPool : gset Z;
  pool_records : gmap Z CKeyPool;
  keys_made : nat
}.

Definition FEATURE_BASE : Z := 10500.
Definition FEATURE_COMPRPUBKEY : Z := 60000.
Definition FEATURE_LATEST : Z := 60000.

(** [*begin()] and [*--end()] of a set of indexes. *)
Definition set_first (s : gset Z) : option Z :=
  match elements s with [] => None | x :: l => Some (fold_left Z.min l x) end.
Definition set_last (s : gset Z) : option Z :=
  match elements s with [] => None | x :: l => Some (fold_left Z.max l x) end.

(** ** Making a key *)
Section keys.
Context `{Digests} `{ECLib} `{KeyDraws}.

Definition CanSupportFeature (wf : Z) (p : WalletKeys) : bool := wf <=? nWalletMaxVersion p.

Definition SetMinVersion (nVersion : Z) (fExplicit : bool) (p : WalletKeys) : WalletKeys :=
  if nVersion <=? nWalletVersion p then p else
  let nVersion := if fExplicit && (nWalletMaxVersion p <? nVersion) then FEATURE_LATEST else nVersion in
  mk_keys (wk_store p) (mapKeyMetadata p) (nTimeFirstKey p) nVersion (Z.max (nWalletMaxVersion p) nVersion) (vchDefaultKey p)
    (setKeyPool p) (pool_records p) (keys_made p).

(** [SetMaxVersion]. *)
Definition SetMaxVersion (nVersion : Z) (p : WalletKeys) : bool * WalletKeys :=
  if nVersion <? nWalletVersion p then (false, p) else
  (true, mk_keys (wk_store p) (mapKeyMetadata p) (nTimeFirstKey p) (nWalletVersion p) nVersion (vchDefaultKey p)
    (setKeyPool p) (pool_records p) (keys_made p)).

Definition MakeNewKey (fCompressed : bool) (n : nat) : CKey := mk_key true fCompressed (new_secret n).

(** [AddKeyPubKey] of the wallet: the store of the unencrypted keys. *)
Definition AddKeyPubKey_wallet (secret : CKey) (pubkey : CPubKey) (p : WalletKeys) : bool * WalletKeys :=
  let '(ok, store) := AddKeyPubKey (wk_store p) secret pubkey in
  (ok, mk_keys store (mapKeyMetadata p) (nTimeFirstKey p) (nWalletVersion p) (nWalletMaxVersion p) (vchDefaultKey p)
    (setKeyPool p) (pool_records p) (keys_made p)).

Definition GenerateNewKey (p : WalletKeys) : option (CPubKey * WalletKeys) :=
  let fCompressed := CanSupportFeature FEATURE_COMPRPUBKEY p in
  let secret := MakeNewKey fCompressed (keys_made p) in
  let p := if fCompressed then SetMinVersion FEATURE_COMPRPUBKEY false p else p in
  pubkey ← PrivKey.GetPubKey secret;
  let nCreationTime := GetTime in
  let first := if (nTimeFirstKey p =? 0) || (nCreationTime <? nTimeFirstKey p) then nCreationTime else nTimeFirstKey p in
  let p := mk_keys (wk_store p) (<[PubKey.GetID pubkey := nCreationTime]> (mapKeyMetadata p)) first (nWalletVersion p)
    (nWalletMaxVersion p) (vchDefaultKey p) (setKeyPool p) (pool_records p) (S (keys_made p)) in
  let '(ok, p) := AddKeyPubKey_wallet secret pubkey p in
  if negb ok then None else Some (pubkey, p).

(** ** The pool *)
Definition with_pool (s : gset Z) (records : gmap Z CKeyPool) (p : WalletKeys) : WalletKeys :=
  mk_keys (wk_store p) (mapKeyMetadata p) (nTimeFirstKey p) (nWalletVersion p) (nWalletMaxVersion p) (vchDefaultKey p)
    s records (keys_made p).
Definition WritePool (nIndex : Z) (keypool : CKeyPool) (p : WalletKeys) : WalletKeys :=
  with_pool (setKeyPool p) (<[nIndex := keypool]> (pool_records p)) p.
Definition ErasePool (nIndex : Z) (p : WalletKeys) : WalletKeys :=
  with_pool (setKeyPool p) (delete nIndex (pool_records p)) p.
Definition ReadPool (nIndex : Z) (p : WalletKeys) : option CKeyPool := pool_records p !! nIndex.

(** A new key under an index: [WritePool] and the insertion. *)
Definition add_pool_key (nIndex : Z) (p : WalletKeys) : option WalletKeys :=
  '(pubkey, p) ← GenerateNewKey p;
  let p := WritePool nIndex (mk_keypool GetTime pubkey) p in
  Some (with_pool ({[nIndex]} ∪ setKeyPool p) (pool_records p) p).

(** The loop of [TopUpKeyPool]; each round adds an index that is not there. *)
Fixpoint topup_loop (fuel : nat) (nTargetSize : Z) (p : WalletKeys) : option WalletKeys :=
  if Z.of_nat (size (setKeyPool p)) <? u32 (nTargetSize + 1) then
    match fuel with
    | O => None
    | S fuel =>
      let nEnd := match set_last (setKeyPool p) with None => 1 | Some n => i64 (n + 1) end in
      p ← add_pool_key nEnd p; topup_loop fuel nTargetSize p
    end
  else Some p.

(** [keypool] is the argument [-keypool]. *)
Variable keypool_arg : Z.

Definition TopUpKeyPool (IsLocked : bool) (nSize : Z) (p : WalletKeys) : option (bool * WalletKeys) :=
  if IsLocked then Some (false, p) else
  let nTargetSize := if 0 <? nSize then nSize else u32 (Z.max keypool_arg 0) in
  p ← topup_loop (Z.to_nat (nTargetSize + 1)) nTargetSize p; Some (true, p).

Fixpoint new_pool_loop (n : nat) (i : Z) (p : WalletKeys) : option WalletKeys :=
  match n with
  | O => Some p
  | S n => p ← add_pool_key (i + 1) p; new_pool_loop n (i + 1) p
  end.
Definition NewKeyPool (IsLocked : bool) (p : WalletKeys) : option (bool * WalletKeys) :=
  let p := foldr ErasePool p (elements (setKeyPool p)) in
  let p := with_pool ∅ (pool_records p) p in
  if IsLocked then Some (false, p) else
  p ← new_pool_loop (Z.to_nat (Z.max keypool_arg 0)) 0 p; Some (true, p).

(** [nIndex] and [keypool]; the index is -1 when there is no key. *)
Definition ReserveKeyFromKeyPool (IsLocked : bool) (p : WalletKeys) : option (Z * CKeyPool * WalletKeys) :=
  '(_, p) ← TopUpKeyPool IsLocked 0 p;
  match set_first (setKeyPool p) with
  | None => Some (-1, mk_keypool GetTime PubKey.Invalidate, p)
  | Some nIndex =>
    let p := with_pool (setKeyPool p ∖ {[nIndex]}) (pool_records p) p in
    keypool ← ReadPool nIndex p;
    if negb (HaveKey (wk_store p) (PubKey.GetID (kp_vchPubKey keypool))) then None
    else if negb (PubKey.IsValid (kp_vchPubKey keypool)) then None
    else Some (nIndex, keypool, p)
  end.

(** [None]: the last element of an empty set. *)
Definition AddReserveKey (keypool : CKeyPool) (p : WalletKeys) : option (Z * WalletKeys) :=
  last ← set_last (setKeyPool p);
  let nIndex := i64 (1 + last) in
  let p := WritePool nIndex keypool p in
  Some (nIndex, with_pool ({[nIndex]} ∪ setKeyPool p) (pool_records p) p).

Definition KeepKey (fFileBacked : bool) (nIndex : Z) (p : WalletKeys) : WalletKeys :=
  if fFileBacked then ErasePool nIndex p else p.
Definition ReturnKey (nIndex : Z) (p : WalletKeys) : WalletKeys := with_pool ({[nIndex]} ∪ setKeyPool p) (pool_records p) p.

Definition GetKeyFromPool (fFileBacked IsLocked : bool) (p : WalletKeys) : option (option CPubKey * WalletKeys) :=
  '(nIndex, keypool, p) ← ReserveKeyFromKeyPool IsLocked p;
  if nIndex =? -1 then
    if IsLocked then Some (None, p)
    else '(result, p) ← GenerateNewKey p; Some (Some result, p)
  else Some (Some (kp_vchPubKey keypool), KeepKey fFileBacked nIndex p).

Definition GetOldestKeyPoolTime (IsLocked : bool) (p : WalletKeys) : option (Z * WalletKeys) :=
  '(nIndex, keypool, p) ← ReserveKeyFromKeyPool IsLocked p;
  if nIndex =? -1 then Some (GetTime, p) else Some (kp_nTime keypool, ReturnKey nIndex p).

(** [GetAllReserveKeys]. *)
Definition GetAllReserveKeys (p : WalletKeys) : option (gset Z) :=
  foldr (fun id r =>
    r ← r;
    keypool ← ReadPool id p;
    let keyID := PubKey.GetID (kp_vchPubKey keypool) in
    if negb (PubKey.IsValid (kp_vchPubKey keypool)) || negb (HaveKey (wk_store p) keyID) then None
    else Some ({[keyID]} ∪ r)) (Some ∅) (elements (setKeyPool p)).

(** ** [CReserveKey] *)
Record CReserveKey := mk_reserve { rk_nIndex : Z; rk_vchPubKey : CPubKey }.
Definition new_reserve : CReserveKey := mk_reserve (-1) PubKey.Invalidate.

(** The key, or [None] for false. *)
Definition GetReservedKey (IsLocked : bool) (rk : CReserveKey) (p : WalletKeys) : option (option CPubKey * CReserveKey * WalletKeys) :=
  if rk_nIndex rk =? -1 then
    '(nIndex, keypool, p) ← ReserveKeyFromKeyPool IsLocked p;
    if negb (nIndex =? -1) then
      if PubKey.IsValid (kp_vchPubKey keypool)
      then Some (Some (kp_vchPubKey keypool), mk_reserve nIndex (kp_vchPubKey keypool), p) else None
    else if PubKey.IsValid (vchDefaultKey p)
    then Some (Some (vchDefaultKey p), mk_reserve nIndex (vchDefaultKey p), p)
    else Some (None, mk_reserve nIndex (rk_vchPubKey rk), p)
  else if PubKey.IsValid (rk_vchPubKey rk) then Some (Some (rk_vchPubKey rk), rk, p) else None.

Definition Reserve_KeepKey (fFileBacked : bool) (rk : CReserveKey) (p : WalletKeys) : CReserveKey * WalletKeys :=
  (new_reserve, if negb (rk_nIndex rk =? -1) then KeepKey fFileBacked (rk_nIndex rk) p else p).
Definition Reserve_ReturnKey (rk : CReserveKey) (p : WalletKeys) : CReserveKey * WalletKeys :=
  (new_reserve, if negb (rk_nIndex rk =? -1) then ReturnKey (rk_nIndex rk) p else p).
End keys.
