(* ===== verification/KeyPoolFacts.v ===== *)
(** * KeyPoolFacts: a key of the pool is handed out once (src/src/wallet.cpp)

    The pool as a state machine: keys are made, reserved, kept and returned in any
    order.  As long as the pool is topped up to more than one key, every reservation
    succeeds with a key that was never given away and that nobody else holds. *)

From S2P Require Import Prelude BigNum ScriptOps Serialize Crypto Keys Core SigHash Interp Standard Spending Der Signing KeyPool.
Import KeyStore KeyFacts.
Open Scope Z_scope.

(** ** Sets of numbers *)
Lemma size_add_one (x : Z) (s : gset Z) : x ∉ s -> size ({[x]} ∪ s) = S (size s).
Proof. intros Hx. rewrite size_union, size_singleton by set_solver. done. Qed.

Lemma fold_left_min l x : fold_left Z.min l x ∈ x :: l /\ forall y, y ∈ x :: l -> fold_left Z.min l x <= y.
Proof.
  revert x. induction l as [|z l IH]; intros x.
  { split; [by left|]. intros y ->%list_elem_of_singleton. simpl. lia. }
  cbn [fold_left]. destruct (IH (Z.min x z)) as [Hin Hle]. split.
  - apply elem_of_cons in Hin as [->|Hin]; [|by right; right].
    destruct (Z.min_spec x z) as [[_ ->]|[_ ->]]; [by left|by right; left].
  - pose proof (Hle (Z.min x z) ltac:(by left)). intros y [->|[->|Hy]%elem_of_cons]%elem_of_cons; [lia|lia|]. apply Hle. by right.
Qed.

Lemma fold_left_max l x : fold_left Z.max l x ∈ x :: l /\ forall y, y ∈ x :: l -> y <= fold_left Z.max l x.
Proof.
  revert x. induction l as [|z l IH]; intros x.
  { split; [by left|]. intros y ->%list_elem_of_singleton. simpl. lia. }
  cbn [fold_left]. destruct (IH (Z.max x z)) as [Hin Hle]. split.
  - apply elem_of_cons in Hin as [->|Hin]; [|by right; right].
    destruct (Z.max_spec x z) as [[_ ->]|[_ ->]]; [by right; left|by left].
  - pose proof (Hle (Z.max x z) ltac:(by left)). intros y [->|[->|Hy]%elem_of_cons]%elem_of_cons; [lia|lia|]. apply Hle. by right.
Qed.

Lemma set_first_spec s : match set_first s with
  | Some m => m ∈ s /\ forall x, x ∈ s -> m <= x
  | None => s = ∅ end.
Proof.
  unfold set_first. destruct (elements s) as [|x l] eqn:E; [by apply elements_empty_inv, leibniz_equiv in E|].
  destruct (fold_left_min l x) as [Hin Hle]. rewrite <- E in *. split; [by apply elem_of_elements|].
  intros y Hy. apply Hle. by apply elem_of_elements.
Qed.

Lemma set_last_spec s : match set_last s with
  | Some m => m ∈ s /\ forall x, x ∈ s -> x <= m
  | None => s = ∅ end.
Proof.
  unfold set_last. destruct (elements s) as [|x l] eqn:E; [by apply elements_empty_inv, leibniz_equiv in E|].
  destruct (fold_left_max l x) as [Hin Hle]. rewrite <- E in *. split; [by apply elem_of_elements|].
  intros y Hy. apply Hle. by apply elem_of_elements.
Qed.

(** Every secret is one that [CKey::Check] accepts. *)
Class KeyDrawsOk `{KeyDraws} : Prop := { secret_doc n : length (new_secret n) = 32%nat /\ Range.Check_ (new_secret n) = true }.

(** ** Making a key *)
Section make.
Context `{!Digests} `{!DigestsOk} `{!ECLib} `{!ECLibOk} `{!KeyDraws} `{!KeyDrawsOk}.

(** The [n]-th key made, compressed or not. *)
Definition made_key (n : nat) (pk : CPubKey) : Prop := exists comp, PrivKey.GetPubKey (MakeNewKey comp n) = Some pk.

Lemma MakeNewKey_wf comp n : key_wf (MakeNewKey comp n).
Proof.
  destruct (secret_doc n) as [Hl Hc]. rewrite (proj1 (key_ranges _ true Hl)) in Hc. apply andb_true_iff in Hc as [Ha%Z.leb_le Hb%Z.ltb_lt].
  split; [done|]. simpl. lia.
Qed.

Lemma GenerateNewKey_ok p : exists pk p', GenerateNewKey p = Some (pk, p') /\ made_key (keys_made p) pk /\ PubKey.IsValid pk = true /\
  setKeyPool p' = setKeyPool p /\ pool_records p' = pool_records p /\ keys_made p' = S (keys_made p) /\
  vchDefaultKey p' = vchDefaultKey p /\
  exists k, key_wf k /\ PrivKey.GetPubKey k = Some pk /\
  wk_store p' = mk_store (<[PubKey.GetID pk := k]> (mapKeys (wk_store p))) (mapScripts (wk_store p)).
Proof.
  unfold GenerateNewKey. set (comp := CanSupportFeature _ p). destruct (GetPubKey_wf _ (MakeNewKey_wf comp (keys_made p))) as (pk & Epk & Hwf & _).
  rewrite Epk. cbn [mbind option_bind AddKeyPubKey_wallet AddKeyPubKey negb].
  set (q := if comp then SetMinVersion FEATURE_COMPRPUBKEY false p else p).
  assert (setKeyPool q = setKeyPool p /\ pool_records q = pool_records p /\ keys_made q = keys_made p /\
    vchDefaultKey q = vchDefaultKey p /\ wk_store q = wk_store p) as (E1 & E2 & E3 & E4 & E5).
  { unfold q, SetMinVersion. destruct comp; [|done]. by destruct (_ <=? _). }
  eexists pk, _. split; [done|]. split; [by exists comp|]. split.
  { unfold PubKey.IsValid. destruct Hwf as [_ Hs]. by apply Z.ltb_lt. }
  simpl. rewrite E1, E2, E3, E4, E5. do 4 (split; [done|]). exists (MakeNewKey comp (keys_made p)). split; [apply MakeNewKey_wf|]. done.
Qed.
End make.

(** ** The pool as a state machine *)
Section machine.
Context `{!Digests} `{!DigestsOk} `{!ECLib} `{!ECLibOk} `{!KeyDraws} `{!KeyDrawsOk}.
Variable keypool_arg : Z.

(** The wallet's keys, the reservations that are open, and the keys given away. *)
Record PoolState := mk_state { keys : WalletKeys; reserved : gmap Z CPubKey; given : list CPubKey }.

Inductive pool_step : PoolState -> PoolState -> Prop :=
| step_topup p out gone n b p' : n < 2 ^ 32 - 1 -> TopUpKeyPool keypool_arg false n p = Some (b, p') ->
    pool_step (mk_state p out gone) (mk_state p' out gone)
| step_new p out gone pk p' : GenerateNewKey p = Some (pk, p') ->
    pool_step (mk_state p out gone) (mk_state p' out (pk :: gone))
| step_reserve p out gone i keypool p' : ReserveKeyFromKeyPool keypool_arg false p = Some (i, keypool, p') -> i <> -1 ->
    pool_step (mk_state p out gone) (mk_state p' (<[i := kp_vchPubKey keypool]> out) gone)
| step_keep p out gone i pk : out !! i = Some pk ->
    pool_step (mk_state p out gone) (mk_state (KeepKey true i p) (delete i out) (pk :: gone))
| step_return p out gone i pk : out !! i = Some pk ->
    pool_step (mk_state p out gone) (mk_state (ReturnKey i p) (delete i out) gone).

(** A wallet without a pool. *)
Definition no_pool (p : WalletKeys) : Prop := setKeyPool p = ∅ /\ pool_records p = ∅ /\ keys_made p = 0%nat.

(** The record of an index that is in the pool or reserved. *)
Definition pool_key (p : WalletKeys) (i : Z) (pk : CPubKey) : Prop := exists keypool n, pool_records p !! i = Some keypool /\
  kp_vchPubKey keypool = pk /\ made_key n pk /\ (n < keys_made p)%nat /\ PubKey.IsValid pk = true /\
  HaveKey (wk_store p) (PubKey.GetID pk) = true /\ 1 <= i <= Z.of_nat (keys_made p).

Definition live (s : PoolState) (i : Z) : Prop := i ∈ setKeyPool (keys s) \/ is_Some (reserved s !! i).

Record pool_ok (s : PoolState) : Prop := {
  ok_record i : live s i -> exists pk, pool_key (keys s) i pk;
  ok_apart i : i ∈ setKeyPool (keys s) -> reserved s !! i = None;
  ok_reserved i pk : reserved s !! i = Some pk -> pool_key (keys s) i pk;
  ok_distinct i j pk : live s i -> live s j -> pool_key (keys s) i pk -> pool_key (keys s) j pk -> i = j;
  ok_given pk : pk ∈ given s -> exists n, made_key n pk /\ (n < keys_made (keys s))%nat;
  ok_gone i pk : live s i -> pool_key (keys s) i pk -> pk ∉ given s;
  (** A reservation is below some index of the pool. *)
  ok_below i : is_Some (reserved s !! i) -> exists m, m ∈ setKeyPool (keys s) /\ i < m
}.

Lemma no_pool_ok p : no_pool p -> pool_ok (mk_state p ∅ []).
Proof.
  intros (E1 & E2 & E3). split; unfold live; simpl; rewrite ?E1.
  - by intros i [?%not_elem_of_empty|[pk ?%lookup_empty_Some]].
  - by intros i ?%not_elem_of_empty.
  - by intros i pk ?%lookup_empty_Some.
  - by intros i j pk [?%not_elem_of_empty|[? ?%lookup_empty_Some]].
  - by intros pk ?%elem_of_nil.
  - by intros i pk [?%not_elem_of_empty|[? ?%lookup_empty_Some]].
  - by intros i [? ?%lookup_empty_Some].
Qed.

(** Distinct draws make distinct keys, as far as the pool ever counts. *)
Hypothesis fresh : forall n m pk, Z.of_nat n < 2 ^ 62 -> Z.of_nat m < 2 ^ 62 -> made_key n pk -> made_key m pk -> n = m.

Lemma pool_key_fun p i pk pk' : pool_key p i pk -> pool_key p i pk' -> pk = pk'.
Proof. intros (kp & n & E & <- & _) (kp' & n' & E' & <- & _). congruence. Qed.

(** A new key leaves the pool's keys as they are. *)
Lemma pool_key_grow p p' i pk : pool_records p' !! i = pool_records p !! i -> (keys_made p <= keys_made p')%nat ->
  (forall id, HaveKey (wk_store p) id = true -> HaveKey (wk_store p') id = true) -> pool_key p i pk -> pool_key p' i pk.
Proof.
  intros Er Hn Hh (kp & n & E & Ek & Hm & Hlt & Hv & Hk & Hi). exists kp, n. rewrite Er. repeat (split; [done || lia || auto|]). lia.
Qed.

Lemma pool_key_old p n i pk : Z.of_nat n < 2 ^ 62 -> made_key n pk -> (keys_made p <= n)%nat -> ~ pool_key p i pk.
Proof. intros Hb Hm Hn (kp & m & _ & <- & Hm' & Hlt & _). pose proof (fresh n m _ Hb ltac:(lia) Hm Hm'). lia. Qed.

(** What making a key leaves of the pool. *)
Lemma make_key p : exists pk p', GenerateNewKey p = Some (pk, p') /\ made_key (keys_made p) pk /\ PubKey.IsValid pk = true /\
  HaveKey (wk_store p') (PubKey.GetID pk) = true /\ setKeyPool p' = setKeyPool p /\ pool_records p' = pool_records p /\
  keys_made p' = S (keys_made p) /\ forall id, HaveKey (wk_store p) id = true -> HaveKey (wk_store p') id = true.
Proof.
  destruct (GenerateNewKey_ok p) as (pk & p' & E & Hm & Hv & E1 & E2 & E3 & _ & k & _ & _ & Es). exists pk, p'.
  unfold HaveKey. rewrite Es. simpl. rewrite lookup_insert_eq. repeat (split; [done|]). intros id Hid%bool_decide_eq_true.
  apply bool_decide_eq_true. destruct (decide (id = PubKey.GetID pk)) as [->|]; [by rewrite lookup_insert_eq|by rewrite lookup_insert_ne].
Qed.

Lemma new_key_ok p out gone pk p' : Z.of_nat (keys_made p) < 2 ^ 62 -> pool_ok (mk_state p out gone) -> GenerateNewKey p = Some (pk, p') ->
  pool_ok (mk_state p' out (pk :: gone)).
Proof.
  intros Hb Hok E. destruct (make_key p) as (pk' & p1 & E' & Hm & _ & _ & Es & Er & En & Hh). rewrite E in E'. injection E' as <- <-.
  assert (forall i q, live (mk_state p out gone) i -> pool_key p' i q -> pool_key p i q) as Hback.
  { intros i q Hl Hq. destruct (ok_record _ Hok i Hl) as [q' Hq']. simpl in Hq'.
    assert (pool_key p' i q') as Hq1 by (eapply pool_key_grow; [by rewrite Er|lia|done|done]).
    by rewrite (pool_key_fun _ _ _ _ Hq Hq1). }
  assert (forall i q, pool_key p i q -> pool_key p' i q) as Hgrow by (intros i q; apply pool_key_grow; [by rewrite Er|lia|done]).
  destruct Hok as [K1 K2 K3 K4 K5 K6 K7]. unfold live in *. simpl in *. split; unfold live; simpl; rewrite ?Es.
  - intros i Hi. destruct (K1 i Hi) as [q Hq]. by exists q; apply Hgrow.
  - done.
  - intros i q Hq. by apply Hgrow, K3.
  - intros i j q Hi Hj Hq Hq'. eauto.
  - intros q [->|Hq]%elem_of_cons; [exists (keys_made p); split; [done|lia]|]. destruct (K5 q Hq) as (n & ? & ?). exists n. split; [done|lia].
  - intros i q Hi Hq%Hback; [|done]. intros [->|Hg]%elem_of_cons; [by apply (pool_key_old p (keys_made p) i pk)|by apply (K6 i q)].
  - done.
Qed.

(** A new key under a free index. *)
Lemma add_pool_key_ok p out gone i : Z.of_nat (keys_made p) < 2 ^ 62 -> pool_ok (mk_state p out gone) -> ~ live (mk_state p out gone) i -> 1 <= i <= Z.of_nat (keys_made p) + 1 ->
  exists p', add_pool_key i p = Some p' /\ pool_ok (mk_state p' out gone) /\ setKeyPool p' = {[i]} ∪ setKeyPool p /\
    keys_made p' = S (keys_made p).
Proof.
  intros Hlim Hok Hi Hb. destruct (make_key p) as (pk & p1 & E & Hm & Hv & Hk & Es & Er & En & Hh).
  unfold add_pool_key. rewrite E. cbn [mbind option_bind]. set (p' := with_pool _ _ _). exists p'. split; [done|].
  assert (setKeyPool p' = {[i]} ∪ setKeyPool p /\ pool_records p' = <[i := mk_keypool GetTime pk]> (pool_records p) /\
    keys_made p' = S (keys_made p) /\ wk_store p' = wk_store p1) as (Fs & Fr & Fn & Fw).
  { unfold p', WritePool, with_pool. simpl. by rewrite Es, Er, En. }
  split; [|done]. clearbody p'. pose proof Hok as [K1 K2 K3 K4 K5 K6 K7]. unfold live in *. simpl in *.
  assert (pool_key p' i pk) as Hnew.
  { exists (mk_keypool GetTime pk), (keys_made p). rewrite Fr, lookup_insert_eq, Fn, Fw. repeat (split; [done || lia|]). lia. }
  assert (forall j q, j <> i -> pool_key p j q -> pool_key p' j q) as Hgrow.
  { intros j q Hj. apply pool_key_grow; [by rewrite Fr, lookup_insert_ne by done|lia|]. by rewrite Fw. }
  assert (forall j q, j <> i -> j ∈ setKeyPool p \/ is_Some (out !! j) -> pool_key p' j q -> pool_key p j q) as Hback.
  { intros j q Hj Hl Hq. destruct (K1 j Hl) as [q' Hq']. by rewrite (pool_key_fun _ _ _ _ Hq (Hgrow j q' Hj Hq')). }
  assert (forall j, j ∈ {[i]} ∪ setKeyPool p \/ is_Some (out !! j) -> j = i \/ (j <> i /\ (j ∈ setKeyPool p \/ is_Some (out !! j)))) as Hcase.
  { intros j Hj. destruct (decide (j = i)); [by left|right]. split; [done|]. set_solver. }
  split; unfold live; simpl; rewrite ?Fs.
  - intros j [->|[Hj Hl]]%Hcase; [by exists pk|]. destruct (K1 j Hl) as [q Hq]. exists q. by apply Hgrow.
  - intros j [->%elem_of_singleton|Hj]%elem_of_union; [|by apply K2]. apply eq_None_not_Some. intros Ho. apply Hi. by right.
  - intros j q Hq. apply Hgrow; [|by apply K3]. intros ->. apply Hi. right. by exists q.
  - intros j1 j2 q [->|[Hj1 Hl1]]%Hcase [->|[Hj2 Hl2]]%Hcase Hq1 Hq2; [done| | |].
    + rewrite (pool_key_fun _ _ _ _ Hq1 Hnew) in *. apply Hback in Hq2; [|done|done]. by destruct (pool_key_old p (keys_made p) j2 pk).
    + rewrite (pool_key_fun _ _ _ _ Hq2 Hnew) in *. apply Hback in Hq1; [|done|done]. by destruct (pool_key_old p (keys_made p) j1 pk).
    + apply (K4 j1 j2 q); auto.
  - intros q Hq. destruct (K5 q Hq) as (n & ? & ?). exists n. split; [done|lia].
  - intros j q [->|[Hj Hl]]%Hcase Hq; [|apply (K6 j); auto]. rewrite (pool_key_fun _ _ _ _ Hq Hnew). intros Hg.
    destruct (K5 pk Hg) as (n & Hn & Hlt). pose proof (fresh _ n _ Hlim ltac:(lia) Hm Hn). lia.
  - intros j Hj. destruct (K7 j Hj) as (m & ? & ?). exists m. split; [set_solver|done].
Qed.

(** The index of the next key is free. *)
Lemma next_index_free p out gone : pool_ok (mk_state p out gone) -> Z.of_nat (keys_made p) < 2 ^ 62 ->
  let nEnd := match set_last (setKeyPool p) with None => 1 | Some n => i64 (n + 1) end in
  ~ live (mk_state p out gone) nEnd /\ nEnd ∉ setKeyPool p /\ 1 <= nEnd <= Z.of_nat (keys_made p) + 1.
Proof.
  intros [K1 _ _ _ _ _ K7] Hb. unfold live in *. simpl in *. pose proof (set_last_spec (setKeyPool p)) as Hl.
  destruct (set_last (setKeyPool p)) as [m|].
  - destruct Hl as [Hin Hle]. destruct (K1 m (or_introl Hin)) as (pk & kp & n & _ & _ & _ & Hn & _ & _ & Hm).
    rewrite i64_id by lia. assert (m + 1 ∉ setKeyPool p) as Hni by (intros Hc%Hle; lia).
    split; [|split; [done|lia]]. intros [Hc|(x & Hx & Hlt)%K7]; [done|]. apply Hle in Hx. lia.
  - rewrite Hl in *. split; [|split; [set_solver|lia]]. intros [Hc|(x & Hx & _)%K7]; [set_solver|set_solver].
Qed.

Lemma topup_loop_ok fuel target p out gone : pool_ok (mk_state p out gone) -> 0 <= target < 2 ^ 32 - 1 ->
  target + 1 <= Z.of_nat (size (setKeyPool p)) + Z.of_nat fuel -> Z.of_nat (keys_made p) + Z.of_nat fuel < 2 ^ 62 ->
  exists p', topup_loop fuel target p = Some p' /\ pool_ok (mk_state p' out gone) /\ target + 1 <= Z.of_nat (size (setKeyPool p')) /\
    (keys_made p' <= keys_made p + fuel)%nat.
Proof.
  intros Hok Ht. revert p Hok. induction fuel as [|fuel IH]; intros p Hok Hs Hb; cbn [topup_loop].
  all: unfold u32; rewrite Z.mod_small by lia; destruct (Z.ltb_spec (Z.of_nat (size (setKeyPool p))) (target + 1)) as [Hlt|Hge].
  - lia.
  - exists p. split; [done|]. split; [done|]. lia.
  - destruct (next_index_free p out gone Hok ltac:(lia)) as (Hfree & Hni & Hr). cbv zeta in *. set (nEnd := match set_last _ with None => _ | _ => _ end) in *.
    destruct (add_pool_key_ok p out gone nEnd ltac:(lia) Hok Hfree Hr) as (p1 & -> & Hok1 & Es & En). cbn [mbind option_bind].
    assert (size (setKeyPool p1) = S (size (setKeyPool p))) as Esz by (rewrite Es; by apply size_add_one).
    destruct (IH p1 Hok1 ltac:(lia) ltac:(lia)) as (p' & -> & Hok' & Hs' & Hn'). exists p'. split; [done|]. split; [done|]. lia.
  - exists p. split; [done|]. split; [done|]. lia.
Qed.

Lemma return_ok p out gone i pk : pool_ok (mk_state p out gone) -> out !! i = Some pk ->
  pool_ok (mk_state (ReturnKey i p) (delete i out) gone).
Proof.
  intros [K1 K2 K3 K4 K5 K6 K7] Ho. unfold live in *. simpl in *.
  assert (forall j, j ∈ {[i]} ∪ setKeyPool p \/ is_Some (delete i out !! j) -> j ∈ setKeyPool p \/ is_Some (out !! j)) as Hl.
  { intros j [[->%elem_of_singleton|Hj]%elem_of_union|[q Hq]]; [right; by exists pk|by left|].
    apply lookup_delete_Some in Hq as [_ Hq]. right. by exists q. }
  split; unfold live; simpl.
  - intros j Hj%Hl. by apply K1.
  - intros j [->%elem_of_singleton|Hj]%elem_of_union; [by rewrite lookup_delete_eq|]. apply lookup_delete_None. right. by apply K2.
  - intros j q [_ Hq]%lookup_delete_Some. by apply K3.
  - intros j1 j2 q Hj1%Hl Hj2%Hl. by apply K4.
  - done.
  - intros j q Hj%Hl. by apply K6.
  - intros j [q [_ Hq]%lookup_delete_Some]. destruct (K7 j) as (m & ? & ?); [by exists q|]. exists m. split; [set_solver|done].
Qed.

Lemma keep_ok p out gone i pk : pool_ok (mk_state p out gone) -> out !! i = Some pk ->
  pool_ok (mk_state (KeepKey true i p) (delete i out) (pk :: gone)).
Proof.
  intros [K1 K2 K3 K4 K5 K6 K7] Ho. unfold live in *. simpl in *.
  assert (forall j, j ∈ setKeyPool p \/ is_Some (delete i out !! j) -> j <> i /\ (j ∈ setKeyPool p \/ is_Some (out !! j))) as Hl.
  { intros j [Hj|[q [? Hq]%lookup_delete_Some]]; [|split; [done|right; by exists q]].
    split; [|by left]. intros ->. pose proof (K2 i Hj). congruence. }
  assert (forall j q, j <> i -> pool_key (ErasePool i p) j q <-> pool_key p j q) as Hk.
  { intros j q Hj. unfold pool_key. simpl. by setoid_rewrite (lookup_delete_ne (pool_records p) i j (not_eq_sym Hj)). }
  split; unfold live; simpl.
  - intros j [Hne Hj]%Hl. destruct (K1 j Hj) as [q Hq]. exists q. by apply Hk.
  - intros j Hj. apply lookup_delete_None. right. by apply K2.
  - intros j q [Hne Hq]%lookup_delete_Some. apply Hk; [done|]. by apply K3.
  - intros j1 j2 q [N1 Hj1]%Hl [N2 Hj2]%Hl Hq1%Hk Hq2%Hk; [|done..]. by apply (K4 j1 j2 q).
  - intros q [->|Hq]%elem_of_cons; [|by apply K5]. destruct (K3 i pk Ho) as (kp & n & _ & _ & Hm & Hn & _). by exists n.
  - intros j q [Hne Hj]%Hl Hq%Hk; [|done]. intros [->|Hg]%elem_of_cons; [|by apply (K6 j q)]. apply Hne.
    apply (K4 j i pk); [done|right; by exists pk|done|by apply K3].
  - intros j [q [_ Hq]%lookup_delete_Some]. apply K7. by exists q.
Qed.

Lemma other_index (s : gset Z) i : (2 <= size s)%nat -> (forall x, x ∈ s -> i <= x) -> exists m, m ∈ s /\ i < m.
Proof.
  intros Hs Hmin. destruct (decide (s ∖ {[i]} = ∅)) as [E|(m & [Hm Hne%not_elem_of_singleton]%elem_of_difference)%set_choose_L].
  - assert (size s <= size ({[i]} : gset Z))%nat as Hle; [|rewrite size_singleton in Hle; lia].
    apply subseteq_size. intros x Hx. apply dec_stable. intros Hne. apply (not_elem_of_empty (C := gset Z) x). rewrite <- E. by apply elem_of_difference.
  - exists m. split; [done|]. specialize (Hmin m Hm). lia.
Qed.

(** Taking the first index of a pool of two or more. *)
Lemma take_first_ok p out gone i pk : pool_ok (mk_state p out gone) -> (2 <= size (setKeyPool p))%nat ->
  set_first (setKeyPool p) = Some i -> pool_key p i pk ->
  pool_ok (mk_state (with_pool (setKeyPool p ∖ {[i]}) (pool_records p) p) (<[i := pk]> out) gone).
Proof.
  intros [K1 K2 K3 K4 K5 K6 K7] Hs Hf Hpk. unfold live in *. simpl in *.
  pose proof (set_first_spec (setKeyPool p)) as Hfirst. rewrite Hf in Hfirst. destruct Hfirst as [Hi Hmin].
  destruct (other_index (setKeyPool p) i Hs Hmin) as (m & Hm & Hlt).
  assert (forall j, j ∈ setKeyPool p ∖ {[i]} \/ is_Some (<[i:=pk]> out !! j) -> j ∈ setKeyPool p \/ is_Some (out !! j)) as Hl.
  { intros j [[Hj _]%elem_of_difference|[q [[<- _]|[_ Hq]]%lookup_insert_Some]]; [by left|by left|right; by exists q]. }
  split; unfold live; simpl.
  - intros j Hj%Hl. by apply K1.
  - intros j [Hj Hne]%elem_of_difference. rewrite lookup_insert_ne by (intros ->; by apply Hne, elem_of_singleton). by apply K2.
  - intros j q [[<- <-]|[_ Hq]]%lookup_insert_Some; [done|by apply K3].
  - intros j1 j2 q Hj1%Hl Hj2%Hl. by apply K4.
  - done.
  - intros j q Hj%Hl. by apply K6.
  - intros j [q [[<- <-]|[Hne Hq]]%lookup_insert_Some]; [exists m; split; [|done]|].
    { apply elem_of_difference. split; [done|]. intros ->%elem_of_singleton. lia. }
    destruct (K7 j) as (m' & Hm' & Hlt'); [by exists q|]. destruct (decide (m' = i)) as [->|Hne'].
    + exists m. split; [|lia]. apply elem_of_difference. split; [done|]. intros ->%elem_of_singleton. lia.
    + exists m'. split; [|done]. apply elem_of_difference. split; [done|]. by intros ?%elem_of_singleton.
Qed.

Hypothesis Harg : 1 <= keypool_arg < 2 ^ 32 - 1.

Lemma reserve_ok p out gone : pool_ok (mk_state p out gone) -> Z.of_nat (keys_made p) < 2 ^ 61 ->
  exists i keypool p', ReserveKeyFromKeyPool keypool_arg false p = Some (i, keypool, p') /\ 1 <= i /\ out !! i = None /\
    kp_vchPubKey keypool ∉ gone /\ (forall j pk, out !! j = Some pk -> pk <> kp_vchPubKey keypool) /\
    PubKey.IsValid (kp_vchPubKey keypool) = true /\ HaveKey (wk_store p') (PubKey.GetID (kp_vchPubKey keypool)) = true /\
    pool_ok (mk_state p' (<[i := kp_vchPubKey keypool]> out) gone).
Proof.
  intros Hok Hb. unfold ReserveKeyFromKeyPool, TopUpKeyPool. change (0 <? 0) with false. cbv match.
  unfold u32. rewrite Z.max_l, Z.mod_small by lia.
  destruct (topup_loop_ok (Z.to_nat (keypool_arg + 1)) keypool_arg p out gone Hok ltac:(lia) ltac:(lia) ltac:(lia)) as (p1 & -> & Hok1 & Hs & Hn).
  cbn [mbind option_bind]. pose proof (set_first_spec (setKeyPool p1)) as Hf. destruct (set_first (setKeyPool p1)) as [i|] eqn:Ef; cycle 1.
  { rewrite Hf, size_empty in Hs. lia. }
  destruct Hf as [Hi _]. destruct (ok_record _ Hok1 i (or_introl Hi)) as [pk Hpk]. simpl in Hpk.
  pose proof Hpk as (keypool & n & Er & Ek & Hm & Hlt & Hv & Hk & Hr). unfold ReadPool. cbn [with_pool pool_records wk_store]. rewrite Er. cbn [mbind option_bind].
  rewrite Ek, Hk, Hv. cbn [negb]. eexists i, keypool, _. split; [done|]. split; [lia|]. split; [by apply (ok_apart _ Hok1)|].
  rewrite Ek. split; [by apply (ok_gone _ Hok1 i); [left|]|]. split.
  - intros j q Hq ->. assert (j = i) as ->.
    { apply (ok_distinct _ Hok1 j i pk); [right; by exists pk|by left|by apply (ok_reserved _ Hok1)|done]. }
    pose proof (ok_apart _ Hok1 i Hi) as Hn'. simpl in Hn', Hq. congruence.
  - split; [done|]. split; [done|]. apply take_first_ok; [done|lia|done|done].
Qed.

(** *** Runs *)
Lemma topup_loop_grows fuel target p p' : topup_loop fuel target p = Some p' -> (keys_made p <= keys_made p')%nat.
Proof.
  revert p. induction fuel as [|fuel IH]; intros p; cbn [topup_loop]; destruct (_ <? _); [done|by intros [= <-]| |by intros [= <-]].
  set (nEnd := match set_last _ with None => _ | _ => _ end). unfold add_pool_key. destruct (make_key p) as (pk & p1 & E & _ & _ & _ & _ & _ & En & _).
  rewrite E. cbn [mbind option_bind]. intros Hl%IH. cbn in Hl. lia.
Qed.

Lemma topup_grows n p b p' : TopUpKeyPool keypool_arg false n p = Some (b, p') -> (keys_made p <= keys_made p')%nat.
Proof.
  unfold TopUpKeyPool. set (t := if 0 <? n then _ else _). destruct (topup_loop _ t p) as [p1|] eqn:E; [|done].
  intros [= _ <-]. by eapply topup_loop_grows.
Qed.

Lemma pool_step_grows s s' : pool_step s s' -> (keys_made (keys s) <= keys_made (keys s'))%nat.
Proof.
  destruct 1 as [p out gone n b p' Hn E|p out gone pk p' E|p out gone i keypool p' E Hi|p out gone i pk E|p out gone i pk E]; simpl; [|..|done|done].
  - by eapply topup_grows.
  - destruct (make_key p) as (pk' & p1 & E' & _ & _ & _ & _ & _ & En & _). rewrite E in E'. injection E' as <- <-. lia.
  - revert E. unfold ReserveKeyFromKeyPool. destruct (TopUpKeyPool keypool_arg false 0 p) as [[b p1]|] eqn:Et; [|done]. apply topup_grows in Et.
    cbn [mbind option_bind]. destruct (set_first _); [|by intros [= <- <- <-]]. unfold ReadPool.
    destruct (pool_records _ !! _); [|done]. cbn [mbind option_bind]. destruct (negb _); [done|]. destruct (negb _); [done|]. by intros [= <- <- <-].
Qed.

Lemma pool_step_ok s s' : pool_step s s' -> Z.of_nat (keys_made (keys s')) < 2 ^ 61 -> pool_ok s -> pool_ok s'.
Proof.
  intros Hst Hb Hok. pose proof (pool_step_grows _ _ Hst) as Hg.
  destruct Hst as [p out gone n b p' Hn E|p out gone pk p' E|p out gone i keypool p' E Hi|p out gone i pk E|p out gone i pk E]; simpl in *.
  - revert E. unfold TopUpKeyPool. set (t := if 0 <? n then n else _).
    assert (0 <= t < 2 ^ 32 - 1) as Ht.
    { unfold t. destruct (Z.ltb_spec 0 n); [lia|]. unfold u32. rewrite Z.max_l, Z.mod_small by lia. lia. }
    destruct (topup_loop_ok (Z.to_nat (t + 1)) t p out gone Hok Ht ltac:(lia) ltac:(lia)) as (p1 & -> & Hok1 & _). by intros [= _ <-].
  - eapply new_key_ok; [|done|done]. lia.
  - destruct (reserve_ok p out gone Hok ltac:(lia)) as (i' & kp' & p1 & E' & _ & _ & _ & _ & _ & _ & Hok1).
    rewrite E in E'. injection E' as <- <- <-. done.
  - by apply keep_ok.
  - by eapply return_ok.
Qed.

(** C10. A key of the pool of an unlocked wallet is handed out once.  Starting from a wallet
    without a pool, with [-keypool] at least one, after any sequence of new keys, top-ups,
    reservations, returns and keys kept, all with the wallet unlocked and of fewer than 2^61
    keys, the next reservation succeeds: its index is not reserved, and its key is valid,
    owned, never given away and not held by another reservation.  (A locked wallet cannot
    top its pool up; what happens when that runs dry is [drained_pool].) *)
Theorem keypool_hands_out_once p0 s : no_pool p0 -> rtc pool_step (mk_state p0 ∅ []) s -> Z.of_nat (keys_made (keys s)) < 2 ^ 61 ->
  exists i keypool p', ReserveKeyFromKeyPool keypool_arg false (keys s) = Some (i, keypool, p') /\ 1 <= i /\ reserved s !! i = None /\
    kp_vchPubKey keypool ∉ given s /\ (forall j pk, reserved s !! j = Some pk -> pk <> kp_vchPubKey keypool) /\
    PubKey.IsValid (kp_vchPubKey keypool) = true /\ HaveKey (wk_store p') (PubKey.GetID (kp_vchPubKey keypool)) = true.
Proof.
  intros Hp0 Hrun Hb. assert (pool_ok s) as Hok.
  { revert Hb. pattern s. refine (rtc_ind_r _ _ _ _ s Hrun); [by intros _; apply no_pool_ok|].
    intros s1 s2 Hrun' Hst IH Hb. apply (pool_step_ok s1); [done|done|]. apply IH. pose proof (pool_step_grows _ _ Hst). lia. }
  destruct s as [p out gone]. destruct (reserve_ok p out gone Hok Hb) as (i & keypool & p' & E & Hi & Ho & Hg & Hd & Hv & Hk & _).
  by exists i, keypool, p'.
Qed.
End machine.


(** ** A run of the pool, and a pool that runs dry *)
Section runs.
Definition counting_draws : KeyDraws := {| new_secret n := be_bytes 32 (Z.of_nat n mod 2 ^ 62 + 1); GetTime := 1700000000 |}.
#[local] Existing Instances dummy_digests dummy_digests_ok dummy_ec dummy_ec_ok counting_draws.

Lemma counting_range n : 0 < Z.of_nat n mod 2 ^ 62 + 1 < order.
Proof. pose proof (Z.mod_pos_bound (Z.of_nat n) (2 ^ 62) ltac:(lia)). assert (2 ^ 62 + 1 < order) by (by vm_compute). lia. Qed.
Lemma counting_value n : be_val (be_bytes 32 (Z.of_nat n mod 2 ^ 62 + 1)) = Z.of_nat n mod 2 ^ 62 + 1.
Proof. apply be_val_be_bytes. pose proof (counting_range n). assert (order < 256 ^ Z.of_nat 32) by (by vm_compute). lia. Qed.

Lemma counting_draws_ok : KeyDrawsOk.
Proof.
  split. intros n. cbn [new_secret counting_draws]. split; [apply length_be_bytes|]. rewrite (proj1 (key_ranges _ true (length_be_bytes 32 _))), counting_value.
  pose proof (counting_range n). apply andb_true_iff. split; [apply Z.leb_le|apply Z.ltb_lt]; lia.
Qed.
#[local] Existing Instance counting_draws_ok.

Lemma counting_fresh n m pk : Z.of_nat n < 2 ^ 62 -> Z.of_nat m < 2 ^ 62 -> made_key n pk -> made_key m pk -> n = m.
Proof.
  intros Hn Hm [c1 E1] [c2 E2].
  assert (forall c k, PrivKey.GetPubKey (MakeNewKey c k) = Some pk -> exists b l, (b = B#2 \/ b = B#4) /\ c = bool_decide (b = B#2) /\
    pk = b :: be_bytes 32 (Z.of_nat k mod 2 ^ 62 + 1) ++ l) as Hpk.
  { intros c k E. destruct (GetPubKey_wf _ (MakeNewKey_wf c k)) as (pk' & E' & _ & _ & Ei & _). rewrite E in E'. injection E' as <-.
    rewrite Ei. cbn [MakeNewKey fCompressed k_vch new_secret counting_draws EC_KEY_regenerate i2o_ECPublicKey dummy_ec].
    rewrite toy_x_id by apply length_be_bytes. rewrite counting_value. destruct c.
    - exists B#2, []. rewrite app_nil_r. auto.
    - exists B#4, (toy_y false). auto. }
  destruct (Hpk _ _ E1) as (b1 & l1 & _ & _ & P1), (Hpk _ _ E2) as (b2 & l2 & _ & _ & P2). rewrite P1 in P2. apply (f_equal tail) in P2. cbn [tail] in P2.
  apply app_inj_1 in P2 as [P2 _]; [|by rewrite !length_be_bytes].
  apply (f_equal be_val) in P2. rewrite !counting_value, !Z.mod_small in P2 by lia. lia.
Qed.

Definition new_wallet : WalletKeys := mk_keys (mk_store ∅ ∅) ∅ 0 FEATURE_BASE FEATURE_LATEST PubKey.Invalidate ∅ ∅ 0.
Definition topped : option (bool * WalletKeys) := TopUpKeyPool 1 false 0 new_wallet.

Lemma keypool_hands_out_once_witness : exists p i keypool p', topped = Some (true, p) /\
  ReserveKeyFromKeyPool 1 false p = Some (i, keypool, p') /\ 1 <= i /\ HaveKey (wk_store p') (PubKey.GetID (kp_vchPubKey keypool)) = true.
Proof.
  assert ((fun r => (r.1, keys_made r.2)) <$> topped = Some (true, 2%nat)) as Et by (vm_compute; reflexivity).
  destruct topped as [[b p]|] eqn:E; [|discriminate Et]. injection Et as -> En.
  destruct (keypool_hands_out_once 1 counting_fresh ltac:(lia) new_wallet (mk_state p ∅ [])) as (i & keypool & p' & Er & Hi & _ & _ & _ & _ & Hk).
  - split; [reflexivity|]. split; reflexivity.
  - apply rtc_once. apply (step_topup 1 new_wallet ∅ [] 0 true p); [lia|exact E].
  - cbn [keys]. rewrite En. lia.
  - exists p, i, keypool, p'. split; [reflexivity|]. split; [exact Er|]. split; [exact Hi|exact Hk].
Defined.

(** While the wallet is locked the pool is not topped up.  When the last key is
    reserved then, the next one made gets the index one again, although that index is
    reserved: its record is overwritten, and two reservations have one index. *)
Definition drained : option (Z * Z * Z * bool) :=
  '(_, p) ← topped;
  '(i1, k1, p) ← ReserveKeyFromKeyPool 1 true p;
  '(i2, _, p) ← ReserveKeyFromKeyPool 1 true p;
  '(i3, k3, p) ← ReserveKeyFromKeyPool 1 false p;
  Some (i1, i2, i3, bool_decide (kp_vchPubKey k1 = kp_vchPubKey k3)).
Example drained_pool : drained = Some (1, 2, 1, false).
Proof. vm_compute. reflexivity. Qed.
End runs.
