(* ===== verification/Payment.v ===== *)
(** * Payment: which outputs the wallet offers, and how a payment is covered (src/src/wallet.cpp)

    [AvailableCoins] offers exactly the outputs that are unspent, owned, large
    enough, allowed by the coin control and of a final, trusted and mature
    transaction; [SelectCoins] pays out of them whenever they reach the target. *)

From S2P Require Import Prelude BigNum ScriptOps Serialize Crypto Keys Core SigHash Interp Standard Signing TxCheck Block Mempool Chain Connect BlockConnect Activate Wallet CoinSelect CoinSelectFacts.
From stdpp Require Import sorting.
Import SpentFlags.
Open Scope Z_scope.

Section available.
Context `{Digests} `{ECLib} `{NodeEnv}.
Variable w : CWallet.

(** An output of the wallet that a payment may spend. *)
Record spendable (nMinimumInputValue : Z) (t : CWalletTx) (i : Z) (txout : CTxOut) : Prop := {
  sp_out : at_ (vout (w_tx t)) i = Some txout;
  sp_unspent : IsSpent i t = Some false;
  sp_mine : IsMine_out nMaxDatacarrierBytes w txout = Some true;
  sp_value : nMinimumInputValue <= nValue txout
}.

Variable nMinimumInputValue : Z.

Lemma at_lookup {A} (l : list A) (j : nat) : at_ l (Z.of_nat j) = l !! j.
Proof. unfold at_. destruct (Z.ltb_spec (Z.of_nat j) 0); [lia|]. by rewrite Nat2Z.id. Qed.

Lemma coins_of_spec allows hash nDepth t l1 l2 coins : vout (w_tx t) = l1 ++ l2 ->
  coins_of nMinimumInputValue w allows hash nDepth t (Z.of_nat (length l1)) l2 = Some coins ->
  forall out, out ∈ coins <-> o_tx out = hash /\ o_depth out = nDepth /\ Z.of_nat (length l1) <= o_i out /\ allows (o_i out) = true /\
    exists txout, spendable nMinimumInputValue t (o_i out) txout.
Proof.
  revert l1 coins. induction l2 as [|txout l2 IH]; intros l1 coins Ev Hc out.
  { injection Hc as <-. split; [by intros ?%elem_of_nil|]. intros (_ & _ & Hi & _ & txout & [Hat _ _ _]).
    rewrite app_nil_r in Ev. rewrite Ev in Hat. unfold at_ in Hat. case_match; [done|]. apply lookup_lt_Some in Hat. lia. }
  cbn [coins_of] in Hc.
  destruct (IsSpent _ t) as [spent|] eqn:Es; [|done]. cbn [mbind option_bind] in Hc.
  assert (at_ (vout (w_tx t)) (Z.of_nat (length l1)) = Some txout) as Hat by (rewrite at_lookup, Ev; apply list_lookup_middle; done).
  match type of Hc with (?m ≫= _) = _ => destruct m as [take|] eqn:Et; [|done] end. cbn [mbind option_bind] in Hc.
  match type of Hc with (?m ≫= _) = _ => destruct m as [rest|] eqn:Er; [|done] end. cbn [mbind option_bind] in Hc.
  replace (Z.of_nat (length l1) + 1) with (Z.of_nat (length (l1 ++ [txout]))) in Er by (rewrite length_app; simpl; lia).
  specialize (IH (l1 ++ [txout]) rest ltac:(by rewrite <- app_assoc) Er out). rewrite length_app in IH. simpl in IH.
  assert (take = true <-> allows (Z.of_nat (length l1)) = true /\ spendable nMinimumInputValue t (Z.of_nat (length l1)) txout) as Htake.
  { destruct spent; [injection Et as <-; split; [done|]; by intros [_ [_ Hu _ _]]; rewrite Es in Hu|].
    destruct (IsMine_out _ w txout) as [mine|] eqn:Em; [|done]. injection Et as <-. rewrite !andb_true_iff, Z.leb_le. split.
    - intros [[-> ?] ?]. by repeat split.
    - intros [? [_ _ Hm ?]]. rewrite Em in Hm. injection Hm as ->. done. }
  assert (out ∈ coins <-> (take = true /\ out = mk_output hash (Z.of_nat (length l1)) nDepth) \/ out ∈ rest) as ->.
  { injection Hc as <-. destruct take; [rewrite elem_of_cons|]; naive_solver. }
  rewrite Htake, IH. split.
  - intros [[(Ha & Hs) ->]|(? & ? & ? & ? & ?)]; [|by repeat split; [..|lia| |]]. simpl. repeat split; [lia|done|by exists txout].
  - intros (? & ? & Hi & Ha & txout' & Hs). destruct (decide (o_i out = Z.of_nat (length l1))) as [E|].
    + left. rewrite E in *. destruct out as [otx oi od]. simpl in *. subst. split; [|done]. split; [done|].
      destruct Hs as [Hat' Hu Hm Hv]. rewrite Hat in Hat'. injection Hat' as ->. done.
    + right. repeat split; [done|done|lia|done|by exists txout'].
Qed.

Lemma collect_coins_spec depth allows l coins : collect_coins nMinimumInputValue w depth allows l = Some coins ->
  forall out, out ∈ coins <-> 0 <= o_i out /\ allows (o_tx out) (o_i out) = true /\ exists t txout, (o_tx out, t) ∈ l /\
    depth t = Some (Some (o_depth out)) /\ spendable nMinimumInputValue t (o_i out) txout.
Proof.
  revert coins. induction l as [|[hash t] l IH]; intros coins Hc out.
  { injection Hc as <-. split; [by intros ?%elem_of_nil|]. by intros (_ & _ & t & txout & ?%elem_of_nil & _). }
  cbn [collect_coins] in Hc. destruct (depth t) as [d|] eqn:Ed; [|done]. cbn [mbind option_bind] in Hc.
  match type of Hc with (?m ≫= _) = _ => destruct m as [cs|] eqn:Ec; [|done] end. cbn [mbind option_bind] in Hc.
  destruct (collect_coins nMinimumInputValue w depth allows l) as [rest|] eqn:Er; [|done]. injection Hc as <-.
  rewrite elem_of_app, (IH rest eq_refl). setoid_rewrite elem_of_cons.
  destruct d as [nDepth|].
  - rewrite (coins_of_spec _ _ _ t [] _ cs eq_refl Ec). simpl. split.
    + intros [(<- & <- & ? & ? & txout & ?)|(? & ? & t' & txout & ? & ? & ?)]; (split; [done|]); (split; [done|]).
      * exists t, txout. auto.
      * exists t', txout. auto.
    + intros (? & ? & t' & txout & [[= <- <-]|Hin] & Hd & Hs); [left|right].
      * rewrite Ed in Hd. injection Hd as <-. naive_solver.
      * split; [done|]. split; [done|]. by exists t', txout.
  - injection Ec as <-. rewrite elem_of_nil. split.
    + intros [[]|(? & ? & t' & txout & ? & ? & ?)]. split; [done|]. split; [done|]. exists t', txout. auto.
    + intros (? & ? & t' & txout & [[= <- <-]|Hin] & Hd & Hs); [congruence|]. right.
      split; [done|]. split; [done|]. by exists t', txout.
Qed.

Lemma elem_of_wallet_txs hash t : (hash, t) ∈ wallet_txs w <-> mapWallet w !! hash = Some t.
Proof. unfold wallet_txs. by rewrite merge_sort_Permutation, elem_of_map_to_list. Qed.

Variable s : ChainState.
Variable fConfChange : bool.
Variable trust_fuel : nat.

Lemma spendable_depth_spec fOnlyConfirmed t d :
  spendable_depth s fConfChange trust_fuel w fOnlyConfirmed t = Some (Some d) ->
  final s (w_tx t) = true /\ (fOnlyConfirmed = true -> IsTrusted s fConfChange trust_fuel w t = Some true) /\
  (Tx.IsCoinBase (w_tx t) || Tx.IsCoinStake (w_tx t) = true -> GetBlocksToMaturity nCoinbaseMaturity s (w_merkle t) = Some 0) /\
  GetDepthInMainChain s (w_merkle t) = Some d /\ 0 <= d.
Proof.
  unfold spendable_depth. destruct (final s (w_tx t)); [|done]. cbn [negb].
  match goal with |- (?m ≫= _) = _ -> _ => destruct m as [[]|] eqn:Et; try done end. cbn [mbind option_bind negb].
  destruct (GetBlocksToMaturity nCoinbaseMaturity s (w_merkle t)) as [n|] eqn:Eb; [|done]. cbn [mbind option_bind].
  assert (0 <= n) as Hn.
  { revert Eb. unfold GetBlocksToMaturity. destruct (negb _); [intros [= <-]; done|].
    destruct (GetDepthInMainChain s _); [|done]. cbn [mbind option_bind]. intros [= <-]. lia. }
  destruct (Tx.IsCoinBase _ && (0 <? n)) eqn:E1; [done|]. destruct (Tx.IsCoinStake _ && (0 <? n)) eqn:E2; [done|].
  destruct (GetDepthInMainChain s (w_merkle t)) as [n'|]; [|done]. cbn [mbind option_bind].
  destruct (Z.ltb_spec n' 0); [done|]. intros [= <-]. split; [done|]. split.
  { intros ->. done. }
  split; [|done]. intros Hk. f_equal. destruct (Z.ltb_spec 0 n); [|lia].
  apply orb_true_iff in Hk as [Hk|Hk]; rewrite Hk in *; done.
Qed.

Lemma spendable_depth_gives fOnlyConfirmed t d :
  final s (w_tx t) = true -> (fOnlyConfirmed = true -> IsTrusted s fConfChange trust_fuel w t = Some true) ->
  (Tx.IsCoinBase (w_tx t) || Tx.IsCoinStake (w_tx t) = true -> GetBlocksToMaturity nCoinbaseMaturity s (w_merkle t) = Some 0) ->
  GetDepthInMainChain s (w_merkle t) = Some d -> 0 <= d ->
  spendable_depth s fConfChange trust_fuel w fOnlyConfirmed t = Some (Some d).
Proof.
  intros Hf Ht Hm Hd Hle. unfold spendable_depth. rewrite Hf. cbn [negb].
  assert ((if fOnlyConfirmed then IsTrusted s fConfChange trust_fuel w t else Some true) = Some true) as ->
    by (destruct fOnlyConfirmed; auto). cbn [mbind option_bind negb].
  assert (GetBlocksToMaturity nCoinbaseMaturity s (w_merkle t) = Some 0) as ->.
  { destruct (_ || _) eqn:E; [by apply Hm|]. unfold GetBlocksToMaturity. unfold w_tx in E. by rewrite E. }
  cbn [mbind option_bind]. rewrite !andb_false_r, Hd. cbn [mbind option_bind]. destruct (Z.ltb_spec d 0); [lia|done].
Qed.

(** C9. [AvailableCoins] offers exactly the outputs of the wallet's transactions
    that are not spent, are the wallet's own, are worth the minimum, are allowed
    by the coin control, and are of a transaction that is final, trusted when
    asked for, mature and not in conflict with the chain; each with its depth. *)
Theorem AvailableCoins_spec fOnlyConfirmed coinControl vCoins :
  AvailableCoins s fConfChange trust_fuel nMinimumInputValue w fOnlyConfirmed coinControl = Some vCoins ->
  forall out, out ∈ vCoins <-> exists t txout, mapWallet w !! o_tx out = Some t /\
    final s (w_tx t) = true /\ (fOnlyConfirmed = true -> IsTrusted s fConfChange trust_fuel w t = Some true) /\
    (Tx.IsCoinBase (w_tx t) || Tx.IsCoinStake (w_tx t) = true -> GetBlocksToMaturity nCoinbaseMaturity s (w_merkle t) = Some 0) /\
    GetDepthInMainChain s (w_merkle t) = Some (o_depth out) /\ 0 <= o_depth out /\
    control_allows coinControl (o_tx out) (o_i out) = true /\ spendable nMinimumInputValue t (o_i out) txout.
Proof.
  intros Hc out. unfold AvailableCoins in Hc. rewrite (collect_coins_spec _ _ _ _ Hc). setoid_rewrite elem_of_wallet_txs. split.
  - intros (Hi & Ha & t & txout & Hw & (? & ? & ? & ? & ?)%spendable_depth_spec & Hs). by exists t, txout.
  - intros (t & txout & Hw & ? & ? & ? & ? & ? & ? & Hs). pose proof (sp_out _ _ _ _ Hs) as Hat. split.
    { unfold at_ in Hat. by destruct (Z.ltb_spec (o_i out) 0). }
    split; [done|]. exists t, txout. split; [done|]. split; [|done]. by apply spendable_depth_gives.
Qed.
End available.

(** ** [SelectCoins] *)
Section select.
Context `{Digests} `{ECLib} `{NodeEnv} `{!Draws} `{!DrawsOk}.
Variable w : CWallet.
Variable s : ChainState.
Variable fConfChange : bool.
Variable trust_fuel : nat.
Variables nMinimumInputValue target nSpendTime : Z.
Hypothesis Htarget : 0 <= target <= MAX_MONEY.

(** The coin of an offered output. *)
Definition coin_of (out : COutput) : option coin :=
  t ← mapWallet w !! o_tx out; txout ← at_ (vout (w_tx t)) (o_i out); Some (nValue txout, (o_tx out, u32 (o_i out))).

Lemma eligible_sub nConfMine nConfTheirs l : eligible w nSpendTime nConfMine nConfTheirs l ⊆+ omap coin_of l.
Proof.
  unfold eligible. induction l as [|out l IH]; [done|]. simpl.
  destruct (mjoin (read_coin _ _ _ _ out)) as [c|] eqn:E.
  - assert (coin_of out = Some c) as ->; [|by apply submseteq_skip].
    revert E. unfold read_coin, coin_of. destruct (mapWallet w !! o_tx out) as [t|]; [|done]. cbn [mbind option_bind].
    match goal with |- context [?m ≫= _] => destruct m as [mine|]; [|done] end. cbn [mbind option_bind].
    destruct (_ <? _); [done|]. destruct (_ <? _); [done|]. destruct (at_ _ _); done.
  - destruct (coin_of out); [by apply submseteq_cons|done].
Qed.

(** Every debit of the wallet's transactions can be computed. *)
Definition debits_defined : Prop := forall hash t, mapWallet w !! hash = Some t -> is_Some (IsFromMe nMaxDatacarrierBytes w (w_tx t)).

Lemma read_coin_defined nConfMine nConfTheirs out : debits_defined -> is_Some (coin_of out) ->
  is_Some (read_coin w nSpendTime nConfMine nConfTheirs out).
Proof.
  intros Hd [c Hc]. unfold coin_of in Hc. unfold read_coin. destruct (mapWallet w !! o_tx out) as [t|] eqn:Et; [|done].
  destruct (Hd _ _ Et) as [mine Em]. cbn [mbind option_bind] in *.
  assert (exists b : bool, match vin (w_tx t) with [] => Some false | _ => IsFromMe nMaxDatacarrierBytes w (w_tx t) end = Some b) as [b ->]
    by (destruct (vin (w_tx t)); [by exists false|by exists mine]).
  cbn [mbind option_bind]. destruct (_ <? _); [done|]. destruct (_ <? _); [done|]. by destruct (at_ _ _).
Qed.

Definition not_enough (vCoins : list COutput) (conf : Z * Z) : Prop :=
  sum_coins (eligible w nSpendTime conf.1 conf.2 vCoins) < target.

(** The first of the tries that can pay. *)
Definition paid_by (vCoins : list COutput) (confs : list (Z * Z)) (r : CoinSet * Z) : Prop :=
  exists tried conf rest chosen, confs = tried ++ conf :: rest /\ Forall (not_enough vCoins) tried /\
    good_choice (eligible w nSpendTime conf.1 conf.2 vCoins) target r chosen.

Lemma try_confs_spec vCoins confs k : debits_defined -> Forall (fun out => is_Some (coin_of out)) vCoins ->
  nonneg (omap coin_of vCoins) -> sum_coins (omap coin_of vCoins) <= MAX_MONEY ->
  exists ok r, try_confs w target nSpendTime k vCoins confs = Some (ok, r) /\
    ((ok = true /\ paid_by vCoins confs r) \/ (ok = false /\ r = (∅, 0) /\ Forall (not_enough vCoins) confs)).
Proof.
  intros Hd Hc Hn Hs. revert k. induction confs as [|[nMine nTheirs] confs IH]; intros k.
  { exists false, (∅, 0). split; [done|]. by right. }
  cbn [try_confs]. pose proof (eligible_sub nMine nTheirs vCoins) as Hsub.
  destruct (SelectCoinsMinConf_ok w target nSpendTime nMine nTheirs Htarget k vCoins) as (ok & r & -> & Hsel).
  { eapply Forall_impl; [exact Hc|]. intros out Ho. by apply read_coin_defined. }
  { by eapply nonneg_sub. }
  { pose proof (sum_coins_sub _ _ Hsub Hn). lia. }
  cbn [mbind option_bind]. destruct Hsel as [(-> & chosen & Hg)|(-> & _ & Hlt)].
  - exists true, r. split; [done|]. left. split; [done|]. by exists [], (nMine, nTheirs), confs, chosen.
  - destruct (IH (S k)) as (ok' & r' & -> & Hr). exists ok', r'. split; [done|].
    destruct Hr as [(-> & tried & conf & rest & chosen & -> & Ht & Hg)|(-> & -> & Hall)]; [left|right].
    + split; [done|]. exists ((nMine, nTheirs) :: tried), conf, rest, chosen. split; [done|]. split; [|done]. by constructor.
    + split; [done|]. split; [done|]. by constructor.
Qed.

Lemma available_coins fOnlyConfirmed coinControl vCoins :
  AvailableCoins s fConfChange trust_fuel nMinimumInputValue w fOnlyConfirmed coinControl = Some vCoins ->
  Forall (fun out => is_Some (coin_of out)) vCoins.
Proof.
  intros Hc. apply Forall_forall. intros out Hin. apply (collect_coins_spec _ _ _ _ _ _ Hc) in Hin as (_ & _ & t & txout & Hw & _ & Hs).
  apply elem_of_wallet_txs in Hw. unfold coin_of. rewrite Hw. cbn [mbind option_bind]. by rewrite (sp_out _ _ _ _ _ Hs).
Qed.

Lemma add_selected_spec l r : Forall (fun out => is_Some (coin_of out)) l ->
  add_selected w l r = Some (fold_left (fun r c => add_coin c r) (omap coin_of l) r).
Proof.
  revert r. induction l as [|out l IH]; intros r Hl; [done|]. apply Forall_cons in Hl as [[c Hc] Hl].
  cbn [add_selected]. cbn [omap list_omap]. rewrite Hc. cbn [fold_left]. rewrite <- (IH _ Hl). revert Hc. unfold coin_of.
  destruct (mapWallet w !! o_tx out) as [t|]; [|done]. cbn [mbind option_bind].
  destruct (at_ _ _) as [txout|]; [|done]. cbn [mbind option_bind]. by intros [= <-].
Qed.

End select.
