(* ===== verification/CreateTx.v ===== *)
(** * CreateTx: making a payment (src/src/wallet.cpp, main.cpp)

    [CreateTransaction]: outputs, coins, change, signatures and fee, in rounds
    until the fee is enough, and the supporting transactions that go with the
    payment.  The wallet's key store is that of its [WalletKeys].  A pointer to a wallet
    transaction is its key, and a set of coins is walked in the order of the
    pointers, which is a parameter; so are the random numbers.  Whether the node
    is downloading blocks is an argument.  [None] is an exception, a failed assertion
    or a loop that is out of fuel. *)

From S2P Require Import Prelude BigNum ScriptOps Serialize Crypto Keys Core SigHash Interp Standard Signing TxCheck Block Mempool Chain Connect BlockConnect Activate Wallet CoinSelect KeyPool.
Import Merkle Check.
Open Scope Z_scope.

(** [GetRandInt(nMax)], by the number of the call, and the order of the pointers. *)
Class PayDraws := { rand_int : nat -> Z -> Z; set_order : CoinSet -> list (Z * Z) }.
Class PayDrawsOk `{PayDraws} : Prop := {
  rand_int_doc n nMax : 0 < nMax -> 0 <= rand_int n nMax < nMax;
  set_order_doc X : set_order X ≡ₚ elements X
}.

Record CCoinControl := mk_control { destChange : CTxDestination; setSelected : list COutPoint }.

(** The wallet with the key store of its keys. *)
Definition bind_keys (ks : CBasicKeyStore) (w : CWallet) : CWallet :=
  mk_wallet ks (mapWallet w) (mapAddressBook w) (fSplitBlock w).

(** ** The block of a transaction *)
Section merkle.
Context `{Digests} `{NodeEnv}.
Variable s : ChainState.
(** Reading a block from the block files. *)
Variable ReadBlock : Z -> Z -> option CBlock.

Definition with_branch (t : CMerkleTx) (hash : Z) (branch : list Z) (n : Z) : CMerkleTx := mk_merkletx (m_tx t) hash branch n.

(** [SetMerkleBranch]: the depth, and the transaction. *)
Definition SetMerkleBranch (pblock : option CBlock) (t : CMerkleTx) : option (Z * CMerkleTx) :=
  let found := match pblock with
    | Some b => Some b
    | None =>
      txindex ← TxDB.ReadTxIndex (txdb s) (Tx.GetHash (m_tx t));
      ReadBlock (p_nFile (pos txindex)) (p_nBlockPos (pos txindex))
    end in
  match found with
  | None => Some (0, t)
  | Some b =>
    let hash := Block.GetHash scrypt_blockhash b in
    match list_find (fun tx => tx = m_tx t) (vtx b) with
    | None => Some (0, with_branch t hash [] (-1))
    | Some (i, _) =>
      let t := with_branch t hash (GetMerkleBranch b (Z.of_nat i)) (Z.of_nat i) in
      match mapBlockIndex s !! hash with
      | None => Some (0, t)
      | Some (b, _) =>
        if negb (IsInMainChain_block s hash b) then Some (0, t)
        else h ← best_block s; '(best, _) ← mapBlockIndex s !! h; Some (nHeight best - nHeight b + 1, t)
      end
    end
  end.

(** ** [AddSupportingTransactions] *)
Definition COPY_DEPTH : Z := 3.

Definition ReadDiskTx (hash : Z) : option CMerkleTx :=
  txindex ← TxDB.ReadTxIndex (txdb s) hash; tx ← ReadTx (pos txindex); Some (mk_merkletx tx 0 [] (-1)).

(** The transaction of a hash, and [mapWalletPrev] afterwards. *)
Definition find_support (w : CWallet) (hash : Z) (mapWalletPrev : gmap Z CMerkleTx) : option CMerkleTx * gmap Z CMerkleTx :=
  match mapWallet w !! hash with
  | Some t => (Some (w_merkle t), fold_left (fun m p => <[Tx.GetHash (m_tx p) := p]> m) (vtxPrev t) mapWalletPrev)
  | None =>
    match mapWalletPrev !! hash with
    | Some t => (Some t, mapWalletPrev)
    | None => (ReadDiskTx hash, mapWalletPrev)
    end
  end.

(** The loop over the growing work queue; the result is [vtxPrev]. *)
Fixpoint support_loop (fuel : nat) (w : CWallet) (vWorkQueue : list Z) (setAlreadyDone : gset Z)
    (mapWalletPrev : gmap Z CMerkleTx) (vtxPrev : list CMerkleTx) : option (list CMerkleTx) :=
  match vWorkQueue with
  | [] => Some vtxPrev
  | hash :: vWorkQueue =>
    match fuel with
    | O => None
    | S fuel =>
      if bool_decide (hash ∈ setAlreadyDone) then support_loop fuel w vWorkQueue setAlreadyDone mapWalletPrev vtxPrev else
      let setAlreadyDone := {[hash]} ∪ setAlreadyDone in
      let '(found, mapWalletPrev) := find_support w hash mapWalletPrev in
      match found with
      | None => support_loop fuel w vWorkQueue setAlreadyDone mapWalletPrev vtxPrev
      | Some tx =>
        '(nDepth, tx) ← SetMerkleBranch None tx;
        let more := if nDepth <? COPY_DEPTH then map (fun txin => o_hash (prevout txin)) (vin (m_tx tx)) else [] in
        support_loop fuel w (vWorkQueue ++ more) setAlreadyDone mapWalletPrev (vtxPrev ++ [tx])
      end
    end
  end.

Definition AddSupportingTransactions (fuel : nat) (w : CWallet) (t : CWalletTx) : option CWalletTx :=
  '(nDepth, m) ← SetMerkleBranch None (w_merkle t);
  prev ← (if nDepth <? COPY_DEPTH
          then support_loop fuel w (map (fun txin => o_hash (prevout txin)) (vin (m_tx m))) ∅ ∅ [] else Some []);
  Some (mk_wallettx m (reverse prev) (vfSpent t)).
End merkle.

(** ** [CreateTransaction] *)
(** What the call changes: the transaction, the keys, the reserved key, the signature
    cache, and the numbers of the next choice of coins and random number. *)
Record PayState := mk_pay {
  pay_tx : CTransaction;
  pay_keys : WalletKeys;
  pay_reserve : CReserveKey;
  pay_cache : CSignatureCache;
  pay_select : nat;
  pay_rand : nat
}.
Definition with_tx (tx : CTransaction) (st : PayState) : PayState :=
  mk_pay tx (pay_keys st) (pay_reserve st) (pay_cache st) (pay_select st) (pay_rand st).

(** The end of a round: refused, again with a higher fee, or done. *)
Inductive round_end := Refused | Again (nFeeRet : Z) | Done.

Section create.
Context `{BNLib} `{Digests} `{ECLib} `{SigEnv} `{NodeEnv} `{!Draws} `{KeyDraws} `{PayDraws}.
Variable w : CWallet.
Variable s : ChainState.
Variables (fConfChange IsLocked : bool) (trust_fuel : nat) (keypool_arg nMinimumInputValue nTransactionFee : Z).
Variable coinControl : option CCoinControl.
Variable vecSend : list (bytes * Z).
Variable nSplitBlock : Z.

(** The sum of the amounts; [None] when the call refuses it. *)
Fixpoint sum_send (l : list (bytes * Z)) (nValue : Z) : option Z :=
  match l with
  | [] => Some nValue
  | p :: l => if nValue <? 0 then None else sum_send l (i64 (nValue + p.2))
  end.
Definition send_total : option Z :=
  nValue ← sum_send vecSend 0; if bool_decide (vecSend = []) || (nValue <? 0) then None else Some nValue.

(** The outputs of the payees. *)
Definition split_output (script : bytes) (value : Z) (n : nat) : list CTxOut :=
  map (fun nCount =>
    if bool_decide (nCount = n - 1)%nat
    then mk_txout (i64 (u64 (Z.quot value (Z.of_nat n) + u64 (Z.rem value (Z.of_nat n))))) script
    else mk_txout (Z.quot value (Z.of_nat n)) script) (seq 0 n).
Definition payee_outputs : list CTxOut :=
  if negb (fSplitBlock w) then map (fun p => mk_txout p.2 p.1) vecSend
  else flat_map (fun p => split_output p.1 p.2 (Z.to_nat (Z.max 1 nSplitBlock))) vecSend.

(** The script of a newly reserved key, and of the change. *)
Definition reserved_script (st : PayState) : option (bytes * PayState) :=
  '(vchPubKey, rk, keys) ← GetReservedKey keypool_arg IsLocked (pay_reserve st) (pay_keys st);
  pk ← vchPubKey;
  Some (SetDestination (CKeyID (PubKey.GetID pk)), mk_pay (pay_tx st) keys rk (pay_cache st) (pay_select st) (pay_rand st)).
Definition change_script (st : PayState) : option (bytes * PayState) :=
  match coinControl with
  | Some c => if negb (bool_decide (destChange c = CNoDestination)) then Some (SetDestination (destChange c), st) else reserved_script st
  | None => reserved_script st
  end.

(** The change at a random position, or the reserved key given back. *)
Definition add_change (nChange : Z) (st : PayState) : option (list CTxOut * PayState) :=
  if 0 <? nChange then
    '(scriptChange, st) ← change_script st;
    let position := Z.to_nat (rand_int (pay_rand st) (zlen payee_outputs + 1)) in
    Some (take position payee_outputs ++ mk_txout nChange scriptChange :: drop position payee_outputs,
          mk_pay (pay_tx st) (pay_keys st) (pay_reserve st) (pay_cache st) (pay_select st) (S (pay_rand st)))
  else
    let '(rk, keys) := Reserve_ReturnKey (pay_reserve st) (pay_keys st) in
    Some (payee_outputs, mk_pay (pay_tx st) keys rk (pay_cache st) (pay_select st) (pay_rand st)).

Definition spend_coin (coin : Z * Z) : option CTxIn :=
  t ← mapWallet w !! coin.1; Some (mk_txin (mk_outpoint (Tx.GetHash (w_tx t)) coin.2) [] (2 ^ 32 - 2)).

(** The loop that signs: false when an input cannot be signed. *)
Fixpoint sign_loop (ks : CBasicKeyStore) (coins : list (Z * Z)) (nIn : nat) (tx : CTransaction) (c : CSignatureCache) :
    option (bool * CTransaction * CSignatureCache) :=
  match coins with
  | [] => Some (true, tx, c)
  | coin :: coins =>
    t ← mapWallet w !! coin.1;
    '(ok, tx, c) ← SignSignature_from nMaxDatacarrierBytes ks (w_tx t) tx nIn SIGHASH_ALL c;
    if (ok : bool) then sign_loop ks coins (S nIn) tx c else Some (false, tx, c)
  end.

Definition needed_fee (nBytes : Z) : Z :=
  Z.max (i64 (nTransactionFee * (1 + nBytes / 1000))) (GetMinFee 1 GMF_SEND nBytes).

(** One round. *)
Definition create_round (nValue nFeeRet : Z) (st : PayState) : option (round_end * PayState) :=
  let tx := pay_tx st in
  let wallet := bind_keys (wk_store (pay_keys st)) w in
  '(ok, (setCoins, nValueIn)) ← SelectCoins wallet s fConfChange trust_fuel nMinimumInputValue (i64 (nValue + nFeeRet)) (nTime tx)
    (pay_select st) (setSelected <$> coinControl);
  let st := mk_pay tx (pay_keys st) (pay_reserve st) (pay_cache st) (3 + pay_select st) (pay_rand st) in
  if negb ok then Some (Refused, with_tx (mk_tx (nVersion tx) (nTime tx) [] payee_outputs (nLockTime tx)) st) else
  '(vouts, st) ← add_change (i64 (i64 (nValueIn - nValue) - nFeeRet)) st;
  let coins := set_order setCoins in
  vins ← mapM spend_coin coins;
  let tx := mk_tx (nVersion tx) (nTime tx) vins vouts (nLockTime tx) in
  '(ok, tx, c) ← sign_loop (wk_store (pay_keys st)) coins 0 tx (pay_cache st);
  let st := mk_pay tx (pay_keys st) (pay_reserve st) c (pay_select st) (pay_rand st) in
  if negb ok then Some (Refused, st) else
  let nBytes := GetSerializeSize tx in
  if MAX_STANDARD_TX_SIZE <=? nBytes then Some (Refused, st)
  else if nFeeRet <? needed_fee nBytes then Some (Again (needed_fee nBytes), st)
  else Some (Done, st).

(** The rounds: success, the fee and the state. *)
Fixpoint create_loop (fuel : nat) (nValue nFeeRet : Z) (st : PayState) : option (bool * Z * PayState) :=
  match fuel with
  | O => None
  | S fuel =>
    '(r, st) ← create_round nValue nFeeRet st;
    match r with
    | Refused => Some (false, nFeeRet, st)
    | Again nFeeRet => create_loop fuel nValue nFeeRet st
    | Done => Some (true, nFeeRet, st)
    end
  end.

(** The lock time that is to discourage fee sniping; [None] is a failed assertion. *)
Definition choose_lock_time (downloading : bool) (nBest : Z) (st : PayState) : option PayState :=
  let tx := pay_tx st in
  let lock := if negb downloading then Z.max 0 (nBest - 10) else nLockTime tx in
  let '(lock, rand) := if rand_int (pay_rand st) 10 =? 0
    then (Z.max 0 (swrap 32 lock - rand_int (S (pay_rand st)) 100), S (S (pay_rand st))) else (lock, S (pay_rand st)) in
  if (lock <=? u32 nBest) && (lock <? LOCKTIME_THRESHOLD)
  then Some (mk_pay (mk_tx (nVersion tx) (nTime tx) (vin tx) (vout tx) lock) (pay_keys st) (pay_reserve st) (pay_cache st) (pay_select st) rand)
  else None.

(** Success, [nFeeRet] when it is set, the state, and the new wallet transaction on success. *)
Definition CreateTransaction (fuel support_fuel : nat) (ReadBlock : Z -> Z -> option CBlock) (downloading : bool) (st : PayState) :
    option (bool * option Z * PayState * option CWalletTx) :=
  match send_total with
  | None => Some (false, None, st, None)
  | Some nValue =>
    st ← choose_lock_time downloading (best_height s) st;
    '(ok, nFeeRet, st) ← create_loop fuel nValue (if fSplitBlock w then Z.quot COIN 1000 else nTransactionFee) st;
    if (ok : bool) then
      t ← AddSupportingTransactions s ReadBlock support_fuel w (mk_wallettx (mk_merkletx (pay_tx st) 0 [] (-1)) [] []);
      Some (true, Some nFeeRet, st, Some t)
    else Some (false, Some nFeeRet, st, None)
  end.
End create.
