(* ===== verification/CreateTxFacts.v ===== *)
(** * CreateTxFacts: a payment that is made is valid and balances (src/src/wallet.cpp)

    The inputs of a transaction that [CreateTransaction] returns spend distinct
    outputs that the wallet offers, each script verifies in the finished transaction,
    and inputs are outputs and fee.  The rounds end because the fee only grows. *)

From S2P Require Import Prelude BigNum ScriptOps Serialize Crypto Keys Core SigHash Interp InterpFacts InterpSame Standard Spending Der Signing SigningFacts TxCheck Block Mempool Chain Connect BlockConnect Activate Wallet CoinSelect CoinSelectFacts KeyPool KeyPoolFacts Payment CreateTx.
From stdpp Require Import sorting.
Import SignatureHash_ SigHashFacts VerifyFacts Check CheckFacts SpentFlags.
Open Scope Z_scope.

(** ** Signing the inputs *)
Section signing.
Context `{BNLib} `{Digests} `{ECLib} `{SigEnv}.
Variable maxdata : Z.
Variable ks : CBasicKeyStore.

Lemma set_scriptSig_twice tx n scr scr' : set_scriptSig (set_scriptSig tx n scr) n scr' = set_scriptSig tx n scr'.
Proof.
  unfold set_scriptSig. simpl. f_equal. apply list_eq. intros i. destruct (decide (n = i)) as [<-|].
  - rewrite !list_lookup_alter_eq. by destruct (vin tx !! n).
  - by rewrite !list_lookup_alter_ne.
Qed.

(** What success of the signer says. *)
Lemma SignSignature_true from tx n ht c tx' c' : cache_ok c -> SignSignature maxdata ks from tx n ht c = Some (true, tx', c') ->
  exists scr, tx' = set_scriptSig tx n scr /\ cache_ok c' /\ (n < length (vin tx))%nat /\
    forall c0, cache_ok c0 -> (VerifyScript scr from tx' n STANDARD_SCRIPT_VERIFY_FLAGS 0 c0).1 = true.
Proof.
  intros Hc. unfold SignSignature. case_bool_decide as Hn; [done|].
  destruct (SolverSign _ _ _ _ _) as [[[ok scr] t]|]; [|done]. cbn [mbind option_bind]. destruct ok; [|done]. cbn [negb].
  match goal with |- (?m ≫= _) = _ -> _ => assert (forall b tx1 scr1, m = Some (b, tx1, scr1) -> tx1 = set_scriptSig tx n scr1) as Hm; [|destruct m as [[[b tx1] scr1]|]; [|done]] end.
  { intros b tx1 scr1. case_bool_decide; [|by intros [= _ <- <-]].
    destruct (SolverSign _ _ scr _ _) as [[[ok2 scr2] t2]|]; [|done]. cbn [mbind option_bind]. intros [= _ <- <-]. apply set_scriptSig_twice. }
  cbn [mbind option_bind]. specialize (Hm b tx1 scr1 eq_refl). destruct b; [|done]. cbn [negb].
  destruct (VerifyScript scr1 from tx1 n STANDARD_SCRIPT_VERIFY_FLAGS 0 c) as [ok c1] eqn:Ev. intros [= -> <- <-].
  exists scr1. split; [done|]. pose proof (VerifyScript_cache_independent scr1 from tx1 n STANDARD_SCRIPT_VERIFY_FLAGS 0) as Hind.
  split; [by destruct (Hind c c Hc Hc) as [_ Hok]; rewrite Ev in Hok|]. split; [lia|].
  intros c0 Hc0. destruct (Hind c0 c Hc0 Hc) as [-> _]. by rewrite Ev.
Qed.

(** An input whose script is accepted, whatever signatures are known. *)
Definition input_verifies (tx : CTransaction) (i : nat) (txin : CTxIn) (txout : CTxOut) : Prop :=
  forall c, cache_ok c -> (VerifyScript (scriptSig txin) (scriptPubKey txout) tx i STANDARD_SCRIPT_VERIFY_FLAGS 0 c).1 = true.

Lemma input_verifies_same tx tx' i txin txout : same_but_scripts tx tx' -> input_verifies tx i txin txout -> input_verifies tx' i txin txout.
Proof. intros Hs Hv c Hc. rewrite <- (VerifyScript_same tx tx' Hs). by apply Hv. Qed.
End signing.

(** ** What a successful choice of coins says *)
Section selection.
Context `{!Digests} `{!ECLib} `{!NodeEnv} `{!Draws} `{!DrawsOk}.
Variable w : CWallet.
Variables target nSpendTime : Z.
Hypothesis Htarget : 0 <= target <= MAX_MONEY.

Lemma scan_reads nMine nTheirs l larger v lower larger' v' lower' :
  scan_coins w target nSpendTime nMine nTheirs l larger v lower = Some (Scanned larger' v' lower') ->
  Forall (fun out => is_Some (read_coin w nSpendTime nMine nTheirs out)) l.
Proof.
  revert larger v lower. induction l as [|out l IH]; intros larger v lower; [by constructor|]. cbn [scan_coins].
  destruct (read_coin _ _ _ _ out) as [rc|] eqn:E; [|done]. cbn [mbind option_bind]. intros Hl. constructor; [by rewrite E|].
  destruct rc as [c|]; [|by eapply IH]. destruct (_ =? _); [done|]. destruct (_ <? _); [by eapply IH|]. destruct (_ <? _); by eapply IH.
Qed.

Lemma scan_exact nMine nTheirs l larger v lower c : scan_coins w target nSpendTime nMine nTheirs l larger v lower = Some (Exact c) ->
  c.1 = target /\ c ∈ eligible w nSpendTime nMine nTheirs l.
Proof.
  revert larger v lower. induction l as [|out l IH]; intros larger v lower; [done|]. cbn [scan_coins].
  destruct (read_coin _ _ _ _ out) as [rc|] eqn:E; [|done]. cbn [mbind option_bind]. rewrite (eligible_cons _ _ _ _ out rc l E).
  destruct rc as [c'|]; [|by apply IH]. simpl option_list. intros Hl.
  assert (forall larger v lower, scan_coins w target nSpendTime nMine nTheirs l larger v lower = Some (Exact c) -> c.1 = target /\ c ∈ [c'] ++ eligible w nSpendTime nMine nTheirs l) as Hgo.
  { intros a b d [? ?]%IH. split; [done|]. by right. }
  destruct (Z.eqb_spec c'.1 target) as [Et|]; [injection Hl as <-; split; [done|by left]|].
  destruct (_ <? _); [by eapply Hgo|]. destruct (_ <? _); by eapply Hgo.
Qed.

(** Coins that together pay the target. *)
Definition pays_from (coins : list coin) (r : CoinSet * Z) : Prop :=
  exists chosen, chosen ⊆+ coins /\ r = (coins_set chosen, sum_coins chosen) /\ target <= sum_coins chosen.

Lemma SelectCoinsMinConf_sound nMine nTheirs k vCoins r : nonneg (omap (coin_of w) vCoins) -> sum_coins (omap (coin_of w) vCoins) <= MAX_MONEY ->
  SelectCoinsMinConf w target nSpendTime nMine nTheirs k vCoins = Some (true, r) -> pays_from (omap (coin_of w) vCoins) r.
Proof.
  intros Hn Hs Hsel. pose proof (eligible_sub w nSpendTime nMine nTheirs vCoins) as Hsub. pose proof Hsel as Hsel'.
  unfold SelectCoinsMinConf in Hsel'. destruct (scan_coins _ _ _ _ _ _ _ _ _) as [[c|larger v lower]|] eqn:Esc; [| |done]; cbn [mbind option_bind] in Hsel'.
  - apply scan_exact in Esc as [Et Hc]. injection Hsel' as <-.
    assert (c ∈ omap (coin_of w) vCoins) as Hin.
    { eapply elem_of_submseteq; [|exact Hsub]. by rewrite <- (eligible_perm w nSpendTime nMine nTheirs _ _ (shuffle_doc k vCoins)). }
    pose proof (coin_le_sum c _ Hin Hn) as Hle. exists [c]. split; [by apply singleton_submseteq_l|].
    change (add_coin c (∅, 0)) with (fold_left (fun r c => add_coin c r) [c] (∅, 0)).
    split; [|simpl; lia]. apply add_coins_empty; [|simpl; lia]. constructor; [|done]. rewrite Et. lia.
  - apply scan_reads in Esc. rewrite (shuffle_doc k vCoins) in Esc.
    destruct (SelectCoinsMinConf_ok w target nSpendTime nMine nTheirs Htarget k vCoins) as (ok & r' & E & Hr); [done|by eapply nonneg_sub| |].
    { pose proof (sum_coins_sub _ _ Hsub Hn). lia. }
    rewrite Hsel in E. injection E as <- <-. destruct Hr as [(_ & chosen & [H1' H2' H3' _ _])|(? & _)]; [|done].
    exists chosen. split; [by transitivity (eligible w nSpendTime nMine nTheirs vCoins)|done].
Qed.

Lemma try_confs_sound confs k vCoins r : nonneg (omap (coin_of w) vCoins) -> sum_coins (omap (coin_of w) vCoins) <= MAX_MONEY ->
  try_confs w target nSpendTime k vCoins confs = Some (true, r) -> pays_from (omap (coin_of w) vCoins) r.
Proof.
  intros Hn Hs. revert k. induction confs as [|[nMine nTheirs] confs IH]; intros k; [done|]. cbn [try_confs].
  destruct (SelectCoinsMinConf _ _ _ _ _ _ _) as [[ok r']|] eqn:E; [|done]. cbn [mbind option_bind]. destruct ok; [|apply IH].
  intros [= <-]. by eapply SelectCoinsMinConf_sound.
Qed.

Lemma SelectCoins_sound s fConfChange trust_fuel nMin k control r vCoins :
  AvailableCoins s fConfChange trust_fuel nMin w true control = Some vCoins ->
  nonneg (omap (coin_of w) vCoins) -> sum_coins (omap (coin_of w) vCoins) <= MAX_MONEY ->
  SelectCoins w s fConfChange trust_fuel nMin target nSpendTime k control = Some (true, r) -> pays_from (omap (coin_of w) vCoins) r.
Proof.
  intros Ha Hn Hs. unfold SelectCoins. rewrite Ha. cbn [mbind option_bind]. destruct (HasSelected control); [|by apply try_confs_sound].
  rewrite (add_selected_spec w vCoins _ (available_coins _ _ _ _ _ _ _ _ Ha)). cbn [mbind option_bind]. rewrite add_coins_empty by done.
  intros [= Ht <-]. apply Z.leb_le in Ht. by exists (omap (coin_of w) vCoins).
Qed.
End selection.

(** ** All the coins of a wallet *)
Fixpoint tx_coins (hash i : Z) (l : list CTxOut) : list coin :=
  match l with [] => [] | txout :: l => (nValue txout, (hash, u32 i)) :: tx_coins hash (i + 1) l end.
Definition all_coins (w : CWallet) : list coin := flat_map (fun e => tx_coins e.1 0 (vout (w_tx e.2))) (wallet_txs w).

Section all.
Context `{!Digests} `{!ECLib} `{!NodeEnv}.
Variable w : CWallet.

Lemma coins_of_sub nMin allows hash d t l1 l2 cs : mapWallet w !! hash = Some t -> vout (w_tx t) = l1 ++ l2 ->
  coins_of nMin w allows hash d t (Z.of_nat (length l1)) l2 = Some cs ->
  omap (coin_of w) cs `sublist_of` tx_coins hash (Z.of_nat (length l1)) l2.
Proof.
  intros Ht. revert l1 cs. induction l2 as [|txout l2 IH]; intros l1 cs Ev; cbn [coins_of tx_coins]; [by intros [= <-]|].
  destruct (IsSpent _ t) as [spent|]; [|done]. cbn [mbind option_bind].
  match goal with |- (?m ≫= _) = _ -> _ => destruct m as [take|]; [|done] end. cbn [mbind option_bind].
  match goal with |- (?m ≫= _) = _ -> _ => destruct m as [rest|] eqn:Er; [|done] end. cbn [mbind option_bind].
  replace (Z.of_nat (length l1) + 1) with (Z.of_nat (length (l1 ++ [txout]))) in * by (rewrite length_app; simpl; lia).
  specialize (IH (l1 ++ [txout]) rest ltac:(by rewrite <- app_assoc) Er). intros [= <-]. destruct take; [|by apply sublist_cons].
  simpl omap. unfold coin_of at 1. cbn [o_tx o_i]. rewrite Ht. cbn [mbind option_bind].
  rewrite at_lookup, Ev, list_lookup_middle by done. cbn [mbind option_bind]. by apply sublist_skip.
Qed.

Lemma collect_coins_sub nMin depth allows l cs : (forall hash t, (hash, t) ∈ l -> mapWallet w !! hash = Some t) ->
  collect_coins nMin w depth allows l = Some cs -> omap (coin_of w) cs `sublist_of` flat_map (fun e => tx_coins e.1 0 (vout (w_tx e.2))) l.
Proof.
  revert cs. induction l as [|[hash t] l IH]; intros cs Hl; cbn [collect_coins flat_map]; [by intros [= <-]|].
  destruct (depth t) as [d|]; [|done]. cbn [mbind option_bind].
  match goal with |- (?m ≫= _) = _ -> _ => destruct m as [c1|] eqn:E1; [|done] end. cbn [mbind option_bind].
  destruct (collect_coins _ _ _ _ l) as [rest|] eqn:Er; [|done]. intros [= <-]. rewrite omap_app. apply sublist_app.
  - destruct d as [d|]; [|injection E1 as <-; apply sublist_nil_l].
    apply (coins_of_sub nMin (allows hash) hash d t [] (vout (w_tx t)) c1); [apply Hl; by left|done|done].
  - apply IH; [|done]. intros h t' Hin. apply Hl. by right.
Qed.

Lemma AvailableCoins_sub s fConfChange trust_fuel nMin b control vCoins :
  AvailableCoins s fConfChange trust_fuel nMin w b control = Some vCoins -> omap (coin_of w) vCoins ⊆+ all_coins w.
Proof.
  intros Ha. apply sublist_submseteq. eapply collect_coins_sub; [|exact Ha]. intros hash t. apply elem_of_wallet_txs.
Qed.

(** No coin is listed twice. *)
Lemma elem_of_tx_coins c hash i l : c ∈ tx_coins hash i l -> c.2.1 = hash /\ exists j : nat, (j < length l)%nat /\ c.2.2 = u32 (i + Z.of_nat j).
Proof.
  revert i. induction l as [|o l IH]; intros i; cbn [tx_coins]; [by intros ?%elem_of_nil|]. intros [->|Hin]%elem_of_cons.
  - split; [done|]. exists 0%nat. split; [simpl; lia|]. simpl. f_equal. lia.
  - destruct (IH _ Hin) as (E & j & Hj & Ej). split; [done|]. exists (S j). split; [simpl; lia|]. rewrite Ej. f_equal. lia.
Qed.

Lemma tx_coins_NoDup hash i l : 0 <= i -> i + zlen l <= 2 ^ 32 -> NoDup (map snd (tx_coins hash i l)).
Proof.
  revert i. induction l as [|o l IH]; intros i Hi Hl; cbn [tx_coins map]; [constructor|]. rewrite zlen_cons in Hl. pose proof (zlen_nonneg l).
  constructor; [|by apply IH; lia]. intros (c & Ec & Hc)%list_elem_of_fmap. apply elem_of_tx_coins in Hc as (_ & j & Hj & Ej).
  apply (f_equal snd) in Ec. simpl in Ec. unfold zlen in *. rewrite Ej in Ec. unfold u32 in Ec. rewrite !Z.mod_small in Ec by lia. lia.
Qed.

Lemma all_coins_NoDup : (forall hash t, mapWallet w !! hash = Some t -> zlen (vout (w_tx t)) <= 2 ^ 32) -> NoDup (map snd (all_coins w)).
Proof.
  intros Hlen. unfold all_coins. assert (forall hash t, (hash, t) ∈ wallet_txs w -> zlen (vout (w_tx t)) <= 2 ^ 32) as Hl.
  { intros hash t Hin%elem_of_wallet_txs. by eapply Hlen. }
  assert (NoDup (wallet_txs w).*1) as Hnd by (unfold wallet_txs; rewrite merge_sort_Permutation; apply NoDup_fst_map_to_list).
  induction (wallet_txs w) as [|[hash t] l IH]; [constructor|]. cbn [flat_map]. rewrite map_app. cbn [fmap list_fmap fst] in Hnd.
  apply NoDup_cons in Hnd as [Hni Hnd]. apply NoDup_app. split; [|split].
  - apply tx_coins_NoDup; [lia|]. apply (Hl hash). by left.
  - intros x (c & -> & Hc)%list_elem_of_fmap (c' & Ec & Hc')%list_elem_of_fmap. apply elem_of_tx_coins in Hc as [E1 _].
    apply Hni. apply list_elem_of_In, in_flat_map in Hc' as ([h' t'] & Hin' & Hc'). apply list_elem_of_In, elem_of_tx_coins in Hc' as [E2 _].
    apply list_elem_of_fmap. exists (h', t'). split; [simpl in *; congruence|by apply list_elem_of_In].
  - apply IH; [|done]. intros h' t' Hin. apply (Hl h'). by right.
Qed.
End all.

Lemma coins_set_elements chosen : NoDup (map snd chosen) -> elements (coins_set chosen) ≡ₚ map snd chosen.
Proof. intros Hn. unfold coins_set. by apply elements_list_to_set. Qed.

(** ** The payees *)
Lemma sum_out_app l1 l2 : sum_out (l1 ++ l2) = sum_out l1 + sum_out l2.
Proof. induction l1 as [|o l1 IH]; [done|]. change (sum_out ((o :: l1) ++ l2)) with (nValue o + sum_out (l1 ++ l2)).
  change (sum_out (o :: l1)) with (nValue o + sum_out l1). lia. Qed.

#[export] Instance sum_out_perm : Proper ((≡ₚ) ==> (=)) sum_out.
Proof. induction 1 as [|o l l' _ IH|o o' l|l1 l2 l3 _ IH1 _ IH2]; simpl in *; lia. Qed.

Definition send_sum (l : list (bytes * Z)) : Z := foldr (fun p n => p.2 + n) 0 l.
Definition sendable (l : list (bytes * Z)) : Prop := Forall (fun p => 0 <= p.2) l /\ send_sum l <= MAX_MONEY.

Lemma send_sum_nonneg l : Forall (fun p : bytes * Z => 0 <= p.2) l -> 0 <= send_sum l.
Proof. induction 1; simpl; [done|]. unfold send_sum in *. lia. Qed.

Lemma sum_send_ok l n : Forall (fun p : bytes * Z => 0 <= p.2) l -> 0 <= n -> n + send_sum l <= MAX_MONEY -> sum_send l n = Some (n + send_sum l).
Proof.
  rewrite MAX_MONEY_eq. intros Hl. revert n. induction Hl as [|p l Hp Hl IH]; intros n Hn Hs; cbn [sum_send send_sum foldr] in *; [f_equal; lia|].
  pose proof (send_sum_nonneg l Hl) as Hr. unfold send_sum in *. destruct (Z.ltb_spec n 0); [lia|]. rewrite i64_id by lia. rewrite IH by lia. f_equal. lia.
Qed.

Lemma send_total_ok l : sendable l -> send_total l = if bool_decide (l = []) then None else Some (send_sum l).
Proof.
  intros [Hl Hs]. unfold send_total. rewrite (sum_send_ok l 0 Hl) by lia. cbn [mbind option_bind]. pose proof (send_sum_nonneg l Hl).
  destruct (Z.ltb_spec (0 + send_sum l) 0); [lia|]. by rewrite orb_false_r.
Qed.

Lemma split_output_sum script v n : (0 < n)%nat -> 0 <= v <= MAX_MONEY -> sum_out (split_output script v n) = v.
Proof.
  rewrite MAX_MONEY_eq. intros Hn Hv. unfold split_output. set (f := fun nCount => _).
  assert (forall k, (k <= n - 1)%nat -> sum_out (map f (seq 0 k)) = Z.of_nat k * Z.quot v (Z.of_nat n)) as Hk.
  { induction k as [|k IH]; intros Hk; [done|]. rewrite seq_S, map_app, sum_out_app, IH by lia. cbn [map Nat.add]. unfold f at 1.
    rewrite bool_decide_eq_false_2 by lia. change (sum_out [?x]) with (nValue x + 0). cbn [nValue]. lia. }
  assert (seq 0 n = seq 0 (n - 1) ++ [(n - 1)%nat]) as -> by (replace n with (S (n - 1)) at 1 by lia; by rewrite seq_S).
  rewrite map_app, sum_out_app, Hk by lia. cbn [map]. unfold f.
  rewrite bool_decide_eq_true_2 by done. change (sum_out [?x]) with (nValue x + 0). cbn [nValue].
  pose proof (Z.quot_rem' v (Z.of_nat n)) as Hqr. pose proof (Z.rem_bound_pos v (Z.of_nat n) ltac:(lia) ltac:(lia)) as Hr.
  pose proof (Z.quot_pos v (Z.of_nat n) ltac:(lia) ltac:(lia)) as Hq.
  assert (Z.quot v (Z.of_nat n) + Z.rem v (Z.of_nat n) <= v) by nia.
  unfold u64. rewrite (Z.mod_small (Z.rem v (Z.of_nat n))), Z.mod_small by lia. rewrite i64_id by lia. nia.
Qed.

Lemma payee_outputs_sum w l nSplit : sendable l -> sum_out (payee_outputs w l nSplit) = send_sum l.
Proof.
  intros [Hl Hs]. unfold payee_outputs. destruct (fSplitBlock w); cbn [negb].
  - induction Hl as [|p l Hp Hl IH]; [done|]. cbn [flat_map send_sum foldr] in *. fold (send_sum l) in *. pose proof (send_sum_nonneg l Hl).
    rewrite sum_out_app, IH, split_output_sum by lia. done.
  - clear Hs. induction Hl as [|p l Hp Hl IH]; [done|]. cbn [map]. change (sum_out (?x :: ?r)) with (nValue x + sum_out r). rewrite IH. done.
Qed.

Section create.
Context `{!BNLib} `{!Digests} `{!ECLib} `{!SigEnv} `{!NodeEnv} `{!Draws} `{!DrawsOk} `{!KeyDraws} `{!PayDraws} `{!PayDrawsOk}.
Variable w : CWallet.

(** The wallet's output behind an input. *)
Definition spends_wallet (txin : CTxIn) (coin : Z * Z) (txout : CTxOut) : Prop := exists t,
  mapWallet w !! coin.1 = Some t /\ prevout txin = mk_outpoint (Tx.GetHash (w_tx t)) coin.2 /\ at_ (vout (w_tx t)) coin.2 = Some txout.

Lemma set_scriptSig_lookup tx n scr i : vin (set_scriptSig tx n scr) !! i =
  if decide (n = i) then (fun x => with_script x scr) <$> vin tx !! i else vin tx !! i.
Proof.
  unfold set_scriptSig. simpl. destruct (decide (n = i)) as [->|]; [by rewrite list_lookup_alter_eq|by rewrite list_lookup_alter_ne].
Qed.

Lemma sign_loop_ok ks coins n tx c tx' c' : cache_ok c ->
  (forall k coin, coins !! k = Some coin -> exists t, mapWallet w !! coin.1 = Some t /\
    prevout <$> vin tx !! (n + k)%nat = Some (mk_outpoint (Tx.GetHash (w_tx t)) coin.2)) ->
  sign_loop w ks coins n tx c = Some (true, tx', c') ->
  same_but_scripts tx tx' /\ (forall i, (i < n)%nat -> vin tx' !! i = vin tx !! i) /\ cache_ok c' /\
  forall k coin, coins !! k = Some coin -> exists txin txout, vin tx' !! (n + k)%nat = Some txin /\ spends_wallet txin coin txout /\
    input_verifies tx' (n + k) txin txout.
Proof.
  revert n tx c. induction coins as [|coin coins IH]; intros n tx c Hc Hin; cbn [sign_loop].
  { intros [= <- <-]. split; [done|]. split; [done|]. by split. }
  destruct (Hin 0%nat coin eq_refl) as (t & Et & Ep). rewrite Nat.add_0_r in Ep. rewrite Et. cbn [mbind option_bind].
  unfold SignSignature_from. destruct (vin tx !! n) as [txin|] eqn:Ei; [|done]. injection Ep as Ep. cbn [mbind option_bind]. rewrite Ep. cbn [o_n o_hash].
  destruct (at_ _ coin.2) as [txout|] eqn:Eo; [|done]. cbn [mbind option_bind]. rewrite bool_decide_eq_true_2 by done.
  destruct (SignSignature _ _ _ _ _ _ _) as [[[ok tx1] c1]|] eqn:Es; [|done]. cbn [mbind option_bind]. destruct ok; [|done].
  apply SignSignature_true in Es as (scr & -> & Hc1 & Hn & Hv); [|done]. intros Hl.
  apply IH in Hl as (Hs & Hlow & Hc' & Hrest); [|done|].
  - assert (same_but_scripts tx tx') as Hs' by (eapply same_trans; [apply set_scriptSig_same|exact Hs]).
    split; [done|]. split; [|split; [done|]].
    { intros i Hi. rewrite Hlow by lia. rewrite set_scriptSig_lookup. by destruct (decide (n = i)); [lia|]. }
    intros [|k] coin' Hk.
    + injection Hk as <-. rewrite Nat.add_0_r. exists (with_script txin scr), txout.
      split; [|split; [by exists t|]].
      * rewrite Hlow by lia. rewrite set_scriptSig_lookup. by rewrite decide_True, Ei by done.
      * eapply input_verifies_same; [exact Hs|]. intros c0 Hc0. by apply Hv.
    + destruct (Hrest k coin' Hk) as (txin' & txout' & Hl' & Hsp & Hv'). rewrite <- Nat.add_succ_comm. by exists txin', txout'.
  - intros k coin' Hk. destruct (Hin (S k) coin' Hk) as (t' & Et' & Ep'). exists t'. split; [done|].
    rewrite Nat.add_succ_comm, set_scriptSig_lookup. destruct (decide (n = (n + S k)%nat)); [lia|done].
Qed.

(** *** What a wallet keeps of its transactions *)
Record wallet_ok : Prop := {
  wallet_filed hash t : mapWallet w !! hash = Some t -> Tx.GetHash (w_tx t) = hash /\ zlen (vout (w_tx t)) <= 2 ^ 32;
  wallet_values : nonneg (all_coins w);
  wallet_total : sum_coins (all_coins w) <= MAX_MONEY
}.

Variable s : ChainState.
Variables (fConfChange IsLocked : bool) (trust_fuel : nat) (keypool_arg nMin nTransactionFee : Z).
Variable coinControl : option CCoinControl.
Variable vecSend : list (bytes * Z).
Variable nSplitBlock : Z.

(** *** The fee *)
Definition rate : Z := Z.max nTransactionFee MIN_TX_FEE.
Hypothesis Hfee : 0 <= nTransactionFee <= MAX_MONEY / 100.

Lemma needed_fee_eq nBytes : 0 <= nBytes < MAX_STANDARD_TX_SIZE -> needed_fee nTransactionFee nBytes = (1 + nBytes / 1000) * rate.
Proof.
  intros Hb. change MAX_STANDARD_TX_SIZE with 100000 in Hb. rewrite MAX_MONEY_eq in Hfee. change (9000000000000000 / 100) with 90000000000000 in Hfee.
  pose proof (Z.div_lt_upper_bound nBytes 1000 100 ltac:(lia) ltac:(lia)). pose proof (Z.div_pos nBytes 1000 ltac:(lia) ltac:(lia)).
  unfold needed_fee, GetMinFee, rate, MIN_TX_FEE. cbn [Z.eqb Pos.eqb negb andb]. set (q := nBytes / 1000) in *.
  assert (0 <= nTransactionFee * (1 + q) <= nTransactionFee * 100) by (split; [apply Z.mul_nonneg_nonneg|apply Z.mul_le_mono_nonneg_l]; lia).
  rewrite !i64_id by lia.
  destruct (MoneyRange _) eqn:Er; cbn [negb].
  - rewrite <- Z.mul_max_distr_nonneg_l by lia. f_equal. lia.
  - exfalso. assert (MoneyRange ((1 + q) * 10000) = true) by (apply MoneyRange_spec; rewrite MAX_MONEY_eq; lia). congruence.
Qed.

Definition max_fee : Z := Z.max (COIN / 1000) (100 * rate).

Lemma needed_fee_range nBytes : 0 <= nBytes < MAX_STANDARD_TX_SIZE -> 0 <= needed_fee nTransactionFee nBytes <= max_fee.
Proof.
  intros Hb. rewrite needed_fee_eq by done. change MAX_STANDARD_TX_SIZE with 100000 in Hb. unfold max_fee.
  pose proof (Z.div_lt_upper_bound nBytes 1000 100 ltac:(lia) ltac:(lia)). pose proof (Z.div_pos nBytes 1000 ltac:(lia) ltac:(lia)).
  assert (0 < rate) by (unfold rate, MIN_TX_FEE; lia). nia.
Qed.

(** The rounds still possible at a fee. *)
Definition rounds_left (fee : Z) : nat := Z.to_nat (100 - Z.max 0 (fee / rate)).

Lemma rounds_left_falls fee nBytes : 0 <= nBytes < MAX_STANDARD_TX_SIZE -> fee < needed_fee nTransactionFee nBytes ->
  (rounds_left (needed_fee nTransactionFee nBytes) < rounds_left fee)%nat.
Proof.
  intros Hb Hlt. rewrite needed_fee_eq in * by done. change MAX_STANDARD_TX_SIZE with 100000 in Hb. unfold rounds_left.
  pose proof (Z.div_lt_upper_bound nBytes 1000 100 ltac:(lia) ltac:(lia)). pose proof (Z.div_pos nBytes 1000 ltac:(lia) ltac:(lia)).
  assert (0 < rate) by (unfold rate, MIN_TX_FEE; lia). rewrite Z.div_mul by lia.
  assert (fee / rate < 1 + nBytes / 1000) by (apply Z.div_lt_upper_bound; lia). lia.
Qed.

Lemma size_nonneg (tx : CTransaction) : 0 <= GetSerializeSize tx.
Proof. cbn [GetSerializeSize]. by apply Z.mod_pos_bound. Qed.

Local Abbreviation round := (create_round w s fConfChange IsLocked trust_fuel keypool_arg nMin nTransactionFee coinControl vecSend nSplitBlock).
Local Abbreviation loop := (create_loop w s fConfChange IsLocked trust_fuel keypool_arg nMin nTransactionFee coinControl vecSend nSplitBlock).

Lemma round_again nValue fee st fee' st' : round nValue fee st = Some (Again fee', st') ->
  exists nBytes, 0 <= nBytes < MAX_STANDARD_TX_SIZE /\ fee' = needed_fee nTransactionFee nBytes /\ fee < fee'.
Proof.
  unfold create_round. destruct (SelectCoins _ _ _ _ _ _ _ _ _) as [[ok [set v]]|]; [|done]. cbn [mbind option_bind].
  destruct (negb ok); [done|]. destruct (add_change _ _ _ _ _ _ _ _) as [[vouts st1]|]; [|done]. cbn [mbind option_bind].
  destruct (mapM _ _) as [vins|]; [|done]. cbn [mbind option_bind]. destruct (sign_loop _ _ _ _ _ _) as [[[ok2 tx] c]|]; [|done]. cbn [mbind option_bind].
  destruct (negb ok2); [done|]. cbv zeta. pose proof (size_nonneg tx) as Hn.
  destruct (Z.leb_spec MAX_STANDARD_TX_SIZE (GetSerializeSize tx)) as [|Hb]; [done|].
  destruct (Z.ltb_spec fee (needed_fee nTransactionFee (GetSerializeSize tx))) as [Hlt|]; [|done]. intros [= <- _]. by exists (GetSerializeSize tx).
Qed.

(** The rounds end: the fee is a multiple of the rate that grows, and a transaction of the
    allowed size needs at most a hundred times the rate. *)
Lemma create_loop_enough fuel1 fuel2 nValue fee st : (rounds_left fee < fuel1)%nat -> (rounds_left fee < fuel2)%nat ->
  loop fuel1 nValue fee st = loop fuel2 nValue fee st.
Proof.
  revert fuel2 fee st. induction fuel1 as [|fuel1 IH]; intros fuel2 fee st Hf1 Hf2; [lia|]. destruct fuel2 as [|fuel2]; [lia|].
  cbn [create_loop]. destruct (round nValue fee st) as [[e st']|] eqn:Er; [|done]. cbn [mbind option_bind]. destruct e as [|fee'|]; [done| |done].
  apply round_again in Er as (nBytes & Hb & -> & Hlt). pose proof (rounds_left_falls fee nBytes Hb Hlt). apply IH; lia.
Qed.

(** The rounds from a fee and a state to later ones. *)
Inductive fee_rounds (nValue : Z) : Z -> PayState -> Z -> PayState -> Prop :=
| fee_here fee st : fee_rounds nValue fee st fee st
| fee_again fee st fee1 st1 fee2 st2 : round nValue fee st = Some (Again fee1, st1) -> fee_rounds nValue fee1 st1 fee2 st2 -> fee_rounds nValue fee st fee2 st2.

Lemma create_loop_none fuel nValue fee st : (rounds_left fee < fuel)%nat -> loop fuel nValue fee st = None ->
  exists fee' st', fee_rounds nValue fee st fee' st' /\ round nValue fee' st' = None.
Proof.
  revert fee st. induction fuel as [|fuel IH]; intros fee st Hf; [lia|]. cbn [create_loop].
  destruct (round nValue fee st) as [[e st1]|] eqn:Er; [|intros _; exists fee, st; split; [constructor|done]].
  cbn [mbind option_bind]. destruct e as [|fee1|]; [done| |done]. intros Hn.
  pose proof (round_again _ _ _ _ _ Er) as (nBytes & Hb & Ef & Hlt). rewrite Ef in Hlt. pose proof (rounds_left_falls fee nBytes Hb Hlt) as Hl.
  destruct (IH fee1 st1) as (fee' & st' & Hr & He); [rewrite Ef; lia|done|]. exists fee', st'. split; [by econstructor|done].
Qed.

(** *** The outputs that are spent *)
Definition out_of (coin : Z * Z) : CTxOut := default (mk_txout 0 []) (t ← mapWallet w !! coin.1; at_ (vout (w_tx t)) coin.2).

Lemma spends_out_of txin coin txout : spends_wallet txin coin txout -> out_of coin = txout.
Proof. intros (t & Et & _ & Eo). unfold out_of. rewrite Et. cbn [mbind option_bind]. by rewrite Eo. Qed.

Lemma coin_of_out out c : wallet_ok -> coin_of w out = Some c -> c.1 = nValue (out_of c.2) /\ c.2 = (o_tx out, o_i out).
Proof.
  intros Hok. unfold coin_of. destruct (mapWallet w !! o_tx out) as [t|] eqn:Et; [|done]. cbn [mbind option_bind].
  destruct (at_ (vout (w_tx t)) (o_i out)) as [txout|] eqn:Eo; [|done]. cbn [mbind option_bind]. intros [= <-]. cbn [fst snd].
  assert (u32 (o_i out) = o_i out) as Ei.
  { pose proof Eo as Eo'. unfold at_ in Eo'. destruct (Z.ltb_spec (o_i out) 0); [done|]. apply lookup_lt_Some in Eo'.
    destruct (wallet_filed Hok _ _ Et) as [_ Hl]. unfold zlen in Hl. unfold u32. apply Z.mod_small. lia. }
  rewrite Ei. split; [|done]. unfold out_of. cbn [fst snd]. rewrite Et. cbn [mbind option_bind]. by rewrite Eo.
Qed.

Lemma chosen_sum vCoins chosen : wallet_ok -> chosen ⊆+ omap (coin_of w) vCoins ->
  sum_out (map out_of (map snd chosen)) = sum_coins chosen /\
  forall coin, coin ∈ map snd chosen -> exists out, out ∈ vCoins /\ coin = (o_tx out, o_i out).
Proof.
  intros Hok Hsub. assert (forall c, c ∈ chosen -> exists out, out ∈ vCoins /\ coin_of w out = Some c) as Hc.
  { intros c Hin. pose proof (elem_of_submseteq _ _ _ Hin Hsub) as Hin'. by apply list_elem_of_omap in Hin'. }
  split.
  - clear Hsub. induction chosen as [|c chosen IH]; [done|]. destruct (Hc c) as (out & _ & Eo); [by left|].
    destruct (coin_of_out out c Hok Eo) as [Ev _]. cbn [map]. change (sum_out (out_of c.2 :: map out_of (map snd chosen))) with (nValue (out_of c.2) + sum_out (map out_of (map snd chosen))).
    rewrite IH by (intros c' Hin; apply Hc; by right). cbn [sum_coins foldr]. fold (sum_coins chosen). lia.
  - intros coin (c & -> & Hin)%list_elem_of_fmap. destruct (Hc c Hin) as (out & Ho & Eo). exists out. split; [done|]. by apply (coin_of_out out c Hok).
Qed.

(** *** A payment *)
Definition offered (ks : CBasicKeyStore) (vCoins : list COutput) : Prop :=
  AvailableCoins s fConfChange trust_fuel nMin (bind_keys ks w) true (setSelected <$> coinControl) = Some vCoins.

(** A finished payment with its fee and the outputs it spends, one for each input. *)
Record payment (tx : CTransaction) (fee : Z) (ins : list (Z * Z)) : Prop := {
  py_inputs i coin : ins !! i = Some coin -> exists txin, vin tx !! i = Some txin /\ spends_wallet txin coin (out_of coin) /\
    input_verifies tx i txin (out_of coin);
  py_length : length (vin tx) = length ins;
  py_distinct : NoDup ins;
  py_offered : exists ks vCoins, offered ks vCoins /\ forall coin, coin ∈ ins -> exists out, out ∈ vCoins /\ coin = (o_tx out, o_i out);
  py_balance : sum_out (map out_of ins) = sum_out (vout tx) + fee;
  py_outputs : exists l1 change l2, payee_outputs w vecSend nSplitBlock = l1 ++ l2 /\ vout tx = l1 ++ change ++ l2 /\
    (length change <= 1)%nat /\ Forall (fun o => 0 < nValue o) change;
  py_fee : needed_fee nTransactionFee (GetSerializeSize tx) <= fee;
  py_size : GetSerializeSize tx < MAX_STANDARD_TX_SIZE
}.

Lemma add_change_ok nChange st vouts st' : sendable vecSend -> 0 <= nChange ->
  add_change w IsLocked keypool_arg coinControl vecSend nSplitBlock nChange st = Some (vouts, st') ->
  pay_cache st' = pay_cache st /\ sum_out vouts = send_sum vecSend + nChange /\
  exists l1 change l2, payee_outputs w vecSend nSplitBlock = l1 ++ l2 /\ vouts = l1 ++ change ++ l2 /\ (length change <= 1)%nat /\
    Forall (fun o => 0 < nValue o) change.
Proof.
  intros Hsend Hn. unfold add_change. pose proof (payee_outputs_sum w vecSend nSplitBlock Hsend) as Hsum.
  destruct (Z.ltb_spec 0 nChange) as [Hpos|Hz].
  - assert (forall scr st1, change_script IsLocked keypool_arg coinControl st = Some (scr, st1) -> pay_cache st1 = pay_cache st) as Hcs.
    { assert (forall scr st1, reserved_script IsLocked keypool_arg st = Some (scr, st1) -> pay_cache st1 = pay_cache st) as Hr.
      { intros scr st1. unfold reserved_script. destruct (GetReservedKey _ _ _ _) as [[[pk rk] keys]|]; [|done]. cbn [mbind option_bind].
        destruct pk; [|done]. by intros [= _ <-]. }
      intros scr st1. unfold change_script. destruct coinControl; [|apply Hr]. destruct (negb _); [by intros [= _ <-]|apply Hr]. }
    destruct (change_script _ _ _ _) as [[scr st1]|] eqn:Ecs; [|done]. cbn [mbind option_bind]. intros [= <- <-]. split; [by apply (Hcs scr st1)|].
    set (k := Z.to_nat _). split.
    + rewrite sum_out_app. change (sum_out (?x :: ?r)) with (nValue x + sum_out r). cbn [nValue].
      rewrite <- Hsum. rewrite <- (take_drop k (payee_outputs w vecSend nSplitBlock)) at 3. rewrite sum_out_app. lia.
    + exists (take k (payee_outputs w vecSend nSplitBlock)), [mk_txout nChange scr], (drop k (payee_outputs w vecSend nSplitBlock)).
      rewrite take_drop. repeat split; [simpl; lia|by repeat constructor].
  - destruct (Reserve_ReturnKey _ _). intros [= <- <-]. split; [done|]. split; [lia|].
    exists (payee_outputs w vecSend nSplitBlock), [], []. rewrite !app_nil_r. split; [done|]. split; [done|]. split; [simpl; lia|constructor].
Qed.

Lemma round_ok nValue fee st e st' : wallet_ok -> sendable vecSend -> nValue = send_sum vecSend -> 0 <= fee -> nValue + fee <= MAX_MONEY ->
  cache_ok (pay_cache st) -> round nValue fee st = Some (e, st') ->
  match e with Refused => True | Again _ => cache_ok (pay_cache st') | Done => exists ins, payment (pay_tx st') fee ins end.
Proof.
  intros Hok Hsend Hval Hf0 Hmax Hc. pose proof (send_sum_nonneg _ (proj1 Hsend)) as Hnn. pose proof Hmax as Hmax'. rewrite MAX_MONEY_eq in Hmax'.
  unfold create_round. rewrite (i64_id (nValue + fee)) by lia. set (ks := wk_store (pay_keys st)). set (wk := bind_keys ks w).
  destruct (SelectCoins wk _ _ _ _ _ _ _ _) as [[ok [set v]]|] eqn:Esel; [|done]. cbn [mbind option_bind].
  destruct ok; cbn [negb]; [|by intros [= <- _]].
  assert (exists vCoins, offered ks vCoins) as [vCoins Hoff].
  { unfold SelectCoins in Esel. unfold offered. fold wk. destruct (AvailableCoins s fConfChange trust_fuel nMin wk true _) as [l|]; [by exists l|done]. }
  pose proof (AvailableCoins_sub wk s fConfChange trust_fuel nMin true _ vCoins Hoff) as Hsub. change (all_coins wk) with (all_coins w) in Hsub.
  change (omap (coin_of wk) vCoins) with (omap (coin_of w) vCoins) in Hsub.
  assert (nonneg (omap (coin_of w) vCoins)) as Hn by (eapply nonneg_sub; [exact Hsub|apply (wallet_values Hok)]).
  assert (sum_coins (omap (coin_of w) vCoins) <= MAX_MONEY) as Hs.
  { pose proof (sum_coins_sub _ _ Hsub (wallet_values Hok)). pose proof (wallet_total Hok). lia. }
  destruct (SelectCoins_sound wk (nValue + fee) _ ltac:(lia) s fConfChange trust_fuel nMin _ _ (set, v) vCoins Hoff Hn Hs Esel) as (chosen & Hch & Er & Hpay).
  change (omap (coin_of wk) vCoins) with (omap (coin_of w) vCoins) in Hch. injection Er as -> ->.
  destruct (chosen_sum vCoins chosen Hok Hch) as [Hsum Hfrom]. pose proof (sum_coins_sub _ _ Hch Hn) as Hle. rewrite MAX_MONEY_eq in Hs.
  rewrite !i64_id by (rewrite ?i64_id by lia; lia).
  destruct (add_change _ _ _ _ _ _ _ _) as [[vouts st1]|] eqn:Eadd; [|done]. cbn [mbind option_bind].
  apply add_change_ok in Eadd as (Ecache & Evout & Hparts); [|done|lia]. cbn [pay_cache] in Ecache.
  set (coins := set_order (coins_set chosen)). destruct (mapM (spend_coin w) coins) as [vins|] eqn:Evin; [|done]. cbn [mbind option_bind].
  apply mapM_Some in Evin. pose proof (Forall2_length _ _ _ Evin) as Elen.
  destruct (sign_loop w _ coins 0 _ _) as [[[ok tx] c]|] eqn:Esign; [|done]. cbn [mbind option_bind]. cbv zeta.
  destruct ok; cbn [negb]; [|by intros [= <- _]].
  apply sign_loop_ok in Esign as (Hsame & _ & Hcok & Hins); [|by rewrite Ecache|].
  2:{ intros k coin Hk. destruct (Forall2_lookup_l _ _ _ _ _ Evin Hk) as (txin & Hi & Et). cbn [vin Nat.add]. rewrite Hi. cbn [fmap option_fmap option_map].
      unfold spend_coin in Et. destruct (mapWallet w !! coin.1) as [t|]; [|done]. injection Et as <-. by exists t. }
  destruct (Z.leb_spec MAX_STANDARD_TX_SIZE (GetSerializeSize tx)) as [|Hsz]; [by intros [= <- _]|].
  destruct (Z.ltb_spec fee (needed_fee nTransactionFee (GetSerializeSize tx))) as [|Hfe]; [by intros [= <- <-]|].
  intros [= <- <-]. cbn [pay_tx]. exists coins.
  assert (NoDup (map snd chosen)) as Hnd.
  { assert (map snd chosen ⊆+ map snd (all_coins w)) as Hm by (apply fmap_submseteq; by etrans).
    apply submseteq_Permutation in Hm as [k Hk]. assert (NoDup (map snd chosen ++ k)) as [? _]%NoDup_app; [|done].
    rewrite <- Hk. apply all_coins_NoDup. intros hash t Ht. by apply (wallet_filed Hok hash t). }
  pose proof (set_order_doc (coins_set chosen)) as Hord. rewrite (coins_set_elements chosen Hnd) in Hord. fold coins in Hord.
  destruct Hsame as (_ & _ & _ & Evo & Evi). cbn [vin vout] in Evo, Evi.
  split; rewrite <- ?Evo; try done.
  - intros i coin Hi. destruct (Hins i coin Hi) as (txin & txout & Hl & Hsp & Hv). exists txin. split; [done|]. by rewrite (spends_out_of _ _ _ Hsp).
  - apply (f_equal length) in Evi. rewrite !length_map in Evi. lia.
  - by rewrite Hord.
  - exists ks, vCoins. split; [done|]. intros coin Hin. apply Hfrom. by rewrite <- Hord.
  - assert (sum_out (map out_of coins) = sum_out (map out_of (map snd chosen))) as -> by (apply sum_out_perm; by rewrite Hord). rewrite Hsum. lia.
Qed.

Lemma create_loop_ok fuel nValue fee st fee' st' : wallet_ok -> sendable vecSend -> nValue = send_sum vecSend -> 0 <= fee <= max_fee ->
  nValue + max_fee <= MAX_MONEY -> cache_ok (pay_cache st) -> loop fuel nValue fee st = Some (true, fee', st') ->
  exists ins, payment (pay_tx st') fee' ins.
Proof.
  intros Hok Hsend Hval Hf Hmax. revert fee st Hf. induction fuel as [|fuel IH]; intros fee st Hf Hc; [done|]. cbn [create_loop].
  destruct (round nValue fee st) as [[e st1]|] eqn:Er; [|done]. cbn [mbind option_bind].
  pose proof (round_ok nValue fee st e st1 Hok Hsend Hval (proj1 Hf) ltac:(lia) Hc Er) as Hr. destruct e as [|fee1|]; [done| |].
  - apply round_again in Er as (nBytes & Hb & -> & _). apply IH; [by apply needed_fee_range|done].
  - by intros [= <- <-].
Qed.

(** *** The supporting transactions *)
Definition sources : list CMerkleTx :=
  flat_map (fun e => w_merkle e.2 :: vtxPrev e.2) (map_to_list (mapWallet w)) ++
  omap (fun e => ReadDiskTx s e.1) (map_to_list (tx_index (txdb s))).
Definition known : gset Z :=
  dom (mapWallet w) ∪ list_to_set (map (fun t => Tx.GetHash (m_tx t)) sources) ∪ dom (tx_index (txdb s)).
Definition width : nat := foldr (fun t n => Nat.max (length (vin (m_tx t))) n) 0%nat sources.

Lemma width_bound t : t ∈ sources -> (length (vin (m_tx t)) <= width)%nat.
Proof. unfold width. induction sources as [|x l IH]; [by intros ?%elem_of_nil|]. intros [->|Hin%IH]%elem_of_cons; simpl; lia. Qed.

Definition prev_ok (m : gmap Z CMerkleTx) : Prop := forall hash t, m !! hash = Some t -> t ∈ sources /\ hash ∈ known.

Lemma find_support_ok hash m found m' : prev_ok m -> find_support s w hash m = (found, m') -> prev_ok m' /\
  forall t, found = Some t -> t ∈ sources /\ hash ∈ known.
Proof.
  intros Hm. unfold find_support. destruct (mapWallet w !! hash) as [t|] eqn:Et.
  - assert (forall p, p ∈ w_merkle t :: vtxPrev t -> p ∈ sources) as Hsrc.
    { intros p Hp. unfold sources. apply elem_of_app. left. apply list_elem_of_In, in_flat_map. exists (hash, t).
      split; [by apply list_elem_of_In, elem_of_map_to_list|by apply list_elem_of_In]. }
    intros [= <- <-]. split.
    + assert (forall l m0, (forall p, p ∈ l -> p ∈ sources) -> prev_ok m0 -> prev_ok (fold_left (fun m p => <[Tx.GetHash (m_tx p) := p]> m) l m0)) as Hfold.
      { induction l as [|p l IH]; intros m0 Hl H0'; [done|]. cbn [fold_left]. apply IH; [intros q Hq; apply Hl; by right|].
        intros h q [[<- <-]|[_ Hq]]%lookup_insert_Some; [|by apply H0']. assert (p ∈ sources) as Hp by (apply Hl; by left). split; [done|].
        unfold known. apply elem_of_union. left. apply elem_of_union. right. apply elem_of_list_to_set, list_elem_of_fmap. by exists p. }
      apply Hfold; [|done]. intros p Hp. apply Hsrc. by right.
    + intros t' [= <-]. split; [apply Hsrc; by left|]. unfold known. apply elem_of_union. left. apply elem_of_union. left. by apply elem_of_dom_2 in Et.
  - destruct (m !! hash) as [t|] eqn:Em; intros [= <- <-]; (split; [done|]).
    + intros t' [= <-]. by apply Hm.
    + intros t Ht. assert (is_Some (tx_index (txdb s) !! hash)) as [x Hx].
      { unfold ReadDiskTx, TxDB.ReadTxIndex in Ht. by destruct (tx_index (txdb s) !! hash). }
      split; [|unfold known; apply elem_of_union; right; by apply elem_of_dom_2 in Hx]. unfold sources. apply elem_of_app. right.
      apply list_elem_of_omap. exists (hash, x). split; [by apply elem_of_map_to_list|done].
Qed.

Lemma SetMerkleBranch_tx ReadBlock b t n t' : SetMerkleBranch s ReadBlock b t = Some (n, t') -> m_tx t' = m_tx t.
Proof.
  unfold SetMerkleBranch. set (found := match b with Some b => Some b | None => _ end). destruct found; [|by intros [= _ <-]].
  destruct (list_find _ _) as [[i ?]|]; [|by intros [= _ <-]]. destruct (mapBlockIndex s !! _) as [[? ?]|]; [|by intros [= _ <-]].
  destruct (negb _); [by intros [= _ <-]|]. destruct (best_block s); [|done]. cbn [mbind option_bind].
  destruct (mapBlockIndex s !! _) as [[? ?]|]; [|done]. by intros [= _ <-].
Qed.

(** The rounds of the work queue: every known transaction is expanded once. *)
Definition support_cost (q : list Z) (done : gset Z) : nat := (length q + size (known ∖ done) * width)%nat.

(** The block of a transaction is looked up, and an index it needs is not there. *)
Definition branch_error (ReadBlock : Z -> Z -> option CBlock) : Prop := exists t, SetMerkleBranch s ReadBlock None t = None.

Lemma support_loop_enough ReadBlock fuel1 fuel2 q done m acc : prev_ok m -> (support_cost q done <= fuel1)%nat -> (support_cost q done <= fuel2)%nat ->
  support_loop s ReadBlock fuel1 w q done m acc = support_loop s ReadBlock fuel2 w q done m acc /\
  (support_loop s ReadBlock fuel1 w q done m acc = None -> branch_error ReadBlock).
Proof.
  unfold support_cost. revert fuel2 q done m acc. induction fuel1 as [|fuel1 IH]; intros fuel2 [|hash q] done m acc Hm Hf1 Hf2; cbn [length] in *.
  - by destruct fuel2.
  - lia.
  - by destruct fuel2.
  - destruct fuel2 as [|fuel2]; [lia|]. cbn [support_loop]. case_bool_decide as Hd; [apply IH; [done|lia|lia]|].
    destruct (find_support s w hash m) as [found m'] eqn:Ef. destruct (find_support_ok hash m found m' Hm Ef) as [Hm' Hfound].
    assert (size (known ∖ ({[hash]} ∪ done)) <= size (known ∖ done))%nat as Hsz.
    { apply subseteq_size. intros x [Hx Hn]%elem_of_difference. apply elem_of_difference. split; [exact Hx|]. intros Hx'. apply Hn, elem_of_union. by right. }
    destruct found as [t|]; [|apply IH; [done|nia|nia]].
    destruct (SetMerkleBranch s ReadBlock None t) as [[n t']|] eqn:Eb; [|split; [done|intros _; by exists t]]. cbn [mbind option_bind].
    destruct (Hfound t eq_refl) as [Hsrc Hk]. apply SetMerkleBranch_tx in Eb. pose proof (width_bound t Hsrc) as Hw. rewrite <- Eb in Hw.
    assert (S (size (known ∖ ({[hash]} ∪ done))) <= size (known ∖ done))%nat as Hlt.
    { assert (known ∖ done = {[hash]} ∪ (known ∖ ({[hash]} ∪ done))) as E.
      { apply set_eq. intros x. rewrite elem_of_union, !elem_of_difference, elem_of_union, elem_of_singleton.
        destruct (decide (x = hash)) as [->|]; naive_solver. }
      rewrite E, size_add_one; [lia|]. intros [_ Hn]%elem_of_difference. apply Hn, elem_of_union. left. by apply elem_of_singleton. }
    assert (length (if (n <? COPY_DEPTH)%Z then map (fun txin => o_hash (prevout txin)) (vin (m_tx t')) else []) <= width)%nat as Hmore
      by (destruct (n <? COPY_DEPTH); [by rewrite length_map|simpl; lia]).
    apply IH; [done|rewrite length_app; nia|rewrite length_app; nia].
Qed.

Definition support_bound (t : CMerkleTx) : nat := (length (vin (m_tx t)) + size known * width)%nat.

Lemma AddSupporting_enough ReadBlock fuel t : (support_bound (w_merkle t) <= fuel)%nat ->
  AddSupportingTransactions s ReadBlock fuel w t = AddSupportingTransactions s ReadBlock (support_bound (w_merkle t)) w t /\
  (AddSupportingTransactions s ReadBlock fuel w t = None -> branch_error ReadBlock).
Proof.
  intros Hf. unfold AddSupportingTransactions.
  destruct (SetMerkleBranch s ReadBlock None (w_merkle t)) as [[n m]|] eqn:Eb; [|split; [done|intros _; by exists (w_merkle t)]].
  cbn [mbind option_bind]. apply SetMerkleBranch_tx in Eb. destruct (n <? COPY_DEPTH); [|done].
  unfold support_bound in *. rewrite <- Eb in *. set (q := map _ (vin (m_tx m))). assert (length q = length (vin (m_tx m))) as Eq by apply length_map.
  assert (support_cost q ∅ = length (vin (m_tx m)) + size known * width)%nat as Ec by (unfold support_cost; rewrite Eq, difference_empty_L; done).
  destruct (support_loop_enough ReadBlock fuel (length (vin (m_tx m)) + size known * width) q ∅ ∅ []) as [<- Hn];
    [intros ? ? ?%lookup_empty_Some; done|lia|lia|]. split; [done|]. destruct (support_loop _ _ fuel _ _ _ _ _); [done|by intros _; apply Hn].
Qed.

Lemma choose_lock_time_cache downloading nBest st st' : choose_lock_time downloading nBest st = Some st' -> pay_cache st' = pay_cache st.
Proof. unfold choose_lock_time. destruct (if _ =? 0 then _ else _) as [lock rand]. destruct (_ && _); [|done]. by intros [= <-]. Qed.

(** C7. A payment that [CreateTransaction] makes is valid and balances: its inputs spend
    distinct outputs that the wallet offers, each input's script verifies in the finished
    transaction under the standard flags, the outputs spent are worth the outputs and
    the fee, the outputs are those of the payees with at most one more for a
    positive change, the fee is what the size of the transaction asks for, and that size
    is below the standard limit. *)
Theorem CreateTransaction_pays fuel support_fuel ReadBlock downloading st fee st' t : wallet_ok -> sendable vecSend ->
  send_sum vecSend + max_fee <= MAX_MONEY -> cache_ok (pay_cache st) ->
  CreateTransaction w s fConfChange IsLocked trust_fuel keypool_arg nMin nTransactionFee coinControl vecSend nSplitBlock
    fuel support_fuel ReadBlock downloading st = Some (true, Some fee, st', Some t) ->
  w_tx t = pay_tx st' /\ exists ins, payment (pay_tx st') fee ins.
Proof.
  intros Hok Hsend Hmax Hc. unfold CreateTransaction. rewrite (send_total_ok _ Hsend). case_bool_decide; [done|].
  destruct (choose_lock_time _ _ st) as [st1|] eqn:El; [|done]. cbn [mbind option_bind]. apply choose_lock_time_cache in El.
  set (fee0 := if fSplitBlock w then _ else _). destruct (loop fuel _ fee0 st1) as [[[ok fee1] st2]|] eqn:Eloop; [|done]. cbn [mbind option_bind].
  destruct ok; [|done]. destruct (AddSupportingTransactions _ _ _ _ _) as [t1|] eqn:Ea; [|done]. cbn [mbind option_bind]. intros [= <- <- <-]. split.
  - revert Ea. unfold AddSupportingTransactions. destruct (SetMerkleBranch _ _ _ _) as [[n m]|] eqn:Eb; [|done]. cbn [mbind option_bind].
    apply SetMerkleBranch_tx in Eb. destruct (if n <? COPY_DEPTH then _ else _); [|done]. cbn [mbind option_bind]. by intros [= <-].
  - apply (create_loop_ok fuel (send_sum vecSend) fee0 st1 fee1 st2); try done; [|by rewrite El].
    assert (0 < rate) by (unfold rate, MIN_TX_FEE; lia). assert (nTransactionFee <= rate) by (unfold rate; lia). unfold fee0, max_fee.
    destruct (fSplitBlock w); [|lia]. change (Z.quot COIN 1000) with (COIN / 1000). assert (0 <= COIN / 1000) by (vm_compute; discriminate). lia.
Qed.

(** The step that raises an exception or fails an assertion, when the call returns nothing. *)
Definition create_error (ReadBlock : Z -> Z -> option CBlock) (downloading : bool) (st : PayState) : Prop :=
  choose_lock_time downloading (best_height s) st = None \/
  (exists nValue st1 fee st2, send_total vecSend = Some nValue /\ choose_lock_time downloading (best_height s) st = Some st1 /\
    fee_rounds nValue (if fSplitBlock w then Z.quot COIN 1000 else nTransactionFee) st1 fee st2 /\ round nValue fee st2 = None) \/
  branch_error ReadBlock.

(** C20. [CreateTransaction] ends: at most a hundred and one rounds raise the fee, and the
    supporting transactions are collected in a bounded number of rounds; more of
    either changes nothing, and when there is no result, it is because a step of the call
    failed. *)
Theorem CreateTransaction_terminates ReadBlock downloading st : exists n, forall fuel support_fuel, (101 <= fuel)%nat -> (n <= support_fuel)%nat ->
  let run fuel support_fuel := CreateTransaction w s fConfChange IsLocked trust_fuel keypool_arg nMin nTransactionFee coinControl vecSend nSplitBlock
    fuel support_fuel ReadBlock downloading st in
  run fuel support_fuel = run 101%nat n /\ (run fuel support_fuel = None -> create_error ReadBlock downloading st).
Proof.
  cbv zeta. unfold CreateTransaction, create_error. destruct (send_total vecSend) as [nValue|]; [|by exists 0%nat].
  destruct (choose_lock_time _ _ st) as [st1|]; [|exists 0%nat; intros; split; [done|by left]]. cbn [mbind option_bind].
  set (fee0 := if fSplitBlock w then _ else _). assert (rounds_left fee0 <= 100)%nat as Hr by (unfold rounds_left; lia).
  assert (forall fuel, (101 <= fuel)%nat -> loop fuel nValue fee0 st1 = loop 101 nValue fee0 st1) as Hloop.
  { intros fuel Hf. apply create_loop_enough; lia. }
  destruct (loop 101 nValue fee0 st1) as [[[ok fee1] st2]|] eqn:E; cycle 1.
  { exists 0%nat. intros fuel sf Hf _. rewrite Hloop by done. split; [done|]. intros _. right. left.
    apply create_loop_none in E as (fee & st2 & Hs & He); [|lia]. by exists nValue, st1, fee, st2. }
  set (t := mk_wallettx (mk_merkletx (pay_tx st2) 0 [] (-1)) [] []).
  exists (support_bound (w_merkle t)). intros fuel sf Hf Hsf. rewrite Hloop by done. cbn [mbind option_bind]. destruct ok; [|done]. fold t.
  destruct (AddSupporting_enough ReadBlock sf t Hsf) as [<- Hn]. split; [done|].
  destruct (AddSupportingTransactions s ReadBlock sf w t); [done|]. intros _. right. right. by apply Hn.
Qed.
End create.
