(* ===== verification/PaymentCheck.v ===== *)
(** * PaymentCheck: a small wallet on which the payment theorems are applied *)

From S2P Require Import Prelude BigNum ScriptOps Serialize Crypto Keys Core SigHash Interp InterpFacts Standard Spending Der Signing SigningFacts SigningCheck TxCheck Block Mempool Chain Connect BlockConnect BlockConnectFacts Activate ActivateExamples Wallet WalletFacts CoinSelect CoinSelectFacts KeyPool KeyPoolFacts Payment CreateTx CreateTxFacts.
From stdpp Require Import sorting.
Import BlockConnectExamples SpentFlags.
Open Scope Z_scope.

(** The order of [CompareValueOnly], from the greatest value. *)
Definition value_ge (a b : coin) : Prop := Z.le b.1 a.1.
#[export] Instance value_ge_dec a b : Decision (value_ge a b).
Proof. unfold value_ge. apply _. Defined.
Lemma value_ge_total : Total value_ge.
Proof. intros a b. unfold value_ge. lia. Qed.
Definition toy_draws : Draws := {|
  random_shuffle k l := if Nat.even k then l else reverse l;
  sort_by_value k := merge_sort value_ge;
  insecure_rand k j := Nat.odd (k + j)
|}.
Lemma toy_draws_ok : @DrawsOk toy_draws.
Proof.
  split; simpl.
  - intros k l. destruct (Nat.even k); [done|]. apply reverse_Permutation.
  - intros k l. apply merge_sort_Permutation.
  - intros k l. pose proof value_ge_total; apply (Sorted_merge_sort value_ge).
Qed.

#[local] Existing Instances ref_bn mixed_digests signing_ec toy_env toy_node toy_draws toy_draws_ok.

(** A transaction that pays three outputs of the wallet and one of somebody else, five
    blocks below the best block. *)
Definition wallet_key_script : bytes := Eval vm_compute in SetDestination (CKeyID (PubKey.GetID my_pk)).
Definition received : CTransaction :=
  mk_tx 1 1000 [mk_txin (mk_outpoint 5 0) [] 0]
    [mk_txout (3 * CENT) wallet_key_script; mk_txout (9 * CENT) [B#OP_1]; mk_txout (20 * CENT) wallet_key_script;
     mk_txout (4 * CENT) wallet_key_script; mk_txout (2 * CENT) wallet_key_script] 0.
Definition received_hash : Z := Eval vm_compute in Tx.GetHash received.
Definition wallet_store : CBasicKeyStore := mk_store {[ PubKey.GetID my_pk := my_key ]} ∅.
Definition toy_wallet : CWallet :=
  mk_wallet wallet_store {[ received_hash := mk_wallettx (mk_merkletx received 100 [] 0) [] [false; false; false; false; true] ]} [] false.

Definition wallet_block (hash : Z) (next : option Z) (height root : Z) : CBlockIndex :=
  mk_index hash next 1 0 10 height 0 0 0 0 OutPoint.null 0 0 7 root 1000 0x1d00ffff 0.
Definition wallet_chain : ChainState :=
  mk_chain (list_to_map [(100, (wallet_block 100 (Some 105) 10 received_hash, None)); (105, (wallet_block 105 None 15 0, Some 100))])
    (Some 100) (Some 105) 105 15 20 0 ∅ (mk_txdb ∅ ∅ (Some 105) None) Pool.empty_pool empty_cache.

Example offered : AvailableCoins wallet_chain true 0 CENT toy_wallet true None =
  Some [mk_output received_hash 0 6; mk_output received_hash 2 6; mk_output received_hash 3 6].
Proof. vm_compute. reflexivity. Qed.
Example selected : (fun r => (r.1, elements r.2.1, r.2.2)) <$> SelectCoins toy_wallet wallet_chain true 0 CENT (6 * CENT) 2000 0 None =
  Some (true, [(received_hash, 0); (received_hash, 3)], 7 * CENT).
Proof. vm_compute. reflexivity. Qed.

(** ** The theorems at this wallet *)
Definition received_entry : CWalletTx := mk_wallettx (mk_merkletx received 100 [] 0) [] [false; false; false; false; true].
Lemma toy_entry hash t : mapWallet toy_wallet !! hash = Some t -> t = received_entry.
Proof.
  change (mapWallet toy_wallet) with ({[received_hash := received_entry]} : gmap Z CWalletTx). by intros [_ <-]%lookup_singleton_Some.
Qed.

Lemma toy_debits : debits_defined toy_wallet.
Proof. intros hash t ->%toy_entry. exists false. vm_compute. reflexivity. Qed.

Definition offered_coins : list COutput := [mk_output received_hash 0 6; mk_output received_hash 2 6; mk_output received_hash 3 6].
Lemma offered_values : omap (coin_of toy_wallet) offered_coins =
  [(3 * CENT, (received_hash, 0)); (20 * CENT, (received_hash, 2)); (4 * CENT, (received_hash, 3))].
Proof. vm_compute. reflexivity. Qed.

Lemma AvailableCoins_spec_witness : mk_output received_hash 2 6 ∈ offered_coins /\ mk_output received_hash 1 6 ∉ offered_coins /\
  GetDepthInMainChain wallet_chain (mk_merkletx received 100 [] 0) = Some 6.
Proof.
  split; [by vm_compute; repeat constructor|]. split; [unfold offered_coins; set_solver|].
  destruct (proj1 (AvailableCoins_spec toy_wallet CENT wallet_chain true 0 true None offered_coins offered (mk_output received_hash 2 6)))
    as (t & txout & Ht & _ & _ & _ & Hd & _).
  - unfold offered_coins. right. left.
  - apply toy_entry in Ht as ->. exact Hd.
Defined.


(** ** An unconfirmed payment out of the received coins *)
Definition payment : CTransaction :=
  mk_tx 1 2000 [mk_txin (mk_outpoint received_hash 3) [B#OP_1] 0] [mk_txout (3 * CENT) wallet_key_script] 0.
Definition payment_hash : Z := Eval vm_compute in Tx.GetHash payment.
Definition received_merkle : CMerkleTx := mk_merkletx received 100 [] 0.
Definition payment_entry (spent : list bool) : CWalletTx :=
  mk_wallettx (mk_merkletx payment 0 [] (-1)) [received_merkle] spent.
Definition pending_chain : ChainState :=
  mk_chain (mapBlockIndex wallet_chain) (Some 100) (Some 105) 105 15 20 0 ∅ (mk_txdb ∅ ∅ (Some 105) None)
    (Pool.addUnchecked payment_hash payment Pool.empty_pool) empty_cache.

Definition toy_rank (h : Z) : nat := if h =? payment_hash then 1%nat else 0%nat.

Lemma payment_prev hash p : supporting (payment_entry []) !! hash = Some p -> hash = received_hash /\ p = received_merkle.
Proof.
  unfold supporting. cbn [payment_entry vtxPrev map reverse rev_append list_to_map foldr uncurry].
  intros [[<- <-]|[_ Hp]]%lookup_insert_Some; [split; [by vm_compute|done]|by rewrite lookup_empty in Hp].
Qed.

Lemma payment_supported t : t = received_merkle \/ t = w_merkle (payment_entry []) ->
  supported pending_chain toy_wallet toy_rank 1 (supporting (payment_entry [])) t.
Proof.
  intros Ht. split.
  - intros txin prev Hin [Hh ->]%payment_prev. destruct Ht as [-> | ->]; [|vm_compute; lia].
    apply list_elem_of_singleton in Hin as ->. vm_compute in Hh. discriminate Hh.
  - destruct Ht as [-> | ->]; vm_compute; lia.
  - destruct Ht as [-> | ->]; eexists; vm_compute; reflexivity.
  - destruct Ht as [-> | ->]; eexists; vm_compute; reflexivity.
Qed.

Lemma IsTrusted_terminates_witness : IsTrusted pending_chain false 2 toy_wallet (payment_entry []) = Some true /\
  exists b, forall fuel, (2 <= fuel)%nat -> IsTrusted pending_chain false fuel toy_wallet (payment_entry []) = Some b.
Proof.
  split; [vm_compute; reflexivity|].
  destruct (IsTrusted_terminates pending_chain false toy_wallet toy_rank 1 (payment_entry [])) as [b Hb].
  - apply payment_supported. right. reflexivity.
  - intros hash p [_ ->]%payment_prev. apply payment_supported. left. reflexivity.
  - exists b. intros fuel Hf. apply Hb. transitivity 2%nat; [vm_compute; lia|exact Hf].
Defined.

(** ** Spent outputs that become unspent

    The payment's output is spent by another transaction of the wallet.  When the
    payment is seen in a block, [WalletUpdateSpent] marks that output as unspent again. *)
Definition spent_wallet : CWallet :=
  mk_wallet wallet_store (<[payment_hash := payment_entry [true]]> (mapWallet toy_wallet)) [] false.
Example forgets_spent :
  (t ← mapWallet spent_wallet !! payment_hash; IsSpent 0 t) = Some true /\ (w ← WalletUpdateSpent wallet_chain spent_wallet payment true; t ← mapWallet w !! payment_hash; IsSpent 0 t) = Some false.
Proof. split; vm_compute; reflexivity. Qed.

(** ** A payment of five cents *)
Definition pay_draws : PayDraws := {| rand_int n nMax := Z.of_nat n mod nMax; set_order := elements |}.
Lemma pay_draws_ok : @PayDrawsOk pay_draws.
Proof. split; [|done]. intros n nMax Hn. apply Z.mod_pos_bound. exact Hn. Qed.
#[local] Existing Instances counting_draws pay_draws pay_draws_ok.

Definition wallet_keys : WalletKeys :=
  mk_keys wallet_store ∅ 1 FEATURE_COMPRPUBKEY FEATURE_LATEST PubKey.Invalidate ∅ ∅ 0.
Definition unpaid : PayState :=
  mk_pay (mk_tx 1 2000 [] [] 0) wallet_keys new_reserve empty_cache 0 1.
Definition five_cents : list (bytes * Z) := [([B#OP_1], 5 * CENT)].
Definition paid (fuel support_fuel : nat) : option (bool * option Z * PayState * option CWalletTx) :=
  CreateTransaction toy_wallet wallet_chain true false 0 1 CENT 10000 None five_cents 1 fuel support_fuel (fun _ _ => None) true unpaid.

Example paid_summary :
  (fun r => (r.1.1.1, r.1.1.2, map prevout (vin (pay_tx r.1.2)), map nValue (vout (pay_tx r.1.2)))) <$> paid 101 10 =
  Some (true, Some 10000, [mk_outpoint received_hash 0; mk_outpoint received_hash 3], [2 * CENT - 10000; 5 * CENT]).
Proof. vm_compute. reflexivity. Qed.

Lemma nonneg_values (l : list coin) : Forall (Z.le 0) (map fst l) -> nonneg l.
Proof. induction l as [|c l IH]; intros Hl; [constructor|]. apply Forall_cons in Hl as [? ?]. constructor; [done|by apply IH]. Qed.
Lemma sum_values (l : list coin) : sum_coins l = foldr Z.add 0 (map fst l).
Proof. induction l as [|c l IH]; [done|]. simpl. by rewrite IH. Qed.

Lemma toy_wallet_ok : wallet_ok toy_wallet.
Proof.
  assert (map fst (all_coins toy_wallet) = [3 * CENT; 9 * CENT; 20 * CENT; 4 * CENT; 2 * CENT]) as Ev by (vm_compute; reflexivity).
  split.
  - intros hash t Ht. pose proof Ht as Ht'. apply toy_entry in Ht as ->. split; [|vm_compute; discriminate].
    change (mapWallet toy_wallet) with ({[received_hash := received_entry]} : gmap Z CWalletTx) in Ht'.
    apply lookup_singleton_Some in Ht' as [<- _]. vm_compute. reflexivity.
  - apply nonneg_values. rewrite Ev. repeat constructor; vm_compute; discriminate.
  - rewrite sum_values, Ev. vm_compute. discriminate.
Qed.

Lemma CreateTransaction_pays_witness : exists st' t ins, paid 101 10 = Some (true, Some 10000, st', Some t) /\
  CreateTxFacts.payment toy_wallet wallet_chain true 0 CENT 10000 None five_cents 1 (pay_tx st') 10000 ins.
Proof.
  pose proof paid_summary as Hp. destruct (paid 101 10) as [[[[b f] st'] o]|] eqn:E; [|discriminate Hp]. injection Hp as -> -> _ _.
  destruct o as [t|].
  - destruct (CreateTransaction_pays toy_wallet wallet_chain true false 0 1 CENT 10000 None five_cents 1 ltac:(vm_compute; split; discriminate)
      101 10 (fun _ _ => None) true unpaid 10000 st' t) as (_ & ins & Hpay).
    + exact toy_wallet_ok.
    + split; [repeat constructor; vm_compute; discriminate|vm_compute; discriminate].
    + vm_compute. discriminate.
    + apply empty_cache_ok.
    + exact E.
    + exists st', t, ins. split; [reflexivity|exact Hpay].
  - exfalso. revert E. unfold paid, CreateTransaction. destruct (send_total _); [|discriminate]. destruct (choose_lock_time _ _ _); [|discriminate].
    cbn [mbind option_bind]. destruct (create_loop _ _ _ _ _ _ _ _ _ _ _ _ _ _ _) as [[[[] ?] ?]|]; [|discriminate|discriminate]. cbn [mbind option_bind].
    destruct (AddSupportingTransactions _ _ _ _ _); discriminate.
Defined.

Lemma CreateTransaction_terminates_witness : exists n, forall fuel support_fuel, (101 <= fuel)%nat -> (n <= support_fuel)%nat ->
  paid fuel support_fuel = paid 101 n /\
  (paid fuel support_fuel = None -> create_error toy_wallet wallet_chain true false 0 1 CENT 10000 None five_cents 1 (fun _ _ => None) true unpaid).
Proof.
  unfold paid. refine (CreateTransaction_terminates toy_wallet wallet_chain true false 0 1 CENT 10000 None five_cents 1 _ (fun _ _ => None) true unpaid).
  vm_compute. split; discriminate.
Defined.
