(* ===== verification/SigOps.v ===== *)
(** * SigOps: how many signature operations a transaction can have (src/src/script.cpp, main.cpp)

    A byte of a script is worth at most twenty signature operations, so the 32-bit counts
    of a transaction that was received from the network do not wrap around. *)

From S2P Require Import Prelude BigNum ScriptOps Serialize Crypto Keys Core SigHash Interp Standard TxCheck.
Import Check CScript.
Open Scope Z_scope.

Lemma u32_le z : 0 <= z -> 0 <= u32 z <= z.
Proof. intros Hz. unfold u32. split; [by apply Z.mod_pos_bound|]. apply Z.mod_le; lia. Qed.

Lemma u32_small z : 0 <= z < 2 ^ 32 -> u32 z = z.
Proof. intros Hz. unfold u32. by apply Z.mod_small. Qed.

Lemma sigop_weight_bound acc last op : 0 <= sigop_weight acc last op <= 20.
Proof.
  unfold sigop_weight, DecodeOP_N. destruct (_ || _); [lia|]. destruct (_ || _); [|lia].
  destruct acc; cbn [andb]; [|lia]. destruct (Z.leb_spec OP_1 last), (Z.leb_spec last OP_16); cbn [andb]; try lia.
  destruct (Z.eqb_spec last OP_0); [simpl; lia|]. change OP_1 with 81 in *. change OP_16 with 96 in *. simpl. lia.
Qed.

Lemma GetSigOpCount_bound acc s : 0 <= GetSigOpCount acc s <= 20 * zlen s.
Proof.
  unfold GetSigOpCount.
  apply (run_walk_ind _ _ _ (fun st pc r => 0 <= st.1 -> 0 <= r <= st.1 + 20 * zlen pc)) with (st := (0, OP_INVALIDOPCODE)); [..|done].
  - intros [n op] Hn. cbn [fst] in *. change (zlen []) with 0. lia.
  - intros [n op] pc _ _ Hn. cbn [fst] in *. pose proof (zlen_nonneg pc). lia.
  - by intros [n op].
  - intros [n op] pc op' v pc' st' r Eg [= <-] IH Hn. cbn [fst] in *. apply GetOp_shrinks in Eg.
    pose proof (sigop_weight_bound acc op op'). destruct (u32_le (n + sigop_weight acc op op')) as [Hlo Hhi]; [lia|].
    specialize (IH Hlo). unfold zlen in *. lia.
Qed.

Lemma last_push_short s : match last_push s with Some data => zlen data <= zlen s | None => True end.
Proof.
  unfold last_push.
  apply (run_walk_ind _ _ _ (fun st pc r => forall B, zlen st <= B -> zlen pc <= B -> match r with Some d => zlen d <= B | None => True end))
    with (st := []) (B := zlen s); [..|apply zlen_nonneg|done].
  - done.
  - done.
  - intros st pc op v pc' r _ Eb. destruct (_ <? _); [by injection Eb as <-|done].
  - intros st pc op v pc' st' r Eg Eb IH B _ Hpc. destruct (_ <? _); [done|]. injection Eb as <-.
    apply GetOp_shape in Eg as (h & _ & -> & _). rewrite !zlen_app in Hpc.
    pose proof (zlen_nonneg h). pose proof (zlen_nonneg v). pose proof (zlen_nonneg pc'). apply IH; lia.
Qed.

Lemma p2sh_count_bound pk sig : IsPayToScriptHash pk = true -> 0 <= GetSigOpCount_p2sh pk sig <= 20 * zlen sig.
Proof.
  intros Hp. unfold GetSigOpCount_p2sh. rewrite Hp. cbn [negb]. pose proof (last_push_short sig) as Hl. pose proof (zlen_nonneg sig).
  destruct (last_push sig) as [data|]; [|lia]. pose proof (GetSigOpCount_bound true data). lia.
Qed.

(** The bytes of the scripts of a transaction. *)
Definition input_bytes (l : list CTxIn) : Z := foldr (fun txin n => zlen (scriptSig txin) + n) 0 l.
Definition output_bytes (l : list CTxOut) : Z := foldr (fun txout n => zlen (scriptPubKey txout) + n) 0 l.
Definition script_bytes (t : CTransaction) : Z := input_bytes (vin t) + output_bytes (vout t).

Lemma input_bytes_nonneg l : 0 <= input_bytes l.
Proof. induction l as [|x l IH]; [done|]. simpl. pose proof (zlen_nonneg (scriptSig x)). lia. Qed.
Lemma output_bytes_nonneg l : 0 <= output_bytes l.
Proof. induction l as [|x l IH]; [done|]. simpl. pose proof (zlen_nonneg (scriptPubKey x)). lia. Qed.

Lemma legacy_bound t : 0 <= GetLegacySigOpCount t <= 20 * script_bytes t.
Proof.
  unfold GetLegacySigOpCount, script_bytes.
  assert (forall l n, 0 <= n -> 0 <= fold_left (fun n txin => u32 (n + GetSigOpCount false (scriptSig txin))) l n <= n + 20 * input_bytes l) as Hin.
  { induction l as [|x l IH]; intros n Hn; simpl; [lia|]. pose proof (GetSigOpCount_bound false (scriptSig x)).
    destruct (u32_le (n + GetSigOpCount false (scriptSig x))) as [Hlo Hhi]; [lia|]. specialize (IH _ Hlo). lia. }
  assert (forall l n, 0 <= n -> 0 <= fold_left (fun n txout => u32 (n + GetSigOpCount false (scriptPubKey txout))) l n <= n + 20 * output_bytes l) as Hout.
  { induction l as [|x l IH]; intros n Hn; simpl; [lia|]. pose proof (GetSigOpCount_bound false (scriptPubKey x)).
    destruct (u32_le (n + GetSigOpCount false (scriptPubKey x))) as [Hlo Hhi]; [lia|]. specialize (IH _ Hlo). lia. }
  specialize (Hin (vin t) 0 ltac:(lia)). cbv zeta. specialize (Hout (vout t) _ (proj1 Hin)). lia.
Qed.

Lemma p2sh_bound t inputs n : GetP2SHSigOpCount t inputs = Some n -> 0 <= n <= 20 * script_bytes t.
Proof.
  unfold GetP2SHSigOpCount, script_bytes. pose proof (input_bytes_nonneg (vin t)). pose proof (output_bytes_nonneg (vout t)).
  destruct (Tx.IsCoinBase t); [intros [= <-]; lia|].
  assert (forall l z, 0 <= z -> p2sh_sigops inputs z l = Some n -> 0 <= n <= z + 20 * input_bytes l) as Hl.
  { induction l as [|x l IH]; intros z Hz; cbn [p2sh_sigops]; [intros [= <-]; simpl; lia|].
    destruct (GetOutputFor x inputs) as [o|]; [|done]. cbn [mbind option_bind input_bytes foldr]. fold (input_bytes l).
    pose proof (zlen_nonneg (scriptSig x)). destruct (IsPayToScriptHash (scriptPubKey o)) eqn:Ep.
    - pose proof (p2sh_count_bound (scriptPubKey o) (scriptSig x) Ep).
      destruct (u32_le (z + GetSigOpCount_p2sh (scriptPubKey o) (scriptSig x))) as [Hlo Hhi]; [lia|].
      intros En. specialize (IH _ Hlo En). lia.
    - intros En. specialize (IH _ Hz En). lia. }
  intros En. specialize (Hl _ 0 ltac:(lia) En). lia.
Qed.
