(* ===== verification/Mining.v ===== *)
(** * Mining: block templates (src/src/miner.cpp)

    [CreateNewBlock] and what it is made of: the fee rates of the transactions of the
    pool, the queue of those that can be added, the transactions that wait for others of
    the pool, and the loop that adds them.  A [double] is an IEEE number of [SpecFloat].  A
    pointer to a transaction of the pool is its key, and a [COrphan*] is the number of its
    allocation, so that one that was freed points nowhere.  [Crash] and [None] are an
    exception, a failed assertion or a bad access; [Fail] is a [continue] of the loop.  The
    entries that a refused transaction leaves in the signature cache are dropped. *)

From S2P Require Import Prelude BigNum ScriptOps Serialize Crypto Keys Core SigHash Interp Standard Signing TxCheck Block Mempool Chain Kernel Connect BlockCheck BlockConnect Wallet KeyPool Money.
From Stdlib Require Import Floats.SpecFloat.
From stdpp Require Import sorting.
Import Check Inputs.
Open Scope Z_scope.

(** ** Fee rates *)
Definition double_of (z : Z) : spec_float := binary_normalize 53 1024 z 0 false.
Definition double_div : spec_float -> spec_float -> spec_float := SFdiv 53 1024.

(** The fee per kilobyte. *)
Definition fee_rate (nFee nTxSize : Z) : spec_float := double_div (double_of nFee) (double_div (double_of nTxSize) (double_of 1000)).

(** [TxPriority] and [TxPriorityCompare]. *)
Abbreviation TxPriority := (spec_float * Z)%type.
Definition priority_lt (a b : TxPriority) : bool := SFltb a.1 b.1.

(** How the heap lies in memory, by the number of the operation: it decides between equals. *)
Class HeapLayout := { heap_layout : nat -> list TxPriority -> list TxPriority }.
Class HeapLayoutOk `{HeapLayout} : Prop := { heap_layout_doc n l : heap_layout n l ≡ₚ l }.

(** The first of the highest, and the others. *)
Fixpoint take_highest (l : list TxPriority) : option (TxPriority * list TxPriority) :=
  match l with
  | [] => None
  | x :: l =>
    match take_highest l with
    | None => Some (x, [])
    | Some (y, l) => Some (if priority_lt x y then (y, x :: l) else (x, y :: l))
    end
  end.

(** ** Transactions that wait *)
Record COrphan := mk_orphan { ptx : Z; setDependsOn : gset Z; dFeePerKb : spec_float }.

(** The list of the orphans with the number of the next one, who waits for a transaction, and
    the queue. *)
Record Gathered := mk_gathered {
  vOrphan : gmap nat COrphan;
  next_orphan : nat;
  mapDependers : gmap Z (list nat);
  vecPriority : list TxPriority
}.

Definition hash_le (a b : Z * CTransaction) : Prop := a.1 <= b.1.
#[export] Instance hash_le_dec a b : Decision (hash_le a b).
Proof. unfold hash_le. apply _. Defined.

Section mining.
Context `{BNLib} `{Digests} `{ECLib} `{SigEnv} `{NodeEnv} `{HeapLayout}.
Variable db : CTxDB.
(** [fDebug], [fProofOfStake] and the script every coinbase ends with. *)
Variables (fDebug fProofOfStake : bool) (COINBASE_FLAGS : bytes) (bnProofOfStakeLimit : Z).
(** The options [-blockmaxsize], [-blockminsize] and [-mintxfee]. *)
Variables (blockmaxsize blockminsize : option Z) (mintxfee : option bytes).

Definition nBlockMaxSize : Z := Z.max 1000 (Z.min (MAX_BLOCK_SIZE - 1000) (u32 (default (MAX_BLOCK_SIZE_GEN / 2) blockmaxsize))).
Definition nBlockMinSize : Z := Z.min nBlockMaxSize (u32 (default 0 blockminsize)).
Definition nMinTxFee : Z := match mintxfee with Some s => default MIN_TX_FEE (ParseMoney s) | None => MIN_TX_FEE end.

(** ** Gathering the pool *)
Definition new_orphan (key : Z) (g : Gathered) : nat * Gathered :=
  (next_orphan g, mk_gathered (<[next_orphan g := mk_orphan key ∅ (double_of 0)]> (vOrphan g)) (S (next_orphan g)) (mapDependers g) (vecPriority g)).
Definition free_orphan (p : nat) (g : Gathered) : Gathered :=
  mk_gathered (delete p (vOrphan g)) (next_orphan g) (mapDependers g) (vecPriority g).
Definition depend_on (hash : Z) (o : COrphan) : COrphan := mk_orphan (ptx o) ({[hash]} ∪ setDependsOn o) (dFeePerKb o).
Definition set_rate (rate : spec_float) (o : COrphan) : COrphan := mk_orphan (ptx o) (setDependsOn o) rate.
Definition wait_for (hash : Z) (p : nat) (g : Gathered) : Gathered :=
  mk_gathered (alter (depend_on hash) p (vOrphan g)) (next_orphan g)
    (<[hash := default [] (mapDependers g !! hash) ++ [p]]> (mapDependers g)) (vecPriority g).

(** The loop over the inputs: the orphan and the total, or [None] when an input is missing. *)
Fixpoint scan_inputs (key : Z) (l : list CTxIn) (porphan : option nat) (nTotalIn : Z) (g : Gathered) :
    option (option (option nat * Z) * Gathered) :=
  match l with
  | [] => Some (Some (porphan, nTotalIn), g)
  | txin :: l =>
    match StakeKernel.ReadFromDisk (tx_index db) ReadTx (prevout txin) with
    | Some (txPrev, _) =>
      txout ← at_ (vout txPrev) (o_n (prevout txin));
      scan_inputs key l porphan (i64 (nTotalIn + nValue txout)) g
    | None =>
      match mempool_txs !! o_hash (prevout txin) with
      | None => if fDebug then None else Some (None, match porphan with Some p => free_orphan p g | None => g end)
      | Some txPrev =>
        let '(p, g) := match porphan with Some p => (p, g) | None => new_orphan key g end in
        txout ← at_ (vout txPrev) (o_n (prevout txin));
        scan_inputs key l (Some p) (i64 (nTotalIn + nValue txout)) (wait_for (o_hash (prevout txin)) p g)
      end
    end
  end.

Definition gather_tx (nHeight key : Z) (tx : CTransaction) (g : Gathered) : option Gathered :=
  if Tx.IsCoinBase tx || Tx.IsCoinStake tx || negb (IsFinalTx nBestHeight adjusted_time tx nHeight 0) then Some g else
  '(r, g) ← scan_inputs key (vin tx) None 0 g;
  match r with
  | None => Some g
  | Some (porphan, nTotalIn) =>
    nValueOut ← Tx.GetValueOut tx;
    let rate := fee_rate (i64 (nTotalIn - nValueOut)) (GetSerializeSize tx) in
    Some match porphan with
      | Some p => mk_gathered (alter (set_rate rate) p (vOrphan g)) (next_orphan g) (mapDependers g) (vecPriority g)
      | None => mk_gathered (vOrphan g) (next_orphan g) (mapDependers g) (vecPriority g ++ [(rate, key)])
      end
  end.

Fixpoint gather (nHeight : Z) (l : list (Z * CTransaction)) (g : Gathered) : option Gathered :=
  match l with
  | [] => Some g
  | (key, tx) :: l => g ← gather_tx nHeight key tx g; gather nHeight l g
  end.

(** The pool in the order of its hashes. *)
Definition pool_txs : list (Z * CTransaction) := merge_sort hash_le (map_to_list mempool_txs).

(** ** Collecting the transactions *)
Record Template := mk_template {
  tm_vtx : list CTransaction;
  tm_pool : gmap Z CTxIndex;
  nBlockSize : Z;
  nBlockTx : Z;
  nBlockSigOps : Z;
  tm_fees : Z;
  tm_cache : CSignatureCache
}.

(** A position that [FetchInputs] reads from the pool. *)
Definition pool_pos : CDiskTxPos := mk_pos 1 1 1.

(** One transaction: added, or [Fail] when it is passed over. *)
Definition add_tx (nCoinbaseTime : Z) (rate : spec_float) (tx : CTransaction) (m : Template) : outcome Template :=
  let nTxSize := GetSerializeSize tx in
  _ ← reject_if (nBlockMaxSize <=? u64 (nBlockSize m + nTxSize)) 0;
  let nTxSigOps := GetLegacySigOpCount tx in
  _ ← reject_if (MAX_BLOCK_SIGOPS <=? u32 (nBlockSigOps m + nTxSigOps)) 0;
  _ ← reject_if ((adjusted_time <? nTime tx) || (fProofOfStake && (nCoinbaseTime <? nTime tx))) 0;
  let nMinFee := GetMinFee (u32 (nBlockSize m)) GMF_BLOCK 0 in
  _ ← reject_if (SFltb rate (double_of nMinTxFee) && (nBlockMinSize <=? u64 (nBlockSize m + nTxSize))) 0;
  mapInputs ← (FetchInputs ReadTx (tx_index db) mempool_txs tx (tm_pool m) false true ∅).1;
  nValueIn ← access (GetValueIn tx mapInputs);
  nValueOut ← access (Tx.GetValueOut tx);
  let nTxFees := i64 (nValueIn - nValueOut) in
  _ ← reject_if (nTxFees <? nMinFee) 0;
  p2sh ← access (GetP2SHSigOpCount tx mapInputs);
  let nTxSigOps := u32 (nTxSigOps + p2sh) in
  _ ← reject_if (MAX_BLOCK_SIGOPS <=? u32 (nBlockSigOps m + nTxSigOps)) 0;
  '(pool, _, c) ← ConnectInputs nCoinbaseMaturity nBestHeight TotalBlocksEstimate tx mapInputs (tm_pool m) pool_pos pindexBest 0
    false true MANDATORY_SCRIPT_VERIFY_FLAGS (tm_cache m);
  Ok (mk_template (tm_vtx m ++ [tx]) (<[Tx.GetHash tx := TxIndex.of_pos pool_pos (length (vout tx))]> pool)
        (u64 (nBlockSize m + nTxSize)) (u64 (nBlockTx m + 1)) (swrap 32 (nBlockSigOps m + nTxSigOps)) (i64 (tm_fees m + nTxFees)) c).

(** The orphans that wait for a transaction; one that waits for nothing more is queued. *)
Fixpoint release (hash : Z) (l : list nat) (orphans : gmap nat COrphan) (queue : list TxPriority) :
    option (gmap nat COrphan * list TxPriority) :=
  match l with
  | [] => Some (orphans, queue)
  | p :: l =>
    o ← orphans !! p;
    if bool_decide (setDependsOn o = ∅) then release hash l orphans queue else
    let o := mk_orphan (ptx o) (setDependsOn o ∖ {[hash]}) (dFeePerKb o) in
    release hash l (<[p := o]> orphans) (if bool_decide (setDependsOn o = ∅) then queue ++ [(dFeePerKb o, ptx o)] else queue)
  end.

(** The loop over the queue; [n] numbers the operations on the heap. *)
Fixpoint collect (fuel n : nat) (nCoinbaseTime : Z) (deps : gmap Z (list nat)) (orphans : gmap nat COrphan) (queue : list TxPriority)
    (m : Template) : option Template :=
  match take_highest (heap_layout n queue) with
  | None => Some m
  | Some ((rate, key), queue) =>
    match fuel with
    | O => None
    | S fuel =>
      tx ← mempool_txs !! key;
      match add_tx nCoinbaseTime rate tx m with
      | Crash => None
      | Fail _ => collect fuel (S n) nCoinbaseTime deps orphans queue m
      | Ok m =>
        let hash := Tx.GetHash tx in
        '(orphans, queue) ← (match deps !! hash with Some l => release hash l orphans queue | None => Some (orphans, queue) end);
        collect fuel (S n) nCoinbaseTime deps orphans queue m
      end
    end
  end.

(** ** [CreateNewBlock] *)
(** A [CTransaction] with the input and the output of a coinbase. *)
Definition coinbase_tx (scriptSig : bytes) (txout : CTxOut) : CTransaction :=
  mk_tx Tx.CURRENT_VERSION (u32 adjusted_time) [mk_txin OutPoint.null scriptSig UINT_MAX] [txout] 0.

(** The block, the fees that [*pFees] gets, and [nLastBlockTx] and [nLastBlockSize]. *)
Record Mined := mk_mined { mined_block : CBlock; mined_fees : Z; nLastBlockTx : Z; nLastBlockSize : Z; mined_cache : CSignatureCache }.

(** The part after the coinbase is made. *)
Definition fill_block (fuel : nat) (prev : CBlockIndex) (coinbase : CTransaction) (c : CSignatureCache) : option Mined :=
  nBits ← Difficulty.GetNextTargetRequired ProofOfWorkLimit bnProofOfStakeLimit pindexBest fProofOfStake;
  g ← gather (swrap 32 (nHeight prev + 1)) pool_txs (mk_gathered ∅ 0 ∅ []);
  m ← collect fuel 0 (nTime coinbase) (mapDependers g) (vOrphan g) (vecPriority g) (mk_template [] ∅ 1000 0 100 0 c);
  let reward := Reward.GetProofOfWorkReward (nHeight prev) (tm_fees m) in
  let coinbase := if fProofOfStake then coinbase else
    mk_tx (nVersion coinbase) (nTime coinbase) (vin coinbase) (map (fun o => mk_txout reward (scriptPubKey o)) (vout coinbase)) (nLockTime coinbase) in
  let vtx := coinbase :: tm_vtx m in
  let max_time := Block.GetMaxTransactionTime (mk_block Block.CURRENT_VERSION 0 0 0 0 0 vtx [] []) in
  let nTime := u32 (Z.max (i64 (BlockIndex.GetPastTimeLimit prev + 1)) max_time) in
  let nTime := if fProofOfStake then nTime else u32 (Z.max nTime adjusted_time) in
  Some (mk_mined (mk_block Block.CURRENT_VERSION (phashBlock prev) 0 nTime nBits 0 vtx [] []) (tm_fees m) (nBlockTx m) (nBlockSize m) (tm_cache m)).

Context `{KeyDraws}.
Variables (keypool_arg : Z) (IsLocked : bool).

(** The block, or [None] when no key is left; the reserved key and the keys. *)
Definition CreateNewBlock (fuel : nat) (reservekey : CReserveKey) (keys : WalletKeys) (c : CSignatureCache) :
    option (option Mined * CReserveKey * WalletKeys) :=
  prev ← head pindexBest;
  if negb fProofOfStake then
    '(pubkey, rk, keys) ← GetReservedKey keypool_arg IsLocked reservekey keys;
    match pubkey with
    | None => Some (None, rk, keys)
    | Some pubkey =>
      m ← fill_block fuel prev (coinbase_tx [] (mk_txout (-1) (SetDestination (CKeyID (PubKey.GetID pubkey))))) c;
      Some (Some m, rk, keys)
    end
  else
    let scriptSig := CScript.push_int64 [] (swrap 32 (nHeight prev + 1)) ++ COINBASE_FLAGS in
    if 100 <? zlen scriptSig then None else
    m ← fill_block fuel prev (coinbase_tx scriptSig TxOut.SetEmpty) c;
    Some (Some m, reservekey, keys).

(** ** [IncrementExtraNonce] *)
(** The counter and the previous block that the function remembers. *)
Definition IncrementExtraNonce (b : CBlock) (prev : CBlockIndex) (last_prev nExtraNonce : Z) : option (CBlock * Z * Z) :=
  let nExtraNonce := u32 ((if last_prev =? hashPrevBlock b then nExtraNonce else 0) + 1) in
  let scriptSig := CScript.push_data (CScript.push_uint64 [] (u32 (nHeight prev + 1))) (CBigNum.getvch nExtraNonce) ++ COINBASE_FLAGS in
  match vtx b with
  | [] => None
  | coinbase :: rest =>
    match vin coinbase with
    | [] => None
    | txin :: vins =>
      if 100 <? zlen scriptSig then None else
      let coinbase := mk_tx (nVersion coinbase) (nTime coinbase) (mk_txin (prevout txin) scriptSig (nSequence txin) :: vins) (vout coinbase) (nLockTime coinbase) in
      let vtx := coinbase :: rest in
      let '(root, tree) := Merkle.BuildMerkleTree (map Tx.GetHash vtx) in
      Some (mk_block (b_nVersion b) (hashPrevBlock b) root (b_nTime b) (nBits b) (nNonce b) vtx (vchBlockSig b) tree,
            hashPrevBlock b, nExtraNonce)
    end
  end.
End mining.
