(* ===== verification/MiningFacts.v ===== *)
(** * MiningFacts: the queue of a block template (src/src/miner.cpp)

    Every transaction of the pool is queued or waits at most once, whatever the order of the
    heap; a transaction that is released leaves the waiting ones.  So the loop ends and
    adds each transaction at most once. *)

From S2P Require Import Prelude BigNum ScriptOps Serialize Crypto Keys Core SigHash Interp Standard TxCheck Block Mempool Chain Kernel Connect BlockCheck BlockConnect Mining.
From stdpp Require Import sorting.
Import Check Inputs.
Open Scope Z_scope.

Lemma submseteq_NoDup {A} (l k : list A) : l ⊆+ k -> NoDup k -> NoDup l.
Proof. intros (l' & E)%submseteq_Permutation. rewrite E. by intros [? _]%NoDup_app. Qed.

(** ** The queue *)
Lemma take_highest_perm l x l' : take_highest l = Some (x, l') -> l ≡ₚ x :: l'.
Proof.
  revert x l'. induction l as [|y l IH]; intros x l'; [done|]. cbn [take_highest]. destruct (take_highest l) as [[z l1]|] eqn:E.
  - rewrite (IH z l1 eq_refl). destruct (priority_lt y z); intros [= <- <-]; [apply Permutation_swap|done].
  - destruct l; [by intros [= <- <-]|]. simpl in E. destruct (take_highest l) as [[? ?]|]; [|done]. by destruct (priority_lt _ _).
Qed.

Lemma take_highest_none l : take_highest l = None -> l = [].
Proof.
  destruct l as [|x l]; [done|]. cbn [take_highest]. destruct (take_highest l) as [[? ?]|]; [|done]. by destruct (priority_lt _ _).
Qed.

(** ** Those who wait *)
Definition orphan_keys (m : gmap nat COrphan) : list Z := map snd (map_to_list (ptx <$> m)).
Definition own_key (o : COrphan) : list Z := if bool_decide (setDependsOn o = ∅) then [] else [ptx o].
Definition waiting (m : gmap nat COrphan) : list Z := flat_map (fun e => own_key e.2) (map_to_list m).

#[export] Instance waiting_perm : Proper ((≡ₚ) ==> (≡ₚ)) (flat_map (fun e : nat * COrphan => own_key e.2)).
Proof. intros l l' Hl. by rewrite Hl. Qed.

Lemma waiting_lookup m p o : m !! p = Some o -> waiting m ≡ₚ own_key o ++ waiting (delete p m).
Proof. intros Ep. unfold waiting. by rewrite <- (map_to_list_delete m p o Ep). Qed.

Lemma waiting_insert m p o : waiting (<[p := o]> m) ≡ₚ own_key o ++ waiting (delete p m).
Proof. rewrite (waiting_lookup _ p o) by apply lookup_insert_eq. by rewrite delete_insert_eq. Qed.

Lemma orphan_keys_insert m p o : m !! p = None -> orphan_keys (<[p := o]> m) ≡ₚ ptx o :: orphan_keys m.
Proof.
  intros Hp. unfold orphan_keys. rewrite fmap_insert. rewrite map_to_list_insert; [done|]. by rewrite lookup_fmap, Hp.
Qed.

Lemma orphan_keys_waiting m : waiting m ⊆+ orphan_keys m.
Proof.
  unfold orphan_keys, waiting. rewrite map_to_list_fmap. induction (map_to_list m) as [|[p o] l IH]; [done|]. simpl.
  unfold own_key at 1. case_bool_decide; simpl; [by apply submseteq_cons|by apply submseteq_skip].
Qed.

Lemma release_keys hash l orphans queue orphans' queue' : release hash l orphans queue = Some (orphans', queue') ->
  map snd queue' ++ waiting orphans' ≡ₚ map snd queue ++ waiting orphans.
Proof.
  revert orphans queue. induction l as [|p l IH]; intros orphans queue; cbn [release]; [by intros [= <- <-]|].
  destruct (orphans !! p) as [o|] eqn:Ep; [|done]. cbn [mbind option_bind]. case_bool_decide as He; [apply IH|]. cbn [ptx setDependsOn dFeePerKb].
  intros ->%IH. rewrite waiting_insert, (waiting_lookup _ _ _ Ep). unfold own_key. cbn [ptx setDependsOn]. rewrite (bool_decide_false _ He).
  case_bool_decide; [|done]. rewrite map_app, <- app_assoc. done.
Qed.

(** ** The loop *)
Section collect.
Context `{BNLib} `{Digests} `{ECLib} `{SigEnv} `{NodeEnv} `{HeapLayout} `{!HeapLayoutOk}.
Variable db : CTxDB.
Variables (fDebug fProofOfStake : bool) (blockmaxsize blockminsize : option Z) (mintxfee : option bytes).

Local Abbreviation add := (add_tx db fProofOfStake blockmaxsize blockminsize mintxfee).
Local Abbreviation loop := (collect db fProofOfStake blockmaxsize blockminsize mintxfee).

(** The transactions that were added, in order. *)
Inductive adds (nCoinbaseTime : Z) : Template -> list CTransaction -> Template -> Prop :=
| adds_nil m : adds nCoinbaseTime m [] m
| adds_cons m rate t m1 l m2 : add nCoinbaseTime rate t m = Ok m1 -> adds nCoinbaseTime m1 l m2 -> adds nCoinbaseTime m (t :: l) m2.

(** What is left to take: the rounds that remain, and the keys that can still be added. *)
Definition left_over (orphans : gmap nat COrphan) (queue : list TxPriority) : list Z := map snd queue ++ waiting orphans.

Lemma left_over_take n orphans queue rate key queue1 : take_highest (heap_layout n queue) = Some ((rate, key), queue1) ->
  left_over orphans queue ≡ₚ key :: left_over orphans queue1.
Proof. intros Et%take_highest_perm. unfold left_over. by rewrite <- (heap_layout_doc n queue), Et. Qed.

Lemma release_left (deps : gmap Z (list nat)) hash orphans queue orphans' queue' :
  match deps !! hash with Some l => release hash l orphans queue | None => Some (orphans, queue) end = Some (orphans', queue') ->
  left_over orphans' queue' ≡ₚ left_over orphans queue.
Proof. unfold left_over. destruct (deps !! hash); [apply release_keys|by intros [= <- <-]]. Qed.

Lemma collect_adds fuel n ct deps orphans queue m m' : loop fuel n ct deps orphans queue m = Some m' ->
  exists keys l, adds ct m l m' /\ Forall2 (fun key t => mempool_txs !! key = Some t) keys l /\ keys ⊆+ left_over orphans queue.
Proof.
  revert n orphans queue m. induction fuel as [|fuel IH]; intros n orphans queue m; cbn [collect];
    destruct (take_highest _) as [[[rate key] queue1]|] eqn:Et; try done.
  1, 3: intros [= <-]; exists [], []; (split; [constructor|]; split; [constructor|apply submseteq_nil_l]).
  pose proof (left_over_take _ orphans _ _ _ _ Et) as Hl. destruct (mempool_txs !! key) as [tx|] eqn:Ek; [|done]. cbn [mbind option_bind].
  destruct (add ct rate tx m) as [m1|d|] eqn:Ea; [| |done].
  - match goal with |- (?o ≫= _) = _ -> _ => destruct o as [[orphans' queue']|] eqn:Er; [|done] end. cbn [mbind option_bind].
    apply release_left in Er. intros (keys & l & Ha & Hf & Hs)%IH. exists (key :: keys), (tx :: l).
    split; [by econstructor|]. split; [by constructor|]. rewrite Hl, <- Er. by apply submseteq_skip.
  - intros (keys & l & Ha & Hf & Hs)%IH. exists keys, l. split; [done|]. split; [done|]. rewrite Hl. by apply submseteq_cons.
Qed.

(** Each round takes a transaction for good. *)
Lemma collect_enough fuel1 fuel2 n ct deps orphans queue m :
  (length (left_over orphans queue) <= fuel1)%nat -> (length (left_over orphans queue) <= fuel2)%nat ->
  loop fuel1 n ct deps orphans queue m = loop fuel2 n ct deps orphans queue m.
Proof.
  revert fuel2 n orphans queue m. induction fuel1 as [|fuel1 IH]; intros fuel2 n orphans queue m Hf1 Hf2;
    destruct fuel2 as [|fuel2]; cbn [collect]; try done;
    destruct (take_highest _) as [[[rate key] queue1]|] eqn:Et; try done;
    apply (left_over_take _ orphans) in Et; rewrite Et in Hf1, Hf2; cbn [length] in *; [lia|lia|].
  destruct (mempool_txs !! key) as [tx|]; [|done]. cbn [mbind option_bind]. destruct (add ct rate tx m) as [m1|d|]; [|apply IH; lia|done].
  match goal with |- (?o ≫= _) = _ => destruct o as [[orphans' queue']|] eqn:Er; [|done] end. cbn [mbind option_bind].
  apply release_left in Er. apply IH; rewrite Er; lia.
Qed.
End collect.

(** ** Gathering the pool *)
Section gather.
Context `{BNLib} `{Digests} `{ECLib} `{SigEnv} `{NodeEnv}.
Variable db : CTxDB.
Variable fDebug : bool.
Variable nHeight : Z.

(** Every orphan has a number below the next one. *)
Definition fresh_numbers (g : Gathered) : Prop := forall p, is_Some (vOrphan g !! p) -> (p < next_orphan g)%nat.
(** The orphans but for the one of the transaction at hand. *)
Definition others (porphan : option nat) (m : gmap nat COrphan) : gmap nat COrphan :=
  match porphan with Some p => delete p m | None => m end.
Definition points (key : Z) (porphan : option nat) (m : gmap nat COrphan) : Prop :=
  match porphan with Some p => exists o, m !! p = Some o /\ ptx o = key | None => True end.

Lemma fresh_lt g p o : fresh_numbers g -> vOrphan g !! p = Some o -> (p < next_orphan g)%nat.
Proof. intros Hf Ep. apply Hf. by eexists. Qed.

Lemma wait_for_spec hash p g o : vOrphan g !! p = Some o -> fresh_numbers g ->
  fresh_numbers (wait_for hash p g) /\ vOrphan (wait_for hash p g) !! p = Some (depend_on hash o) /\
  delete p (vOrphan (wait_for hash p g)) = delete p (vOrphan g) /\ vecPriority (wait_for hash p g) = vecPriority g.
Proof.
  intros Ep Hf. cbn [wait_for vOrphan next_orphan vecPriority]. split; [|split; [by rewrite lookup_alter_eq, Ep|split; [|done]]].
  - intros q Hq. cbn [wait_for vOrphan next_orphan] in *. apply Hf. by apply lookup_alter_is_Some in Hq.
  - apply map_eq. intros q. destruct (decide (p = q)) as [<-|]; [by rewrite !lookup_delete_eq|].
    by rewrite !lookup_delete_ne, lookup_alter_ne.
Qed.

Lemma new_orphan_spec key g : fresh_numbers g -> let '(p, g') := new_orphan key g in
  fresh_numbers g' /\ points key (Some p) (vOrphan g') /\ delete p (vOrphan g') = vOrphan g /\ vecPriority g' = vecPriority g.
Proof.
  intros Hf. cbn [new_orphan points vOrphan vecPriority]. assert (vOrphan g !! next_orphan g = None) as Hn.
  { destruct (vOrphan g !! next_orphan g) as [o|] eqn:Eo; [|done]. apply fresh_lt in Eo; [lia|done]. }
  split; [|split; [|split; [|done]]].
  - intros p. cbn [vOrphan next_orphan]. intros [o [[<- _]|[_ Eo]]%lookup_insert_Some]; [lia|]. apply fresh_lt in Eo; [lia|done].
  - exists (mk_orphan key ∅ (double_of 0)). by rewrite lookup_insert_eq.
  - by rewrite delete_insert_id.
Qed.

Lemma scan_inputs_spec key l porphan total g r g' : fresh_numbers g -> points key porphan (vOrphan g) ->
  scan_inputs db fDebug key l porphan total g = Some (r, g') ->
  fresh_numbers g' /\ vecPriority g' = vecPriority g /\
  match r with
  | None => vOrphan g' = others porphan (vOrphan g)
  | Some (porphan', _) => others porphan' (vOrphan g') = others porphan (vOrphan g) /\ points key porphan' (vOrphan g')
  end.
Proof.
  revert porphan total g. induction l as [|txin l IH]; intros porphan total g Hf Hp; cbn [scan_inputs]; [by intros [= <- <-]|].
  destruct (StakeKernel.ReadFromDisk _ _ _) as [[txPrev ti]|].
  { destruct (at_ _ _); [|done]. cbn [mbind option_bind]. by apply IH. }
  destruct (mempool_txs !! _) as [txPrev|]; cycle 1.
  { destruct fDebug; [done|]. intros [= <- <-]. destruct porphan as [p|]; [|done]. split; [|done].
    intros q Hq. cbn [free_orphan vOrphan next_orphan] in *. apply Hf. destruct Hq as [o [_ Eo]%lookup_delete_Some]. by eexists. }
  assert (exists p g1, (match porphan with Some p => (p, g) | None => new_orphan key g end) = (p, g1) /\ fresh_numbers g1 /\ points key (Some p) (vOrphan g1) /\
    delete p (vOrphan g1) = others porphan (vOrphan g) /\ vecPriority g1 = vecPriority g) as (p & g1 & -> & Hf1 & Hp1 & Hd & Hv).
  { destruct porphan as [p|]; [by exists p, g|]. pose proof (new_orphan_spec key g Hf) as Hn. destruct (new_orphan key g) as [p g1]. by exists p, g1. }
  destruct (at_ _ _); [|done]. cbn [mbind option_bind]. destruct Hp1 as (o & Eo & Ek).
  destruct (wait_for_spec (o_hash (prevout txin)) p g1 o Eo Hf1) as (Hf2 & Eo2 & Hd2 & Hv2). intros E.
  apply IH in E; [|done|by exists (depend_on (o_hash (prevout txin)) o)]. rewrite Hv2, Hv in E. cbn [others] in E. by rewrite Hd2, Hd in E.
Qed.

(** The keys that are queued or wait. *)
Definition gathered_keys (g : Gathered) : list Z := map snd (vecPriority g) ++ orphan_keys (vOrphan g).
Definition candidate (tx : CTransaction) : bool :=
  negb (Tx.IsCoinBase tx || Tx.IsCoinStake tx || negb (IsFinalTx nBestHeight adjusted_time tx nHeight 0)).

Lemma alter_is_insert (f : COrphan -> COrphan) (m : gmap nat COrphan) p o : m !! p = Some o -> alter f p m = <[p := f o]> m.
Proof.
  intros Ep. apply map_eq. intros q. destruct (decide (p = q)) as [<-|]; [by rewrite lookup_alter_eq, lookup_insert_eq, Ep|].
  by rewrite lookup_alter_ne, lookup_insert_ne.
Qed.

Lemma points_insert key p g o' : (exists o, vOrphan g !! p = Some o /\ ptx o = key) -> ptx o' = key ->
  orphan_keys (<[p := o']> (vOrphan g)) ≡ₚ key :: orphan_keys (delete p (vOrphan g)).
Proof. intros (o & Eo & Ek) <-. rewrite <- (insert_delete_eq (vOrphan g) p o'). apply orphan_keys_insert, lookup_delete_eq. Qed.

Lemma gather_tx_keys key tx g g' : fresh_numbers g -> gather_tx db fDebug nHeight key tx g = Some g' ->
  fresh_numbers g' /\ (gathered_keys g' ≡ₚ gathered_keys g \/ candidate tx = true /\ gathered_keys g' ≡ₚ key :: gathered_keys g).
Proof.
  intros Hf. unfold gather_tx, candidate. destruct (_ || _); [intros [= <-]; auto|].
  destruct (scan_inputs _ _ _ _ _ _ _) as [[r g1]|] eqn:Es; [|done]. cbn [mbind option_bind].
  apply scan_inputs_spec in Es as (Hf1 & Hv & Hr); [|done|done]. destruct r as [[porphan total]|]; cycle 1.
  { intros [= <-]. split; [done|left]. unfold gathered_keys. by rewrite Hv, Hr. }
  destruct (Tx.GetValueOut tx) as [out|]; [|done]. cbn [mbind option_bind]. destruct Hr as [Ho Hp].
  destruct porphan as [p|]; intros [= <-]; (split; [|right; split; [done|]]); unfold gathered_keys; cbn [vecPriority vOrphan].
  - intros q Hq. cbn [vOrphan next_orphan] in *. apply Hf1. by apply lookup_alter_is_Some in Hq.
  - destruct Hp as (o & Eo & Ek). rewrite (alter_is_insert _ _ _ _ Eo).
    rewrite (points_insert key); [|by exists o|done]. cbn [others] in Ho. rewrite Ho, Hv. symmetry. apply Permutation_middle.
  - done.
  - cbn [others] in Ho. rewrite Ho, Hv, map_app, <- app_assoc. cbn [map snd app]. symmetry. apply Permutation_middle.
Qed.

Lemma gather_keys l g g' : fresh_numbers g -> gather db fDebug nHeight l g = Some g' ->
  gathered_keys g' ⊆+ map fst (filter (fun e => candidate e.2 = true) l) ++ gathered_keys g.
Proof.
  revert g. induction l as [|[key tx] l IH]; intros g Hf; cbn [gather]; [by intros [= <-]|].
  destruct (gather_tx _ _ _ _ _ _) as [g1|] eqn:Eg; [|done]. cbn [mbind option_bind]. intros E.
  apply gather_tx_keys in Eg as [Hf1 Hk]; [|done]. apply IH in E; [|done]. rewrite E. rewrite filter_cons. cbn [snd].
  destruct Hk as [Hk|[-> Hk]]; rewrite Hk.
  - apply submseteq_app; [|done]. destruct (decide _); [by apply submseteq_cons|done].
  - rewrite decide_True by done. cbn [map fst app]. by rewrite <- Permutation_middle.
Qed.
End gather.
