(* ===== verification/MiningReturns.v ===== *)
(** * MiningReturns: a block template is always made (src/src/miner.cpp)

    On a pool whose transactions all find their inputs, no orphan is freed while someone
    waits for it, no read is out of range and nothing is thrown, and the loop over the queue
    ends within one round for each transaction of the pool. *)

From S2P Require Import Prelude BigNum ScriptOps Serialize Crypto Keys Core SigHash Interp InterpFacts Standard TxCheck Block Mempool Chain Kernel Connect BlockCheck BlockConnect BlockConnectFacts SigOps KeyPool Mining MiningFacts.
From stdpp Require Import sorting.
Import Check Inputs ConnectFacts.
Open Scope Z_scope.

(** ** Pointers *)
(** Everyone who waits is an orphan. *)
Definition sound_pointers (deps : gmap Z (list nat)) (orphans : gmap nat COrphan) : Prop :=
  forall h l p, deps !! h = Some l -> p ∈ l -> is_Some (orphans !! p).

Lemma sound_more deps orphans orphans' : sound_pointers deps orphans -> (forall p, is_Some (orphans !! p) -> is_Some (orphans' !! p)) ->
  sound_pointers deps orphans'.
Proof. intros Hs Hd h l p El Hp. by eapply Hd, Hs. Qed.

Lemma sound_add deps orphans hash p : sound_pointers deps orphans -> is_Some (orphans !! p) ->
  sound_pointers (<[hash := default [] (deps !! hash) ++ [p]]> deps) orphans.
Proof.
  intros Hs Hp h l q [[<- <-]|[_ El]]%lookup_insert_Some Hq; [|by eapply Hs].
  apply elem_of_app in Hq as [Hq| ->%list_elem_of_singleton]; [|done].
  destruct (deps !! hash) as [l|] eqn:El; [by eapply Hs|by apply elem_of_nil in Hq].
Qed.

Lemma release_returns hash l orphans queue : (forall p, p ∈ l -> is_Some (orphans !! p)) ->
  exists orphans' queue', release hash l orphans queue = Some (orphans', queue') /\ forall p, is_Some (orphans !! p) -> is_Some (orphans' !! p).
Proof.
  revert orphans queue. induction l as [|p l IH]; intros orphans queue Hl; cbn [release]; [by eexists _, _|].
  destruct (Hl p ltac:(by left)) as [o ->]. cbn [mbind option_bind].
  assert (forall q, q ∈ l -> is_Some (orphans !! q)) as Hl' by (intros q Hq; apply Hl; by right).
  case_bool_decide; [by apply IH|].
  assert (forall o' q, is_Some (orphans !! q) -> is_Some (<[p := o']> orphans !! q)) as Hins by (intros o' q Hq; apply lookup_insert_is_Some'; by right).
  set (o' := mk_orphan _ _ _). set (queue' := if bool_decide (setDependsOn o' = ∅) then _ else _).
  destruct (IH (<[p := o']> orphans) queue') as (orphans2 & queue2 & E & Hd); [intros q Hq; by apply Hins, Hl'|].
  exists orphans2, queue2. split; [done|]. intros q Hq. by apply Hd, Hins.
Qed.

Section returns.
Context `{BNLib} `{Digests} `{ECLib} `{SigEnv} `{NodeEnv} `{HeapLayout} `{!HeapLayoutOk}.
Variable db : CTxDB.
Variables (fDebug fProofOfStake : bool) (blockmaxsize blockminsize : option Z) (mintxfee : option bytes).

(** An input whose output can be looked up, on disk or in the pool. *)
Definition input_known (txin : CTxIn) : Prop :=
  0 <= o_n (prevout txin) /\
  (is_Some (StakeKernel.ReadFromDisk (tx_index db) ReadTx (prevout txin)) \/
   exists tp, mempool_txs !! o_hash (prevout txin) = Some tp /\ o_n (prevout txin) < zlen (vout tp)).

(** The pool: every input is known, and the outputs can be added up and read. *)
Record pool_closed : Prop := {
  pc_inputs h t : mempool_txs !! h = Some t -> Tx.IsCoinBase t = false -> Forall input_known (vin t);
  pc_value h t : mempool_txs !! h = Some t -> is_Some (Tx.GetValueOut t) /\ Forall (fun o => 2 <= zlen (scriptPubKey o)) (vout t)
}.

Lemma at_is_Some {A} (l : list A) i : 0 <= i < zlen l -> is_Some (at_ l i).
Proof. intros Hi. unfold at_, zlen in *. destruct (Z.ltb_spec i 0); [lia|]. apply lookup_lt_is_Some_2. lia. Qed.

(** ** Gathering *)
Lemma scan_inputs_returns key l porphan total g : Forall input_known l -> fresh_numbers g -> points key porphan (vOrphan g) ->
  sound_pointers (mapDependers g) (vOrphan g) ->
  exists r g', scan_inputs db fDebug key l porphan total g = Some (Some r, g') /\ sound_pointers (mapDependers g') (vOrphan g').
Proof.
  intros Hl. revert porphan total g. induction Hl as [|txin l [Hn Hin] Hl IH]; intros porphan total g Hf Hp Hs; cbn [scan_inputs]; [by eexists _, _|].
  destruct (StakeKernel.ReadFromDisk _ _ _) as [[tp ti]|] eqn:Er.
  { assert (o_n (prevout txin) < zlen (vout tp)) as Hlt.
    { unfold StakeKernel.ReadFromDisk in Er. destruct (tx_index db !! _) as [ti'|]; [|done]. cbn [mbind option_bind] in Er.
      destruct (ReadTx _) as [tp'|]; [|done]. cbn [mbind option_bind] in Er. destruct (Z.leb_spec (zlen (vout tp')) (o_n (prevout txin))); [done|].
      by injection Er as <- _. }
    destruct (at_is_Some (vout tp) (o_n (prevout txin))) as [o ->]; [lia|]. cbn [mbind option_bind]. by apply IH. }
  destruct Hin as [[x Hx]|(tp & -> & Hlt)]; [done|]. cbv iota.
  assert (exists p g1, (match porphan with Some p => (p, g) | None => new_orphan key g end) = (p, g1) /\ fresh_numbers g1 /\ points key (Some p) (vOrphan g1) /\
    sound_pointers (mapDependers g1) (vOrphan g1)) as (p & g1 & -> & Hf1 & (o & Eo & Ek) & Hs1).
  { destruct porphan as [p|]; [by exists p, g|]. pose proof (new_orphan_spec key g Hf) as Hn'. destruct (new_orphan key g) as [p g1] eqn:Eg.
    exists p, g1. split; [done|]. destruct Hn' as (? & ? & Hd & _). split; [done|]. split; [done|].
    injection Eg as <- <-. cbn [mapDependers vOrphan]. eapply sound_more; [exact Hs|]. intros q Hq. apply lookup_insert_is_Some'. by right. }
  destruct (at_is_Some (vout tp) (o_n (prevout txin))) as [out ->]; [lia|]. cbn [mbind option_bind].
  destruct (wait_for_spec (o_hash (prevout txin)) p g1 o Eo Hf1) as (Hf2 & Eo2 & _ & _).
  apply IH; [done|by exists (depend_on (o_hash (prevout txin)) o)|]. cbn [wait_for mapDependers vOrphan].
  eapply sound_more; [|intros q Hq; by apply lookup_alter_is_Some]. apply sound_add; [done|by eexists].
Qed.

Lemma gather_tx_returns nHeight key tx g : pool_closed -> mempool_txs !! key = Some tx -> fresh_numbers g -> sound_pointers (mapDependers g) (vOrphan g) ->
  exists g', gather_tx db fDebug nHeight key tx g = Some g' /\ sound_pointers (mapDependers g') (vOrphan g').
Proof.
  intros [Hin Hv] Et Hf Hs. unfold gather_tx. destruct (Tx.IsCoinBase tx) eqn:Eb; cbn [orb]; [by eexists|].
  destruct (_ || _); [by eexists|]. destruct (scan_inputs_returns key (vin tx) None 0 g (Hin _ _ Et Eb) Hf I Hs) as ([porphan total] & g1 & -> & Hs1).
  cbn [mbind option_bind]. destruct (Hv _ _ Et) as [[out ->] _]. cbn [mbind option_bind]. eexists. split; [done|].
  destruct porphan as [p|]; [|done]. cbn [mapDependers vOrphan]. eapply sound_more; [exact Hs1|]. intros q Hq. by apply lookup_alter_is_Some.
Qed.

Lemma gather_returns nHeight l g : pool_closed -> Forall (fun e => mempool_txs !! e.1 = Some e.2) l -> fresh_numbers g -> sound_pointers (mapDependers g) (vOrphan g) ->
  exists g', gather db fDebug nHeight l g = Some g' /\ sound_pointers (mapDependers g') (vOrphan g').
Proof.
  intros Hc Hl. revert g. induction Hl as [|[key tx] l Et Hl IH]; intros g Hf Hs; cbn [gather]; [by eexists|].
  destruct (gather_tx_returns nHeight key tx g Hc Et Hf Hs) as (g1 & E & Hs1). rewrite E. cbn [mbind option_bind].
  apply gather_tx_keys in E as [Hf1 _]; [|done]. by apply IH.
Qed.

(** ** Adding a transaction *)
Lemma fetch_input_no_crash D txin m : fetch_input ReadTx (tx_index db) mempool_txs D false true txin m <> Crash.
Proof.
  unfold fetch_input. destruct (m !! _); [done|]. cbn [orb].
  destruct (D !! _) as [ti|]; [|destruct (tx_index db !! _) as [ti|]; [|done]]; by destruct (if decide _ then _ else _).
Qed.

Lemma fetch_loop_no_crash D l m : fetch_loop ReadTx (tx_index db) mempool_txs D false true l m <> Crash.
Proof.
  revert m. induction l as [|txin l IH]; intros m; cbn [fetch_loop]; [done|]. pose proof (fetch_input_no_crash D txin m).
  destruct (fetch_input _ _ _ _ _ _ _ _); [apply IH|done|done].
Qed.

Lemma fetch_loop_finds D l m m' : fetch_loop ReadTx (tx_index db) mempool_txs D false true l m = Ok m' ->
  Forall (fun txin => is_Some (m' !! o_hash (prevout txin))) l.
Proof.
  revert m. induction l as [|txin l IH]; intros m E; cbn [fetch_loop] in E; [constructor|]. apply bind_Ok in E as (m1 & E1 & E).
  constructor; [|by eapply IH]. apply fetch_input_spec in E1 as (Hx & _ & _). apply fetch_loop_spec in E as [Hk _]. by rewrite Hk.
Qed.

Lemma range_loop_no_crash l m : Forall (fun txin => is_Some (m !! o_hash (prevout txin))) l -> range_loop l m <> Crash.
Proof.
  induction 1 as [|txin l [[ti tp] Hx] Hl IH]; cbn [range_loop]; [done|]. rewrite Hx. cbn [access mbind outcome_bind]. by destruct (_ || _).
Qed.

Lemma FetchInputs_no_crash D t : (FetchInputs ReadTx (tx_index db) mempool_txs t D false true ∅).1 <> Crash.
Proof.
  unfold FetchInputs. destruct (Tx.IsCoinBase t); [done|]. pose proof (fetch_loop_no_crash D (vin t) ∅) as Hf.
  destruct (fetch_loop _ _ _ _ _ _ _ _) as [m| |] eqn:E; [|done|done]. apply fetch_loop_finds, range_loop_no_crash in E.
  by destruct (range_loop _ _).
Qed.

Lemma ready_output m txin : 0 <= o_n (prevout txin) -> ready m txin -> is_Some (GetOutputFor txin m).
Proof.
  intros Hn Hr. destruct (ready_lookup m txin Hn Hr) as (ti & tp & o & E & El & _ & Eo & _). unfold GetOutputFor. rewrite E. cbn [mbind option_bind].
  rewrite El, Eo. by eexists.
Qed.

Lemma value_in_ready m l z : Forall (fun txin => 0 <= o_n (prevout txin) /\ ready m txin) l -> is_Some (value_in m z l).
Proof.
  intros Hl. revert z. induction Hl as [|txin l [Hn Hr] Hl IH]; intros z; cbn [value_in]; [by eexists|].
  destruct (ready_output m txin Hn Hr) as [o ->]. apply IH.
Qed.

Lemma p2sh_ready m l z : Forall (fun txin => 0 <= o_n (prevout txin) /\ ready m txin) l -> is_Some (p2sh_sigops m z l).
Proof.
  intros Hl. revert z. induction Hl as [|txin l [Hn Hr] Hl IH]; intros z; cbn [p2sh_sigops]; [by eexists|].
  destruct (ready_output m txin Hn Hr) as [o ->]. apply IH.
Qed.

Lemma add_tx_returns key ct rate t m : pool_closed -> mempool_txs !! key = Some t -> Tx.IsCoinBase t = false ->
  add_tx db fProofOfStake blockmaxsize blockminsize mintxfee ct rate t m <> Crash.
Proof.
  intros [Hin Hv] Et Hb. destruct (Hv _ _ Et) as [[out Eo] Hscripts]. specialize (Hin _ _ Et Hb). unfold add_tx.
  do 4 (apply reject_if_no_crash; cbv beta). pose proof (FetchInputs_no_crash (tm_pool m) t) as Hf.
  destruct (FetchInputs _ _ _ _ _ _ _ _) as [[inputs| |] inv] eqn:Ef; cbn [fst] in *; [|done|done]. cbn [mbind outcome_bind].
  assert (inv = false) as ->.
  { pose proof (Undo.FetchInputs_Ok_valid ReadTx (tx_index db) mempool_txs t (tm_pool m) false true ∅ inputs) as Hok. rewrite Ef in Hok. specialize (Hok eq_refl). congruence. }
  pose proof Ef as Ef'. apply FetchInputs_spec in Ef' as [Hr _]; [|done].
  assert (Forall (fun txin => 0 <= o_n (prevout txin) /\ ready inputs txin) (vin t)) as Hready.
  { rewrite Forall_forall in *. intros txin Hx. split; [apply (Hin txin Hx)|by apply Hr]. }
  unfold GetValueIn, GetP2SHSigOpCount. rewrite Hb, Eo. destruct (value_in_ready inputs (vin t) 0 Hready) as [vi ->]. cbn [access mbind outcome_bind].
  apply reject_if_no_crash. destruct (p2sh_ready inputs (vin t) 0 Hready) as [p2sh ->]. cbn [access mbind outcome_bind]. apply reject_if_no_crash.
  pose proof (ConnectInputs_no_crash nCoinbaseMaturity nBestHeight TotalBlocksEstimate t pool_pos false true MANDATORY_SCRIPT_VERIFY_FLAGS
    ReadTx (tx_index db) mempool_txs (tm_pool m) inputs pindexBest 0 (tm_cache m)) as Hcon.
  destruct (ConnectInputs _ _ _ _ _ _ _ _ _ _ _ _ _) as [[[? ?] ?]| |]; [done|done|]. exfalso. apply Hcon; [done| |done| |done].
  - intros txin Hx. rewrite Forall_forall in Hready. by apply (Hready txin Hx).
  - right. by split.
Qed.

(** ** The loop *)
Local Abbreviation loop := (collect db fProofOfStake blockmaxsize blockminsize mintxfee).

(** A key of the pool whose transaction can be added. *)
Definition takable (key : Z) : Prop := exists t, mempool_txs !! key = Some t /\ Tx.IsCoinBase t = false.

Lemma collect_returns fuel n ct deps orphans queue m : pool_closed -> sound_pointers deps orphans ->
  Forall takable (left_over orphans queue) -> (length (left_over orphans queue) <= fuel)%nat -> is_Some (loop fuel n ct deps orphans queue m).
Proof.
  intros Hc. revert n orphans queue m. induction fuel as [|fuel IH]; intros n orphans queue m Hs Hk Hf; cbn [collect];
    destruct (take_highest _) as [[[rate key] queue1]|] eqn:Et; try (by eexists);
    apply (left_over_take _ orphans) in Et; rewrite Et in Hf; cbn [length] in Hf; [lia|].
  rewrite Et in Hk. apply Forall_cons in Hk as [(t & Ek & Hb) Hk]. rewrite Ek. cbn [mbind option_bind].
  pose proof (add_tx_returns key ct rate t m Hc Ek Hb) as Ha. destruct (add_tx _ _ _ _ _ _ _ _ _) as [m1|d|]; [|apply IH; [done|done|lia]|done].
  assert (exists orphans' queue', match deps !! Tx.GetHash t with Some l => release (Tx.GetHash t) l orphans queue1 | None => Some (orphans, queue1) end =
    Some (orphans', queue') /\ sound_pointers deps orphans') as (orphans' & queue' & Er & Hs').
  { destruct (deps !! Tx.GetHash t) as [l|] eqn:El; [|by exists orphans, queue1].
    destruct (release_returns (Tx.GetHash t) l orphans queue1) as (orphans' & queue' & E & Hd); [intros p Hp; by eapply Hs|].
    exists orphans', queue'. split; [done|]. by eapply sound_more. }
  rewrite Er. cbn [mbind option_bind]. apply release_left in Er. apply IH; [done| |]; rewrite Er; [done|lia].
Qed.

(** ** The template *)
Variables (bnProofOfStakeLimit : Z) (COINBASE_FLAGS : bytes) (keypool_arg : Z) (IsLocked : bool).
Context `{KeyDraws}.

Lemma fill_block_returns prev pprev coinbase c : pool_closed -> pindexBest = prev :: pprev ->
  is_Some (Difficulty.GetNextTargetRequired ProofOfWorkLimit bnProofOfStakeLimit pindexBest fProofOfStake) ->
  exists mined, forall fuel, (size mempool_txs <= fuel)%nat ->
    fill_block db fDebug fProofOfStake bnProofOfStakeLimit blockmaxsize blockminsize mintxfee fuel prev coinbase c = Some mined.
Proof.
  intros Hc Hbest [bits Eb]. unfold fill_block. rewrite Eb. cbn [mbind option_bind].
  assert (Forall (fun e => mempool_txs !! e.1 = Some e.2) pool_txs) as Hpool.
  { apply Forall_forall. intros [key t] Hin. unfold pool_txs in Hin. rewrite merge_sort_Permutation in Hin. by apply elem_of_map_to_list. }
  set (g0 := mk_gathered ∅ 0 ∅ []). assert (fresh_numbers g0) as Hf by (intros p [o Ho]; cbn in Ho; by apply lookup_empty_Some in Ho).
  assert (sound_pointers (mapDependers g0) (vOrphan g0)) as Hs by (intros h l p El; cbn in El; by apply lookup_empty_Some in El).
  destruct (gather_returns (swrap 32 (nHeight prev + 1)) _ g0 Hc Hpool Hf Hs) as (g & Eg & Hsg). rewrite Eg. cbn [mbind option_bind].
  apply gather_keys in Eg; [|done].
  assert (left_over (vOrphan g) (vecPriority g) ⊆+ map fst (filter (fun e => candidate (swrap 32 (nHeight prev + 1)) e.2 = true) pool_txs)) as Hleft.
  { unfold left_over. etransitivity; [apply submseteq_app; [reflexivity|apply orphan_keys_waiting]|]. etransitivity; [exact Eg|].
    unfold gathered_keys, orphan_keys. cbn [g0 vecPriority vOrphan]. by rewrite fmap_empty, map_to_list_empty, app_nil_r. }
  assert (Forall takable (left_over (vOrphan g) (vecPriority g))) as Htake.
  { apply Forall_forall. intros key Hin. apply (elem_of_submseteq _ _ _ Hin) in Hleft. apply list_elem_of_fmap in Hleft as ([k t] & -> & Ht).
    apply list_elem_of_filter in Ht as [Hcand Ht]. rewrite Forall_forall in Hpool. exists t. split; [exact (Hpool _ Ht)|].
    unfold candidate in Hcand. apply negb_true_iff, orb_false_iff in Hcand as [Hcand _]. by apply orb_false_iff in Hcand as [? _]. }
  assert (length (left_over (vOrphan g) (vecPriority g)) <= size mempool_txs)%nat as Hlen.
  { apply submseteq_length in Hleft. rewrite length_map in Hleft.
    pose proof (length_filter (fun e => candidate (swrap 32 (nHeight prev + 1)) e.2 = true) pool_txs) as Hfl.
    assert (length pool_txs = size mempool_txs) as El by (unfold pool_txs; rewrite merge_sort_Permutation; apply length_map_to_list). lia. }
  destruct (collect_returns (size mempool_txs) 0 (nTime coinbase) (mapDependers g) (vOrphan g) (vecPriority g) (mk_template [] ∅ 1000 0 100 0 c)
    Hc Hsg Htake Hlen) as [m Em].
  eexists. intros fuel Hfuel. rewrite (collect_enough db fProofOfStake blockmaxsize blockminsize mintxfee fuel (size mempool_txs)) by lia. by rewrite Em.
Qed.

(** C17. A template is always made: when every transaction of the pool finds its inputs, one round
    for each transaction of the pool is enough, and [CreateNewBlock] reads no freed orphan, nothing
    out of range, and throws nothing, whatever the order of the heap; it returns a
    block, or nothing when a miner is out of keys. *)
Theorem CreateNewBlock_returns prev pprev rk keys c : pool_closed -> pindexBest = prev :: pprev ->
  is_Some (Difficulty.GetNextTargetRequired ProofOfWorkLimit bnProofOfStakeLimit pindexBest fProofOfStake) ->
  zlen (CScript.push_int64 [] (swrap 32 (nHeight prev + 1)) ++ COINBASE_FLAGS) <= 100 ->
  is_Some (GetReservedKey keypool_arg IsLocked rk keys) ->
  exists mined rk' keys', (mined = None -> fProofOfStake = false) /\ forall fuel, (size mempool_txs <= fuel)%nat ->
    CreateNewBlock db fDebug fProofOfStake COINBASE_FLAGS bnProofOfStakeLimit blockmaxsize blockminsize mintxfee keypool_arg IsLocked fuel rk keys c
      = Some (mined, rk', keys').
Proof.
  intros Hc Hbest Hbits Hflags [[[pubkey rk1] keys1] Ek]. unfold CreateNewBlock. rewrite Hbest. cbn [head mbind option_bind]. rewrite Ek.
  destruct fProofOfStake eqn:Es; cbn [negb mbind option_bind].
  - destruct (Z.ltb_spec 100 (zlen (CScript.push_int64 [] (swrap 32 (nHeight prev + 1)) ++ COINBASE_FLAGS))); [lia|].
    rewrite <- Es in *. destruct (fill_block_returns prev pprev
      (coinbase_tx (CScript.push_int64 [] (swrap 32 (nHeight prev + 1)) ++ COINBASE_FLAGS) TxOut.SetEmpty) c Hc Hbest Hbits) as [mined Hm].
    exists (Some mined), rk, keys. split; [done|]. intros fuel Hf. by rewrite Hm.
  - destruct pubkey as [pubkey|]; [|exists None, rk1, keys1; by split]. rewrite <- Es in *.
    destruct (fill_block_returns prev pprev (coinbase_tx [] (mk_txout (-1) (SetDestination (CKeyID (PubKey.GetID pubkey))))) c Hc Hbest Hbits) as [mined Hm].
    exists (Some mined), rk1, keys1. split; [done|]. intros fuel Hf. by rewrite Hm.
Qed.
End returns.
