(* ===== verification/MiningConnect.v ===== *)
(** * MiningConnect: a template's transactions connect in a block (src/src/miner.cpp, main.cpp)

    A block template connects its transactions at the position of the memory pool and with
    the flags of the pool; [ConnectBlock] connects them at their positions in the block, one
    block higher and with its own flags.  The index records of the two runs are related:
    the same outputs are spent, the same transactions are read, and what looks
    at the position agrees. *)

From S2P Require Import Prelude BigNum ScriptOps Serialize Crypto Keys Core SigHash Interp InterpFacts InterpFlags Standard TxCheck Block Mempool Chain Connect BlockCheck BlockConnect BlockConnectFacts SigOps Mining.
Import Check Inputs.
Open Scope Z_scope.

Section connect.
Context `{BNLib} `{Digests} `{ECLib} `{SigEnv} `{NodeEnv}.
Variable db : CTxDB.
(** The index record of the block, its parent, and the hash of its coinbase. *)
Variables (this prev : CBlockIndex) (pprev : index_ptr) (cb : Z).
Hypothesis Hbest : pindexBest = prev :: pprev.
Hypothesis Hheight : nHeight this = nHeight prev + 1.
Hypothesis Hfile : nFile this <> UINT_MAX.
Hypothesis Hcb : tx_index db !! cb = None.

Definition in_block (p : CDiskTxPos) : Prop := p_nFile p = nFile this /\ p_nBlockPos p = nBlockPos this.
Hypothesis Hdb : forall h ti, tx_index db !! h = Some ti -> ~ in_block (pos ti).

(** The transaction that [FetchInputs] reads for a record. *)
Definition pool_or_disk (h : Z) (ti : CTxIndex) : option CTransaction :=
  if decide (pos ti = mk_pos 1 1 1) then mempool_txs !! h else ReadTx (pos ti).
Definition plain (t : CTransaction) : Prop := Tx.IsCoinBase t = false /\ Tx.IsCoinStake t = false.

Record same_entry (h : Z) (ti ti' : CTxIndex) : Prop := {
  se_spent : map DiskPos.IsNull (vSpent ti) = map DiskPos.IsNull (vSpent ti');
  se_tx : pool_or_disk h ti = pool_or_disk h ti';
  se_pos : pos ti = pos ti' /\ ~ in_block (pos ti) \/ forall t, pool_or_disk h ti = Some t -> plain t
}.

(** The proposed changes of the template, which has no coinbase yet, and of the block. *)
Definition same_index (D E : gmap Z CTxIndex) : Prop :=
  D !! cb = None /\ forall h, h <> cb -> option_Forall2 (same_entry h) (D !! h) (E !! h).
Definition same_input (h : Z) (x x' : CTxIndex * CTransaction) : Prop :=
  same_entry h x.1 x'.1 /\ x.2 = x'.2 /\ pool_or_disk h x.1 = Some x.2.
Definition same_inputs (m m' : MapPrevTx) : Prop := m !! cb = None /\ forall h, option_Forall2 (same_input h) (m !! h) (m' !! h).

Lemma same_spent h ti ti' : same_entry h ti ti' -> length (vSpent ti) = length (vSpent ti').
Proof. intros [E _ _]. by rewrite <- (length_map DiskPos.IsNull), E, length_map. Qed.

Lemma same_inputs_lookup m m' h x : same_inputs m m' -> m !! h = Some x -> exists x', m' !! h = Some x' /\ same_input h x x' /\ h <> cb.
Proof.
  intros [Hn Hm] Ex. specialize (Hm h). rewrite Ex in Hm. inversion Hm as [? x' Hs Ea Eb|]; subst. exists x'. split; [done|]. split; [done|].
  intros ->. congruence.
Qed.

Lemma same_inputs_insert m m' h x x' : same_inputs m m' -> h <> cb -> same_input h x x' -> same_inputs (<[h := x]> m) (<[h := x']> m').
Proof.
  intros [Hn Hm] Hh Hx. split; [by rewrite lookup_insert_ne|]. intros h'. destruct (decide (h = h')) as [<-|Hne].
  - rewrite !lookup_insert_eq. by constructor.
  - by rewrite !lookup_insert_ne.
Qed.

Lemma same_index_insert D E h ti ti' : same_index D E -> h <> cb -> same_entry h ti ti' -> same_index (<[h := ti]> D) (<[h := ti']> E).
Proof.
  intros [Hn Hm] Hh Hx. split; [by rewrite lookup_insert_ne|]. intros h' Hh'. destruct (decide (h = h')) as [<-|Hne].
  - rewrite !lookup_insert_eq. by constructor.
  - rewrite !lookup_insert_ne by done. by apply Hm.
Qed.

(** ** Fetching *)
Lemma fetch_input_same D E txin m m' m1 : same_index D E -> same_inputs m m' ->
  fetch_input ReadTx (tx_index db) mempool_txs D false true txin m = Ok m1 ->
  exists m1', fetch_input ReadTx (tx_index db) mempool_txs E true false txin m' = Ok m1' /\ same_inputs m1 m1'.
Proof.
  intros [Hn HD] Hm. unfold fetch_input. set (h := o_hash (prevout txin)). cbn [orb].
  destruct (m !! h) as [x|] eqn:Em.
  { intros [= <-]. destruct (same_inputs_lookup _ _ _ _ Hm Em) as (x' & -> & _). by exists m'. }
  assert (m' !! h = None) as ->.
  { destruct Hm as [_ Hm]. specialize (Hm h). rewrite Em in Hm. by inversion Hm. }
  set (found := match D !! h with Some t => Some t | None => tx_index db !! h end).
  set (found' := match E !! h with Some t => Some t | None => tx_index db !! h end).
  destruct found as [ti|] eqn:Ef; [|done].
  assert (h <> cb) as Hh by (intros Eh; subst found; rewrite Eh, Hn, Hcb in Ef; done).
  assert (exists ti', found' = Some ti' /\ same_entry h ti ti') as (ti' & -> & Hs).
  { specialize (HD h Hh). unfold found, found' in *. destruct HD as [x x' Hx|].
    - injection Ef as <-. by exists x'.
    - exists ti. split; [done|]. split; [done|done|]. left. split; [done|]. by eapply Hdb. }
  change (if decide (pos ti = mk_pos 1 1 1) then mempool_txs !! h else ReadTx (pos ti)) with (pool_or_disk h ti).
  change (if decide (pos ti' = mk_pos 1 1 1) then mempool_txs !! h else ReadTx (pos ti')) with (pool_or_disk h ti').
  rewrite <- (se_tx _ _ _ Hs). destruct (pool_or_disk h ti) as [tp|] eqn:Et; [|done]. intros [= <-].
  eexists. split; [done|]. by apply same_inputs_insert.
Qed.

Lemma fetch_loop_same D E l m m' m1 : same_index D E -> same_inputs m m' ->
  fetch_loop ReadTx (tx_index db) mempool_txs D false true l m = Ok m1 ->
  exists m1', fetch_loop ReadTx (tx_index db) mempool_txs E true false l m' = Ok m1' /\ same_inputs m1 m1'.
Proof.
  intros HD. revert m m'. induction l as [|txin l IH]; intros m m' Hm; cbn [fetch_loop]; [intros [= <-]; by exists m'|].
  intros (m2 & E2 & Eq)%bind_Ok. destruct (fetch_input_same _ _ _ _ _ _ HD Hm E2) as (m2' & -> & Hm2). by eapply IH.
Qed.

Lemma range_loop_same l m m' u : same_inputs m m' -> range_loop l m = Ok u -> range_loop l m' = Ok u.
Proof.
  intros Hm. revert u. induction l as [|txin l IH]; intros u; cbn [range_loop]; [done|].
  intros ([ti tp] & Ei%access_Ok & Eq)%bind_Ok. destruct (same_inputs_lookup _ _ _ _ Hm Ei) as ([ti' tp'] & -> & (Hs & Et & _) & _).
  cbn [fst snd] in *. subst tp'. cbn [access mbind outcome_bind] in *. unfold zlen in *. rewrite <- (same_spent _ _ _ Hs).
  destruct (reject_if _ _); [by apply IH|done|done].
Qed.

Lemma FetchInputs_same D E t m : same_index D E -> (FetchInputs ReadTx (tx_index db) mempool_txs t D false true ∅).1 = Ok m ->
  exists m', (FetchInputs ReadTx (tx_index db) mempool_txs t E true false ∅).1 = Ok m' /\ same_inputs m m'.
Proof.
  intros HD. assert (same_inputs ∅ ∅) as Hempty by (split; [done|intros h; rewrite lookup_empty; constructor]).
  unfold FetchInputs. destruct (Tx.IsCoinBase t); [intros [= <-]; by exists ∅|].
  destruct (fetch_loop _ _ _ D _ _ _ _) as [m1| |] eqn:Ef; [|done|done].
  destruct (fetch_loop_same _ _ _ _ _ _ HD Hempty Ef) as (m1' & -> & Hm).
  destruct (range_loop _ m1) as [u| |] eqn:Er; [|done|done]. intros [= <-]. rewrite (range_loop_same _ _ _ _ Hm Er). by exists m1'.
Qed.

(** ** Values and signature operations *)
Lemma GetOutputFor_same m m' txin o : same_inputs m m' -> GetOutputFor txin m = Some o -> GetOutputFor txin m' = Some o.
Proof.
  intros Hm. unfold GetOutputFor. destruct (m !! _) as [[ti tp]|] eqn:Ei; [|done].
  destruct (same_inputs_lookup _ _ _ _ Hm Ei) as ([ti' tp'] & -> & (_ & Et & _) & _). cbn [fst snd] in Et. by subst tp'.
Qed.

Lemma GetValueIn_same m m' t v : same_inputs m m' -> GetValueIn t m = Some v -> GetValueIn t m' = Some v.
Proof.
  intros Hm. unfold GetValueIn. destruct (Tx.IsCoinBase t); [done|]. generalize 0. induction (vin t) as [|txin l IH]; intros z; [done|].
  cbn [value_in]. destruct (GetOutputFor txin m) as [o|] eqn:Eo; [|done]. rewrite (GetOutputFor_same _ _ _ _ Hm Eo). apply IH.
Qed.

Lemma GetP2SH_same m m' t v : same_inputs m m' -> GetP2SHSigOpCount t m = Some v -> GetP2SHSigOpCount t m' = Some v.
Proof.
  intros Hm. unfold GetP2SHSigOpCount. destruct (Tx.IsCoinBase t); [done|]. generalize 0. induction (vin t) as [|txin l IH]; intros z; [done|].
  cbn [p2sh_sigops]. destruct (GetOutputFor txin m) as [o|] eqn:Eo; [|done]. rewrite (GetOutputFor_same _ _ _ _ Hm Eo). apply IH.
Qed.

(** ** Connecting *)
Lemma confirmed_deeper f b from d l : BlockIndex.confirmed_loop f b from d l = None -> BlockIndex.confirmed_loop f b (from + 1) d l = None.
Proof.
  induction l as [|x l IH]; [done|]. cbn [BlockIndex.confirmed_loop]. destruct (Z.ltb_spec (from - nHeight x) d).
  - destruct ((_ =? _) && _); [done|]. intros Hn. destruct (_ <? _); [by apply IH|done].
  - intros _. destruct (Z.ltb_spec (from + 1 - nHeight x) d); [lia|done].
Qed.

(** An output that is mature for the template is mature in the block. *)
Lemma mature_same ti ti' : pos ti = pos ti' -> ~ in_block (pos ti) ->
  IsConfirmedInNPrevBlocks ti pindexBest nCoinbaseMaturity = None ->
  IsConfirmedInNPrevBlocks ti' (this :: pindexBest) nCoinbaseMaturity = None.
Proof.
  unfold IsConfirmedInNPrevBlocks. rewrite Hbest. intros <- Ho Hn. revert Hn. generalize (prev :: pprev). intros l Hn. cbn [BlockIndex.confirmed_loop].
  destruct (_ <? nCoinbaseMaturity); [|done].
  destruct (Z.eqb_spec (nBlockPos this) (p_nBlockPos (pos ti))), (Z.eqb_spec (nFile this) (p_nFile (pos ti)));
    [by destruct Ho|..]; cbn [andb]; rewrite Hheight; by apply confirmed_deeper.
Qed.

Lemma check_input_same t m m' txin v v' : same_inputs m m' ->
  check_input nCoinbaseMaturity t m pindexBest txin v = Ok v' -> check_input nCoinbaseMaturity t m' (this :: pindexBest) txin v = Ok v'.
Proof.
  intros Hm. unfold check_input. intros ([ti tp] & Ei%access_Ok & Eq)%bind_Ok.
  destruct (same_inputs_lookup _ _ _ _ Hm Ei) as ([ti' tp'] & -> & (Hs & Et & Er) & _). cbn [fst snd] in *. subst tp'.
  cbn [access mbind outcome_bind]. unfold zlen in *. rewrite <- (same_spent _ _ _ Hs).
  destruct (reject_if (_ || _) 100) as [[]| |]; [|done|done]. cbn [mbind outcome_bind] in *.
  apply bind_Ok in Eq as (u & Em%reject_if_Ok & Eq).
  assert ((Tx.IsCoinBase tp || Tx.IsCoinStake tp) && bool_decide (is_Some (IsConfirmedInNPrevBlocks ti' (this :: pindexBest) nCoinbaseMaturity)) = false) as ->.
  { destruct (se_pos _ _ _ Hs) as [[Ep Ho]|Hp]; [|destruct (Hp tp Er) as [-> ->]; done].
    destruct (_ || _); [|done]. cbn [andb] in *. apply bool_decide_eq_false, eq_None_not_Some in Em. by rewrite (mature_same _ _ Ep Ho Em). }
  done.
Qed.

Lemma check_loop_same t m m' l v v' : same_inputs m m' ->
  check_loop nCoinbaseMaturity t m pindexBest l v = Ok v' -> check_loop nCoinbaseMaturity t m' (this :: pindexBest) l v = Ok v'.
Proof.
  intros Hm. revert v. induction l as [|txin l IH]; intros v; cbn [check_loop]; [done|].
  intros (v1 & E1 & Eq)%bind_Ok. rewrite (check_input_same _ _ _ _ _ _ Hm E1). by apply IH.
Qed.

Lemma check_signature_same tp t i c c' c1 : cache_ok c -> cache_ok c' ->
  check_signature tp t i MANDATORY_SCRIPT_VERIFY_FLAGS c = Ok c1 ->
  exists c1', check_signature tp t i connect_flags c' = Ok c1' /\ cache_ok c1 /\ cache_ok c1'.
Proof.
  intros Hc Hc'. unfold check_signature, VerifySignature. destruct (vin t !! i) as [txin|]; [|done]. cbn [access mbind outcome_bind].
  destruct (_ <=? _); [done|]. destruct (vout tp !! _) as [txout|]; [|done]. cbn [access mbind outcome_bind].
  destruct (negb _); [done|].
  destruct (VerifyScript_flags t i MANDATORY_SCRIPT_VERIFY_FLAGS connect_flags 0 eq_refl (scriptSig txin) (scriptPubKey txout) c c' Hc Hc')
    as (E & D & D').
  destruct (VerifyScript _ _ _ _ MANDATORY_SCRIPT_VERIFY_FLAGS _ c) as [ok d], (VerifyScript _ _ _ _ connect_flags _ c') as [ok' d'].
  cbn [fst snd] in *. subst ok'. destruct ok; [|done]. intros [= <-]. by exists d'.
Qed.

(** The states of the second loop. *)
Definition same_connecting (s s' : connecting) : Prop :=
  same_inputs (c_inputs s) (c_inputs s') /\ same_index (mapTestPool s) (mapTestPool s') /\ cache_ok (c_cache s) /\ cache_ok (c_cache s').

Lemma map_null_insert p p' n l l' : map DiskPos.IsNull l = map DiskPos.IsNull l' -> DiskPos.IsNull p = DiskPos.IsNull p' ->
  map DiskPos.IsNull (<[n := p]> l) = map DiskPos.IsNull (<[n := p']> l').
Proof. intros El Ep. change (map DiskPos.IsNull) with (fmap (M := list) DiskPos.IsNull) in *. by rewrite !list_fmap_insert, El, Ep. Qed.

Lemma spend_input_same t nTxPos i txin s s' s1 : same_connecting s s' ->
  spend_input nBestHeight TotalBlocksEstimate t pool_pos false true MANDATORY_SCRIPT_VERIFY_FLAGS i txin s = Ok s1 ->
  exists s1', spend_input nBestHeight TotalBlocksEstimate t (mk_pos (nFile this) (nBlockPos this) nTxPos) true false connect_flags i txin s' = Ok s1' /\
    same_connecting s1 s1'.
Proof.
  intros (Hm & HD & Hc & Hc'). unfold spend_input. intros ([ti tp] & Ei%access_Ok & Eq)%bind_Ok.
  destruct (same_inputs_lookup _ _ _ _ Hm Ei) as ([ti' tp'] & -> & (Hs & Et & Er) & Hh). cbn [fst snd] in *. subst tp'.
  cbn [access mbind outcome_bind orb andb] in *. set (n := Z.to_nat (o_n (prevout txin))) in *.
  apply bind_Ok in Eq as (sp & Esp%access_Ok & Eq). pose proof (f_equal (fun l => l !! n) (se_spent _ _ _ Hs)) as Enull.
  cbv beta in Enull. change (map DiskPos.IsNull) with (fmap (M := list) DiskPos.IsNull) in Enull. rewrite !list_lookup_fmap, Esp in Enull.
  destruct (vSpent ti' !! n) as [sp'|] eqn:Esp'; [|done]. cbn [fmap option_fmap option_map] in Enull. injection Enull as Enull.
  cbn [access mbind outcome_bind]. rewrite <- Enull. apply bind_Ok in Eq as (u & Eu & Eq). rewrite Eu. cbn [mbind outcome_bind].
  apply bind_Ok in Eq as (c1 & Ec & Eq). destruct (check_signature_same _ _ _ _ _ _ Hc Hc' Ec) as (c1' & Ec' & Hc1 & Hc1').
  assert (exists c2, (if nBestHeight <? TotalBlocksEstimate then Ok (c_cache s') else check_signature tp t i connect_flags (c_cache s')) = Ok c2 /\
    cache_ok c2) as (c2 & -> & Hc2) by (destruct (_ <? _); eauto).
  cbn [mbind outcome_bind]. injection Eq as <-. eexists. split; [done|].
  assert (DiskPos.IsNull pool_pos = DiskPos.IsNull (mk_pos (nFile this) (nBlockPos this) nTxPos)) as En.
  { unfold DiskPos.IsNull. cbn [p_nFile]. destruct (Z.eqb_spec (nFile this) UINT_MAX); [done|reflexivity]. }
  assert (same_entry (o_hash (prevout txin)) (mk_txindex (pos ti) (<[n := pool_pos]> (vSpent ti)))
    (mk_txindex (pos ti') (<[n := mk_pos (nFile this) (nBlockPos this) nTxPos]> (vSpent ti')))) as Hs1.
  { destruct Hs as [E1 E2 E3]. split; [|done|done]. cbn [vSpent]. by apply map_null_insert. }
  split; [|split; [|done]]; cbn [c_inputs mapTestPool].
  - by apply same_inputs_insert.
  - by apply same_index_insert.
Qed.

Lemma spend_loop_same t nTxPos i l s s' s1 : same_connecting s s' ->
  spend_loop nBestHeight TotalBlocksEstimate t pool_pos false true MANDATORY_SCRIPT_VERIFY_FLAGS i l s = Ok s1 ->
  exists s1', spend_loop nBestHeight TotalBlocksEstimate t (mk_pos (nFile this) (nBlockPos this) nTxPos) true false connect_flags i l s' = Ok s1' /\
    same_connecting s1 s1'.
Proof.
  revert i s s'. induction l as [|txin l IH]; intros i s s' Hs; cbn [spend_loop]; [intros [= <-]; by exists s'|].
  intros (s2 & E2 & Eq)%bind_Ok. destruct (spend_input_same _ nTxPos _ _ _ _ _ Hs E2) as (s2' & -> & Hs2). by eapply IH.
Qed.

Lemma burn_loop_start l b1 b2 r1 : burn_loop l b1 = Ok r1 -> exists r2, burn_loop l b2 = Ok r2.
Proof.
  revert b1 b2. induction l as [|o l IH]; intros b1 b2; cbn [burn_loop]; [by eexists|].
  destruct (scriptPubKey o !! 1%nat); [|done]. cbn [access mbind outcome_bind]. apply IH.
Qed.

Lemma check_fees_same t v b1 b2 r1 : check_fees t v b1 false = Ok r1 -> exists r2, check_fees t v b2 true = Ok r2.
Proof.
  unfold check_fees. destruct (Tx.GetValueOut t) as [out|]; [|done]. cbn [access mbind outcome_bind].
  destruct (v <? out); [done|]. destruct (i64 (v - out) <? 0); [done|]. destruct (_ <? GetMinFee _ _ _); [done|].
  destruct (negb _); [done|]. cbn [reject_if mbind outcome_bind]. apply burn_loop_start.
Qed.

Lemma ConnectInputs_same t nTxPos m m' D E b c c' D1 b1 c1 : same_inputs m m' -> same_index D E -> cache_ok c -> cache_ok c' ->
  ConnectInputs nCoinbaseMaturity nBestHeight TotalBlocksEstimate t m D pool_pos pindexBest 0 false true MANDATORY_SCRIPT_VERIFY_FLAGS c = Ok (D1, b1, c1) ->
  exists E1 b1' c1', ConnectInputs nCoinbaseMaturity nBestHeight TotalBlocksEstimate t m' E (mk_pos (nFile this) (nBlockPos this) nTxPos)
      (this :: pindexBest) b true false connect_flags c' = Ok (E1, b1', c1') /\ same_index D1 E1 /\ cache_ok c1 /\ cache_ok c1'.
Proof.
  intros Hm HD Hc Hc'. unfold ConnectInputs. destruct (Tx.IsCoinBase t).
  { intros [= <- <- <-]. by exists E, b, c'. }
  intros (v & Ev & Eq)%bind_Ok. rewrite (check_loop_same _ _ _ _ _ _ Hm Ev). cbn [mbind outcome_bind].
  apply bind_Ok in Eq as (s & Es & Eq).
  assert (same_connecting (mk_connecting m D c) (mk_connecting m' E c')) as Hs by done.
  destruct (spend_loop_same t nTxPos 0 (vin t) _ _ _ Hs Es) as (s' & -> & _ & HD1 & Hc1 & Hc1').
  cbn [mbind outcome_bind]. destruct (Tx.IsCoinStake t).
  { injection Eq as <- <- <-. by exists (mapTestPool s'), b, (c_cache s'). }
  apply bind_Ok in Eq as (r & Er & Eq). destruct (check_fees_same _ _ _ b _ Er) as (r' & ->). injection Eq as <- <- <-.
  by exists (mapTestPool s'), r', (c_cache s').
Qed.

(** ** One transaction of the template *)
Variable cb_ops : Z.
Hypothesis Hops : 0 <= cb_ops <= 100.

Record follows (m : Template) (s : connect_state) : Prop := {
  fo_index : same_index (tm_pool m) (mapQueuedChanges s);
  fo_fees : nFees s = tm_fees m;
  fo_ops : nSigOps s + 100 = nBlockSigOps m + cb_ops;
  fo_range : 100 <= nBlockSigOps m < MAX_BLOCK_SIGOPS;
  fo_cache : cache_ok (tm_cache m) /\ cache_ok (sig_cache s)
}.

(** A transaction of the pool that is not in a block, and is not larger than a message. *)
Record minable (t : CTransaction) : Prop := {
  mi_key : mempool_txs !! Tx.GetHash t = Some t;
  mi_plain : plain t;
  mi_new : tx_index db !! Tx.GetHash t = None;
  mi_checked : CheckTransaction t = TxCheck.Accept;
  mi_small : script_bytes t <= MAX_SIZE
}.

Lemma count_sigops_room n nSigOps nBlockSigOps : 0 <= n <= 2 ^ 31 -> nSigOps + 100 = nBlockSigOps + cb_ops -> 100 <= nBlockSigOps < MAX_BLOCK_SIGOPS ->
  u32 (nBlockSigOps + n) < MAX_BLOCK_SIGOPS -> nBlockSigOps + n < MAX_BLOCK_SIGOPS /\ count_sigops n nSigOps = Ok (nSigOps + n).
Proof.
  change MAX_BLOCK_SIGOPS with 20000. intros Hn E Hr. unfold u32. rewrite Z.mod_small by lia. intros Hlt. split; [done|].
  unfold count_sigops, u32. rewrite Z.mod_small by lia. change MAX_BLOCK_SIGOPS with 20000. by destruct (Z.ltb_spec 20000 (nSigOps + n)); [lia|].
Qed.

Definition this_pos (nTxPos : Z) : CDiskTxPos := mk_pos (nFile this) (nBlockPos this) nTxPos.
Definition next_pos (j : bool) (nTxPos : Z) (t : CTransaction) : Z := if j then nTxPos else u32 (nTxPos + GetSerializeSize t).

Lemma add_tx_connects stake maxsize minsize mintxfee j time rate t m s m1 : follows m s -> minable t -> Tx.GetHash t <> cb ->
  pool_or_disk (Tx.GetHash t) (TxIndex.of_pos (this_pos (nTxPos s)) (length (vout t))) = Some t ->
  add_tx db stake maxsize minsize mintxfee time rate t m = Ok m1 ->
  exists s1, connect_tx db j (this :: pindexBest) t s = Ok s1 /\ follows m1 s1 /\ nTxPos s1 = next_pos j (nTxPos s) t.
Proof.
  intros [HD Hfees Hso Hr [Hc Hc']] Hm Hne Hread. destruct (mi_plain _ Hm) as [Hb Hk]. unfold add_tx, connect_tx, overwrites, TxDB.ReadTxIndex.
  rewrite (mi_new _ Hm), Hb, Hk. cbn [reject_if mbind outcome_bind].
  pose proof (legacy_bound t) as Hl. pose proof (mi_small _ Hm) as Hsm. change MAX_SIZE with 33554432 in Hsm.
  intros (u1 & _ & E)%bind_Ok. apply bind_Ok in E as (u2 & E2%reject_if_Ok & E). apply Z.leb_gt in E2.
  destruct (count_sigops_room (GetLegacySigOpCount t) (nSigOps s) (nBlockSigOps m)) as [E2' ->]; [lia|done|done|done|].
  apply bind_Ok in E as (u3 & _ & E). apply bind_Ok in E as (u4 & _ & E). apply bind_Ok in E as (inputs & Ef & E).
  destruct (FetchInputs_same _ _ t inputs HD Ef) as (inputs' & -> & Hin). cbn [head access mbind outcome_bind keep_points].
  apply bind_Ok in E as (vi & Ei%access_Ok & E). apply bind_Ok in E as (vo & Eo%access_Ok & E). apply bind_Ok in E as (u5 & _ & E).
  apply bind_Ok in E as (p2sh & Ep%access_Ok & E). apply bind_Ok in E as (u6 & E6%reject_if_Ok & E). apply Z.leb_gt in E6.
  rewrite (GetValueIn_same _ _ _ _ Hin Ei), (GetP2SH_same _ _ _ _ Hin Ep), Eo. cbn [access mbind outcome_bind].
  pose proof (p2sh_bound t inputs p2sh Ep) as Hp.
  assert (u32 (GetLegacySigOpCount t + p2sh) = GetLegacySigOpCount t + p2sh) as Eu by (unfold u32; apply Z.mod_small; lia). rewrite Eu in *.
  destruct (count_sigops_room (GetLegacySigOpCount t + p2sh) (nSigOps s) (nBlockSigOps m)) as [E6' _]; [lia|done|done|done|].
  assert (count_sigops p2sh (nSigOps s + GetLegacySigOpCount t) = Ok (nSigOps s + GetLegacySigOpCount t + p2sh)) as ->.
  { change MAX_BLOCK_SIGOPS with 20000 in *. unfold count_sigops, u32. rewrite Z.mod_small by lia. change MAX_BLOCK_SIGOPS with 20000.
    by destruct (Z.ltb_spec 20000 (nSigOps s + GetLegacySigOpCount t + p2sh)); [lia|]. }
  apply bind_Ok in E as ([[D1 b1] c1] & Ec & E). injection E as <-. cbn [mbind outcome_bind].
  destruct (ConnectInputs_same t (nTxPos s) inputs inputs' _ _ (nBurnCoins s) _ _ _ _ _ Hin HD Hc Hc' Ec) as (E1 & b1' & c1' & -> & HD1 & Hc1 & Hc1').
  cbn [keep_points mbind outcome_bind]. eexists. split; [done|]. split; [|done].
  split; cbn [tm_pool tm_fees nBlockSigOps tm_cache mapQueuedChanges nFees nSigOps sig_cache].
  - assert (pool_or_disk (Tx.GetHash t) (TxIndex.of_pos pool_pos (length (vout t))) = Some t) as Hpool.
    { unfold pool_or_disk. cbn [pos TxIndex.of_pos]. rewrite decide_True by done. apply Hm. }
    apply same_index_insert; [done|done|]. split; [done| |right].
    + rewrite Hpool. symmetry. exact Hread.
    + intros t'. rewrite Hpool. by intros [= <-].
  - by rewrite Hfees.
  - change MAX_BLOCK_SIGOPS with 20000 in *. rewrite swrap_id; unfold in_s; lia.
  - change MAX_BLOCK_SIGOPS with 20000 in *. rewrite swrap_id; unfold in_s; lia.
  - done.
Qed.
End connect.
