(* ===== verification/MiningBlock.v ===== *)
(** * MiningBlock: a block template connects (src/src/miner.cpp, main.cpp)

    The block that [CreateNewBlock] makes, numbered by [IncrementExtraNonce] and with any
    nonce, passes [CheckBlock] and [ConnectBlock] on top of the best block.  The
    node itself never connects a template before it offers it to a miner. *)

From S2P Require Import Prelude BigNum ScriptOps Serialize Crypto Keys Core SigHash Interp InterpFacts Standard TxCheck Block Mempool Chain Kernel Connect BlockCheck BlockConnect Checkpoints Activate AcceptBlock SigOps KeyPool Mining MiningFacts MiningConnect.
From stdpp Require Import sorting.
Import Check Inputs.
Open Scope Z_scope.

Section template.
Context `{BNLib} `{Digests} `{ECLib} `{SigEnv} `{NodeEnv} `{HeapLayout} `{!HeapLayoutOk}.
Variable db : CTxDB.
Variables (fDebug : bool) (bnProofOfStakeLimit : Z) (blockmaxsize blockminsize : option Z) (mintxfee : option bytes).

Local Abbreviation max_size := (nBlockMaxSize blockmaxsize).
Local Abbreviation added := (adds db false blockmaxsize blockminsize mintxfee).

(** ** The limits of a template *)
Definition sum_sizes (l : list CTransaction) : Z := foldr (fun t n => GetSerializeSize t + n) 0 l.

Lemma max_size_range : 1000 <= max_size <= MAX_BLOCK_SIZE - 1000.
Proof. unfold nBlockMaxSize. change (MAX_BLOCK_SIZE - 1000) with 999000. lia. Qed.

Lemma tx_size_range (t : CTransaction) : 0 <= GetSerializeSize t < 2 ^ 32.
Proof. cbn [GetSerializeSize]. by apply Z.mod_pos_bound. Qed.

(** What one transaction adds. *)
Lemma add_tx_limits ct rate t m m1 : add_tx db false blockmaxsize blockminsize mintxfee ct rate t m = Ok m1 -> 0 <= nBlockSize m <= max_size ->
  tm_vtx m1 = tm_vtx m ++ [t] /\ nBlockSize m1 = nBlockSize m + GetSerializeSize t /\ nBlockSize m1 <= max_size /\ nTime t <= adjusted_time /\
  (minable db t -> 100 <= nBlockSigOps m < MAX_BLOCK_SIGOPS ->
    nBlockSigOps m + GetLegacySigOpCount t <= nBlockSigOps m1 < MAX_BLOCK_SIGOPS).
Proof.
  intros E Hr. unfold add_tx in E. pose proof max_size_range as Hmax. change (MAX_BLOCK_SIZE - 1000) with 999000 in Hmax.
  pose proof (tx_size_range t) as Hsz. set (size := GetSerializeSize t) in *. clearbody size.
  assert (u64 (nBlockSize m + size) = nBlockSize m + size) as Eu by (unfold u64; apply Z.mod_small; lia). rewrite Eu in *.
  apply bind_Ok in E as (u1 & E1%reject_if_Ok & E). apply Z.leb_gt in E1.
  apply bind_Ok in E as (u2 & E2%reject_if_Ok & E). apply bind_Ok in E as (u3 & E3%reject_if_Ok & E).
  apply orb_false_iff in E3 as [E3%Z.ltb_ge _].
  apply bind_Ok in E as (u4 & _ & E). apply bind_Ok in E as (inputs & _ & E). apply bind_Ok in E as (vi & _ & E).
  apply bind_Ok in E as (vo & _ & E). apply bind_Ok in E as (u5 & _ & E). apply bind_Ok in E as (p2sh & Ep%access_Ok & E).
  apply bind_Ok in E as (u6 & E6%reject_if_Ok & E). apply Z.leb_gt in E6. apply bind_Ok in E as ([[D b] c] & _ & E). injection E as <-.
  cbn [tm_vtx nBlockSize nBlockSigOps]. split; [done|]. split; [done|]. split; [lia|]. split; [done|]. intros Hm Hops.
  pose proof (legacy_bound t) as Hl. pose proof (p2sh_bound _ _ _ Ep) as Hp. pose proof (mi_small _ _ Hm) as Hsm. change MAX_SIZE with 33554432 in Hsm.
  change MAX_BLOCK_SIGOPS with 20000 in *.
  assert (u32 (GetLegacySigOpCount t + p2sh) = GetLegacySigOpCount t + p2sh) as El by (unfold u32; apply Z.mod_small; lia). rewrite El in *.
  unfold u32 in E6. rewrite Z.mod_small in E6 by lia. rewrite swrap_id; unfold in_s; lia.
Qed.

Definition sum_legacy (l : list CTransaction) : Z := foldr (fun t n => GetLegacySigOpCount t + n) 0 l.

Lemma adds_limits ct m l m' : added ct m l m' -> 0 <= nBlockSize m <= max_size -> 100 <= nBlockSigOps m < MAX_BLOCK_SIGOPS -> Forall (minable db) l ->
  tm_vtx m' = tm_vtx m ++ l /\ nBlockSize m + sum_sizes l <= max_size /\ Forall (fun t => nTime t <= adjusted_time) l /\
  nBlockSigOps m + sum_legacy l < MAX_BLOCK_SIGOPS.
Proof.
  induction 1 as [m|m rate t m1 l m2 Ha Hl IH]; intros Hs Ho Hm; cbn [sum_sizes sum_legacy foldr]; [rewrite app_nil_r; split; [done|split; [lia|split; [done|lia]]]|].
  apply Forall_cons in Hm as [Ht Hm]. destruct (add_tx_limits _ _ _ _ _ Ha Hs) as (Ev & Es & Hmax & Htime & Hops). specialize (Hops Ht Ho).
  pose proof (legacy_bound t). pose proof (tx_size_range t).
  destruct IH as (Ev' & Es' & Htime' & Hops'); [lia|lia|done|]. fold (sum_sizes l) (sum_legacy l). rewrite Ev', Ev, <- app_assoc.
  split; [done|]. split; [lia|]. split; [by constructor|lia].
Qed.

(** ** The transactions of the template *)
Record pool_ready : Prop := {
  pr_key h t : mempool_txs !! h = Some t -> Tx.GetHash t = h;
  pr_new h : is_Some (mempool_txs !! h) -> tx_index db !! h = None;
  pr_count : Z.of_nat (size mempool_txs) < MAX_BLOCK_SIZE;
  pr_checked h t : mempool_txs !! h = Some t -> CheckTransaction t = TxCheck.Accept /\ script_bytes t <= MAX_SIZE
}.

Lemma pool_txs_lookup key t : (key, t) ∈ pool_txs -> mempool_txs !! key = Some t.
Proof. unfold pool_txs. rewrite merge_sort_Permutation. apply elem_of_map_to_list. Qed.

Lemma pool_txs_NoDup : NoDup (map fst pool_txs).
Proof. unfold pool_txs. rewrite merge_sort_Permutation. apply NoDup_fst_map_to_list. Qed.

Lemma collected_minable nHeight g fuel ct m m' : pool_ready -> gather db fDebug nHeight pool_txs (mk_gathered ∅ 0 ∅ []) = Some g ->
  collect db false blockmaxsize blockminsize mintxfee fuel 0 ct (mapDependers g) (vOrphan g) (vecPriority g) m = Some m' ->
  exists l, added ct m l m' /\ Forall (minable db) l /\ Forall (fun t => candidate nHeight t = true) l /\
    NoDup (map Tx.GetHash l) /\ zlen l < MAX_BLOCK_SIZE.
Proof.
  intros [Hkey Hnew Hcount Hck] Hg Hc. apply gather_keys in Hg; [|intros p [o Ho]; cbn in Ho; by apply lookup_empty_Some in Ho].
  apply collect_adds in Hc as (keys & l & Ha & Hf & Hs). exists l. split; [done|].
  assert (keys ⊆+ map fst (filter (fun e => candidate nHeight e.2 = true) pool_txs)) as Hk.
  { etransitivity; [exact Hs|]. unfold left_over. etransitivity; [apply submseteq_app; [reflexivity|apply orphan_keys_waiting]|].
    etransitivity; [exact Hg|]. unfold gathered_keys, orphan_keys. cbn [vecPriority vOrphan]. by rewrite fmap_empty, map_to_list_empty, app_nil_r. }
  assert (Forall2 (fun key t => key = Tx.GetHash t /\ minable db t /\ candidate nHeight t = true) keys l) as Hall.
  { assert (forall key, key ∈ keys -> exists t, mempool_txs !! key = Some t /\ candidate nHeight t = true) as Hin.
    { intros key Hx. apply (elem_of_submseteq _ _ _ Hx) in Hk. apply list_elem_of_fmap in Hk as ([k t] & -> & Ht).
      apply list_elem_of_filter in Ht as [Hcand Ht]. exists t. split; [by apply pool_txs_lookup|done]. }
    clear Hs Hk Ha. induction Hf as [|key t keys l Et Hf IH]; [constructor|]. constructor; [|apply IH; intros k Hk; apply Hin; by right].
    destruct (Hin key ltac:(by left)) as (t' & Et' & Hcand). rewrite Et in Et'. injection Et' as <-.
    pose proof (Hkey _ _ Et) as Ek. destruct (Hck _ _ Et) as [H1' H2']. split; [done|]. split; [|done].
    split; [by rewrite Ek| |rewrite Ek; apply Hnew; by eexists|done|done].
    unfold candidate in Hcand. apply negb_true_iff, orb_false_iff in Hcand as [Hcand _]. by apply orb_false_iff in Hcand. }
  assert (keys = map Tx.GetHash l) as Ek by (clear -Hall; induction Hall as [|key t keys l (-> & _) _ IH]; [done|]; simpl; by rewrite IH).
  split; [|split; [|split]].
  - clear -Hall. induction Hall as [|key t keys l (_ & Hm & _) _ IH]; by constructor.
  - clear -Hall. induction Hall as [|key t keys l (_ & _ & Hm) _ IH]; by constructor.
  - rewrite <- Ek. apply (submseteq_NoDup _ _ Hk). apply (submseteq_NoDup _ (map fst pool_txs)); [|exact pool_txs_NoDup].
    apply sublist_submseteq. apply (fmap_sublist fst), sublist_filter.
  - apply submseteq_length in Hk. rewrite (Forall2_length _ _ _ Hall), length_map in Hk. pose proof (length_filter (fun e => candidate nHeight e.2 = true) pool_txs).
    assert (length pool_txs = size mempool_txs) as El by (unfold pool_txs; rewrite merge_sort_Permutation; apply length_map_to_list). unfold zlen. lia.
Qed.

(** ** The block that is offered to a miner *)
Variables (COINBASE_FLAGS : bytes) (keypool_arg : Z) (IsLocked : bool).
Context `{KeyDraws}.

Definition with_nonce (nonce : Z) (b : CBlock) : CBlock :=
  mk_block (b_nVersion b) (hashPrevBlock b) (hashMerkleRoot b) (b_nTime b) (nBits b) nonce (vtx b) (vchBlockSig b) (vMerkleTree b).

(** A numbered block with a proof of work to be found: its coinbase and its other transactions. *)
Record work_block (prev : CBlockIndex) (m : Template) (coinbase : CTransaction) (l : list CTransaction) (b : CBlock) : Prop := {
  wb_version : b_nVersion b = Block.CURRENT_VERSION;
  wb_prev : hashPrevBlock b = phashBlock prev;
  wb_bits : Difficulty.GetNextTargetRequired ProofOfWorkLimit bnProofOfStakeLimit pindexBest false = Some (nBits b);
  wb_time : b_nTime b = Z.max (BlockIndex.GetPastTimeLimit prev + 1) adjusted_time;
  wb_vtx : vtx b = coinbase :: l;
  wb_sig : vchBlockSig b = [];
  wb_root : hashMerkleRoot b = fst (Merkle.BuildMerkleTree (Merkle.block_txids b));
  wb_input : exists txin, vin coinbase = [txin] /\ prevout txin = OutPoint.null /\
    exists rest, scriptSig txin = CScript.push_uint64 [] (u32 (nHeight prev + 1)) ++ rest;
  wb_output : exists script, vout coinbase = [mk_txout (Reward.GetProofOfWorkReward (nHeight prev) (tm_fees m)) script];
  wb_coinbase_time : nTime coinbase = adjusted_time;
  wb_coinbase_lock : nLockTime coinbase = 0
}.

(** What a node requires of time and height for the next block. *)
Record next_ready (prev : CBlockIndex) (pprev : index_ptr) : Prop := {
  nr_best : pindexBest = prev :: pprev;
  nr_height : 0 <= nHeight prev < 2 ^ 31 - 1;
  nr_now : 0 <= adjusted_time < 2 ^ 32 - 600;
  nr_time : 0 <= bi_nTime prev < FutureDrift adjusted_time
}.

Lemma max_time_bound (l : list CTransaction) z : Forall (fun t => nTime t <= z) l -> forall a, a <= z ->
  a <= fold_left (fun maxTransactionTime tx => Z.max maxTransactionTime (nTime tx)) l a <= z.
Proof.
  induction 1 as [|t l Ht Hl IH]; intros a Ha; simpl; [lia|]. specialize (IH (Z.max a (nTime t)) ltac:(lia)). lia.
Qed.

Lemma CreateNewBlock_work prev pprev fuel rk keys c mined rk' keys' last n b last' n' nonce : pool_ready -> next_ready prev pprev ->
  CreateNewBlock db fDebug false COINBASE_FLAGS bnProofOfStakeLimit blockmaxsize blockminsize mintxfee keypool_arg IsLocked fuel rk keys c
    = Some (Some mined, rk', keys') ->
  IncrementExtraNonce COINBASE_FLAGS (mined_block mined) prev last n = Some (b, last', n') ->
  exists m coinbase l, work_block prev m coinbase l (with_nonce nonce b) /\ added adjusted_time (mk_template [] ∅ 1000 0 100 0 c) l m /\
    Forall (minable db) l /\ Forall (fun t => candidate (nHeight prev + 1) t = true) l /\
    NoDup (map Tx.GetHash l) /\ zlen l < MAX_BLOCK_SIZE.
Proof.
  intros Hpool [Hbest Hh Hnow Htime]. unfold CreateNewBlock, FutureDrift in *. rewrite Hbest. cbn [head mbind option_bind negb].
  destruct (GetReservedKey _ _ _ _) as [[[pubkey rk1] keys1]|]; [|done]. cbn [mbind option_bind]. destruct pubkey as [pubkey|]; [|done].
  set (cb := coinbase_tx _ _). unfold fill_block. rewrite Hbest.
  destruct (Difficulty.GetNextTargetRequired _ _ _ _) as [bits|] eqn:Eb; [|done]. cbn [mbind option_bind].
  assert (swrap 32 (nHeight prev + 1) = nHeight prev + 1) as -> by (apply swrap_id; unfold in_s; lia).
  destruct (gather _ _ _ _ _) as [g|] eqn:Eg; [|done]. cbn [mbind option_bind]. destruct (collect _ _ _ _ _ _ _ _ _ _ _ _) as [m|] eqn:Ec; [|done].
  cbn [mbind option_bind]. assert (u32 adjusted_time = adjusted_time) as Eu by (unfold u32; apply Z.mod_small; lia).
  change (nTime cb) with (u32 adjusted_time) in Ec. rewrite Eu in Ec.
  destruct (collected_minable _ _ _ _ _ _ Hpool Eg Ec) as (l & Ha & Hm & Hcand & Hnd & Hlen).
  destruct (adds_limits _ _ _ _ Ha) as (Ev & _ & Htimes & _); [pose proof max_size_range; cbn; lia|cbn; change MAX_BLOCK_SIGOPS with 20000; lia|done|].
  cbn [tm_vtx app] in Ev. intros [= <- _ _]. unfold IncrementExtraNonce. cbn [mined_block vtx vin map vout cb coinbase_tx].
  destruct (_ <? _); [done|]. match goal with |- context [Merkle.BuildMerkleTree ?x] => destruct (Merkle.BuildMerkleTree x) as [root tree] eqn:Er end.
  intros [= <- _ _]. exists m. eexists. exists l. split; [|done].
  split; cbn [with_nonce b_nVersion hashPrevBlock hashMerkleRoot b_nTime nBits vtx vchBlockSig vin vout nTime]; try done.
  - by rewrite Hbest.
  - unfold Block.GetMaxTransactionTime. cbn [vtx fold_left nTime]. rewrite Ev, Eu.
    assert (Z.max 0 adjusted_time <= adjusted_time) as Hmax by lia.
    pose proof (max_time_bound l adjusted_time Htimes (Z.max 0 adjusted_time) Hmax) as Hb.
    set (mt := fold_left _ l _) in *. assert (mt = adjusted_time) as -> by lia. unfold BlockIndex.GetPastTimeLimit, BlockIndex.GetBlockTime.
    rewrite i64_id in Htime by lia. rewrite i64_id by lia. 
    assert (0 <= Z.max (bi_nTime prev + 1) adjusted_time < 2 ^ 32) as Hr by lia. unfold u32. rewrite (Z.mod_small _ _ Hr), Z.mod_small by lia. lia.
  - by rewrite Ev.
  - symmetry. exact (f_equal fst Er).
  - eexists. split; [done|]. split; [done|]. eexists. cbn [scriptSig]. unfold CScript.push_data. by rewrite <- app_assoc.
  - by eexists.
  - exact Eu.
  - reflexivity.
Qed.

(** ** Connecting it *)
(** The coinbase is new and in order, and the room kept for it and for the header is enough. *)
Record coinbase_fits (coinbase : CTransaction) : Prop := {
  cf_checked : CheckTransaction coinbase = TxCheck.Accept;
  cf_ops : GetLegacySigOpCount coinbase <= 100;
  cf_size : GetSerializeSize coinbase <= 900;
  cf_new : tx_index db !! Tx.GetHash coinbase = None;
  cf_unknown : mempool_txs !! Tx.GetHash coinbase = None
}.

(** The transactions can be read at their positions in the block. *)
Fixpoint written (this : CBlockIndex) (j : bool) (nTxPos : Z) (l : list CTransaction) : Prop :=
  match l with
  | [] => True
  | t :: l => pool_or_disk (Tx.GetHash t) (TxIndex.of_pos (this_pos this nTxPos) (length (vout t))) = Some t /\
    written this j (next_pos j nTxPos t) l
  end.

(** Where the block is put: above the best block, in a place of the block files that is its own. *)
Record placed (this prev : CBlockIndex) (j : bool) (b : CBlock) : Prop := {
  pl_height : nHeight this = nHeight prev + 1;
  pl_file : nFile this <> UINT_MAX;
  pl_outside h ti : tx_index db !! h = Some ti -> ~ in_block this (pos ti);
  pl_written coinbase l : vtx b = coinbase :: l -> written this j (next_pos j (first_pos j this b) coinbase) l
}.

Lemma adds_connect this prev pprev cb cb_ops j ct m l m' s : pindexBest = prev :: pprev -> nHeight this = nHeight prev + 1 ->
  nFile this <> UINT_MAX -> tx_index db !! cb = None -> (forall h ti, tx_index db !! h = Some ti -> ~ in_block this (pos ti)) -> 0 <= cb_ops <= 100 ->
  added ct m l m' -> follows this cb cb_ops m s -> Forall (minable db) l -> Forall (fun t => Tx.GetHash t <> cb) l -> written this j (nTxPos s) l ->
  exists s', connect_txs db j (this :: pindexBest) l s = Ok s' /\ follows this cb cb_ops m' s'.
Proof.
  intros Hbest Hh Hf Hcb Hdb Hops Ha. revert s. induction Ha as [m|m rate t m1 l m2 Ht Ha IH]; intros s Hs Hm Hne Hw; [by exists s|].
  apply Forall_cons in Hm as [Hmt Hm]. apply Forall_cons in Hne as [Hnt Hne]. destruct Hw as [Hr Hw]. cbn [connect_txs].
  destruct (add_tx_connects db this prev pprev cb Hbest Hh Hf Hcb Hdb cb_ops Hops _ _ _ _ j _ _ _ _ _ _ Hs Hmt Hnt Hr Ht) as (s1 & -> & Hs1 & Ep).
  cbn [mbind outcome_bind]. apply IH; [done|done|done|by rewrite Ep].
Qed.

(** The state after the coinbase. *)
Lemma coinbase_connects this prev pprev j coinbase pos0 c c0 : pindexBest = prev :: pprev -> cache_ok c -> cache_ok c0 ->
  Tx.IsCoinBase coinbase = true -> coinbase_fits coinbase -> is_Some (Tx.GetValueOut coinbase) ->
  exists s, connect_tx db j (this :: pindexBest) coinbase (mk_connect ∅ 0 0 0 0 0 0 pos0 c) = Ok s /\
    follows this (Tx.GetHash coinbase) (GetLegacySigOpCount coinbase) (mk_template [] ∅ 1000 0 100 0 c0) s /\ nTxPos s = next_pos j pos0 coinbase.
Proof.
  intros Hbest Hc Hc0 Hb [Hck Hops Hsz Hnew _] [out Eo]. unfold connect_tx, overwrites, TxDB.ReadTxIndex. rewrite Hnew, Hb, Eo.
  cbn [reject_if mbind outcome_bind nSigOps]. pose proof (legacy_bound coinbase) as Hl. unfold count_sigops.
  assert (u32 (0 + GetLegacySigOpCount coinbase) = GetLegacySigOpCount coinbase) as -> by (unfold u32; rewrite Z.mod_small; lia).
  change MAX_BLOCK_SIGOPS with 20000. destruct (Z.ltb_spec 20000 (GetLegacySigOpCount coinbase)); [lia|].
  cbn [reject_if mbind outcome_bind head access]. eexists. split; [done|]. split; [|done].
  split; cbn [tm_pool tm_fees nBlockSigOps tm_cache mapQueuedChanges nFees nSigOps sig_cache]; [|done|lia|change MAX_BLOCK_SIGOPS with 20000; lia|done].
  split; [done|]. intros h Hh. rewrite lookup_insert_ne by done. rewrite lookup_empty. constructor.
Qed.

Lemma sum_sizes_nonneg l : 0 <= sum_sizes l.
Proof. induction l as [|t l IH]; [done|]. cbn [sum_sizes foldr]. fold (sum_sizes l). pose proof (tx_size_range t). lia. Qed.
Lemma sum_legacy_nonneg l : 0 <= sum_legacy l.
Proof. induction l as [|t l IH]; [done|]. cbn [sum_legacy foldr]. fold (sum_legacy l). pose proof (legacy_bound t). lia. Qed.

Lemma fold_sizes l a : 0 <= a -> a + sum_sizes l < 2 ^ 32 ->
  fold_left (fun nSize t => u32 (nSize + GetSerializeSize t)) l a = a + sum_sizes l.
Proof.
  revert a. induction l as [|t l IH]; intros a Ha Hs; cbn [fold_left sum_sizes foldr] in *; [lia|]. fold (sum_sizes l) in *.
  pose proof (tx_size_range t) as Ht. pose proof (sum_sizes_nonneg l).
  set (n := GetSerializeSize t) in *. clearbody n. rewrite u32_small by lia. rewrite IH by lia. lia.
Qed.

Lemma fold_sigops l a : 0 <= a -> a + sum_legacy l < 2 ^ 32 -> fold_left (fun n t => u32 (n + GetLegacySigOpCount t)) l a = a + sum_legacy l.
Proof.
  revert a. induction l as [|t l IH]; intros a Ha Hs; cbn [fold_left sum_legacy foldr] in *; [lia|]. fold (sum_legacy l) in *.
  pose proof (legacy_bound t) as Ht. pose proof (sum_legacy_nonneg l).
  rewrite u32_small by lia. rewrite IH by lia. lia.
Qed.

(** The checks of the coinbase leave its value in range. *)
Lemma coinbase_value coinbase v script : CheckTransaction coinbase = TxCheck.Accept -> vout coinbase = [mk_txout v script] ->
  Tx.GetValueOut coinbase = Some v.
Proof.
  unfold CheckTransaction. repeat (case_bool_decide; [done|]). destruct (_ <? _); [done|].
  intros Hck Ev. rewrite Ev in Hck. cbn [check_outputs nValue] in Hck.
  destruct (_ && _); [done|]. destruct (Z.ltb_spec v 0); [done|]. destruct (Z.ltb_spec MAX_MONEY v); [done|].
  unfold Tx.GetValueOut. rewrite Ev. cbn [Tx.value_loop nValue].
  rewrite MAX_MONEY_eq in *. rewrite i64_id by lia. replace (0 + v) with v by lia.
  assert (MoneyRange v = true) as Er by (apply MoneyRange_spec; rewrite MAX_MONEY_eq; lia). by rewrite Er.
Qed.

(** A numbered template, and the transactions it is made of. *)
Record complete (prev : CBlockIndex) (c : CSignatureCache) (m : Template) (coinbase : CTransaction) (l : list CTransaction) (b : CBlock) : Prop := {
  co_work : work_block prev m coinbase l b;
  co_added : added adjusted_time (mk_template [] ∅ 1000 0 100 0 c) l m;
  co_minable : Forall (minable db) l;
  co_final : Forall (fun t => candidate (nHeight prev + 1) t = true) l;
  co_unique : NoDup (map Tx.GetHash l);
  co_count : zlen l < MAX_BLOCK_SIZE;
  co_fits : coinbase_fits coinbase
}.

Lemma complete_limits prev c m coinbase l b : complete prev c m coinbase l b ->
  1000 + sum_sizes l <= max_size /\ Forall (fun t => nTime t <= adjusted_time) l /\ 100 + sum_legacy l < MAX_BLOCK_SIGOPS.
Proof.
  intros [_ Ha Hm _ _ _ _]. destruct (adds_limits _ _ _ _ Ha) as (_ & Hs & Ht & Ho); [|cbn; change MAX_BLOCK_SIGOPS with 20000; lia|done|done].
  pose proof max_size_range. cbn [nBlockSize]. lia.
Qed.

Lemma complete_coinbase prev c m coinbase l b : complete prev c m coinbase l b -> Tx.IsCoinBase coinbase = true.
Proof.
  intros [[_ _ _ _ _ _ _ (txin & Ei & En & _) (script & Eo) _ _] _ _ _ _ _ _]. unfold Tx.IsCoinBase. rewrite Ei, En, Eo. reflexivity.
Qed.

Lemma complete_pow prev c m coinbase l b : complete prev c m coinbase l b -> Block.IsProofOfStake b = false.
Proof.
  intros [Hw _ Hm _ _ _ _]. unfold Block.IsProofOfStake. rewrite (wb_vtx _ _ _ _ _ Hw). destruct l as [|t l]; [done|].
  apply Forall_cons in Hm as [Ht _]. apply (mi_plain _ _ Ht).
Qed.

Lemma complete_size prev c m coinbase l b : complete prev c m coinbase l b -> GetSerializeSize b <= MAX_BLOCK_SIZE.
Proof.
  intros Hb. pose proof (complete_limits _ _ _ _ _ _ Hb) as (Hs & _ & _). pose proof max_size_range as Hmax. change (MAX_BLOCK_SIZE - 1000) with 999000 in Hmax.
  destruct Hb as [Hw _ _ _ _ Hc Hf]. pose proof (cf_size _ Hf) as Hcs. 
  assert (GetSerializeSize b = u32 (80 + fold_left (fun nSize t => u32 (nSize + GetSerializeSize t)) (vtx b) (u32 (GetSizeOfCompactSize (zlen (vtx b)))) +
    u32 (GetSizeOfCompactSize (zlen (vchBlockSig b)) + zlen (vchBlockSig b)))) as -> by reflexivity.
  rewrite (wb_sig _ _ _ _ _ Hw), (wb_vtx _ _ _ _ _ Hw). set (a := u32 (GetSizeOfCompactSize (zlen (coinbase :: l)))).
  assert (0 <= a <= 9) as Ha.
  { unfold a. destruct (u32_le (GetSizeOfCompactSize (zlen (coinbase :: l)))); unfold GetSizeOfCompactSize in *; repeat case_match; lia. }
  pose proof (sum_sizes_nonneg l). pose proof (tx_size_range coinbase).
  rewrite fold_sizes; cbn [sum_sizes foldr]; fold (sum_sizes l); [|lia|set (n := GetSerializeSize coinbase) in *; clearbody n; lia].
  change (u32 (GetSizeOfCompactSize (zlen []) + zlen [])) with 1. change MAX_BLOCK_SIZE with 1000000 in *.
  set (n := GetSerializeSize coinbase) in *. clearbody n. destruct (u32_le (80 + (a + (n + sum_sizes l)) + 1)); lia.
Qed.

Lemma complete_good prev pprev c m coinbase l b j : next_ready prev pprev -> complete prev c m coinbase l b ->
  (j = false -> Difficulty.CheckProofOfWork ProofOfWorkLimit (Block.GetPoWHash scrypt_blockhash b) (nBits b) = true) ->
  CheckBlock scrypt_blockhash ProofOfWorkLimit adjusted_time nMaxDatacarrierBytes (negb j) (negb j) false b = TxCheck.Accept.
Proof.
  intros [Hbest Hh Hnow Htime] Hb Hpow. apply CheckBlock_good. pose proof (complete_limits _ _ _ _ _ _ Hb) as (_ & Htimes & Hops).
  pose proof (complete_coinbase _ _ _ _ _ _ Hb) as Hcb. pose proof (complete_pow _ _ _ _ _ _ Hb) as Hpos.
  pose proof (complete_size _ _ _ _ _ _ Hb) as Hsize. destruct Hb as [Hw _ Hm _ Hnd Hc Hf].
  pose proof (wb_vtx _ _ _ _ _ Hw) as Ev. pose proof (wb_time _ _ _ _ _ Hw) as Et.
  unfold FutureDrift in Htime. rewrite i64_id in Htime by lia. unfold BlockIndex.GetPastTimeLimit, BlockIndex.GetBlockTime in Et.
  split; unfold GetBlockTime; rewrite ?Ev, ?Et; try done.
  - split; [|done]. rewrite zlen_cons. lia.
  - intros Hj _. apply Hpow. by destruct j.
  - unfold FutureDrift. rewrite i64_id by lia. lia.
  - exists coinbase, l. split; [done|]. split; [done|]. eapply Forall_impl; [exact Hm|]. intros t Ht. apply (mi_plain _ _ Ht).
  - by rewrite Hpos.
  - constructor.
    + split; [apply Hf|]. rewrite (wb_coinbase_time _ _ _ _ _ Hw). lia.
    + rewrite Forall_forall in *. intros t Ht. split; [apply (mi_checked _ _ (Hm t Ht))|]. specialize (Htimes t Ht). lia.
  - unfold Merkle.block_txids. rewrite Ev. cbn [map]. constructor; [|done]. intros (t & Eh & Ht)%list_elem_of_fmap.
    rewrite Forall_forall in Hm. pose proof (mi_key _ _ (Hm t Ht)) as Hk. rewrite <- Eh in Hk. by rewrite (cf_unknown _ Hf) in Hk.
  - unfold block_sigops. rewrite Ev. pose proof (cf_ops _ Hf). pose proof (legacy_bound coinbase). pose proof (sum_legacy_nonneg l).
    change MAX_BLOCK_SIGOPS with 20000 in *. rewrite fold_sigops; cbn [sum_legacy foldr]; fold (sum_legacy l); lia.
  - intros _. apply (wb_root _ _ _ _ _ Hw).
Qed.

Lemma complete_connects prev pprev c m coinbase l b this j c' : pool_ready -> next_ready prev pprev -> complete prev c m coinbase l b ->
  cache_ok c -> cache_ok c' -> placed this prev j b ->
  (j = false -> Difficulty.CheckProofOfWork ProofOfWorkLimit (Block.GetPoWHash scrypt_blockhash b) (nBits b) = true) ->
  exists r, ConnectBlock db (this :: pindexBest) j b c' = Ok r.
Proof.
  intros Hpool Hnext Hb Hc Hc' [Hh Hfile Hout Hwr] Hpow. unfold ConnectBlock. rewrite (complete_good _ _ _ _ _ _ _ _ Hnext Hb Hpow).
  pose proof (complete_coinbase _ _ _ _ _ _ Hb) as Hcb. pose proof (complete_pow _ _ _ _ _ _ Hb) as Hpos. unfold Block.IsProofOfWork. rewrite Hpos.
  destruct Hnext as [Hbest _ _ _]. destruct Hb as [Hw Ha Hm _ Hnd Hlen Hf]. destruct (wb_output _ _ _ _ _ Hw) as [script Eo].
  pose proof (coinbase_value _ _ _ (cf_checked _ Hf) Eo) as Ev. pose proof (legacy_bound coinbase) as Hl.
  cbn [head access mbind outcome_bind tail]. rewrite (wb_vtx _ _ _ _ _ Hw). cbn [connect_txs].
  destruct (coinbase_connects this prev pprev j coinbase (first_pos j this b) c' c Hbest Hc' Hc Hcb Hf ltac:(by rewrite Ev)) as (s1 & -> & Hs1 & Ep).
  cbn [mbind outcome_bind].
  destruct (adds_connect this prev pprev _ _ j _ _ _ _ s1 Hbest Hh Hfile (cf_new _ Hf) Hout (conj (proj1 Hl) (cf_ops _ Hf)) Ha Hs1 Hm) as (s2 & -> & Hs2).
  - eapply Forall_impl; [exact Hm|]. intros t Ht E. pose proof (mi_key _ _ Ht) as Hk. rewrite E in Hk. by rewrite (cf_unknown _ Hf) in Hk.
  - rewrite Ep. apply (Hwr coinbase l), (wb_vtx _ _ _ _ _ Hw).
  - cbn [mbind outcome_bind negb]. unfold check_work_reward. rewrite Hbest. cbn [head access mbind outcome_bind]. rewrite (wb_vtx _ _ _ _ _ Hw).
    cbn [lookup list_lookup access mbind outcome_bind]. rewrite Ev, (fo_fees _ _ _ _ _ Hs2). cbn [access mbind outcome_bind].
    destruct (Z.ltb_spec (Reward.GetProofOfWorkReward (nHeight prev) (tm_fees m)) (Reward.GetProofOfWorkReward (nHeight prev) (tm_fees m))); [lia|].
    cbn [reject_if mbind outcome_bind]. destruct j; by eexists.
Qed.

(** ** Its place in the chain *)
Lemma final_later h time bh t : 0 < h -> adjusted_time <= time -> 0 < time -> candidate h t = true -> IsFinalTx bh adjusted_time t h time = true.
Proof.
  intros Hh Ht Hpos. unfold candidate. rewrite negb_true_iff, orb_false_iff, negb_false_iff. intros [_ Hf]. unfold IsFinalTx in *.
  destruct (nLockTime t =? 0); [done|]. rewrite (proj2 (Z.eqb_neq h 0)) in * by lia. rewrite (proj2 (Z.eqb_neq time 0)) by lia.
  cbn [Z.eqb] in Hf. destruct (nLockTime t <? LOCKTIME_THRESHOLD); [done|].
  destruct (Z.ltb_spec (nLockTime t) adjusted_time), (Z.ltb_spec (nLockTime t) time); try done; lia.
Qed.

Lemma push_height h : 0 <= h < 2 ^ 63 -> CScript.push_uint64 [] h = CScript.push_int64 [] h.
Proof.
  intros Hh. unfold CScript.push_uint64, CScript.push_int64, CBigNum.of_int. rewrite (proj2 (Z.eqb_neq h (-1))) by lia. cbn [orb].
  by destruct (Z.leb_spec 0 h); [|lia].
Qed.

Variables (TestNet : bool) (LastPOWBlock : Z).

Lemma complete_context prev pprev c m coinbase l b s : next_ready prev pprev -> complete prev c m coinbase l b ->
  nHeight prev + 1 <= LastPOWBlock -> Checkpoints.CheckHardened TestNet (nHeight prev + 1) (BlockHash b) = true ->
  check_context TestNet LastPOWBlock bnProofOfStakeLimit s b prev pindexBest = Ok () /\ starts_with_height b (nHeight prev + 1) = Ok true.
Proof.
  intros [Hbest Hh Hnow Htime] Hb Hlast Hck. pose proof (complete_pow _ _ _ _ _ _ Hb) as Hpos. destruct Hb as [Hw _ _ Hfin _ _ _].
  unfold FutureDrift in Htime. rewrite i64_id in Htime by lia. pose proof (wb_time _ _ _ _ _ Hw) as Et.
  unfold BlockIndex.GetPastTimeLimit, BlockIndex.GetBlockTime in Et. split.
  - unfold check_context, Block.IsProofOfWork, FutureDrift, BlockCheck.GetBlockTime, BlockIndex.GetPastTimeLimit, BlockIndex.GetBlockTime.
    rewrite Hpos, (wb_version _ _ _ _ _ Hw), (wb_bits _ _ _ _ _ Hw), (wb_vtx _ _ _ _ _ Hw). cbn [negb andb].
    change (Block.CURRENT_VERSION <? 7) with false. cbn [lookup list_lookup reject_if access mbind outcome_bind].
    destruct (Z.ltb_spec LastPOWBlock (nHeight prev + 1)); [lia|]. cbn [reject_if mbind outcome_bind].
    rewrite (wb_coinbase_time _ _ _ _ _ Hw), Et, Z.eqb_refl. rewrite !i64_id by lia.
    destruct (Z.ltb_spec (adjusted_time + 10 * 60) (Z.max (bi_nTime prev + 1) adjusted_time)); [lia|].
    destruct (Z.leb_spec (Z.max (bi_nTime prev + 1) adjusted_time) (bi_nTime prev)); [lia|].
    destruct (Z.ltb_spec (Z.max (bi_nTime prev + 1) adjusted_time + 10 * 60) (bi_nTime prev)); [lia|]. cbn [negb orb reject_if mbind outcome_bind].
    assert (forallb (fun tx => IsFinalTx (best_height s) adjusted_time tx (nHeight prev + 1) (Z.max (bi_nTime prev + 1) adjusted_time)) (coinbase :: l) = true) as ->.
    { cbn [forallb]. unfold IsFinalTx at 1. rewrite (wb_coinbase_lock _ _ _ _ _ Hw). cbn [Z.eqb andb]. apply forallb_forall. intros t Ht%list_elem_of_In.
      rewrite Forall_forall in Hfin. apply final_later; [lia|lia|lia|by apply Hfin]. }
    cbn [negb reject_if mbind outcome_bind]. by rewrite Hck.
  - unfold starts_with_height. destruct (wb_input _ _ _ _ _ Hw) as (txin & Ei & _ & rest & Es). rewrite (wb_vtx _ _ _ _ _ Hw).
    cbn [lookup list_lookup access mbind outcome_bind]. rewrite Ei. cbn [lookup list_lookup access mbind outcome_bind].
    rewrite Es, u32_small, push_height by lia. rewrite take_app_length. by rewrite bool_decide_true.
Qed.

(** ** The theorem *)
(** C16. A block template is good: the block that [CreateNewBlock] makes for a proof of work, once
    [IncrementExtraNonce] has numbered it and whatever its nonce, passes what [AcceptBlock] asks of
    its place above the best block and connects in [ConnectBlock], which a node
    never tries before it hands the template to a miner. *)
Theorem CreateNewBlock_connects prev pprev fuel rk keys c mined rk' keys' last n b last' n' nonce this j c' s :
  pool_ready -> next_ready prev pprev -> cache_ok c -> cache_ok c' ->
  CreateNewBlock db fDebug false COINBASE_FLAGS bnProofOfStakeLimit blockmaxsize blockminsize mintxfee keypool_arg IsLocked fuel rk keys c
    = Some (Some mined, rk', keys') ->
  IncrementExtraNonce COINBASE_FLAGS (mined_block mined) prev last n = Some (b, last', n') ->
  (forall coinbase, head (vtx b) = Some coinbase -> coinbase_fits coinbase) ->
  placed this prev j (with_nonce nonce b) ->
  (j = false -> Difficulty.CheckProofOfWork ProofOfWorkLimit (Block.GetPoWHash scrypt_blockhash (with_nonce nonce b)) (nBits b) = true) ->
  nHeight prev + 1 <= LastPOWBlock -> Checkpoints.CheckHardened TestNet (nHeight prev + 1) (BlockHash (with_nonce nonce b)) = true ->
  check_context TestNet LastPOWBlock bnProofOfStakeLimit s (with_nonce nonce b) prev pindexBest = Ok () /\
  starts_with_height (with_nonce nonce b) (nHeight prev + 1) = Ok true /\
  exists r, ConnectBlock db (this :: pindexBest) j (with_nonce nonce b) c' = Ok r.
Proof.
  intros Hpool Hnext Hc Hc' Hcreate Hinc Hfits Hplace Hpow Hlast Hck.
  destruct (CreateNewBlock_work _ _ _ _ _ _ _ _ _ _ _ _ _ _ nonce Hpool Hnext Hcreate Hinc) as (m & coinbase & l & Hw & Ha & Hm & Hcand & Hnd & Hlen).
  assert (complete prev c m coinbase l (with_nonce nonce b)) as Hb.
  { split; try done. apply Hfits. change (vtx b) with (vtx (with_nonce nonce b)). by rewrite (wb_vtx _ _ _ _ _ Hw). }
  destruct (complete_context _ _ _ _ _ _ _ s Hnext Hb Hlast Hck) as [Hctx Hstart]. split; [done|]. split; [done|].
  exact (complete_connects _ _ _ _ _ _ _ _ _ _ Hpool Hnext Hb Hc Hc' Hplace Hpow).
Qed.
End template.
