(* ===== verification/MiningCheck.v ===== *)
(** * MiningCheck: block templates on a small pool (src/src/miner.cpp)

    A transaction of the pool and one that spends its output are put in the template in this
    order; the template connects.  A pool with a transaction that has lost an input
    shows the dangling pointer of [CreateNewBlock]. *)

From S2P Require Import Prelude BigNum ScriptOps Serialize Crypto Keys Core SigHash Interp InterpFacts Standard Base58 TxCheck Block Mempool Chain Kernel Connect BlockCheck BlockConnect BlockConnectFacts Checkpoints Activate AcceptBlock SigOps Wallet KeyPool KeyPoolFacts Mining MiningFacts MiningReturns MiningConnect MiningBlock.
Import Check Inputs ConnectFacts BlockConnectExamples.
Open Scope Z_scope.
#[local] Existing Instances ref_bn dummy_digests dummy_ec toy_env counting_draws.
#[local] Instance list_heap : HeapLayout := {| heap_layout _ l := l |}.
#[local] Instance list_heap_ok : HeapLayoutOk.
Proof. by split. Qed.

(** The later transaction pays the higher rate, but has to wait. *)
Definition first_tx : CTransaction := mk_tx 1 2000 [mk_txin (mk_outpoint funding_hash 0) [] 0] [mk_txout 60000 [B#OP_1; B#OP_NOP]] 0.
Definition second_tx : CTransaction := mk_tx 1 3000 [mk_txin (mk_outpoint (Tx.GetHash first_tx) 0) [] 0] [mk_txout 10000 [B#OP_1; B#OP_NOP]] 0.
Definition cheap_tx : CTransaction := mk_tx 1 3000 [mk_txin (mk_outpoint funding_hash 1) [] 0] [mk_txout 9 [B#OP_1; B#OP_NOP]] 0.
Definition mining_pool : gmap Z CTransaction :=
  list_to_map (map (fun t => (Tx.GetHash t, t)) [first_tx; second_tx; cheap_tx]).

Definition mining_prev : CBlockIndex := mk_index 901 None 1 50 1 1 0 0 0 0 OutPoint.null 0 0 7 0 99000 0x1d00ffff 0.
Definition mining_node (pool : gmap Z CTransaction) : NodeEnv := {|
  scrypt_blockhash _ := 0; ProofOfWorkLimit := 2 ^ 236; adjusted_time := 100000; nMaxDatacarrierBytes := 80;
  prefixes := main_prefixes; nCoinbaseMaturity := 10; nStakeMinAge := 6 * 60 * 60; nStakeMinConfirmations := 10;
  pindexBest := [mining_prev]; nBestHeight := 1; TotalBlocksEstimate := -1; mempool_txs := pool;
  ReadTx := toy_disk; ReadHeader _ _ := Some toy_header |}.
Definition mining_db : CTxDB := mk_txdb funding_db ∅ (Some 901) None.

Section run.
#[local] Instance mining_env : NodeEnv := mining_node mining_pool.

Definition make_template (fProofOfStake : bool) : option (option Mined * CReserveKey * WalletKeys) :=
  CreateNewBlock mining_db false fProofOfStake [] (2 ^ 236) None None None 1 false 5 new_reserve new_wallet empty_cache.
Definition mining_summary (r : option (option Mined * CReserveKey * WalletKeys)) : option (list Z * Z * Z) :=
  '(mined, _, _) ← r; mined ← mined; Some (map nTime (vtx (Mining.mined_block mined)), mined_fees mined, nLastBlockTx mined).
Example template_order : mining_summary (make_template false) = Some ([100000; 2000; 3000], 90000, 2).
Proof. vm_compute. reflexivity. Qed.
Example stake_template : mining_summary (make_template true) = Some ([100000; 2000; 3000], 90000, 2).
Proof. vm_compute. reflexivity. Qed.

(** ** The template connects *)
Lemma mining_pool_forall (P : Z -> CTransaction -> bool) : forallb (fun e => P e.1 e.2) (map_to_list mining_pool) = true ->
  forall h t, mining_pool !! h = Some t -> P h t = true.
Proof. intros Hp h t Et. apply elem_of_map_to_list in Et. apply (forallb_elem (fun e => P e.1 e.2) (map_to_list mining_pool) (h, t)); [exact Hp|exact Et]. Qed.

Definition unindexed (h : Z) : bool := match tx_index mining_db !! h with Some _ => false | None => true end.
Definition checked (t : CTransaction) : bool := bool_decide (CheckTransaction t = TxCheck.Accept) && (script_bytes t <=? MAX_SIZE).
Lemma mining_pool_unindexed : forallb (fun e => unindexed e.1) (map_to_list mining_pool) = true.
Proof. vm_compute. reflexivity. Qed.
Lemma mining_pool_checked : forallb (fun e => checked e.2) (map_to_list mining_pool) = true.
Proof. vm_compute. reflexivity. Qed.

Lemma mining_pool_ready : pool_ready mining_db.
Proof.
  split; cbn [mempool_txs mining_env mining_node].
  - intros h t Et. apply Z.eqb_eq. refine (mining_pool_forall (fun h t => Tx.GetHash t =? h) _ h t Et). vm_compute. reflexivity.
  - intros h [t Et]. assert (unindexed h = true) as Hd by exact (mining_pool_forall (fun h _ => unindexed h) mining_pool_unindexed h t Et).
    unfold unindexed in Hd. destruct (tx_index mining_db !! h); [discriminate Hd|reflexivity].
  - vm_compute. reflexivity.
  - intros h t Et. assert (checked t = true) as Hd by exact (mining_pool_forall (fun _ t => checked t) mining_pool_checked h t Et).
    unfold checked in Hd. apply andb_true_iff in Hd as [Hd1 Hd2]. apply bool_decide_eq_true in Hd1. apply Z.leb_le in Hd2. by split.
Qed.

Definition numbered (mined : Mined) : option (CBlock * Z * Z) := IncrementExtraNonce [] (Mining.mined_block mined) mining_prev 0 41.
Definition dummy_index : CBlockIndex := mk_index 902 None 1 1 2 2 0 0 0 0 OutPoint.null 0 0 7 0 100000 0x1d00ffff 0.

Definition fits_b (coinbase : CTransaction) : bool :=
  bool_decide (CheckTransaction coinbase = TxCheck.Accept) && (GetLegacySigOpCount coinbase <=? 100) && (GetSerializeSize coinbase <=? 900) &&
  bool_decide (tx_index mining_db !! Tx.GetHash coinbase = None) && bool_decide (mining_pool !! Tx.GetHash coinbase = None).
Lemma fits_b_ok coinbase : fits_b coinbase = true -> coinbase_fits mining_db coinbase.
Proof. intros Hf. unfold fits_b in Hf. rewrite !andb_true_iff, !bool_decide_eq_true, !Z.leb_le in Hf. destruct Hf as [[[[? ?] ?] ?] ?]. by split. Qed.

Definition written_b (l : list CTransaction) : bool := forallb (fun t => bool_decide (mining_pool !! Tx.GetHash t = Some t)) l.
Lemma written_b_ok l : written_b l = true -> written dummy_index true 1 l.
Proof.
  induction l as [|t l IH]; [done|]. unfold written_b. cbn [forallb written next_pos]. intros [Ht Hl]%andb_true_iff. apply bool_decide_eq_true in Ht.
  split; [exact Ht|by apply IH].
Qed.

Lemma mining_db_outside h ti : tx_index mining_db !! h = Some ti -> ~ in_block dummy_index (pos ti).
Proof.
  unfold mining_db. cbn [tx_index]. unfold funding_db. intros E. apply lookup_singleton_Some in E as [_ <-]. intros [_ Hp]. discriminate Hp.
Qed.

Definition good_template (r : option (option Mined * CReserveKey * WalletKeys)) : bool :=
  match r with
  | Some (Some mined, _, _) =>
    match numbered mined with
    | Some (b, _, _) => match vtx b with cb :: l => fits_b cb && written_b l | [] => false end
    | None => false
    end
  | _ => false
  end.

Lemma CreateNewBlock_connects_witness : exists mined rk keys b last n,
  make_template false = Some (Some mined, rk, keys) /\ numbered mined = Some (b, last, n) /\
  exists r, ConnectBlock mining_db [dummy_index; mining_prev] true (with_nonce 7 b) empty_cache = Ok r.
Proof.
  assert (good_template (make_template false) = true) as Hr by (vm_compute; reflexivity). unfold good_template in Hr.
  destruct (make_template false) as [[[[mined|] rk] keys]|] eqn:Ec; [|discriminate Hr|discriminate Hr].
  destruct (numbered mined) as [[[b last] n]|] eqn:Ei; [|discriminate Hr]. rename Hr into Ev.
  destruct (vtx b) as [|cb l] eqn:El; [discriminate Ev|]. apply andb_true_iff in Ev as [Hcb Hl].
  exists mined, rk, keys, b, last, n. split; [exact eq_refl|]. split; [exact Ei|].
  refine (proj2 (proj2 (CreateNewBlock_connects mining_db false (2 ^ 236) None None None [] 1 false true 1000 mining_prev [] 5 new_reserve new_wallet
    empty_cache mined rk keys 0 41 b last n 7 dummy_index true empty_cache
    (mk_chain ∅ None None 0 1 0 0 ∅ mining_db (mk_pool ∅ ∅ 0) empty_cache) mining_pool_ready _ empty_cache_ok empty_cache_ok Ec Ei _ _ _ _ _))).
  - split; [reflexivity|split; [discriminate|reflexivity]|split; [discriminate|reflexivity]|split; [discriminate|reflexivity]].
  - intros coinbase Eh. rewrite El in Eh. injection Eh as <-. exact (fits_b_ok cb Hcb).
  - split; [reflexivity|discriminate| |].
    + exact mining_db_outside.
    + intros cb' l' E. cbn [with_nonce vtx] in E. rewrite El in E. injection E as <- <-. exact (written_b_ok l Hl).
  - discriminate.
  - discriminate.
  - vm_compute. reflexivity.
Defined.

(** ** The template is made *)
Definition known_b (txin : CTxIn) : bool :=
  (0 <=? o_n (prevout txin)) &&
  (bool_decide (is_Some (StakeKernel.ReadFromDisk (tx_index mining_db) ReadTx (prevout txin))) ||
   match mining_pool !! o_hash (prevout txin) with Some tp => o_n (prevout txin) <? zlen (vout tp) | None => false end).
Lemma known_b_ok txin : known_b txin = true -> input_known mining_db txin.
Proof.
  unfold known_b. intros [Hn Hk]%andb_true_iff. apply Z.leb_le in Hn. split; [exact Hn|].
  apply orb_true_iff in Hk as [Hk|Hk]; [left; exact (bool_decide_eq_true_1 _ Hk)|right].
  destruct (mining_pool !! o_hash (prevout txin)) as [tp|] eqn:E; [|discriminate Hk]. exists tp. split; [exact E|by apply Z.ltb_lt].
Qed.

Definition closed_b (t : CTransaction) : bool :=
  forallb known_b (vin t) && bool_decide (is_Some (Tx.GetValueOut t)) && forallb (fun o => 2 <=? zlen (scriptPubKey o)) (vout t).
Lemma mining_pool_closed_b : forallb (fun e => closed_b e.2) (map_to_list mining_pool) = true.
Proof. vm_compute. reflexivity. Qed.

Lemma mining_pool_closed : pool_closed mining_db.
Proof.
  assert (forall h t, mempool_txs !! h = Some t -> Forall (input_known mining_db) (vin t) /\ is_Some (Tx.GetValueOut t) /\
    Forall (fun o => 2 <= zlen (scriptPubKey o)) (vout t)) as Hall.
  { intros h t Et. assert (closed_b t = true) as Hd by exact (mining_pool_forall (fun _ t => closed_b t) mining_pool_closed_b h t Et).
    unfold closed_b in Hd. apply andb_true_iff in Hd as [Hd Hs]. apply andb_true_iff in Hd as [Hk Hv].
    split; [|split; [exact (bool_decide_eq_true_1 _ Hv)|]].
    - apply Forall_forall. intros txin Hin. apply known_b_ok. exact (forallb_elem known_b _ _ Hk Hin).
    - apply Forall_forall. intros o Hin. apply Z.leb_le. exact (forallb_elem (fun o => 2 <=? zlen (scriptPubKey o)) _ _ Hs Hin). }
  split; intros h t Et; [intros _|]; destruct (Hall h t Et) as (? & ? & ?); [assumption|by split].
Qed.

Lemma CreateNewBlock_returns_witness : exists mined rk keys, (mined = None -> false = false) /\ forall fuel, (3 <= fuel)%nat ->
  CreateNewBlock mining_db false false [] (2 ^ 236) None None None 1 false fuel new_reserve new_wallet empty_cache = Some (mined, rk, keys).
Proof.
  assert (size (mempool_txs (NodeEnv := mining_env)) = 3%nat) as <- by (vm_compute; reflexivity).
  refine (CreateNewBlock_returns mining_db false false None None None (2 ^ 236) [] 1 false mining_prev [] new_reserve new_wallet empty_cache
    mining_pool_closed eq_refl _ _ _).
  - apply (bool_decide_eq_true_1 (is_Some _)). vm_compute. reflexivity.
  - apply Z.leb_le. vm_compute. reflexivity.
  - apply (bool_decide_eq_true_1 (is_Some _)). vm_compute. reflexivity.
Defined.
End run.

(** ** A pool that lost a transaction *)
(** The orphan of a transaction whose second input is missing is freed, but stays among those that
    wait for its first input: when that is added to the block, the freed orphan is read. *)
Definition half_lost_tx : CTransaction :=
  mk_tx 1 4000 [mk_txin (mk_outpoint (Tx.GetHash first_tx) 0) [] 0; mk_txin (mk_outpoint 12345 0) [] 0] [mk_txout 10000 [B#OP_1; B#OP_NOP]] 0.
Definition lost_pool : gmap Z CTransaction := list_to_map (map (fun t => (Tx.GetHash t, t)) [first_tx; half_lost_tx]).
Definition lost_template : option (option Mined * CReserveKey * WalletKeys) :=
  @CreateNewBlock ref_bn dummy_digests dummy_ec toy_env (mining_node lost_pool) list_heap mining_db false true [] (2 ^ 236) None None None
    counting_draws 1 false 5 new_reserve new_wallet empty_cache.
Example dangling_orphan : lost_template = None.
Proof. vm_compute. reflexivity. Qed.
