(* ===== verification/MinerWork.v ===== *)
(** * MinerWork: work for a miner, and what it finds (src/src/miner.cpp)

    [FormatHashBlocks] and [FormatHashBuffers] lay a block out for a miner: the header
    padded for SHA-256, in words of the other byte order.  [CheckWork] and [CheckStake] hand a
    block that was found to [ProcessBlock].  One round of SHA-256 from a given state is
    OpenSSL's. *)

From S2P Require Import Prelude BigNum ScriptOps Serialize Crypto Keys Core SigHash Interp Standard TxCheck Block Mempool Chain Kernel Connect BlockCheck BlockConnect Activate AcceptBlock OrphanBlocks ProcessBlock KeyPool SigOps.
Import Check Inputs.
Open Scope Z_scope.

(** ** Buffers *)
(** The buffer after the call: it has room for the blocks, of which the first [zlen data] bytes are
    given. *)
Definition hash_blocks (len : Z) : Z := u32 (1 + u32 (len + 8) / 64).
Definition FormatHashBlocks (data : bytes) : bytes :=
  let len := zlen data in
  let blocks := hash_blocks len in
  let bits := u32 (len * 8) in
  let pend := Z.to_nat (64 * blocks) in
  let buffer := data ++ replicate (Z.to_nat (64 * blocks - len)) B#0 in
  let buffer := <[Z.to_nat len := B#0x80]> buffer in
  <[(pend - 4)%nat := B#(Z.land (Z.shiftr bits 24) 0xff)]>
    (<[(pend - 3)%nat := B#(Z.land (Z.shiftr bits 16) 0xff)]>
      (<[(pend - 2)%nat := B#(Z.land (Z.shiftr bits 8) 0xff)]>
        (<[(pend - 1)%nat := B#(Z.land bits 0xff)]> buffer))).

(** [ByteReverse] of each word. *)
Fixpoint reverse_words (l : bytes) : bytes :=
  match l with
  | a :: b :: c :: d :: l => d :: c :: b :: a :: reverse_words l
  | _ => l
  end.

Definition pSHA256InitState : list Z :=
  [0x6a09e667; 0xbb67ae85; 0x3c6ef372; 0xa54ff53a; 0x510e527f; 0x9b05688c; 0x1f83d9ab; 0x5be0cd19].

Section buffers.
(** [SHA256_Update] of a whole block of 64 bytes, on the eight words of the state. *)
Variable SHA256_block : list Z -> bytes -> list Z.

Definition SHA256Transform (pinput : bytes) (pinit : list Z) : list Z := SHA256_block pinit (reverse_words (take 64 pinput)).

(** [pmidstate], [pdata] and [phash1]. *)
Definition FormatHashBuffers (b : CBlock) : list Z * bytes * bytes :=
  let block := reverse_words (FormatHashBlocks (Block.put_header b)) in
  let hash1 := reverse_words (FormatHashBlocks (replicate 32 B#0)) in
  (SHA256Transform block pSHA256InitState, block, hash1).
End buffers.

(** ** Found blocks *)
Section found.
Context `{BNLib} `{Digests} `{ECLib} `{SigEnv} `{NodeEnv}.
Variable ReadBlock : Z -> Z -> option CBlock.
Variables (TestNet over_free_limit : bool) (HashGenesisBlock LastPOWBlock bnProofOfStakeLimit : Z).
Variable WriteToDisk : CBlock -> option (Z * Z).
Variables (loading : bool) (time : Z) (insecure_rand : nat -> Z) (maxorphanblocksmib : Z) (fFileBacked : bool).

(** The node, the reserved key, the keys, and the requests counted for each block. *)
Record MinerState := mk_miner {
  mn_node : NodeState;
  mn_reserve : CReserveKey;
  mn_keys : WalletKeys;
  mapRequestCount : gmap Z Z
}.

(** What both calls end with: the block goes to [ProcessBlock] without a peer. *)
Definition submit (s : MinerState) (b : CBlock) : option (bool * MinerState) :=
  let counts := <[BlockHash b := 0]> (mapRequestCount s) in
  '(node, _, v) ← ProcessBlock ReadBlock TestNet over_free_limit HashGenesisBlock LastPOWBlock bnProofOfStakeLimit WriteToDisk
    loading time insecure_rand maxorphanblocksmib (mn_node s) None b;
  Some (match v with TxCheck.Accept => true | Reject _ => false end, mk_miner node (mn_reserve s) (mn_keys s) counts).

(** [None] also when the log's [vtx[0].vout[0]] is outside the block. *)
Definition CheckWork (s : MinerState) (b : CBlock) : option (bool * MinerState) :=
  let hashProof := Block.GetPoWHash scrypt_blockhash b in
  let hashTarget := le_val (CBigNum.getuint256 (CBigNum.SetCompact (nBits b))) in
  if negb (Block.IsProofOfWork b) then Some (false, s)
  else if hashTarget <? hashProof then Some (false, s)
  else
  first ← vtx b !! 0%nat;
  _ ← vout first !! 0%nat;
  if negb (hashPrevBlock b =? hashBestChain (chain (mn_node s))) then Some (false, s)
  else
    let '(rk, keys) := Reserve_KeepKey fFileBacked (mn_reserve s) (mn_keys s) in
    submit (mk_miner (mn_node s) rk keys (mapRequestCount s)) b.

(** [None] also when the parent is not in the index, where [operator[]] would put a null pointer (the index
    of the model has none), and when the log's [GetValueOut] throws. *)
Definition CheckStake (s : MinerState) (b : CBlock) : option (bool * MinerState) :=
  if negb (Block.IsProofOfStake b) then Some (false, s) else
  let c := chain (mn_node s) in
  coinstake ← vtx b !! 1%nat;
  _ ← mapBlockIndex c !! hashPrevBlock b;
  match StakeKernel.CheckProofOfStake nStakeMinAge nStakeMinConfirmations (tx_index (txdb c)) ReadTx ReadHeader
    (ptr (mapBlockIndex c) (Some (hashPrevBlock b))) coinstake (nBits b) (cache c) with
  | Crash => None
  | Fail _ => Some (false, s)
  | Ok (_, _, sigs) =>
    _ ← Tx.GetValueOut coinstake;
    let node := mk_node_state (Activate.with_pool (mempool c) sigs c) (orphan_blocks (mn_node s)) (nLastUpdate (mn_node s)) (pindexLastBest (mn_node s)) in
    let s := mk_miner node (mn_reserve s) (mn_keys s) (mapRequestCount s) in
    if negb (hashPrevBlock b =? hashBestChain c) then Some (false, s) else submit s b
  end.
End found.

(** ** Facts *)
(** The padding of SHA-256 (FIPS 180-4): a bit, zeros, and the length in bits. *)
Definition sha_padding (len : Z) : bytes :=
  B#0x80 :: replicate (Z.to_nat ((55 - len) mod 64)) B#0 ++ be_bytes 8 (len * 8).

Lemma insert_end {A} (l : list A) (x y : A) r n : n = length l -> <[n := y]> (l ++ x :: r) = l ++ y :: r.
Proof. intros ->. rewrite insert_app_r_alt by lia. by rewrite Nat.sub_diag. Qed.

Lemma be_bytes_8_low z : 0 <= z < 2 ^ 32 ->
  be_bytes 8 z = replicate 4 B#0 ++ [B#(Z.land (Z.shiftr z 24) 0xff); B#(Z.land (Z.shiftr z 16) 0xff);
    B#(Z.land (Z.shiftr z 8) 0xff); B#(Z.land z 0xff)].
Proof.
  intros Hz. rewrite !to_byte_land. unfold be_bytes. cbv [LittleEndianList.le_split rev app].
  rewrite !Z.shiftr_shiftr by lia. cbn [Z.add Pos.add Pos.succ].
  assert (forall k, 32 <= k -> Z.shiftr z k = 0) as E.
  { intros k Hk. rewrite Z.shiftr_div_pow2 by lia. apply Z.div_small.
    pose proof (Z.pow_le_mono_r 2 32 k ltac:(lia) Hk). lia. }
  rewrite !E by lia. done.
Qed.

(** The layout is the padding of SHA-256, for any message the 32-bit length can count. *)
Lemma FormatHashBlocks_padding data : zlen data < 2 ^ 29 -> FormatHashBlocks data = data ++ sha_padding (zlen data).
Proof.
  intros Hl. pose proof (zlen_nonneg data) as H0. unfold FormatHashBlocks, sha_padding, hash_blocks.
  rewrite (u32_small (zlen data + 8)), (u32_small (1 + _)), (u32_small (zlen data * 8)) by (Z.div_mod_to_equations; lia).
  set (m := (55 - zlen data) mod 64).
  assert (64 * (1 + (zlen data + 8) / 64) = zlen data + m + 9) as Eb by (unfold m; Z.div_mod_to_equations; lia).
  assert (0 <= m) as Hm by (unfold m; Z.div_mod_to_equations; lia).
  rewrite Eb. replace (Z.to_nat (zlen data + m + 9 - zlen data)) with (S (Z.to_nat m + (4 + 4))) by lia.
  cbn [replicate]. rewrite !replicate_add. rewrite insert_end by (unfold zlen; lia).
  rewrite be_bytes_8_low by lia. rewrite app_comm_cons, !(app_assoc data), !(app_assoc _ (replicate 4 B#0)).
  match goal with |- _ = ?r => set (rhs := r) end.
  set (buf := (data ++ _) ++ _).
  assert (Z.to_nat (zlen data + m + 9) = length buf + 4)%nat as ->.
  { unfold buf. rewrite !length_app, length_cons, !length_replicate. unfold zlen in *. lia. }
  cbn [replicate].
  rewrite !insert_app_r_alt by lia.
  replace (length buf + 4 - 1 - length buf)%nat with 3%nat by lia.
  replace (length buf + 4 - 2 - length buf)%nat with 2%nat by lia.
  replace (length buf + 4 - 3 - length buf)%nat with 1%nat by lia.
  replace (length buf + 4 - 4 - length buf)%nat with 0%nat by lia. unfold buf, rhs. cbn.
  rewrite <- ?app_assoc. cbn. rewrite <- ?app_assoc. done.
Qed.

(** A whole number of blocks of 64 bytes: the ones [FormatHashBlocks] returns. *)
Lemma FormatHashBlocks_length data : zlen data < 2 ^ 29 -> zlen (FormatHashBlocks data) = 64 * hash_blocks (zlen data).
Proof.
  intros Hl. pose proof (zlen_nonneg data) as H0. rewrite FormatHashBlocks_padding by done.
  unfold sha_padding, hash_blocks. rewrite (u32_small (zlen data + 8)), (u32_small (1 + _)) by (Z.div_mod_to_equations; lia).
  rewrite zlen_app, zlen_cons, zlen_app. unfold zlen. rewrite length_replicate, length_be_bytes.
  Z.div_mod_to_equations; lia.
Qed.
