(* ===== verification/Staking.v ===== *)
(** * Staking: coinstakes and the blocks they sign (src/src/wallet.cpp, main.cpp, miner.cpp)

    [CreateCoinStake] of [CWallet], [SignBlock] of [CBlock], and a round of [ThreadStake].  A
    pointer to a wallet transaction is its key, and the set of the chosen coins is walked in
    the order of the pointers ([set_order]).  The databases are those of the chain
    state; [pindexBest] is that of the node's environment.  [None] is an exception, a failed
    assertion or a bad access. *)

From S2P Require Import Prelude BigNum ScriptOps Serialize Crypto Keys Core SigHash Interp Standard Signing Base58 TxCheck Block Mempool Chain Kernel Connect BlockCheck BlockConnect Activate ProcessBlock Wallet CoinSelect KeyPool CreateTx Mining MinerWork.
Import Check Inputs KeyStore CScript.
Open Scope Z_scope.

Definition nMaxStakeSearchInterval : Z := 60.
Definition GetStakeCombineThreshold : Z := 1000 * COIN.
Definition GetStakeSplitThreshold : Z := 2 * GetStakeCombineThreshold.

(** What the search for a kernel finds: the coin with its output, the time of the coinstake, the key and
    the script the coinstake pays to. *)
Record Kernel := mk_kernel { k_coin : Z * Z; k_txout : CTxOut; k_time : Z; k_key : CKey; k_script : bytes }.

Section staking.
Context `{BNLib} `{Digests} `{ECLib} `{SigEnv} `{NodeEnv} `{!Draws} `{KeyDraws} `{PayDraws}.
Variable w : CWallet.
Variable s : ChainState.
Variables (fConfChange : bool) (trust_fuel : nat) (nMinimumInputValue nReserveBalance nStakeMaxAge : Z).

Definition coin_tx (coin : Z * Z) : option CTransaction := w_tx <$> mapWallet w !! coin.1.
Definition coin_out (coin : Z * Z) : option CTxOut := t ← coin_tx coin; at_ (vout t) coin.2.

(** ** The kernel *)
(** The key and the script for an output with a kernel; [Some None] is a [break]. *)
Definition stake_output (script : bytes) : option (option (CKey * bytes)) :=
  let '(ok, whichType, vSolutions) := Solver nMaxDatacarrierBytes script in
  if negb ok then Some None else
  let s0 := default [] (head vSolutions) in
  match whichType with
  | TX_PUBKEYHASH =>
    match GetKey (keystore w) (le_val s0) with
    | None => Some None
    | Some key => pk ← PrivKey.GetPubKey key; Some (Some (key, push_op (push_object [] pk) OP_CHECKSIG))
    end
  | TX_PUBKEY =>
    match GetKey (keystore w) (Hash160 s0) with
    | None => Some None
    | Some key => pk ← PrivKey.GetPubKey key; Some (if bool_decide (pk = PubKey.Set_ s0) then Some (key, script) else None)
    end
  | _ => Some None
  end.

(** The times back from the coinstake's, the [n]-th and [todo - 1] more. *)
Fixpoint search_times (todo : nat) (n nBits nTime : Z) (prevoutStake : COutPoint) (script : bytes) :
    option (option (Z * (CKey * bytes))) :=
  match todo with
  | O => Some None
  | S todo =>
    '(found, _) ← StakeKernel.CheckKernel nStakeMinAge nStakeMinConfirmations (tx_index (txdb s)) ReadTx ReadHeader pindexBest nBits
      (u32 (nTime - n)) prevoutStake;
    if (found : bool) then
      out ← stake_output script;
      Some (match out with Some o => Some (u32 (nTime - n), o) | None => None end)
    else search_times todo (n + 1) nBits nTime prevoutStake script
  end.

Fixpoint search_coins (todo : nat) (nBits nTime : Z) (coins : list (Z * Z)) : option (option Kernel) :=
  match coins with
  | [] => Some None
  | coin :: coins =>
    t ← coin_tx coin;
    txout ← coin_out coin;
    found ← search_times todo 0 nBits nTime (mk_outpoint (Tx.GetHash t) coin.2) (scriptPubKey txout);
    match found with
    | Some (time, (key, script)) => Some (Some (mk_kernel coin txout time key script))
    | None => search_coins todo nBits nTime coins
    end
  end.

(** ** More inputs *)
(** Small and old coins of the kernel's script or key: the coins to spend, and their value. *)
Fixpoint more_coins (k : Kernel) (limit : Z) (l coins : list (Z * Z)) (nCredit : Z) : option (list (Z * Z) * Z) :=
  match l with
  | [] => Some (coins, nCredit)
  | coin :: l =>
    t ← coin_tx coin;
    txout ← coin_out coin;
    first ← coin_tx (k_coin k);
    let same := bool_decide (scriptPubKey txout = scriptPubKey (k_txout k)) || bool_decide (scriptPubKey txout = k_script k) in
    if same && negb (Tx.GetHash t =? Tx.GetHash first) then
      if 10 <=? zlen coins then Some (coins, nCredit)
      else if limit <? i64 (nCredit + nValue txout) then Some (coins, nCredit)
      else if GetStakeCombineThreshold <=? nValue txout then more_coins k limit l coins nCredit
      else if StakeKernel.GetWeight nStakeMinAge nStakeMaxAge (nTime t) (k_time k) <? nStakeMinAge then more_coins k limit l coins nCredit
      else more_coins k limit l (coins ++ [coin]) (i64 (nCredit + nValue txout))
    else more_coins k limit l coins nCredit
  end.

Definition coin_input (coin : Z * Z) : option CTxIn :=
  t ← coin_tx coin; Some (mk_txin (mk_outpoint (Tx.GetHash t) coin.2) [] UINT_MAX).

(** ** The outputs *)
Definition stake_outputs (nCredit : Z) (script : bytes) : list CTxOut :=
  if GetStakeSplitThreshold <=? nCredit then
    let half := i64 (Z.quot (Z.quot nCredit 2) CENT * CENT) in
    [mk_txout half script; mk_txout (i64 (nCredit - half)) script]
  else [mk_txout nCredit script].

Definition fund_output (nFundReward : Z) : CTxOut :=
  mk_txout (i64 nFundReward) (SetDestination (Address_Get prefixes (SetString fund_address 1).2)).

(** ** [CreateCoinStake] *)
(** The coinstake with a kernel, before it is signed; [Some None] is a refusal.  The check of the coin age
    of the kernel alone comes with the kernel, the one of all the inputs with the reward. *)
Definition build_stake (tx : CTransaction) (k : Kernel) (coins : list (Z * Z)) (limit nFees : Z) :
    option (option (list (Z * Z) * CTransaction)) :=
  let with_inputs vins vouts := mk_tx (nVersion tx) (k_time k) vins vouts (nLockTime tx) in
  let empty := mk_txout 0 [] in
  kernel_in ← coin_input (k_coin k);
  match GetCoinAge (txdb s) (with_inputs [kernel_in] [empty; mk_txout 0 (k_script k)]) pindexBest with
  | Crash => None
  | Fail _ => Some None
  | Ok _ =>
    if (nValue (k_txout k) =? 0) || (limit <? nValue (k_txout k)) then Some None else
    '(coins, nCredit) ← more_coins k limit coins [k_coin k] (nValue (k_txout k));
    vins ← mapM coin_input coins;
    match GetCoinAge (txdb s) (with_inputs vins [empty; mk_txout 0 (k_script k)]) pindexBest with
    | Crash => None
    | Fail _ => Some None
    | Ok nCoinAge =>
      let nReward := Reward.GetProofOfStakeReward nCoinAge nFees in
      if nReward <=? 0 then Some None else
      let nFundReward := nReward / 5 in
      let nCredit := i64 (nCredit + (nReward - nFundReward)) in
      Some (Some (coins, with_inputs vins (empty :: stake_outputs nCredit (k_script k) ++ [fund_output nFundReward])))
    end
  end.

(** The coinstake and the key when it is made, and the signature cache. *)
Definition CreateCoinStake (nBits nSearchInterval nFees : Z) (tx : CTransaction) (c : CSignatureCache) :
    option (option (CTransaction * CKey) * CSignatureCache) :=
  nBalance ← GetBalance s fConfChange trust_fuel w;
  if nBalance <=? nReserveBalance then Some (None, c) else
  let limit := i64 (nBalance - nReserveBalance) in
  '(ok, (setCoins, _)) ← SelectCoinsForStaking w s nMinimumInputValue limit (nTime tx);
  if negb ok || bool_decide (setCoins = ∅) then Some (None, c) else
  let coins := set_order setCoins in
  kernel ← search_coins (Z.to_nat (Z.min nSearchInterval nMaxStakeSearchInterval)) nBits (nTime tx) coins;
  match kernel with
  | None => Some (None, c)
  | Some k =>
    built ← build_stake tx k coins limit nFees;
    match built with
    | None => Some (None, c)
    | Some (coins, tx) =>
      '(ok, tx, c) ← sign_loop w (keystore w) coins 0 tx c;
      if negb ok then Some (None, c)
      else if MAX_BLOCK_SIZE_GEN / 5 <=? GetSerializeSize tx then Some (None, c)
      else Some (Some (tx, k_key k), c)
    end
  end.

(** ** [SignBlock] *)
(** The static variable, once it is set, and [nLastCoinStakeSearchInterval]. *)
Record SignState := mk_sign { nLastCoinStakeSearchTime : option Z; nLastCoinStakeSearchInterval : Z }.

(** The block with a coinstake, not signed: the transactions that are newer go. *)
Definition place_stake (b : CBlock) (tx : CTransaction) : CBlock :=
  let vtx := match vtx b with
    | coinbase :: rest =>
      mk_tx (nVersion coinbase) (nTime tx) (vin coinbase) (vout coinbase) (nLockTime coinbase) :: tx ::
      filter (fun t => nTime t <= nTime tx) rest
    | [] => []
    end in
  let '(root, tree) := Merkle.BuildMerkleTree (map Tx.GetHash vtx) in
  mk_block (b_nVersion b) (hashPrevBlock b) root (nTime tx) (nBits b) (nNonce b) vtx (vchBlockSig b) tree.

Definition with_sig (b : CBlock) (sig : bytes) : CBlock :=
  mk_block (b_nVersion b) (hashPrevBlock b) (hashMerkleRoot b) (b_nTime b) (nBits b) (nNonce b) (vtx b) sig (vMerkleTree b).

(** The time of a new coinstake. *)
Definition stake_time : Z := Z.ldiff (u32 adjusted_time) StakeKernel.STAKE_TIMESTAMP_MASK.

(** The result, the block, the search state and the signature cache. *)
Definition SignBlock (b : CBlock) (nFees : Z) (st : SignState) (c : CSignatureCache) :
    option (bool * CBlock * SignState * CSignatureCache) :=
  coinbase ← head (vtx b);
  txout ← head (vout coinbase);
  if negb (TxOut.IsEmpty txout) then Some (false, b, st, c)
  else if Block.IsProofOfStake b then Some (true, b, st, c)
  else
    let last := default adjusted_time (nLastCoinStakeSearchTime st) in
    let st := mk_sign (Some last) (nLastCoinStakeSearchInterval st) in
    if negb (last <? stake_time) then Some (false, b, st, c) else
    let searched := mk_sign (Some stake_time) (i64 (stake_time - last)) in
    '(made, c) ← CreateCoinStake (nBits b) 1 nFees (mk_tx Tx.CURRENT_VERSION stake_time [] [] 0) c;
    match made with
    | None => Some (false, b, searched, c)
    | Some (tx, key) =>
      best ← head pindexBest;
      if nTime tx <? i64 (BlockIndex.GetPastTimeLimit best + 1) then Some (false, b, searched, c) else
      let b := place_stake b tx in
      match PrivKey.Sign key (BlockHash b) with
      | Some sig => Some (true, with_sig b sig, st, c)
      | None => Some (false, with_sig b [], st, c)
      end
    end.
End staking.

(** ** [ThreadStake] *)
(** What the thread looks at, where it is when it wakes up, and its variables. *)
Record StakeView := mk_view { sv_locked : bool; sv_nodes : Z; sv_downloading : bool; sv_best_time : Z; sv_time : Z }.
Inductive thread_point := AtLock | AtPeers.
Record ThreadState := mk_thread { th_point : thread_point; fTryToSync : bool; th_sign : SignState }.
Inductive thread_action := MilliSleep (ms : Z) | StakeRound.

(** From waking up to the next sleep, or to a round. *)
Definition ThreadStake_wait (v : StakeView) (t : ThreadState) : thread_action * ThreadState :=
  let reset := mk_sign (nLastCoinStakeSearchTime (th_sign t)) 0 in
  if match th_point t with AtLock => sv_locked v | AtPeers => false end then (MilliSleep 1000, mk_thread AtLock (fTryToSync t) reset)
  else if (sv_nodes v =? 0) || sv_downloading v then (MilliSleep 1000, mk_thread AtPeers true reset)
  else if fTryToSync t && ((sv_nodes v <? 3) || (sv_best_time v <? sv_time v - 10 * 60))
  then (MilliSleep 60000, mk_thread AtLock false (th_sign t))
  else (StakeRound, mk_thread AtLock false (th_sign t)).

Section round.
Context `{BNLib} `{Digests} `{ECLib} `{SigEnv} `{NodeEnv} `{!Draws} `{KeyDraws} `{PayDraws} `{HeapLayout}.
Variables (fConfChange : bool) (trust_fuel : nat) (nMinimumInputValue nReserveBalance nStakeMaxAge : Z).
Variables (fDebug : bool) (COINBASE_FLAGS : bytes) (bnProofOfStakeLimit : Z).
Variables (blockmaxsize blockminsize : option Z) (mintxfee : option bytes) (keypool_arg : Z) (IsLocked : bool) (nMinerSleep : Z).
Variable ReadBlock : Z -> Z -> option CBlock.
Variables (TestNet over_free_limit : bool) (HashGenesisBlock LastPOWBlock : Z).
Variable WriteToDisk : CBlock -> option (Z * Z).
Variables (loading : bool) (time : Z) (insecure_rand : nat -> Z) (maxorphanblocksmib : Z).

Definition set_node_cache (c : CSignatureCache) (m : MinerState) : MinerState :=
  let n := mn_node m in
  mk_miner (mk_node_state (Activate.with_pool (mempool (chain n)) c (chain n)) (orphan_blocks n) (nLastUpdate n) (pindexLastBest n))
    (mn_reserve m) (mn_keys m) (mapRequestCount m).

(** A round: the sleep after it, or [Some None] when the thread ends. *)
Definition stake_round (fuel : nat) (w : CWallet) (st : SignState) (m : MinerState) : option (option (Z * SignState * MinerState)) :=
  let c := chain (mn_node m) in
  '(mined, rk, keys) ← CreateNewBlock (txdb c) fDebug true COINBASE_FLAGS bnProofOfStakeLimit blockmaxsize blockminsize mintxfee
    keypool_arg IsLocked fuel (mn_reserve m) (mn_keys m) (cache c);
  let m := mk_miner (mn_node m) rk keys (mapRequestCount m) in
  match mined with
  | None => Some None
  | Some mined =>
    '(ok, b, st, sigs) ← SignBlock w c fConfChange trust_fuel nMinimumInputValue nReserveBalance nStakeMaxAge
      (mined_block mined) (mined_fees mined) st (mined_cache mined);
    let m := set_node_cache sigs m in
    if (ok : bool) then
      '(_, m) ← CheckStake ReadBlock TestNet over_free_limit HashGenesisBlock LastPOWBlock bnProofOfStakeLimit WriteToDisk loading time
        insecure_rand maxorphanblocksmib m b;
      Some (Some (500, st, m))
    else Some (Some (nMinerSleep, st, m))
  end.
End round.
