(* ===== verification/StakeSign.v ===== *)
(** * StakeSign: the signatures of a coinstake and its block (src/src/wallet.cpp, script.cpp)

    An input that the signer signed for a key of its own is accepted without any flags, as the
    kernel check asks, and the output that a coinstake pays to carries the key that signs the
    block. *)

From S2P Require Import Prelude BigNum ScriptOps Serialize Crypto Keys Core SigHash Interp InterpFacts InterpSame Standard Spending Der Signing SigningFacts TxCheck Block BlockCheck CreateTxFacts Staking.
From S2P Require Import Mempool Chain Connect BlockConnect Activate Wallet.
Import CScript SignatureHash_ SigHashFacts Encoding Stack Template Classify DestinationFacts VerifyFacts KeyStore.
Open Scope Z_scope.

Section flags.
Context `{BNLib} `{!BNLibOk} `{Digests} `{!DigestsOk} `{ECLib} `{!ECLibOk} `{!SignerOk} `{SigEnv}.
Variable maxdata : Z.
Variable tx : CTransaction.
Variable n : nat.

(** ** Flags and encodings *)
Lemma last_snoc_defined sig : IsDefinedHashtypeSignature (sig ++ [B#SIGHASH_ALL]) = true.
Proof. unfold IsDefinedHashtypeSignature. rewrite last_snoc. by vm_compute. Qed.

(** A signature for [SIGHASH_ALL] that the standard flags accept is accepted under all flags. *)
Lemma sig_ok_any fl sig pk code : sig_ok tx n FL 0 (sig ++ [B#SIGHASH_ALL]) pk code = true ->
  sig_ok tx n fl 0 (sig ++ [B#SIGHASH_ALL]) pk code = true.
Proof.
  unfold sig_ok, encodings_ok, CheckSignatureEncoding. rewrite last_snoc_defined. cbn [negb].
  assert (zlen (sig ++ [B#SIGHASH_ALL]) =? 0 = false) as -> by (rewrite zlen_app; pose proof (zlen_nonneg sig); change (zlen [_]) with 1; lia).
  by rewrite !andb_false_r.
Qed.

(** ** A script with one check of a signature *)
Lemma Verify_checks fl args s item pk c : IsPayToScriptHash s = false -> zlen args <= 17 -> Forall (fun v => zlen v <= 73) args ->
  eval_checks tx n fl args s item pk c ->
  (VerifyScript (pushes args) s tx n fl 0 c).1 = sig_ok tx n fl 0 item pk (drop_signature s item).
Proof.
  intros Hsh Hn Hf (l & c' & _ & Hr). unfold VerifyScript. pose proof (zlen_pushes_le args 73 Hf) as Hl. pose proof (zlen_nonneg args).
  rewrite EvalScript_pushes_eq; [|eapply Forall_impl; [exact Hf|]; intros v Hv; unfold MAX_SCRIPT_ELEMENT_SIZE; simpl in Hv; lia
    |change (zlen (@nil valtype)) with 0; lia|lia].
  cbn [negb app]. destruct Hr as [[-> Hr]| ->].
  - destruct (EvalScript args s tx n fl 0 c) as [[ok st] c1]. simpl in Hr. by subst ok.
  - cbn [negb]. rewrite last_snoc, Hsh. by destruct (sig_ok _ _ _ _ _ _ _).
Qed.
End flags.

Section own.
Context `{BNLib} `{!BNLibOk} `{Digests} `{!DigestsOk} `{ECLib} `{!ECLibOk} `{!SignerOk} `{SigEnv}.
Variable maxdata : Z.
Variable ks : CBasicKeyStore.
Hypothesis Hks : store_ok ks.

(** The arguments the signer makes for an output to a key: a signature, and the key when
    the output has its hash only. *)
Lemma SolverSign_key s t sols hash scr t' : Solver maxdata s = (true, t, sols) -> t = TX_PUBKEY \/ t = TX_PUBKEYHASH ->
  SolverSign maxdata ks s hash SIGHASH_ALL = Some (true, scr, t') ->
  exists sig pk args, let item := sig ++ [B#SIGHASH_ALL] in t' = t /\ scr = pushes args /\ IsPayToScriptHash s = false /\
    zlen args <= 2 /\ Forall (fun v => zlen v <= 73) args /\
    forall tx n fl c, cache_ok c -> eval_checks tx n fl args s item pk c.
Proof.
  intros Es Ht. unfold SolverSign. rewrite Es. cbn [negb]. rewrite Solver_spec in Es.
  destruct (IsPayToScriptHash s) eqn:Hsh; [by injection Es as <- <-; destruct Ht|].
  destruct (parse s) as [l|] eqn:Ep; [|done]. unfold classify in Es.
  destruct (as_pubkey l) as [sols'|] eqn:Ea.
  { injection Es as <- <-. destruct (as_pubkey_inv _ _ Ea) as (o1 & pk & v2 & -> & -> & Hk). cbn [head default].
    unfold Sign1. destruct (GetKey ks _) as [k|] eqn:Ek; [|done]. destruct (keys_filed ks Hks _ _ Ek) as (Hw & pk' & Epk & _).
    destruct (Sign_valid k hash pk' Hw Epk) as (sig & -> & _ & Hz & _). simpl. intros [= <- <-].
    exists sig, pk, [sig ++ [B#SIGHASH_ALL]]. cbv zeta. split; [done|]. split; [unfold pushes, push_data; simpl; by rewrite app_nil_r|].
    split; [done|]. split; [done|]. split; [repeat constructor; rewrite zlen_app; change (zlen [_]) with 1; lia|].
    intros tx n fl c Hc. by apply (eval_p2pk tx n fl s o1 OP_CHECKSIG v2 pk _ c [] Ep eq_refl Hk Hc). }
  destruct (as_pubkeyhash l) as [sols'|] eqn:Eh; [|].
  2:{ destruct (as_multisig l) as [[[m keys] k]|]; [|destruct (as_null_data maxdata l)]; injection Es as ?; subst; by destruct Ht. }
  injection Es as <- <-. destruct (as_pubkeyhash_inv _ _ Eh) as (h & -> & Hh). cbn [head default].
  unfold Sign1. destruct (GetKey ks _) as [k|] eqn:Ek; [|done]. destruct (keys_filed ks Hks _ _ Ek) as (Hw & pk & Epk & Hid).
  destruct (Sign_valid k hash pk Hw Epk) as (sig & -> & _ & Hz & _). cbn [negb].
  unfold KeyStore.GetPubKey. rewrite Ek, Epk. cbn [mbind option_bind]. intros [= <- <-].
  destruct (GetPubKey_wf k Hw) as (pk' & Epk' & Hpw & _). rewrite Epk in Epk'. injection Epk' as <-.
  pose proof (pubkey_sizes pk Hpw) as Hsz.
  exists sig, pk, [sig ++ [B#SIGHASH_ALL]; pk]. cbv zeta. split; [done|].
  split; [rewrite push_object_small by (unfold OP_PUSHDATA1; lia); unfold push_data, pushes; simpl; by rewrite app_nil_r, <- app_assoc|].
  split; [done|]. split; [done|]. split; [repeat constructor; [rewrite zlen_app; change (zlen [_]) with 1; lia|lia]|].
  intros tx n fl c Hc. apply (eval_p2pkh_any tx n fl s l h pk _ c [] Ep Eh); [|done|done].
  rewrite <- (le_bytes_Hash160 pk). change (Hash160 pk) with (PubKey.GetID pk). rewrite Hid. apply le_bytes_val. unfold zlen in Hh. lia.
Qed.

(** What the signer signed for one of its keys is accepted under all flags. *)
Lemma SignSignature_any s t sols tx n c tx' c' : Solver maxdata s = (true, t, sols) -> t = TX_PUBKEY \/ t = TX_PUBKEYHASH ->
  cache_ok c -> SignSignature maxdata ks s tx n SIGHASH_ALL c = Some (true, tx', c') ->
  exists scr, tx' = set_scriptSig tx n scr /\
    forall fl tx2 c2, same_but_scripts tx' tx2 -> cache_ok c2 -> (VerifyScript scr s tx2 n fl 0 c2).1 = true.
Proof.
  intros Es Ht Hc. unfold SignSignature. case_bool_decide; [done|].
  destruct (SolverSign _ _ _ _ _) as [[[ok scr] t']|] eqn:Ess; [|done]. cbn [mbind option_bind]. destruct ok; [|done]. cbn [negb].
  destruct (SolverSign_key _ _ _ _ _ _ Es Ht Ess) as (sig & pk & args & -> & -> & Hsh & Hn & Hf & Hev).
  rewrite bool_decide_eq_false_2 by (by destruct Ht as [-> | ->]). cbn [mbind option_bind negb].
  destruct (VerifyScript _ _ _ _ _ _ _) as [ok c1] eqn:Ev. intros [= -> <- <-].
  exists (pushes args). split; [done|]. intros fl tx2 c2 Hsame Hc2.
  rewrite <- (VerifyScript_same _ tx2 Hsame). rewrite (Verify_checks _ _ fl args s (sig ++ [B#SIGHASH_ALL]) pk c2) by (done || lia || by apply Hev).
  apply sig_ok_any. rewrite <- (Verify_checks _ _ FL args s (sig ++ [B#SIGHASH_ALL]) pk c) by (done || lia || by apply Hev). by rewrite Ev.
Qed.
End own.

(** ** The key of the block *)
Section key.
Context `{BNLib} `{!BNLibOk} `{Digests} `{!DigestsOk} `{ECLib} `{!ECLibOk} `{!SignerOk} `{SigEnv} `{NodeEnv}.
Variable w : CWallet.
Hypothesis Hks : store_ok (keystore w).

(** The script of a key. *)
Lemma Solver_key_script maxdata pk : 33 <= zlen pk <= 65 -> Solver maxdata (push_op (push_object [] pk) OP_CHECKSIG) = (true, TX_PUBKEY, [pk]).
Proof.
  intros Hpk. rewrite push_object_small by (unfold OP_PUSHDATA1; lia). unfold push_op. cbn [app]. rewrite Solver_spec.
  assert (IsPayToScriptHash ((push_header (zlen pk) ++ pk) ++ [B#OP_CHECKSIG]) = false) as ->.
  { unfold IsPayToScriptHash. rewrite !zlen_app. pose proof (zlen_nonneg (push_header (zlen pk))). change (zlen [B#OP_CHECKSIG]) with 1.
    rewrite (proj2 (Z.eqb_neq _ _)) by lia. done. }
  rewrite <- app_assoc. rewrite parse_push by (rewrite zlen_app; change (zlen [B#OP_CHECKSIG]) with 1; lia).
  rewrite parse_operator by (by vm_compute). simpl. unfold classify, as_pubkey, key_sized.
  rewrite (proj2 (Z.leb_le 33 _)), (proj2 (Z.leb_le _ 120)) by lia. done.
Qed.

Lemma stake_output_key script key out : stake_output w script = Some (Some (key, out)) ->
  exists t sols v, Solver nMaxDatacarrierBytes script = (true, t, sols) /\ (t = TX_PUBKEY \/ t = TX_PUBKEYHASH) /\ key_wf key /\
    Solver nMaxDatacarrierBytes out = (true, TX_PUBKEY, [v]) /\ PrivKey.GetPubKey key = Some (PubKey.Set_ v).
Proof.
  unfold stake_output. destruct (Solver _ script) as [[ok t] sols] eqn:Es. destruct ok; [|done]. cbn [negb].
  destruct t; try done.
  - destruct (GetKey _ _) as [k|] eqn:Ek; [|done]. destruct (keys_filed _ Hks _ _ Ek) as (Hw & pk & Ep & _). rewrite Ep.
    cbn [mbind option_bind]. case_bool_decide as Epk; [|done]. intros [= -> ->]. subst pk.
    assert (sols = [default [] (head sols)]) as Esol.
    { rewrite Solver_spec in Es. destruct (IsPayToScriptHash out); [done|]. destruct (parse out) as [l|]; [|done]. unfold classify in Es.
      destruct (as_pubkey l) as [sols'|] eqn:Ea.
      { injection Es as <-. by destruct (as_pubkey_inv _ _ Ea) as (? & ? & ? & _ & -> & _). }
      destruct (as_pubkeyhash l); [done|]. destruct (as_multisig l) as [[[? ?] ?]|]; [done|]. by destruct (as_null_data _ l). }
    exists TX_PUBKEY, sols, (default [] (head sols)). split; [done|]. split; [by left|]. split; [done|]. by rewrite <- Esol.
  - destruct (GetKey _ _) as [k|] eqn:Ek; [|done]. destruct (keys_filed _ Hks _ _ Ek) as (Hw & pk & Ep & _). rewrite Ep.
    cbn [mbind option_bind]. intros [= -> <-]. destruct (GetPubKey_wf key Hw) as (pk' & Ep' & Hpw & _ & _ & Eset).
    rewrite Ep in Ep'. injection Ep' as <-. pose proof (pubkey_sizes pk Hpw).
    exists TX_PUBKEYHASH, sols, pk. split; [done|]. split; [by right|]. split; [done|].
    split; [apply Solver_key_script; lia|by rewrite Eset].
Qed.

(** A block signed with the key of its coinstake's second output has a good signature. *)
Lemma CheckBlockSignature_signed b key v coinbase tx rest o0 o1 os sig : Block.IsProofOfStake b = true ->
  vtx b = coinbase :: tx :: rest -> vout tx = o0 :: o1 :: os -> key_wf key ->
  Solver nMaxDatacarrierBytes (scriptPubKey o1) = (true, TX_PUBKEY, [v]) -> PrivKey.GetPubKey key = Some (PubKey.Set_ v) ->
  PrivKey.Sign key (BlockHash b) = Some sig ->
  CheckBlockSignature scrypt_blockhash nMaxDatacarrierBytes (with_sig b sig) = true.
Proof.
  intros Hpos Ev Eo Hw Es Ep Esig. destruct (Sign_valid key (BlockHash b) _ Hw Ep) as (sig' & Esig' & Hver & Hz & _).
  rewrite Esig in Esig'. injection Esig' as <-. unfold CheckBlockSignature, Block.IsProofOfWork.
  change (Block.IsProofOfStake (with_sig b sig)) with (Block.IsProofOfStake b). rewrite Hpos. cbn [negb].
  change (vchBlockSig (with_sig b sig)) with sig. rewrite bool_decide_eq_false_2 by (intros ->; unfold zlen in Hz; simpl in Hz; lia).
  change (vtx (with_sig b sig)) with (vtx b). rewrite Ev, Eo, Es. cbn [negb]. rewrite bool_decide_eq_true_2 by done. exact Hver.
Qed.
End key.
