(* ===== verification/StakingFacts.v ===== *)
(** * StakingFacts: a staked block is good (src/src/wallet.cpp, main.cpp)

    What [CreateCoinStake] builds around the kernel it finds, and what the checks of the node say
    of a block that [SignBlock] has signed: its structure, its time, its signature, its kernel
    and its reward. *)

From S2P Require Import Prelude BigNum ScriptOps Serialize Crypto Keys Core SigHash Interp InterpFacts Standard Der Signing SigningFacts Base58 TxCheck Block Mempool Chain Kernel Connect BlockCheck BlockConnect BlockConnectFacts Activate Wallet CoinSelect KeyPool CreateTx CreateTxFacts Staking StakeSign.
Import Check Inputs KeyStore VerifyFacts ConnectFacts.
Open Scope Z_scope.

(** ** Words *)
Lemma u64_add a b : u64 (u64 a + b) = u64 (a + b).
Proof. unfold u64. by rewrite Zplus_mod_idemp_l. Qed.
Lemma u64_add_i64 a b : u64 (i64 a + b) = u64 (a + b).
Proof. by rewrite <- u64_add, Mint.u64_i64, u64_add. Qed.
Lemma u64_sub a b : u64 (a - b) = u64 (u64 a - u64 b).
Proof. unfold u64. by rewrite Zminus_mod. Qed.

Section facts.
Context `{BNLib} `{!BNLibOk} `{Digests} `{!DigestsOk} `{ECLib} `{!ECLibOk} `{!SignerOk} `{SigEnv} `{NodeEnv} `{!Draws} `{KeyDraws} `{PayDraws}.
Variable w : CWallet.
Variable s : ChainState.
Variables (fConfChange : bool) (trust_fuel : nat) (nMinimumInputValue nReserveBalance nStakeMaxAge : Z).

(** What a wallet is on whose coins a node stakes: its keys are filed under their hashes, and a
    transaction it keeps is the one of that hash on the disk. *)
Record stake_wallet : Prop := {
  sw_keys : store_ok (keystore w);
  sw_count h t : mapWallet w !! h = Some t -> zlen (vout (w_tx t)) < UINT_MAX;
  sw_disk h t n txPrev txindex : mapWallet w !! h = Some t ->
    StakeKernel.ReadFromDisk (tx_index (txdb s)) ReadTx (mk_outpoint (Tx.GetHash (w_tx t)) n) = Some (txPrev, txindex) -> txPrev = w_tx t
}.

(** ** The kernel *)
Local Abbreviation kernel_ok := (StakeKernel.CheckKernel nStakeMinAge nStakeMinConfirmations (tx_index (txdb s)) ReadTx ReadHeader pindexBest).

Record found (nBits nTime todo : Z) (k : Kernel) : Prop := {
  found_time : exists n, 0 <= n < todo /\ k_time k = u32 (nTime - n);
  found_out : coin_out w (k_coin k) = Some (k_txout k);
  found_kernel : exists t o, coin_tx w (k_coin k) = Some t /\
    kernel_ok nBits (k_time k) (mk_outpoint (Tx.GetHash t) (k_coin k).2) = Some (true, o);
  found_key : stake_output w (scriptPubKey (k_txout k)) = Some (Some (k_key k, k_script k))
}.

Lemma search_times_found todo n nBits nTime prevout script time out :
  search_times w s todo n nBits nTime prevout script = Some (Some (time, out)) ->
  exists m o, n <= m < n + Z.of_nat todo /\ time = u32 (nTime - m) /\ kernel_ok nBits time prevout = Some (true, o) /\
    stake_output w script = Some (Some out).
Proof.
  revert n. induction todo as [|todo IH]; intros n; cbn [search_times]; [done|].
  destruct (kernel_ok nBits (u32 (nTime - n)) prevout) as [[ok o]|] eqn:Ek; [|done]. cbn [mbind option_bind].
  destruct ok.
  - destruct (stake_output w script) as [[x|]|]; [|done|done]. intros [= <- ->]. exists n, o. repeat split; try done; lia.
  - intros (m & o' & Hm & -> & Hk & Hs)%IH. exists m, o'. repeat split; try done; lia.
Qed.

Lemma search_coins_found todo nBits nTime coins k : search_coins w s todo nBits nTime coins = Some (Some k) ->
  found nBits nTime (Z.of_nat todo) k.
Proof.
  induction coins as [|coin coins IH]; cbn [search_coins]; [done|].
  destruct (coin_tx w coin) as [t|] eqn:Et; [|done]. cbn [mbind option_bind].
  destruct (coin_out w coin) as [txout|] eqn:Eo; [|done]. cbn [mbind option_bind].
  destruct (search_times _ _ _ _ _ _ _ _) as [[[time [key script]]|]|] eqn:Es; [| |done]; cbn [mbind option_bind]; [|done].
  intros [= <-]. apply search_times_found in Es as (m & o & Hm & -> & Hk & Hout).
  split; cbn [k_time k_coin k_txout k_key k_script]; [exists m; lia| |by exists t, o|]; done.
Qed.

(** ** The inputs *)
Definition coin_value (coin : Z * Z) : Z := match coin_out w coin with Some o => nValue o | None => 0 end.
Definition coin_values (coins : list (Z * Z)) : Z := foldr (fun c n => coin_value c + n) 0 coins.

Lemma more_coins_adds k limit l coins nCredit coins' nCredit' : more_coins w nStakeMaxAge k limit l coins nCredit = Some (coins', nCredit') ->
  exists extra, coins' = coins ++ extra /\ Forall (fun c => is_Some (coin_out w c)) extra /\ u64 nCredit' = u64 (nCredit + coin_values extra).
Proof.
  assert (forall coins nCredit, Some (coins, nCredit) = Some (coins', nCredit') ->
    exists extra, coins' = coins ++ extra /\ Forall (fun c => is_Some (coin_out w c)) extra /\ u64 nCredit' = u64 (nCredit + coin_values extra)) as Hstop.
  { intros cs n [= <- <-]. exists []. rewrite app_nil_r. cbn. by rewrite Z.add_0_r. }
  revert coins nCredit. induction l as [|coin l IH]; intros coins nCredit; cbn [more_coins]; [apply Hstop|].
  destruct (coin_tx w coin) as [t|]; [|done]. cbn [mbind option_bind].
  destruct (coin_out w coin) as [txout|] eqn:Eo; [|done]. cbn [mbind option_bind].
  destruct (coin_tx w (k_coin k)) as [first|]; [|done]. cbn [mbind option_bind]. cbv zeta.
  case_match; [|apply IH]. case_match; [apply Hstop|]. case_match; [apply Hstop|]. case_match; [apply IH|]. case_match; [apply IH|].
  intros (extra & -> & Hf & E)%IH. exists (coin :: extra). split; [by rewrite <- app_assoc|]. split; [by constructor; [rewrite Eo|]|].
  rewrite E, u64_add_i64. cbn [coin_values foldr]. fold (coin_values extra). unfold coin_value. rewrite Eo. f_equal. lia.
Qed.

Lemma coin_inputs coins vins : mapM (coin_input w) coins = Some vins -> forall i coin, coins !! i = Some coin -> exists t,
  mapWallet w !! coin.1 = Some t /\ vins !! i = Some (mk_txin (mk_outpoint (Tx.GetHash (w_tx t)) coin.2) [] UINT_MAX).
Proof.
  intros Hm%mapM_Some i coin Hi. destruct (Forall2_lookup_l _ _ _ _ _ Hm Hi) as (txin & Ht & E). unfold coin_input, coin_tx in E.
  destruct (mapWallet w !! coin.1) as [t|]; [|done]. injection E as <-. by exists t.
Qed.

(** ** The coin age looks at the inputs and the time only *)
Lemma age_loop_inputs t1 t2 db pindex l1 l2 n : nTime t1 = nTime t2 -> map prevout l1 = map prevout l2 ->
  age_loop db t1 pindex l1 n = age_loop db t2 pindex l2 n.
Proof.
  intros Ht. revert l2 n. induction l1 as [|a l1 IH]; intros [|b l2] n E; try done. injection E as Ep E. cbn [age_loop].
  assert (input_age db t1 pindex a = input_age db t2 pindex b) as ->. { unfold input_age. by rewrite Ep, Ht. }
  destruct (input_age db t2 pindex b); [|done|done]. cbn. by apply IH.
Qed.

Lemma GetCoinAge_inputs t1 t2 db pindex : nTime t1 = nTime t2 -> map prevout (vin t1) = map prevout (vin t2) ->
  Tx.IsCoinBase t1 = false -> Tx.IsCoinBase t2 = false -> GetCoinAge db t1 pindex = GetCoinAge db t2 pindex.
Proof. intros Ht Ev H1' H2'. unfold GetCoinAge. rewrite H1', H2'. by rewrite (age_loop_inputs t1 t2 db pindex (vin t1) (vin t2)). Qed.

Lemma coinbase_prevout t i : vin t !! 0%nat = Some i -> OutPoint.IsNull (prevout i) = false -> Tx.IsCoinBase t = false.
Proof. unfold Tx.IsCoinBase. destruct (vin t) as [|j [|]]; try done. intros [= ->] ->. done. Qed.

(** ** What is built around a kernel *)
Lemma build_stake_ok tx k coins limit nFees coins' tx' : stake_wallet -> coin_out w (k_coin k) = Some (k_txout k) ->
  build_stake w s nStakeMaxAge tx k coins limit nFees = Some (Some (coins', tx')) ->
  exists extra nCoinAge nCredit, let nReward := Reward.GetProofOfStakeReward nCoinAge nFees in
    coins' = k_coin k :: extra /\ Forall (fun c => is_Some (coin_out w c)) coins' /\ mapM (coin_input w) coins' = Some (vin tx') /\ nTime tx' = k_time k /\
    GetCoinAge (txdb s) tx' pindexBest = Ok nCoinAge /\ 0 < nReward /\
    u64 nCredit = u64 (coin_values coins' + (nReward - nReward / 5)) /\
    vout tx' = mk_txout 0 [] :: stake_outputs nCredit (k_script k) ++ [fund_output (nReward / 5)] /\
    exists i, vin tx' !! 0%nat = Some i /\ OutPoint.IsNull (prevout i) = false.
Proof.
  intros Hw Hout. unfold build_stake. destruct (coin_input w (k_coin k)) as [first|] eqn:Ef; [|done]. cbn [mbind option_bind].
  match goal with |- context [GetCoinAge ?a ?b ?c] => destruct (GetCoinAge a b c); [|done|done] end.
  case_match; [done|].
  destruct (more_coins _ _ _ _ _ _ _) as [[cs nCredit]|] eqn:Em; [|done]. cbn [mbind option_bind].
  apply more_coins_adds in Em as (extra & -> & Hf & Ec). cbn [app] in *.
  destruct (mapM (coin_input w) (k_coin k :: extra)) as [vins|] eqn:Ev; [|done]. cbn [mbind option_bind].
  destruct (GetCoinAge _ _ _) as [nCoinAge| |] eqn:Ea; [|done|done]. cbv iota zeta. destruct (Z.leb_spec (Reward.GetProofOfStakeReward nCoinAge nFees) 0); [done|].
  intros [= <- <-]. exists extra, nCoinAge, (i64 (nCredit + (Reward.GetProofOfStakeReward nCoinAge nFees - Reward.GetProofOfStakeReward nCoinAge nFees / 5))).
  cbv zeta. cbn [vin vout nTime]. split; [done|]. split; [by constructor; [rewrite Hout|]|]. split; [done|]. split; [done|].
  destruct (coin_inputs _ _ Ev 0%nat (k_coin k) eq_refl) as (t & Et & Ei).
  assert (OutPoint.IsNull (mk_outpoint (Tx.GetHash (w_tx t)) (k_coin k).2) = false) as Hnull.
  { unfold coin_out, coin_tx in Hout. rewrite Et in Hout. cbn in Hout. unfold at_ in Hout.
    destruct (Z.ltb_spec (k_coin k).2 0); [done|]. apply lookup_lt_Some in Hout. pose proof (sw_count Hw _ _ Et) as Hn.
    unfold OutPoint.IsNull. cbn [o_hash o_n]. rewrite (proj2 (Z.eqb_neq (k_coin k).2 _)); [apply andb_false_r|]. unfold zlen, UINT_MAX in *. lia. }
  split; [|split; [lia|split; [|split; [done|by eexists]]]].
  - rewrite <- Ea. apply GetCoinAge_inputs; [done|done| |]; eapply coinbase_prevout; try exact Ei; exact Hnull.
  - rewrite Mint.u64_i64, <- u64_add, Ec, u64_add. cbn [coin_values foldr]. fold (coin_values extra). unfold coin_value at 1. rewrite Hout. f_equal; lia.
Qed.

(** The outputs are worth the coins and the reward. *)
Lemma stake_outputs_sum nCredit script : u64 (foldr (fun o n => nValue o + n) 0 (stake_outputs nCredit script)) = u64 nCredit.
Proof.
  unfold stake_outputs. case_match; cbn [foldr nValue]; [|by rewrite Z.add_0_r].
  set (half := i64 _). rewrite Z.add_0_r, Z.add_comm, u64_add_i64. f_equal. lia.
Qed.

Lemma outputs_app (l1 l2 : list CTxOut) : foldr (fun o n => nValue o + n) 0 (l1 ++ l2) =
  foldr (fun o n => nValue o + n) 0 l1 + foldr (fun o n => nValue o + n) 0 l2.
Proof. induction l1 as [|o l1 IH]; [done|]. cbn [app foldr]. rewrite IH. lia. Qed.

Lemma value_loop_sum l n v : Tx.value_loop n l = Some v -> u64 v = u64 (n + foldr (fun o n => nValue o + n) 0 l).
Proof.
  revert n. induction l as [|o l IH]; intros n; cbn [Tx.value_loop foldr]; [intros [= ->]; by rewrite Z.add_0_r|].
  case_match; [done|]. intros E%IH. rewrite E, u64_add_i64. f_equal. lia.
Qed.

(** ** The signatures *)
Lemma sign_first coins coin txout t0 sols tx c tx' c' : store_ok (keystore w) -> cache_ok c -> coin_out w coin = Some txout ->
  Solver nMaxDatacarrierBytes (scriptPubKey txout) = (true, t0, sols) -> t0 = TX_PUBKEY \/ t0 = TX_PUBKEYHASH ->
  mapM (coin_input w) (coin :: coins) = Some (vin tx) -> sign_loop w (keystore w) (coin :: coins) 0 tx c = Some (true, tx', c') ->
  same_but_scripts tx tx' /\ exists txin t, vin tx' !! 0%nat = Some txin /\ coin_tx w coin = Some t /\
    prevout txin = mk_outpoint (Tx.GetHash t) coin.2 /\
    forall fl c2, cache_ok c2 -> (VerifyScript (scriptSig txin) (scriptPubKey txout) tx' 0 fl 0 c2).1 = true.
Proof.
  intros Hks Hc Hout Es Ht Hv. cbn [sign_loop]. pose proof (coin_inputs _ _ Hv) as Hin.
  destruct (Hin 0%nat coin eq_refl) as (t & Et & Ei). unfold coin_out, coin_tx in *. rewrite Et in *. cbn [fmap option_fmap option_map mbind option_bind] in *.
  unfold SignSignature_from. rewrite Ei. cbn [mbind option_bind prevout o_n o_hash]. rewrite Hout. cbn [mbind option_bind].
  rewrite bool_decide_eq_true_2 by done. destruct (SignSignature _ _ _ _ _ _ _) as [[[ok tx1] c1]|] eqn:Esig; [|done]. cbn [mbind option_bind].
  destruct ok; [|done]. pose proof (SignSignature_true _ _ _ _ _ _ _ _ _ Hc Esig) as (_ & _ & Hc1 & _ & _).
  destruct (SignSignature_any _ _ Hks _ _ _ _ _ _ _ _ Es Ht Hc Esig) as (scr & -> & Hver). intros Hl.
  apply sign_loop_ok in Hl as (Hs & Hlow & _ & _); [|done|].
  - split; [eapply same_trans; [apply set_scriptSig_same|exact Hs]|].
    exists (SignatureHash_.with_script (mk_txin (mk_outpoint (Tx.GetHash (w_tx t)) coin.2) [] UINT_MAX) scr), (w_tx t).
    split; [rewrite Hlow by lia; rewrite set_scriptSig_lookup, decide_True, Ei by done; done|]. split; [done|]. split; [done|].
    intros fl c2 Hc2. by apply Hver.
  - intros i coin' Hi. destruct (Hin (S i) coin' Hi) as (t' & Et' & Ei'). exists t'. split; [done|].
    rewrite set_scriptSig_lookup, decide_False by lia. cbn [Nat.add]. by rewrite Ei'.
Qed.

(** ** The kernel check of the signed coinstake *)
Lemma stake_checks nBits k t o tx txin c : stake_wallet -> Tx.IsCoinStake tx = true -> nTime tx = k_time k -> k_time k = u32 (k_time k) ->
  coin_tx w (k_coin k) = Some t -> coin_out w (k_coin k) = Some (k_txout k) ->
  kernel_ok nBits (k_time k) (mk_outpoint (Tx.GetHash t) (k_coin k).2) = Some (true, o) ->
  vin tx !! 0%nat = Some txin -> prevout txin = mk_outpoint (Tx.GetHash t) (k_coin k).2 ->
  (VerifyScript (scriptSig txin) (scriptPubKey (k_txout k)) tx 0 SCRIPT_VERIFY_NONE 0 c).1 = true ->
  exists r, StakeKernel.CheckProofOfStake nStakeMinAge nStakeMinConfirmations (tx_index (txdb s)) ReadTx ReadHeader pindexBest tx nBits c = Ok r.
Proof.
  intros Hw Hstake Htime Hu Et Eo Hk Hi Hp Hv. unfold StakeKernel.CheckKernel in Hk. unfold StakeKernel.CheckProofOfStake.
  rewrite Hstake, Hi. cbn [negb access mbind outcome_bind]. rewrite Hp.
  destruct (StakeKernel.ReadFromDisk _ _ _) as [[txPrev txindex]|] eqn:Er; [|done].
  destruct (ReadHeader _ _) as [block|] eqn:Eh; [|done]. case_match; [done|].
  destruct (IsConfirmedInNPrevBlocks _ _ _); [done|]. destruct (head pindexBest) as [prev|]; [|done]. cbn [mbind option_bind] in Hk.
  destruct (StakeKernel.CheckStakeKernelHash _ _ _ _ _ _ _) as [[ok out]|] eqn:Ec; [|done]. cbn [mbind option_bind] in Hk. injection Hk as -> _.
  rewrite <- Hu in Ec. unfold coin_tx in Et. destruct (mapWallet w !! (k_coin k).1) as [wt|] eqn:Em; [|done]. injection Et as <-.
  assert (txPrev = w_tx wt) as -> by exact (sw_disk Hw _ _ _ _ _ Em Er).
  unfold coin_out, coin_tx in Eo. rewrite Em in Eo. cbn [fmap option_fmap option_map mbind option_bind] in Eo. unfold at_ in Eo.
  destruct (Z.ltb_spec (k_coin k).2 0) as [|Hn]; [done|]. pose proof (lookup_lt_Some _ _ _ Eo) as Hlt.
  unfold VerifySignature. rewrite Hi. cbn [access mbind outcome_bind]. rewrite Hp. cbn [o_n o_hash].
  rewrite (proj2 (Z.leb_gt _ _)) by (unfold zlen; lia). rewrite Eo. cbn [access mbind outcome_bind]. rewrite Z.eqb_refl. cbn [negb].
  destruct (VerifyScript _ _ _ _ _ _ _) as [okv cv] eqn:Ev. simpl in Hv. subst okv. cbn [mbind outcome_bind negb].
  rewrite Htime, Ec. cbn [access mbind outcome_bind negb].
  assert (is_Some out) as [[h tgt] ->]; [|by eexists].
  unfold StakeKernel.CheckStakeKernelHash, StakeKernel.CheckStakeKernelHashV2 in Ec. case_match; [done|]. case_match; [done|].
  destruct (vout (w_tx wt) !! _); [|done]. cbn [mbind option_bind] in Ec. injection Ec as _ <-. by eexists.
Qed.

(** ** The reward *)
(** What the fund's address says, decoded: the version 25, the hash of the key, the checksum. *)
Definition fund_payload : bytes :=
  [B#25; B#39; B#97; B#113; B#100; B#115; B#131; B#66; B#216; B#94; B#23; B#113; B#21; B#85; B#170; B#84; B#193; B#108; B#133; B#241; B#16].
Definition fund_checksum : bytes := [B#179; B#29; B#152; B#1].
Definition fund_key : CTxDestination := CKeyID (le_val (drop 1 fund_payload)).

Lemma fund_encoded : EncodeBase58 (fund_payload ++ fund_checksum) = fund_address.
Proof. rewrite Base58Codec.EncodeBase58_digits by (vm_compute; reflexivity). vm_compute. reflexivity. Qed.

(** The main network, whose addresses have the version of the fund's, and a SHA-256 that gives the
    address its checksum (the one of the standard does). *)
Definition main_fund : Prop := prefixes = main_prefixes /\ take 4 (le_bytes 32 (Hash fund_payload)) = fund_checksum.

Lemma fund_owner : main_fund -> ToString (CBitcoinAddress prefixes fund_key) = fund_address.
Proof.
  intros [Ep Ec]. rewrite <- fund_encoded, <- Ec, Ep. unfold ToString, EncodeBase58Check, CBitcoinAddress, Address_Set, fund_key.
  cbn [snd vchVersion vchData]. change (PUBKEY_ADDRESS main_prefixes ++ le_bytes 20 (le_val (drop 1 fund_payload))) with
    ([B#25] ++ le_bytes 20 (le_val (drop 1 fund_payload))).
  rewrite (le_bytes_val 20 (drop 1 fund_payload)) by reflexivity. reflexivity.
Qed.

Lemma pays_fund_output nReward : main_fund -> 0 <= nReward < 2 ^ 64 -> pays_fund nReward (fund_output (nReward / 5)) = true.
Proof.
  intros Hm Hr. pose proof (fund_owner Hm) as Ea. destruct Hm as [Ep _]. unfold pays_fund, fund_output. cbn [scriptPubKey nValue]. rewrite <- Ea.
  assert (0 <= le_val (drop 1 fund_payload) < 2 ^ 160) as Hid by (by apply (le_val_range (drop 1 fund_payload))).
  destruct (Base58Theorems.address_roundtrip prefixes fund_key) as (Hset & Hget & _); [by rewrite Ep..|done|].
  rewrite (Hset ltac:(done)). cbn [snd]. rewrite Hget.
  destruct (DestinationFacts.ExtractDestination_SetDestination nMaxDatacarrierBytes fund_key Hid) as [-> _]. rewrite decide_False by done. cbn [default].
  rewrite bool_decide_eq_true_2 by done. rewrite Mint.u64_i64. unfold u64. rewrite Z.mod_small by (Z.div_mod_to_equations; lia). apply Z.eqb_refl.
Qed.

(** On the test network no output has the fund's address: it starts with another version. *)
Lemma testnet_address dest : ToString (CBitcoinAddress testnet_prefixes dest) <> fund_address.
Proof.
  rewrite <- fund_encoded. unfold ToString, EncodeBase58Check. intros E.
  assert (forall v, zlen v < 2 ^ 20 -> EncodeBase58 v = EncodeBase58 (fund_payload ++ fund_checksum) -> v = fund_payload ++ fund_checksum) as Hinj.
  { intros v Hv Ev. assert ((true, v) = (true, fund_payload ++ fund_checksum)) as [= ->]; [|done].
    rewrite <- (Base58Codec.DecodeBase58_Encode v) by lia. rewrite Ev. apply Base58Codec.DecodeBase58_Encode. vm_compute. reflexivity. }
  destruct dest as [|id|id]; apply Hinj in E.
  all: try (rewrite zlen_app; unfold zlen; rewrite Base58Theorems.length_checksum, ?length_app, ?length_le_bytes; cbn; rewrite ?length_le_bytes; lia).
  - apply (f_equal length) in E. rewrite length_app, Base58Theorems.length_checksum in E. discriminate E.
  - discriminate E.
  - discriminate E.
Qed.

(** So [ConnectBlock] refuses every proof-of-stake block above height 25 there, the wallet's own too. *)
Theorem testnet_stake_refused db this pprev b nFees nStakeReward : prefixes = testnet_prefixes -> 25 < nHeight this ->
  check_stake_reward db this pprev b nFees nStakeReward <> Ok ().
Proof.
  intros Ep Hh. unfold check_stake_reward. destruct (vtx b !! 1%nat) as [tx|]; [|done]. cbn [access mbind outcome_bind].
  destruct (keep_points _) as [age| |]; [|done|done]. cbn [mbind outcome_bind]. destruct (_ <? u64 nStakeReward); [done|]. cbn [reject_if mbind outcome_bind].
  rewrite (proj2 (Z.ltb_lt _ _) Hh). cbn [andb]. destruct (existsb _ _) eqn:E; [|done].
  apply existsb_exists in E as (o & _ & E). unfold pays_fund in E. apply andb_true_iff in E as [E%bool_decide_eq_true _].
  rewrite Ep in E. by apply testnet_address in E.
Qed.

Lemma reward_accepted (this : CBlockIndex) b tx nFees nCoinAge nStakeReward : vtx b !! 1%nat = Some tx -> GetCoinAge (txdb s) tx pindexBest = Ok nCoinAge ->
  u64 nStakeReward = u64 (Reward.GetProofOfStakeReward nCoinAge nFees) ->
  fund_output (Reward.GetProofOfStakeReward nCoinAge nFees / 5) ∈ vout tx -> (25 < nHeight this -> main_fund) ->
  check_stake_reward (txdb s) this pindexBest b nFees nStakeReward = Ok ().
Proof.
  intros Ev Ea Er Hin Hfund. unfold check_stake_reward. rewrite Ev. cbn [access mbind outcome_bind]. rewrite Ea. cbn [keep_points mbind outcome_bind].
  set (nReward := Reward.GetProofOfStakeReward nCoinAge nFees) in *.
  assert (0 <= nReward < 2 ^ 64) as Hr by (unfold nReward, Reward.GetProofOfStakeReward, u64; by apply Z.mod_pos_bound).
  assert (u64 nReward = nReward) as Eu by (unfold u64; by apply Z.mod_small). rewrite Er, Eu, Z.ltb_irrefl. cbn [reject_if mbind outcome_bind].
  destruct (Z.ltb_spec 25 (nHeight this)) as [Hh|]; [|done]. cbn [andb].
  assert (existsb (pays_fund nReward) (vout tx) = true) as ->; [|done].
  apply existsb_exists. exists (fund_output (nReward / 5)). split; [by apply list_elem_of_In|]. apply pays_fund_output; [by apply Hfund|done].
Qed.

(** What the inputs are worth to [ConnectBlock]. *)
Definition fetched (inputs : MapPrevTx) : Prop := forall h t e, mapWallet w !! h = Some t -> inputs !! Tx.GetHash (w_tx t) = Some e -> e.2 = w_tx t.

Lemma value_in_coins inputs coins vins n v : fetched inputs -> Forall (fun c => is_Some (coin_out w c)) coins ->
  mapM (coin_input w) coins = Some vins -> forall l, map prevout l = map prevout vins -> value_in inputs n l = Some v -> u64 v = u64 (n + coin_values coins).
Proof.
  intros Hf Hc. revert vins n. induction Hc as [|coin coins [o Eo] Hc IH]; intros vins n Hm.
  { injection Hm as <-. intros [|] E; [|done]. cbn. intros [= ->]. by rewrite Z.add_0_r. }
  apply mapM_Some in Hm. inversion Hm as [|? i0 ? vins' Hi Hm' E1 E2]; subst. unfold coin_input, coin_tx in Hi.
  destruct (mapWallet w !! coin.1) as [t|] eqn:Et; [|done]. injection Hi as <-. apply mapM_Some in Hm'. intros [|txin l] E; [done|]. injection E as Ep E.
  cbn [value_in]. unfold GetOutputFor at 1. rewrite Ep. cbn [o_hash o_n]. destruct (inputs !! Tx.GetHash (w_tx t)) as [e|] eqn:Ee; [|done].
  pose proof (Hf _ _ _ Et Ee) as Etx. destruct e as [ti tp]. simpl in Etx. subst tp. cbn [mbind option_bind].
  unfold coin_out, coin_tx in Eo. rewrite Et in Eo. cbn [fmap option_fmap option_map mbind option_bind] in Eo. unfold at_ in Eo.
  destruct (Z.ltb_spec coin.2 0); [done|]. pose proof (lookup_lt_Some _ _ _ Eo) as Hlt.
  rewrite (proj2 (Z.leb_gt _ _)) by (unfold zlen; lia). rewrite Eo. cbn [mbind option_bind]. intros Hv. rewrite (IH _ _ Hm' _ E Hv), u64_add_i64.
  cbn [coin_values foldr]. fold (coin_values coins). unfold coin_value, coin_out, coin_tx, at_. rewrite Et. cbn [fmap option_fmap option_map mbind option_bind].
  rewrite (proj2 (Z.ltb_ge _ _)), Eo by lia. f_equal. lia.
Qed.

(** ** [CreateCoinStake] *)
(** What is true of a coinstake that is made. *)
Record staked (nBits nFees time : Z) (tx : CTransaction) (key : CKey) : Prop := {
  st_stake : Tx.IsCoinStake tx = true;
  st_time : nTime tx = u32 time;
  st_outputs : exists o0 o1 os v, vout tx = o0 :: o1 :: os /\ key_wf key /\
    Solver nMaxDatacarrierBytes (scriptPubKey o1) = (true, TX_PUBKEY, [v]) /\ PrivKey.GetPubKey key = Some (PubKey.Set_ v);
  st_kernel : forall c, cache_ok c -> exists r,
    StakeKernel.CheckProofOfStake nStakeMinAge nStakeMinConfirmations (tx_index (txdb s)) ReadTx ReadHeader pindexBest tx nBits c = Ok r;
  st_reward : exists nCoinAge, let nReward := Reward.GetProofOfStakeReward nCoinAge nFees in
    GetCoinAge (txdb s) tx pindexBest = Ok nCoinAge /\ fund_output (nReward / 5) ∈ vout tx /\
    forall inputs nIn nOut, fetched inputs -> GetValueIn tx inputs = Some nIn -> Tx.GetValueOut tx = Some nOut -> u64 (nOut - nIn) = u64 nReward
}.

Lemma stake_outputs_head nCredit script : exists v os, stake_outputs nCredit script = mk_txout v script :: os.
Proof. unfold stake_outputs. case_match; by eexists _, _. Qed.

Lemma paid_reward nCredit script nIn nReward : u64 nCredit = u64 (nIn + (nReward - nReward / 5)) ->
  u64 (0 + (0 + (foldr (fun o n => nValue o + n) 0 (stake_outputs nCredit script) + (i64 (nReward / 5) + 0))) - (0 + nIn)) = u64 nReward.
Proof.
  intros Hc. pose proof (stake_outputs_sum nCredit script) as Hs. set (out := foldr _ _ _) in *. set (fund := nReward / 5) in *.
  replace (0 + (0 + (out + (i64 fund + 0))) - (0 + nIn)) with (out + (i64 fund - nIn)) by lia.
  rewrite <- u64_add, Hs, Hc, u64_add. replace (nIn + (nReward - fund) + (i64 fund - nIn)) with (i64 fund + (nReward - fund)) by lia.
  rewrite u64_add_i64. f_equal. lia.
Qed.

Lemma same_prevouts t1 t2 : same_but_scripts t1 t2 -> map prevout (vin t1) = map prevout (vin t2).
Proof.
  intros (_ & _ & _ & _ & E). apply (f_equal (map prevout)) in E. rewrite !map_map in E. exact E.
Qed.

Lemma coin_age_signed t1 t2 db pindex i : same_but_scripts t1 t2 -> vin t1 !! 0%nat = Some i -> OutPoint.IsNull (prevout i) = false ->
  GetCoinAge db t1 pindex = GetCoinAge db t2 pindex.
Proof.
  intros Hs Hi Hn. pose proof (same_prevouts _ _ Hs) as Hp. destruct Hs as (_ & Ht & _). apply GetCoinAge_inputs; [done|done|by eapply coinbase_prevout|].
  destruct (vin t1) as [|j l1]; [done|]. injection Hi as ->. destruct (vin t2) as [|j2 l2] eqn:E2; [done|]. injection Hp as Hp _.
  eapply coinbase_prevout; [by rewrite E2|]. by rewrite <- Hp.
Qed.

Lemma kernel_staked nBits nFees time tx0 k limit coins0 coins tx c tx' c' : stake_wallet -> cache_ok c -> found nBits time 1 k ->
  build_stake w s nStakeMaxAge tx0 k coins0 limit nFees = Some (Some (coins, tx)) ->
  sign_loop w (keystore w) coins 0 tx c = Some (true, tx', c') -> staked nBits nFees time tx' (k_key k).
Proof.
  intros Hw Hc [(n & Hn & Htime) Hout (t & o & Et & Hk) Hkey] Hb Hsign.
  replace (time - n) with time in Htime by lia.
  destruct (build_stake_ok _ _ _ _ _ _ _ Hw Hout Hb) as (extra & nCoinAge & nCredit & -> & Hcoins & Hv & Ht & Hage & Hrew & Hcred & Hvout & i & Hi & Hnull).
  destruct (stake_output_key w (sw_keys Hw) _ _ _ Hkey) as (t0 & sols & v & Es & Ht0 & Hwf & Es1 & Epk).
  destruct (sign_first _ _ _ _ _ _ _ _ _ (sw_keys Hw) Hc Hout Es Ht0 Hv Hsign) as (Hsame & txin & t' & Hin & Et' & Hp & Hver).
  rewrite Et in Et'. injection Et' as <-. pose proof (same_prevouts _ _ Hsame) as Hprev. pose proof (coin_age_signed _ _ (txdb s) pindexBest i Hsame Hi Hnull) as Hage'.
  destruct Hsame as (Hver' & Htt & _ & Hoo & _). destruct (stake_outputs_head nCredit (k_script k)) as (v1 & os & Hhead).
  assert (OutPoint.IsNull (prevout txin) = false) as Hnull'.
  { destruct (vin tx) as [|j l1]; [done|]. injection Hi as ->. destruct (vin tx') as [|j2 l2]; [done|]. injection Hin as ->. injection Hprev as E _. by rewrite <- E. }
  assert (Tx.IsCoinStake tx' = true) as Hstake.
  { unfold Tx.IsCoinStake. destruct (vin tx') as [|j l]; [done|]. injection Hin as ->. rewrite <- Hoo, Hvout, Hhead. cbn [app]. by rewrite Hnull'. }
  split.
  - done.
  - congruence.
  - rewrite <- Hoo, Hvout, Hhead. cbn [app]. eexists _, _, _, v. split; [done|]. by split_and!.
  - intros c0 Hc0. apply (stake_checks nBits k t o tx' txin c0 Hw Hstake); try done; [congruence| |by apply Hver].
    rewrite Htime. unfold u32. by rewrite Z.mod_mod.
  - exists nCoinAge. cbv zeta. split; [congruence|]. set (nReward := Reward.GetProofOfStakeReward nCoinAge nFees) in *.
    split; [rewrite <- Hoo, Hvout; right; apply elem_of_app; right; left|].
    intros inputs nIn nOut Hf HIn HOut. unfold GetValueIn in HIn. rewrite (coinbase_prevout _ _ Hin Hnull') in HIn.
    rewrite u64_sub, (value_in_coins _ _ _ _ _ Hf Hcoins Hv _ (eq_sym Hprev) HIn). unfold Tx.GetValueOut in HOut.
    apply value_loop_sum in HOut. rewrite HOut, <- Hoo, Hvout, <- u64_sub. cbn [foldr nValue]. rewrite outputs_app. cbn [foldr nValue fund_output].
    by apply paid_reward.
Qed.

Lemma CreateCoinStake_staked nBits nFees tx0 c tx key c' : stake_wallet -> cache_ok c ->
  CreateCoinStake w s fConfChange trust_fuel nMinimumInputValue nReserveBalance nStakeMaxAge nBits 1 nFees tx0 c = Some (Some (tx, key), c') ->
  staked nBits nFees (nTime tx0) tx key.
Proof.
  intros Hw Hc. unfold CreateCoinStake. destruct (GetBalance _ _ _ _) as [nBalance|]; [|done]. cbn [mbind option_bind]. case_match; [done|].
  destruct (SelectCoinsForStaking _ _ _ _ _) as [[ok [setCoins v]]|]; [|done]. cbn [mbind option_bind]. case_match; [done|].
  destruct (search_coins _ _ _ _ _ _) as [[k|]|] eqn:Ek; [|done|done]. cbn [mbind option_bind].
  destruct (build_stake _ _ _ _ _ _ _ _) as [[[coins tx1]|]|] eqn:Eb; [|done|done]. cbn [mbind option_bind].
  destruct (sign_loop _ _ _ _ _ _) as [[[oks tx2] c2]|] eqn:Es; [|done]. cbn [mbind option_bind]. destruct oks; [|done]. cbn [negb].
  case_match; [done|]. intros [= <- <- <-]. apply search_coins_found in Ek. by eapply kernel_staked.
Qed.

(** ** [SignBlock] *)
Lemma stake_time_masked : Z.land stake_time StakeKernel.STAKE_TIMESTAMP_MASK = 0 /\ u32 stake_time = stake_time.
Proof.
  unfold stake_time, StakeKernel.STAKE_TIMESTAMP_MASK. split; [apply Z.land_ldiff|].
  change 15 with (Z.ones 4). rewrite Z.ldiff_ones_r, Z.shiftl_mul_pow2, Z.shiftr_div_pow2 by lia.
  pose proof (Z.mod_pos_bound adjusted_time (2 ^ 32) ltac:(lia)). unfold u32. apply Z.mod_small. Z.div_mod_to_equations; lia.
Qed.

Lemma place_stake_parts b tx coinbase rest : vtx b = coinbase :: rest -> Tx.IsCoinStake tx = true -> let b' := place_stake b tx in
  (exists coinbase', vtx b' = coinbase' :: tx :: filter (fun t => nTime t <= nTime tx) rest /\ nTime coinbase' = nTime tx) /\
  b_nTime b' = nTime tx /\ nBits b' = nBits b /\ Block.IsProofOfStake b' = true /\ hashMerkleRoot b' = (Merkle.BuildMerkleTree (Merkle.block_txids b')).1.
Proof.
  intros Ev Hs. unfold place_stake. rewrite Ev. destruct (Merkle.BuildMerkleTree _) as [root tree] eqn:Em. cbv zeta.
  split; [by eexists|]. split; [done|]. split; [done|]. split; [done|]. done.
Qed.

(** C18. A block that [SignBlock] signs is a good proof-of-stake block: its second transaction is a
    coinstake with the time of the block, which has the granularity of the protocol; the others
    are those of the template that are not newer; its Merkle root and its signature are good; the
    kernel of the coinstake passes [CheckProofOfStake] on the best block, whatever
    signatures are known; and when its transactions pay the fees that the coinstake
    counted on, the reward passes the check of [ConnectBlock]: at heights up to 25 on any network, and
    with the share of the fund above on the main network, of which the fund's address is
    ([main_fund], on the SHA-256 that gives the address its checksum).  On the test network
    the check fails above height 25 ([testnet_stake_refused]). *)
Theorem SignBlock_stakes b nFees st c b' st' c' : stake_wallet -> cache_ok c -> Block.IsProofOfStake b = false ->
  SignBlock w s fConfChange trust_fuel nMinimumInputValue nReserveBalance nStakeMaxAge b nFees st c = Some (true, b', st', c') ->
  exists coinbase coinstake rest, vtx b' = coinbase :: coinstake :: rest /\ Block.IsProofOfStake b' = true /\
    nTime coinbase = b_nTime b' /\ rest = filter (fun t => nTime t <= b_nTime b') (tail (vtx b)) /\
    StakeKernel.CheckCoinStakeTimestamp (b_nTime b') (nTime coinstake) = true /\
    hashMerkleRoot b' = (Merkle.BuildMerkleTree (Merkle.block_txids b')).1 /\
    CheckBlockSignature scrypt_blockhash nMaxDatacarrierBytes b' = true /\
    (forall c0, cache_ok c0 -> exists r, StakeKernel.CheckProofOfStake nStakeMinAge nStakeMinConfirmations (tx_index (txdb s)) ReadTx ReadHeader
      pindexBest coinstake (nBits b') c0 = Ok r) /\
    (forall this inputs nIn nOut, fetched inputs -> GetValueIn coinstake inputs = Some nIn -> Tx.GetValueOut coinstake = Some nOut ->
      (25 < nHeight this -> main_fund) -> check_stake_reward (txdb s) this pindexBest b' nFees (i64 (nOut - nIn)) = Ok ()).
Proof.
  intros Hw Hc Hpos. unfold SignBlock. destruct (vtx b) as [|coinbase rest] eqn:Ev; [done|]. cbn [head mbind option_bind].
  destruct (head (vout coinbase)) as [o|]; [|done]. cbn [mbind option_bind]. case_match; [done|]. rewrite Hpos. case_match; [done|].
  destruct (CreateCoinStake _ _ _ _ _ _ _ _ _ _ _ _) as [[[[tx key]|] c1]|] eqn:Ecs; [|done|done]. cbn [mbind option_bind].
  destruct (head pindexBest) as [best|]; [|done]. cbn [mbind option_bind]. case_match; [done|].
  destruct (PrivKey.Sign key (BlockHash (place_stake b tx))) as [sig|] eqn:Esig; [|done]. intros [= <- <- <-].
  apply CreateCoinStake_staked in Ecs as [Hstake Htime (o0 & o1 & os & v & Eo & Hwf & Es & Ep) Hkernel (nCoinAge & Hage & Hfund & Hval)]; [|done|done].
  cbn [nTime] in Htime. destruct stake_time_masked as [Hmask Hu]. rewrite Hu in Htime.
  destruct (place_stake_parts b tx coinbase rest Ev Hstake) as ((coinbase' & Evtx & Etime) & Ebt & Ebits & Epos & Eroot).
  exists coinbase', tx, (filter (fun t => nTime t <= nTime tx) rest).
  change (Block.IsProofOfStake (with_sig ?b _)) with (Block.IsProofOfStake b). change (vtx (with_sig ?b _)) with (vtx b).
  change (b_nTime (with_sig ?b _)) with (b_nTime b). change (nBits (with_sig ?b _)) with (nBits b).
  change (hashMerkleRoot (with_sig ?b _)) with (hashMerkleRoot b). change (Merkle.block_txids (with_sig ?b _)) with (Merkle.block_txids b).
  rewrite Ebt, Ebits. split; [done|]. split; [done|]. split; [done|].
  split; [done|].
  split; [unfold StakeKernel.CheckCoinStakeTimestamp; by rewrite Z.eqb_refl, Htime, Hmask|]. split; [done|].
  split; [by eapply CheckBlockSignature_signed|]. split; [done|].
  intros this inputs nIn nOut Hf HIn HOut Hvalid.
  apply (reward_accepted this _ tx nFees nCoinAge); [by change (vtx (with_sig ?b _)) with (vtx b); rewrite Evtx|done| |done|done].
  rewrite Mint.u64_i64. by apply (Hval inputs).
Qed.
End facts.
