(* ===== verification/StakingCheck.v ===== *)
(** * StakingCheck: a small wallet that stakes

    The theorem on signed blocks at a wallet with three coins, and a template with a
    transaction that [SignBlock] drops although the coinstake has been paid its fee. *)

From S2P Require Import Prelude BigNum ScriptOps Serialize Crypto Keys Core SigHash Interp InterpFacts Standard Spending Der Signing SigningFacts SigningCheck Base58 TxCheck Block Mempool Chain Kernel Connect BlockCheck BlockConnect BlockConnectFacts Activate ActivateExamples Wallet CoinSelect KeyPool KeyPoolFacts CreateTx PaymentCheck Staking StakeSign StakingFacts.
Import Check Inputs ConnectFacts BlockConnectExamples.
Open Scope Z_scope.
(** The digests of the other examples, but for the checksum of the fund's address, which is the one that
    SHA-256 gives. *)
#[local] Instance fund_digests : Digests := {|
  SHA256 m := if decide (m = mixed_digest 32 fund_payload) then fund_checksum ++ replicate 28 B#0 else mixed_digest 32 m;
  SHA1 := mixed_digest 20; RIPEMD160 := mixed_digest 20; HMAC_SHA512 k m := mixed_digest 64 (k ++ m) |}.
#[local] Existing Instances ref_bn ref_bn_ok signing_ec signing_ec_ok signing_ec_signs toy_env toy_draws counting_draws pay_draws.

#[local] Instance fund_digests_ok : DigestsOk.
Proof. split; intros; try apply length_le_bytes. unfold SHA256, fund_digests. case_decide; [reflexivity|apply length_le_bytes]. Qed.

(** Eight seconds after a time at which a coinstake can be. *)
Definition staking_node : NodeEnv := {|
  scrypt_blockhash _ := 0; ProofOfWorkLimit := 2 ^ 236; adjusted_time := 1600000008; nMaxDatacarrierBytes := 80;
  prefixes := main_prefixes; nCoinbaseMaturity := 10; nStakeMinAge := 6 * 60 * 60; nStakeMinConfirmations := 5;
  pindexBest := [wallet_block 105 None 15 0; wallet_block 100 (Some 105) 10 received_hash]; nBestHeight := 15;
  TotalBlocksEstimate := -1; mempool_txs := ∅; ReadTx _ := Some received; ReadHeader _ _ := Some toy_header |}.
#[local] Existing Instance staking_node.

Definition staking_chain : ChainState :=
  mk_chain (mapBlockIndex wallet_chain) (Some 100) (Some 105) 105 15 20 0 ∅
    (mk_txdb {[ received_hash := TxIndex.of_pos (mk_pos 2 100 180) 5 ]} ∅ (Some 105) None) Pool.empty_pool empty_cache.

Definition late_tx : CTransaction := mk_tx 1 1600000005 [mk_txin (mk_outpoint 5 1) [] 0] [mk_txout 7 [B#OP_1]] 0.
Definition early_tx : CTransaction := mk_tx 1 1600000000 [mk_txin (mk_outpoint 5 2) [] 0] [mk_txout 8 [B#OP_1]] 0.
Definition stake_coinbase : CTransaction := mk_tx 1 1600000008 [mk_txin OutPoint.null [B#1; B#OP_1] UINT_MAX] [TxOut.SetEmpty] 0.
Definition unsigned_block : CBlock := mk_block 7 105 0 1600000008 0x2000ffff 0 [stake_coinbase; late_tx; early_tx] [] [].

Definition signed (nFees : Z) : option (bool * CBlock * SignState * CSignatureCache) :=
  SignBlock toy_wallet staking_chain true 0 CENT 0 (100 * 24 * 60 * 60) unsigned_block nFees (mk_sign (Some 0) 0) empty_cache.

Definition summary (r : option (bool * CBlock * SignState * CSignatureCache)) : option (bool * list Z * list (list Z)) :=
  (fun r => (r.1.1.1, map nTime (vtx r.1.1.2), map (fun t => map nValue (vout t)) (vtx r.1.1.2))) <$> r.
Example signed_summary : summary (signed 90) =
  Some (true, [1600000000; 1600000000; 1600000000], [[0]; [0; 10293858; 1823464]; [8]]).
Proof. vm_compute. reflexivity. Qed.

(** ** The theorem at this wallet *)
Lemma staking_wallet : stake_wallet toy_wallet staking_chain.
Proof.
  split.
  - split; cbn [mapKeys mapScripts toy_wallet keystore wallet_store].
    + intros id k [<- <-]%lookup_singleton_Some. split; [exact my_key_wf|]. exists my_pk. split; vm_compute; reflexivity.
    + intros id scr Hl. by rewrite lookup_empty in Hl.
  - intros h t ->%toy_entry. vm_compute. reflexivity.
  - intros h t n txPrev txindex ->%toy_entry. unfold StakeKernel.ReadFromDisk. destruct (tx_index _ !! _) as [ti|]; [|discriminate].
    cbn [mbind option_bind ReadTx staking_node]. destruct (zlen (vout received) <=? _); [discriminate|]. by intros [= <- _].
Qed.

(** What [ConnectBlock] fetches for the coinstake, and what it is worth. *)
Definition stake_inputs : MapPrevTx := {[ received_hash := (TxIndex.of_pos (mk_pos 2 100 180) 5, received) ]}.
Lemma stake_fetched : StakingFacts.fetched toy_wallet stake_inputs.
Proof.
  intros h t e ->%toy_entry. unfold stake_inputs. intros [_ <-]%lookup_singleton_Some. reflexivity.
Qed.
Definition stake_values (r : option (bool * CBlock * SignState * CSignatureCache)) : option (option Z * option Z) :=
  '(_, b, _, _) ← r; coinstake ← vtx b !! 1%nat; Some (GetValueIn coinstake stake_inputs, Tx.GetValueOut coinstake).
Example signed_values : stake_values (signed 90) = Some (Some (3 * CENT), Some (10293858 + 1823464)).
Proof. vm_compute. reflexivity. Qed.

(** A block at height 30 on the main network: the share of the fund is looked for, and found. *)
Definition stake_index : CBlockIndex := wallet_block 106 None 30 0.
Lemma main_fund_here : main_fund.
Proof. split; vm_compute; reflexivity. Qed.

Lemma SignBlock_stakes_witness : exists b st c, signed 90 = Some (true, b, st, c) /\ Block.IsProofOfStake b = true /\
  CheckBlockSignature scrypt_blockhash nMaxDatacarrierBytes b = true /\ nHeight stake_index = 30 /\
  check_stake_reward (txdb staking_chain) stake_index pindexBest b 90 (i64 (10293858 + 1823464 - 3 * CENT)) = Ok ().
Proof.
  pose proof signed_summary as Hs. pose proof signed_values as Hv.
  destruct (signed 90) as [[[[ok b] st] c]|] eqn:E; [|discriminate Hs]. injection Hs as -> _ _. unfold signed in E.
  destruct (SignBlock_stakes toy_wallet staking_chain true 0 CENT 0 (100 * 24 * 60 * 60) unsigned_block 90 (mk_sign (Some 0) 0) empty_cache b st c
    staking_wallet empty_cache_ok eq_refl E) as (coinbase & coinstake & rest & Ev & Hpos & _ & _ & _ & _ & Hsig & _ & Hreward).
  unfold stake_values in Hv. cbn [mbind option_bind] in Hv. rewrite Ev in Hv. cbn [lookup list_lookup mbind option_bind] in Hv.
  injection Hv as Hin Hout.
  exists b, st, c. split; [reflexivity|]. split; [exact Hpos|]. split; [exact Hsig|]. split; [reflexivity|].
  apply (Hreward stake_index stake_inputs); [exact stake_fetched|exact Hin|exact Hout|]. intros _. exact main_fund_here.
Defined.

(** ** A dropped transaction *)
(** The template holds a transaction with a fee of 90 that is newer than the coinstake.  [SignBlock] drops it,
    but the coinstake is paid the 90 all the same: the reward would be right for a block with
    these fees, and [ConnectBlock], which adds up the fees of the block, refuses it. *)
Definition reward_verdict (nFees : Z) : option (outcome ()) :=
  '(_, b, _, _) ← signed 90;
  coinstake ← vtx b !! 1%nat;
  nOut ← Tx.GetValueOut coinstake;
  Some (check_stake_reward (txdb staking_chain) (wallet_block 106 None 16 0) pindexBest b nFees (i64 (nOut - 3 * CENT))).
Example dropped_fee : reward_verdict 90 = Some (Ok ()) /\ reward_verdict 0 = Some (Fail 100).
Proof. split; vm_compute; reflexivity. Qed.
